(* ===== verification/_CoqProject ===== *)
-Q . S2P
Prelude.v
StdMap.v
UInt128.v
NetworkFunctions.v
RateLimiter.v
DeadSourceList.v
CorruptionBlackBox.v
DataIO.v
ECSocket.v
ECTag.v
ValueMap.v
MemFile.v
RC4Encrypt.v
EncryptedDatagramSocket.v
Tag.v
ClientCredits.v
ClientCreditsList.v
SecureIdent.v
AICHHashList.v
KadEntry.v
KadIndex.v
KadAnswer.v
HashTree.v
HashSet.v
HashTrust.v
GapList.v
RangeMap.v
IPFilter.v
RLE.v
BitVector.v
BanRecord.v
Contact.v
RoutingBin.v
AgedMap.v
SafeKad.v
RoutingZone.v
RoutingTable.v
RoutingQueries.v
NodesFile.v
PacketTracking.v
