(* ===== verification/Prelude.v ===== *)
(** * aMule: a verification library of its core data structures and of the Kad overlay

    aMule is a client of the eD2k and Kad file-sharing networks.  This library models the parts
    of it that decide by computation rather than by input and output: the routing table of Kad
    with its protections, the bookkeeping and the hash trees of part files, the obfuscation of
    datagrams, the external forms that files, packets and the external control protocol share,
    and the data structures below them.  Source paths are relative to [src/src/].

    ** Parts and files

    Foundations
    - [Prelude]: w-bit integers as [Z] with explicit wrapping ([wrap]), list lemmas, automation.
    - [StdMap]: [std::map], [std::set], [std::multimap] as lists in increasing key order over the
      interface [KeyOrder]; an iterator is the pair of the entries before it and from it on.
    - [UInt128]: [kademlia/utils/UInt128.{h,cpp}], four 32-bit chunks and the number they denote.
    - [NetworkFunctions]: [NetworkFunctions.{h,cpp}], IPv4 text and the classes of addresses.

    Files and tags
    - [DataIO]: [SafeFile.{h,cpp}].  The typed readers and writers of [CFileDataIO] in a monad of
      state and exceptions over the class of its primitives ([doRead], [doWrite], [doSeek], ...);
      [FileLaws] is what they rely on; [parses], [writes] and [yields] are the shared theory of
      external forms (what a reader accepts, what a writer appends, what is read back).
    - [MemFile]: [MemFile.{h,cpp}], the implementation of that interface in memory.
    - [Tag]: [Tag.{h,cpp}] and the tag functions of [SafeFile.cpp], both external forms.

    External control protocol (daemon and remote interfaces)
    - [ECSocket]: the number formats of [libs/ec/cpp/ECSocket.cpp] on strings of bytes.
    - [ECTag]: [libs/ec/cpp/ECTag.{h,cpp}], [ECPacket.{h,cpp}], [ECUInt128.cpp].  Trees of tags as
      an inductive type, written and read recursively.
    - [ValueMap]: [CValueMap] of [libs/ec/cpp/ECSpecialTags.h], which sends only what changed.

    Obfuscation
    - [RC4Encrypt]: [RC4Encrypt.{h,cpp}], the cipher and the buffer over [MemFile].
    - [EncryptedDatagramSocket]: [EncryptedDatagramSocket.{h,cpp}], packets to clients and servers.

    AICH hashes ([SHAHashSet.{h,cpp}])
    - [HashTree]: the tree of hashes over blocks and parts, SHA-1 being a parameter.
    - [HashSet]: a file's set, recovery data and its verification; [HashTrust]: which root hash
      reported by other clients is trusted.

    Bookkeeping
    - [GapList]: [GapList.{h,cpp}], the missing byte ranges of a part file.
    - [RangeMap]: [RangeMap.h], maps of disjoint ranges.
    - [IPFilter]: [IPFilter.{h,cpp}], the address filter that is loaded through a range map and packed.
    - [RLE]: [RLE.{h,cpp}], run-length coded differences sent to remote interfaces.
    - [BitVector]: [BitVector.h], part status vectors.
    - [BanRecord]: [BanRecord.h], the banned client addresses.
    - [DeadSourceList]: [DeadSourceList.{h,cpp}], sources left alone for a while.
    - [CorruptionBlackBox]: [CorruptionBlackBox.{h,cpp}], who sent corrupt data.
    - [RateLimiter]: [libs/common/RateLimiter.{h,cpp}] and the request path of [webapi/Api.cpp]
      that asks it.

    Clients
    - [ClientCredits]: [ClientCredits.{h,cpp}], traffic, key and waiting time of a user hash.
    - [ClientCreditsList]: [ClientCreditsList.{h,cpp}], the list and its file [clients.met].
    - [SecureIdent]: the signatures of [ClientCreditsList.cpp] and the packets of secure identification
      in [BaseClient.cpp] and [ClientTCPSocket.cpp], RSA being a parameter.

    Kad
    - [Contact]: [kademlia/routing/Contact.{h,cpp}], [kademlia/utils/KadUDPKey.h].  Contacts are
      shared by pointer, so they live in a heap ([gmap] from addresses).
    - [RoutingBin]: [kademlia/routing/RoutingBin.{h,cpp}] with the two global tracking maps.
    - [RoutingZone]: [kademlia/routing/RoutingZone.{h,cpp}] and the timer loop of
      [kademlia/kademlia/Kademlia.cpp], a tree of zones.
    - [RoutingTable]: its invariant ([table_ok]), its step relation ([kad_step], [kad_reach]) and
      what each operation does; [RoutingQueries]: what the queries answer.
    - [AgedMap], [SafeKad]: [kademlia/net/SafeKad.{h,cpp}], identities, problems and bans.
    - [PacketTracking]: [kademlia/net/PacketTracking.{h,cpp}], request tracking and flood limits.
    - [AICHHashList]: [kademlia/kademlia/AICHHashList.{h,cpp}], the AICH hashes that the publishers
      of an entry report, with their counts.
    - [KadEntry]: [kademlia/kademlia/Entry.{h,cpp}], what is published of a file, by whom and how
      far it is trusted.
    - [KadIndex]: [kademlia/kademlia/Indexed.{h,cpp}], the tables of keywords, sources, notes and
      loads; [KadAnswer]: the packets that answer searches.
    - [NodesFile]: [ReadFile], [ReadBootstrapNodesDat] and [WriteFile] of [RoutingZone.cpp], which
      join the routing table to the typed files.

    ** How the parts interact

    A Kad packet first passes [PacketTracking]; its contact is offered to the table by
    [AddFiltered] or [AddUnfiltered], which ask [NetworkFunctions] (is the address usable),
    [SafeKad] (is the identity credible) and then descend the zones to a bin, splitting full
    leaves.  The timers sweep dead contacts and merge sparse zones.  [NodesFile] stores and
    reloads the table over the interface of [DataIO], which [MemFile] implements.  A publication
    becomes a [KadEntry] that [KadIndex] merges with the stored one; the entry's slots of
    [AICHHashList] and the global map of publishers are part of its state.  Searches write entries
    with the tags of [Tag] into a [MemFile] that is sent and rewound.  Datagrams are encrypted and
    decrypted with the cipher of [RC4Encrypt] whose buffer is a memory file; recovery
    data of [HashSet] is written and read over the same interface.  [ValueMap] decides which tags
    of [ECTag] are put in an answer; [ECTag] writes them with the numbers of [ECSocket].  [IPFilter] reads
    its ranges into a [RangeMap]; the packets of [SecureIdent] change the [ClientCredits] that
    [ClientCreditsList] stores over the interface of [DataIO].  A client's
    theorems are proved against the interface ([KeyOrder], [Aged], [CFileDataIO], [FileLaws],
    [wxConvLaws]) and the implementation discharges it.

    ** What the theorems show

    - Routing table: every reachable table is a well-formed tree whose contacts are alive,
      distinct, filed by the bits of their distance and counted exactly by the tracking maps;
      the answer to an offer tells what became of the contact; offers, updates, sweeps, splits and
      merges lose, leak and free nothing they should not; the queries return the
      closest contacts, bounded samples and the counts of a flat list.
    - [SafeKad]: a verified identity resists unverified packets, nobody is banned without a
      repeated verified change, the three tables stay bounded.
    - [PacketTracking]: at most the allowed requests pass within their period, an answer passes
      only if a request of that kind was sent to that address shortly before.
    - [AICHHashList], [KadEntry]: an entry holds one report for each of its latest hundred
      publishers, its AICH slots count exactly the publishers that point at them, and what is
      stored or sent of it is read back.
    - [KadIndex], [KadAnswer]: every reachable index is bounded, its totals count its entries and
      the global map the publishers of each network; publications replace what they should; an
      answer consists of the matching entries in order, in full packets and one with the rest.
    - [GapList], [RangeMap], [BitVector], [RLE], [BanRecord]: the structures refine sets of bytes,
      partial maps, boolean vectors, synchronised buffers and ban histories.
    - [CorruptionBlackBox]: its records and accounts refine a ledger of bytes, and only senders of
      corrupt bytes are banned.  [DeadSourceList], [RateLimiter]: who is refused and until when,
      and that every refusal ends.
    - [HashTree], [HashSet], [HashTrust]: genuine recovery data is accepted by a set without wrong hashes
      and without half-grown nodes off the way to the part; what is accepted is tied to the root
      hash along paths of nodes that have their hashes, unless SHA-1 collides, and below a node
      without one it is not; and a root hash is trusted by the votes the constants ask for, when
      the preference to trust every hash is off.
    - [IPFilter]: an address is filtered exactly as the last valid line that covers it says, and the
      networks wait for the filter and for nothing else.
    - [SecureIdent]: nobody is identified or credited without a signature accepted by the stored key,
      and two honest clients identify each other in every interleaving, proved by a simulation onto
      a finite system that is explored.  [ClientCredits]: the ratio's bounds and the protected times.
    - [ClientCreditsList]: the file is read back, and whatever it holds is loaded safely.
    - [RC4Encrypt], [EncryptedDatagramSocket]: what is encrypted is decrypted, however cut and for
      each kind of key; no datagram makes the decryption leave its buffer.
    - [ECSocket], [ECTag], [ValueMap]: the number formats are canonical, packets are read back with
      their values, any bytes are read in bounded time and space, and incremental updates are
      as good as full answers.
    - [DataIO], [MemFile], [Tag], [NodesFile]: readers return values of the documented type or
      throw, in every case leaving a well-formed file; what a writer appends is read back, text
      with the encoding it was written in, short eD2k strings in Latin-1 only where their length
      is the same in UTF-8.
    - [UInt128], [NetworkFunctions]: arithmetic, order and text forms against the numbers meant.

    ** Bounds and fuel

    [ADD_FUEL] is 128: a descent visits at most one zone per level and levels end at 127
    ([kad_offer] proves that an offer always answers).  The retry loops of [GapList], [RangeMap]
    and [RLE] are structural over lists or carry their bound in the theorem.  [read_fuel] of [ECTag] is
    the number of bytes and three: a tag takes at least three bytes ([ec_packet_total] proves that it
    never runs out).  [PACK_FUEL] of [IPFilter] is 40, as a range has at most 32 parts of 2^27 addresses and
    two smaller ones; the bisection's fuel is the size of the table.  Files in memory are
    assumed to stay below 2^62 bytes, which the allocator parameter may refuse earlier.

    ** Simplifications

    - One call reads one tick of the clock, given as an argument; [time_t] is an unbounded
      integer, tick counters wrap at 64 bits.
    - Reading a dead address would give an arbitrary contact; the invariant shows that every
      address the table holds is alive.
    - [ProcessZones] serves the zones from left to right; the code's order is that of a map of
      pointers.
    - Log output, the [theStats] counters and the [wxASSERT] traps (where they do not return) are
      left out; [wxFAIL] on a tracking underflow is counted.
    - Code outside the repository is a parameter with laws where needed: the UTF-8 and Latin-1
      conversions of wxWidgets, [realloc], white-space stripping, random numbers, the IP filter
      as the table calls it.  Raw floats are little-endian as on the supported hosts.
    - File names, opening and closing files are left out of [NodesFile].
    - An AICH hash cut off by the end of a file throws before the old bytes of its buffer are changed.
    - Data of length 0 in a tag of [ECTag] is the NULL pointer; what was written of a packet before a
      number that cannot be written is not modelled.  [ValueMap] leaves out floating-point numbers.
    - [CorruptionBlackBox] makes a record for positions its constructor refuses with [wxFAIL]; no
      range of a file within the size limit leads there.
    - MD5, SHA-1 and random bytes are parameters; nothing is claimed of their strength.
    - The credits of a hash are shared by pointer with the clients that claim it; the hash stands for the
      pointer.  What a scanner reads of the filter's files is an argument of [IPFilter].
    - Double arithmetic and the case rules of wxWidgets are parameters of [KadEntry].  An entry of
      the index belongs to one table only; the packets of an answer are listed as they are sent.

    ** Not modelled

    Sockets, servers, the transfers and queues of clients, user interfaces, the web interface, preferences,
    disk threads and platform code are input and output around these parts, or state machines
    over sockets and timers that do not separate from them.  [EstimateCount] of [RoutingZone.cpp]
    is floating-point statistics.  Of the AICH code the file of stored hash sets and its cache are
    left out, of the external control protocol the sockets' queues, compression, sealing and
    authentication, of the Kad index its three files.  Kad searches are state machines over the
    answers of remote nodes.  The scanner of the IP filter is generated; the key file of secure
    identification is written and read by a cryptographic library. *)
From Stdlib Require Export Ascii.
From stdpp Require Export strings prelude list gmap.
From Stdlib Require Export ZArith Lia Sorted.

Create HintDb amule.

#[global] Open Scope Z_scope.

(** [lia] reasons about division and remainder by constants. *)
Ltac Zify.zify_post_hook ::= Z.to_euclidean_division_equations.

(** ** Machine integers: a w-bit unsigned integer is a [Z] in [0, 2^w). *)

Definition wrap (w z : Z) : Z := z mod 2 ^ w.

Abbreviation u8 := (wrap 8) (only parsing).
Abbreviation u16 := (wrap 16) (only parsing).
Abbreviation u32 := (wrap 32) (only parsing).
Abbreviation u64 := (wrap 64) (only parsing).

Definition in_width (w z : Z) : Prop := 0 <= z < 2 ^ w.

#[export] Instance in_width_dec w z : Decision (in_width w z).
Proof. unfold in_width. apply _. Defined.

(** The signed 64-bit reading of a value ([int64_t], [sint64], [time_t]). *)
Definition swrap (w z : Z) : Z := (z + 2 ^ (w - 1)) mod 2 ^ w - 2 ^ (w - 1).

Lemma wrap_range w z : 0 <= w -> in_width w (wrap w z).
Proof. intros. apply Z.mod_pos_bound. apply Z.pow_pos_nonneg; lia. Qed.

Lemma wrap_small w z : in_width w z -> wrap w z = z.
Proof. apply Z.mod_small. Qed.

Lemma wrap_wrap w z : 0 <= w -> wrap w (wrap w z) = wrap w z.
Proof. intros. apply wrap_small, wrap_range; lia. Qed.

Lemma in_width_weaken w w' z : 0 <= w <= w' -> in_width w z -> in_width w' z.
Proof.
  intros Hw [H1 H2]. split; [lia|].
  pose proof (Z.pow_le_mono_r 2 w w'). lia.
Qed.

(** Bit-level bounds. *)
Lemma in_width_testbit w z :
  0 <= w -> 0 <= z -> (forall i, w <= i -> Z.testbit z i = false) -> in_width w z.
Proof.
  intros Hw Hz H. split; [done|].
  assert (z = z mod 2 ^ w) as ->; [|apply Z.mod_pos_bound, Z.pow_pos_nonneg; lia].
  apply Z.bits_inj'. intros i Hi.
  destruct (Z.ltb_spec i w) as [|Hge].
  - by rewrite Z.mod_pow2_bits_low by lia.
  - by rewrite H, Z.mod_pow2_bits_high by lia.
Qed.

Lemma testbit_in_width w z i :
  in_width w z -> 0 <= w <= i -> Z.testbit z i = false.
Proof.
  intros Hz Hi. rewrite <- (Z.mod_small z (2 ^ w)) by done.
  apply Z.mod_pow2_bits_high. lia.
Qed.

Lemma lxor_in_width w a b : 0 <= w -> in_width w a -> in_width w b -> in_width w (Z.lxor a b).
Proof.
  intros Hw Ha Hb. apply in_width_testbit; [done| |].
  - apply Z.lxor_nonneg. destruct Ha, Hb. tauto.
  - intros i Hi. rewrite Z.lxor_spec.
    by rewrite (testbit_in_width w a), (testbit_in_width w b) by (done || lia).
Qed.

Lemma lor_in_width w a b : 0 <= w -> in_width w a -> in_width w b -> in_width w (Z.lor a b).
Proof.
  intros Hw Ha Hb. apply in_width_testbit; [done| |].
  - apply Z.lor_nonneg. destruct Ha, Hb. tauto.
  - intros i Hi. rewrite Z.lor_spec.
    by rewrite (testbit_in_width w a), (testbit_in_width w b) by (done || lia).
Qed.

Lemma land_in_width_l w a b : 0 <= w -> in_width w a -> 0 <= b -> in_width w (Z.land a b).
Proof.
  intros Hw Ha Hb. apply in_width_testbit; [done| |].
  - apply Z.land_nonneg. destruct Ha. tauto.
  - intros i Hi. rewrite Z.land_spec. by rewrite (testbit_in_width w a) by (done || lia).
Qed.

(** Disjoint bit fields. *)
Lemma lor_shiftl_add a b n : in_width n a -> 0 <= n -> Z.lor a (Z.shiftl b n) = a + 2 ^ n * b.
Proof.
  intros Ha Hn. pose proof (Z.add_lor_land a (Z.shiftl b n)) as H.
  assert (Z.land a (Z.shiftl b n) = 0) as H0.
  - apply Z.bits_inj'. intros i Hi. rewrite Z.land_spec, Z.bits_0.
    destruct (Z.ltb_spec i n) as [Hlt|Hge].
    + rewrite (Z.shiftl_spec_low b n i) by lia. apply andb_false_r.
    + by rewrite (testbit_in_width n a i) by (done || lia).
  - rewrite Z.shiftl_mul_pow2 in * by lia. lia.
Qed.

(** ** Sizes the protocol fixes ([include/protocol/ed2k/Constants.h]) *)

Definition PARTSIZE : Z := 9728000.
Definition EMBLOCKSIZE : Z := 184320.
Definition OLD_MAX_FILE_SIZE : Z := 4290048000.
Definition MAX_FILE_SIZE : Z := 0x4000000000.

(** Case analysis on a boolean comparison of the code, with the arithmetic fact it decides. *)
Ltac case_cmp :=
  match goal with
  | |- context [?a <? ?b] => destruct (Z.ltb_spec a b)
  | |- context [?a <=? ?b] => destruct (Z.leb_spec a b)
  | |- context [?a =? ?b] => destruct (Z.eqb_spec a b)
  | |- context [?a >? ?b] => rewrite (Z.gtb_ltb a b); destruct (Z.ltb_spec b a)
  | |- context [?a >=? ?b] => rewrite (Z.geb_leb a b); destruct (Z.leb_spec b a)
  end.

Ltac case_cmp_as H :=
  match goal with
  | |- context [?a <? ?b] => destruct (Z.ltb_spec a b) as [H|H]
  | |- context [?a <=? ?b] => destruct (Z.leb_spec a b) as [H|H]
  | |- context [?a =? ?b] => destruct (Z.eqb_spec a b) as [H|H]
  | |- context [?a >? ?b] => rewrite (Z.gtb_ltb a b); destruct (Z.ltb_spec b a) as [H|H]
  | |- context [?a >=? ?b] => rewrite (Z.geb_leb a b); destruct (Z.leb_spec b a) as [H|H]
  end.

(** The same in a hypothesis. *)
Ltac case_cmp_in H :=
  match type of H with
  | context [?a <? ?b] => destruct (Z.ltb_spec a b)
  | context [?a <=? ?b] => destruct (Z.leb_spec a b)
  | context [?a =? ?b] => destruct (Z.eqb_spec a b)
  | context [?a >? ?b] => rewrite (Z.gtb_ltb a b) in H; destruct (Z.ltb_spec b a)
  | context [?a >=? ?b] => rewrite (Z.geb_leb a b) in H; destruct (Z.leb_spec b a)
  end.

(** The comparisons of the code, as facts. *)
Ltac bool_facts :=
  repeat match goal with
  | H : (_ && _)%bool = true |- _ => apply andb_prop in H as [? ?]
  | H : (_ && _)%bool = false |- _ => apply andb_false_iff in H
  | H : (_ || _)%bool = true |- _ => apply orb_prop in H
  | H : (_ || _)%bool = false |- _ => apply orb_false_elim in H as [? ?]
  end;
  rewrite ?Z.geb_leb, ?Z.gtb_ltb, ?Z.leb_le, ?Z.leb_gt, ?Z.ltb_lt, ?Z.ltb_ge,
    ?Z.eqb_eq, ?Z.eqb_neq in *.

(** Unfold the constants [2 ^ w] that occur for the widths the code uses. *)
Ltac norm_pow :=
  change (2 ^ 8) with 256 in *; change (2 ^ 16) with 65536 in *;
  change (2 ^ 32) with 4294967296 in *;
  change (2 ^ 64) with 18446744073709551616 in *;
  change (2 ^ 63) with 9223372036854775808 in *.

Ltac width_lia := unfold wrap, in_width in *; norm_pow; lia.

(** ** Lists *)

Lemma Forall_app_iff {A} (P : A -> Prop) l1 l2 :
  Forall P (l1 ++ l2) <-> Forall P l1 /\ Forall P l2.
Proof. apply Forall_app. Qed.

Fixpoint sumZ (l : list Z) : Z :=
  match l with [] => 0 | x :: t => x + sumZ t end.

Lemma sumZ_app l1 l2 : sumZ (l1 ++ l2) = sumZ l1 + sumZ l2.
Proof. induction l1; simpl; lia. Qed.

Lemma StronglySorted_app_iff {A} (R : A -> A -> Prop) l1 l2 :
  StronglySorted R (l1 ++ l2) <->
  StronglySorted R l1 /\ StronglySorted R l2 /\ Forall (fun x => Forall (R x) l2) l1.
Proof.
  induction l1 as [|x l1 IH]; simpl.
  - split; [intros H; repeat split; [constructor|done|constructor] | tauto].
  - split.
    + intros H. inversion H as [|? ? Hs Hf]; subst.
      apply IH in Hs as (? & ? & ?). apply Forall_app in Hf as [? ?].
      repeat split; [constructor; done|done|constructor; done].
    + intros (H1 & H2 & H3). inversion H1; subst. inversion H3; subst.
      constructor; [apply IH; done | apply Forall_app; done].
Qed.

Lemma filter_all {A} (P : A -> Prop) `{forall x, Decision (P x)} (l : list A) :
  Forall P l -> filter P l = l.
Proof.
  induction 1 as [|x l Hx Hl IH]; [done|]. rewrite list.filter_cons, decide_True by done. by rewrite IH.
Qed.
