(* ===== verification/StdMap.v ===== *)
(** * Ordered associative containers

    [std::map], [std::set] and [std::multimap] as the code uses them: a list of entries in
    strictly increasing key order.  The order of the keys is an interface ([KeyOrder]) that
    each key type of the code discharges once; the lemmas on look-up, insertion, erasure and
    the bounds are proved against the interface. *)
From S2P Require Import Prelude.

(** The strict order of the keys ([operator<] or [std::less]); two keys neither of which is
    below the other are the same key. *)
Class KeyOrder (K : Type) := {
  kltb : K -> K -> bool;
  kltb_irrefl : forall x, kltb x x = false;
  kltb_trans : forall x y z, kltb x y = true -> kltb y z = true -> kltb x z = true;
  kltb_total : forall x y, kltb x y = false -> kltb y x = false -> x = y
}.

#[export] Program Instance Z_KeyOrder : KeyOrder Z := {| kltb := Z.ltb |}.
Next Obligation. intros. apply Z.ltb_irrefl. Qed.
Next Obligation. intros x y z. rewrite !Z.ltb_lt. lia. Qed.
Next Obligation. intros x y. rewrite !Z.ltb_ge. lia. Qed.

(** Lexicographic order of pairs ([std::pair]'s [operator<]). *)
Definition pair_ltb {A B} `{KeyOrder A} `{KeyOrder B} (x y : A * B) : bool :=
  kltb x.1 y.1 || (negb (kltb y.1 x.1) && kltb x.2 y.2).

Section Order.
Context {K : Type} `{KeyOrder K}.

Lemma kltb_asym x y : kltb x y = true -> kltb y x = false.
Proof.
  intros Hxy. destruct (kltb y x) eqn:E; [|done].
  pose proof (kltb_trans x y x Hxy E) as Hxx. by rewrite kltb_irrefl in Hxx.
Qed.

Lemma kltb_le_trans x y z : kltb y x = false -> kltb y z = true -> kltb x z = true.
Proof.
  intros Hyx Hyz. destruct (kltb x y) eqn:E; [eauto using kltb_trans|].
  by rewrite (kltb_total x y).
Qed.

Lemma kltb_lt_le_trans x y z : kltb x y = true -> kltb z y = false -> kltb x z = true.
Proof.
  intros Hxy Hyz. destruct (kltb y z) eqn:E; [eauto using kltb_trans|].
  by rewrite <- (kltb_total y z).
Qed.

Lemma kltb_ne x y : kltb x y = true -> x <> y.
Proof. intros Hlt ->. by rewrite kltb_irrefl in Hlt. Qed.

Lemma kltb_ne_sym x y : kltb y x = true -> x <> y.
Proof. intros Hlt ->. by rewrite kltb_irrefl in Hlt. Qed.

(** The same or different: what a look-up needs to know of two keys. *)
Lemma key_eq_or_ne (x y : K) : x = y \/ x <> y.
Proof.
  destruct (kltb x y) eqn:E1; [right; by apply kltb_ne|].
  destruct (kltb y x) eqn:E2; [right; by apply kltb_ne_sym|left; by apply kltb_total].
Qed.

Lemma key_cases x y :
  (kltb x y = true /\ kltb y x = false) \/ (kltb x y = false /\ kltb y x = true) \/
  (x = y /\ kltb x y = false /\ kltb y x = false).
Proof.
  destruct (kltb x y) eqn:E1, (kltb y x) eqn:E2; eauto.
  - pose proof (kltb_asym _ _ E1). congruence.
  - right; right. split; [by apply kltb_total|done].
Qed.
End Order.

#[export] Program Instance pair_KeyOrder {A B} `{KeyOrder A} `{KeyOrder B} :
  KeyOrder (A * B) := {| kltb := pair_ltb |}.
Next Obligation. intros A B ?? [a b]. unfold pair_ltb; simpl. by rewrite !kltb_irrefl. Qed.
Next Obligation.
  intros A B ?? [a b] [c d] [e f]. unfold pair_ltb; simpl.
  intros H1%orb_prop H2%orb_prop.
  destruct H1 as [H1|[H1%negb_true_iff H1']%andb_prop],
           H2 as [H2|[H2%negb_true_iff H2']%andb_prop].
  - by rewrite (kltb_trans a c e).
  - by rewrite (kltb_lt_le_trans a c e).
  - by rewrite (kltb_le_trans a c e).
  - destruct (kltb e a) eqn:E1.
    + pose proof (kltb_le_trans c e a H2 E1). congruence.
    + rewrite (kltb_trans b d f) by done. by rewrite orb_true_r.
Qed.
Next Obligation.
  intros A B ?? [a b] [c d]. unfold pair_ltb; simpl.
  intros [H1 H2]%orb_false_elim [H3 H4]%orb_false_elim.
  pose proof (kltb_total a c H1 H3) as ->. rewrite kltb_irrefl in *. simpl in *.
  f_equal. by apply kltb_total.
Qed.

(** ** The operations *)
Section Ops.
Context {K V : Type} `{KeyOrder K}.
Implicit Types (k : K) (v : V) (m : list (K * V)).

(** [map::find], [None] standing for [end()]. *)
Fixpoint mfind k m : option V :=
  match m with
  | [] => None
  | (k', v) :: t =>
      if kltb k k' then None else if kltb k' k then mfind k t else Some v
  end.

(** [map[k] = v]: insert or overwrite. *)
Fixpoint mset k v m : list (K * V) :=
  match m with
  | [] => [(k, v)]
  | (k', v') :: t =>
      if kltb k k' then (k, v) :: m
      else if kltb k' k then (k', v') :: mset k v t
      else (k, v) :: t
  end.

(** [map::insert]: does nothing when the key is present. *)
Fixpoint minsert k v m : list (K * V) :=
  match m with
  | [] => [(k, v)]
  | (k', v') :: t =>
      if kltb k k' then (k, v) :: m
      else if kltb k' k then (k', v') :: minsert k v t
      else m
  end.

(** [map::erase(key)]. *)
Fixpoint merase k m : list (K * V) :=
  match m with
  | [] => []
  | (k', v') :: t =>
      if kltb k k' then m
      else if kltb k' k then (k', v') :: merase k t
      else t
  end.

(** [map::lower_bound]: the entries before the iterator and those from it on. *)
Fixpoint lower_bound k m : list (K * V) * list (K * V) :=
  match m with
  | [] => ([], [])
  | (k', v') :: t =>
      if kltb k' k then let '(a, b) := lower_bound k t in ((k', v') :: a, b)
      else ([], m)
  end.

(** [map::upper_bound]. *)
Fixpoint upper_bound k m : list (K * V) * list (K * V) :=
  match m with
  | [] => ([], [])
  | (k', v') :: t =>
      if kltb k k' then ([], m)
      else let '(a, b) := upper_bound k t in ((k', v') :: a, b)
  end.

Definition klt (a b : K * V) : Prop := kltb a.1 b.1 = true.

(** The container's representation invariant. *)
Definition msorted m : Prop := StronglySorted klt m.

(** ** Lemmas *)

Lemma msorted_cons k v m :
  msorted ((k, v) :: m) <-> msorted m /\ Forall (fun e => kltb k e.1 = true) m.
Proof.
  split.
  - intros Hs. inversion Hs; subst. done.
  - intros [? ?]. constructor; done.
Qed.

Lemma msorted_app m1 m2 :
  msorted (m1 ++ m2) <->
  msorted m1 /\ msorted m2 /\ Forall (fun x => Forall (klt x) m2) m1.
Proof. apply StronglySorted_app_iff. Qed.

Lemma mfind_below k m : Forall (fun e => kltb k e.1 = true) m -> mfind k m = None.
Proof. destruct m as [|[k' v'] m]; [done|]. inversion 1; subst. simpl in *. by case_match. Qed.

Lemma mfind_above k m : Forall (fun e => kltb e.1 k = true) m -> mfind k m = None.
Proof.
  induction 1 as [|[k' v'] m Hk _ IH]; [done|]. simpl in *.
  by rewrite (kltb_asym _ _ Hk), Hk.
Qed.

Lemma mfind_In k v m : msorted m -> mfind k m = Some v <-> (k, v) ∈ m.
Proof.
  induction m as [|[k' v'] m IH]; simpl.
  { split; [done|]. by intros ?%not_elem_of_nil. }
  rewrite msorted_cons. intros [Hs Hall]. rewrite elem_of_cons.
  destruct (key_cases k k') as [[H1 H2]|[[H1 H2]|[-> [H1 _]]]]; rewrite ?H1, ?H2.
  - split; [done|]. intros [[= -> ->]|Hin]; [by rewrite kltb_irrefl in H1|].
    rewrite Forall_forall in Hall. specialize (Hall _ Hin). simpl in Hall.
    pose proof (kltb_trans _ _ _ H1 Hall) as E. by rewrite kltb_irrefl in E.
  - rewrite IH by done. split; [by right|]. intros [[= -> ->]|?]; [|done].
    by rewrite kltb_irrefl in H2.
  - split; [intros [= ->]; by left|]. intros [[= ->]|Hin]; [done|].
    rewrite Forall_forall in Hall. specialize (Hall _ Hin). simpl in Hall.
    by rewrite kltb_irrefl in Hall.
Qed.

Lemma mfind_set_eq k v m : mfind k (mset k v m) = Some v.
Proof.
  induction m as [|[k' v'] m IH]; simpl; [by rewrite kltb_irrefl|].
  destruct (key_cases k k') as [[H1 H2]|[[H1 H2]|[-> [H1 _]]]]; rewrite ?H1, ?H2; simpl;
    rewrite ?H1, ?H2, ?kltb_irrefl; done.
Qed.

Lemma mfind_set_ne k k0 v m : k <> k0 -> mfind k (mset k0 v m) = mfind k m.
Proof.
  intros Hne. induction m as [|[k' v'] m IH]; simpl.
  - destruct (key_cases k k0) as [[H1 H2]|[[H1 H2]|[-> ?]]]; rewrite ?H1, ?H2; done.
  - destruct (key_cases k0 k') as [[H1 H2]|[[H1 H2]|[-> [H1 _]]]]; rewrite ?H1, ?H2; simpl.
    + destruct (key_cases k k0) as [[H3 H4]|[[H3 H4]|[-> ?]]]; rewrite ?H3, ?H4; [|done..].
      by rewrite (kltb_trans _ _ _ H3 H1).
    + by rewrite IH.
    + destruct (key_cases k k') as [[H3 H4]|[[H3 H4]|[-> ?]]]; rewrite ?H3, ?H4; done.
Qed.

Lemma mset_Forall (P : K * V -> Prop) k v m :
  P (k, v) -> Forall P m -> Forall P (mset k v m).
Proof.
  intros Hp. induction 1 as [|[k' v'] m Hp' Hm IH]; simpl; [by repeat constructor|].
  repeat case_match; repeat constructor; done.
Qed.

Lemma msorted_set k v m : msorted m -> msorted (mset k v m).
Proof.
  induction m as [|[k' v'] m IH]; simpl; [by repeat constructor|].
  rewrite msorted_cons. intros [Hs Hall].
  destruct (key_cases k k') as [[H1 H2]|[[H1 H2]|[-> [H1 _]]]]; rewrite ?H1, ?H2.
  - apply msorted_cons. split; [by apply msorted_cons|]. constructor; [done|].
    eapply Forall_impl; [exact Hall|]. intros e He. simpl in *. eauto using kltb_trans.
  - apply msorted_cons. split; [by apply IH|]. by apply mset_Forall.
  - by apply msorted_cons.
Qed.

Lemma merase_sub k m e : e ∈ merase k m -> e ∈ m.
Proof.
  induction m as [|[k' v'] m IH]; simpl; [done|].
  rewrite elem_of_cons. repeat case_match; rewrite ?elem_of_cons; intuition.
Qed.

Lemma msorted_erase k m : msorted m -> msorted (merase k m).
Proof.
  induction m as [|[k' v'] m IH]; simpl; [done|].
  intros Hs. pose proof Hs as [Hs' Hall]%msorted_cons.
  repeat case_match; [done| |done].
  apply msorted_cons. split; [by apply IH|].
  rewrite Forall_forall in *. intros e He. apply Hall. by eapply merase_sub.
Qed.

Lemma mfind_erase_eq k m : msorted m -> mfind k (merase k m) = None.
Proof.
  induction m as [|[k' v'] m IH]; simpl; [done|]. intros [Hs Hall]%msorted_cons.
  destruct (key_cases k k') as [[H1 H2]|[[H1 H2]|[-> [H1 _]]]]; rewrite ?H1, ?H2; simpl;
    rewrite ?H1, ?H2; [done|by apply IH|].
  by apply mfind_below.
Qed.

Lemma mfind_erase_ne k k0 m : msorted m -> k <> k0 -> mfind k (merase k0 m) = mfind k m.
Proof.
  intros Hs Hne. induction m as [|[k' v'] m IH]; simpl; [done|].
  apply msorted_cons in Hs as [Hs Hall].
  destruct (key_cases k0 k') as [[H1 H2]|[[H1 H2]|[-> [H1 _]]]]; rewrite ?H1, ?H2; simpl;
    [done|by rewrite IH|].
  destruct (key_cases k k') as [[H3 H4]|[[H3 H4]|[-> ?]]]; rewrite ?H3, ?H4; [|done..].
  apply mfind_below. eapply Forall_impl; [exact Hall|]. intros e He. eauto using kltb_trans.
Qed.

(** [insert] on a fresh key is [operator[]=]. *)
Lemma minsert_fresh k v m : msorted m -> mfind k m = None -> minsert k v m = mset k v m.
Proof.
  induction m as [|[k' v'] m IH]; simpl; [done|]. intros [Hs Hall]%msorted_cons.
  destruct (kltb k k'); [done|]. destruct (kltb k' k); [|done].
  intros. by rewrite IH.
Qed.

Lemma minsert_found k v v0 m : mfind k m = Some v0 -> minsert k v m = m.
Proof.
  induction m as [|[k' v'] m IH]; simpl; [done|].
  destruct (kltb k k'); [done|]. destruct (kltb k' k); [|done].
  intros. by rewrite IH.
Qed.

(** Two containers with the same look-ups are the same. *)
Lemma msorted_ext m1 m2 :
  msorted m1 -> msorted m2 -> (forall k, mfind k m1 = mfind k m2) -> m1 = m2.
Proof.
  revert m2. induction m1 as [|[k1 v1] m1 IH]; intros [|[k2 v2] m2] Hs1 Hs2 Heq.
  - done.
  - specialize (Heq k2). simpl in Heq. by rewrite kltb_irrefl in Heq.
  - specialize (Heq k1). simpl in Heq. by rewrite kltb_irrefl in Heq.
  - pose proof Hs1 as [Hs1' Ha1]%msorted_cons. pose proof Hs2 as [Hs2' Ha2]%msorted_cons.
    pose proof (Heq k1) as E1. pose proof (Heq k2) as E2. simpl in E1, E2.
    rewrite !kltb_irrefl in E1. rewrite !kltb_irrefl in E2.
    destruct (key_cases k1 k2) as [[H1 H2]|[[H1 H2]|[-> [H1 _]]]];
      rewrite ?H1, ?H2 in E1; rewrite ?H1, ?H2 in E2; [done..|].
    injection E1 as ->. f_equal. apply IH; [done..|]. intros k.
    specialize (Heq k). simpl in Heq.
    destruct (key_cases k k2) as [[H3 H4]|[[H3 H4]|[-> ?]]]; rewrite ?H3, ?H4 in Heq;
      [|done|by rewrite !mfind_below].
    rewrite !mfind_below; [done|..];
      (eapply Forall_impl; [eassumption|]; intros e He; eauto using kltb_trans).
Qed.

Lemma length_mset_fresh k v m : mfind k m = None -> msorted m -> length (mset k v m) = S (length m).
Proof.
  induction m as [|[k' v'] m IH]; simpl; [done|]. intros Hf [Hs Hall]%msorted_cons.
  destruct (kltb k k'); [done|]. destruct (kltb k' k); [|done]. simpl. by rewrite IH.
Qed.

Lemma length_mset_found k v v0 m : mfind k m = Some v0 -> length (mset k v m) = length m.
Proof.
  induction m as [|[k' v'] m IH]; simpl; [done|].
  destruct (kltb k k'); [done|]. destruct (kltb k' k); [|done]. intros. simpl. by rewrite IH.
Qed.

Lemma length_merase_found k v0 m : mfind k m = Some v0 -> length m = S (length (merase k m)).
Proof.
  induction m as [|[k' v'] m IH]; simpl; [done|].
  destruct (kltb k k'); [done|]. destruct (kltb k' k); [|done]. intros. simpl. by rewrite IH.
Qed.

Lemma merase_absent k m : mfind k m = None -> merase k m = m.
Proof.
  induction m as [|[k' v'] m IH]; simpl; [done|].
  destruct (kltb k k'); [done|]. destruct (kltb k' k); [|done]. intros. by rewrite IH.
Qed.

Lemma length_merase_le k m : (length (merase k m) <= length m)%nat.
Proof.
  destruct (mfind k m) eqn:E; [by rewrite (length_merase_found k v m); auto|].
  by rewrite merase_absent.
Qed.

(** As a bag of bindings, [mset] puts one in the place of the old one. *)
Lemma mset_perm_fresh k v m : mfind k m = None -> mset k v m ≡ₚ (k, v) :: m.
Proof.
  induction m as [|[k' v'] m IH]; simpl; [done|]. intros Hf.
  destruct (kltb k k'); [done|]. destruct (kltb k' k); [|done]. rewrite IH by done. apply Permutation_swap.
Qed.

Lemma mset_perm_found k v0 m : mfind k m = Some v0 ->
  exists m', m ≡ₚ (k, v0) :: m' /\ forall v, mset k v m ≡ₚ (k, v) :: m'.
Proof.
  induction m as [|[k' v'] m IH]; simpl; [done|]. intros Hf.
  destruct (kltb k k') eqn:E1; [done|]. destruct (kltb k' k) eqn:E2.
  - destruct (IH Hf) as (m' & H1 & H2). exists ((k', v') :: m'). split; [rewrite H1; apply Permutation_swap|].
    intros v. rewrite H2. apply Permutation_swap.
  - injection Hf as ->. destruct (key_cases k k') as [[H1 _]|[[H1 H2]|[-> _]]]; [congruence|congruence|]. by exists m.
Qed.

Lemma merase_perm k v0 m : mfind k m = Some v0 -> m ≡ₚ (k, v0) :: merase k m.
Proof.
  induction m as [|[k' v'] m IH]; simpl; [done|]. intros Hf.
  destruct (kltb k k') eqn:E1; [done|]. destruct (kltb k' k) eqn:E2.
  - rewrite (IH Hf) at 1. apply Permutation_swap.
  - injection Hf as ->. destruct (key_cases k k') as [[H1 _]|[[H1 H2]|[-> _]]]; [congruence|congruence|done].
Qed.

Lemma lower_bound_spec k m pre suf :
  lower_bound k m = (pre, suf) ->
  m = pre ++ suf /\ Forall (fun e => kltb e.1 k = true) pre /\
  match suf with [] => True | e :: _ => kltb e.1 k = false end.
Proof.
  revert pre suf. induction m as [|[k' v'] m IH]; simpl; intros pre suf.
  { by intros [= <- <-]. }
  destruct (kltb k' k) eqn:E.
  - destruct (lower_bound k m) as [a b]. intros [= <- <-].
    destruct (IH _ _ eq_refl) as (-> & ? & ?). repeat split; [by constructor|done].
  - intros [= <- <-]. by repeat split.
Qed.

Lemma lower_bound_sorted k m pre suf :
  msorted m -> lower_bound k m = (pre, suf) ->
  m = pre ++ suf /\ Forall (fun e => kltb e.1 k = true) pre /\
  Forall (fun e => kltb e.1 k = false) suf.
Proof.
  intros Hs Hlb. apply lower_bound_spec in Hlb as (-> & Hp & Hh). repeat split; [done|].
  apply msorted_app in Hs as (_ & Hs & _). destruct suf as [|[k' v'] suf]; [done|].
  apply msorted_cons in Hs as [_ Hs]. constructor; [done|].
  eapply Forall_impl; [exact Hs|]. intros e He. simpl in *.
  destruct (kltb e.1 k) eqn:E; [|done]. pose proof (kltb_trans _ _ _ He E). congruence.
Qed.

Lemma upper_bound_spec k m pre suf :
  msorted m -> upper_bound k m = (pre, suf) ->
  m = pre ++ suf /\ Forall (fun e => kltb k e.1 = false) pre /\
  Forall (fun e => kltb k e.1 = true) suf.
Proof.
  revert pre suf. induction m as [|[k' v'] m IH]; simpl; intros pre suf Hs.
  { by intros [= <- <-]. }
  apply msorted_cons in Hs as [Hs Hall].
  destruct (kltb k k') eqn:E.
  - intros [= <- <-]. repeat split; [done|]. constructor; [done|].
    eapply Forall_impl; [exact Hall|]. intros e He. simpl in *. eauto using kltb_trans.
  - destruct (upper_bound k m) as [a b]. intros [= <- <-].
    destruct (IH _ _ Hs eq_refl) as (-> & ? & ?). repeat split; [by constructor|done].
Qed.
End Ops.

(** Removing the entries that fail a test. *)
Section Filter.
Context {K V : Type} {Ko : KeyOrder K} (P : K * V -> Prop) `{forall x, Decision (P x)}.

Lemma msorted_filter (m : list (K * V)) : msorted m -> msorted (filter P m).
Proof.
  unfold msorted. induction 1 as [|x m Hs IH Hx]; [constructor|]. rewrite list.filter_cons.
  case_match; [|done]. constructor; [done|]. rewrite Forall_forall in *. intros y Hy.
  apply Hx. by apply list_elem_of_filter in Hy as [_ ?].
Qed.

Lemma mfind_filter (m : list (K * V)) k :
  msorted m -> mfind k (filter P m) =
    match mfind k m with Some v => if decide (P (k, v)) then Some v else None | None => None end.
Proof.
  intros Hs. pose proof (msorted_filter m Hs) as Hs'.
  destruct (mfind k (filter P m)) as [v|] eqn:Hf.
  - apply mfind_In, list_elem_of_filter in Hf as [Hp Hin]; [|done].
    apply mfind_In in Hin as ->; [|done]. by rewrite decide_True.
  - destruct (mfind k m) as [v|] eqn:Hr; [|done]. destruct (decide (P (k, v))); [|done].
    exfalso. apply mfind_In in Hr; [|done].
    assert (mfind k (filter P m) = Some v); [|congruence].
    apply mfind_In; [done|]. by apply list_elem_of_filter.
Qed.
End Filter.

(** Membership of a [std::set] is a look-up with a unit value. *)
Abbreviation sset K := (list (K * unit)).

#[export] Hint Resolve msorted_set msorted_erase : amule.

(** Insertion between two runs of entries, for integer keys. *)
Lemma minsert_between {V} pre k (v : V) (rest : list (Z * V)) :
  Forall (fun e => e.1 < k) pre -> Forall (fun e => k < e.1) rest ->
  minsert k v (pre ++ rest) = pre ++ (k, v) :: rest.
Proof.
  intros Hp Hr. induction Hp as [|[k' v'] pre Hk _ IH]; simpl in *.
  - destruct Hr as [|[k' v'] rest Hk _]; simpl in *; [done|].
    by rewrite (proj2 (Z.ltb_lt k k')).
  - rewrite (proj2 (Z.ltb_ge k k')), (proj2 (Z.ltb_lt k' k)) by lia. by rewrite IH.
Qed.

Lemma minsert_last {V} pre k (v : V) :
  Forall (fun e : Z * V => e.1 < k) pre -> minsert k v pre = pre ++ [(k, v)].
Proof. intros. rewrite <- (app_nil_r pre) at 1. by apply minsert_between. Qed.
