(* ===== verification/UInt128.v ===== *)
(** * Kad identifiers: the 128-bit unsigned integer of [kademlia/utils/UInt128]

    The representation is the code's: four 32-bit chunks, least significant first
    ([m_data.u32_data]); the two 64-bit halves of the union are read from them.  Every
    operation is related to the number the chunks denote ([value]). *)
From S2P Require Import Prelude StdMap.

Record CUInt128 := mkUInt128 { u32_0 : Z; u32_1 : Z; u32_2 : Z; u32_3 : Z }.

#[export] Instance CUInt128_eq_dec : EqDecision CUInt128.
Proof. solve_decision. Defined.

(** ** Representation *)

Definition chunks (x : CUInt128) : list Z := [u32_0 x; u32_1 x; u32_2 x; u32_3 x].

Definition of_chunks (l : list Z) : CUInt128 :=
  mkUInt128 (l !!! 0%nat) (l !!! 1%nat) (l !!! 2%nat) (l !!! 3%nat).

(** [m_data.u32_data[i]] and its update. *)
Definition u32_data (x : CUInt128) (i : Z) : Z :=
  if i =? 0 then u32_0 x else if i =? 1 then u32_1 x
  else if i =? 2 then u32_2 x else u32_3 x.

Definition set_u32_data (x : CUInt128) (i v : Z) : CUInt128 :=
  if i =? 0 then mkUInt128 v (u32_1 x) (u32_2 x) (u32_3 x)
  else if i =? 1 then mkUInt128 (u32_0 x) v (u32_2 x) (u32_3 x)
  else if i =? 2 then mkUInt128 (u32_0 x) (u32_1 x) v (u32_3 x)
  else mkUInt128 (u32_0 x) (u32_1 x) (u32_2 x) v.

(** [m_data.u64_data[i]]: the union's 64-bit view. *)
Definition u64_data (x : CUInt128) (i : Z) : Z :=
  if i =? 0 then u32_0 x + Z.shiftl (u32_1 x) 32 else u32_2 x + Z.shiftl (u32_3 x) 32.

(** The number a list of chunks denotes, least significant chunk first. *)
Fixpoint le_value (l : list Z) : Z :=
  match l with [] => 0 | c :: t => c + 2 ^ 32 * le_value t end.

Definition value (x : CUInt128) : Z := le_value (chunks x).

Definition wf_uint128 (x : CUInt128) : Prop := Forall (in_width 32) (chunks x).

(** ** Construction and access *)

Definition CUInt128_fill (fill : bool) : CUInt128 :=
  if fill then mkUInt128 (2 ^ 32 - 1) (2 ^ 32 - 1) (2 ^ 32 - 1) (2 ^ 32 - 1)
  else mkUInt128 0 0 0 0.

(** [SetValue(uint32_t)] and the constructor from a [uint32_t]. *)
Definition of_uint32 (v : Z) : CUInt128 := mkUInt128 v 0 0 0.

Definition GetBitNumber (x : CUInt128) (bit : Z) : Z :=
  if bit <=? 127
  then Z.land (Z.shiftr (u32_data x ((127 - bit) / 32)) ((127 - bit) mod 32)) 1
  else 0.

Definition SetBitNumber (x : CUInt128) (bit v : Z) : CUInt128 :=
  if bit <=? 127 then
    let i := (127 - bit) / 32 in
    let mask := Z.shiftl 1 ((127 - bit) mod 32) in
    if v =? 0
    then set_u32_data x i (Z.land (u32_data x i) (wrap 32 (Z.lnot mask)))
    else set_u32_data x i (Z.lor (u32_data x i) mask)
  else x.

Definition Get32BitChunk (x : CUInt128) (val : Z) : Z :=
  if val <? 4 then u32_data x (3 - val) else 0.

Definition Set32BitChunk (x : CUInt128) (chunk v : Z) : CUInt128 :=
  if chunk <? 4 then set_u32_data x (3 - chunk) v else x.

(** ** Comparison *)

Fixpoint compare_chunks (l : list (Z * Z)) : Z :=
  match l with
  | [] => 0
  | (a, b) :: t => if a <? b then -1 else if a >? b then 1 else compare_chunks t
  end.

(** The loop of [CompareTo] runs from chunk 3 down to chunk 0. *)
Definition CompareTo (x other : CUInt128) : Z :=
  compare_chunks (rev (zip (chunks x) (chunks other))).

Definition CompareTo32 (x : CUInt128) (v : Z) : Z :=
  if (u64_data x 1 >? 0) || (u32_data x 1 >? 0) || (u32_data x 0 >? v) then 1
  else if u32_data x 0 <? v then -1 else 0.

Definition IsZero (x : CUInt128) : bool := Z.lor (u64_data x 0) (u64_data x 1) =? 0.

Definition op_lt (x y : CUInt128) : bool := CompareTo x y <? 0.
Definition op_gt (x y : CUInt128) : bool := CompareTo x y >? 0.
Definition op_le (x y : CUInt128) : bool := CompareTo x y <=? 0.
Definition op_ge (x y : CUInt128) : bool := CompareTo x y >=? 0.
Definition op_eq (x y : CUInt128) : bool := CompareTo x y =? 0.
Definition op_ne (x y : CUInt128) : bool := negb (CompareTo x y =? 0).
Definition op_lt32 (x : CUInt128) (v : Z) : bool := CompareTo32 x v <? 0.
Definition op_eq32 (x : CUInt128) (v : Z) : bool := CompareTo32 x v =? 0.

(** ** Arithmetic *)

(** The loop shared by [Add], [Subtract] and [ShiftLeft]: [sum] is the [int64_t]
    accumulator, [d] what one round adds to it; the round stores the low 32 bits and shifts
    the accumulator right arithmetically. *)
Fixpoint carry_loop (sum : Z) (ds : list Z) : list Z :=
  match ds with
  | [] => []
  | d :: t => wrap 32 (sum + d) :: carry_loop (Z.shiftr (sum + d) 32) t
  end.

Definition Add (x v : CUInt128) : CUInt128 :=
  if IsZero v then x
  else of_chunks (carry_loop 0 (zip_with Z.add (chunks x) (chunks v))).

Definition Add32 (x : CUInt128) (v : Z) : CUInt128 :=
  if v =? 0 then x else Add x (of_uint32 v).

Definition Subtract (x v : CUInt128) : CUInt128 :=
  if IsZero v then x
  else of_chunks (carry_loop 0 (zip_with Z.sub (chunks x) (chunks v))).

Definition Subtract32 (x : CUInt128) (v : Z) : CUInt128 :=
  if v =? 0 then x else Subtract x (of_uint32 v).

(** Round [i], from 3 down to [indexShift], reads chunk [3 - i] and writes chunk
    [3 - i + indexShift] of a zeroed result. *)
Definition ShiftLeft (x : CUInt128) (bits : Z) : CUInt128 :=
  if (bits =? 0) || IsZero x then x
  else if bits >? 127 then of_uint32 0
  else
    let indexShift := Z.to_nat (bits / 32) in
    of_chunks (replicate indexShift 0 ++
      carry_loop 0 ((fun c => Z.shiftl c (bits mod 32)) <$> take (4 - indexShift) (chunks x))).

Definition XOR (x v : CUInt128) : CUInt128 :=
  of_chunks (zip_with Z.lxor (chunks x) (chunks v)).

(** ** Byte and text forms *)

(** A byte array in and out of a 32-bit value: the raw access is little-endian on the
    modelled host, where [wxUINT32_SWAP_ON_LE] swaps and [wxUINT32_SWAP_ON_BE] does not. *)
Definition RawPeekUInt32 (p : list Z) : Z :=
  p !!! 0%nat + 2 ^ 8 * p !!! 1%nat + 2 ^ 16 * p !!! 2%nat + 2 ^ 24 * p !!! 3%nat.

Definition RawPokeUInt32 (v : Z) : list Z :=
  [wrap 8 v; wrap 8 (Z.shiftr v 8); wrap 8 (Z.shiftr v 16); wrap 8 (Z.shiftr v 24)].

Definition swap32 (v : Z) : Z := RawPeekUInt32 (rev (RawPokeUInt32 v)).

Definition SetValueBE (b : list Z) : CUInt128 :=
  mkUInt128 (swap32 (RawPeekUInt32 (drop 12 b))) (swap32 (RawPeekUInt32 (drop 8 b)))
            (swap32 (RawPeekUInt32 (drop 4 b))) (swap32 (RawPeekUInt32 b)).

Definition ToByteArray (x : CUInt128) : list Z :=
  RawPokeUInt32 (swap32 (u32_3 x)) ++ RawPokeUInt32 (swap32 (u32_2 x)) ++
  RawPokeUInt32 (swap32 (u32_1 x)) ++ RawPokeUInt32 (swap32 (u32_0 x)).

Definition StoreCryptValue (x : CUInt128) : list Z :=
  RawPokeUInt32 (u32_3 x) ++ RawPokeUInt32 (u32_2 x) ++
  RawPokeUInt32 (u32_1 x) ++ RawPokeUInt32 (u32_0 x).

(** One character per bit, most significant first; [trim] drops the leading zeros. *)
Fixpoint bits_string (l : list Z) (trim : bool) : string :=
  match l with
  | [] => EmptyString
  | b :: t =>
      if negb trim || negb (b =? 0)
      then String (if b =? 0 then "0"%char else "1"%char) (bits_string t false)
      else bits_string t trim
  end.

Definition bit_list (x : CUInt128) : list Z :=
  (fun i => GetBitNumber x (Z.of_nat i)) <$> seq 0 128.

Definition ToBinaryString (x : CUInt128) (trim : bool) : string :=
  let str := bits_string (bit_list x) trim in
  if String.eqb str EmptyString then "0"%string else str.

(** ** The random-tail constructor [CUInt128(value, numBits)]

    [rand()] is an oracle: the n-th call returns [rnd n].  Each step returns the value built
    so far and the number of calls made. *)
Section Prefix.
Variable rnd : nat -> Z.

Fixpoint copy_chunks (v acc : CUInt128) (i : Z) (n : nat) : CUInt128 :=
  match n with
  | O => acc
  | S n' => copy_chunks v (Set32BitChunk acc i (Get32BitChunk v i)) (i + 1) n'
  end.

Fixpoint copy_bits (v acc : CUInt128) (i : Z) (n : nat) : CUInt128 :=
  match n with
  | O => acc
  | S n' => copy_bits v (SetBitNumber acc i (GetBitNumber v i)) (i + 1) n'
  end.

Fixpoint rand_bits (acc : CUInt128) (calls : nat) (i : Z) (n : nat) : CUInt128 * nat :=
  match n with
  | O => (acc, calls)
  | S n' => rand_bits (SetBitNumber acc i (rnd calls mod 2)) (S calls) (i + 1) n'
  end.

Fixpoint rand_chunks (acc : CUInt128) (calls : nat) (i : Z) (n : nat) : CUInt128 * nat :=
  match n with
  | O => (acc, calls)
  | S n' => rand_chunks (Set32BitChunk acc i (wrap 32 (rnd calls))) (S calls) (i + 1) n'
  end.

(** [junk] is the content of the object before its constructor runs: every chunk of it is
    overwritten or has each of its bits written. *)
Definition CUInt128_prefix (junk v : CUInt128) (numBits : Z) : CUInt128 :=
  let numULONGs := numBits / 32 in
  let x1 := copy_chunks v junk 0 (Z.to_nat numULONGs) in
  let x2 := copy_bits v x1 (numULONGs * 32) (Z.to_nat (numBits - numULONGs * 32)) in
  let numULONGs' := (numBits + 31) / 32 in
  let '(x3, calls) := rand_bits x2 0 numBits (Z.to_nat (numULONGs' * 32 - numBits)) in
  (rand_chunks x3 calls numULONGs' (Z.to_nat (4 - numULONGs'))).1.
End Prefix.

(** ** Lemmas: the representation *)

Lemma le_value_bounds l :
  Forall (in_width 32) l -> 0 <= le_value l < 2 ^ (32 * Z.of_nat (length l)).
Proof.
  induction 1 as [|c l Hc Hl IH]; simpl; [lia|].
  rewrite Nat2Z.inj_succ, Z.mul_succ_r, Z.add_comm, Z.pow_add_r by lia.
  unfold in_width in Hc. nia.
Qed.

Lemma value_range x : wf_uint128 x -> in_width 128 (value x).
Proof. apply le_value_bounds. Qed.

Lemma chunks_of_chunks a b c d : chunks (of_chunks [a; b; c; d]) = [a; b; c; d].
Proof. done. Qed.

Lemma chunks_of_chunks_len l : length l = 4%nat -> chunks (of_chunks l) = l.
Proof. destruct l as [|?[|?[|?[|?[|]]]]]; done. Qed.

Lemma value_of_chunks l : length l = 4%nat -> value (of_chunks l) = le_value l.
Proof. intros. unfold value. by rewrite chunks_of_chunks_len. Qed.

Lemma wf_of_chunks l : length l = 4%nat -> Forall (in_width 32) l -> wf_uint128 (of_chunks l).
Proof. intros. unfold wf_uint128. by rewrite chunks_of_chunks_len. Qed.

Lemma le_value_inj l1 l2 :
  Forall (in_width 32) l1 -> Forall (in_width 32) l2 -> length l1 = length l2 ->
  le_value l1 = le_value l2 -> l1 = l2.
Proof.
  intros H1. revert l2. induction H1 as [|c l Hc Hl IH]; intros [|c2 l2] H2 Hlen Hv;
    simpl in *; try done; try lia.
  inversion H2; subst. unfold in_width in *. 
  assert (c = c2 /\ le_value l = le_value l2) as [-> Ht] by lia.
  f_equal. apply IH; [done|lia|done].
Qed.

Lemma value_inj x y : wf_uint128 x -> wf_uint128 y -> value x = value y -> x = y.
Proof.
  intros Hx Hy Hv. apply le_value_inj in Hv; [|done..].
  destruct x, y. unfold chunks in Hv. simpl in Hv. by simplify_eq.
Qed.

Lemma testbit_chunk c t i :
  in_width 32 c -> 0 <= i ->
  Z.testbit (c + 2 ^ 32 * t) i = if i <? 32 then Z.testbit c i else Z.testbit t (i - 32).
Proof.
  intros Hc Hi. destruct (Z.ltb_spec i 32).
  - rewrite <- (Z.mod_pow2_bits_low (c + _) 32 i) by lia. f_equal.
    rewrite (Z.mul_comm (2 ^ 32)), Z_mod_plus_full. by apply Z.mod_small.
  - replace i with ((i - 32) + 32) at 1 by lia. rewrite <- Z.div_pow2_bits by lia.
    f_equal. rewrite (Z.mul_comm (2 ^ 32)), Z_div_plus_full by lia.
    rewrite Z.div_small by done. lia.
Qed.

(** Bit [i] of the number is bit [i mod 32] of chunk [i / 32]. *)
Lemma value_testbit x i :
  wf_uint128 x -> 0 <= i < 128 ->
  Z.testbit (value x) i = Z.testbit (u32_data x (i / 32)) (i mod 32).
Proof.
  intros Hwf Hi. unfold value, chunks, le_value, wf_uint128, chunks in *.
  rewrite !Forall_cons in Hwf. destruct Hwf as (H0 & H1 & H2 & H3 & _).
  unfold u32_data.
  assert (i / 32 = 0 /\ i mod 32 = i \/ i / 32 = 1 /\ i mod 32 = i - 32 \/
          i / 32 = 2 /\ i mod 32 = i - 64 \/ i / 32 = 3 /\ i mod 32 = i - 96) as Hc.
  { pose proof (Z.div_mod i 32). pose proof (Z.mod_pos_bound i 32).
    assert (0 <= i / 32 < 4); [|lia].
    split; [apply Z.div_pos|apply Z.div_lt_upper_bound]; lia. }
  destruct Hc as [[E1 E2]|[[E1 E2]|[[E1 E2]|[E1 E2]]]]; rewrite E1, E2; simpl;
    repeat (rewrite testbit_chunk by (done || lia); case_cmp; try lia); f_equal; lia.
Qed.

Lemma GetBitNumber_testbit x bit :
  wf_uint128 x -> 0 <= bit <= 127 ->
  GetBitNumber x bit = Z.b2z (Z.testbit (value x) (127 - bit)).
Proof.
  intros Hwf Hb. unfold GetBitNumber. rewrite (proj2 (Z.leb_le _ _)) by lia.
  rewrite value_testbit by (done || lia).
  change 1 with (Z.ones 1) at 1. rewrite Z.land_ones by lia. change (2 ^ 1) with 2.
  by rewrite <- Z.bit0_mod, Z.shiftr_spec by lia.
Qed.

(** ** Arithmetic is arithmetic modulo 2^128 *)

Lemma carry_loop_length s ds : length (carry_loop s ds) = length ds.
Proof. revert s. induction ds; intros; simpl; auto. Qed.

Lemma carry_loop_wf s ds : Forall (in_width 32) (carry_loop s ds).
Proof. revert s. induction ds; intros; simpl; constructor; [apply wrap_range; lia|auto]. Qed.

(** The loop computes the weighted sum of its addends, reduced to the chunks produced. *)
Lemma carry_loop_value s ds :
  le_value (carry_loop s ds) = (s + le_value ds) mod 2 ^ (32 * Z.of_nat (length ds)).
Proof.
  revert s. induction ds as [|d ds IH]; intros s; simpl.
  { by rewrite Z.mod_1_r. }
  rewrite IH, Nat2Z.inj_succ, Z.mul_succ_r, (Z.add_comm (32 * _)), Z.pow_add_r by lia.
  rewrite Z.shiftr_div_pow2 by lia. unfold wrap.
  set (B := 2 ^ (32 * Z.of_nat (length ds))).
  assert (0 < B) by (apply Z.pow_pos_nonneg; lia).
  set (v := le_value ds).
  rewrite Z.rem_mul_r by lia.
  replace (s + (d + 2 ^ 32 * v)) with ((s + d) + v * 2 ^ 32) by lia.
  by rewrite Z_mod_plus_full, Z_div_plus_full by lia.
Qed.

(** The [int64_t] accumulator of the loop stays far from its bounds when every addend is
    below [m] in absolute value. *)
Lemma carry_round_bounds m s d :
  0 <= m < 2 ^ 63 -> Z.abs s <= 2 ^ 31 -> Z.abs d <= m - 2 ^ 31 ->
  - 2 ^ 63 <= s + d < 2 ^ 63 /\ Z.abs (Z.shiftr (s + d) 32) <= 2 ^ 31.
Proof.
  intros Hm Hs Hd. rewrite Z.shiftr_div_pow2 by lia.
  change (2 ^ 31) with 2147483648 in *. change (2 ^ 63) with 9223372036854775808 in *.
  change (2 ^ 32) with 4294967296 in *. split; lia.
Qed.

Lemma le_value_zip_with_add l1 l2 :
  length l1 = length l2 -> le_value (zip_with Z.add l1 l2) = le_value l1 + le_value l2.
Proof.
  revert l2. induction l1 as [|a l1 IH]; intros [|b l2]; simpl; try done; intros.
  rewrite IH by lia. lia.
Qed.

Lemma le_value_zip_with_sub l1 l2 :
  length l1 = length l2 -> le_value (zip_with Z.sub l1 l2) = le_value l1 - le_value l2.
Proof.
  revert l2. induction l1 as [|a l1 IH]; intros [|b l2]; simpl; try done; intros.
  rewrite IH by lia. lia.
Qed.

Lemma IsZero_spec x : wf_uint128 x -> IsZero x = (value x =? 0).
Proof.
  unfold wf_uint128, IsZero, value, u64_data, chunks. simpl.
  rewrite !Forall_cons. intros (H0 & H1 & H2 & H3 & _). unfold in_width in *.
  rewrite !Z.shiftl_mul_pow2 by lia.
  apply eq_true_iff_eq. rewrite !Z.eqb_eq, Z.lor_eq_0_iff. lia.
Qed.

Lemma Add_spec x v :
  wf_uint128 x -> wf_uint128 v ->
  value (Add x v) = (value x + value v) mod 2 ^ 128 /\ wf_uint128 (Add x v).
Proof.
  intros Hx Hv. unfold Add. rewrite IsZero_spec by done. case_cmp_as Hz.
  - rewrite Hz, Z.add_0_r. split; [|done]. symmetry. apply Z.mod_small, value_range, Hx.
  - split.
    + rewrite value_of_chunks by done. rewrite carry_loop_value.
      by rewrite le_value_zip_with_add.
    + apply wf_of_chunks; [done|apply carry_loop_wf].
Qed.

Lemma Subtract_spec x v :
  wf_uint128 x -> wf_uint128 v ->
  value (Subtract x v) = (value x - value v) mod 2 ^ 128 /\ wf_uint128 (Subtract x v).
Proof.
  intros Hx Hv. unfold Subtract. rewrite IsZero_spec by done. case_cmp_as Hz.
  - rewrite Hz, Z.sub_0_r. split; [|done]. symmetry. apply Z.mod_small, value_range, Hx.
  - split.
    + rewrite value_of_chunks by done. rewrite carry_loop_value.
      by rewrite le_value_zip_with_sub.
    + apply wf_of_chunks; [done|apply carry_loop_wf].
Qed.

Lemma wf_mk a b c d :
  wf_uint128 (mkUInt128 a b c d) <->
  in_width 32 a /\ in_width 32 b /\ in_width 32 c /\ in_width 32 d.
Proof.
  unfold wf_uint128, chunks. rewrite !Forall_cons. simpl. intuition.
Qed.

Lemma wf_of_uint32 v : in_width 32 v -> wf_uint128 (of_uint32 v).
Proof. intros. apply wf_mk. repeat split; simpl; done || apply H. Qed.

Lemma value_of_uint32 v : value (of_uint32 v) = v.
Proof. unfold value. simpl. lia. Qed.

Lemma Add32_spec x v :
  wf_uint128 x -> in_width 32 v ->
  value (Add32 x v) = (value x + v) mod 2 ^ 128 /\ wf_uint128 (Add32 x v).
Proof.
  intros Hx Hv. unfold Add32. case_cmp_as Hz.
  - subst. rewrite Z.add_0_r. split; [|done]. symmetry. apply Z.mod_small, value_range, Hx.
  - rewrite <- (value_of_uint32 v) at 2. auto using Add_spec, wf_of_uint32.
Qed.

Lemma le_value_app l1 l2 :
  le_value (l1 ++ l2) = le_value l1 + 2 ^ (32 * Z.of_nat (length l1)) * le_value l2.
Proof.
  induction l1 as [|c l1 IH]; [simpl; lia|]. cbn [app le_value length].
  rewrite IH, Nat2Z.inj_succ, Z.mul_succ_r, (Z.add_comm (32 * _) 32), Z.pow_add_r by lia. lia.
Qed.

Lemma le_value_replicate0 n : le_value (replicate n 0) = 0.
Proof. induction n; simpl; lia. Qed.

Lemma le_value_shiftl s l :
  0 <= s -> le_value ((fun c => Z.shiftl c s) <$> l) = le_value l * 2 ^ s.
Proof.
  intros Hs. induction l as [|c l IH]; [done|]. cbn [fmap list_fmap le_value].
  change (list_fmap Z Z) with (@fmap list _ Z Z). rewrite IH, Z.shiftl_mul_pow2 by done. lia.
Qed.

Lemma ShiftLeft_spec x bits :
  wf_uint128 x -> 0 <= bits ->
  value (ShiftLeft x bits) = (value x * 2 ^ bits) mod 2 ^ 128 /\ wf_uint128 (ShiftLeft x bits).
Proof.
  intros Hx Hb. unfold ShiftLeft. rewrite IsZero_spec by done.
  assert (value x mod 2 ^ 128 = value x) as Hsm by (apply Z.mod_small, value_range, Hx).
  destruct (Z.eqb_spec bits 0) as [->|Hb0]; simpl; [by rewrite Z.mul_1_r|].
  case_cmp_as Hz; [by rewrite Hz|].
  case_cmp_as Hbig.
  { split; [|apply wf_of_uint32; done]. rewrite value_of_uint32.
    replace bits with ((bits - 128) + 128) by lia. rewrite Z.pow_add_r by lia.
    by rewrite Z.mul_assoc, Z_mod_mult. }
  set (k := Z.to_nat (bits / 32)). set (s := bits mod 32).
  assert (0 <= s < 32) by (apply Z.mod_pos_bound; lia).
  assert (k <= 3)%nat as Hk by (unfold k; lia).
  assert (length (take (4 - k) (chunks x)) = (4 - k)%nat) as Hlen.
  { rewrite length_take. change (length (chunks x)) with 4%nat. lia. }
  assert (bits = 32 * Z.of_nat k + s) as Hbits by (unfold k, s; lia).
  set (body := carry_loop 0 ((fun c => Z.shiftl c s) <$> take (4 - k) (chunks x))).
  assert (length body = (4 - k)%nat) as Hbl.
  { unfold body. by rewrite carry_loop_length, length_fmap. }
  assert (length (replicate k 0 ++ body) = 4%nat) as Htot.
  { rewrite length_app, length_replicate, Hbl. lia. }
  split.
  - rewrite value_of_chunks, le_value_app, le_value_replicate0, length_replicate by done.
    unfold body. rewrite carry_loop_value, le_value_shiftl, length_fmap, Hlen by lia.
    pose proof (le_value_app (take (4 - k) (chunks x)) (drop (4 - k) (chunks x))) as Hsplit.
    rewrite take_drop, Hlen in Hsplit. fold (value x) in Hsplit.
    set (lo := le_value (take (4 - k) (chunks x))) in *.
    set (hi := le_value (drop (4 - k) (chunks x))) in *.
    rewrite Hsplit, Hbits, Z.pow_add_r by lia.
    set (A := 2 ^ (32 * Z.of_nat k)). set (B := 2 ^ (32 * Z.of_nat (4 - k))).
    assert (A * B = 2 ^ 128) as HAB.
    { unfold A, B. rewrite <- Z.pow_add_r by lia. f_equal. lia. }
    rewrite <- HAB. assert (0 < A /\ 0 < B) by (unfold A, B; split; apply Z.pow_pos_nonneg; lia).
    replace ((lo + B * hi) * (A * 2 ^ s)) with (A * (lo * 2 ^ s) + (hi * 2 ^ s) * (A * B)) by lia.
    rewrite Z_mod_plus_full, Z.mul_mod_distr_l by lia. by rewrite !Z.add_0_l.
  - apply wf_of_chunks; [done|]. apply Forall_app. split; [|apply carry_loop_wf].
    apply Forall_replicate. by compute.
Qed.

(** ** Order *)

Lemma compare_chunks_snoc l p :
  compare_chunks (l ++ [p]) =
  (let c := compare_chunks l in
   if c =? 0 then (if p.1 <? p.2 then -1 else if p.1 >? p.2 then 1 else 0) else c).
Proof.
  induction l as [|[a b] l IH]; simpl.
  - destruct p as [a b]; simpl. by repeat case_cmp.
  - destruct (a <? b); [done|]. destruct (a >? b); [done|]. apply IH.
Qed.

(** Lexicographic comparison from the top chunk is the comparison of the numbers. *)
Lemma compare_chunks_value l1 l2 :
  length l1 = length l2 -> Forall (in_width 32) l1 -> Forall (in_width 32) l2 ->
  compare_chunks (rev (zip l1 l2)) = Z.sgn (le_value l1 - le_value l2).
Proof.
  intros Hlen H1. revert l2 Hlen. induction H1 as [|a l1 Ha Hl IH]; intros [|b l2] Hlen H2;
    simpl in *; try done; try lia.
  inversion H2; subst. rewrite compare_chunks_snoc, IH by (done || lia). simpl.
  unfold in_width in *. set (x := le_value l1) in *. set (y := le_value l2) in *.
  destruct (Z.eqb_spec (Z.sgn (x - y)) 0); repeat case_cmp; lia.
Qed.

Lemma CompareTo_spec x y :
  wf_uint128 x -> wf_uint128 y -> CompareTo x y = Z.sgn (value x - value y).
Proof. intros. by apply compare_chunks_value. Qed.

Lemma CompareTo32_spec x v :
  wf_uint128 x -> in_width 32 v -> CompareTo32 x v = Z.sgn (value x - v).
Proof.
  intros Hx Hv. destruct x as [a b c d]. apply wf_mk in Hx.
  unfold CompareTo32, u64_data, u32_data, value, chunks, in_width in *. simpl.
  rewrite !Z.shiftl_mul_pow2 by lia.
  repeat (case_cmp; simpl; try lia).
Qed.

(** [operator<] is a strict total order on all identifiers: they can key the ordered maps. *)
#[export] Program Instance CUInt128_KeyOrder : KeyOrder CUInt128 := {| kltb := op_lt |}.
Next Obligation.
  intros [a b c d]. unfold op_lt, CompareTo, chunks. simpl.
  by rewrite !Z.gtb_ltb, !Z.ltb_irrefl.
Qed.
Next Obligation.
  intros [a b c d] [a' b' c' d'] [a'' b'' c'' d'']. unfold op_lt, CompareTo, chunks. simpl.
  rewrite !Z.ltb_lt, !Z.gtb_ltb. repeat case_cmp; lia.
Qed.
Next Obligation.
  intros [a b c d] [a' b' c' d']. unfold op_lt, CompareTo, chunks. simpl.
  rewrite !Z.ltb_ge, !Z.gtb_ltb. intros H1 H2.
  assert (a = a' /\ b = b' /\ c = c' /\ d = d'); [|naive_solver].
  revert H1 H2. repeat case_cmp; lia.
Qed.

Lemma kltb_value x y :
  wf_uint128 x -> wf_uint128 y -> kltb x y = true <-> value x < value y.
Proof.
  intros. change (kltb x y) with (op_lt x y). unfold op_lt. rewrite CompareTo_spec by done.
  rewrite Z.ltb_lt. lia.
Qed.

(** ** XOR *)

Lemma wf_XOR x y : wf_uint128 x -> wf_uint128 y -> wf_uint128 (XOR x y).
Proof.
  destruct x, y. rewrite !wf_mk. intros (?&?&?&?) (?&?&?&?).
  apply wf_mk. simpl. split; [|split; [|split]]; apply lxor_in_width; done || lia.
Qed.

(** The number of an exclusive or, chunk by chunk. *)
Lemma chunk_lxor a b s t :
  in_width 32 a -> in_width 32 b -> 0 <= s -> 0 <= t ->
  Z.lxor a b + 2 ^ 32 * Z.lxor s t = Z.lxor (a + 2 ^ 32 * s) (b + 2 ^ 32 * t).
Proof.
  intros Ha Hb Hs Ht. apply Z.bits_inj'. intros i Hi.
  rewrite testbit_chunk by (auto using lxor_in_width with lia).
  rewrite !Z.lxor_spec, !testbit_chunk by done. by case_cmp.
Qed.

Lemma XOR_value x y :
  wf_uint128 x -> wf_uint128 y -> value (XOR x y) = Z.lxor (value x) (value y).
Proof.
  destruct x as [a0 a1 a2 a3], y as [b0 b1 b2 b3]. rewrite !wf_mk.
  intros (?&?&?&?) (?&?&?&?). unfold XOR, value, chunks, of_chunks. simpl le_value.
  cbn -[Z.mul Z.add Z.pow]. rewrite ?Z.mul_0_r, ?Z.add_0_r.
  rewrite !chunk_lxor; first [done | unfold in_width in *; lia].
Qed.

(** ** Bits and chunks written one at a time *)

Lemma u32_data_set x i j v :
  0 <= i < 4 -> 0 <= j < 4 ->
  u32_data (set_u32_data x i v) j = if i =? j then v else u32_data x j.
Proof.
  intros Hi Hj. assert (i = 0 \/ i = 1 \/ i = 2 \/ i = 3) as Hc by lia.
  assert (j = 0 \/ j = 1 \/ j = 2 \/ j = 3) as Hd by lia.
  destruct Hc as [-> | [-> | [-> | ->]]], Hd as [-> | [-> | [-> | ->]]]; done.
Qed.

Lemma wf_set_u32_data x i v : wf_uint128 x -> in_width 32 v -> wf_uint128 (set_u32_data x i v).
Proof.
  destruct x. rewrite wf_mk. intros (?&?&?&?) ?. unfold set_u32_data. simpl.
  repeat case_match; by apply wf_mk.
Qed.

Lemma wf_u32_data x i : wf_uint128 x -> in_width 32 (u32_data x i).
Proof.
  destruct x. rewrite wf_mk. intros (?&?&?&?). unfold u32_data. simpl. by repeat case_match.
Qed.

Lemma testbit_shiftl1 n i : 0 <= n -> 0 <= i -> Z.testbit (Z.shiftl 1 n) i = (n =? i).
Proof.
  intros Hn Hi. rewrite Z.shiftl_1_l. destruct (Z.eqb_spec n i) as [->|].
  - by rewrite Z.pow2_bits_true.
  - by rewrite Z.pow2_bits_false.
Qed.

Lemma in_width_shiftl1 n : 0 <= n < 32 -> in_width 32 (Z.shiftl 1 n).
Proof.
  intros. rewrite Z.shiftl_1_l. split; [lia|]. apply Z.pow_lt_mono_r; lia.
Qed.

Lemma wf_SetBitNumber x bit v : wf_uint128 x -> wf_uint128 (SetBitNumber x bit v).
Proof.
  intros Hx. unfold SetBitNumber. case_cmp; [|done].
  assert (0 <= (127 - bit) mod 32 < 32) by lia.
  pose proof (wf_u32_data x ((127 - bit) / 32) Hx).
  case_cmp; apply wf_set_u32_data; try done.
  - apply land_in_width_l; [lia|done|apply wrap_range; lia].
  - apply lor_in_width; [lia|done|by apply in_width_shiftl1].
Qed.

Lemma value_testbit_SetBitNumber x bit v i :
  wf_uint128 x -> 0 <= bit <= 127 -> 0 <= i < 128 ->
  Z.testbit (value (SetBitNumber x bit v)) i =
    if 127 - bit =? i then negb (v =? 0) else Z.testbit (value x) i.
Proof.
  intros Hx Hb Hi. rewrite value_testbit by (done || by apply wf_SetBitNumber).
  rewrite value_testbit by done. unfold SetBitNumber.
  rewrite (proj2 (Z.leb_le bit 127)) by lia.
  set (b := 127 - bit) in *.
  assert (0 <= b < 128) by lia. assert (0 <= b / 32 < 4 /\ 0 <= i / 32 < 4) as [??] by lia.
  assert ((b =? i) = (b / 32 =? i / 32) && (b mod 32 =? i mod 32)) as -> by
    (apply eq_true_iff_eq; rewrite andb_true_iff, !Z.eqb_eq; lia).
  assert (0 <= b mod 32 < 32 /\ 0 <= i mod 32 < 32) as [??] by lia.
  destruct (Z.eqb_spec v 0); rewrite u32_data_set by done;
    destruct (Z.eqb_spec (b / 32) (i / 32)) as [E|]; simpl; try done; rewrite E.
  - unfold wrap. rewrite Z.land_spec, Z.mod_pow2_bits_low, Z.lnot_spec, testbit_shiftl1 by lia.
    destruct (Z.eqb_spec (b mod 32) (i mod 32)); simpl; by rewrite ?andb_false_r, ?andb_true_r.
  - rewrite Z.lor_spec, testbit_shiftl1 by lia.
    destruct (Z.eqb_spec (b mod 32) (i mod 32)); simpl; by rewrite ?orb_false_r, ?orb_true_r.
Qed.

Lemma wf_Set32BitChunk x c v : wf_uint128 x -> in_width 32 v -> wf_uint128 (Set32BitChunk x c v).
Proof. intros. unfold Set32BitChunk. case_cmp; auto using wf_set_u32_data. Qed.

Lemma value_testbit_Set32BitChunk x c v i :
  wf_uint128 x -> in_width 32 v -> 0 <= c < 4 -> 0 <= i < 128 ->
  Z.testbit (value (Set32BitChunk x c v)) i =
    if 3 - c =? i / 32 then Z.testbit v (i mod 32) else Z.testbit (value x) i.
Proof.
  intros Hx Hv Hc Hi. rewrite !value_testbit by (done || by apply wf_Set32BitChunk).
  unfold Set32BitChunk. rewrite (proj2 (Z.ltb_lt c 4)) by lia.
  rewrite u32_data_set by lia. by case_cmp.
Qed.

(** ** The random-tail constructor keeps the prefix *)

(** The first [n] bits, from the most significant one, are equal. *)
Definition agree_prefix (x v : CUInt128) (n : Z) : Prop :=
  forall j, 0 <= j < n -> Z.testbit (value x) (127 - j) = Z.testbit (value v) (127 - j).

Section PrefixProofs.
Variable rnd : nat -> Z.
Variable v : CUInt128.
Hypothesis Hv : wf_uint128 v.

Lemma wf_Get32BitChunk c : in_width 32 (Get32BitChunk v c).
Proof. unfold Get32BitChunk. case_cmp; [by apply wf_u32_data|done]. Qed.

Lemma copy_chunks_spec n acc i :
  wf_uint128 acc -> 0 <= i -> i + Z.of_nat n <= 4 -> agree_prefix acc v (32 * i) ->
  wf_uint128 (copy_chunks v acc i n) /\
  agree_prefix (copy_chunks v acc i n) v (32 * (i + Z.of_nat n)).
Proof.
  revert acc i. induction n as [|n IH]; intros acc i Hacc Hi Hn Hag; simpl.
  { by rewrite Z.add_0_r. }
  replace (i + Z.of_nat (S n)) with ((i + 1) + Z.of_nat n) by lia.
  pose proof (wf_Get32BitChunk i) as Hg.
  apply IH; [by apply wf_Set32BitChunk|lia..|].
  intros j Hj. rewrite value_testbit_Set32BitChunk by (done || lia).
  case_cmp_as E; [|apply Hag; lia].
  unfold Get32BitChunk. rewrite (proj2 (Z.ltb_lt i 4)), value_testbit by (done || lia).
  by rewrite E.
Qed.

Lemma copy_bits_spec n acc i :
  wf_uint128 acc -> 0 <= i -> i + Z.of_nat n <= 128 -> agree_prefix acc v i ->
  wf_uint128 (copy_bits v acc i n) /\ agree_prefix (copy_bits v acc i n) v (i + Z.of_nat n).
Proof.
  revert acc i. induction n as [|n IH]; intros acc i Hacc Hi Hn Hag; simpl.
  { by rewrite Z.add_0_r. }
  replace (i + Z.of_nat (S n)) with ((i + 1) + Z.of_nat n) by lia.
  apply IH; [by apply wf_SetBitNumber|lia..|].
  intros j Hj. rewrite value_testbit_SetBitNumber by (done || lia).
  case_cmp_as E; [|apply Hag; lia].
  rewrite GetBitNumber_testbit by (done || lia). replace (127 - j) with (127 - i) by lia.
  by destruct (Z.testbit _ _).
Qed.

Lemma rand_bits_spec N n acc calls i :
  wf_uint128 acc -> 0 <= N <= i -> i + Z.of_nat n <= 128 -> agree_prefix acc v N ->
  wf_uint128 (rand_bits rnd acc calls i n).1 /\
  agree_prefix (rand_bits rnd acc calls i n).1 v N.
Proof.
  revert acc calls i. induction n as [|n IH]; intros acc calls i Hacc Hi Hn Hag; simpl; [done|].
  apply IH; [by apply wf_SetBitNumber|lia..|].
  intros j Hj. rewrite value_testbit_SetBitNumber by (done || lia).
  case_cmp_as E; [lia|apply Hag; lia].
Qed.

Lemma rand_chunks_spec N n acc calls i :
  wf_uint128 acc -> 0 <= N <= 32 * i -> i + Z.of_nat n <= 4 -> agree_prefix acc v N ->
  wf_uint128 (rand_chunks rnd acc calls i n).1 /\
  agree_prefix (rand_chunks rnd acc calls i n).1 v N.
Proof.
  revert acc calls i. induction n as [|n IH]; intros acc calls i Hacc Hi Hn Hag; simpl; [done|].
  assert (in_width 32 (wrap 32 (rnd calls))) by (apply wrap_range; lia).
  apply IH; [by apply wf_Set32BitChunk|lia..|].
  intros j Hj. rewrite value_testbit_Set32BitChunk by (done || lia).
  case_cmp_as E; [lia|apply Hag; lia].
Qed.

Lemma CUInt128_prefix_spec junk numBits :
  wf_uint128 junk -> 0 <= numBits <= 128 ->
  wf_uint128 (CUInt128_prefix rnd junk v numBits) /\
  agree_prefix (CUInt128_prefix rnd junk v numBits) v numBits.
Proof.
  intros Hj Hn. unfold CUInt128_prefix.
  destruct (copy_chunks_spec (Z.to_nat (numBits / 32)) junk 0) as [Hw1 Ha1];
    [done|lia..|intros ? ?; lia|].
  destruct (copy_bits_spec (Z.to_nat (numBits - numBits / 32 * 32))
    (copy_chunks v junk 0 (Z.to_nat (numBits / 32))) (numBits / 32 * 32)) as [Hw2 Ha2];
    [done|lia..| |].
  { intros j Hj'. apply Ha1. lia. }
  set (x2 := copy_bits _ _ _ _) in *.
  assert (agree_prefix x2 v numBits) as Ha2' by (intros j Hj'; apply Ha2; lia).
  destruct (rand_bits_spec numBits (Z.to_nat ((numBits + 31) / 32 * 32 - numBits)) x2 0 numBits)
    as [Hw3 Ha3]; [done|lia..|done|].
  destruct (rand_bits _ _ _ _ _) as [x3 calls]. simpl in *.
  apply rand_chunks_spec; [done|lia..|done].
Qed.
End PrefixProofs.

(** ** Byte forms *)

Lemma RawPeek_RawPoke v : in_width 32 v -> RawPeekUInt32 (RawPokeUInt32 v) = v.
Proof.
  unfold in_width, RawPeekUInt32, RawPokeUInt32, wrap. simpl. intros.
  rewrite !Z.shiftr_div_pow2 by lia. lia.
Qed.

Definition is_byte (b : Z) : Prop := in_width 8 b.

Lemma RawPoke_RawPeek a b c d :
  is_byte a -> is_byte b -> is_byte c -> is_byte d ->
  RawPokeUInt32 (RawPeekUInt32 [a; b; c; d]) = [a; b; c; d].
Proof.
  unfold is_byte, in_width, RawPeekUInt32, RawPokeUInt32, wrap. simpl. intros.
  rewrite !Z.shiftr_div_pow2 by lia. f_equal; [|f_equal; [|f_equal; [|f_equal]]]; lia.
Qed.

Lemma RawPoke_bytes v : Forall is_byte (RawPokeUInt32 v).
Proof. repeat (constructor; [apply wrap_range; lia|]). constructor. Qed.

Lemma RawPeek_range a b c d :
  is_byte a -> is_byte b -> is_byte c -> is_byte d -> in_width 32 (RawPeekUInt32 [a; b; c; d]).
Proof. unfold is_byte, in_width, RawPeekUInt32. simpl. lia. Qed.

Lemma RawPoke_shape v :
  exists a b c d, RawPokeUInt32 v = [a; b; c; d] /\ is_byte a /\ is_byte b /\ is_byte c /\ is_byte d.
Proof.
  do 4 eexists. split; [done|]. pose proof (RawPoke_bytes v) as Hb.
  unfold RawPokeUInt32 in Hb. rewrite !Forall_cons in Hb. tauto.
Qed.

Lemma swap32_range v : in_width 32 (swap32 v).
Proof.
  unfold swap32. destruct (RawPoke_shape v) as (a & b & c & d & -> & ? & ? & ? & ?).
  by apply RawPeek_range.
Qed.

Lemma swap32_swap32 v : in_width 32 v -> swap32 (swap32 v) = v.
Proof.
  intros Hv. rewrite <- (RawPeek_RawPoke v Hv) at 2. unfold swap32.
  destruct (RawPoke_shape v) as (a & b & c & d & -> & ? & ? & ? & ?).
  change (rev [a; b; c; d]) with [d; c; b; a].
  by rewrite RawPoke_RawPeek.
Qed.

Lemma SetValueBE_ToByteArray x : wf_uint128 x -> SetValueBE (ToByteArray x) = x.
Proof.
  destruct x as [a b c d]. rewrite wf_mk. intros (Ha & Hb & Hc & Hd).
  assert (forall v, in_width 32 v -> swap32 (RawPeekUInt32 (RawPokeUInt32 (swap32 v))) = v) as E.
  { intros v Hv. rewrite RawPeek_RawPoke by apply swap32_range. by apply swap32_swap32. }
  assert (forall v l, length l = 4%nat -> RawPeekUInt32 (l ++ v) = RawPeekUInt32 l) as Happ.
  { intros v l Hl. unfold RawPeekUInt32. rewrite !lookup_total_app_l by lia. done. }
  assert (forall v, length (RawPokeUInt32 v) = 4%nat) as Hlen by done.
  unfold SetValueBE, ToByteArray. cbn [u32_0 u32_1 u32_2 u32_3].
  set (pa := RawPokeUInt32 (swap32 a)). set (pb := RawPokeUInt32 (swap32 b)).
  set (pc := RawPokeUInt32 (swap32 c)). set (pd := RawPokeUInt32 (swap32 d)).
  replace (drop 4 (pd ++ pc ++ pb ++ pa)) with (pc ++ pb ++ pa) by done.
  replace (drop 8 (pd ++ pc ++ pb ++ pa)) with (pb ++ pa) by done.
  replace (drop 12 (pd ++ pc ++ pb ++ pa)) with pa by done.
  rewrite !Happ by done. unfold pa, pb, pc, pd. by rewrite !E.
Qed.

(** The stored bytes are the big-endian digits of the number. *)
Fixpoint be_value (l : list Z) (acc : Z) : Z :=
  match l with [] => acc | b :: t => be_value t (256 * acc + b) end.

Lemma ToByteArray_value x : wf_uint128 x -> be_value (ToByteArray x) 0 = value x.
Proof.
  destruct x as [a b c d]. rewrite wf_mk. intros (Ha & Hb & Hc & Hd).
  assert (forall v acc l, in_width 32 v ->
    be_value (RawPokeUInt32 (swap32 v) ++ l) acc = be_value l (2 ^ 32 * acc + v)) as Hstep.
  { intros v acc l Hv. unfold swap32.
    pose proof (RawPeek_RawPoke v Hv) as Hpv.
    destruct (RawPoke_shape v) as (p & q & r & s & Hsh & ? & ? & ? & ?). rewrite Hsh in *.
    change (rev [p; q; r; s]) with [s; r; q; p]. rewrite RawPoke_RawPeek by done. simpl. f_equal.
    unfold RawPeekUInt32 in Hpv. simpl in Hpv. lia. }
  unfold ToByteArray. cbn [u32_0 u32_1 u32_2 u32_3]. rewrite !Hstep by done.
  rewrite <- (app_nil_r (RawPokeUInt32 (swap32 a))), Hstep by done.
  unfold value, chunks. simpl. lia.
Qed.

(** ** Binary text *)

Fixpoint parse_binary (s : string) (acc : Z) : Z :=
  match s with
  | EmptyString => acc
  | String c t => parse_binary t (2 * acc + (if Ascii.eqb c "1"%char then 1 else 0))
  end.

Fixpoint msb_value (l : list Z) (acc : Z) : Z :=
  match l with [] => acc | b :: t => msb_value t (2 * acc + b) end.

Lemma parse_bits_string l trim acc :
  Forall (fun b => b = 0 \/ b = 1) l -> (trim = true -> acc = 0) ->
  parse_binary (bits_string l trim) acc = msb_value l acc.
Proof.
  intros Hl. revert trim acc. induction Hl as [|b l Hb Hl IH]; intros trim acc Ht; [done|].
  simpl. destruct Hb as [-> | ->], trim; simpl.
  - rewrite Ht by done. by rewrite IH.
  - by rewrite IH.
  - by rewrite IH.
  - by rewrite IH.
Qed.

(** Reading the top [n] bits, most significant first. *)
Lemma msb_value_testbits z n m acc :
  0 <= z < 2 ^ Z.of_nat (n + m) ->
  msb_value ((fun i => Z.b2z (Z.testbit z (Z.of_nat (n + m) - 1 - Z.of_nat i))) <$> seq m n) acc
  = acc * 2 ^ Z.of_nat n + z mod 2 ^ Z.of_nat n.
Proof.
  revert m acc. induction n as [|n IH]; intros m acc Hz.
  { simpl. rewrite Z.mod_1_r. lia. }
  cbn [seq fmap list_fmap msb_value].
  change (list_fmap nat Z) with (@fmap list _ nat Z).
  replace (S n + m)%nat with (n + S m)%nat in * by lia. rewrite IH by done.
  replace (Z.of_nat (n + S m) - 1 - Z.of_nat m) with (Z.of_nat n) by lia.
  rewrite Nat2Z.inj_succ, Z.pow_succ_r, (Z.mul_comm 2 (2 ^ _)), Z.rem_mul_r by lia.
  rewrite (Z.testbit_spec' z) by lia. ring.
Qed.

Lemma bit_list_value x : wf_uint128 x -> msb_value (bit_list x) 0 = value x.
Proof.
  intros Hx. pose proof (value_range x Hx) as Hr.
  transitivity (value x mod 2 ^ Z.of_nat 128); [|by apply Z.mod_small].
  pose proof (msb_value_testbits (value x) 128 0 0 Hr) as E.
  rewrite Z.mul_0_l, Z.add_0_l in E. rewrite <- E. f_equal.
  unfold bit_list. apply list_fmap_ext. intros i n [Hn Hi]%lookup_seq. simpl in Hn.
  rewrite GetBitNumber_testbit by (done || lia). do 2 f_equal.
Qed.

Lemma bit_list_bits x : wf_uint128 x -> Forall (fun b => b = 0 \/ b = 1) (bit_list x).
Proof.
  intros Hx. apply Forall_fmap, Forall_seq. intros j Hj. simpl.
  rewrite GetBitNumber_testbit by (done || lia). destruct (Z.testbit _ _); auto.
Qed.

Lemma parse_ToBinaryString x trim :
  wf_uint128 x -> parse_binary (ToBinaryString x trim) 0 = value x.
Proof.
  intros Hx. rewrite <- bit_list_value by done. unfold ToBinaryString.
  rewrite <- (parse_bits_string (bit_list x) trim 0) by (done || by apply bit_list_bits).
  destruct (String.eqb_spec (bits_string (bit_list x) trim) "") as [E|]; [by rewrite E|done].
Qed.

(** ** Properties *)

(** The class is the ring of integers modulo 2^128.  Addition, subtraction and left shift
    of 128-bit values through 32-bit chunks and a signed 64-bit accumulator compute the sum,
    the difference and the product by 2^bits modulo 2^128, exclusive or is bitwise, and every
    result is again four 32-bit chunks. *)
Theorem uint128_arithmetic (x y : CUInt128) (v bits : Z)
  (Hx : wf_uint128 x) (Hy : wf_uint128 y) (Hv : in_width 32 v) (Hb : 0 <= bits) :
  value (Add x y) = (value x + value y) mod 2 ^ 128 /\ wf_uint128 (Add x y) /\
  value (Subtract x y) = (value x - value y) mod 2 ^ 128 /\ wf_uint128 (Subtract x y) /\
  value (Add32 x v) = (value x + v) mod 2 ^ 128 /\ wf_uint128 (Add32 x v) /\
  value (ShiftLeft x bits) = (value x * 2 ^ bits) mod 2 ^ 128 /\ wf_uint128 (ShiftLeft x bits) /\
  value (XOR x y) = Z.lxor (value x) (value y) /\ wf_uint128 (XOR x y).
Proof.
  destruct (Add_spec x y Hx Hy), (Subtract_spec x y Hx Hy), (Add32_spec x v Hx Hv),
    (ShiftLeft_spec x bits Hx Hb).
  pose proof (XOR_value x y Hx Hy). pose proof (wf_XOR x y Hx Hy). tauto.
Qed.

Lemma uint128_arithmetic_witness :
  wf_uint128 (CUInt128_fill true) /\ wf_uint128 (of_uint32 5) /\
  value (Add (CUInt128_fill true) (of_uint32 5)) =
    (value (CUInt128_fill true) + value (of_uint32 5)) mod 2 ^ 128.
Proof.
  assert (wf_uint128 (CUInt128_fill true)) as H1 by (repeat constructor; vm_compute; congruence).
  assert (wf_uint128 (of_uint32 5)) as H2 by (repeat constructor; vm_compute; congruence).
  split; [exact H1|]. split; [exact H2|].
  apply (uint128_arithmetic (CUInt128_fill true) (of_uint32 5) 0 0 H1 H2); [split; reflexivity || lia|lia].
Defined.

(** Comparison is the order of the numbers, against another 128-bit value and against a
    32-bit one, so the operators form a total order and equality of values is equality. *)
Theorem uint128_order (x y : CUInt128) (v : Z)
  (Hx : wf_uint128 x) (Hy : wf_uint128 y) (Hv : in_width 32 v) :
  (op_lt x y = true <-> value x < value y) /\ (op_gt x y = true <-> value x > value y) /\
  (op_le x y = true <-> value x <= value y) /\ (op_ge x y = true <-> value x >= value y) /\
  (op_eq x y = true <-> x = y) /\ (op_ne x y = true <-> x <> y) /\
  (op_lt32 x v = true <-> value x < v) /\ (op_eq32 x v = true <-> value x = v) /\
  (IsZero x = true <-> x = CUInt128_fill false).
Proof.
  assert (x = y <-> value x = value y) as Hxy.
  { split; [by intros ->|]. by apply value_inj. }
  assert (wf_uint128 (CUInt128_fill false)) as H0 by (repeat constructor; vm_compute; congruence).
  unfold op_lt, op_gt, op_le, op_ge, op_eq, op_ne, op_lt32, op_eq32.
  rewrite CompareTo_spec, CompareTo32_spec, IsZero_spec, Hxy by done.
  rewrite negb_true_iff, Z.ltb_lt, Z.gtb_lt, Z.leb_le, Z.geb_le, !Z.eqb_eq, Z.eqb_neq, Z.ltb_lt.
  assert (value x = 0 <-> x = CUInt128_fill false) as <-.
  { split; [|by intros ->]. intros Hv0. by apply value_inj. }
  repeat split; lia.
Qed.

Lemma uint128_order_witness :
  op_lt (mkUInt128 9 1 0 0) (mkUInt128 0 0 0 1) = true /\
  value (mkUInt128 9 1 0 0) < value (mkUInt128 0 0 0 1).
Proof.
  split; [reflexivity|].
  apply (uint128_order (mkUInt128 9 1 0 0) (mkUInt128 0 0 0 1) 0); [..|reflexivity].
  1-2: repeat constructor; vm_compute; congruence.
  vm_compute; intuition congruence.
Defined.

(** The random-tail constructor.  Whatever [rand()] returns and whatever memory the object
    is built in, [CUInt128(value, numBits)] is a well-formed number whose [numBits] most
    significant bits are those of [value]: identifiers generated for a routing zone stay in it. *)
Theorem uint128_prefix_kept (rnd : nat -> Z) (junk v : CUInt128) (numBits : Z)
  (Hj : wf_uint128 junk) (Hv : wf_uint128 v) (Hn : 0 <= numBits <= 128) :
  wf_uint128 (CUInt128_prefix rnd junk v numBits) /\
  forall i, 0 <= i < numBits ->
    GetBitNumber (CUInt128_prefix rnd junk v numBits) i = GetBitNumber v i.
Proof.
  destruct (CUInt128_prefix_spec rnd v Hv junk numBits Hj Hn) as [Hw Ha]. split; [done|].
  intros i Hi. rewrite !GetBitNumber_testbit by (done || lia). by rewrite Ha.
Qed.

Lemma uint128_prefix_witness :
  GetBitNumber (mkUInt128 1 2 3 4) 29 = 1 /\
  GetBitNumber (CUInt128_prefix (fun n => 7 * Z.of_nat n + 3) (CUInt128_fill true)
                                (mkUInt128 1 2 3 4) 37) 29 =
  GetBitNumber (mkUInt128 1 2 3 4) 29.
Proof.
  split; [reflexivity|].
  apply (uint128_prefix_kept (fun n => 7 * Z.of_nat n + 3)); [| |lia|lia].
  1-2: repeat constructor; vm_compute; congruence.
Defined.

(** External forms.  The 16 bytes written for the network are the number in big-endian
    order and reading them gives it back; the bits of the binary text, trimmed or not, denote
    the number; bit [i] of the interface is bit [127 - i] of the number. *)
Theorem uint128_external_forms (x : CUInt128) (Hx : wf_uint128 x) :
  SetValueBE (ToByteArray x) = x /\ be_value (ToByteArray x) 0 = value x /\
  length (ToByteArray x) = 16%nat /\
  (forall trim, parse_binary (ToBinaryString x trim) 0 = value x) /\
  (forall i, 0 <= i <= 127 -> GetBitNumber x i = Z.b2z (Z.testbit (value x) (127 - i))).
Proof.
  split; [by apply SetValueBE_ToByteArray|]. split; [by apply ToByteArray_value|].
  split; [done|]. split; [intros; by apply parse_ToBinaryString|].
  intros i Hi. rewrite GetBitNumber_testbit by (done || lia). by destruct Z.testbit.
Qed.

Lemma uint128_external_forms_witness :
  ToByteArray (mkUInt128 1 0 0 258) = [0;0;1;2;0;0;0;0;0;0;0;0;0;0;0;1] /\
  SetValueBE (ToByteArray (mkUInt128 1 0 0 258)) = mkUInt128 1 0 0 258.
Proof.
  split; [reflexivity|]. apply uint128_external_forms. repeat constructor; vm_compute; congruence.
Defined.
