(* ===== verification/NetworkFunctions.v ===== *)
(** * IPv4 addresses ([NetworkFunctions.h], [NetworkFunctions.cpp])

    Addresses are 32-bit integers.  In "anti-host" order the first octet of a.b.c.d is the low
    byte; in host order it is the high byte.  Strings are lists of character codes.  The
    white-space trimming of [wxString::Strip] is a parameter. *)
From S2P Require Import Prelude UInt128.

Definition chr_0 : Z := 48.
Definition chr_9 : Z := 57.
Definition chr_dot : Z := 46.

(** ** Printing *)

(** [%u] of a value below 1000. *)
Definition print_u8 (v : Z) : list Z :=
  if v <? 10 then [chr_0 + v]
  else if v <? 100 then [chr_0 + v / 10; chr_0 + v mod 10]
  else [chr_0 + v / 100; chr_0 + (v / 10) mod 10; chr_0 + v mod 10].

Definition print_dotted (a b c d : Z) : list Z :=
  print_u8 a ++ [chr_dot] ++ print_u8 b ++ [chr_dot] ++ print_u8 c ++ [chr_dot] ++ print_u8 d.

Definition Uint32toStringIP (ip : Z) : list Z :=
  print_dotted (u8 ip) (u8 (Z.shiftr ip 8)) (u8 (Z.shiftr ip 16)) (u8 (Z.shiftr ip 24)).

Definition KadIPToString (ip : Z) : list Z :=
  print_dotted (u8 (Z.shiftr ip 24)) (u8 (Z.shiftr ip 16)) (u8 (Z.shiftr ip 8)) (u8 ip).

(** ** Parsing *)

(** The loop state: [digit], [field], [value], [tmp_ip]. *)
Fixpoint parse_ip_loop (str : list Z) (digit field value tmp_ip : Z) : option (Z * Z * Z * Z) :=
  match str with
  | [] => Some (digit, field, value, tmp_ip)
  | c :: str =>
      if (c >=? chr_0) && (c <=? chr_9) && (Z.shiftr value 8 =? 0)
      then parse_ip_loop str (digit + 1) field (value * 10 + (c - chr_0)) tmp_ip
      else if c =? chr_dot then
        if negb (digit =? 0) && (Z.shiftr value 8 =? 0)
        then parse_ip_loop str 0 (field + 1) 0
               (Z.lor tmp_ip (u32 (Z.shiftl value (field * 8))))
        else None
      else None
  end.

Definition parse_ip (str : list Z) : option Z :=
  match parse_ip_loop str 0 0 0 0 with
  | Some (digit, field, value, tmp_ip) =>
      if (field =? 3) && negb (digit =? 0) && (Z.shiftr value 8 =? 0)
      then Some (Z.lor tmp_ip (u32 (Z.shiftl value 24)))
      else None
  | None => None
  end.

(** ** Address classes *)

Record filter_st := mkFilter { addr : Z; mask : Z }.

Definition reserved_ranges : list filter_st :=
  [ mkFilter 0x00000000 0x000000ff; mkFilter 0x00000027 0x000000ff;
    mkFilter 0x0000007f 0x000000ff; mkFilter 0x00000080 0x0000ffff;
    mkFilter 0x0000fea9 0x0000ffff; mkFilter 0x0000ffbf 0x0000ffff;
    mkFilter 0x000000c0 0x00ffffff; mkFilter 0x000200c0 0x00ffffff;
    mkFilter 0x006358c0 0x00ffffff; mkFilter 0x000012c6 0x0000feff;
    mkFilter 0x00ffffdf 0x00ffffff; mkFilter 0x000000e0 0x000000f0;
    mkFilter 0x000000f0 0x000000f0 ].

Definition lan_ranges : list filter_st :=
  [ mkFilter 0x0000000a 0x000000ff; mkFilter 0x000010ac 0x0000f0ff;
    mkFilter 0x0000a8c0 0x0000ffff ].

(** One comparison of the loops of [IsGoodIP] and [IsLanIP]. *)
Definition in_range (ip : Z) (r : filter_st) : bool :=
  Z.land (Z.lxor ip (addr r)) (mask r) =? 0.

Definition IsLanIP (ip : Z) : bool := existsb (in_range ip) lan_ranges.

Definition IsGoodIP (ip : Z) (filterLAN : bool) : bool :=
  if existsb (in_range ip) reserved_ranges then false else negb (filterLAN && IsLanIP ip).

Definition IsGoodIPPort (nIP nPort : Z) : bool := IsGoodIP nIP true && negb (nPort =? 0).

Definition IsLoopbackIP (ip : Z) : bool := Z.land ip 0x000000ff =? 0x0000007f.

Definition IsLinkLocalIP (ip : Z) : bool := Z.land ip 0x0000ffff =? 0x0000fea9.

Definition HIGHEST_LOWID_ED2K_KAD : Z := 16777216.

Definition IsLowID (id : Z) : bool := id <? HIGHEST_LOWID_ED2K_KAD.

Section Strip.

(** [wxString::Strip(both)]. *)
Variable strip : list Z -> list Z.

(** The reference argument keeps its value when the text is not an address. *)
Definition StringIPtoUint32_ref (strIP : list Z) (Ip : Z) : bool * Z :=
  match parse_ip (strip strIP) with
  | Some ip => (true, ip)
  | None => (false, Ip)
  end.

Definition StringIPtoUint32 (strIP : list Z) : Z := (StringIPtoUint32_ref strIP 0).2.

End Strip.

(** ** Octets *)

Definition is_octet (v : Z) : Prop := in_width 8 v.

(** The address a.b.c.d in anti-host order. *)
Definition ip4 (a b c d : Z) : Z := a + 2 ^ 8 * b + 2 ^ 16 * c + 2 ^ 24 * d.

Lemma u8_octet z : is_octet (u8 z).
Proof. apply wrap_range. lia. Qed.

Lemma ip4_octets ip : in_width 32 ip ->
  ip = ip4 (u8 ip) (u8 (Z.shiftr ip 8)) (u8 (Z.shiftr ip 16)) (u8 (Z.shiftr ip 24)).
Proof.
  intros H. unfold ip4. rewrite !Z.shiftr_div_pow2 by lia. change (2 ^ 24) with 16777216.
  width_lia.
Qed.

(** ** The parser against a reference definition *)

(** The fields of a dotted text. *)
Fixpoint split_dots (str : list Z) : list (list Z) :=
  match str with
  | [] => [[]]
  | c :: str =>
      if c =? chr_dot then [] :: split_dots str
      else match split_dots str with
           | f :: fs => (c :: f) :: fs
           | [] => [[c]]
           end
  end.

Definition is_digit (c : Z) : bool := (c >=? chr_0) && (c <=? chr_9).

Definition decimal (v : Z) (f : list Z) : Z := fold_left (fun v c => v * 10 + (c - chr_0)) f v.

(** A field: at least one digit, nothing else, at most 255. *)
Definition octet_from (digit v : Z) (f : list Z) : option Z :=
  if forallb is_digit f && negb (digit + Z.of_nat (length f) =? 0) && (decimal v f <? 256)
  then Some (decimal v f) else None.

Definition octet (f : list Z) : option Z := octet_from 0 0 f.

Definition dotted_quad (str : list Z) : option Z :=
  match map octet (split_dots str) with
  | [Some a; Some b; Some c; Some d] => Some (ip4 a b c d)
  | _ => None
  end.

Fixpoint fields_value (digit field value tmp_ip : Z) (l : list (list Z)) : option Z :=
  match l with
  | [] => None
  | f :: fs =>
      match octet_from digit value f with
      | None => None
      | Some v =>
          match fs with
          | [] => if field =? 3 then Some (Z.lor tmp_ip (u32 (Z.shiftl v 24))) else None
          | _ => fields_value 0 (field + 1) 0 (Z.lor tmp_ip (u32 (Z.shiftl v (field * 8)))) fs
          end
      end
  end.

Lemma split_dots_cons str : exists f fs, split_dots str = f :: fs.
Proof. destruct str as [|c str]; simpl; [eauto|]. case_cmp; [eauto|]. destruct (split_dots str); eauto. Qed.

Lemma decimal_ge f : forall v, 0 <= v -> forallb is_digit f = true -> v <= decimal v f.
Proof.
  induction f as [|c f IH]; intros v Hv Hd; simpl in *; [lia|].
  apply andb_prop in Hd as [Hc Hf]. unfold is_digit, chr_0, chr_9 in Hc. bool_facts.
  specialize (IH (v * 10 + (c - chr_0))). unfold chr_0 in *. lia.
Qed.

Lemma shiftr8_small v : 0 <= v -> (Z.shiftr v 8 =? 0) = (v <? 256).
Proof. intros. rewrite Z.shiftr_div_pow2 by lia. norm_pow. repeat case_cmp; lia. Qed.

Lemma octet_from_big digit v f : 256 <= v -> octet_from digit v f = None.
Proof.
  intros Hv. unfold octet_from. destruct (forallb is_digit f) eqn:Hf; simpl; [|done].
  pose proof (decimal_ge f v). destruct (Z.ltb_spec (decimal v f) 256); [lia|].
  by rewrite andb_false_r.
Qed.

Lemma octet_from_cons digit v c f :
  0 <= digit -> is_digit c = true ->
  octet_from digit v (c :: f) = octet_from (digit + 1) (v * 10 + (c - chr_0)) f.
Proof.
  intros Hd Hc. unfold octet_from. simpl forallb. rewrite Hc. simpl andb.
  replace (digit + Z.of_nat (S (length f))) with (digit + 1 + Z.of_nat (length f)) by lia.
  reflexivity.
Qed.

Lemma octet_from_nondigit digit v c f : is_digit c = false -> octet_from digit v (c :: f) = None.
Proof. intros Hc. unfold octet_from. simpl. by rewrite Hc. Qed.

Lemma octet_from_nil digit v :
  0 <= v -> octet_from digit v [] = if negb (digit =? 0) && (Z.shiftr v 8 =? 0) then Some v else None.
Proof.
  intros Hv. unfold octet_from, decimal. simpl. rewrite shiftr8_small by done.
  by rewrite Z.add_0_r.
Qed.

Lemma parse_loop_fields str : forall digit field value tmp_ip,
  0 <= digit -> 0 <= value ->
  match parse_ip_loop str digit field value tmp_ip with
  | Some (digit, field, value, tmp_ip) =>
      if (field =? 3) && negb (digit =? 0) && (Z.shiftr value 8 =? 0)
      then Some (Z.lor tmp_ip (u32 (Z.shiftl value 24))) else None
  | None => None
  end = fields_value digit field value tmp_ip (split_dots str).
Proof.
  induction str as [|c str IH]; intros digit field value tmp_ip Hd Hv; simpl parse_ip_loop; simpl split_dots.
  - simpl. rewrite octet_from_nil by done. by destruct (field =? 3), (negb (digit =? 0)), (Z.shiftr value 8 =? 0).
  - change ((c >=? chr_0) && (c <=? chr_9)) with (is_digit c).
    rewrite shiftr8_small by done.
    destruct (Z.eqb_spec c chr_dot) as [->|Hdot].
    + change (is_digit chr_dot) with false. simpl. rewrite octet_from_nil, shiftr8_small by done.
      destruct (negb (digit =? 0) && (value <? 256)); [|done].
      rewrite IH by lia. destruct (split_dots_cons str) as (f & fs & ->). done.
    + destruct (split_dots_cons str) as (f & fs & Hs).
      destruct (is_digit c) eqn:Hc; simpl.
      * destruct (Z.ltb_spec value 256) as [Hlt|Hge].
        -- unfold is_digit in Hc. unfold chr_0, chr_9 in *. rewrite IH by (bool_facts; lia).
           rewrite Hs. simpl. rewrite octet_from_cons by (unfold is_digit, chr_0, chr_9; done || lia).
           done.
        -- rewrite Hs. simpl. by rewrite octet_from_big.
      * rewrite Hs. simpl. by rewrite octet_from_nondigit.
Qed.

Lemma octet_range f v : octet f = Some v -> is_octet v.
Proof.
  unfold octet, octet_from. destruct (forallb is_digit f) eqn:Hf; simpl; [|done].
  destruct (negb _); simpl; [|done]. case_cmp; [|done]. intros [= <-].
  pose proof (decimal_ge f 0). unfold is_octet. width_lia.
Qed.

Lemma lor_octet a b n :
  in_width n a -> is_octet b -> 0 <= n <= 24 -> Z.lor a (u32 (Z.shiftl b n)) = a + 2 ^ n * b.
Proof.
  intros Ha Hb Hn. rewrite wrap_small; [apply lor_shiftl_add; done || lia|].
  rewrite Z.shiftl_mul_pow2 by lia. unfold is_octet, in_width in *.
  pose proof (Z.pow_le_mono_r 2 n 24). change (2 ^ 24) with 16777216 in *. norm_pow.
  assert (0 < 2 ^ n) by (apply Z.pow_pos_nonneg; lia). nia.
Qed.

Lemma parse_ip_dotted_quad str : parse_ip str = dotted_quad str.
Proof.
  unfold parse_ip. rewrite parse_loop_fields by lia. unfold dotted_quad.
  destruct (split_dots str) as [|f1 [|f2 [|f3 [|f4 [|f5 fs]]]]]; simpl; [done|..];
    change (octet_from 0 0) with octet;
    destruct (octet f1) as [a|] eqn:E1; simpl; try done;
    try destruct (octet f2) as [b|] eqn:E2; simpl; try done;
    try destruct (octet f3) as [c|] eqn:E3; simpl; try done;
    try destruct (octet f4) as [d|] eqn:E4; simpl; try done.
  - f_equal. apply octet_range in E1, E2, E3, E4.
    change (0 * 8) with 0. change (1 * 8) with 8. change (2 * 8) with 16. unfold ip4.
    unfold is_octet in *.
    rewrite (lor_octet 0 a 0) by (done || lia).
    change ((0 + 1) * 8) with 8. change ((0 + 1 + 1) * 8) with 16.
    rewrite (lor_octet _ b 8), (lor_octet _ c 16), (lor_octet _ d 24); unfold is_octet, in_width in *;
      change (2 ^ 24) with 16777216; norm_pow; lia.
  - enough (forall l field t, 4 <= field -> fields_value 0 field 0 t l = None) as He
      by (destruct (octet f5); [|done]; destruct fs; [done|]; apply He; lia).
    clear. induction l as [|f l IH]; intros fl t Hf; simpl; [done|].
    destruct (octet_from 0 0 f); [|done]. destruct l; [|apply IH; lia].
    by destruct (Z.eqb_spec fl 3); [lia|].
Qed.

Lemma print_u8_octet v : is_octet v -> octet (print_u8 v) = Some v /\ Forall (fun c => c <> chr_dot) (print_u8 v).
Proof.
  intros Hv.
  assert (forallb (fun v => bool_decide (octet (print_u8 v) = Some v) &&
                            forallb (fun c => negb (c =? chr_dot)) (print_u8 v)) (seqZ 0 256) = true) as H
    by (vm_compute; done).
  rewrite forallb_forall in H. specialize (H v). rewrite <- list_elem_of_In, elem_of_seqZ in H.
  unfold is_octet, in_width in Hv. norm_pow. apply andb_prop in H as [H1 H2]; [|lia].
  split; [by apply bool_decide_eq_true in H1|].
  apply Forall_forall. intros c Hc. rewrite forallb_forall in H2. apply list_elem_of_In in Hc.
  specialize (H2 c Hc). apply negb_true_iff in H2. by apply Z.eqb_neq.
Qed.

Lemma split_dots_plain f : Forall (fun c => c <> chr_dot) f -> split_dots f = [f].
Proof.
  induction 1 as [|c f Hc Hf IH]; simpl; [done|]. destruct (Z.eqb_spec c chr_dot); [done|].
  by rewrite IH.
Qed.

Lemma split_dots_app f str :
  Forall (fun c => c <> chr_dot) f -> split_dots (f ++ chr_dot :: str) = f :: split_dots str.
Proof.
  induction 1 as [|c f Hc Hf IH]; simpl; [done|]. destruct (Z.eqb_spec c chr_dot); [done|].
  by rewrite IH.
Qed.

Lemma dotted_quad_print a b c d :
  is_octet a -> is_octet b -> is_octet c -> is_octet d ->
  dotted_quad (print_dotted a b c d) = Some (ip4 a b c d).
Proof.
  intros Ha Hb Hc Hd.
  apply print_u8_octet in Ha as [Ha Ha'], Hb as [Hb Hb'], Hc as [Hc Hc'], Hd as [Hd Hd'].
  unfold dotted_quad, print_dotted. simpl app.
  rewrite !split_dots_app, split_dots_plain by done. simpl. by rewrite Ha, Hb, Hc, Hd.
Qed.

(** ** Address classes by octets *)

Lemma land_lxor_zero x a m : Z.land (Z.lxor x a) m = 0 <-> Z.land x m = Z.land a m.
Proof.
  assert (Z.land (Z.lxor x a) m = Z.lxor (Z.land x m) (Z.land a m)) as ->
    by (apply Z.bits_inj'; intros i _; rewrite !Z.lxor_spec, !Z.land_spec, Z.lxor_spec;
        by destruct (Z.testbit x i), (Z.testbit a i), (Z.testbit m i)).
  split; [apply Z.lxor_eq | intros ->; apply Z.lxor_nilpotent].
Qed.

Lemma in_range_ones ip a n : 0 <= n -> in_range ip (mkFilter a (Z.ones n)) = (ip mod 2 ^ n =? a mod 2 ^ n).
Proof.
  intros Hn. unfold in_range. simpl. apply eq_bool_prop_intro. rewrite !Is_true_true, !Z.eqb_eq.
  rewrite land_lxor_zero, !Z.land_ones by done. done.
Qed.

(** The other masks only look at the two low octets. *)
Lemma in_range_low ip a m :
  0 <= m < 2 ^ 16 -> in_range ip (mkFilter a m) = (Z.land (ip mod 2 ^ 16) m =? Z.land a m).
Proof.
  intros Hm. unfold in_range. simpl. apply eq_bool_prop_intro. rewrite !Is_true_true, !Z.eqb_eq.
  rewrite land_lxor_zero. rewrite <- (Z.land_ones ip) by lia.
  rewrite <- Z.land_assoc, (Z.land_comm (Z.ones 16)), Z.land_ones by lia.
  by rewrite (Z.mod_small m) by lia.
Qed.

Lemma seqZ_forallb (P : Z -> bool) n z : forallb P (seqZ 0 n) = true -> 0 <= z < n -> P z = true.
Proof.
  intros H Hz. rewrite forallb_forall in H. apply H, list_elem_of_In, elem_of_seqZ. lia.
Qed.

Definition lan_octets (a b : Z) : bool :=
  (a =? 10) || ((a =? 172) && (16 <=? b) && (b <=? 31)) || ((a =? 192) && (b =? 168)).

Definition reserved_octets (a b c : Z) : bool :=
  (a =? 0) || (a =? 39) || (a =? 127) || ((a =? 128) && (b =? 0)) || ((a =? 169) && (b =? 254)) ||
  ((a =? 191) && (b =? 255)) || ((a =? 192) && (b =? 0) && (c =? 0)) ||
  ((a =? 192) && (b =? 0) && (c =? 2)) || ((a =? 192) && (b =? 88) && (c =? 99)) ||
  ((a =? 198) && ((b =? 18) || (b =? 19))) || ((a =? 223) && (b =? 255) && (c =? 255)) ||
  (224 <=? a).

Lemma ip4_mod8 a b c d : is_octet a -> ip4 a b c d mod 2 ^ 8 = a.
Proof. unfold is_octet, in_width, ip4. change (2 ^ 24) with 16777216. norm_pow. lia. Qed.

Lemma ip4_mod16 a b c d : is_octet a -> is_octet b -> ip4 a b c d mod 2 ^ 16 = a + 2 ^ 8 * b.
Proof. unfold is_octet, in_width, ip4. change (2 ^ 24) with 16777216. norm_pow. lia. Qed.

Lemma ip4_mod24 a b c d :
  is_octet a -> is_octet b -> is_octet c -> ip4 a b c d mod 2 ^ 24 = a + 2 ^ 8 * b + 2 ^ 16 * c.
Proof. unfold is_octet, in_width, ip4. change (2 ^ 24) with 16777216. norm_pow. lia. Qed.

Section Octets.

Context (a b c d : Z) (Ha : is_octet a) (Hb : is_octet b) (Hc : is_octet c).

Lemma range8_ip4 x : is_octet x -> in_range (ip4 a b c d) (mkFilter x 255) = (a =? x).
Proof.
  intros Hx. change 255 with (Z.ones 8).
  by rewrite in_range_ones, ip4_mod8, (Z.mod_small x) by (done || lia).
Qed.

Lemma range16_ip4 x1 x2 x : x = x1 + 256 * x2 -> is_octet x1 -> is_octet x2 ->
  in_range (ip4 a b c d) (mkFilter x 65535) = (a =? x1) && (b =? x2).
Proof.
  intros -> H1 H2. change 65535 with (Z.ones 16). rewrite in_range_ones, ip4_mod16 by (done || lia).
  unfold is_octet, in_width in *. norm_pow. repeat case_cmp; simpl; lia || done.
Qed.

Lemma range24_ip4 x1 x2 x3 x :
  x = x1 + 256 * x2 + 65536 * x3 -> is_octet x1 -> is_octet x2 -> is_octet x3 ->
  in_range (ip4 a b c d) (mkFilter x 16777215) = (a =? x1) && (b =? x2) && (c =? x3).
Proof.
  intros -> H1 H2 H3. change 16777215 with (Z.ones 24). rewrite in_range_ones, ip4_mod24 by (done || lia).
  unfold is_octet, in_width in *. change (2 ^ 24) with 16777216 in *. norm_pow.
  repeat case_cmp; simpl; lia || done.
Qed.

(** A mask on the two low octets decides the octets listed by a table of all 65536 cases. *)
Lemma range_low_ip4 x m (P : Z -> Z -> bool) :
  0 <= m < 2 ^ 16 ->
  forallb (fun b => forallb (fun a =>
    Bool.eqb (Z.land (a + 256 * b) m =? Z.land x m) (P a b)) (seqZ 0 256)) (seqZ 0 256) = true ->
  in_range (ip4 a b c d) (mkFilter x m) = P a b.
Proof.
  intros Hm H. rewrite in_range_low, ip4_mod16 by done.
  unfold is_octet, in_width in *. norm_pow.
  apply (seqZ_forallb _ 256 b) in H; [|lia]. apply (seqZ_forallb _ 256 a) in H; [|lia].
  by apply Bool.eqb_prop in H.
Qed.

Lemma IsLanIP_octets : IsLanIP (ip4 a b c d) = lan_octets a b.
Proof.
  unfold IsLanIP, lan_ranges. simpl existsb.
  rewrite (range8_ip4 10), (range16_ip4 192 168) by done.
  rewrite (range_low_ip4 4268 61695 (fun a b => (a =? 172) && (16 <=? b) && (b <=? 31)))
    by (lia || (vm_compute; reflexivity)).
  unfold lan_octets. by rewrite orb_false_r, orb_assoc.
Qed.

Lemma reserved_ranges_octets : existsb (in_range (ip4 a b c d)) reserved_ranges = reserved_octets a b c.
Proof.
  unfold reserved_ranges. simpl existsb.
  rewrite (range8_ip4 0), (range8_ip4 39), (range8_ip4 127) by done.
  rewrite (range16_ip4 128 0), (range16_ip4 169 254), (range16_ip4 191 255) by done.
  rewrite (range24_ip4 192 0 0), (range24_ip4 192 0 2), (range24_ip4 192 88 99),
    (range24_ip4 223 255 255) by done.
  rewrite (range_low_ip4 4806 65279 (fun a b => (a =? 198) && ((b =? 18) || (b =? 19))))
    by (lia || (vm_compute; reflexivity)).
  rewrite (range_low_ip4 224 240 (fun a b => (224 <=? a) && (a <=? 239)))
    by (lia || (vm_compute; reflexivity)).
  rewrite (range_low_ip4 240 240 (fun a b => 240 <=? a)) by (lia || (vm_compute; reflexivity)).
  rewrite orb_false_r. replace ((224 <=? a) && (a <=? 239) || (240 <=? a)) with (224 <=? a)
    by (repeat case_cmp; simpl; lia || done).
  unfold reserved_octets. by rewrite !orb_assoc.
Qed.

Lemma IsGoodIP_octets filterLAN :
  IsGoodIP (ip4 a b c d) filterLAN =
  negb (reserved_octets a b c) && negb (filterLAN && lan_octets a b).
Proof.
  unfold IsGoodIP. rewrite IsLanIP_octets, reserved_ranges_octets. by destruct (reserved_octets a b c).
Qed.

End Octets.

(** ** Host order: the /24 network of an address *)

Lemma swap32_octets a b c d :
  is_octet a -> is_octet b -> is_octet c -> is_octet d -> swap32 (ip4 d c b a) = ip4 a b c d.
Proof.
  unfold is_octet. intros Ha Hb Hc Hd.
  unfold swap32, RawPokeUInt32, RawPeekUInt32, ip4. simpl.
  rewrite !Z.shiftr_div_pow2 by lia. unfold wrap, in_width in *. change (2 ^ 24) with 16777216.
  norm_pow. lia.
Qed.

(** [ip & 0xFFFFFF00]. *)
Definition subnet24 (ip : Z) : Z := Z.land ip 0xFFFFFF00.

Lemma subnet24_eq ip : in_width 32 ip -> subnet24 ip = 256 * (ip / 256).
Proof.
  intros H. unfold subnet24. change 0xFFFFFF00 with (Z.shiftl (Z.ones 24) 8).
  transitivity (Z.shiftl (Z.shiftr ip 8) 8).
  - apply Z.bits_inj'. intros i Hi. rewrite Z.land_spec, !Z.shiftl_spec by done.
    destruct (Z.ltb_spec i 8) as [Hlt|Hge].
    + rewrite !(Z.testbit_neg_r _ (i - 8)) by lia. apply andb_false_r.
    + rewrite Z.shiftr_spec by lia. replace (i - 8 + 8) with i by lia.
      destruct (Z.ltb_spec i 32) as [H32|H32].
      * rewrite Z.ones_spec_low by lia. apply andb_true_r.
      * by rewrite (testbit_in_width 32 ip i) by (done || lia).
  - rewrite Z.shiftl_mul_pow2, Z.shiftr_div_pow2 by lia. norm_pow. lia.
Qed.

Lemma IsLanIP_host ip : in_width 32 ip ->
  IsLanIP (swap32 ip) = lan_octets (u8 (Z.shiftr ip 24)) (u8 (Z.shiftr ip 16)).
Proof.
  intros H. rewrite (ip4_octets ip H) at 1. rewrite swap32_octets by apply u8_octet.
  apply IsLanIP_octets; apply u8_octet.
Qed.

(** The addresses of one /24 network are all LAN addresses or all not. *)
Lemma IsLanIP_subnet24 ip ip' :
  in_width 32 ip -> in_width 32 ip' -> subnet24 ip = subnet24 ip' ->
  IsLanIP (swap32 ip) = IsLanIP (swap32 ip').
Proof.
  intros H H'. rewrite !subnet24_eq, !IsLanIP_host by done. intros E.
  rewrite !Z.shiftr_div_pow2 by lia. unfold wrap. change (2 ^ 24) with 16777216. norm_pow.
  assert (ip / 256 = ip' / 256) as E' by lia.
  f_equal; [replace (ip / 16777216) with (ip / 256 / 65536) by lia
           |replace (ip / 65536) with (ip / 256 / 256) by lia]; rewrite E'; f_equal; lia.
Qed.

(** ** Properties *)

(** Parsing an address text is the reference reading of a dotted quad: exactly four
    non-empty fields of decimal digits, each at most 255, the reference argument untouched on
    any other text; and the text printed for an address reads back to it. *)
Theorem network_ip_text (strip : list Z -> list Z) (strIP : list Z) (Ip ip : Z)
  (Hip : in_width 32 ip) (Hstrip : strip (Uint32toStringIP ip) = Uint32toStringIP ip) :
  StringIPtoUint32_ref strip strIP Ip =
    (match dotted_quad (strip strIP) with Some r => (true, r) | None => (false, Ip) end) /\
  StringIPtoUint32_ref strip (Uint32toStringIP ip) Ip = (true, ip) /\
  StringIPtoUint32 strip (Uint32toStringIP ip) = ip /\
  KadIPToString (swap32 ip) = Uint32toStringIP ip.
Proof.
  assert (parse_ip (Uint32toStringIP ip) = Some ip) as E.
  { rewrite parse_ip_dotted_quad. unfold Uint32toStringIP.
    rewrite dotted_quad_print by apply u8_octet. by rewrite <- ip4_octets. }
  unfold StringIPtoUint32, StringIPtoUint32_ref. rewrite Hstrip, E, parse_ip_dotted_quad.
  split_and!; [by destruct (dotted_quad _) | done | done |].
  rewrite (ip4_octets ip Hip) at 1. unfold KadIPToString, Uint32toStringIP.
  rewrite swap32_octets by apply u8_octet.
  pose proof (u8_octet ip) as H0. pose proof (u8_octet (Z.shiftr ip 8)) as H1.
  pose proof (u8_octet (Z.shiftr ip 16)) as H2. pose proof (u8_octet (Z.shiftr ip 24)) as H3.
  remember (u8 ip) as a. remember (u8 (Z.shiftr ip 8)) as b.
  remember (u8 (Z.shiftr ip 16)) as c. remember (u8 (Z.shiftr ip 24)) as d.
  rewrite !Z.shiftr_div_pow2 by lia. unfold is_octet, in_width, ip4, wrap in *.
  change (2 ^ 24) with 16777216. norm_pow. f_equal; lia.
Qed.

Lemma network_ip_text_witness :
  in_width 32 16777343 /\ Uint32toStringIP 16777343 = [49; 50; 55; 46; 48; 46; 48; 46; 49] /\
  KadIPToString (swap32 16777343) = Uint32toStringIP 16777343.
Proof.
  split; [by split|]. split; [reflexivity|].
  exact (proj2 (proj2 (proj2 (network_ip_text (fun s => s) [] 0 16777343 ltac:(by split) eq_refl)))).
Defined.

(** The mask tables decide the address classes: an address a.b.c.d is a LAN address iff it
    is in 10/8, 172.16/12 or 192.168/16, and good iff it is outside the reserved blocks and, when
    asked, not a LAN address; and the class of a host-order address depends on its /24 only. *)
Theorem network_ip_classes (a b c d port : Z) (filterLAN : bool)
  (Ha : is_octet a) (Hb : is_octet b) (Hc : is_octet c) (Hd : is_octet d) :
  IsLanIP (ip4 a b c d) = lan_octets a b /\
  IsGoodIP (ip4 a b c d) filterLAN = negb (reserved_octets a b c) && negb (filterLAN && lan_octets a b) /\
  IsGoodIPPort (ip4 a b c d) port =
    negb (reserved_octets a b c) && negb (lan_octets a b) && negb (port =? 0) /\
  IsLoopbackIP (ip4 a b c d) = (a =? 127) /\
  IsLinkLocalIP (ip4 a b c d) = (a =? 169) && (b =? 254) /\
  IsLowID (ip4 a b c d) = (d =? 0) /\
  (forall d', is_octet d' ->
    IsLanIP (swap32 (ip4 d c b a)) = IsLanIP (swap32 (ip4 d' c b a))).
Proof.
  unfold IsGoodIPPort. rewrite !IsGoodIP_octets, IsLanIP_octets by done. split_and!; try done.
  - unfold IsLoopbackIP. change 255 with (Z.ones 8). by rewrite Z.land_ones, ip4_mod8 by (done || lia).
  - unfold IsLinkLocalIP. change 65535 with (Z.ones 16). rewrite Z.land_ones, ip4_mod16 by (done || lia).
    unfold is_octet, in_width in *. norm_pow. repeat case_cmp; simpl; lia || done.
  - unfold IsLowID, HIGHEST_LOWID_ED2K_KAD, ip4, is_octet, in_width in *.
    change (2 ^ 24) with 16777216. norm_pow. repeat case_cmp; lia || done.
  - intros d' Hd'. by rewrite !swap32_octets, !IsLanIP_octets by done.
Qed.

Lemma network_ip_classes_witness :
  IsLanIP (ip4 192 168 1 2) = true /\ IsGoodIPPort (ip4 8 8 8 8) 4672 = true.
Proof.
  split.
  - exact (proj1 (network_ip_classes 192 168 1 2 0 true ltac:(by split)
      ltac:(by split) ltac:(by split)
      ltac:(by split))).
  - exact (proj1 (proj2 (proj2 (network_ip_classes 8 8 8 8 4672 true ltac:(by split)
      ltac:(by split) ltac:(by split)
      ltac:(by split))))).
Defined.
