(* ===== verification/RateLimiter.v ===== *)
(** * The limiter of failed authentications ([libs/common/RateLimiter.h], [RateLimiter.cpp])

    A map from address to a bucket with the times of the recent failures and the end of a
    lockout, and the way the web interface uses it ([webapi/Api.cpp],
    [AuthenticateRequestRateLimited]). *)
From S2P Require Import Prelude.

Record Config := mkConfig { window_seconds : Z; threshold : Z; lockout_seconds : Z }.

Record Decision := mkDecision { locked_out : bool; retry_after_seconds : Z }.

Record Bucket := mkBucket { failures : list Z; lockout_until : Z }.

Abbreviation Buckets := (gmap string Bucket) (only parsing).

(** [while (!failures.empty() && now - failures.front() > window_seconds) pop_front] *)
Fixpoint expire (window now : Z) (fs : list Z) : list Z :=
  match fs with
  | front :: rest => if now - front >? window then expire window now rest else fs
  | [] => []
  end.

Definition Check (cfg : Config) (ip : string) (now : Z) (m : Buckets) : Decision * Buckets :=
  match m !! ip with
  | None => (mkDecision false 0, m)
  | Some b =>
      if lockout_until b >? now then (mkDecision true (lockout_until b - now), m)
      else
        let b := if negb (lockout_until b =? 0) && (lockout_until b <=? now)
                 then mkBucket [] 0 else b in
        let b := mkBucket (expire (window_seconds cfg) now (failures b)) (lockout_until b) in
        (mkDecision false 0, <[ip := b]> m)
  end.

Definition NoteFailure (cfg : Config) (ip : string) (now : Z) (m : Buckets) : Buckets :=
  let b := default (mkBucket [] 0) (m !! ip) in
  let fs := expire (window_seconds cfg) now (failures b) ++ [now] in
  let until := if Z.of_nat (length fs) >=? threshold cfg then now + lockout_seconds cfg
               else lockout_until b in
  <[ip := mkBucket fs until]> m.

Definition NoteSuccess (ip : string) (m : Buckets) : Buckets := delete ip m.

(** A request: its address, the clock before and after its credentials are compared, and
    whether they are right. *)
Record request := mkRequest { remote_addr : string; t_check : Z; t_note : Z; credentials : bool }.

Inductive outcome := Refused (retry_after : Z) | Passed | Rejected.

Definition AuthenticateRequestRateLimited (cfg : Config) (req : request) (m : Buckets) :
  outcome * Buckets :=
  let ip := remote_addr req in
  let '(decision, m) := Check cfg ip (t_check req) m in
  if locked_out decision then (Refused (retry_after_seconds decision), m)
  else if credentials req then (Passed, NoteSuccess ip m)
  else (Rejected, NoteFailure cfg ip (t_note req) m).

(** Requests served one after the other, with what was answered to each. *)
Fixpoint serve (cfg : Config) (reqs : list request) (m : Buckets) : list (request * outcome) * Buckets :=
  match reqs with
  | [] => ([], m)
  | req :: reqs =>
      let '(o, m) := AuthenticateRequestRateLimited cfg req m in
      let '(log, m) := serve cfg reqs m in ((req, o) :: log, m)
  end.

(** The clock does not go back, from [now] on. *)
Fixpoint in_order (now : Z) (reqs : list request) : Prop :=
  match reqs with
  | [] => True
  | req :: reqs => now <= t_check req /\ t_check req <= t_note req /\ in_order (t_note req) reqs
  end.

Fixpoint last_time (now : Z) (reqs : list request) : Z :=
  match reqs with [] => now | req :: reqs => last_time (t_note req) reqs end.

(** ** What the log says *)

(** The times of the failures of an address since its last success, oldest first. *)
Definition streak_step (ip : string) (fs : list Z) (e : request * outcome) : list Z :=
  if bool_decide (remote_addr e.1 = ip) then
    match e.2 with
    | Refused _ => fs
    | Passed => []
    | Rejected => fs ++ [t_note e.1]
    end
  else fs.

Definition streak (ip : string) (log : list (request * outcome)) : list Z :=
  fold_left (streak_step ip) log [].

(** The last [threshold] of the failures lie within the window: the failure that ends the lockout. *)
Definition armed_by (cfg : Config) (fs : list Z) : option Z :=
  match last fs, fs !! (length fs - Z.to_nat (threshold cfg))%nat with
  | Some t, Some t0 => if (threshold cfg <=? Z.of_nat (length fs)) && (t - t0 <=? window_seconds cfg)
                       then Some t else None
  | _, _ => None
  end.

(** When the lockout the failures caused ends ([0]: there is none). *)
Definition locked_until (cfg : Config) (fs : list Z) : Z :=
  match armed_by cfg fs with Some t => t + lockout_seconds cfg | None => 0 end.

(** ** The buckets follow the log *)

Section Limiter.

Context (cfg : Config).
Context (threshold_pos : 1 <= threshold cfg) (window_pos : 0 <= window_seconds cfg)
        (lockout_longer : window_seconds cfg < lockout_seconds cfg).

Lemma expire_split now fs : exists dead,
  fs = dead ++ expire (window_seconds cfg) now fs /\
  Forall (fun x => window_seconds cfg < now - x) dead /\
  (forall x rest, expire (window_seconds cfg) now fs = x :: rest -> now - x <= window_seconds cfg).
Proof using.
  clear. induction fs as [|f fs (dead & E & Hd & Hh)]; simpl; [by exists []|].
  case_cmp_as H.
  - exists (f :: dead). simpl. split_and!; [by f_equal|by constructor|done].
  - exists []. split_and!; [done|done|]. intros x rest [= <- <-]. lia.
Qed.

(** Of [threshold + 1] failures in a row the first and the last are more than a window apart. *)
Definition spaced (fs : list Z) : Prop := forall i a b,
  fs !! i = Some a -> fs !! (i + Z.to_nat (threshold cfg))%nat = Some b -> window_seconds cfg < b - a.

Lemma spaced_nil : spaced [].
Proof using. intros i a b Ha. by rewrite lookup_nil in Ha. Qed.

(** No lockout stands: the live failures are fewer than the threshold. *)
Record open (now : Z) (fs : list Z) (b : Bucket) : Prop := {
  open_until : lockout_until b = 0;
  open_few : Z.of_nat (length (failures b)) < threshold cfg;
  open_old : exists old, fs = old ++ failures b /\ Forall (fun x => window_seconds cfg < now - x) old;
  open_spec : locked_until cfg fs <= now
}.

Record locked (fs : list Z) (b : Bucket) : Prop := {
  locked_spec : lockout_until b = locked_until cfg fs;
  locked_pos : 0 < lockout_until b;
  locked_last : Forall (fun x => x + lockout_seconds cfg <= lockout_until b) fs
}.

Definition follows (now : Z) (fs : list Z) (ob : option Bucket) : Prop :=
  spaced fs /\ Forall (fun x => x <= now) fs /\
  match ob with None => fs = [] | Some b => open now fs b \/ locked fs b end.

Lemma locked_until_nil : locked_until cfg [] = 0.
Proof using. done. Qed.

Lemma open_later now now' fs b : now <= now' -> open now fs b -> open now' fs b.
Proof using.
  intros Hle [H1 H2 (old & H3 & H4) H5]. split; [done|done| |lia]. exists old. split; [done|].
  eapply Forall_impl; [exact H4|]. simpl. lia.
Qed.

(** Checking: the decision is the one the log gives, and afterwards no lockout stands unless the
    address was refused. *)
Lemma Check_follows ip now now' fs (m : gmap string Bucket) :
  0 <= now <= now' -> follows now fs (m !! ip) ->
  let '(d, m') := Check cfg ip now' m in
  d = (if locked_until cfg fs >? now' then mkDecision true (locked_until cfg fs - now')
       else mkDecision false 0) /\
  (if locked_out d then m' = m
   else m' !! ip = None /\ fs = [] \/ exists b, m' !! ip = Some b /\ open now' fs b).
Proof using lockout_longer threshold_pos.
  intros Hle (Hsp & Hpast & Hb). unfold Check. destruct (m !! ip) as [b|] eqn:E.
  2: { subst fs. rewrite locked_until_nil. case_cmp; [lia|]. simpl. split_and!; auto. }
  assert (forall ob : Bucket, open now' fs ob -> lockout_until ob = 0 ->
    open now' fs (mkBucket (expire (window_seconds cfg) now' (failures ob)) (lockout_until ob))) as Hexp.
  { intros ob [H1 H2 (old & H3 & H4) H5] _. destruct (expire_split now' (failures ob)) as (dead & Ed & Hd & _).
    split; simpl; [done| |exists (old ++ dead)|done].
    - rewrite Ed, length_app in H2. lia.
    - rewrite <- app_assoc, <- Ed. split; [done|]. by apply Forall_app. }
  destruct Hb as [Ho|Hl].
  - apply (open_later _ now') in Ho; [|lia]. pose proof (open_until _ _ _ Ho) as E0.
    pose proof (open_spec _ _ _ Ho) as E1. rewrite E0. cbn -[Z.gtb]. rewrite !Z.gtb_ltb, !(proj2 (Z.ltb_ge _ _)) by lia.
    split; [done|].
    right. eexists. split; [apply lookup_insert_eq|]. by apply Hexp.
  - destruct Hl as [E0 Hpos Hlast]. rewrite <- E0, !Z.gtb_ltb. destruct (Z.ltb_spec now' (lockout_until b)); [by simpl; auto|].
    assert ((negb (lockout_until b =? 0) && (lockout_until b <=? now')) = true) as ->.
    { apply andb_true_intro. rewrite negb_true_iff, Z.eqb_neq, Z.leb_le. lia. }
    simpl. split; [done|].
    right. eexists. split; [apply lookup_insert_eq|]. split; simpl; [done|lia| |lia].
    exists fs. rewrite app_nil_r. split; [done|]. eapply Forall_impl; [exact Hlast|]. simpl. lia.
Qed.

Lemma armed_by_snoc fs old live now :
  fs = old ++ live -> Forall (fun x => window_seconds cfg < now - x) old ->
  (forall x rest, live = x :: rest -> now - x <= window_seconds cfg) ->
  Z.of_nat (length live) < threshold cfg ->
  armed_by cfg (fs ++ [now]) = if Z.of_nat (length (live ++ [now])) >=? threshold cfg then Some now else None.
Proof using threshold_pos window_pos.
  intros -> Hold Hhead Hfew. unfold armed_by. rewrite last_snoc, <- app_assoc, !length_app in *. simpl.
  rewrite Z.geb_leb. destruct (Z.leb_spec (threshold cfg) (Z.of_nat (length live + 1))) as [Hge|Hge].
  - replace (length old + (length live + 1) - Z.to_nat (threshold cfg))%nat with (length old + 0)%nat by lia.
    rewrite lookup_app_r, Nat.add_comm, Nat.add_sub by lia. replace (threshold cfg <=? _) with true by (symmetry; apply Z.leb_le; lia).
    destruct live as [|x live]; simpl; [|rewrite (proj2 (Z.leb_le _ _)); [done|by eapply Hhead]].
    rewrite (proj2 (Z.leb_le _ _)); [done|lia].
  - case_match eqn:Hl; [|done]. case_cmp_as Hlen; [|done]. simpl.
    rewrite lookup_app_l in Hl by lia. eapply Forall_lookup_1 in Hold; [|exact Hl].
    rewrite (proj2 (Z.leb_gt _ _)); [done|]. simpl in Hold. lia.
Qed.

Lemma spaced_snoc fs old live now :
  fs = old ++ live -> Forall (fun x => window_seconds cfg < now - x) old ->
  Z.of_nat (length live) < threshold cfg -> spaced fs -> spaced (fs ++ [now]).
Proof using threshold_pos.
  intros -> Hold Hfew Hsp i a b Ha Hb.
  apply lookup_app_Some in Hb as [Hb|[Hi Hb]].
  - rewrite lookup_app_l in Ha by (apply lookup_lt_Some in Hb; lia). by eapply Hsp.
  - apply list_lookup_singleton_Some in Hb as [Hi' <-]. rewrite length_app in *.
    rewrite <- app_assoc, lookup_app_l in Ha by lia. by eapply Forall_lookup_1 in Hold; [|exact Ha].
Qed.

(** A failure noted when no lockout stands. *)
Lemma NoteFailure_follows ip now now' fs (m : gmap string Bucket) :
  0 <= now <= now' -> spaced fs -> Forall (fun x => x <= now) fs ->
  (m !! ip = None /\ fs = [] \/ exists b, m !! ip = Some b /\ open now fs b) ->
  follows now' (fs ++ [now']) (NoteFailure cfg ip now' m !! ip).
Proof using All.
  intros Hle Hsp Hpast Hb. unfold NoteFailure. rewrite lookup_insert_eq.
  assert (open now fs (default (mkBucket [] 0) (m !! ip))) as Ho.
  { destruct Hb as [[-> ->]|(b & -> & ?)]; [|done]. split; simpl; [done|lia|by exists []|].
    rewrite locked_until_nil. lia. }
  revert Ho. generalize (default (mkBucket [] 0) (m !! ip)). intros b Ho.
  apply (open_later _ now') in Ho; [|lia]. destruct Ho as [E0 Hfew (old & E & Hold) Hspec].
  destruct (expire_split now' (failures b)) as (dead & Ed & Hd & Hh).
  set (live := expire (window_seconds cfg) now' (failures b)) in *.
  assert (fs = (old ++ dead) ++ live) as E' by (by rewrite <- app_assoc, <- Ed).
  assert (Forall (fun x => window_seconds cfg < now' - x) (old ++ dead)) as Hold' by (by apply Forall_app).
  assert (Z.of_nat (length live) < threshold cfg) as Hfew' by (rewrite Ed, length_app in Hfew; lia).
  assert (Forall (fun x => x <= now') (fs ++ [now'])) as Hpast'.
  { apply Forall_app. split; [|by repeat constructor]. eapply Forall_impl; [exact Hpast|]. simpl. lia. }
  split; [by eapply spaced_snoc|]. split; [done|].
  pose proof (armed_by_snoc fs _ _ now' E' Hold' Hh Hfew') as Ha. unfold locked_until in *.
  destruct (Z.of_nat (length (live ++ [now'])) >=? threshold cfg) eqn:Eg.
  - right. split; simpl; unfold locked_until; rewrite ?Ha; [done|lia|].
    eapply Forall_impl; [exact Hpast'|]. simpl. lia.
  - left. split; simpl; unfold locked_until; rewrite ?Ha; [done| | |lia].
    + rewrite Z.geb_leb, Z.leb_gt in Eg. lia.
    + exists (old ++ dead). split; [|done]. by rewrite E', !app_assoc.
Qed.

(** A request leaves the buckets of the other addresses alone. *)
Lemma request_other ip req (m : gmap string Bucket) : remote_addr req <> ip ->
  (AuthenticateRequestRateLimited cfg req m).2 !! ip = m !! ip.
Proof using.
  clear. intros Hne. unfold AuthenticateRequestRateLimited, Check, NoteFailure, NoteSuccess.
  repeat (case_match; simplify_eq/=); by rewrite ?lookup_insert_ne, ?lookup_delete_ne, ?lookup_insert_ne by done.
Qed.

(** One request: every address keeps following its log. *)
Lemma request_follows ip now fs req (m : gmap string Bucket) :
  0 <= now <= t_check req -> t_check req <= t_note req -> follows now fs (m !! ip) ->
  follows (t_note req) (streak_step ip fs (req, (AuthenticateRequestRateLimited cfg req m).1))
    ((AuthenticateRequestRateLimited cfg req m).2 !! ip).
Proof using All.
  intros Hnow Hn Hf. pose proof (Check_follows ip now (t_check req) fs m Hnow) as HC.
  assert (forall now', now <= now' -> follows now' fs (m !! ip)) as Hlater.
  { intros now' Hle. destruct Hf as (H1 & H2 & H3). split_and!; [done| |].
    - eapply Forall_impl; [exact H2|]. simpl. lia.
    - destruct (m !! ip); [|done]. destruct H3 as [H3|H3]; [left; by eapply open_later|by right]. }
  unfold AuthenticateRequestRateLimited, streak_step. simpl.
  case_bool_decide as Hip.
  - rewrite Hip. specialize (HC Hf). destruct (Check cfg ip (t_check req) m) as [d m'].
    destruct HC as (_ & Hs). destruct (locked_out d); simpl; [subst m'; apply Hlater; lia|].
    destruct (credentials req); simpl.
    + unfold NoteSuccess. rewrite lookup_delete_eq. split_and!; [apply spaced_nil|by constructor|done].
    + destruct Hf as (H1 & H2 & _). apply (NoteFailure_follows _ (t_check req)); [lia|done| |done].
      eapply Forall_impl; [exact H2|]. simpl. lia.
  - pose proof (request_other ip req m Hip) as E. unfold AuthenticateRequestRateLimited in E.
    rewrite E. apply Hlater. lia.
Qed.

Lemma serve_follows ip reqs : forall now log0 (m : gmap string Bucket),
  0 <= now -> in_order now reqs -> follows now (streak ip log0) (m !! ip) ->
  follows (last_time now reqs) (streak ip (log0 ++ (serve cfg reqs m).1)) ((serve cfg reqs m).2 !! ip).
Proof using All.
  induction reqs as [|req reqs IH]; intros now log0 m Hnow Ho Hf; simpl; [by rewrite app_nil_r|].
  destruct Ho as (H1 & H2 & Ho).
  pose proof (request_follows ip now (streak ip log0) req m ltac:(lia) H2 Hf) as Hs.
  destruct (AuthenticateRequestRateLimited cfg req m) as [o m1]. simpl in Hs.
  specialize (IH (t_note req) (log0 ++ [(req, o)]) m1 ltac:(lia) Ho).
  destruct (serve cfg reqs m1) as [log m2]. simpl in *. rewrite <- app_assoc in IH. apply IH.
  unfold streak. by rewrite fold_left_app.
Qed.

Lemma follows_empty ip now : 0 <= now -> follows now (streak ip []) ((∅ : gmap string Bucket) !! ip).
Proof using. rewrite lookup_empty. intros _. split_and!; [apply spaced_nil|constructor|done]. Qed.

(** A standing lockout outlasts every request before its end. *)
Lemma serve_refused (ip : string) (b : Bucket) (reqs : list request) : forall m : gmap string Bucket,
  m !! ip = Some b ->
  Forall (fun req => t_check req < lockout_until b) reqs ->
  (serve cfg reqs m).2 !! ip = Some b /\
  Forall (fun e => remote_addr e.1 = ip -> e.2 = Refused (lockout_until b - t_check e.1)) (serve cfg reqs m).1.
Proof using.
  clear. induction reqs as [|req reqs IH]; intros m Hb Hall; simpl; [by split|].
  inversion Hall as [|? ? Hlt Hrest]; subst.
  assert ((AuthenticateRequestRateLimited cfg req m).2 !! ip = Some b /\
    (remote_addr req = ip -> (AuthenticateRequestRateLimited cfg req m).1 = Refused (lockout_until b - t_check req)))
    as [H1 H2].
  { destruct (decide (remote_addr req = ip)) as [E|E]; [|by rewrite request_other].
    unfold AuthenticateRequestRateLimited, Check. rewrite E, Hb, Z.gtb_ltb.
    by rewrite (proj2 (Z.ltb_lt _ _)). }
  destruct (AuthenticateRequestRateLimited cfg req m) as [o m1]. simpl in *.
  destruct (IH m1 H1 Hrest) as [H3 H4]. destruct (serve cfg reqs m1) as [log m2]. simpl in *.
  split; [done|]. by constructor.
Qed.

End Limiter.

Lemma locked_until_bound cfg fs now : Forall (fun x => x <= now) fs -> 0 <= now + lockout_seconds cfg ->
  locked_until cfg fs <= now + lockout_seconds cfg.
Proof.
  intros Hall Hpos. unfold locked_until, armed_by. destruct (last fs) as [t|] eqn:El; [|done].
  apply last_Some in El as [fs' ->]. apply Forall_app in Hall as [_ Ht]. inversion Ht as [|? ? Ht1 _]; subst.
  destruct (_ !! _); [|lia]. destruct (_ && _); lia.
Qed.

Lemma last_time_le start reqs : in_order start reqs -> start <= last_time start reqs.
Proof.
  revert start. induction reqs as [|r reqs IH]; simpl; [lia|].
  intros start (H1 & H2 & H3). specialize (IH _ H3). lia.
Qed.

(** ** Properties *)

(** What the limiter answers, whatever the requests of all addresses were: an address is
    refused exactly when the last [threshold] failures since its last success lie within the
    window and the last of them is less than [lockout_seconds] old; it is told the seconds that
    remain.  Of any [threshold + 1] failures in a row since a success, the first and the last
    are more than a window apart: no window of time holds more guesses than the threshold. *)
Theorem limiter_decision (cfg : Config) (start now : Z) (reqs : list request) (ip : string)
  (Hthreshold : 1 <= threshold cfg) (Hwindow : 0 <= window_seconds cfg)
  (Hlockout : window_seconds cfg < lockout_seconds cfg)
  (Hstart : 0 <= start) (Horder : in_order start reqs) (Hnow : last_time start reqs <= now) :
  let '(log, m) := serve cfg reqs ∅ in
  (Check cfg ip now m).1 =
    (if locked_until cfg (streak ip log) >? now
     then mkDecision true (locked_until cfg (streak ip log) - now) else mkDecision false 0) /\
  spaced cfg (streak ip log).
Proof.
  pose proof (serve_follows cfg Hthreshold Hwindow Hlockout ip reqs start [] ∅ Hstart Horder
    (follows_empty cfg ip start Hstart)) as Hf.
  destruct (serve cfg reqs ∅) as [log m]. simpl in Hf.
  pose proof (last_time_le start reqs Horder) as Hle.
  pose proof (Check_follows cfg Hthreshold Hlockout ip (last_time start reqs) now _ m ltac:(lia) Hf) as HC.
  destruct (Check cfg ip now m) as [d m']. split; [apply HC|apply Hf].
Qed.

(** C40: A lockout ends.  Whatever happened before, a refused address is told at most
    [lockout_seconds]; every request it sends before that time is up is refused and none of them,
    and nothing the other addresses do, prolongs it: the first request after it is let through
    to the comparison of the credentials. *)
Theorem limiter_lockout_ends (cfg : Config) (start now : Z) (before during : list request) (req : request)
  (log : list (request * outcome)) (m m' : gmap string Bucket) (retry_after : Z)
  (Hthreshold : 1 <= threshold cfg) (Hwindow : 0 <= window_seconds cfg)
  (Hlockout : window_seconds cfg < lockout_seconds cfg)
  (Hstart : 0 <= start) (Horder : in_order start before) (Hnow : last_time start before <= now)
  (Hserve : serve cfg before ∅ = (log, m))
  (Hrefused : Check cfg (remote_addr req) now m = (mkDecision true retry_after, m'))
  (Hduring : Forall (fun r => t_check r < now + retry_after) during)
  (Hafter : now + retry_after <= t_check req) :
  0 < retry_after <= lockout_seconds cfg /\
  Forall (fun e => remote_addr e.1 = remote_addr req -> e.2 = Refused (now + retry_after - t_check e.1))
    (serve cfg during m').1 /\
  (AuthenticateRequestRateLimited cfg req (serve cfg during m').2).1 =
    if credentials req then Passed else Rejected.
Proof.
  pose proof (serve_follows cfg Hthreshold Hwindow Hlockout (remote_addr req) before start [] ∅ Hstart Horder
    (follows_empty cfg _ start Hstart)) as (_ & Hpast & Hf).
  rewrite Hserve in Hf, Hpast. simpl in Hf, Hpast. pose proof (last_time_le start before Horder) as Hle.
  unfold Check in Hrefused. destruct (m !! remote_addr req) as [b|] eqn:Eb; [|done].
  rewrite Z.gtb_ltb in Hrefused. destruct (Z.ltb_spec now (lockout_until b)) as [Hlt|]; [|done].
  injection Hrefused as <- <-.
  replace (now + (lockout_until b - now)) with (lockout_until b) in * by lia.
  destruct (serve_refused cfg (remote_addr req) b during m Eb Hduring) as [Hb' Hlog].
  split_and!; [lia| |exact Hlog|].
  - destruct Hf as [[E0 _ _ _]|[E _ _]]; [lia|]. rewrite E.
    pose proof (locked_until_bound cfg _ _ Hpast ltac:(lia)). lia.
  - unfold AuthenticateRequestRateLimited, Check. rewrite Hb', Z.gtb_ltb.
    rewrite (proj2 (Z.ltb_ge _ _)) by done. simpl. by destruct (credentials req).
Qed.

(** ** Instances *)

Definition sample_config : Config := mkConfig 60 2 300.

Definition sample_requests : list request :=
  [mkRequest "10.0.0.1" 100 100 false; mkRequest "10.0.0.2" 110 110 true; mkRequest "10.0.0.1" 120 121 false].

Lemma limiter_decision_witness :
  (Check sample_config "10.0.0.1" 200 (serve sample_config sample_requests ∅).2).1 = mkDecision true 221.
Proof.
  pose proof (limiter_decision sample_config 100 200 sample_requests "10.0.0.1") as H.
  vm_compute in H. apply H; discriminate || (repeat split; discriminate) || reflexivity.
Defined.

Lemma limiter_lockout_ends_witness :
  let m := (serve sample_config sample_requests ∅).2 in
  let again := mkRequest "10.0.0.1" 300 300 true in
  (AuthenticateRequestRateLimited sample_config (mkRequest "10.0.0.1" 421 421 true)
     (serve sample_config [again] m).2).1 = Passed.
Proof.
  intros m again.
  refine (proj2 (proj2 (limiter_lockout_ends sample_config 100 200 sample_requests [again]
    (mkRequest "10.0.0.1" 421 421 true) (serve sample_config sample_requests ∅).1 m m 221
    _ _ _ _ _ _ _ _ _ _))); try (vm_compute; reflexivity || discriminate).
  - vm_compute. repeat split; discriminate.
  - repeat constructor.
Defined.
