(* ===== verification/DeadSourceList.v ===== *)
(** * Sources that are not worth asking ([DeadSourceList.h], [DeadSourceList.cpp])

    A multimap from the (hybrid) identifier of a client to records that expire.  Two records are
    the same source when the identifiers and one of the two ports agree, which is not a
    transitive relation: the theorems say what the list promises all the same. *)
From S2P Require Import Prelude StdMap NetworkFunctions.

Definition MIN2MS (n : Z) : Z := n * 60 * 1000.
Definition CLEANUPTIME : Z := MIN2MS 60.

(** What the list asks a client. *)
Record CUpDownClient := mkClient {
  GetUserIDHybrid : Z; GetUserPort : Z; GetServerIP : Z; GetKadPort : Z
}.

Definition HasLowID (client : CUpDownClient) : bool := IsLowID (GetUserIDHybrid client).

Record CDeadSource := mkDead {
  m_ID : Z; m_Port : Z; m_ServerIP : Z; m_KadPort : Z; m_TimeStamp : Z
}.

Definition CDeadSource_new (ID Port ServerIP KadPort : Z) : CDeadSource := mkDead ID Port ServerIP KadPort 0.

Definition SetTimeout (t : Z) (s : CDeadSource) : CDeadSource :=
  mkDead (m_ID s) (m_Port s) (m_ServerIP s) (m_KadPort s) t.

Definition GetTimeout (s : CDeadSource) : Z := m_TimeStamp s.

(** [CDeadSource::operator==] *)
Definition same_source (s other : CDeadSource) : bool :=
  if m_ID s =? m_ID other then
    if (m_Port s =? m_Port other) || (m_KadPort s =? m_KadPort other) then
      if IsLowID (m_ID s) then m_ServerIP s =? m_ServerIP other else true
    else false
  else false.

Record CDeadSourceList := mkList {
  m_sources : list (Z * CDeadSource);
  m_dwLastCleanUp : Z;
  m_bGlobalList : bool
}.

Definition CDeadSourceList_new (isGlobal : bool) (now : Z) : CDeadSourceList := mkList [] now isGlobal.

Definition GetDeadSourcesCount (l : CDeadSourceList) : Z := u32 (Z.of_nat (length (m_sources l))).

Definition BLOCKTIME (now : Z) (l : CDeadSourceList) : Z :=
  u64 (now + (if m_bGlobalList l then MIN2MS 30 else MIN2MS 45)).
Definition BLOCKTIMEFW (now : Z) (l : CDeadSourceList) : Z :=
  u64 (now + (if m_bGlobalList l then MIN2MS 45 else MIN2MS 60)).

Definition source_of (client : CUpDownClient) : CDeadSource :=
  CDeadSource_new (GetUserIDHybrid client) (GetUserPort client) (GetServerIP client) (GetKadPort client).

(** The loop over [equal_range(id)]: the first entry with this key that is the source, with the
    entries before and after it. *)
Fixpoint find_source (id : Z) (source : CDeadSource) (m : list (Z * CDeadSource)) :
  option (list (Z * CDeadSource) * CDeadSource * list (Z * CDeadSource)) :=
  match m with
  | [] => None
  | (k, s) :: rest =>
      if (k =? id) && same_source s source then Some ([], s, rest)
      else match find_source id source rest with
           | Some (pre, s', post) => Some ((k, s) :: pre, s', post)
           | None => None
           end
  end.

(** [std::multimap::insert]: behind the entries with the same key. *)
Fixpoint multimap_insert (k : Z) (s : CDeadSource) (m : list (Z * CDeadSource)) : list (Z * CDeadSource) :=
  match m with
  | [] => [(k, s)]
  | (k', s') :: rest => if k <? k' then (k, s) :: m else (k', s') :: multimap_insert k s rest
  end.

Definition CleanUp (now : Z) (l : CDeadSourceList) : CDeadSourceList :=
  mkList (filter (fun e => negb (GetTimeout e.2 <? now) = true) (m_sources l)) now (m_bGlobalList l).

Definition IsDeadSource (client : CUpDownClient) (now : Z) (l : CDeadSourceList) : bool * CDeadSourceList :=
  match find_source (GetUserIDHybrid client) (source_of client) (m_sources l) with
  | Some (pre, s, post) =>
      if GetTimeout s >? now then (true, l)
      else (false, mkList (pre ++ post) (m_dwLastCleanUp l) (m_bGlobalList l))
  | None => (false, l)
  end.

Definition AddDeadSource (client : CUpDownClient) (now : Z) (l : CDeadSourceList) : CDeadSourceList :=
  let source := SetTimeout (if HasLowID client then BLOCKTIMEFW now l else BLOCKTIME now l) (source_of client) in
  match find_source (GetUserIDHybrid client) source (m_sources l) with
  | Some (pre, _, post) =>
      mkList (pre ++ (GetUserIDHybrid client, source) :: post) (m_dwLastCleanUp l) (m_bGlobalList l)
  | None =>
      let l := mkList (multimap_insert (GetUserIDHybrid client) source (m_sources l))
                 (m_dwLastCleanUp l) (m_bGlobalList l) in
      if u64 (now - m_dwLastCleanUp l) >? CLEANUPTIME then CleanUp now l else l
  end.

(** ** Histories *)

Inductive event := EvAdd (client : CUpDownClient) (now : Z) | EvQuery (client : CUpDownClient) (now : Z).

Definition event_time (e : event) : Z := match e with EvAdd _ t | EvQuery _ t => t end.

Definition exec (l : CDeadSourceList) (e : event) : CDeadSourceList :=
  match e with EvAdd c t => AddDeadSource c t l | EvQuery c t => (IsDeadSource c t l).2 end.

(** Ticks that do not go back and leave room for an hour in 64 bits. *)
Fixpoint in_order (now : Z) (es : list event) : Prop :=
  match es with
  | [] => True
  | e :: es => now <= event_time e /\ event_time e + MIN2MS 60 < 2 ^ 64 /\ in_order (event_time e) es
  end.

Fixpoint last_tick (now : Z) (es : list event) : Z :=
  match es with [] => now | e :: es => last_tick (event_time e) es end.

(** How long a client is blocked for, in milliseconds. *)
Definition block_time (isGlobal : bool) (client : CUpDownClient) : Z :=
  if HasLowID client then (if isGlobal then MIN2MS 45 else MIN2MS 60)
  else (if isGlobal then MIN2MS 30 else MIN2MS 45).

(** The client is the source that another client is. *)
Definition same_client (c c' : CUpDownClient) : bool := same_source (source_of c) (source_of c').

Definition listing (isGlobal : bool) (c : CUpDownClient) (t : Z) : Z * CDeadSource :=
  (GetUserIDHybrid c, SetTimeout (t + block_time isGlobal c) (source_of c)).

(** ** The loop over the entries of a key *)

Lemma find_source_split id source m pre s post :
  find_source id source m = Some (pre, s, post) ->
  m = pre ++ (id, s) :: post /\ same_source s source = true /\
  Forall (fun e => (e.1 =? id) && same_source e.2 source = false) pre.
Proof.
  revert pre s post. induction m as [|[k s0] m IH]; simpl; intros pre s post H; [done|].
  destruct ((k =? id) && same_source s0 source) eqn:E.
  - injection H as <- <- <-. apply andb_prop in E as [->%Z.eqb_eq E]. by repeat constructor.
  - destruct (find_source id source m) as [[[pre' s'] post']|]; [|done]. injection H as <- <- <-.
    destruct (IH _ _ _ eq_refl) as (-> & H1 & H2). repeat constructor; done.
Qed.

Lemma find_source_here id source s pre post :
  same_source s source = true -> Forall (fun e => (e.1 =? id) && same_source e.2 source = false) pre ->
  find_source id source (pre ++ (id, s) :: post) = Some (pre, s, post).
Proof.
  intros Hs. induction 1 as [|[k s0] pre He Hpre IH]; simpl in *; [by rewrite Z.eqb_refl, Hs|].
  by rewrite He, IH.
Qed.

Lemma same_source_timeout s t source : same_source (SetTimeout t s) source = same_source s source.
Proof. done. Qed.

Lemma same_source_timeout_r s t source : same_source s (SetTimeout t source) = same_source s source.
Proof. done. Qed.

Lemma same_source_refl s : same_source s s = true.
Proof. unfold same_source. rewrite !Z.eqb_refl. simpl. by destruct (IsLowID _). Qed.

Lemma find_source_timeout id source t m : find_source id (SetTimeout t source) m = find_source id source m.
Proof. induction m as [|[k s] m IH]; simpl; [done|]. by rewrite IH. Qed.

Lemma multimap_insert_split k s m : exists pre post, m = pre ++ post /\ multimap_insert k s m = pre ++ (k, s) :: post.
Proof.
  induction m as [|[k' s'] m (pre & post & -> & E)]; simpl; [by exists [], []|].
  case_cmp; [by exists [], ((k', s') :: pre ++ post)|]. exists ((k', s') :: pre), post. simpl. by rewrite E.
Qed.

Lemma block_time_wrap c t l : 0 <= t -> t + MIN2MS 60 < 2 ^ 64 ->
  (GetUserIDHybrid c, SetTimeout (if HasLowID c then BLOCKTIMEFW t l else BLOCKTIME t l) (source_of c)) =
  listing (m_bGlobalList l) c t.
Proof.
  intros H0 H1. unfold listing, block_time, BLOCKTIME, BLOCKTIMEFW, MIN2MS in *.
  destruct (HasLowID c), (m_bGlobalList l); rewrite wrap_small by (unfold in_width; lia); done.
Qed.

(** ** The first entry of a client decides *)

Definition matches (c : CUpDownClient) (e : Z * CDeadSource) : Prop :=
  (e.1 =? GetUserIDHybrid c) && same_source e.2 (source_of c) = true.

#[local] Instance matches_dec c e : Decision (matches c e).
Proof. unfold matches. apply _. Defined.

Definition first_entry (c : CUpDownClient) (m : list (Z * CDeadSource)) : option (Z * CDeadSource) :=
  head (filter (matches c) m).

Lemma first_entry_app c pre post : first_entry c (pre ++ post) =
  match first_entry c pre with Some e => Some e | None => first_entry c post end.
Proof.
  unfold first_entry. rewrite filter_app. by destruct (filter _ pre).
Qed.

Lemma first_entry_cons c e m : first_entry c (e :: m) =
  if decide (matches c e) then Some e else first_entry c m.
Proof. unfold first_entry. rewrite list.filter_cons. by destruct (decide _). Qed.

Lemma find_source_first c m :
  match find_source (GetUserIDHybrid c) (source_of c) m with
  | Some (pre, s, post) => first_entry c m = Some (GetUserIDHybrid c, s)
  | None => first_entry c m = None
  end.
Proof.
  induction m as [|[k s0] m IH]; simpl; [done|].
  rewrite first_entry_cons. destruct (decide (matches c (k, s0))) as [Hm|Hm]; unfold matches in Hm; simpl in Hm.
  - rewrite Hm. apply andb_prop in Hm as [->%Z.eqb_eq _]. done.
  - apply not_true_is_false in Hm. rewrite Hm. by destruct (find_source _ _ _) as [[[? ?] ?]|].
Qed.

(** An entry that is not the client's first one may go, come or change. *)
Lemma first_entry_skip c e pre post : ~ matches c e ->
  first_entry c (pre ++ e :: post) = first_entry c (pre ++ post).
Proof. intros He. by rewrite !first_entry_app, first_entry_cons, decide_False. Qed.

Lemma first_entry_drop c e x pre post : first_entry c (pre ++ x :: post) = Some e -> x <> e ->
  first_entry c (pre ++ post) = Some e.
Proof.
  rewrite !first_entry_app, first_entry_cons. destruct (first_entry c pre); [done|].
  destruct (decide (matches c x)); [|done]. intros [=]. done.
Qed.

Lemma first_entry_filter c (P : Z * CDeadSource -> Prop) `{forall e, Decision (P e)} e m :
  first_entry c m = Some e -> P e -> first_entry c (filter P m) = Some e.
Proof.
  intros He HP. induction m as [|x m IH]; [done|]. rewrite first_entry_cons in He.
  rewrite list.filter_cons. destruct (decide (matches c x)) as [Hx|Hx].
  - injection He as ->. rewrite decide_True by done. by rewrite first_entry_cons, decide_True.
  - destruct (decide (P x)); [rewrite first_entry_cons, decide_False by done|]; by apply IH.
Qed.

(** The client's first entry is its own, with the given end of the block. *)
Definition blocked_until (c : CUpDownClient) (T : Z) (l : CDeadSourceList) : Prop :=
  first_entry c (m_sources l) = Some (GetUserIDHybrid c, SetTimeout T (source_of c)).

Lemma matches_own c T : matches c (GetUserIDHybrid c, SetTimeout T (source_of c)).
Proof. unfold matches. simpl. by rewrite Z.eqb_refl, same_source_timeout, same_source_refl. Qed.

Lemma CleanUp_blocked c T t l : t <= T -> blocked_until c T l -> blocked_until c T (CleanUp t l).
Proof.
  intros Ht Hb. unfold blocked_until, CleanUp. simpl. apply first_entry_filter; [done|]. simpl.
  apply negb_true_iff, Z.ltb_ge. done.
Qed.

Lemma exec_blocked c T l e : event_time e < T -> event_time e + MIN2MS 60 < 2 ^ 64 ->
  (forall c' t, e = EvAdd c' t -> GetUserIDHybrid c' <> GetUserIDHybrid c) ->
  blocked_until c T l -> blocked_until c T (exec l e).
Proof.
  intros Ht Hw Hother Hb. destruct e as [c' t|c' t]; simpl in *.
  - specialize (Hother c' t eq_refl). unfold AddDeadSource. rewrite find_source_timeout.
    assert (forall s, ~ matches c (GetUserIDHybrid c', s)) as Hno.
    { intros s. unfold matches. simpl. by rewrite (proj2 (Z.eqb_neq _ _)). }
    destruct (find_source _ _ _) as [[[pre s] post]|] eqn:Ef.
    + apply find_source_split in Ef as (E & _). unfold blocked_until in *. simpl.
      rewrite E, first_entry_skip in Hb by done. by rewrite first_entry_skip.
    + match goal with |- blocked_until _ _ (if _ then CleanUp _ ?l' else _) => assert (blocked_until c T l') as Hb' end.
      { unfold blocked_until in *. simpl. destruct (multimap_insert_split (GetUserIDHybrid c')
          (SetTimeout (if HasLowID c' then BLOCKTIMEFW t l else BLOCKTIME t l) (source_of c')) (m_sources l))
          as (pre & post & E & ->). rewrite E in Hb. by rewrite first_entry_skip. }
      destruct (_ >? _); [|done]. apply CleanUp_blocked; [lia|done].
  - unfold IsDeadSource. destruct (find_source _ _ _) as [[[pre s] post]|] eqn:Ef; [|done].
    rewrite Z.gtb_ltb. destruct (Z.ltb_spec t (GetTimeout s)) as [|Hexp]; [done|]. simpl.
    apply find_source_split in Ef as (E & _). unfold blocked_until in *. simpl. rewrite E in Hb.
    eapply first_entry_drop; [exact Hb|]. intros [= _ ->]. simpl in Hexp. lia.
Qed.

Lemma AddDeadSource_blocks c t l : 0 <= t -> t + MIN2MS 60 < 2 ^ 64 ->
  blocked_until c (t + block_time (m_bGlobalList l) c) (AddDeadSource c t l).
Proof.
  intros H0 H1. unfold AddDeadSource. rewrite find_source_timeout.
  pose proof (block_time_wrap c t l H0 H1) as [= ET]. pose proof (find_source_first c (m_sources l)) as Hf.
  set (T := if HasLowID c then BLOCKTIMEFW t l else BLOCKTIME t l) in *. rewrite <- ET.
  destruct (find_source _ _ _) as [[[pre s] post]|] eqn:Ef.
  - apply find_source_split in Ef as (_ & _ & Hpre). unfold blocked_until. simpl.
    rewrite first_entry_app, first_entry_cons, decide_True by apply matches_own.
    replace (first_entry c pre) with (@None (Z * CDeadSource)); [done|]. symmetry.
    induction Hpre as [|x pre Hx _ IH]; [done|]. rewrite first_entry_cons, decide_False; [done|].
    unfold matches. congruence.
  - match goal with |- blocked_until _ _ (if _ then CleanUp _ ?l' else _) => assert (blocked_until c T l') as Hb end.
    { unfold blocked_until. simpl. destruct (multimap_insert_split (GetUserIDHybrid c)
        (SetTimeout T (source_of c)) (m_sources l)) as (pre & post & E & ->).
      rewrite E, first_entry_app in Hf. rewrite first_entry_app, first_entry_cons, decide_True by apply matches_own.
      by destruct (first_entry c pre). }
    destruct (_ >? _); [|done]. apply CleanUp_blocked; [|done]. rewrite ET. unfold block_time, MIN2MS.
    destruct (HasLowID c), (m_bGlobalList l); lia.
Qed.

Lemma exec_blocked_all c T es : forall now l,
  in_order now es -> Forall (fun e => event_time e < T) es ->
  (forall c' t, EvAdd c' t ∈ es -> GetUserIDHybrid c' <> GetUserIDHybrid c) ->
  blocked_until c T l -> blocked_until c T (fold_left exec es l).
Proof.
  induction es as [|e es IH]; intros now l Ho Ht Hother Hb; simpl; [done|].
  destruct Ho as (H1 & H2 & Ho). apply Forall_cons in Ht as [Ht1 Ht].
  eapply IH; [exact Ho|exact Ht| |].
  - intros c' t Hin. apply (Hother c' t). by right.
  - apply exec_blocked; [done|done| |done]. intros c' t ->. apply (Hother c' t). by left.
Qed.

(** ** What the list holds was added, and not long ago *)

Definition added (isGlobal : bool) (es : list event) (x : Z * CDeadSource) : Prop :=
  exists c t, EvAdd c t ∈ es /\ x = listing isGlobal c t.

(** The state after a history, [now] being its last tick. *)
Record history (isGlobal : bool) (es : list event) (now : Z) (l : CDeadSourceList) : Prop := {
  hist_global : m_bGlobalList l = isGlobal;
  hist_added : Forall (added isGlobal es) (m_sources l);
  hist_clean : 0 <= m_dwLastCleanUp l <= now;
  hist_fresh : Forall (fun x => m_dwLastCleanUp l <= GetTimeout x.2) (m_sources l)
}.

Lemma added_more g es e x : added g es x -> added g (es ++ [e]) x.
Proof. intros (c & t & Hin & ->). exists c, t. split; [|done]. apply elem_of_app. by left. Qed.

Lemma block_time_bounds g c : MIN2MS 30 <= block_time g c <= MIN2MS 60.
Proof. unfold block_time, MIN2MS. destruct (HasLowID c), g; lia. Qed.

Lemma CleanUp_history g es now t l : now <= t -> 0 <= t -> history g es now l -> history g es t (CleanUp t l).
Proof.
  intros Hle H0 [H1 H2 H3 H4]. split; simpl; [done| |lia|].
  - apply Forall_forall. intros x [_ Hx]%list_elem_of_filter. by eapply Forall_forall in H2.
  - apply Forall_forall. intros x [Hx _]%list_elem_of_filter. apply negb_true_iff, Z.ltb_ge in Hx. done.
Qed.

Lemma exec_history g es now l e : history g es now l -> now <= event_time e ->
  event_time e + MIN2MS 60 < 2 ^ 64 -> history g (es ++ [e]) (event_time e) (exec l e).
Proof.
  intros [H1 H2 H3 H4] Ht Hw.
  assert (Forall (added g (es ++ [e])) (m_sources l)) as H2'.
  { eapply Forall_impl; [exact H2|]. intros x. apply added_more. }
  destruct e as [c t|c t]; simpl in *.
  - unfold AddDeadSource. rewrite find_source_timeout.
    assert (added g (es ++ [EvAdd c t]) (GetUserIDHybrid c,
      SetTimeout (if HasLowID c then BLOCKTIMEFW t l else BLOCKTIME t l) (source_of c))) as Ha.
    { exists c, t. split; [apply elem_of_app; right; by left|]. rewrite block_time_wrap, H1 by lia. done. }
    assert (m_dwLastCleanUp l <= GetTimeout (SetTimeout
      (if HasLowID c then BLOCKTIMEFW t l else BLOCKTIME t l) (source_of c))) as Hf.
    { pose proof (block_time_wrap c t l ltac:(lia) Hw) as [= ->]. simpl.
      pose proof (block_time_bounds (m_bGlobalList l) c). unfold MIN2MS in *. lia. }
    destruct (find_source _ _ _) as [[[pre s] post]|] eqn:Ef.
    + apply find_source_split in Ef as (E & _). rewrite E in H2', H4.
      apply Forall_app in H2' as [A1 [_ A2]%Forall_cons]. apply Forall_app in H4 as [B1 [_ B2]%Forall_cons].
      split; simpl; [done| |lia|]; apply Forall_app; (split; [done|by apply Forall_cons]).
    + match goal with |- history _ _ _ (if _ then CleanUp _ ?l' else _) => assert (history g (es ++ [EvAdd c t]) t l') as Hh end.
      { destruct (multimap_insert_split (GetUserIDHybrid c)
          (SetTimeout (if HasLowID c then BLOCKTIMEFW t l else BLOCKTIME t l) (source_of c)) (m_sources l))
          as (pre & post & E & E'). rewrite E in H2', H4. split; simpl; rewrite ?E'; [done| |lia|];
        apply Forall_app; [apply Forall_app in H2' as [A1 A2]|apply Forall_app in H4 as [A1 A2]];
        (split; [done|by apply Forall_cons]). }
      destruct (_ >? _); [|done]. eapply CleanUp_history; [| |exact Hh]; lia.
  - unfold IsDeadSource. destruct (find_source _ _ _) as [[[pre s] post]|] eqn:Ef; [|split; simpl; done || lia].
    destruct (_ >? _); [split; simpl; done || lia|]. simpl. apply find_source_split in Ef as (E & _).
    rewrite E in H2', H4. apply Forall_app in H2' as [A1 [_ A2]%Forall_cons].
    apply Forall_app in H4 as [B1 [_ B2]%Forall_cons].
    split; simpl; [done| |lia|]; by apply Forall_app.
Qed.

Lemma exec_history_all g es : forall now l done, history g done now l -> in_order now es ->
  history g (done ++ es) (last_tick now es) (fold_left exec es l).
Proof.
  induction es as [|e es IH]; intros now l done Hh Ho; simpl; [by rewrite app_nil_r|].
  destruct Ho as (H1 & H2 & Ho). rewrite cons_middle, app_assoc.
  apply IH; [by apply (exec_history g done now)|done].
Qed.

(** ** Properties *)

(** A source added to the list is dead for exactly its block time: whatever clients with other
    identifiers are added and whatever clients are asked about meanwhile, every query before the
    end answers true, and the first one after it false. *)
Theorem deadsource_blocked (l : CDeadSourceList) (c : CUpDownClient) (t now : Z) (es : list event)
  (Ht : 0 <= t) (Hw : t + MIN2MS 60 < 2 ^ 64) (Horder : in_order t es)
  (Hother : forall c' t', EvAdd c' t' ∈ es -> GetUserIDHybrid c' <> GetUserIDHybrid c)
  (Hbefore : Forall (fun e => event_time e < t + block_time (m_bGlobalList l) c) es) :
  (IsDeadSource c now (fold_left exec es (AddDeadSource c t l))).1 =
    (now <? t + block_time (m_bGlobalList l) c).
Proof.
  assert (blocked_until c (t + block_time (m_bGlobalList l) c) (fold_left exec es (AddDeadSource c t l))) as Hb.
  { eapply exec_blocked_all; [exact Horder|exact Hbefore|exact Hother|]. by apply AddDeadSource_blocks. }
  unfold IsDeadSource, blocked_until in *.
  pose proof (find_source_first c (m_sources (fold_left exec es (AddDeadSource c t l)))) as Hf.
  rewrite Hb in Hf. destruct (find_source _ _ _) as [[[pre s] post]|]; [|done].
  injection Hf as <-. rewrite Z.gtb_ltb. simpl. by destruct (now <? _).
Qed.

(** Nothing stays dead for ever.  In every state the program can reach, a client found dead was
    added, as the same source, less than its block time (at most an hour) ago; and an addition
    of a source not listed leaves only entries of the last two hours, so the list does not grow
    without bound. *)
Theorem deadsource_recent (isGlobal : bool) (start now : Z) (es : list event) (c : CUpDownClient)
  (Hstart : 0 <= start) (Horder : in_order start (es ++ [EvQuery c now])) :
  let l := fold_left exec es (CDeadSourceList_new isGlobal start) in
  ((IsDeadSource c now l).1 = true ->
   exists c' t, EvAdd c' t ∈ es /\ same_client c' c = true /\ now < t + block_time isGlobal c' <= t + MIN2MS 60) /\
  (find_source (GetUserIDHybrid c) (source_of c) (m_sources l) = None ->
   Forall (fun x => exists c' t, EvAdd c' t ∈ es ++ [EvAdd c now] /\ x = listing isGlobal c' t /\ now - MIN2MS 120 <= t)
     (m_sources (AddDeadSource c now l))).
Proof.
  assert (in_order start es /\ last_tick start es <= now /\ now + MIN2MS 60 < 2 ^ 64) as (Ho & Hnow & Hw).
  { clear Hstart. revert start Horder. induction es as [|e es IH]; simpl; intros start H; [tauto|].
    destruct H as (H1 & H2 & H3). apply IH in H3. tauto. }
  assert (history isGlobal [] start (CDeadSourceList_new isGlobal start)) as H0.
  { split; simpl; [done|constructor|lia|constructor]. }
  pose proof (exec_history_all isGlobal es start _ [] H0 Ho) as Hh. simpl in Hh. intros l. fold l in Hh. split.
  - unfold IsDeadSource. destruct (find_source _ _ _) as [[[pre s] post]|] eqn:Ef; [|done].
    rewrite Z.gtb_ltb. destruct (Z.ltb_spec now (GetTimeout s)) as [Hlt|]; [|done]. intros _.
    apply find_source_split in Ef as (E & Es & _). pose proof (hist_added _ _ _ _ Hh) as Ha. rewrite E in Ha.
    apply Forall_app in Ha as [_ [(c' & t & Hin & Hx) _]%Forall_cons]. injection Hx as _ ->.
    exists c', t. pose proof (block_time_bounds isGlobal c'). simpl in Hlt. split_and!; [done|exact Es|done|lia].
  - intros Hnone. pose proof (exec_history _ _ _ _ (EvAdd c now) Hh Hnow Hw) as Hh'. simpl in Hh'.
    assert (now - MIN2MS 60 <= m_dwLastCleanUp (AddDeadSource c now l)) as Hc.
    { unfold AddDeadSource. rewrite find_source_timeout, Hnone. simpl. rewrite Z.gtb_ltb.
      pose proof (hist_clean _ _ _ _ Hh). rewrite wrap_small by (unfold in_width, MIN2MS in *; lia).
      unfold CLEANUPTIME, MIN2MS in *. case_cmp; simpl; lia. }
    apply Forall_forall. intros x Hx. pose proof (hist_added _ _ _ _ Hh') as Ha. pose proof (hist_fresh _ _ _ _ Hh') as Hf.
    eapply Forall_forall in Ha as (c' & t & Hin & Ex); [|exact Hx]. eapply Forall_forall in Hf; [|exact Hx].
    rewrite Ex in Hf. exists c', t. pose proof (block_time_bounds isGlobal c'). simpl in Hf. unfold MIN2MS in *. split_and!; [done..|lia].
Qed.

(** ** Instances *)

Definition client_a : CUpDownClient := mkClient 0x0A0B0C0D 4662 0 4672.
Definition client_b : CUpDownClient := mkClient 0x0A0B0C0E 4662 0 4672.

Lemma deadsource_blocked_witness :
  (IsDeadSource client_a 2000000 (exec (AddDeadSource client_a 1000 (CDeadSourceList_new true 0)) (EvAdd client_b 2000))).1 = false.
Proof.
  apply (deadsource_blocked (CDeadSourceList_new true 0) client_a 1000 2000000 [EvAdd client_b 2000]);
    try (vm_compute; repeat split; discriminate || reflexivity).
  - intros c' t' Hin. apply list_elem_of_singleton in Hin. injection Hin as -> _. discriminate.
  - repeat constructor.
Defined.

Lemma deadsource_recent_witness :
  let l := exec (CDeadSourceList_new false 0) (EvAdd client_a 1000) in
  (IsDeadSource client_a 2000 l).1 = true /\
  exists c' t, EvAdd c' t ∈ [EvAdd client_a 1000] /\ same_client c' client_a = true /\
    2000 < t + block_time false c' <= t + MIN2MS 60.
Proof.
  intros l. split; [vm_compute; reflexivity|].
  apply (deadsource_recent false 0 2000 [EvAdd client_a 1000] client_a);
    vm_compute; repeat split; discriminate || reflexivity.
Defined.

(** Because the relation is not transitive, a client that is dead for another twenty minutes is
    let go: the entry found first is an expired one, under which the query stops looking. *)
Example expired_entry_hides_live_one :
  let c := mkClient 0x0A0B0C0D 1 0 20 in
  let es := [EvAdd (mkClient 0x0A0B0C0D 1 0 10) 0; EvAdd (mkClient 0x0A0B0C0D 2 0 20) (MIN2MS 20)] in
  let l := fold_left exec es (CDeadSourceList_new true 0) in
  same_client (mkClient 0x0A0B0C0D 2 0 20) c = true /\
  (IsDeadSource c (MIN2MS 30) l).1 = false /\
  (IsDeadSource c (MIN2MS 30) (IsDeadSource c (MIN2MS 30) l).2).1 = true.
Proof. vm_compute. by split_and!. Qed.
