(* ===== verification/CorruptionBlackBox.v ===== *)
(** * Who sent corrupt data ([CorruptionBlackBox.h], [CorruptionBlackBox.cpp])

    Received ranges are recorded per part with the address they came from; when a range is
    verified, what is recorded there moves to the account of good or bad bytes of its sender;
    senders with too many bad bytes are banned. *)
From S2P Require Import Prelude StdMap.

Definition CBB_BANTHRESHOLD : Z := 32.

Record CCBBRecord := mkRecord { m_nStartPos : Z; m_nEndPos : Z; m_dwIP : Z }.

Abbreviation CRecordList := (list CCBBRecord) (only parsing).
Abbreviation CCBBClientMap := (list (Z * Z)) (only parsing).

Record CCorruptionBlackBox := mkBox {
  m_Records : list (Z * CRecordList);
  m_goodClients : CCBBClientMap;
  m_badClients : CCBBClientMap
}.

Definition CCorruptionBlackBox_new : CCorruptionBlackBox := mkBox [] [] [].

(** The record after the merge, if there is one. *)
Definition Merge (nStartPos nEndPos dwIP : Z) (r : CCBBRecord) : option CCBBRecord :=
  if m_dwIP r =? dwIP then
    if nStartPos =? u32 (m_nEndPos r + 1) then Some (mkRecord (m_nStartPos r) nEndPos dwIP)
    else if u32 (nEndPos + 1) =? m_nStartPos r then Some (mkRecord nStartPos (m_nEndPos r) dwIP)
    else None
  else None.

Definition Free (s : CCorruptionBlackBox) : CCorruptionBlackBox := mkBox [] [] [].

(** The loop over the records: the first that merges, or a new record at the end. *)
Fixpoint merge_or_append (nStartPos nEndPos dwIP : Z) (l : CRecordList) : CRecordList :=
  match l with
  | [] => [mkRecord nStartPos nEndPos dwIP]
  | r :: l =>
      match Merge nStartPos nEndPos dwIP r with
      | Some r => r :: l
      | None => r :: merge_or_append nStartPos nEndPos dwIP l
      end
  end.

Definition records (nPart : Z) (s : CCorruptionBlackBox) : CRecordList := default [] (mfind nPart (m_Records s)).

Definition set_records (nPart : Z) (l : CRecordList) (s : CCorruptionBlackBox) : CCorruptionBlackBox :=
  mkBox (mset nPart l (m_Records s)) (m_goodClients s) (m_badClients s).

Fixpoint TransferredData_rec (fuel : nat) (nStartPos nEndPos senderIP : Z) (s : CCorruptionBlackBox) :
  CCorruptionBlackBox :=
  match fuel with
  | O => s
  | S fuel =>
      if nStartPos >? nEndPos then s
      else
        let nPart := u16 (nStartPos / PARTSIZE) in
        let nRelStartPos := u32 (nStartPos - u64 (nPart * PARTSIZE)) in
        let nRelEndPos := u32 (nEndPos - u64 (nPart * PARTSIZE)) in
        let '(nRelEndPos, s) :=
          (if nRelEndPos >=? PARTSIZE
           then (PARTSIZE - 1, TransferredData_rec fuel (u64 ((nPart + 1) * PARTSIZE)) nEndPos senderIP s)
           else (nRelEndPos, s)) in
        set_records nPart (merge_or_append nRelStartPos nRelEndPos senderIP (records nPart s)) s
  end.

(** One call for each part the range touches. *)
Definition TransferredData (nStartPos nEndPos senderIP : Z) (s : CCorruptionBlackBox) : CCorruptionBlackBox :=
  TransferredData_rec (Z.to_nat (nEndPos / PARTSIZE - nStartPos / PARTSIZE + 1)) nStartPos nEndPos senderIP s.

(** What the loop of [VerifiedData] does to one record: the records that replace it and the number of
    its bytes in the range. *)
Definition verify_record (nRelStartPos nRelEndPos : Z) (r : CCBBRecord) : CRecordList * Z :=
  let '(mkRecord curStart curEnd ip) := r in
  if (curStart >=? nRelStartPos) && (curStart <=? nRelEndPos) then
    if curEnd >? nRelEndPos then
      ([mkRecord (u32 (nRelEndPos + 1)) curEnd ip], u32 (nRelEndPos - curStart + 1))
    else ([], u32 (curEnd - curStart + 1))
  else if (curStart <? nRelStartPos) && (curEnd >=? nRelStartPos) then
    if curEnd >? nRelEndPos then
      ([mkRecord curStart (u32 (nRelStartPos - 1)) ip; mkRecord (u32 (nRelEndPos + 1)) curEnd ip],
       u32 (nRelEndPos - nRelStartPos + 1))
    else ([mkRecord curStart (u32 (nRelStartPos - 1)) ip], u32 (curEnd - nRelStartPos + 1))
  else ([r], 0).

(** [map[ip].m_downloaded += data] *)
Definition credit (ip data : Z) (m : CCBBClientMap) : CCBBClientMap :=
  mset ip (u64 (default 0 (mfind ip m) + data)) m.

Fixpoint verify_loop (ok : bool) (nRelStartPos nRelEndPos : Z) (l : CRecordList) (good bad : CCBBClientMap) :
  CRecordList * CCBBClientMap * CCBBClientMap :=
  match l with
  | [] => ([], good, bad)
  | r :: l =>
      let '(kept, data) := verify_record nRelStartPos nRelEndPos r in
      let '(good, bad) :=
        (if negb (data =? 0) then
           if ok then (credit (m_dwIP r) data good, bad)
           else (good, credit (m_dwIP r) (if data >? EMBLOCKSIZE then data else EMBLOCKSIZE) bad)
         else (good, bad)) in
      let '(l, good, bad) := verify_loop ok nRelStartPos nRelEndPos l good bad in
      (kept ++ l, good, bad)
  end.

Definition VerifiedData (ok : bool) (nPart nRelStartPos nRelEndPos : Z) (s : CCorruptionBlackBox) :
  CCorruptionBlackBox :=
  if nRelStartPos >? nRelEndPos then s
  else
    let '(l, good, bad) := verify_loop ok nRelStartPos nRelEndPos (records nPart s) (m_goodClients s) (m_badClients s) in
    let recs := mset nPart l (m_Records s) in
    mkBox (match l with [] => merase nPart recs | _ => recs end) good bad.

(** ** Evaluation: what is asked of the list of clients, in order *)

Inductive action (client : Type) :=
| AddTrackClient (c : client)
| Ban (c : client)
| SetDownloadState_BANNED (c : client)
| Disconnected (c : client)
| Safe_Delete (c : client)
| AddBannedClient (ip : Z).
Arguments AddTrackClient {client}. Arguments Ban {client}. Arguments SetDownloadState_BANNED {client}.
Arguments Disconnected {client}. Arguments Safe_Delete {client}. Arguments AddBannedClient {client}.

Section Evaluate.

(** The list of clients answers according to what happened before. *)
Context {client : Type}.
Context (FindClientByIP : list (action client) -> Z -> option client).
Context (is_disconnected : list (action client) -> client -> bool).

Definition nCorruptPercentage (bad good : Z) : Z := swrap 32 (u64 (bad * 100) / u64 (bad + good)).

Definition evaluate_client (s : CCorruptionBlackBox) (ip bad : Z) (done : list (action client)) :
  list (action client) :=
  if bad =? 0 then done
  else
    let good := default 0 (mfind ip (m_goodClients s)) in
    if nCorruptPercentage bad good >? CBB_BANTHRESHOLD then
      match FindClientByIP done ip with
      | Some c =>
          let done := done ++ [AddTrackClient c; Ban c; SetDownloadState_BANNED c] in
          let gone := is_disconnected done c in
          done ++ Disconnected c :: (if gone then [Safe_Delete c] else [])
      | None => done ++ [AddBannedClient ip]
      end
    else
      match FindClientByIP done ip with
      | Some c => done ++ [AddTrackClient c]
      | None => done
      end.

Fixpoint evaluate_loop (s : CCorruptionBlackBox) (it : CCBBClientMap) (done : list (action client)) :
  list (action client) :=
  match it with
  | [] => done
  | (ip, bad) :: it => evaluate_loop s it (evaluate_client s ip bad done)
  end.

Definition EvaluateData (s : CCorruptionBlackBox) : list (action client) := evaluate_loop s (m_badClients s) [].

End Evaluate.

(** ** Bytes recorded for a client in a range *)

Definition overlap (a b s e : Z) : Z := Z.max 0 (Z.min b e - Z.max a s + 1).

Definition bytes_of (ip a b : Z) (r : CCBBRecord) : Z :=
  if m_dwIP r =? ip then overlap a b (m_nStartPos r) (m_nEndPos r) else 0.

Definition bytes (ip a b : Z) (l : CRecordList) : Z := sumZ (bytes_of ip a b <$> l).

Definition record_ok (r : CCBBRecord) : Prop := 0 <= m_nStartPos r <= m_nEndPos r /\ m_nEndPos r < PARTSIZE.

Lemma bytes_cons ip a b r l : bytes ip a b (r :: l) = bytes_of ip a b r + bytes ip a b l.
Proof. done. Qed.

Lemma bytes_app ip a b l1 l2 : bytes ip a b (l1 ++ l2) = bytes ip a b l1 + bytes ip a b l2.
Proof. unfold bytes. by rewrite fmap_app, sumZ_app. Qed.

Lemma bytes_of_nonneg ip a b r : 0 <= bytes_of ip a b r.
Proof. unfold bytes_of, overlap. case_cmp; lia. Qed.

Lemma bytes_nonneg ip a b l : 0 <= bytes ip a b l.
Proof. induction l as [|r l IH]; [done|]. rewrite bytes_cons. pose proof (bytes_of_nonneg ip a b r). lia. Qed.

Lemma small_u32 z : 0 <= z <= 2 * PARTSIZE -> u32 z = z.
Proof. intros H. apply wrap_small. unfold in_width, PARTSIZE in *. lia. Qed.

Lemma Merge_spec s e ip r r' : 0 <= s <= e -> e < PARTSIZE -> record_ok r -> Merge s e ip r = Some r' ->
  record_ok r' /\ forall ip' a b,
    bytes_of ip' a b r' = bytes_of ip' a b r + bytes_of ip' a b (mkRecord s e ip).
Proof.
  intros Hs He (Hr1 & Hr2). unfold Merge. destruct (Z.eqb_spec (m_dwIP r) ip) as [Eip|]; [|done].
  rewrite !small_u32 by (unfold PARTSIZE in *; lia).
  destruct (Z.eqb_spec s (m_nEndPos r + 1)) as [E1|]; [|destruct (Z.eqb_spec (e + 1) (m_nStartPos r)) as [E1|]; [|done]];
    intros [= <-]; (split; [unfold record_ok; simpl; lia|]); intros ip' a b; unfold bytes_of, overlap; simpl;
    rewrite Eip; destruct (ip =? ip'); lia.
Qed.

Lemma merge_or_append_spec s e ip l : 0 <= s <= e -> e < PARTSIZE -> Forall record_ok l ->
  Forall record_ok (merge_or_append s e ip l) /\
  forall ip' a b, bytes ip' a b (merge_or_append s e ip l) = bytes ip' a b l + bytes_of ip' a b (mkRecord s e ip).
Proof.
  intros Hs He Hl. induction Hl as [|r l Hr Hl [IH1 IH2]]; simpl.
  - split; [by apply Forall_singleton|]. intros. rewrite bytes_cons. unfold bytes. simpl. lia.
  - destruct (Merge s e ip r) as [r'|] eqn:E.
    + destruct (Merge_spec s e ip r r' Hs He Hr E) as [H1 H2]. split; [by constructor|].
      intros. rewrite !bytes_cons, H2. lia.
    + split; [by constructor|]. intros. rewrite !bytes_cons, IH2. lia.
Qed.

Lemma bytes_of_one cip ip a b l : Forall (fun r => m_dwIP r = cip) l ->
  bytes ip a b l =
    if cip =? ip then sumZ ((fun r => overlap a b (m_nStartPos r) (m_nEndPos r)) <$> l) else 0.
Proof.
  induction 1 as [|r l Hr _ IH]; [by destruct (cip =? ip)|].
  rewrite bytes_cons, IH. unfold bytes_of. rewrite Hr. by destruct (cip =? ip).
Qed.

(** One record against a verified range: the bytes inside leave, the bytes outside stay. *)
Lemma verify_record_spec s e r : 0 <= s <= e -> in_width 32 e -> record_ok r ->
  let '(kept, data) := verify_record s e r in
  Forall record_ok kept /\ data = bytes_of (m_dwIP r) s e r /\
  forall ip a b, bytes ip a b kept = bytes_of ip a b r - bytes_of ip (Z.max a s) (Z.min b e) r.
Proof.
  intros Hs He (Hr1 & Hr2). destruct r as [cs ce cip]. unfold verify_record. simpl in *.
  unfold in_width, PARTSIZE in *.
  assert (forall kept data, Forall record_ok kept -> data = overlap s e cs ce ->
    (forall a b, sumZ ((fun r => overlap a b (m_nStartPos r) (m_nEndPos r)) <$> kept) =
       overlap a b cs ce - overlap (Z.max a s) (Z.min b e) cs ce) ->
    Forall (fun r => m_dwIP r = cip) kept ->
    Forall record_ok kept /\ data = bytes_of cip s e (mkRecord cs ce cip) /\
    forall ip a b, bytes ip a b kept = bytes_of ip a b (mkRecord cs ce cip) -
      bytes_of ip (Z.max a s) (Z.min b e) (mkRecord cs ce cip)) as Hgen.
  { intros kept data H1 H2 H3 H4. split; [done|]. unfold bytes_of at 1. simpl. rewrite Z.eqb_refl. split; [done|].
    intros ip a b. rewrite (bytes_of_one cip) by done. unfold bytes_of. simpl.
    destruct (cip =? ip); [apply H3|done]. }
  repeat case_match; simplify_eq; bool_facts;
    apply Hgen; unfold record_ok, overlap, PARTSIZE, wrap in *; simpl;
    rewrite ?Z.mod_small by lia; try (repeat constructor; simpl; lia); try lia; intros a b; try lia.
Qed.

(** ** Sums over positions *)

Definition sum_range (f : Z -> Z) (a b : Z) : Z := sumZ (f <$> seqZ a (b - a + 1)).

Lemma sum_range_empty f a b : b < a -> sum_range f a b = 0.
Proof. intros H. unfold sum_range. by rewrite seqZ_nil by lia. Qed.

Lemma sum_range_snoc f a b : a <= b + 1 -> sum_range f a (b + 1) = sum_range f a b + f (b + 1).
Proof.
  intros H. unfold sum_range. replace (b + 1 - a + 1) with ((b - a + 1) + 1) by lia.
  rewrite seqZ_app, fmap_app, sumZ_app by lia. f_equal. rewrite seqZ_cons, seqZ_nil by lia. simpl.
  replace (a + (b - a + 1)) with (b + 1) by lia. lia.
Qed.

Lemma sum_range_ext f g a b : (forall p, a <= p <= b -> f p = g p) -> sum_range f a b = sum_range g a b.
Proof.
  intros H. unfold sum_range. f_equal. apply list_fmap_ext. intros i p Hp.
  apply list_elem_of_lookup_2, elem_of_seqZ in Hp. apply H. lia.
Qed.

(** A quantity that is additive on adjacent ranges is the sum of what it is at the positions. *)
Lemma sum_range_additive (F : Z -> Z -> Z) a b :
  (forall a b, b < a -> F a b = 0) -> (forall a b, a <= b + 1 -> F a (b + 1) = F a b + F (b + 1) (b + 1)) ->
  F a b = sum_range (fun p => F p p) a b.
Proof.
  intros H0 H1. destruct (Z.ltb_spec b a) as [Hlt|Hle]; [rewrite H0, sum_range_empty by lia; done|].
  replace b with (a + Z.of_nat (Z.to_nat (b - a))) by lia.
  induction (Z.to_nat (b - a)) as [|n IH].
  - rewrite Z.add_0_r. replace a with ((a - 1) + 1) at 2 4 by lia.
    rewrite H1, sum_range_snoc, H0, sum_range_empty by lia. done.
  - rewrite Nat2Z.inj_succ, Z.add_succ_r, <- Z.add_1_r, H1, sum_range_snoc, IH by lia. done.
Qed.

Lemma bytes_sum ip a b l : Forall record_ok l -> bytes ip a b l = sum_range (fun p => bytes ip p p l) a b.
Proof.
  intros Hl. apply (sum_range_additive (fun a b => bytes ip a b l)); clear a b; intros a b H;
    induction Hl as [|r l [Hr1 Hr2] _ IH]; try done; rewrite !bytes_cons, IH;
    unfold bytes_of, overlap; destruct (m_dwIP r =? ip); lia.
Qed.

(** ** Accounts *)

Definition account (m : CCBBClientMap) (ip : Z) : Z := default 0 (mfind ip m).

(** The accounts of good and bad bytes against the numbers of bytes verified and found corrupt. *)
Definition good_is (good : CCBBClientMap) (G : Z -> Z) : Prop := forall ip, account good ip = u64 (G ip).

Lemma good_is_credit ip data good G : good_is good G ->
  good_is (credit ip data good) (fun i => G i + if ip =? i then data else 0).
Proof.
  intros HG i. unfold credit, account. destruct (Z.eqb_spec ip i) as [->|Hne].
  - rewrite mfind_set_eq. simpl. change (default 0 (mfind i good)) with (account good i). rewrite HG.
    unfold wrap. by rewrite Z.add_mod_idemp_l by done.
  - rewrite mfind_set_ne by done. rewrite Z.add_0_r. apply HG.
Qed.

(** A corrupt range counts as a block at least. *)
Definition bad_is (bad : CCBBClientMap) (C : Z -> Z) : Prop := forall ip, exists B,
  C ip <= B <= EMBLOCKSIZE * C ip /\ account bad ip = u64 B.

Lemma bad_is_credit ip data bad C : 0 < data -> bad_is bad C ->
  bad_is (credit ip (if data >? EMBLOCKSIZE then data else EMBLOCKSIZE) bad)
    (fun i => C i + if ip =? i then data else 0).
Proof.
  intros Hd HC i. destruct (HC i) as (B & HB & E).
  exists (B + if ip =? i then (if data >? EMBLOCKSIZE then data else EMBLOCKSIZE) else 0). split.
  - unfold EMBLOCKSIZE in *. destruct (ip =? i); [case_cmp|]; lia.
  - unfold credit, account in *. destruct (Z.eqb_spec ip i) as [->|Hne].
    + rewrite mfind_set_eq. simpl. rewrite E. unfold wrap. by rewrite Z.add_mod_idemp_l by done.
    + rewrite mfind_set_ne by done. by rewrite Z.add_0_r.
Qed.

Lemma good_is_ext m G G' : good_is m G -> (forall ip, G' ip = G ip) -> good_is m G'.
Proof. intros H HG ip. by rewrite HG. Qed.

Lemma bad_is_ext m C C' : bad_is m C -> (forall ip, C' ip = C ip) -> bad_is m C'.
Proof. intros H HC ip. rewrite HC. apply H. Qed.

Lemma msorted_credit ip data m : msorted m -> msorted (credit ip data m).
Proof. apply msorted_set. Qed.

Lemma verify_loop_spec ok s e l : forall good bad G C, 0 <= s <= e -> in_width 32 e -> Forall record_ok l ->
  msorted good -> msorted bad -> good_is good G -> bad_is bad C ->
  let '(l', good', bad') := verify_loop ok s e l good bad in
  Forall record_ok l' /\
  (forall ip a b, bytes ip a b l' = bytes ip a b l - bytes ip (Z.max a s) (Z.min b e) l) /\
  msorted good' /\ msorted bad' /\
  good_is good' (fun ip => G ip + if ok then bytes ip s e l else 0) /\
  bad_is bad' (fun ip => C ip + if ok then 0 else bytes ip s e l).
Proof.
  induction l as [|r l IH]; intros good bad G C Hs He Hl Sg Sb Hg Hb; simpl.
  - split_and!; try done; [eapply good_is_ext|eapply bad_is_ext]; try done; intros ip; destruct ok; apply Z.add_0_r.
  - apply Forall_cons in Hl as [Hr Hl]. pose proof (verify_record_spec s e r Hs He Hr) as Hv.
    destruct (verify_record s e r) as [kept data]. destruct Hv as (V1 & V2 & V3).
    pose proof (bytes_of_nonneg (m_dwIP r) s e r) as Hpos. rewrite <- V2 in Hpos.
    assert (forall ip, bytes_of ip s e r = if m_dwIP r =? ip then data else 0) as Eone.
    { intros ip. rewrite V2. unfold bytes_of. rewrite Z.eqb_refl. by destruct (m_dwIP r =? ip). }
    set (step := if negb (data =? 0) then _ else _).
    assert (exists good1 bad1, step = (good1, bad1) /\ msorted good1 /\ msorted bad1 /\
      good_is good1 (fun ip => G ip + if ok then bytes_of ip s e r else 0) /\
      bad_is bad1 (fun ip => C ip + if ok then 0 else bytes_of ip s e r)) as (good1 & bad1 & -> & S1 & S2 & G1 & B1).
    { subst step. destruct (Z.eqb_spec data 0) as [E0|Hne]; simpl.
      - exists good, bad. split_and!; try done; [eapply good_is_ext|eapply bad_is_ext]; try done; intros ip;
          rewrite Eone, E0; destruct ok, (m_dwIP r =? ip); apply Z.add_0_r.
      - destruct ok.
        + exists (credit (m_dwIP r) data good), bad. split_and!; try done; [by apply msorted_credit| |].
          * eapply good_is_ext; [by apply good_is_credit|]. intros ip. by rewrite Eone.
          * eapply bad_is_ext; [exact Hb|]. intros ip. apply Z.add_0_r.
        + eexists good, _. split_and!; try done; [by apply msorted_credit| |].
          * eapply good_is_ext; [exact Hg|]. intros ip. apply Z.add_0_r.
          * eapply bad_is_ext; [apply (bad_is_credit (m_dwIP r) data); [lia|exact Hb]|]. intros ip. by rewrite Eone. }
    specialize (IH good1 bad1 _ _ Hs He Hl S1 S2 G1 B1).
    destruct (verify_loop ok s e l good1 bad1) as [[l' good'] bad']. destruct IH as (I1 & I2 & I3 & I4 & I5 & I6).
    split_and!; try done.
    + by apply Forall_app.
    + intros ip a b. rewrite bytes_app, !bytes_cons, V3, I2. lia.
    + eapply good_is_ext; [exact I5|]. intros ip. rewrite bytes_cons. destruct ok; lia.
    + eapply bad_is_ext; [exact I6|]. intros ip. rewrite bytes_cons. destruct ok; lia.
Qed.

(** ** The ledger: what the box stands for *)

(** The bytes each client sent and nobody verified, by part, client and position in the part; the
    numbers of bytes of each client verified as good and found corrupt. *)
Record ledger := mkLedger {
  pending : Z -> Z -> Z -> Z;
  verified : Z -> Z;
  corrupt : Z -> Z
}.

Definition ledger_new : ledger := mkLedger (fun _ _ _ => 0) (fun _ => 0) (fun _ => 0).

Inductive event :=
| EvTransferred (nStartPos nEndPos senderIP : Z)
| EvVerified (ok : bool) (nPart nRelStartPos nRelEndPos : Z).

Definition exec (s : CCorruptionBlackBox) (e : event) : CCorruptionBlackBox :=
  match e with
  | EvTransferred a b ip => TransferredData a b ip s
  | EvVerified ok q a b => VerifiedData ok q a b s
  end.

Definition sent_byte (a b q p : Z) : bool :=
  (0 <=? p) && (p <? PARTSIZE) && (a <=? q * PARTSIZE + p) && (q * PARTSIZE + p <=? b).

Definition enter (L : ledger) (e : event) : ledger :=
  match e with
  | EvTransferred a b sender =>
      mkLedger (fun q ip p => pending L q ip p + if (sender =? ip) && sent_byte a b q p then 1 else 0)
        (verified L) (corrupt L)
  | EvVerified ok q a b =>
      mkLedger (fun q' ip p => if (q' =? q) && (a <=? p) && (p <=? b) then 0 else pending L q' ip p)
        (fun ip => verified L ip + if ok then sum_range (pending L q ip) a b else 0)
        (fun ip => corrupt L ip + if ok then 0 else sum_range (pending L q ip) a b)
  end.

(** Ranges inside a file; a transfer of less than 2^32 bytes less a part. *)
Definition event_ok (e : event) : Prop :=
  match e with
  | EvTransferred a b ip => 0 <= a <= b /\ b < MAX_FILE_SIZE /\ b - a < 2 ^ 32 - PARTSIZE /\ in_width 32 ip
  | EvVerified ok q a b => in_width 16 q /\ in_width 32 a /\ in_width 32 b
  end.

Record box_ok (s : CCorruptionBlackBox) : Prop := {
  box_sorted : msorted (m_Records s);
  box_records : forall q, Forall record_ok (records q s);
  box_good : msorted (m_goodClients s);
  box_bad : msorted (m_badClients s)
}.

Lemma records_set q l s q' : records q' (set_records q l s) = if q =? q' then l else records q' s.
Proof.
  unfold records, set_records. simpl. destruct (Z.eqb_spec q q') as [->|Hne].
  - by rewrite mfind_set_eq.
  - by rewrite mfind_set_ne.
Qed.

Lemma set_records_ok q l s : box_ok s -> Forall record_ok l -> box_ok (set_records q l s).
Proof.
  intros [H1 H2 H3 H4] Hl. split; simpl; [by apply msorted_set| |done|done].
  intros q'. rewrite records_set. by destruct (q =? q').
Qed.

Lemma bytes_of_sent q a b ip p : a <= b ->
  bytes_of ip p p (mkRecord a b q) = if (q =? ip) && (a <=? p) && (p <=? b) then 1 else 0.
Proof.
  intros Hle. unfold bytes_of, overlap. simpl. destruct (q =? ip); [|done]. simpl.
  destruct (Z.leb_spec a p), (Z.leb_spec p b); simpl; lia.
Qed.

Definition transfers (a b sender : Z) (s s' : CCorruptionBlackBox) : Prop :=
  box_ok s' /\ m_goodClients s' = m_goodClients s /\ m_badClients s' = m_badClients s /\
  forall q ip p, bytes ip p p (records q s') =
    bytes ip p p (records q s) + if (sender =? ip) && sent_byte a b q p then 1 else 0.

Lemma TransferredData_rec_spec fuel b sender : forall a s,
  0 <= a <= b -> b < MAX_FILE_SIZE -> b - a < 2 ^ 32 - PARTSIZE -> b / PARTSIZE - a / PARTSIZE < Z.of_nat fuel ->
  box_ok s -> transfers a b sender s (TransferredData_rec fuel a b sender s).
Proof.
  induction fuel as [|fuel IH]; intros a s Ha Hb Hlen Hfuel Hok.
  { assert (a / PARTSIZE <= b / PARTSIZE) by (apply Z.div_le_mono; [done|lia]). lia. }
  cbn [TransferredData_rec]. rewrite Z.gtb_ltb, (proj2 (Z.ltb_ge _ _)) by lia.
  pose proof (Z.div_mod a PARTSIZE ltac:(done)) as Ea. pose proof (Z.mod_pos_bound a PARTSIZE ltac:(done)) as Hr.
  set (n := a / PARTSIZE) in *. set (r := a mod PARTSIZE) in *. clearbody n r.
  assert (0 <= n < 30000) as Hn by (unfold MAX_FILE_SIZE, PARTSIZE in *; lia).
  assert (u16 n = n) as -> by (apply wrap_small; unfold in_width; lia).
  assert (u64 (n * PARTSIZE) = n * PARTSIZE) as -> by (apply wrap_small; unfold in_width, PARTSIZE in *; lia).
  assert (u64 ((n + 1) * PARTSIZE) = (n + 1) * PARTSIZE) as -> by (apply wrap_small; unfold in_width, PARTSIZE in *; lia).
  assert (u32 (a - n * PARTSIZE) = r) as -> by (rewrite wrap_small; unfold in_width, PARTSIZE in *; lia).
  assert (u32 (b - n * PARTSIZE) = b - n * PARTSIZE) as ->
    by (rewrite wrap_small; unfold in_width, PARTSIZE in *; lia).
  rewrite Z.geb_leb. destruct (Z.leb_spec PARTSIZE (b - n * PARTSIZE)) as [Hcross|Hin].
  - assert (b / PARTSIZE - (n + 1) < Z.of_nat fuel) as Hf by lia.
    destruct (IH ((n + 1) * PARTSIZE) s) as (I1 & I2 & I3 & I4); try done; try (unfold PARTSIZE in *; lia).
    set (s1 := TransferredData_rec fuel ((n + 1) * PARTSIZE) b sender s) in *. clearbody s1.
    destruct (merge_or_append_spec r (PARTSIZE - 1) sender (records n s1)) as [M1 M2];
      [lia|lia|apply I1|]. unfold transfers. split_and!; [by apply set_records_ok|done|done|].
    intros q ip p. rewrite records_set. destruct (Z.eqb_spec n q) as [<-|Hne].
    + rewrite M2, I4, bytes_of_sent by lia. unfold sent_byte, PARTSIZE in *.
      destruct (sender =? ip); simpl; [|lia]. repeat case_cmp; simpl; lia.
    + rewrite I4. f_equal. destruct (sender =? ip); simpl; [|done]. unfold sent_byte, PARTSIZE in *.
      repeat case_cmp; simpl; lia.
  - destruct (merge_or_append_spec r (b - n * PARTSIZE) sender (records n s)) as [M1 M2];
      [lia|lia|apply Hok|]. unfold transfers. split_and!; [by apply set_records_ok|done|done|].
    intros q ip p. rewrite records_set. destruct (Z.eqb_spec n q) as [<-|Hne].
    + rewrite M2, bytes_of_sent by lia. unfold sent_byte, PARTSIZE in *.
      destruct (sender =? ip); simpl; [|lia]. repeat case_cmp; simpl; lia.
    + destruct (sender =? ip); simpl; [|lia]. unfold sent_byte, PARTSIZE in *.
      repeat case_cmp; simpl; lia.
Qed.

(** The box stands for the ledger. *)
Record stands_for (s : CCorruptionBlackBox) (L : ledger) : Prop := {
  sf_ok : box_ok s;
  sf_pending : forall q ip p, bytes ip p p (records q s) = pending L q ip p;
  sf_good : good_is (m_goodClients s) (verified L);
  sf_bad : bad_is (m_badClients s) (corrupt L)
}.

Lemma stands_for_range s L q ip a b : stands_for s L ->
  bytes ip a b (records q s) = sum_range (pending L q ip) a b.
Proof.
  intros [Hok Hp _ _]. rewrite bytes_sum by apply Hok. apply sum_range_ext. intros p _. apply Hp.
Qed.

Lemma records_verified q l s good bad q' : msorted (m_Records s) ->
  let recs := mset q l (m_Records s) in
  records q' (mkBox (match l with [] => merase q recs | _ => recs end) good bad) =
    if q =? q' then l else records q' s.
Proof.
  intros Hs recs. assert (msorted recs) as Hs' by by apply msorted_set. unfold records. simpl.
  destruct (Z.eqb_spec q q') as [->|Hne].
  - destruct l; [by rewrite mfind_erase_eq|]. subst recs. by rewrite mfind_set_eq.
  - assert (mfind q' recs = mfind q' (m_Records s)) as E by (apply mfind_set_ne; congruence).
    destruct l; [rewrite mfind_erase_ne by (done || congruence)|]; by rewrite E.
Qed.

Lemma VerifiedData_stands ok q a b s L : in_width 16 q -> in_width 32 a -> in_width 32 b ->
  stands_for s L -> stands_for (VerifiedData ok q a b s) (enter L (EvVerified ok q a b)).
Proof.
  intros Hq Ha Hb Hsf. pose proof Hsf as [Hok Hp Hg Hbad]. unfold VerifiedData. rewrite Z.gtb_ltb.
  assert (0 <= a) as Ha0 by apply Ha. destruct (Z.ltb_spec b a) as [Hlt|Hle].
  { split; simpl; [done| | |].
    - intros q' ip p. rewrite Hp. destruct (q' =? q); [|done]. simpl.
      destruct (Z.leb_spec a p), (Z.leb_spec p b); simpl; done || lia.
    - eapply good_is_ext; [exact Hg|]. intros ip. rewrite sum_range_empty by done. destruct ok; lia.
    - eapply bad_is_ext; [exact Hbad|]. intros ip. rewrite sum_range_empty by done. destruct ok; lia. }
  destruct Hok as [S1 S2 S3 S4].
  pose proof (verify_loop_spec ok a b (records q s) _ _ _ _ ltac:(lia) Hb (S2 q) S3 S4 Hg Hbad) as Hv.
  destruct (verify_loop ok a b (records q s) (m_goodClients s) (m_badClients s)) as [[l good] bad].
  destruct Hv as (V1 & V2 & V3 & V4 & V5 & V6). pose proof (fun q' => records_verified q l s good bad q' S1) as Er.
  simpl in Er. split; [split; simpl; try done| | |].
  - destruct l; [apply msorted_erase|]; by apply msorted_set.
  - intros q'. rewrite Er. destruct (q =? q'); [done|apply S2].
  - intros q' ip p. rewrite Er. simpl. rewrite (Z.eqb_sym q'). destruct (Z.eqb_spec q q') as [<-|]; [|apply Hp].
    simpl. rewrite V2, <- Hp. destruct (Z.leb_spec a p), (Z.leb_spec p b); simpl;
      [rewrite Z.max_l, Z.min_l by lia; lia|..];
      rewrite (bytes_sum _ (Z.max p a)), sum_range_empty by (done || lia); lia.
  - eapply good_is_ext; [exact V5|]. intros ip. simpl. by rewrite (stands_for_range s L).
  - eapply bad_is_ext; [exact V6|]. intros ip. simpl. by rewrite (stands_for_range s L).
Qed.

Lemma exec_stands s L e : event_ok e -> stands_for s L -> stands_for (exec s e) (enter L e).
Proof.
  intros He Hsf. destruct e as [a b ip|ok q a b]; simpl in He.
  - destruct He as (H1 & H2 & H3 & _). pose proof Hsf as [Hok Hp Hg Hb].
    destruct (TransferredData_rec_spec (Z.to_nat (b / PARTSIZE - a / PARTSIZE + 1)) b ip a s)
      as (T1 & T2 & T3 & T4); try done.
    { assert (a / PARTSIZE <= b / PARTSIZE) by (apply Z.div_le_mono; [done|lia]). lia. }
    simpl. unfold TransferredData. split; simpl; [done| |by rewrite T2|by rewrite T3].
    intros. by rewrite T4, Hp.
  - destruct He as (? & ? & ?). by apply VerifiedData_stands.
Qed.

Lemma new_stands : stands_for CCorruptionBlackBox_new ledger_new.
Proof.
  split; simpl; [|done|intros ip; done|intros ip; exists 0; unfold EMBLOCKSIZE; by split_and!].
  split; simpl; [constructor|intros q; constructor|constructor..].
Qed.

Lemma exec_all_stands es : forall s L, Forall event_ok es -> stands_for s L ->
  stands_for (fold_left exec es s) (fold_left enter es L).
Proof.
  induction es as [|e es IH]; intros s L Hes Hsf; simpl; [done|]. apply Forall_cons in Hes as [He Hes].
  apply IH; [done|]. by apply exec_stands.
Qed.

Lemma sum_range_nonneg f a b : (forall p, 0 <= f p) -> 0 <= sum_range f a b.
Proof.
  intros H. unfold sum_range. generalize (seqZ a (b - a + 1)). intros l.
  induction l as [|x l IH]; [done|]. rewrite fmap_cons. cbn [sumZ]. specialize (H x). lia.
Qed.

Lemma ledger_nonneg es : let L := fold_left enter es ledger_new in
  (forall q ip p, 0 <= pending L q ip p) /\ (forall ip, 0 <= verified L ip) /\ forall ip, 0 <= corrupt L ip.
Proof.
  induction es as [|e es IH] using rev_ind; simpl; [by split_and!|]. rewrite fold_left_app. simpl.
  destruct IH as (I1 & I2 & I3). destruct e as [a b s|ok q a b]; simpl.
  - split_and!; try done. intros q ip p. specialize (I1 q ip p). destruct (_ && _); lia.
  - split_and!; intros.
    + destruct (_ && _); [done|apply I1].
    + specialize (I2 ip). pose proof (sum_range_nonneg (pending (fold_left enter es ledger_new) q ip) a b (I1 q ip)).
      destruct ok; lia.
    + specialize (I3 ip). pose proof (sum_range_nonneg (pending (fold_left enter es ledger_new) q ip) a b (I1 q ip)).
      destruct ok; lia.
Qed.

(** ** Who is banned *)

Section Bans.

Context {client : Type} (addr : client -> Z).
Context (FindClientByIP : list (action client) -> Z -> option client).
Context (is_disconnected : list (action client) -> client -> bool).

Definition banned (ip : Z) (done : list (action client)) : Prop :=
  AddBannedClient ip ∈ done \/ exists c, addr c = ip /\ Ban c ∈ done.

Definition guilty (s : CCorruptionBlackBox) (ip bad : Z) : Prop :=
  bad <> 0 /\ nCorruptPercentage bad (account (m_goodClients s) ip) > CBB_BANTHRESHOLD.

Context (Find_sound : forall done ip c, FindClientByIP done ip = Some c -> addr c = ip).

Lemma banned_app ip done done' : banned ip (done ++ done') <-> banned ip done \/ banned ip done'.
Proof using. clear. unfold banned. setoid_rewrite elem_of_app. naive_solver. Qed.

Lemma evaluate_client_banned s ip ip' bad done :
  banned ip (evaluate_client FindClientByIP is_disconnected s ip' bad done) <->
  banned ip done \/ (ip = ip' /\ guilty s ip' bad).
Proof using Find_sound.
  unfold evaluate_client, guilty. change (default 0 (mfind ip' (m_goodClients s))) with (account (m_goodClients s) ip').
  destruct (Z.eqb_spec bad 0) as [->|Hb]; [naive_solver lia|].
  rewrite Z.gtb_ltb. destruct (Z.ltb_spec CBB_BANTHRESHOLD (nCorruptPercentage bad (account (m_goodClients s) ip'))) as [Hg|Hg].
  - destruct (FindClientByIP done ip') as [c|] eqn:Ef.
    + apply Find_sound in Ef. rewrite <- app_assoc, banned_app. apply or_iff_compat_l. split.
      * intros [Hin|(c' & <- & Hin)]; (split; [|lia]);
          destruct (is_disconnected _ c) in Hin; set_solver.
      * intros [-> _]. right. exists c. split; [done|]. set_solver.
    + rewrite banned_app. apply or_iff_compat_l. unfold banned. split.
      * intros [[= ->]%list_elem_of_singleton|(c & _ & Hin)]; [split; [done|lia]|set_solver].
      * intros [-> _]. left. set_solver.
  - destruct (FindClientByIP done ip') as [c|]; [rewrite banned_app|]; unfold banned; split; try naive_solver lia.
    intros [?|[Hin|(c' & _ & Hin)]]; [by left|set_solver..].
Qed.

Lemma evaluate_loop_banned s ip it : forall done,
  banned ip (evaluate_loop FindClientByIP is_disconnected s it done) <->
  banned ip done \/ exists bad, (ip, bad) ∈ it /\ guilty s ip bad.
Proof using Find_sound.
  induction it as [|[ip' bad'] it IH]; intros done; simpl; [set_solver|].
  rewrite IH, evaluate_client_banned. setoid_rewrite elem_of_cons. naive_solver.
Qed.

Lemma EvaluateData_banned s ip : box_ok s ->
  banned ip (EvaluateData FindClientByIP is_disconnected s) <-> guilty s ip (account (m_badClients s) ip).
Proof using Find_sound.
  intros Hok. unfold EvaluateData. rewrite evaluate_loop_banned. unfold account at 1. split.
  - intros [[?|(? & ? & ?)]|(bad & Hin & Hg)]; [set_solver..|]. apply mfind_In in Hin; [|apply Hok]. by rewrite Hin.
  - intros Hg. right. destruct (mfind ip (m_badClients s)) as [bad|] eqn:E; simpl in Hg; [|by destruct Hg].
    exists bad. split; [|done]. apply mfind_In; [apply Hok|done].
Qed.

End Bans.

Lemma nCorruptPercentage_over B g : 0 < B -> 0 <= g -> 100 * (B + g) < 2 ^ 64 ->
  nCorruptPercentage (u64 B) (u64 g) > CBB_BANTHRESHOLD <-> 33 * g <= 67 * B.
Proof.
  intros HB Hg Hw. unfold nCorruptPercentage, CBB_BANTHRESHOLD.
  rewrite !(wrap_small 64) by (unfold in_width; rewrite ?wrap_small by (unfold in_width; lia); lia).
  assert (0 <= B * 100 / (B + g) <= 100) as Hq.
  { split; [apply Z.div_pos; lia|]. apply Z.div_le_upper_bound; lia. }
  unfold swrap. rewrite Z.mod_small by (change (2 ^ 32) with 4294967296; change (2 ^ (32 - 1)) with 2147483648; lia).
  assert (33 <= B * 100 / (B + g) <-> 33 * g <= 67 * B) as <-; [|lia]. split; intros H.
  - pose proof (Z.mul_div_le (B * 100) (B + g) ltac:(lia)). nia.
  - apply Z.div_le_lower_bound; lia.
Qed.

(** ** Properties *)

(** C36: The box is a faithful ledger.  After any transfers and verifications, with ranges that cross
    parts, overlap, merge or are split, the records hold for every part, client and range exactly
    the bytes the client sent there since they were last verified; the good account of a client
    is the number of its bytes verified (modulo 2^64); its bad account is at least the number of
    its bytes found corrupt and at most a block for each of them. *)
Theorem blackbox_ledger (es : list event) (Hes : Forall event_ok es) :
  let s := fold_left exec es CCorruptionBlackBox_new in
  let L := fold_left enter es ledger_new in
  (forall q ip a b, bytes ip a b (records q s) = sum_range (pending L q ip) a b) /\
  (forall ip, account (m_goodClients s) ip = u64 (verified L ip)) /\
  (forall ip, exists B, corrupt L ip <= B <= EMBLOCKSIZE * corrupt L ip /\ account (m_badClients s) ip = u64 B).
Proof.
  intros s L. assert (stands_for s L) as Hsf by exact (exec_all_stands es _ _ Hes new_stands).
  split_and!; [|apply Hsf..]. intros. by apply stands_for_range.
Qed.

(** C37: The evaluation bans the senders of corrupt data and nobody else.  A client none of whose
    bytes was found corrupt is not banned; one is banned if its corrupt bytes are at least 33
    percent of its verified and corrupt bytes, and only if they are when each counts as a block. *)
Theorem blackbox_bans (client : Type) (addr : client -> Z)
  (FindClientByIP : list (action client) -> Z -> option client)
  (is_disconnected : list (action client) -> client -> bool)
  (Hfind : forall done ip c, FindClientByIP done ip = Some c -> addr c = ip)
  (es : list event) (Hes : Forall event_ok es) (ip : Z) :
  let s := fold_left exec es CCorruptionBlackBox_new in
  let L := fold_left enter es ledger_new in
  100 * (EMBLOCKSIZE * corrupt L ip + verified L ip) < 2 ^ 64 ->
  (banned addr ip (EvaluateData FindClientByIP is_disconnected s) ->
   0 < corrupt L ip /\ 33 * verified L ip <= 67 * (EMBLOCKSIZE * corrupt L ip)) /\
  (0 < corrupt L ip -> 33 * verified L ip <= 67 * corrupt L ip ->
   banned addr ip (EvaluateData FindClientByIP is_disconnected s)).
Proof.
  intros s L Hw. assert (stands_for s L) as Hsf by exact (exec_all_stands es _ _ Hes new_stands).
  destruct (ledger_nonneg es) as (_ & Hv & Hc). fold L in Hv, Hc. specialize (Hv ip). specialize (Hc ip).
  rewrite EvaluateData_banned by (done || apply Hsf). unfold guilty.
  destruct (sf_bad _ _ Hsf ip) as (B & HB & ->). rewrite (sf_good _ _ Hsf ip).
  assert (u64 B = B) as EB by (apply wrap_small; unfold in_width, EMBLOCKSIZE in *; lia).
  split; intros H.
  - destruct H as [HB0 Hp]. rewrite EB in HB0. apply nCorruptPercentage_over in Hp; unfold EMBLOCKSIZE in *; lia.
  - intros Hshare. split; [unfold EMBLOCKSIZE in *; lia|]. apply nCorruptPercentage_over; unfold EMBLOCKSIZE in *; lia.
Qed.

(** ** Instances *)

(** Two clients fill a range across the border of part 0; the beginning of part 0 is corrupt. *)
Definition sample_events : list event :=
  [EvTransferred 0 19 1; EvTransferred 20 29 2; EvTransferred 9727990 9728009 2;
   EvVerified false 0 0 29; EvVerified true 1 0 9].

Lemma sample_events_ok : Forall event_ok sample_events.
Proof. repeat apply Forall_cons_2; try apply Forall_nil_2; vm_compute; repeat split; discriminate || reflexivity. Qed.

Lemma blackbox_ledger_witness :
  bytes 2 0 (PARTSIZE - 1) (records 0 (fold_left exec sample_events CCorruptionBlackBox_new)) = 10 /\
  account (m_goodClients (fold_left exec sample_events CCorruptionBlackBox_new)) 2 = 10 /\
  exists B, account (m_badClients (fold_left exec sample_events CCorruptionBlackBox_new)) 1 = u64 B.
Proof.
  destruct (blackbox_ledger sample_events sample_events_ok) as (_ & _ & H3).
  split_and!; [vm_compute; reflexivity..|]. destruct (H3 1) as (B & _ & E). by exists B.
Defined.

Lemma blackbox_bans_witness :
  banned (fun c : Z => c) 1 (EvaluateData (fun _ ip => Some ip) (fun _ _ => true)
    (fold_left exec sample_events CCorruptionBlackBox_new)).
Proof.
  assert (corrupt (fold_left enter sample_events ledger_new) 1 = 20) as Ec by (vm_compute; reflexivity).
  assert (verified (fold_left enter sample_events ledger_new) 1 = 0) as Ev by (vm_compute; reflexivity).
  apply (blackbox_bans Z (fun c => c) (fun _ ip => Some ip) (fun _ _ => true));
    [by intros ? ? ? [= ->]|apply sample_events_ok|..]; rewrite ?Ec, ?Ev; vm_compute; reflexivity || discriminate.
Defined.
