(* ===== verification/DataIO.v ===== *)
(** * Typed file access ([SafeFile.h], [SafeFile.cpp])

    [CFileDataIO] reads and writes little-endian integers, hashes and strings on top of three
    primitives that its implementations provide.  Operations run in a state monad with
    exceptions over the file: the file keeps its new state when an exception is thrown.  The
    primitives are a class, and what the typed operations rely on is a second class of laws,
    which [MemFile.v] discharges for [CMemFile]. *)
From S2P Require Import Prelude StdMap UInt128.

(** ** Exceptions and the monad *)

(** A [wxString] is the list of its characters, as code points. *)
Abbreviation wxString := (list Z) (only parsing).

Inductive exn :=
| CEOFException
| CIOFailureException
| CInvalidParamsEx
| CInvalidStateEx
| CInvalidPacket
| StringException
| WrongUnionMember.

#[export] Instance exn_eq_dec : EqDecision exn.
Proof. solve_decision. Defined.

Definition IO (F A : Type) : Type := F -> (exn + A) * F.

Definition io_ret {F A} (x : A) : IO F A := fun f => (inr x, f).

Definition io_throw {F A} (e : exn) : IO F A := fun f => (inl e, f).

Definition io_bind {F A B} (m : IO F A) (k : A -> IO F B) : IO F B := fun f =>
  match m f with
  | (inr x, f) => k x f
  | (inl e, f) => (inl e, f)
  end.

Declare Scope io_scope.
Delimit Scope io_scope with io.
Notation "'let!' x ':=' m 'in' k" := (io_bind m (fun x => k))
  (at level 10, x name, m at level 200, k at level 200) : io_scope.
Notation "'seq!' m 'in' k" := (io_bind m (fun _ => k))
  (at level 10, m at level 200, k at level 200) : io_scope.

(** ** Little-endian integers *)

Fixpoint peek_le (l : list Z) : Z :=
  match l with [] => 0 | b :: t => b + 256 * peek_le t end.

Fixpoint poke_le (n : nat) (v : Z) : list Z :=
  match n with O => [] | S n => v mod 256 :: poke_le n (v / 256) end.

(** ** The primitives an implementation provides *)

(** [doRead] gives the result and the bytes stored in the buffer; a result of -1 is an error. *)
Class CFileDataIO (F : Type) := {
  GetPosition : F -> Z;
  GetLength : F -> Z;
  doRead : Z -> IO F (Z * list Z);
  doWrite : list Z -> IO F Z;
  doSeek : Z -> IO F Z
}.

(** ** Text encodings of the string library *)

(** [wxConvUTF8] and [wxConvISO8859_1]; [None] is a conversion that fails. *)
Class wxConv := {
  utf8_str : wxString -> option (list Z);
  cMB2WX : list Z -> wxString;
  latin1_str : wxString -> option (list Z);
  from_latin1 : list Z -> wxString
}.

Inductive EUtf8Str := utf8strNone | utf8strOptBOM | utf8strRaw.

Inductive wxSeekMode := wxFromStart | wxFromCurrent | wxFromEnd.

(** The characters before the terminating NUL. *)
Fixpoint c_str (l : list Z) : list Z :=
  match l with
  | [] => []
  | c :: t => if c =? 0 then [] else c :: c_str t
  end.

Definition strlen (s : option (list Z)) : Z :=
  match s with Some l => Z.of_nat (length (c_str l)) | None => 0 end.

Definition BOMHeader : list Z := [0xEF; 0xBB; 0xBF].

Definition CHECK_BOM (size : Z) (x : list Z) : bool :=
  (size >=? 3) && bool_decide (take 3 x = BOMHeader).

Section DataIO.

Context {F : Type} {IOF : CFileDataIO F}.

#[local] Open Scope io_scope.

Definition Eof (f : F) : bool := GetPosition f >=? GetLength f.

(** The comparison is with the [int] the count is cast to. *)
Definition Read (count : Z) : IO F (list Z) :=
  let! r := doRead count in
  if r.1 =? swrap 32 count then io_ret r.2
  else fun f => if Eof f then io_throw CEOFException f else io_throw CIOFailureException f.

Definition Write (bytes : list Z) : IO F unit :=
  let! r := doWrite bytes in
  if r =? swrap 32 (Z.of_nat (length bytes)) then io_ret tt else io_throw CIOFailureException.

Definition Seek (offset : Z) (from : wxSeekMode) : IO F Z := fun f =>
  let newpos := swrap 64 match from with
    | wxFromStart => offset
    | wxFromCurrent => GetPosition f + offset
    | wxFromEnd => GetLength f + offset
    end in
  if newpos >=? 0 then
    (let! result := doSeek newpos in
     if (result >=? 0) && (result =? newpos) then io_ret result
     else io_throw CInvalidStateEx) f
  else (inl CInvalidParamsEx, f).

Definition ReadUInt8 : IO F Z := let! b := Read 1 in io_ret (peek_le b).
Definition ReadUInt16 : IO F Z := let! b := Read 2 in io_ret (peek_le b).
Definition ReadUInt32 : IO F Z := let! b := Read 4 in io_ret (peek_le b).
Definition ReadUInt64 : IO F Z := let! b := Read 8 in io_ret (peek_le b).

Fixpoint read_chunks (value : CUInt128) (i : Z) (n : nat) : IO F CUInt128 :=
  match n with
  | O => io_ret value
  | S n => let! v := ReadUInt32 in read_chunks (Set32BitChunk value i v) (i + 1) n
  end.

Definition ReadUInt128 : IO F CUInt128 := read_chunks (of_uint32 0) 0 4.

Definition MD4HASH_LENGTH : Z := 16.

Definition ReadHash : IO F (list Z) := Read MD4HASH_LENGTH.

(** A [float] is its 32-bit pattern. *)
Definition ReadFloat : IO F Z := let! b := Read 4 in io_ret (peek_le b).

Definition ReadBsob : IO F (list Z) := let! puSize := ReadUInt8 in Read puSize.

Definition WriteUInt8 (value : Z) : IO F unit := Write (poke_le 1 value).
Definition WriteUInt16 (value : Z) : IO F unit := Write (poke_le 2 value).
Definition WriteUInt32 (value : Z) : IO F unit := Write (poke_le 4 value).
Definition WriteUInt64 (value : Z) : IO F unit := Write (poke_le 8 value).

Fixpoint write_chunks (value : CUInt128) (i : Z) (n : nat) : IO F unit :=
  match n with
  | O => io_ret tt
  | S n => seq! WriteUInt32 (Get32BitChunk value i) in write_chunks value (i + 1) n
  end.

Definition WriteUInt128 (value : CUInt128) : IO F unit := write_chunks value 0 4.

Definition WriteHash (value : list Z) : IO F unit := Write value.

Definition WriteFloat (value : Z) : IO F unit := Write (poke_le 4 value).

(** [size] bytes are written from [value]. *)
Definition WriteBsob (value : list Z) (size : Z) : IO F unit :=
  seq! WriteUInt8 size in Write (take (Z.to_nat size) value).

Definition Append (buffer : list Z) : IO F unit := seq! Seek 0 wxFromEnd in Write buffer.

(** *** Strings *)

Context {conv : wxConv}.

Definition UTF82unicode (x : list Z) : wxString := cMB2WX (c_str x).

(** The length argument is a [uint16]. *)
Definition ReadOnlyString (bOptUTF8 : bool) (raw_len : Z) : IO F wxString :=
  let raw_len := u16 raw_len in
  let! val := Read raw_len in
  io_ret (if CHECK_BOM raw_len val then UTF82unicode (drop 3 val)
          else if bOptUTF8 then
            let str := UTF82unicode val in
            match str with [] => from_latin1 val | _ => str end
          else from_latin1 val).

Definition ReadString (bOptUTF8 : bool) (SizeLen : Z) (SafeRead : bool) : IO F wxString :=
  let! readLen := (if SizeLen =? 2 then ReadUInt16
                 else if SizeLen =? 4 then ReadUInt32 else io_throw CInvalidParamsEx) in
  fun f =>
    let readLen := if SafeRead then Z.min readLen (u64 (GetLength f - GetPosition f)) else readLen in
    ReadOnlyString bOptUTF8 readLen f.

(** [s] is the converted buffer, [None] for a null one. *)
Definition WriteStringCore (s : option (list Z)) (eEncode : EUtf8Str) (SizeLen : Z) : IO F unit :=
  let bom := match eEncode with utf8strOptBOM => true | _ => false end in
  let sLength := u32 (strlen s) in
  let real_length := if bom then u32 (sLength + 3) else sLength in
  let oversized := (SizeLen =? 2) && (real_length >? 0xFFFF) in
  let real_length := if oversized then Z.min real_length 0xFFFF else real_length in
  let sLength := if oversized then (if bom then real_length - 3 else real_length) else sLength in
  seq! (if SizeLen =? 0 then io_ret tt
       else if SizeLen =? 2 then WriteUInt16 real_length
       else if SizeLen =? 4 then WriteUInt32 real_length
       else io_throw CInvalidParamsEx) in
  seq! (if bom then Write BOMHeader else io_ret tt) in
  if sLength =? 0 then io_ret tt else Write (take (Z.to_nat sLength) (default [] s)).

Definition WriteString (str : wxString) (eEncode : EUtf8Str) (SizeLen : Z) : IO F unit :=
  match eEncode, utf8_str str with
  | utf8strRaw, Some s | utf8strOptBOM, Some s => WriteStringCore (Some s) eEncode SizeLen
  | _, _ => WriteStringCore (latin1_str str) utf8strNone SizeLen
  end.

End DataIO.

(** ** What the typed operations rely on *)

(** The contents after [bytes] are written at [pos]. *)
Definition splice {A} (c : list A) (pos : Z) (bytes : list A) : list A :=
  take (Z.to_nat pos) c ++ bytes ++ drop (Z.to_nat pos + length bytes) c.

(** [room f n]: [n] bytes can be written at the position. *)
Class FileLaws (F : Type) {IOF : CFileDataIO F} := {
  file_ok : F -> Prop;
  content : F -> list Z;
  room : F -> Z -> Prop;
  law_content f : file_ok f -> Forall is_byte (content f) /\ GetLength f = Z.of_nat (length (content f));
  law_position f : file_ok f -> 0 <= GetPosition f < 2 ^ 63 /\ GetLength f < 2 ^ 62;
  law_room f m n : file_ok f -> room f n -> 0 <= m <= n -> room f m;
  law_read n f : file_ok f -> 0 <= n -> n = 0 \/ GetPosition f + n <= GetLength f ->
    exists f', doRead n f = (inr (n, take (Z.to_nat n) (drop (Z.to_nat (GetPosition f)) (content f))), f') /\
      file_ok f' /\ content f' = content f /\ GetPosition f' = GetPosition f + n;
  law_short n f : file_ok f -> 0 < n < 2 ^ 31 -> GetLength f < GetPosition f + n ->
    exists r bytes f', doRead n f = (inr (r, bytes), f') /\ r < n /\
      file_ok f' /\ content f' = content f /\ GetLength f <= GetPosition f' /\ GetPosition f <= GetPosition f';
  law_write bytes f : file_ok f -> Forall is_byte bytes -> room f (Z.of_nat (length bytes)) ->
    GetPosition f <= GetLength f ->
    exists f', doWrite bytes f = (inr (Z.of_nat (length bytes)), f') /\ file_ok f' /\
      content f' = splice (content f) (GetPosition f) bytes /\
      GetPosition f' = GetPosition f + Z.of_nat (length bytes) /\
      forall m, 0 <= m -> room f (Z.of_nat (length bytes) + m) -> room f' m;
  law_seek p f : file_ok f -> 0 <= p < 2 ^ 63 ->
    exists f', doSeek p f = (inr p, f') /\ file_ok f' /\ content f' = content f /\ GetPosition f' = p /\
      forall n m, room f n -> 0 <= m -> p + m <= GetPosition f + n -> room f' m
}.

(** What the text conversions promise: they invert each other on NUL-free text, the empty text
    is empty bytes, only a byte order mark encodes as one, and Latin-1 is the identity on its
    range. *)
Class wxConvLaws (conv : wxConv) := {
  utf8_nil : utf8_str [] = Some [];
  utf8_round s b : Forall (fun c => c <> 0) s -> utf8_str s = Some b ->
    Forall is_byte b /\ Forall (fun c => c <> 0) b /\ cMB2WX b = s;
  utf8_mark s b : utf8_str s = Some b -> take 3 b = BOMHeader -> head s = Some 0xFEFF;
  latin1_ok s : Forall (fun c => 0 < c < 256) s -> latin1_str s = Some s;
  from_latin1_ok b : Forall is_byte b -> from_latin1 b = b
}.

(** ** Little-endian round trips *)

Lemma poke_le_length n v : length (poke_le n v) = n.
Proof. revert v. induction n as [|n IH]; intros v; [done|]. simpl. by rewrite IH. Qed.

Lemma poke_le_bytes n v : Forall is_byte (poke_le n v).
Proof.
  revert v. induction n as [|n IH]; intros v; simpl; constructor; [|done].
  unfold is_byte, in_width. change (2 ^ 8) with 256. apply Z.mod_pos_bound. lia.
Qed.

Lemma peek_poke n v : in_width (8 * Z.of_nat n) v -> peek_le (poke_le n v) = v.
Proof.
  revert v. induction n as [|n IH]; intros v Hv.
  - unfold in_width in Hv. simpl in *. lia.
  - simpl. rewrite IH.
    + pose proof (Z.div_mod v 256). lia.
    + unfold in_width in *. replace (8 * Z.of_nat (S n)) with (8 + 8 * Z.of_nat n) in Hv by lia.
      rewrite Z.pow_add_r in Hv by lia. change (2 ^ 8) with 256 in Hv.
      split; [apply Z.div_pos; lia|]. apply Z.div_lt_upper_bound; lia.
Qed.

Lemma peek_le_range l : Forall is_byte l -> in_width (8 * Z.of_nat (length l)) (peek_le l).
Proof.
  induction 1 as [|b l Hb Hl IH]; [done|]. simpl length. unfold in_width, is_byte in *.
  replace (8 * Z.of_nat (S (length l))) with (8 + 8 * Z.of_nat (length l)) by lia.
  rewrite Z.pow_add_r by lia. unfold in_width in Hb. change (2 ^ 8) with 256 in *. simpl. nia.
Qed.

(** ** Readers and writers as byte strings *)

Section Codec.

Context {F : Type} {IOF : CFileDataIO F} {laws : FileLaws F}.

#[local] Open Scope io_scope.

(** [r] reads [x] from the bytes [bs] at the position, and steps over them. *)
Definition parses {A} (r : IO F A) (bs : list Z) (x : A) : Prop := forall f rest,
  file_ok f -> GetPosition f <= GetLength f ->
  drop (Z.to_nat (GetPosition f)) (content f) = bs ++ rest ->
  exists f', r f = (inr x, f') /\ file_ok f' /\ content f' = content f /\
    GetPosition f' = GetPosition f + Z.of_nat (length bs).

(** [w] writes the bytes [bs] at the position, and steps over them. *)
Definition writes {A} (w : IO F A) (bs : list Z) (x : A) : Prop := forall f,
  file_ok f -> GetPosition f <= GetLength f -> room f (Z.of_nat (length bs)) ->
  exists f', w f = (inr x, f') /\ file_ok f' /\
    content f' = splice (content f) (GetPosition f) bs /\
    GetPosition f' = GetPosition f + Z.of_nat (length bs) /\
    forall m, 0 <= m -> room f (Z.of_nat (length bs) + m) -> room f' m.

Lemma parses_at f bs rest : file_ok f -> GetPosition f <= GetLength f ->
  drop (Z.to_nat (GetPosition f)) (content f) = bs ++ rest ->
  GetPosition f + Z.of_nat (length bs) <= GetLength f /\
  drop (Z.to_nat (GetPosition f + Z.of_nat (length bs))) (content f) = rest.
Proof.
  intros Hf Hp E. destruct (law_content f Hf) as [_ HL]. destruct (law_position f Hf) as [HP _].
  pose proof (f_equal length E) as El. rewrite length_drop, length_app in El. split; [lia|].
  replace (Z.to_nat (GetPosition f + Z.of_nat (length bs)))
    with (Z.to_nat (GetPosition f) + length bs)%nat by lia.
  by rewrite <- drop_drop, E, drop_app_length.
Qed.

Lemma parses_ret {A} (x : A) : parses (io_ret x) [] x.
Proof. intros f rest Hf Hp _. exists f. simpl. split_and!; [done..|lia]. Qed.

Lemma parses_bind {A B} (m : IO F A) (k : A -> IO F B) b1 b2 x y :
  parses m b1 x -> parses (k x) b2 y -> parses (let! z := m in k z) (b1 ++ b2) y.
Proof.
  intros Hm Hk f rest Hf Hp E. rewrite <- app_assoc in E.
  destruct (Hm f (b2 ++ rest) Hf Hp E) as (f1 & E1 & Hf1 & C1 & P1).
  destruct (parses_at f b1 _ Hf Hp E) as [HL E'].
  destruct (Hk f1 rest Hf1) as (f2 & E2 & Hf2 & C2 & P2).
  - destruct (law_content f Hf) as [_ H1], (law_content f1 Hf1) as [_ H2]. rewrite H2, C1, <- H1. lia.
  - by rewrite P1, C1.
  - exists f2. unfold io_bind. rewrite E1, E2. rewrite C2, P2, C1, P1, length_app. split_and!; [done..|lia].
Qed.

Lemma parses_map {A B} (m : IO F A) (g : A -> B) bs x :
  parses m bs x -> parses (let! z := m in io_ret (g z)) bs (g x).
Proof. intros Hm. rewrite <- (app_nil_r bs). by eapply parses_bind; [|apply parses_ret]. Qed.

Lemma writes_ret {A} (x : A) : writes (io_ret x) [] x.
Proof.
  intros f Hf Hp Hr. exists f. destruct (law_position f Hf) as [HP _]. unfold splice. simpl.
  rewrite Nat.add_0_r, take_drop. split_and!; [done..|lia|]. intros m Hm. by rewrite Z.add_0_l.
Qed.

Lemma splice_splice {A} (c : list A) p b1 b2 : 0 <= p <= Z.of_nat (length c) ->
  splice (splice c p b1) (p + Z.of_nat (length b1)) b2 = splice c p (b1 ++ b2).
Proof.
  intros Hp. unfold splice.
  replace (Z.to_nat (p + Z.of_nat (length b1))) with (Z.to_nat p + length b1)%nat by lia.
  assert (length (take (Z.to_nat p) c) = Z.to_nat p) as HL by (rewrite length_take; lia).
  rewrite (take_app_ge (take (Z.to_nat p) c)) by lia.
  rewrite (drop_app_ge (take (Z.to_nat p) c)) by lia. rewrite HL.
  replace (Z.to_nat p + length b1 - Z.to_nat p)%nat with (length b1) by lia.
  replace (Z.to_nat p + length b1 + length b2 - Z.to_nat p)%nat with (length b1 + length b2)%nat by lia.
  rewrite take_app_length, (drop_app_ge b1) by lia.
  replace (length b1 + length b2 - length b1)%nat with (length b2) by lia.
  rewrite drop_drop, length_app, <- !app_assoc. by rewrite !Nat.add_assoc.
Qed.

Lemma splice_length {A} (c : list A) p bs : 0 <= p <= Z.of_nat (length c) ->
  p + Z.of_nat (length bs) <= Z.of_nat (length (splice c p bs)).
Proof. intros Hp. unfold splice. rewrite !length_app, length_take. lia. Qed.

Lemma splice_at {A} (c : list A) p bs : 0 <= p <= Z.of_nat (length c) ->
  exists rest, drop (Z.to_nat p) (splice c p bs) = bs ++ rest.
Proof.
  intros Hp. exists (drop (Z.to_nat p + length bs) c). unfold splice.
  rewrite drop_app_ge by (rewrite length_take; lia). rewrite length_take.
  by replace (Z.to_nat p - Z.to_nat p `min` length c)%nat with 0%nat by lia.
Qed.

Lemma splice_lookup {A} (c : list A) p bs i : 0 <= p <= Z.of_nat (length c) ->
  splice c p bs !! i =
    if decide (i < Z.to_nat p)%nat then c !! i
    else if decide (i < Z.to_nat p + length bs)%nat then bs !! (i - Z.to_nat p)%nat else c !! i.
Proof.
  intros Hp. unfold splice. case_decide as H1.
  - rewrite lookup_app_l, lookup_take_lt by (rewrite ?length_take; lia). done.
  - rewrite lookup_app_r, length_take by (rewrite ?length_take; lia).
    replace (Z.to_nat p `min` length c)%nat with (Z.to_nat p) by lia. case_decide as H2.
    + by rewrite lookup_app_l by lia.
    + rewrite lookup_app_r, lookup_drop by lia. f_equal. lia.
Qed.

Lemma writes_bind {A B} (m : IO F A) (k : A -> IO F B) b1 b2 x y :
  writes m b1 x -> writes (k x) b2 y -> writes (let! z := m in k z) (b1 ++ b2) y.
Proof.
  intros Hm Hk f Hf Hp Hr. rewrite length_app, Nat2Z.inj_add in Hr.
  destruct (law_content f Hf) as [_ HL]. destruct (law_position f Hf) as [HP _].
  destruct (Hm f Hf Hp) as (f1 & E1 & Hf1 & C1 & P1 & R1); [by eapply law_room; [done|exact Hr|lia]|].
  destruct (law_content f1 Hf1) as [_ HL1].
  destruct (Hk f1 Hf1) as (f2 & E2 & Hf2 & C2 & P2 & R2).
  - rewrite HL1, C1, P1. apply splice_length. lia.
  - apply R1; [lia|done].
  - exists f2. unfold io_bind. rewrite E1, E2. split; [done|]. split; [done|].
    rewrite C2, C1, P1, P2, P1, splice_splice, length_app by lia. split; [done|]. split; [lia|].
    intros k' Hk' Hroom. apply R2; [done|]. apply R1; [lia|].
    by replace (Z.of_nat (length b1) + (Z.of_nat (length b2) + k'))
      with (Z.of_nat (length b1 + length b2) + k') by lia.
Qed.

Lemma writes_last {A B} (m : IO F A) (x : A) (y : B) bs :
  writes m bs x -> writes (seq! m in io_ret y) bs y.
Proof. intros Hm. rewrite <- (app_nil_r bs). by eapply writes_bind; [|apply writes_ret]. Qed.

(** *** Blocks of bytes *)

Lemma swrap_count n : 0 <= n < 2 ^ 31 -> swrap 32 n = n.
Proof. intros Hn. unfold swrap. change (32 - 1) with 31. rewrite Z.mod_small; lia. Qed.

Lemma parses_Read bs : Z.of_nat (length bs) < 2 ^ 31 -> parses (Read (Z.of_nat (length bs))) bs bs.
Proof.
  intros Hlt f rest Hf Hp E. destruct (parses_at f bs rest Hf Hp E) as [HL _].
  destruct (law_read (Z.of_nat (length bs)) f Hf ltac:(lia) (or_intror HL)) as (f' & E' & Hf' & C' & P').
  exists f'. unfold Read, io_bind. rewrite E'. cbn [fst snd].
  rewrite swrap_count, Z.eqb_refl by lia. unfold io_ret.
  by rewrite E, Nat2Z.id, take_app_length.
Qed.

Lemma writes_Write bs : Forall is_byte bs -> Z.of_nat (length bs) < 2 ^ 31 -> writes (Write bs) bs tt.
Proof.
  intros Hb Hlt f Hf Hp Hr. destruct (law_write bs f Hf Hb Hr Hp) as (f' & E' & Hf' & C' & P' & R').
  exists f'. unfold Write, io_bind. rewrite E', swrap_count, Z.eqb_refl by lia. done.
Qed.

(** From [f], [m] leaves the contents alone, never moves back, and gives a value of [P] or throws
    one of [E]; it reports the end of the file only there. *)
Definition outcome {A} (m : IO F A) (P : A -> Prop) (E : exn -> Prop) (f : F) : Prop :=
  exists f', file_ok f' /\ content f' = content f /\ GetPosition f <= GetPosition f' /\
    ((exists x, m f = (inr x, f') /\ P x) \/
     (exists e, m f = (inl e, f') /\ E e /\ (e = CEOFException -> GetLength f <= GetPosition f'))).

Definition yields {A} (m : IO F A) (P : A -> Prop) (E : exn -> Prop) : Prop :=
  forall f, file_ok f -> outcome m P E f.

Lemma yields_ret {A} (x : A) (P : A -> Prop) E : P x -> yields (io_ret x) P E.
Proof. intros Hx f Hf. exists f. split_and!; [done..|lia|]. left. by exists x. Qed.

Lemma yields_throw {A} (P : A -> Prop) (E : exn -> Prop) e :
  E e -> e <> CEOFException -> yields (io_throw e) P E.
Proof. intros He Hne f Hf. exists f. split_and!; [done..|lia|]. right. exists e. by split_and!. Qed.

Lemma length_kept f f' : file_ok f -> file_ok f' -> content f' = content f -> GetLength f' = GetLength f.
Proof.
  intros Hf Hf' C. destruct (law_content f Hf) as [_ ->], (law_content f' Hf') as [_ ->]. by rewrite C.
Qed.

(** After [f] has been stepped to [f1]. *)
Lemma outcome_step {A} (m : IO F A) P E f f1 : file_ok f -> file_ok f1 -> content f1 = content f ->
  GetPosition f <= GetPosition f1 -> outcome m P E f1 ->
  exists f', file_ok f' /\ content f' = content f /\ GetPosition f <= GetPosition f' /\
    ((exists x, m f1 = (inr x, f') /\ P x) \/
     (exists e, m f1 = (inl e, f') /\ E e /\ (e = CEOFException -> GetLength f <= GetPosition f'))).
Proof.
  intros Hf Hf1 C1 P1 (f2 & Hf2 & C2 & P2 & H). rewrite (length_kept f f1 Hf Hf1 C1) in H.
  exists f2. rewrite C2, C1. split_and!; [done..|lia|done].
Qed.

Lemma yields_bind {A B} (m : IO F A) (k : A -> IO F B) (P : A -> Prop) (Q : B -> Prop) E :
  yields m P E -> (forall x, P x -> yields (k x) Q E) -> yields (let! x := m in k x) Q E.
Proof.
  intros Hm Hk f Hf. unfold outcome, io_bind.
  destruct (Hm f Hf) as (f1 & Hf1 & C1 & P1 & [(x & -> & Hx)|(e & -> & He)]).
  - apply (outcome_step (k x) Q E f f1); auto. by apply Hk.
  - exists f1. split_and!; [done..|]. right. by exists e.
Qed.

Lemma yields_mono {A} (m : IO F A) (P Q : A -> Prop) (E E' : exn -> Prop) :
  yields m P E -> (forall x, P x -> Q x) -> (forall e, E e -> E' e) -> yields m Q E'.
Proof.
  intros Hm HP HE f Hf. destruct (Hm f Hf) as (f1 & ? & ? & ? & [(x & ? & ?)|(e & ? & ? & ?)]);
    exists f1; split_and!; try done; [left; exists x; auto|right; exists e; auto].
Qed.

Definition eof (e : exn) : Prop := e = CEOFException.

(** What follows a read goes on inside the file, or the end of the file is reported. *)
Lemma yields_then {A} n (k : list Z -> IO F A) P (E : exn -> Prop) : 0 < n < 2 ^ 31 -> E CEOFException ->
  (forall bs f, Forall is_byte bs -> Z.of_nat (length bs) = n -> file_ok f ->
     GetPosition f <= GetLength f -> outcome (k bs) P E f) ->
  yields (let! bs := Read n in k bs) P E.
Proof.
  intros Hn He Hk f Hf. destruct (law_content f Hf) as [HB HL]. destruct (law_position f Hf) as [HP _].
  unfold outcome, Read, io_bind. destruct (decide (GetPosition f + n <= GetLength f)) as [Hfit|Hfit].
  - destruct (law_read n f Hf ltac:(lia) (or_intror Hfit)) as (f' & -> & Hf' & C' & P'). cbn [fst snd].
    rewrite swrap_count, Z.eqb_refl by lia. cbn [io_ret].
    apply (outcome_step (k (take (Z.to_nat n) (drop (Z.to_nat (GetPosition f)) (content f)))) P E f f');
      try done; [lia|]. apply Hk; [by apply Forall_take, Forall_drop| |done|].
    + rewrite length_take, length_drop. lia.
    + rewrite (length_kept f f' Hf Hf' C'). lia.
  - destruct (law_short n f Hf ltac:(lia) ltac:(lia)) as (r & bytes & f' & -> & Hr & Hf' & C' & P' & P'').
    cbn [fst snd]. rewrite swrap_count, (proj2 (Z.eqb_neq r n)) by lia. unfold Eof.
    rewrite (length_kept f f' Hf Hf' C'), (proj2 (Z.geb_le _ _)) by lia.
    exists f'. split_and!; [done..|]. right. by exists CEOFException.
Qed.

(** A read either gets all the bytes it asked for or throws, at the end of the file. *)
Lemma yields_Read n : 0 <= n < 2 ^ 31 ->
  yields (Read n) (fun bs => Forall is_byte bs /\ Z.of_nat (length bs) = n) eof.
Proof.
  intros Hn f Hf. destruct (decide (n = 0)) as [->|Hne].
  - destruct (law_read 0 f Hf ltac:(lia) (or_introl eq_refl)) as (f' & E' & Hf' & C' & P').
    exists f'. split_and!; [done..|lia|]. left. eexists. unfold Read, io_bind. by rewrite E'.
  - destruct (yields_then n io_ret (fun bs => Forall is_byte bs /\ Z.of_nat (length bs) = n) eof
      ltac:(lia) eq_refl) with (f := f) as (f' & H1 & H2 & H3 & H4); [|done|].
    + intros bs f' Hb Hl Hf' _. by apply yields_ret.
    + exists f'. split_and!; [done..|]. destruct H4 as [(x & Ex & Hx)|(e & Ee & He)].
      * left. exists x. split; [|done]. revert Ex. unfold io_bind. by destruct (Read n f) as [[|] ?].
      * right. exists e. split; [|done]. revert Ee. unfold io_bind. by destruct (Read n f) as [[|] ?].
Qed.

(** *** Integers, identifiers and hashes *)

Lemma parses_int n v : in_width (8 * Z.of_nat n) v -> Z.of_nat n < 2 ^ 31 ->
  parses (let! b := Read (Z.of_nat n) in io_ret (peek_le b)) (poke_le n v) v.
Proof.
  intros Hv Hn. rewrite <- (peek_poke n v) at 2 by done. apply parses_map.
  rewrite <- (poke_le_length n v) at 1. apply parses_Read. by rewrite poke_le_length.
Qed.

Lemma parses_UInt8 v : in_width 8 v -> parses ReadUInt8 (poke_le 1 v) v.
Proof. intros. by apply (parses_int 1). Qed.

Lemma parses_UInt16 v : in_width 16 v -> parses ReadUInt16 (poke_le 2 v) v.
Proof. intros. by apply (parses_int 2). Qed.

Lemma parses_UInt32 v : in_width 32 v -> parses ReadUInt32 (poke_le 4 v) v.
Proof. intros. by apply (parses_int 4). Qed.

Lemma parses_UInt64 v : in_width 64 v -> parses ReadUInt64 (poke_le 8 v) v.
Proof. intros. by apply (parses_int 8). Qed.

Lemma writes_int n v : Z.of_nat n < 2 ^ 31 -> writes (Write (poke_le n v)) (poke_le n v) tt.
Proof. intros Hn. apply writes_Write; [apply poke_le_bytes|by rewrite poke_le_length]. Qed.

Lemma yields_int n : Z.of_nat n < 2 ^ 31 ->
  yields (let! b := Read (Z.of_nat n) in io_ret (peek_le b)) (in_width (8 * Z.of_nat n)) eof.
Proof.
  intros Hn. eapply yields_bind; [apply yields_Read; lia|]. intros b [Hb Hl]. apply yields_ret.
  rewrite <- Hl. by apply peek_le_range.
Qed.

Lemma yields_UInt8 : yields ReadUInt8 (in_width 8) eof.
Proof. by apply (yields_int 1). Qed.

Lemma yields_UInt16 : yields ReadUInt16 (in_width 16) eof.
Proof. by apply (yields_int 2). Qed.

Lemma yields_UInt32 : yields ReadUInt32 (in_width 32) eof.
Proof. by apply (yields_int 4). Qed.

Lemma yields_UInt64 : yields ReadUInt64 (in_width 64) eof.
Proof. by apply (yields_int 8). Qed.

(** The bytes of an identifier: its chunks from the most significant one. *)
Definition bytes128 (x : CUInt128) : list Z :=
  poke_le 4 (Get32BitChunk x 0) ++ poke_le 4 (Get32BitChunk x 1) ++
  poke_le 4 (Get32BitChunk x 2) ++ poke_le 4 (Get32BitChunk x 3).

Lemma parses_UInt128 x : wf_uint128 x -> parses ReadUInt128 (bytes128 x) x.
Proof.
  intros Hx. assert (forall i, in_width 32 (Get32BitChunk x i)) as Hc by (intros; by apply wf_Get32BitChunk).
  unfold ReadUInt128, bytes128. cbn [read_chunks].
  do 3 (eapply parses_bind; [apply parses_UInt32, Hc|]).
  rewrite <- (app_nil_r (poke_le 4 (Get32BitChunk x 3))).
  eapply parses_bind; [apply parses_UInt32, Hc|]. cbn. destruct x. apply parses_ret.
Qed.

Lemma writes_UInt128 x : writes (WriteUInt128 x) (bytes128 x) tt.
Proof.
  unfold WriteUInt128, bytes128. cbn [write_chunks].
  do 3 (eapply writes_bind; [by apply writes_int|]). eapply writes_last. by apply writes_int.
Qed.

Lemma yields_UInt128 : yields ReadUInt128 wf_uint128 eof.
Proof.
  unfold ReadUInt128. cbn [read_chunks].
  do 4 (eapply yields_bind; [apply yields_UInt32|]; intros ? ?). apply yields_ret.
  repeat (apply wf_Set32BitChunk; [|done]). by apply wf_of_uint32.
Qed.

Definition hash_ok (h : list Z) : Prop := Forall is_byte h /\ length h = 16%nat.

Lemma parses_Hash h : hash_ok h -> parses ReadHash h h.
Proof.
  intros [_ Hl]. unfold ReadHash, MD4HASH_LENGTH. replace 16 with (Z.of_nat (length h)) by lia.
  apply parses_Read. lia.
Qed.

Lemma writes_Hash h : hash_ok h -> writes (WriteHash h) h tt.
Proof. intros [Hb Hl]. apply writes_Write; [done|lia]. Qed.

Lemma yields_Hash : yields ReadHash hash_ok eof.
Proof.
  eapply yields_mono; [by apply yields_Read| |done]. intros h [Hb Hl]. split; [done|].
  unfold MD4HASH_LENGTH in Hl. lia.
Qed.

(** A block of at most 255 bytes behind its length. *)
Definition bytes_bsob (b : list Z) : list Z := poke_le 1 (Z.of_nat (length b)) ++ b.

Lemma parses_Bsob b : Z.of_nat (length b) < 256 -> parses ReadBsob (bytes_bsob b) b.
Proof.
  intros Hl. eapply parses_bind; [apply parses_UInt8; width_lia|]. apply parses_Read. lia.
Qed.

Lemma writes_Bsob b : Forall is_byte b -> Z.of_nat (length b) < 256 ->
  writes (WriteBsob b (Z.of_nat (length b))) (bytes_bsob b) tt.
Proof.
  intros Hb Hl. eapply writes_bind; [by apply writes_int|]. rewrite Nat2Z.id, take_ge by done.
  apply writes_Write; [done|lia].
Qed.

Lemma yields_Bsob : yields ReadBsob (fun b => Forall is_byte b /\ Z.of_nat (length b) < 256) eof.
Proof.
  eapply yields_bind; [apply yields_UInt8|]. intros n Hn.
  eapply yields_mono; [apply yields_Read; width_lia| |done]. intros b [Hb ->]. split; [done|width_lia].
Qed.

End Codec.

(** ** Strings *)

Section Strings.

Context {F : Type} {IOF : CFileDataIO F} {laws : FileLaws F} {conv : wxConv} {claws : wxConvLaws conv}.

#[local] Open Scope io_scope.

(** [b] is how [str] is stored with encoding [e], such that a reader with [bOptUTF8] gets it
    back: no NUL, no text that looks like a byte order mark, at most 65535 bytes. *)
Definition text_ok (e : EUtf8Str) (bOptUTF8 : bool) (str : wxString) (b : list Z) : Prop :=
  Forall (fun c => c <> 0) str /\ Z.of_nat (length b) <= 0xFFFF /\
  match e with
  | utf8strNone => Forall (fun c => 0 < c < 256) str /\ take 3 str <> BOMHeader /\
                   bOptUTF8 = false /\ b = str
  | utf8strRaw => utf8_str str = Some b /\ head str <> Some 0xFEFF /\ bOptUTF8 = true
  | utf8strOptBOM => exists u, utf8_str str = Some u /\ b = BOMHeader ++ u
  end.

(** The text the reader makes of the stored bytes. *)
Definition decode_string (bOptUTF8 : bool) (val : list Z) : wxString :=
  if CHECK_BOM (Z.of_nat (length val)) val then UTF82unicode (drop 3 val)
  else if bOptUTF8 then
    let str := UTF82unicode val in match str with [] => from_latin1 val | _ => str end
  else from_latin1 val.

Lemma c_str_id l : Forall (fun c => c <> 0) l -> c_str l = l.
Proof. induction 1 as [|c l Hc Hl IH]; [done|]. simpl. by rewrite (proj2 (Z.eqb_neq c 0)), IH. Qed.

Lemma utf8_decode s b : Forall (fun c => c <> 0) s -> utf8_str s = Some b -> UTF82unicode b = s.
Proof.
  intros Hs E. destruct (utf8_round s b Hs E) as (_ & Hb & <-). unfold UTF82unicode. by rewrite c_str_id.
Qed.

Lemma CHECK_BOM_take l : CHECK_BOM (Z.of_nat (length l)) l = bool_decide (take 3 l = BOMHeader).
Proof.
  unfold CHECK_BOM. destruct (decide (take 3 l = BOMHeader)) as [E|E].
  - rewrite bool_decide_true by done. apply (f_equal length) in E. rewrite length_take in E.
    change (length BOMHeader) with 3%nat in E. rewrite (proj2 (Z.geb_le _ _)) by lia. done.
  - rewrite bool_decide_false by done. apply andb_false_r.
Qed.

Lemma text_ok_decode e o str b : text_ok e o str b -> decode_string o b = str.
Proof.
  intros (Hs & _ & H). unfold decode_string. rewrite CHECK_BOM_take. destruct e.
  - destruct H as (Hc & Hne & -> & ->). rewrite bool_decide_false by done. apply from_latin1_ok.
    eapply Forall_impl; [exact Hc|]. unfold is_byte, in_width. simpl. lia.
  - destruct H as (u & Hu & ->). rewrite bool_decide_true by done. by apply utf8_decode.
  - destruct H as (Hu & Hne & ->). rewrite bool_decide_false by (intros Hm; by apply (utf8_mark str) in Hm).
    rewrite (utf8_decode str b) by done. destruct str; [|done].
    rewrite utf8_nil in Hu. injection Hu as <-. by apply from_latin1_ok.
Qed.

Lemma text_ok_bytes e o str b : text_ok e o str b -> Forall is_byte b.
Proof.
  intros (Hs & _ & H). destruct e.
  - destruct H as (Hc & _ & _ & ->). eapply Forall_impl; [exact Hc|]. unfold is_byte, in_width. simpl. lia.
  - destruct H as (u & Hu & ->). apply Forall_app. split; [|by apply (utf8_round str u)].
    by repeat constructor.
  - destruct H as (Hu & _). by apply (utf8_round str b).
Qed.

Lemma ReadOnlyString_decode o n : 0 <= n < 65536 ->
  ReadOnlyString o n = (let! val := Read n in
    io_ret (if CHECK_BOM n val then UTF82unicode (drop 3 val)
            else if o then let str := UTF82unicode val in match str with [] => from_latin1 val | _ => str end
            else from_latin1 val)).
Proof. intros Hn. unfold ReadOnlyString. rewrite wrap_small by (unfold in_width; lia). done. Qed.

Lemma parses_OnlyString o b : Z.of_nat (length b) <= 0xFFFF ->
  parses (ReadOnlyString o (Z.of_nat (length b))) b (decode_string o b).
Proof.
  intros Hl. rewrite ReadOnlyString_decode by lia.
  apply (parses_map (Read (Z.of_nat (length b))) (fun val =>
    if CHECK_BOM (Z.of_nat (length b)) val then UTF82unicode (drop 3 val)
    else if o then let str := UTF82unicode val in match str with [] => from_latin1 val | _ => str end
    else from_latin1 val) b b).
  apply parses_Read. lia.
Qed.

Lemma parses_String o safe SizeLen b : SizeLen = 2 \/ SizeLen = 4 -> Z.of_nat (length b) <= 0xFFFF ->
  parses (ReadString o SizeLen safe) (poke_le (Z.to_nat SizeLen) (Z.of_nat (length b)) ++ b)
    (decode_string o b).
Proof.
  intros HS Hl. unfold ReadString. eapply parses_bind.
  - destruct HS as [-> | ->]; [apply parses_UInt16|apply parses_UInt32]; width_lia.
  - intros f rest Hf Hp E. destruct (parses_at f b rest Hf Hp E) as [HL _].
    assert ((if safe then Z.min (Z.of_nat (length b)) (u64 (GetLength f - GetPosition f))
             else Z.of_nat (length b)) = Z.of_nat (length b)) as ->.
    { destruct safe; [|done]. pose proof (law_position f Hf). rewrite wrap_small by width_lia. lia. }
    by apply (parses_OnlyString o b Hl f rest).
Qed.

Lemma writes_if (c : bool) (m : IO F unit) bs : (c = true -> bs = []) -> (c = false -> writes m bs tt) ->
  writes (if c then io_ret tt else m) bs tt.
Proof. intros H1 H2. destruct c; [rewrite H1 by done; apply writes_ret|auto]. Qed.

Lemma writes_tail b : Forall is_byte b -> Z.of_nat (length b) <= 0xFFFF ->
  writes (if Z.of_nat (length b) =? 0 then io_ret tt
          else Write (take (Z.to_nat (Z.of_nat (length b))) b)) b tt.
Proof.
  intros Hb Hl. apply writes_if.
  - intros E. apply Z.eqb_eq in E. destruct b; [done|simpl in E; lia].
  - intros _. rewrite Nat2Z.id, take_ge by done. apply writes_Write; [done|lia].
Qed.

Lemma writes_length SizeLen n : SizeLen = 0 \/ SizeLen = 2 \/ SizeLen = 4 ->
  writes (if SizeLen =? 0 then io_ret tt else if SizeLen =? 2 then WriteUInt16 n
          else if SizeLen =? 4 then WriteUInt32 n else io_throw CInvalidParamsEx)
    (poke_le (Z.to_nat SizeLen) n) tt.
Proof. intros [-> | [-> | ->]]; [apply writes_ret|by apply writes_int..]. Qed.

Lemma writes_StringCore b (bom : bool) SizeLen : SizeLen = 0 \/ SizeLen = 2 \/ SizeLen = 4 ->
  Forall is_byte b -> Forall (fun c => c <> 0) b ->
  let all := (if bom then BOMHeader else []) ++ b in
  Z.of_nat (length all) <= 0xFFFF -> forall e, (bom = true <-> e = utf8strOptBOM) ->
  writes (WriteStringCore (Some b) e SizeLen)
    (poke_le (Z.to_nat SizeLen) (Z.of_nat (length all)) ++ all) tt.
Proof.
  intros HS Hb Hn all Hl e He. subst all. rewrite length_app in *. unfold WriteStringCore.
  assert (strlen (Some b) = Z.of_nat (length b)) as -> by (unfold strlen; by rewrite c_str_id).
  assert (match e with utf8strOptBOM => true | _ => false end = bom) as ->.
  { destruct e, bom; try done; [by (destruct He as [H _]; specialize (H eq_refl))|
      by (destruct He as [_ H]; specialize (H eq_refl))|by (destruct He as [H _]; specialize (H eq_refl))]. }
  rewrite (wrap_small 32 (Z.of_nat (length b))) by width_lia.
  assert ((if bom then u32 (Z.of_nat (length b) + 3) else Z.of_nat (length b)) =
    Z.of_nat (length (if bom then BOMHeader else []) + length b)) as ->.
  { destruct bom; simpl in *; [rewrite wrap_small by width_lia|]; lia. }
  rewrite (Z.gtb_ltb _ 0xFFFF), (proj2 (Z.ltb_ge 0xFFFF _)), andb_false_r by lia. simpl.
  eapply writes_bind; [by apply writes_length|]. eapply writes_bind.
  - instantiate (1 := tt). destruct bom; [apply writes_Write; [by repeat constructor|simpl; lia]|apply writes_ret].
  - apply writes_tail; [done|lia].
Qed.

Lemma writes_String e o str b SizeLen : SizeLen = 0 \/ SizeLen = 2 \/ SizeLen = 4 -> text_ok e o str b ->
  writes (WriteString str e SizeLen) (poke_le (Z.to_nat SizeLen) (Z.of_nat (length b)) ++ b) tt.
Proof.
  intros HS Ht. pose proof (text_ok_bytes e o str b Ht) as Hb. destruct Ht as (Hs & Hl & H). destruct e.
  - destruct H as (Hc & _ & _ & ->). unfold WriteString. rewrite (latin1_ok str Hc).
    by apply (writes_StringCore str false).
  - destruct H as (u & Hu & ->). unfold WriteString. rewrite Hu.
    destruct (utf8_round str u Hs Hu) as (B & Z & _). by apply (writes_StringCore u true).
  - destruct H as (Hu & _). unfold WriteString. rewrite Hu.
    destruct (utf8_round str b Hs Hu) as (B & Z & _). by apply (writes_StringCore b false).
Qed.

Lemma yields_OnlyString o n : yields (ReadOnlyString o n) (fun _ => True) eof.
Proof.
  eapply yields_bind; [apply yields_Read; pose proof (wrap_range 16 n); width_lia|].
  intros b Hb. by apply yields_ret.
Qed.

Lemma yields_String o safe : yields (ReadString o 2 safe) (fun _ => True) eof.
Proof.
  eapply yields_bind; [apply yields_UInt16|]. intros n Hn f Hf. by apply yields_OnlyString.
Qed.

End Strings.

(** ** Sequences of typed values *)

Inductive shape :=
| SUInt8 | SUInt16 | SUInt32 | SUInt64 | SUInt128 | SHash | SFloat | SBsob
| SString (e : EUtf8Str) (SizeLen : Z).

Inductive item :=
| IUInt8 (v : Z) | IUInt16 (v : Z) | IUInt32 (v : Z) | IUInt64 (v : Z) | IUInt128 (v : CUInt128)
| IHash (h : list Z) | IFloat (v : Z) | IBsob (b : list Z) | IString (s : wxString).

Section Items.

Context {F : Type} {IOF : CFileDataIO F} {laws : FileLaws F} {conv : wxConv} {claws : wxConvLaws conv}.

#[local] Open Scope io_scope.

Definition reads_utf8 (e : EUtf8Str) : bool := match e with utf8strNone => false | _ => true end.

Definition read_item (s : shape) : IO F item :=
  match s with
  | SUInt8 => let! v := ReadUInt8 in io_ret (IUInt8 v)
  | SUInt16 => let! v := ReadUInt16 in io_ret (IUInt16 v)
  | SUInt32 => let! v := ReadUInt32 in io_ret (IUInt32 v)
  | SUInt64 => let! v := ReadUInt64 in io_ret (IUInt64 v)
  | SUInt128 => let! v := ReadUInt128 in io_ret (IUInt128 v)
  | SHash => let! v := ReadHash in io_ret (IHash v)
  | SFloat => let! v := ReadFloat in io_ret (IFloat v)
  | SBsob => let! v := ReadBsob in io_ret (IBsob v)
  | SString e n => let! v := ReadString (reads_utf8 e) n false in io_ret (IString v)
  end.

Definition write_item (s : shape) (i : item) : IO F unit :=
  match s, i with
  | SUInt8, IUInt8 v => WriteUInt8 v
  | SUInt16, IUInt16 v => WriteUInt16 v
  | SUInt32, IUInt32 v => WriteUInt32 v
  | SUInt64, IUInt64 v => WriteUInt64 v
  | SUInt128, IUInt128 v => WriteUInt128 v
  | SHash, IHash h => WriteHash h
  | SFloat, IFloat v => WriteFloat v
  | SBsob, IBsob b => WriteBsob b (Z.of_nat (length b))
  | SString e n, IString s => WriteString s e n
  | _, _ => io_throw CInvalidParamsEx
  end.

Fixpoint read_items (l : list shape) : IO F (list item) :=
  match l with
  | [] => io_ret []
  | s :: l => let! i := read_item s in let! r := read_items l in io_ret (i :: r)
  end.

Fixpoint write_items (l : list (shape * item)) : IO F unit :=
  match l with
  | [] => io_ret tt
  | (s, i) :: l => seq! write_item s i in write_items l
  end.

(** The item fits its shape, and is stored as [b]. *)
Definition item_bytes (s : shape) (i : item) (b : list Z) : Prop :=
  match s, i with
  | SUInt8, IUInt8 v => in_width 8 v /\ b = poke_le 1 v
  | SUInt16, IUInt16 v => in_width 16 v /\ b = poke_le 2 v
  | SUInt32, IUInt32 v | SFloat, IFloat v => in_width 32 v /\ b = poke_le 4 v
  | SUInt64, IUInt64 v => in_width 64 v /\ b = poke_le 8 v
  | SUInt128, IUInt128 v => wf_uint128 v /\ b = bytes128 v
  | SHash, IHash h => hash_ok h /\ b = h
  | SBsob, IBsob c => Forall is_byte c /\ Z.of_nat (length c) < 256 /\ b = bytes_bsob c
  | SString e n, IString s => (n = 2 \/ n = 4) /\ exists t, text_ok e (reads_utf8 e) s t /\
      b = poke_le (Z.to_nat n) (Z.of_nat (length t)) ++ t
  | _, _ => False
  end.

(** What a successful read gives. *)
Definition item_ok (s : shape) (i : item) : Prop :=
  match s, i with
  | SUInt8, IUInt8 v => in_width 8 v
  | SUInt16, IUInt16 v => in_width 16 v
  | SUInt32, IUInt32 v | SFloat, IFloat v => in_width 32 v
  | SUInt64, IUInt64 v => in_width 64 v
  | SUInt128, IUInt128 v => wf_uint128 v
  | SHash, IHash h => hash_ok h
  | SBsob, IBsob c => Forall is_byte c /\ Z.of_nat (length c) < 256
  | SString _ _, IString s => True
  | _, _ => False
  end.

Lemma read_item_parses s i b : item_bytes s i b -> parses (read_item s) b i.
Proof.
  destruct s, i; cbn [item_bytes read_item]; try done; intros H;
    [destruct H as [H ->]; eapply parses_map..|destruct H as (Hc & Hl & ->); eapply parses_map|].
  - by apply parses_UInt8.
  - by apply parses_UInt16.
  - by apply parses_UInt32.
  - by apply parses_UInt64.
  - by apply parses_UInt128.
  - by apply parses_Hash.
  - by apply (parses_int 4).
  - by apply parses_Bsob.
  - destruct H as (Hn & t & Ht & ->). apply (parses_map _ IString).
    rewrite <- (text_ok_decode _ _ _ _ Ht). apply parses_String; [done|]. by destruct Ht as (_ & ? & _).
Qed.

Lemma write_item_writes s i b : item_bytes s i b -> writes (write_item s i) b tt.
Proof.
  destruct s, i; cbn [item_bytes write_item]; try done; intros H;
    [destruct H as [H ->]..|destruct H as (Hc & Hl & ->)|].
  - by apply writes_int.
  - by apply writes_int.
  - by apply writes_int.
  - by apply writes_int.
  - apply writes_UInt128.
  - by apply writes_Hash.
  - by apply writes_int.
  - by apply writes_Bsob.
  - destruct H as (Hn & t & Ht & ->). eapply writes_String; [|done]. tauto.
Qed.

Lemma read_items_parses l bs : Forall2 (fun p b => item_bytes p.1 p.2 b) l bs ->
  parses (read_items (map fst l)) (concat bs) (map snd l).
Proof.
  induction 1 as [|[s i] b l bs Hb _ IH]; simpl; [apply parses_ret|].
  eapply parses_bind; [by apply read_item_parses|].
  apply (parses_map _ (cons i)), IH.
Qed.

Lemma write_items_writes l bs : Forall2 (fun p b => item_bytes p.1 p.2 b) l bs ->
  writes (write_items l) (concat bs) tt.
Proof.
  induction 1 as [|[s i] b l bs Hb _ IH]; simpl; [apply writes_ret|].
  eapply writes_bind; [by apply write_item_writes|done].
Qed.

Lemma yields_read_item s : match s with SString _ n => n = 2 \/ n = 4 | _ => True end ->
  yields (read_item s) (item_ok s) eof.
Proof.
  assert (forall A (m : IO F A) (P : A -> Prop) (g : A -> item), yields m P eof ->
    (forall x, P x -> item_ok s (g x)) -> yields (let! v := m in io_ret (g v)) (item_ok s) eof) as Hmap.
  { intros A m P g Hm Hg. eapply yields_bind; [done|]. intros x Hx. apply yields_ret. auto. }
  destruct s; intros Hs; (eapply Hmap; [|cbn [item_ok]; by intros x Hx; try exact Hx]).
  - apply yields_UInt8.
  - apply yields_UInt16.
  - apply yields_UInt32.
  - apply yields_UInt64.
  - apply yields_UInt128.
  - apply yields_Hash.
  - by apply (yields_int 4).
  - apply yields_Bsob.
  - unfold ReadString. destruct Hs as [-> | ->]; simpl.
    + eapply yields_bind; [apply yields_UInt16|]. intros n Hn f Hf. by apply yields_OnlyString.
    + eapply yields_bind; [apply yields_UInt32|]. intros n Hn f Hf. by apply yields_OnlyString.
Qed.

(** A text of 65536 bytes or more behind a 32-bit length: only its length modulo 65536 is read,
    as the length goes through a [uint16] argument; the rest is left in the file. *)
Lemma ReadString_cuts_long_text o b : 65536 <= Z.of_nat (length b) < 2 ^ 32 ->
  let n := Z.to_nat (Z.of_nat (length b) mod 65536) in
  parses (ReadString o 4 false) (poke_le 4 (Z.of_nat (length b)) ++ take n b) (decode_string o (take n b)).
Proof.
  intros Hl n. unfold ReadString. eapply parses_bind; [apply parses_UInt32; width_lia|].
  assert (Z.of_nat (length (take n b)) = Z.of_nat (length b) mod 65536) as En
    by (rewrite length_take; subst n; lia).
  assert (ReadOnlyString o (Z.of_nat (length b)) =
          ReadOnlyString (F := F) o (Z.of_nat (length (take n b)))) as ->.
  { unfold ReadOnlyString. rewrite En. unfold wrap. change (2 ^ 16) with 65536. by rewrite Zmod_mod. }
  intros f rest. apply parses_OnlyString. lia.
Qed.

End Items.
