(* ===== verification/ECSocket.v ===== *)
(** * Numbers of the external control protocol ([libs/ec/cpp/ECSocket.cpp])

    The body of a packet as a string of bytes: fixed-size big-endian numbers, or numbers in the
    original UTF-8 of up to six bytes when both ends set [EC_FLAG_UTF8_NUMBERS].  Sockets,
    compression and sealing are below this interface. *)
From S2P Require Import Prelude StdMap UInt128 NetworkFunctions DataIO.

(** The two flags of a packet that shape its body. *)
Record ec_flags := mkFlags { EC_FLAG_UTF8_NUMBERS : bool; EC_FLAG_LARGE_TAG_COUNT : bool }.

Record utf8_row := mkRow { cmask : Z; cval : Z; shift : Z; lmask : Z; lval : Z }.

Definition utf8_table : list utf8_row :=
  [mkRow 0x80 0x00 0 0x7F 0; mkRow 0xE0 0xC0 6 0x7FF 0x80; mkRow 0xF0 0xE0 12 0xFFFF 0x800;
   mkRow 0xF8 0xF0 18 0x1FFFFF 0x10000; mkRow 0xFC 0xF8 24 0x3FFFFFF 0x200000;
   mkRow 0xFE 0xFC 30 0x7FFFFFFF 0x4000000].

(** The loop over the table: [s] is what follows the bytes taken so far, [nc] their number. *)
Fixpoint mbtowc_loop (t : list utf8_row) (c0 l : Z) (s : list Z) (nc n : Z) : option (Z * Z) :=
  match t with
  | [] => None
  | row :: t =>
      let nc := nc + 1 in
      if Z.land c0 (cmask row) =? cval row then
        let l := Z.land l (lmask row) in
        if l <? lval row then None else Some (l, nc)
      else if n <=? nc then None
      else
        match s with
        | [] => None
        | b :: s =>
            let c := Z.land (Z.lxor b 0x80) 0xFF in
            if negb (Z.land c 0xC0 =? 0) then None
            else mbtowc_loop t c0 (Z.lor (u32 (Z.shiftl l 6)) c) s nc n
        end
  end.

(** The code point and the number of bytes, [None] for -1. *)
Definition utf8_mbtowc (s : list Z) (n : Z) : option (Z * Z) :=
  match s with
  | [] => None
  | c0 :: s => mbtowc_loop utf8_table c0 c0 s 0 n
  end.

(** The bytes behind the first, [k] of them to come. *)
Fixpoint tail_bytes (k : nat) (l : Z) : list Z :=
  match k with
  | O => []
  | S k => Z.lor 0x80 (Z.land (Z.shiftr l (6 * Z.of_nat k)) 0x3F) :: tail_bytes k l
  end.

Fixpoint wctomb_loop (t : list utf8_row) (l maxlen : Z) : option (list Z) :=
  match t with
  | [] => None
  | row :: t =>
      if maxlen =? 0 then None
      else if l <=? lmask row then
        Some (u8 (Z.lor (cval row) (Z.shiftr l (shift row))) :: tail_bytes (Z.to_nat (shift row / 6)) l)
      else wctomb_loop t l (maxlen - 1)
  end.

Definition utf8_wctomb (wc maxlen : Z) : option (list Z) := wctomb_loop utf8_table wc maxlen.

(** The number of bytes that follow a first byte. *)
Fixpoint mb_remain_loop (i : nat) (t : list utf8_row) (c : Z) : nat :=
  match i, t with
  | S i, row :: t => if Z.land c (cmask row) =? cval row then O else S (mb_remain_loop i t c)
  | _, _ => O
  end.

Definition utf8_mb_remain (c : Z) : nat := mb_remain_loop 5 utf8_table c.

(** [None] when fewer bytes are left. *)
Definition ReadBuffer (len : Z) (bs : list Z) : option (list Z * list Z) :=
  if Z.of_nat (length bs) <? len then None else Some (take (Z.to_nat len) bs, drop (Z.to_nat len) bs).

Fixpoint peek_be (l : list Z) : Z :=
  match l with [] => 0 | b :: t => b * 2 ^ (8 * Z.of_nat (length t)) + peek_be t end.

Fixpoint poke_be (n : nat) (v : Z) : list Z :=
  match n with O => [] | S n => (v / 2 ^ (8 * Z.of_nat n)) mod 256 :: poke_be n v end.

Definition ReadNumber (flags : ec_flags) (len : Z) (bs : list Z) : option (Z * list Z) :=
  if EC_FLAG_UTF8_NUMBERS flags then
    match ReadBuffer 1 bs with
    | None => None
    | Some (first, bs) =>
        match ReadBuffer (Z.of_nat (utf8_mb_remain (hd 0 first))) bs with
        | None => None
        | Some (more, bs) =>
            match utf8_mbtowc (first ++ more) 6 with
            | None => None
            | Some (wc, _) => Some (wrap (8 * len) wc, bs)
            end
        end
    end
  else
    match ReadBuffer len bs with
    | None => None
    | Some (b, bs) => Some (peek_be b, bs)
    end.

Definition WriteNumber (flags : ec_flags) (len v : Z) : option (list Z) :=
  if EC_FLAG_UTF8_NUMBERS flags then utf8_wctomb v 6 else Some (poke_be (Z.to_nat len) v).

(** ** The codec of numbers *)

Lemma tail_bytes_length k l : length (tail_bytes k l) = k.
Proof. induction k; simpl; congruence. Qed.

(** What the decoder makes of a continuation byte. *)
Lemma continuation_byte x : 0 <= x < 64 ->
  Z.land (Z.lxor (Z.lor 0x80 x) 0x80) 0xFF = x /\ Z.land x 0xC0 = 0.
Proof.
  intros Hx. assert (forallb (fun x => (Z.land (Z.lxor (Z.lor 0x80 x) 0x80) 0xFF =? x) && (Z.land x 0xC0 =? 0)) (seqZ 0 64) = true)
    as Hall by (vm_compute; reflexivity).
  rewrite forallb_forall in Hall. specialize (Hall x). rewrite andb_true_iff, !Z.eqb_eq in Hall.
  apply Hall, list_elem_of_In, elem_of_seqZ. lia.
Qed.

(** Numbers in base 64, the most significant digit first. *)
Fixpoint be64 (xs : list Z) : Z :=
  match xs with [] => 0 | x :: xs => x * 64 ^ Z.of_nat (length xs) + be64 xs end.

Fixpoint digits (k : nat) (l : Z) : list Z :=
  match k with O => [] | S k => (l / 64 ^ Z.of_nat k) mod 64 :: digits k l end.

Definition digit (x : Z) : Prop := 0 <= x < 64.

Lemma digits_length k l : length (digits k l) = k.
Proof. induction k; simpl; congruence. Qed.

Lemma digits_digit k l : Forall digit (digits k l).
Proof. induction k; simpl; constructor; [unfold digit; apply Z.mod_pos_bound; lia|done]. Qed.

Lemma pow64_pos k : 0 < 64 ^ Z.of_nat k.
Proof. apply Z.pow_pos_nonneg; lia. Qed.

Lemma pow64_S k : 64 ^ Z.of_nat (S k) = 64 * 64 ^ Z.of_nat k.
Proof. rewrite Nat2Z.inj_succ, Z.pow_succ_r; lia. Qed.

Lemma be64_range xs : Forall digit xs -> 0 <= be64 xs < 64 ^ Z.of_nat (length xs).
Proof.
  induction 1 as [|x xs Hx _ IH]; [simpl; lia|].
  cbn [be64 length]. rewrite pow64_S. unfold digit in *. nia.
Qed.

Lemma be64_digits k l : be64 (digits k l) = l mod 64 ^ Z.of_nat k.
Proof.
  induction k as [|k IH]; cbn [be64 digits]; [by rewrite Z.mod_1_r|].
  rewrite IH, digits_length, pow64_S, (Z.mul_comm 64). pose proof (pow64_pos k).
  rewrite Z.rem_mul_r by lia. lia.
Qed.

Lemma digits_be64 y xs : Forall digit xs -> digits (length xs) (y * 64 ^ Z.of_nat (length xs) + be64 xs) = xs.
Proof.
  intros H. revert y. induction H as [|x xs Hx Hxs IH]; intros y; [done|].
  cbn [be64 length digits]. rewrite pow64_S. pose proof (be64_range _ Hxs) as Hr. pose proof (pow64_pos (length xs)) as Hp.
  set (p := 64 ^ Z.of_nat (length xs)) in *.
  replace (y * (64 * p) + (x * p + be64 xs)) with ((y * 64 + x) * p + be64 xs) by ring.
  f_equal; [|apply IH]. rewrite Z.div_add_l, Z.div_small by lia. unfold digit in Hx.
  rewrite Z.add_0_r, Z.add_comm, Z.mod_add, Z.mod_small; lia.
Qed.

(** The bytes behind the first are the digits, marked. *)
Lemma tail_bytes_digits k l : 0 <= l -> tail_bytes k l = map (Z.lor 0x80) (digits k l).
Proof.
  intros Hl. induction k as [|k IH]; cbn [tail_bytes digits map]; [done|]. rewrite IH. do 2 f_equal.
  change 0x3F with (Z.ones 6). rewrite Z.land_ones by lia. rewrite Z.shiftr_div_pow2 by lia.
  change 64 with (2 ^ 6) at 1. rewrite <- Z.pow_mul_r by lia. done.
Qed.

(** ** First bytes: row [k] has [payload k] bits of the number in its first byte *)

Definition payload (k : nat) : Z := match k with O => 7 | _ => 6 - Z.of_nat k end.

Definition row_at (k : nat) : utf8_row := nth k utf8_table (mkRow 0 0 0 0 0).

Definition matches (r : utf8_row) (c0 : Z) : bool := Z.land c0 (cmask r) =? cval r.

Definition first_byte_ok (k : nat) (y : Z) : bool :=
  let c0 := cval (row_at k) + y in
  matches (row_at k) c0 && forallb (fun r => negb (matches r c0)) (take k utf8_table) &&
  (utf8_mb_remain c0 =? k)%nat && (u8 (Z.lor (cval (row_at k)) y) =? c0) && (0 <=? c0) && (c0 <? 256).

Lemma first_byte k y : (k < 6)%nat -> 0 <= y < 2 ^ payload k -> first_byte_ok k y = true.
Proof.
  intros Hk Hy.
  assert (forallb (fun k => forallb (first_byte_ok k) (seqZ 0 (2 ^ payload k))) (seq 0 6) = true) as H by (vm_compute; reflexivity).
  rewrite forallb_forall in H. specialize (H k ltac:(apply in_seq; lia)).
  rewrite forallb_forall in H. apply H, list_elem_of_In, elem_of_seqZ. lia.
Qed.

Lemma matches_payload k c0 : (k < 6)%nat -> is_byte c0 -> matches (row_at k) c0 = true ->
  0 <= c0 - cval (row_at k) < 2 ^ payload k.
Proof.
  intros Hk Hc Hm.
  assert (forallb (fun k => forallb (fun c => negb (matches (row_at k) c) ||
    ((0 <=? c - cval (row_at k)) && (c - cval (row_at k) <? 2 ^ payload k))) (seqZ 0 256)) (seq 0 6) = true) as H
    by (vm_compute; reflexivity).
  rewrite forallb_forall in H. specialize (H k ltac:(apply in_seq; lia)).
  rewrite forallb_forall in H. specialize (H c0 ltac:(apply list_elem_of_In, elem_of_seqZ; unfold is_byte, in_width in Hc; lia)).
  rewrite Hm in H. simpl in H. apply andb_prop in H as [H1 H2]. lia.
Qed.

(** ** The loop of the decoder *)

(** The accumulated number is kept modulo 2^32. *)
Lemma shift_in l x : digit x -> Z.lor (u32 (Z.shiftl l 6)) x = u32 (l * 64 + x).
Proof.
  intros Hx. unfold digit in Hx.
  assert (u32 (Z.shiftl l 6) = Z.shiftl (l mod 2 ^ 26) 6) as ->.
  { unfold wrap. rewrite !Z.shiftl_mul_pow2 by lia. change (2 ^ 32) with (2 ^ 26 * 2 ^ 6). by rewrite Z.mul_mod_distr_r. }
  rewrite Z.lor_comm, lor_shiftl_add by (unfold in_width; lia). unfold wrap.
  change (2 ^ 32) with (2 ^ 6 * 2 ^ 26). rewrite Z.rem_mul_r by lia. change (2 ^ 6) with 64.
  rewrite Z.div_add_l, (Z.div_small x) by lia.
  rewrite (Z.add_comm (l * 64)), Z.mod_add, (Z.mod_small x) by lia. by rewrite Z.add_0_r.
Qed.

(** One continuation byte. *)
Lemma continuation x : digit x ->
  Z.land (Z.lxor (Z.lor 0x80 x) 0x80) 0xFF = x /\ (Z.land x 0xC0 =? 0) = true /\ is_byte (Z.lor 0x80 x).
Proof.
  intros Hx. destruct (continuation_byte x Hx) as [-> ->].
  split; [done|]. split; [done|]. apply lor_in_width; unfold in_width, digit in *; lia.
Qed.

Lemma continuation_inv b : is_byte b -> let c := Z.land (Z.lxor b 0x80) 0xFF in
  Z.land c 0xC0 = 0 -> digit c /\ b = Z.lor 0x80 c.
Proof.
  intros Hb c Hc.
  assert (forallb (fun b => let c := Z.land (Z.lxor b 0x80) 0xFF in negb (Z.land c 0xC0 =? 0) ||
    ((0 <=? c) && (c <? 64) && (b =? Z.lor 0x80 c))) (seqZ 0 256) = true) as H by (vm_compute; reflexivity).
  rewrite forallb_forall in H. specialize (H b ltac:(apply list_elem_of_In, elem_of_seqZ; unfold is_byte, in_width in Hb; lia)).
  fold c in H. cbv zeta in H. rewrite Hc in H. simpl in H. unfold digit. bool_facts. lia.
Qed.

Definition shifted (l : Z) (xs : list Z) : Z := u32 (l * 64 ^ Z.of_nat (length xs) + be64 xs).

Lemma shifted_cons l x xs : shifted (u32 (l * 64 + x)) xs = shifted l (x :: xs).
Proof.
  unfold shifted, wrap. cbn [be64 length]. rewrite pow64_S.
  rewrite Z.add_mod, Z.mul_mod_idemp_l, <- Z.add_mod by lia. f_equal. ring.
Qed.

(** The rows before the one that matches each take a continuation byte. *)
Lemma mbtowc_loop_rows rows row rest c0 xs more nc n : forall l,
  forallb (fun r => negb (matches r c0)) rows = true -> matches row c0 = true ->
  Forall digit xs -> length xs = length rows -> in_width 32 l -> nc + Z.of_nat (length rows) < n ->
  mbtowc_loop (rows ++ row :: rest) c0 l (map (Z.lor 0x80) xs ++ more) nc n =
    let l := Z.land (shifted l xs) (lmask row) in
    if l <? lval row then None else Some (l, nc + Z.of_nat (length rows) + 1).
Proof.
  revert xs nc. induction rows as [|r rows IH]; intros xs nc l Hr Hm Hx Hl Hw Hn.
  - destruct xs; [|done]. cbn [app mbtowc_loop length]. unfold matches in Hm. rewrite Hm.
    replace (shifted l []) with l by (unfold shifted; simpl; rewrite Z.mul_1_r, Z.add_0_r; symmetry; by apply wrap_small).
    simpl. by rewrite Z.add_0_r.
  - destruct xs as [|x xs]; [done|]. simpl in Hr. apply andb_prop in Hr as [Hr0 Hr].
    apply Forall_cons in Hx as [Hx0 Hx]. cbn [length] in *.
    cbn [app map mbtowc_loop]. apply negb_true_iff in Hr0. unfold matches in Hr0. rewrite Hr0.
    rewrite (proj2 (Z.leb_gt _ _)) by lia. destruct (continuation x Hx0) as (-> & -> & _). cbn [negb].
    rewrite shift_in by done. rewrite (IH xs (nc + 1)); try done; try lia.
    + rewrite shifted_cons. cbv zeta. destruct (_ <? _); [done|]. do 2 f_equal. lia.
    + apply wrap_range. lia.
Qed.

(** What the decoder accepts: the first row that matches, behind as many continuation bytes. *)
Lemma mbtowc_loop_inv rows c0 n : forall nc l s v m, Forall is_byte s -> in_width 32 l ->
  mbtowc_loop rows c0 l s nc n = Some (v, m) ->
  exists before row after xs more, rows = before ++ row :: after /\ s = map (Z.lor 0x80) xs ++ more /\
    forallb (fun r => negb (matches r c0)) before = true /\ matches row c0 = true /\
    Forall digit xs /\ length xs = length before /\
    v = Z.land (shifted l xs) (lmask row) /\ lval row <= v.
Proof.
  induction rows as [|r rows IH]; intros nc l s v m Hs Hl H; [done|].
  cbn [mbtowc_loop] in H. destruct (Z.land c0 (cmask r) =? cval r) eqn:Em.
  - destruct (Z.ltb_spec (Z.land l (lmask r)) (lval r)); [done|]. injection H as <- _.
    exists [], r, rows, [], s. unfold shifted. simpl. rewrite Z.mul_1_r, Z.add_0_r, (wrap_small 32) by done.
    by repeat split.
  - destruct (n <=? nc + 1); [done|]. destruct s as [|b s]; [done|].
    apply Forall_cons in Hs as [Hb Hs].
    destruct (Z.eqb_spec (Z.land (Z.land (Z.lxor b 0x80) 0xFF) 0xC0) 0) as [Ec|]; [|done]. cbn [negb] in H.
    destruct (continuation_inv b Hb Ec) as [Hd Eb]. rewrite shift_in in H by done.
    apply IH in H as (before & row & after & xs & more & -> & -> & Hbef & Hm & Hx & Hlen & -> & Hv); [|done|by apply wrap_range].
    exists (r :: before), row, after, (Z.land (Z.lxor b 0x80) 0xFF :: xs), more.
    rewrite shifted_cons in *. split; [done|]. split; [cbn [map app]; by rewrite <- Eb|].
    split; [cbn [forallb]; unfold matches at 1; by rewrite Em|]. split; [done|].
    split; [by constructor|]. split; [cbn [length]; lia|]. done.
Qed.

(** ** Rows and ranges *)

Lemma table_split k : (k < 6)%nat -> utf8_table = take k utf8_table ++ row_at k :: drop (S k) utf8_table.
Proof. intros Hk. do 6 (destruct k as [|k]; [reflexivity|]). lia. Qed.

(** A number of row [k], its first byte and the rest. *)
Definition in_row (k : nat) (v : Z) : Prop := lval (row_at k) <= v <= lmask (row_at k).

Lemma row_facts k : (k < 6)%nat ->
  lmask (row_at k) = 2 ^ payload k * 64 ^ Z.of_nat k - 1 /\ 0 <= lval (row_at k) /\
  (exists q, cval (row_at k) * 64 ^ Z.of_nat k = q * (2 ^ payload k * 64 ^ Z.of_nat k)) /\
  (exists q, 2 ^ 32 = q * (2 ^ payload k * 64 ^ Z.of_nat k)) /\
  shift (row_at k) = 6 * Z.of_nat k /\ 0 < 2 ^ payload k.
Proof.
  intros Hk. set (M := 2 ^ payload k * 64 ^ Z.of_nat k).
  assert (cval (row_at k) * 64 ^ Z.of_nat k = (cval (row_at k) * 64 ^ Z.of_nat k / M) * M /\ 2 ^ 32 = (2 ^ 32 / M) * M) as [E1 E2].
  { subst M. do 6 (destruct k as [|k]; [split; vm_compute; reflexivity|]). lia. }
  split; [|split; [|split; [by eexists|split; [by eexists|]]]]; subst M; clear E1 E2;
    do 6 (destruct k as [|k]; [repeat split; vm_compute; (reflexivity || discriminate)|]); lia.
Qed.

Lemma row_unique j k v : (j < k)%nat -> (k < 6)%nat -> in_row k v -> lmask (row_at j) < v.
Proof.
  unfold in_row. intros Hj Hk.
  do 6 (destruct k as [|k]; [try lia; do 5 (destruct j as [|j]; [simpl; lia|]); lia|]). lia.
Qed.

Lemma row_exists v : 0 <= v < 2 ^ 31 -> exists k, (k < 6)%nat /\ in_row k v.
Proof.
  intros Hv. unfold in_row. change (2 ^ 31) with 0x80000000 in Hv.
  destruct (Z.leb_spec v 0x7F); [exists 0%nat; simpl; lia|]. destruct (Z.leb_spec v 0x7FF); [exists 1%nat; simpl; lia|].
  destruct (Z.leb_spec v 0xFFFF); [exists 2%nat; simpl; lia|]. destruct (Z.leb_spec v 0x1FFFFF); [exists 3%nat; simpl; lia|].
  destruct (Z.leb_spec v 0x3FFFFFF); [exists 4%nat; simpl; lia|]. exists 5%nat. simpl. lia.
Qed.

(** What the accumulated number is when the first byte is [cval + y]. *)
Lemma shifted_value k y xs : (k < 6)%nat -> 0 <= y < 2 ^ payload k -> Forall digit xs -> length xs = k ->
  Z.land (shifted (cval (row_at k) + y) xs) (lmask (row_at k)) = y * 64 ^ Z.of_nat k + be64 xs.
Proof.
  intros Hk Hy Hx Hl. pose proof (row_facts k Hk) as (-> & _ & [q Eq] & [p Ep] & _ & Hp).
  pose proof (be64_range _ Hx) as Hb. rewrite Hl in Hb. pose proof (pow64_pos k) as H64.
  set (M := 2 ^ payload k * 64 ^ Z.of_nat k) in *.
  assert (M = 2 ^ (payload k + 6 * Z.of_nat k)) as EM.
  { subst M. change 64 with (2 ^ 6). rewrite <- Z.pow_mul_r, <- Z.pow_add_r; try lia. destruct k; simpl; lia. }
  replace (M - 1) with (Z.ones (payload k + 6 * Z.of_nat k)) by (rewrite Z.ones_equiv, <- EM; lia).
  rewrite Z.land_ones by (destruct k; simpl; lia). rewrite <- EM. unfold shifted, wrap. rewrite Hl, Ep.
  rewrite Z.mod_mod_divide by (by exists p).
  replace ((cval (row_at k) + y) * 64 ^ Z.of_nat k + be64 xs) with (y * 64 ^ Z.of_nat k + be64 xs + q * M) by lia.
  rewrite Z.mod_add by nia. apply Z.mod_small. subst M. nia.
Qed.

Lemma wctomb_loop_rows rows row rest l maxlen : Forall (fun r => lmask r < l) rows -> l <= lmask row ->
  Z.of_nat (length rows) < maxlen ->
  wctomb_loop (rows ++ row :: rest) l maxlen =
    Some (u8 (Z.lor (cval row) (Z.shiftr l (shift row))) :: tail_bytes (Z.to_nat (shift row / 6)) l).
Proof.
  revert maxlen. induction rows as [|r rows IH]; intros maxlen Hr Hl Hm; cbn [app wctomb_loop length] in *.
  - rewrite (proj2 (Z.eqb_neq _ _)) by lia. by rewrite (proj2 (Z.leb_le _ _)).
  - apply Forall_cons in Hr as [Hr0 Hr].
    rewrite (proj2 (Z.eqb_neq _ _)), (proj2 (Z.leb_gt _ _)) by lia. apply IH; [done..|lia].
Qed.

(** The encoding of a number of row [k]. *)
Definition encoding (k : nat) (v : Z) : list Z :=
  (cval (row_at k) + v / 64 ^ Z.of_nat k) :: map (Z.lor 0x80) (digits k v).

Lemma first_bits k v : (k < 6)%nat -> in_row k v -> 0 <= v / 64 ^ Z.of_nat k < 2 ^ payload k.
Proof.
  intros Hk [H1 H2]. pose proof (row_facts k Hk) as (E & H0 & _ & _ & _ & _). pose proof (pow64_pos k).
  split; [apply Z.div_pos; lia|]. apply Z.div_lt_upper_bound; lia.
Qed.

Lemma encoding_bytes k v : (k < 6)%nat -> in_row k v -> Forall is_byte (encoding k v).
Proof.
  intros Hk Hv. pose proof (first_byte k _ Hk (first_bits k v Hk Hv)) as H. unfold first_byte_ok in H. bool_facts.
  constructor; [split; simpl; lia|]. apply Forall_map. eapply Forall_impl; [apply digits_digit|].
  intros x Hx. by apply continuation.
Qed.

Lemma utf8_encode k v : (k < 6)%nat -> in_row k v -> utf8_wctomb v 6 = Some (encoding k v).
Proof.
  intros Hk Hv. pose proof (row_facts k Hk) as (_ & H0 & _ & _ & Es & _). destruct Hv as [Hv1 Hv2].
  unfold utf8_wctomb. rewrite (table_split k Hk) at 1.
  rewrite wctomb_loop_rows.
  - pose proof (first_byte k _ Hk (first_bits k v Hk (conj Hv1 Hv2))) as H. unfold first_byte_ok in H.
    apply andb_prop in H as [[[_ H]%andb_prop _]%andb_prop _]. apply Z.eqb_eq in H.
    rewrite Es. rewrite Z.shiftr_div_pow2, Z.pow_mul_r by lia. change (2 ^ 6) with 64. rewrite H.
    rewrite (Z.mul_comm 6), Z.div_mul, Nat2Z.id by lia. by rewrite tail_bytes_digits by lia.
  - apply Forall_forall. intros r Hr. apply list_elem_of_lookup in Hr as [j Hj].
    assert (j < k)%nat by (apply lookup_lt_Some in Hj; rewrite length_take in Hj; lia).
    rewrite lookup_take in Hj. rewrite decide_True in Hj by done.
    replace r with (row_at j) by (by apply nth_lookup_Some). by apply (row_unique j k).
  - done.
  - rewrite length_take. lia.
Qed.

Lemma mbtowc_encoding k y xs : (k < 6)%nat -> 0 <= y < 2 ^ payload k -> Forall digit xs -> length xs = k ->
  lval (row_at k) <= y * 64 ^ Z.of_nat k + be64 xs ->
  utf8_mbtowc ((cval (row_at k) + y) :: map (Z.lor 0x80) xs) 6 = Some (y * 64 ^ Z.of_nat k + be64 xs, Z.of_nat k + 1).
Proof.
  intros Hk Hy Hx Hl Hv. pose proof (first_byte k y Hk Hy) as H. unfold first_byte_ok in H.
  apply andb_prop in H as [[[[[Hm Hr]%andb_prop Hn]%andb_prop _]%andb_prop Hlo]%andb_prop Hhi].
  assert (length (take k utf8_table) = k) as El by (rewrite length_take; simpl; lia).
  unfold utf8_mbtowc. rewrite (table_split k Hk) at 1. rewrite <- (app_nil_r (map _ xs)).
  rewrite (mbtowc_loop_rows (take k utf8_table)); rewrite ?El; try done; try lia.
  - cbv zeta. rewrite shifted_value by done. by rewrite (proj2 (Z.ltb_ge _ _)).
  - split; [lia|]. change (2 ^ 32) with 4294967296. lia.
Qed.

(** ** Reading and writing *)

Lemma ReadBuffer_app n a rest : Z.of_nat (length a) = n -> ReadBuffer n (a ++ rest) = Some (a, rest).
Proof.
  intros <-. unfold ReadBuffer. rewrite length_app, (proj2 (Z.ltb_ge _ _)) by lia.
  by rewrite Nat2Z.id, take_app_length, drop_app_length.
Qed.

Lemma ReadBuffer_one b rest : ReadBuffer 1 (b :: rest) = Some ([b], rest).
Proof. by apply (ReadBuffer_app 1 [b]). Qed.

Lemma ReadBuffer_inv n bs a rest : 0 <= n -> ReadBuffer n bs = Some (a, rest) ->
  bs = a ++ rest /\ Z.of_nat (length a) = n.
Proof.
  unfold ReadBuffer. intros Hn. destruct (Z.ltb_spec (Z.of_nat (length bs)) n); [done|].
  intros [= <- <-]. rewrite take_drop, length_take. split; [done|lia].
Qed.

Lemma poke_be_length n v : length (poke_be n v) = n.
Proof. induction n; simpl; congruence. Qed.

Lemma poke_be_bytes n v : Forall is_byte (poke_be n v).
Proof. induction n; simpl; constructor; [apply Z.mod_pos_bound; lia|done]. Qed.

Lemma pow256_S n : 2 ^ (8 * Z.of_nat (S n)) = 256 * 2 ^ (8 * Z.of_nat n).
Proof. replace (8 * Z.of_nat (S n)) with (8 + 8 * Z.of_nat n) by lia. by rewrite Z.pow_add_r by lia. Qed.

Lemma peek_be_range bs : Forall is_byte bs -> in_width (8 * Z.of_nat (length bs)) (peek_be bs).
Proof.
  unfold in_width. induction 1 as [|b bs Hb _ IH]; [simpl; lia|].
  cbn [peek_be length]. rewrite pow256_S. unfold is_byte, in_width in Hb. change (2 ^ 8) with 256 in Hb. nia.
Qed.

Lemma peek_poke_be n v : in_width (8 * Z.of_nat n) v -> peek_be (poke_be n v) = v.
Proof.
  assert (peek_be (poke_be n v) = v mod 2 ^ (8 * Z.of_nat n)) as E; [|intros Hv; rewrite E; by apply wrap_small].
  induction n as [|n IH]; cbn [peek_be poke_be]; [by rewrite Z.mod_1_r|].
  rewrite IH, poke_be_length, pow256_S, (Z.mul_comm 256).
  rewrite Z.rem_mul_r by lia. lia.
Qed.

Lemma poke_peek_be bs : Forall is_byte bs -> poke_be (length bs) (peek_be bs) = bs.
Proof.
  assert (forall bs, Forall is_byte bs -> forall y, poke_be (length bs) (y * 2 ^ (8 * Z.of_nat (length bs)) + peek_be bs) = bs) as H.
  { clear bs. induction 1 as [|b bs Hb Hbs IH]; intros y; [done|]. cbn [peek_be length poke_be]. rewrite pow256_S.
    pose proof (peek_be_range _ Hbs) as Hr. unfold is_byte, in_width in *. change (2 ^ 8) with 256 in Hb.
    set (p := 2 ^ (8 * Z.of_nat (length bs))) in *.
    replace (y * (256 * p) + (b * p + peek_be bs)) with ((y * 256 + b) * p + peek_be bs) by ring.
    f_equal; [|apply IH]. rewrite Z.div_add_l, Z.div_small by lia.
    rewrite Z.add_0_r, Z.add_comm, Z.mod_add, Z.mod_small; lia. }
  intros Hb. specialize (H bs Hb 0). by rewrite Z.mul_0_l, Z.add_0_l in H.
Qed.

(** The numbers a mode can write. *)
Definition writable (flags : ec_flags) (len v : Z) : Prop :=
  in_width (8 * len) v /\ (EC_FLAG_UTF8_NUMBERS flags = true -> v < 2 ^ 31).

Lemma WriteNumber_utf8 flags len k v : EC_FLAG_UTF8_NUMBERS flags = true -> (k < 6)%nat -> in_row k v ->
  WriteNumber flags len v = Some (encoding k v).
Proof. unfold WriteNumber. intros ->. apply utf8_encode. Qed.

Lemma ReadNumber_utf8 flags len k v rest : EC_FLAG_UTF8_NUMBERS flags = true -> (k < 6)%nat -> in_row k v ->
  ReadNumber flags len (encoding k v ++ rest) = Some (wrap (8 * len) v, rest).
Proof.
  intros Hf Hk Hv. pose proof (first_bits k v Hk Hv) as Hy. pose proof (row_facts k Hk) as (_ & H0 & _).
  destruct Hv as [Hv1 Hv2]. assert (0 <= v) as Hv0 by lia. unfold ReadNumber, encoding. rewrite Hf.
  cbn [app]. rewrite ReadBuffer_one. cbn [hd].
  pose proof (first_byte k _ Hk Hy) as H. unfold first_byte_ok in H.
  apply andb_prop in H as [[[[_ Hn]%andb_prop _]%andb_prop _]%andb_prop _]. apply Nat.eqb_eq in Hn. rewrite Hn.
  rewrite ReadBuffer_app by (rewrite length_map, digits_length; done).
  assert (v / 64 ^ Z.of_nat k * 64 ^ Z.of_nat k + be64 (digits k v) = v) as E.
  { rewrite be64_digits. pose proof (pow64_pos k). pose proof (Z.div_mod v (64 ^ Z.of_nat k)). lia. }
  cbn [app]. rewrite (mbtowc_encoding k); rewrite ?E; try done; [apply digits_digit|apply digits_length].
Qed.

Lemma WriteNumber_spec flags len v : 0 <= len -> writable flags len v ->
  exists bs, WriteNumber flags len v = Some bs /\ Forall is_byte bs /\ (0 < len -> bs <> []) /\
    forall rest, ReadNumber flags len (bs ++ rest) = Some (v, rest).
Proof.
  intros Hlen [Hw Hu]. destruct (EC_FLAG_UTF8_NUMBERS flags) eqn:Ef.
  - destruct (row_exists v) as (k & Hk & Hr); [unfold in_width in Hw; specialize (Hu eq_refl); lia|].
    exists (encoding k v). split; [by apply WriteNumber_utf8|]. split; [by apply encoding_bytes|].
    split; [done|]. intros rest. rewrite (ReadNumber_utf8 flags len k v rest Ef Hk Hr). by rewrite wrap_small.
  - exists (poke_be (Z.to_nat len) v). unfold WriteNumber, ReadNumber. rewrite Ef. split; [done|].
    split; [apply poke_be_bytes|]. split.
    + intros Hpos E. apply (f_equal length) in E. rewrite poke_be_length in E. simpl in E. lia.
    + intros rest. rewrite ReadBuffer_app by (rewrite poke_be_length; lia).
      rewrite peek_poke_be by (rewrite Z2Nat.id; done). done.
Qed.

(** Reading takes at least a byte and leaves a suffix; the number fits its width. *)
Lemma ReadNumber_shrinks flags len bs v rest : 0 < len -> Forall is_byte bs -> ReadNumber flags len bs = Some (v, rest) ->
  in_width (8 * len) v /\ exists pre, bs = pre ++ rest /\ pre <> [].
Proof.
  intros Hlen Hb. unfold ReadNumber. destruct (EC_FLAG_UTF8_NUMBERS flags).
  - destruct (ReadBuffer 1 bs) as [[first bs1]|] eqn:E1; [|done]. apply ReadBuffer_inv in E1 as [-> H1]; [|lia].
    destruct (ReadBuffer _ bs1) as [[more bs2]|] eqn:E2; [|done]. apply ReadBuffer_inv in E2 as [-> H2]; [|lia].
    destruct (utf8_mbtowc _ 6) as [[wc n]|]; [|done]. intros [= <- <-]. split; [apply wrap_range; lia|].
    exists (first ++ more). rewrite app_assoc. split; [done|]. by destruct first.
  - destruct (ReadBuffer len bs) as [[b bs1]|] eqn:E; [|done]. apply ReadBuffer_inv in E as [-> H]; [|lia].
    intros [= <- <-]. apply Forall_app in Hb as [Hb _]. split; [rewrite <- H; by apply peek_be_range|].
    exists b. split; [done|]. intros ->. simpl in H. lia.
Qed.

Lemma ReadNumber_utf8_inv flags bs v rest : EC_FLAG_UTF8_NUMBERS flags = true -> Forall is_byte bs ->
  ReadNumber flags 4 bs = Some (v, rest) -> exists k, (k < 6)%nat /\ in_row k v /\ bs = encoding k v ++ rest.
Proof.
  intros Hf Hb. unfold ReadNumber. rewrite Hf.
  destruct (ReadBuffer 1 bs) as [[first bs1]|] eqn:E1; [|done]. apply ReadBuffer_inv in E1 as [-> H1]; [|lia].
  destruct (ReadBuffer _ bs1) as [[more bs2]|] eqn:E2; [|done]. apply ReadBuffer_inv in E2 as [-> H2]; [|lia].
  destruct first as [|c0 [|]]; [done| |simpl in H1; lia]. cbn [hd app] in *.
  destruct (utf8_mbtowc (c0 :: more) 6) as [[wc n]|] eqn:Em; [|done]. intros [= <- <-].
  apply Forall_cons in Hb as [Hc0 Hb]. apply Forall_app in Hb as [Hb _].
  apply mbtowc_loop_inv in Em as (before & row & after & xs & extra & Et & -> & Hbef & Hm & Hx & Hlen & Ev & Hlv);
    [|done|split; [apply Hc0|unfold is_byte, in_width in Hc0; lia]].
  set (k := length before) in *.
  assert (k < 6)%nat as Hk by (apply (f_equal length) in Et; rewrite length_app in Et; simpl in Et; lia).
  assert (row = row_at k) as ->.
  { unfold row_at. by rewrite Et, app_nth2, Nat.sub_diag by (fold k; lia). }
  pose proof (matches_payload k c0 Hk Hc0 Hm) as Hy.
  pose proof (row_facts k Hk) as (El & H0 & _). pose proof (pow64_pos k) as Hp.
  replace c0 with (cval (row_at k) + (c0 - cval (row_at k))) in Ev by lia.
  rewrite shifted_value in Ev by done. pose proof (be64_range _ Hx) as Hr. rewrite Hlen in Hr.
  assert (in_row k wc) as Hrow.
  { split; [done|]. rewrite El. nia. }
  assert (in_width 32 wc) as Hw by (destruct Hrow as [_ Hrow]; unfold in_width; rewrite El in Hrow; clear -Hrow H0 Hlv Hk; do 6 (destruct k as [|k]; [simpl in *; lia|]); lia).
  assert (utf8_mb_remain c0 = k) as Hn.
  { pose proof (first_byte k _ Hk Hy) as H. unfold first_byte_ok in H.
    replace (cval (row_at k) + (c0 - cval (row_at k))) with c0 in H by lia.
    apply andb_prop in H as [[[[_ H]%andb_prop _]%andb_prop _]%andb_prop _]. by apply Nat.eqb_eq. }
  assert (extra = []) as ->.
  { rewrite length_app, length_map, Hlen, Hn in H2. destruct extra; [done|]. simpl in H2. lia. }
  rewrite app_nil_r in *. exists k. change (8 * 4) with 32. rewrite wrap_small by done.
  split; [done|]. split; [done|]. unfold encoding.
  rewrite Ev, <- Hlen, digits_be64 by done. rewrite Hlen, Z.div_add_l, Z.div_small by lia.
  cbn [app]. f_equal. lia.
Qed.

(** ** Properties *)

(** C34: The numbers of the protocol have one external form each.  In either mode a 32-bit number is
    read from a string of bytes exactly when the string begins with what is written for it; in
    UTF-8 mode that is every number below 2^31, overlong and malformed sequences being refused.
    The 8-bit and 16-bit fields that can be written are read back as well. *)
Theorem ec_number_codec (flags : ec_flags) (bs : list Z) (v : Z) (rest : list Z) (Hbs : Forall is_byte bs) :
  (ReadNumber flags 4 bs = Some (v, rest) <->
   in_width 32 v /\ exists pre, WriteNumber flags 4 v = Some pre /\ bs = pre ++ rest) /\
  (in_width 32 v -> (WriteNumber flags 4 v = None <-> EC_FLAG_UTF8_NUMBERS flags = true /\ 2 ^ 31 <= v)) /\
  (forall len, len = 1 \/ len = 2 -> in_width (8 * len) v ->
   exists pre, WriteNumber flags len v = Some pre /\ ReadNumber flags len (pre ++ rest) = Some (v, rest)).
Proof.
  assert (in_width 32 v -> EC_FLAG_UTF8_NUMBERS flags = true -> 2 ^ 31 <= v -> WriteNumber flags 4 v = None) as Hbig.
  { intros _ Hf Hv. unfold WriteNumber. rewrite Hf. unfold utf8_wctomb. change (2 ^ 31) with 0x80000000 in Hv.
    cbn [wctomb_loop utf8_table]. by repeat rewrite (proj2 (Z.leb_gt v _)) by (cbn [lmask]; lia). }
  assert (in_width 32 v -> WriteNumber flags 4 v <> None -> writable flags 4 v) as Hsmall.
  { intros Hw Hn. split; [done|]. intros Hf. destruct (Z.lt_ge_cases v (2 ^ 31)); [done|]. by destruct Hn; apply Hbig. }
  split; [split|split].
  - intros H. destruct (EC_FLAG_UTF8_NUMBERS flags) eqn:Ef.
    + split; [by apply (ReadNumber_shrinks flags 4 bs _ rest)|].
      apply ReadNumber_utf8_inv in H as (k & Hk & Hr & ->); [|done..].
      exists (encoding k v). split; [by apply WriteNumber_utf8|done].
    + split; [by apply (ReadNumber_shrinks flags 4 bs _ rest)|]. unfold ReadNumber, WriteNumber in *. rewrite Ef in *.
      destruct (ReadBuffer 4 bs) as [[b bs1]|] eqn:E; [|done]. apply ReadBuffer_inv in E as [-> H4]; [|lia].
      injection H as <- <-. exists b. apply Forall_app in Hbs as [Hb _].
      split; [|done]. f_equal. replace (Z.to_nat 4) with (length b) by lia. by apply poke_peek_be.
  - intros (Hw & pre & E & ->). destruct (WriteNumber_spec flags 4 v) as (bs & E' & _ & _ & H); [lia| |].
    + apply Hsmall; [done|]. by rewrite E.
    + rewrite E in E'. injection E' as <-. apply H.
  - intros Hw. split; [|intros [Hf Hv]; by apply Hbig]. intros E.
    destruct (EC_FLAG_UTF8_NUMBERS flags) eqn:Ef.
    + split; [done|]. destruct (Z.lt_ge_cases v (2 ^ 31)) as [Hv|]; [|done].
      destruct (WriteNumber_spec flags 4 v) as (bs' & E' & _); [lia|by split|]. by rewrite E in E'.
    + unfold WriteNumber in E. by rewrite Ef in E.
  - intros len Hlen Hw. destruct (WriteNumber_spec flags len v) as (pre & E & _ & _ & H); [lia| |by exists pre].
    split; [done|]. intros _. destruct Hlen; subst; unfold in_width in Hw; simpl in Hw; lia.
Qed.

Lemma ec_number_codec_witness :
  ReadNumber (mkFlags true true) 4 [0xE2; 0x82; 0xAC; 7] = Some (0x20AC, [7]) /\
  ReadNumber (mkFlags true true) 4 [0xC0; 0x80; 7] = None.
Proof.
  split; [|vm_compute; reflexivity].
  apply (ec_number_codec (mkFlags true true) [0xE2; 0x82; 0xAC; 7] 0x20AC [7]); [repeat constructor; vm_compute; (discriminate || reflexivity)|].
  split; [vm_compute; split; (discriminate || reflexivity)|]. exists [0xE2; 0x82; 0xAC]. split; vm_compute; reflexivity.
Defined.
