(* ===== verification/ECTag.v ===== *)
(** * Tags and packets of the external control protocol ([libs/ec/cpp/ECTag.{h,cpp}],
    [ECPacket.{h,cpp}], [ECUInt128.cpp])

    A packet is an operation code and a tree of named, typed tags.  The reader is recursive in the
    bytes it is given, so it carries fuel; its three-way result keeps running out of fuel apart
    from refusing the bytes. *)
From S2P Require Import Prelude StdMap UInt128 NetworkFunctions DataIO ECSocket.

(** ** Types ([libs/ec/abstracts/ECTagTypes.abstract]) *)

Definition EC_TAGTYPE_UNKNOWN : Z := 0.
Definition EC_TAGTYPE_CUSTOM : Z := 1.
Definition EC_TAGTYPE_UINT8 : Z := 2.
Definition EC_TAGTYPE_UINT16 : Z := 3.
Definition EC_TAGTYPE_UINT32 : Z := 4.
Definition EC_TAGTYPE_UINT64 : Z := 5.
Definition EC_TAGTYPE_STRING : Z := 6.
Definition EC_TAGTYPE_DOUBLE : Z := 7.
Definition EC_TAGTYPE_IPV4 : Z := 8.
Definition EC_TAGTYPE_HASH16 : Z := 9.
Definition EC_TAGTYPE_UINT128 : Z := 10.

(** [m_dataLen] is the length of the data; data of length 0 is the NULL pointer. *)
Inductive CECTag := mkTag {
  m_tagName : Z; m_dataType : Z; m_tagData : list Z; m_tagList : list CECTag
}.

Definition m_dataLen (t : CECTag) : Z := u32 (Z.of_nat (length (m_tagData t))).

Definition s_theNullTag : CECTag := mkTag 0 EC_TAGTYPE_UNKNOWN [] [].

(** ** Construction *)

Definition CECTag_custom (name : Z) (data : list Z) : CECTag := mkTag name EC_TAGTYPE_CUSTOM data [].

Definition CECEmptyTag (name : Z) : CECTag := CECTag_custom name [].

(** An address of four bytes and a port. *)
Record EC_IPv4_t := mkIPv4 { m_ip : list Z; m_port : Z }.

Definition EC_IPv4_new (ip port : Z) : EC_IPv4_t :=
  mkIPv4 [Z.land ip 0xff; Z.land (Z.shiftr ip 8) 0xff; Z.land (Z.shiftr ip 16) 0xff; Z.land (Z.shiftr ip 24) 0xff] port.

Definition EC_IPv4_IP (a : EC_IPv4_t) : Z :=
  match m_ip a with
  | [a; b; c; d] => Z.lor (Z.lor (Z.lor a (Z.shiftl b 8)) (Z.shiftl c 16)) (Z.shiftl d 24)
  | _ => 0
  end.

(** The port in network order; the structure has six bytes. *)
Definition CECTag_ipv4 (name : Z) (data : EC_IPv4_t) : CECTag :=
  mkTag name EC_TAGTYPE_IPV4 (m_ip data ++ poke_be 2 (m_port data)) [].

Definition CECTag_hash (name : Z) (data : list Z) : CECTag := mkTag name EC_TAGTYPE_HASH16 data [].

Definition CECTag_uint128 (name : Z) (data : CUInt128) : CECTag := mkTag name EC_TAGTYPE_UINT128 (ToByteArray data) [].

(** [data.c_str()] up to the first NUL, and a NUL. *)
Fixpoint c_string (data : list Z) : list Z :=
  match data with
  | [] => [0]
  | b :: data => if b =? 0 then [0] else b :: c_string data
  end.

Definition ConstructStringTag (name : Z) (data : list Z) : CECTag := mkTag name EC_TAGTYPE_STRING (c_string data) [].

(** The smallest type the number fits. *)
Definition InitInt (name data : Z) : CECTag :=
  if data <=? 0xFF then mkTag name EC_TAGTYPE_UINT8 (poke_be 1 data) []
  else if data <=? 0xFFFF then mkTag name EC_TAGTYPE_UINT16 (poke_be 2 data) []
  else if data <=? 0xFFFFFFFF then mkTag name EC_TAGTYPE_UINT32 (poke_be 4 data) []
  else mkTag name EC_TAGTYPE_UINT64 (poke_be 8 data) [].

(** ** The tree *)

(** The content moves into the parent: the parent, and what is left of the tag. *)
Definition AddTag (tag parent : CECTag) : CECTag * CECTag :=
  (mkTag (m_tagName parent) (m_dataType parent) (m_tagData parent) (m_tagList parent ++ [tag]), CECEmptyTag 0).

Fixpoint find_tag (name : Z) (l : list CECTag) : option CECTag :=
  match l with
  | [] => None
  | it :: l => if m_tagName it =? name then Some it else find_tag name l
  end.

Definition GetTagByName (name : Z) (t : CECTag) : option CECTag := find_tag name (m_tagList t).

Definition GetTagByNameSafe (name : Z) (t : CECTag) : CECTag := default s_theNullTag (GetTagByName name t).

Definition GetFirstTagSafe (t : CECTag) : CECTag := match m_tagList t with [] => s_theNullTag | it :: _ => it end.

Definition GetTagCount (t : CECTag) : Z := Z.of_nat (length (m_tagList t)).

Definition HasChildTags (t : CECTag) : bool := match m_tagList t with [] => false | _ => true end.

(** [memcmp] of data of the same length. *)
Definition data_eqb (a b : list Z) : bool := bool_decide (a = b).

(** [std::list]'s equality over the tags' own. *)
Section ListEquality.
Context (eqb : CECTag -> CECTag -> bool).

Fixpoint list_eqb (l l' : list CECTag) : bool :=
  match l, l' with
  | [], [] => true
  | t :: l, t' :: l' => eqb t t' && list_eqb l l'
  | _, _ => false
  end.
End ListEquality.

Fixpoint op_eq (this tag : CECTag) {struct this} : bool :=
  match this with
  | mkTag name type data children =>
      let len := u32 (Z.of_nat (length data)) in
      (type =? m_dataType tag) && (name =? m_tagName tag) && (len =? m_dataLen tag) &&
      ((len =? 0) || data_eqb data (m_tagData tag)) && list_eqb op_eq children (m_tagList tag)
  end.

(** ** Accessors: [None] where the code reads outside the data *)

Definition peek_data (n : nat) (t : CECTag) : option Z :=
  if (n <=? length (m_tagData t))%nat then Some (peek_be (take n (m_tagData t))) else None.

Definition GetInt (t : CECTag) : option Z :=
  match m_tagData t with
  | [] => Some 0
  | _ =>
      if m_dataType t =? EC_TAGTYPE_UINT8 then peek_data 1 t
      else if m_dataType t =? EC_TAGTYPE_UINT16 then peek_data 2 t
      else if m_dataType t =? EC_TAGTYPE_UINT32 then peek_data 4 t
      else if m_dataType t =? EC_TAGTYPE_UINT64 then peek_data 8 t
      else Some 0
  end.

(** Sixteen bits of the length. *)
Definition GetTagDataLen (t : CECTag) : Z := u16 (m_dataLen t).

Definition IsInt (t : CECTag) : bool := (m_dataType t >=? EC_TAGTYPE_UINT8) && (m_dataType t <=? EC_TAGTYPE_UINT64).
Definition IsString (t : CECTag) : bool := m_dataType t =? EC_TAGTYPE_STRING.
Definition IsCustom (t : CECTag) : bool := m_dataType t =? EC_TAGTYPE_CUSTOM.

(** The bytes before the NUL; [None] when there is none. *)
Fixpoint until_nul (data : list Z) : option (list Z) :=
  match data with
  | [] => None
  | b :: data => if b =? 0 then Some [] else (cons b) <$> until_nul data
  end.

Definition GetStringDataSTL (t : CECTag) : option (list Z) :=
  if negb (m_dataType t =? EC_TAGTYPE_STRING) then Some []
  else match m_tagData t with [] => Some [] | data => until_nul data end.

Definition SetStringData (s : list Z) (t : CECTag) : CECTag :=
  if IsString t then mkTag (m_tagName t) EC_TAGTYPE_STRING (c_string s) (m_tagList t) else t.

Definition take_data (n : nat) (t : CECTag) : option (list Z) :=
  if (n <=? length (m_tagData t))%nat then Some (take n (m_tagData t)) else None.

(** A NULL pointer makes an empty hash, of zeros. *)
Definition GetMD4Data (t : CECTag) : option (list Z) :=
  if negb (m_dataType t =? EC_TAGTYPE_HASH16) then Some (replicate 16 0)
  else match m_tagData t with [] => Some (replicate 16 0) | _ => take_data 16 t end.

Definition GetIPv4Data (t : CECTag) : option EC_IPv4_t :=
  if negb (m_dataType t =? EC_TAGTYPE_IPV4) then Some (EC_IPv4_new 0 0)
  else match m_tagData t with
       | [] => Some (EC_IPv4_new 0 0)
       | _ => (fun d => mkIPv4 (take 4 d) (peek_be (drop 4 d))) <$> take_data 6 t
       end.

Definition GetInt128Data (t : CECTag) : option CUInt128 :=
  if negb (m_dataType t =? EC_TAGTYPE_UINT128) then Some (mkUInt128 0 0 0 0)
  else match m_tagData t with [] => Some (mkUInt128 0 0 0 0) | _ => SetValueBE <$> take_data 16 t end.

(** ** [AssignIfExist]: with a pointer, which may be NULL, and with a reference *)

Section AssignIfExist.
Context {T : Type} (get : CECTag -> option T) (dflt : T).

(** What is returned and the target. *)
Definition AssignIfExist_ptr (tagname : Z) (target : option T) (t : CECTag) : option (T * option T) :=
  match GetTagByName tagname t with
  | Some tag => (fun ret => (ret, match target with Some _ => Some ret | None => None end)) <$> get tag
  | None => Some (dflt, target)
  end.

Definition AssignIfExist_ref (tagname : Z) (target : T) (t : CECTag) : option (bool * T) :=
  match GetTagByName tagname t with
  | Some tag => (fun v => (true, v)) <$> get tag
  | None => Some (false, target)
  end.
End AssignIfExist.

Definition get_bool (t : CECTag) : option bool := (fun v => v >? 0) <$> GetInt t.
Definition get_uint (w : Z) (t : CECTag) : option Z := (fun v => wrap w v) <$> GetInt t.

(** The value returned says whether the tag is there and positive. *)
Definition AssignIfExist_bool_ptr := AssignIfExist_ptr get_bool false.
Definition AssignIfExist_bool := AssignIfExist_ref get_bool.
Definition AssignIfExist_uint8_ptr := AssignIfExist_ptr (get_uint 8) 0.
Definition AssignIfExist_uint8 := AssignIfExist_ref (get_uint 8).
Definition AssignIfExist_uint16_ptr := AssignIfExist_ptr (get_uint 16) 0.
Definition AssignIfExist_uint16 := AssignIfExist_ref (get_uint 16).
Definition AssignIfExist_uint32_ptr := AssignIfExist_ptr (get_uint 32) 0.
Definition AssignIfExist_uint32 := AssignIfExist_ref (get_uint 32).
Definition AssignIfExist_uint64_ptr := AssignIfExist_ptr GetInt 0.
Definition AssignIfExist_uint64 := AssignIfExist_ref GetInt.

(** [time_t] is a signed integer of 64 bits. *)
Definition AssignIfExist_time_ptr := AssignIfExist_ptr (fun t => swrap 64 <$> GetInt t) 0.
Definition AssignIfExist_time := AssignIfExist_ref (fun t => swrap 64 <$> GetInt t).
Definition AssignIfExist_hash_ptr := AssignIfExist_ptr GetMD4Data (replicate 16 0).
Definition AssignIfExist_hash := AssignIfExist_ref GetMD4Data.
Definition AssignIfExist_string_ptr := AssignIfExist_ptr GetStringDataSTL [].
Definition AssignIfExist_string := AssignIfExist_ref GetStringDataSTL.

Definition AssignIfExist_uint128 := AssignIfExist_ref GetInt128Data.

(** The pointer is dereferenced without a check. *)
Definition AssignIfExist_uint128_ptr (tagname : Z) (target : option CUInt128) (t : CECTag) :
  option (CUInt128 * option CUInt128) :=
  match target with
  | None => None
  | Some v =>
      match AssignIfExist_uint128 tagname v t with
      | Some (true, v) => Some (v, Some v)
      | Some (false, v) => Some (mkUInt128 0 0 0 0, Some v)
      | None => None
      end
  end.

(** ** Lengths *)

Definition header_size : Z := 2 + 1 + 4.

(** The number of children that are counted and written. *)
Definition max_children (useLargeCount : bool) (l : list CECTag) : Z :=
  if useLargeCount then Z.of_nat (length l) else Z.min (Z.of_nat (length l)) 0xFFFE.

Section Lengths.
Context (taglen : CECTag -> Z) (useLargeCount : bool).

Fixpoint length_loop (i maxIter length : Z) (l : list CECTag) : Z :=
  match l with
  | [] => length
  | it :: l =>
      if i <? maxIter then
        let length := u32 (length + taglen it) in
        let length := u32 (length + header_size) in
        let length :=
          (if HasChildTags it then
             let length := u32 (length + 2) in
             if useLargeCount && (GetTagCount it >=? 0xFFFF) then u32 (length + 4) else length
           else length) in
        length_loop (i + 1) maxIter length l
      else length
  end.
End Lengths.

Fixpoint GetTagLen (useLargeCount : bool) (t : CECTag) : Z :=
  match t with
  | mkTag _ _ data children =>
      length_loop (GetTagLen useLargeCount) useLargeCount 0 (max_children useLargeCount children)
        (u32 (Z.of_nat (length data))) children
  end.

(** ** Writing: the bytes, or [None] where a number cannot be written and [false] is returned *)

(** The count of children; the extended form is a marker and 32 bits. *)
Definition write_count (flags : ec_flags) (l : list CECTag) : option (list Z) :=
  let useLargeCount := EC_FLAG_LARGE_TAG_COUNT flags in
  let count := Z.of_nat (length l) in
  if useLargeCount && (count >=? 0xFFFF) then
    marker ← WriteNumber flags 2 0xFFFF; tmp ← WriteNumber flags 4 (u32 count); Some (marker ++ tmp)
  else WriteNumber flags 2 (u16 (max_children useLargeCount l)).

Section WriteLoop.
Context (write_tag : CECTag -> option (list Z)).

Fixpoint write_loop (i writeCount : Z) (l : list CECTag) : option (list Z) :=
  match l with
  | [] => Some []
  | it :: l =>
      if i <? writeCount then b ← write_tag it; bs ← write_loop (i + 1) writeCount l; Some (b ++ bs)
      else Some []
  end.
End WriteLoop.

Definition write_children (flags : ec_flags) (write_tag : CECTag -> option (list Z)) (l : list CECTag) :
  option (list Z) :=
  count ← write_count flags l;
  bs ← write_loop write_tag 0 (max_children (EC_FLAG_LARGE_TAG_COUNT flags) l) l;
  Some (count ++ bs).

Fixpoint WriteTag (flags : ec_flags) (t : CECTag) : option (list Z) :=
  match t with
  | mkTag name type data children =>
      let tmp_tagName := u16 (Z.lor (Z.shiftl name 1) (match children with [] => 0 | _ => 1 end)) in
      let tagLen := GetTagLen (EC_FLAG_LARGE_TAG_COUNT flags) t in
      n ← WriteNumber flags 2 tmp_tagName;
      ty ← WriteNumber flags 1 type;
      len ← WriteNumber flags 4 tagLen;
      ch ← match children with [] => Some [] | _ => write_children flags (WriteTag flags) children end;
      Some (n ++ ty ++ len ++ ch ++ data)
  end.

Definition WriteChildren (flags : ec_flags) (l : list CECTag) : option (list Z) :=
  write_children flags (WriteTag flags) l.

(** ** Reading *)

Inductive outcome (A : Type) :=
| OutOfFuel
| Failed
| Got (a : A) (rest : list Z).
Arguments OutOfFuel {A}. Arguments Failed {A}. Arguments Got {A}.

(** The number of children announced. *)
Definition read_count (flags : ec_flags) (bs : list Z) : option (Z * list Z) :=
  match ReadNumber flags 2 bs with
  | None => None
  | Some (tmp_tagCount16, bs) =>
      if EC_FLAG_LARGE_TAG_COUNT flags && (tmp_tagCount16 =? 0xFFFF) then ReadNumber flags 4 bs
      else Some (tmp_tagCount16, bs)
  end.

(** The data behind the children: what is left of the length announced. *)
Definition read_data (flags : ec_flags) (name type tmp_len : Z) (children : list CECTag) (bs : list Z) :
  outcome CECTag :=
  let childrenLen := GetTagLen (EC_FLAG_LARGE_TAG_COUNT flags) (mkTag name type [] children) in
  if tmp_len <? childrenLen then Failed
  else
    let m_dataLen := tmp_len - childrenLen in
    if m_dataLen >? 0 then
      match ReadBuffer m_dataLen bs with
      | None => Failed
      | Some (data, bs) => Got (mkTag name type data children) bs
      end
    else Got (mkTag name type [] children) bs.

Fixpoint ReadTag (fuel : nat) (flags : ec_flags) (bs : list Z) {struct fuel} : outcome CECTag :=
  match fuel with
  | O => OutOfFuel
  | S fuel =>
      match ReadNumber flags 2 bs with
      | None => Failed
      | Some (tmp_tagName, bs) =>
          let m_tagName := Z.shiftr tmp_tagName 1 in
          let hasChildren := negb (Z.land tmp_tagName 0x01 =? 0) in
          match ReadNumber flags 1 bs with
          | None => Failed
          | Some (m_dataType, bs) =>
              match ReadNumber flags 4 bs with
              | None => Failed
              | Some (tmp_len, bs) =>
                  match (if hasChildren then ReadChildren fuel flags bs else Got [] bs) with
                  | Got children bs => read_data flags m_tagName m_dataType tmp_len children bs
                  | Failed => Failed
                  | OutOfFuel => OutOfFuel
                  end
              end
          end
      end
  end
with ReadChildren (fuel : nat) (flags : ec_flags) (bs : list Z) {struct fuel} : outcome (list CECTag) :=
  match fuel with
  | O => OutOfFuel
  | S fuel =>
      match read_count flags bs with
      | None => Failed
      | Some (tmp_tagCount, bs) => read_loop fuel flags 0 tmp_tagCount bs
      end
  end
with read_loop (fuel : nat) (flags : ec_flags) (i tmp_tagCount : Z) (bs : list Z) {struct fuel} :
  outcome (list CECTag) :=
  match fuel with
  | O => OutOfFuel
  | S fuel =>
      if i <? tmp_tagCount then
        match ReadTag fuel flags bs with
        | Got tag bs =>
            match read_loop fuel flags (i + 1) tmp_tagCount bs with
            | Got tags bs => Got (tag :: tags) bs
            | Failed => Failed
            | OutOfFuel => OutOfFuel
            end
        | Failed => Failed
        | OutOfFuel => OutOfFuel
        end
      else Got [] bs
  end.

(** Every tag takes at least three bytes. *)
Definition read_fuel (bs : list Z) : nat := S (S (S (length bs))).

Definition ReadFromSocket (flags : ec_flags) (bs : list Z) : outcome CECTag := ReadTag (read_fuel bs) flags bs.

(** ** Packets: an operation code, and the children of an empty tag *)

Record CECPacket := mkPacket { m_opCode : Z; m_tag : CECTag }.

Definition EC_TAG_DETAIL_LEVEL : Z := 0x0004.
Definition EC_DETAIL_FULL : Z := 0x02.

Definition CECPacket_new (opCode detail_level : Z) : CECPacket :=
  let tag := CECEmptyTag 0 in
  mkPacket opCode
    (if negb (detail_level =? EC_DETAIL_FULL) then (AddTag (InitInt EC_TAG_DETAIL_LEVEL detail_level) tag).1 else tag).

Definition GetPacketLength (p : CECPacket) : Z := GetTagLen false (m_tag p).

Definition GetDetailLevel (p : CECPacket) : option Z :=
  match GetTagByName EC_TAG_DETAIL_LEVEL (m_tag p) with
  | Some tag => GetInt tag
  | None => Some EC_DETAIL_FULL
  end.

Definition PacketReadFromSocket (flags : ec_flags) (bs : list Z) : outcome CECPacket :=
  match ReadNumber flags 1 bs with
  | None => Failed
  | Some (m_opCode, bs) =>
      match ReadChildren (read_fuel bs) flags bs with
      | Got l bs => Got (mkPacket m_opCode (mkTag 0 EC_TAGTYPE_CUSTOM [] l)) bs
      | Failed => Failed
      | OutOfFuel => OutOfFuel
      end
  end.

Definition WritePacket (flags : ec_flags) (p : CECPacket) : option (list Z) :=
  op ← WriteNumber flags 1 (m_opCode p);
  ch ← WriteChildren flags (m_tagList (m_tag p));
  Some (op ++ ch).

(** ** Trees *)

Section TagInduction.
Context (P : CECTag -> Prop).
Context (step : forall name type data children, Forall P children -> P (mkTag name type data children)).

Fixpoint tag_ind (t : CECTag) : P t :=
  match t with
  | mkTag name type data children =>
      step name type data children
        ((fix all (l : list CECTag) : Forall P l :=
            match l with [] => List.Forall_nil P | t :: l => List.Forall_cons P t l (tag_ind t) (all l) end) children)
  end.
End TagInduction.

(** The fields are in the range of their types, with room for a bit in the name. *)
Inductive wf_tag : CECTag -> Prop :=
| wf_mkTag name type data children : in_width 15 name -> in_width 8 type -> Forall is_byte data ->
    Forall wf_tag children -> wf_tag (mkTag name type data children).

(** The children an old peer is sent. *)
Definition kept {A} (large : bool) (l : list A) : list A := if large then l else take (Z.to_nat 0xFFFE) l.

(** The tree the other end receives. *)
Fixpoint sent (large : bool) (t : CECTag) : CECTag :=
  match t with
  | mkTag name type data children => mkTag name type data (kept large (map (sent large) children))
  end.

(** What a child adds to the length of its parent, given its own. *)
Definition child_size (large : bool) (own : Z) (c : CECTag) : Z :=
  own + header_size +
    (if HasChildTags c then 2 + (if large && (GetTagCount c >=? 0xFFFF) then 4 else 0) else 0).

Fixpoint tag_size (large : bool) (t : CECTag) : Z :=
  match t with
  | mkTag _ _ data children =>
      Z.of_nat (length data) + sumZ (kept large (map (fun c => child_size large (tag_size large c) c) children))
  end.

Definition size_of_child (large : bool) (c : CECTag) : Z := child_size large (tag_size large c) c.

Lemma kept_map {A B} (f : A -> B) large l : kept large (map f l) = map f (kept large l).
Proof. destruct large; [done|]. apply firstn_map. Qed.

Lemma kept_kept {A} large (l : list A) : kept large (kept large l) = kept large l.
Proof. destruct large; [done|]. unfold kept. by rewrite take_take, Nat.min_id. Qed.

Lemma kept_children {A} large (l : list A) : kept large l = take (Z.to_nat (if large then Z.of_nat (length l) else Z.min (Z.of_nat (length l)) 0xFFFE)) l.
Proof.
  destruct large; unfold kept; [by rewrite Nat2Z.id, take_ge|].
  destruct (Z.le_gt_cases (Z.of_nat (length l)) 0xFFFE); [rewrite !take_ge; lia || done|].
  by rewrite Z.min_r by lia.
Qed.

Lemma kept_length large l : Z.of_nat (length (kept (A:=CECTag) large l)) = max_children large l.
Proof. unfold kept, max_children. destruct large; [done|]. rewrite length_take. lia. Qed.

Lemma Forall_kept {A} (P : A -> Prop) large l : Forall P l -> Forall P (kept large l).
Proof. destruct large; [done|apply Forall_take]. Qed.

Lemma wrap_add_l w a b : 0 <= w -> wrap w (wrap w a + b) = wrap w (a + b).
Proof. intros. unfold wrap. apply Zplus_mod_idemp_l. Qed.

Lemma wrap_add_r w a b : 0 <= w -> wrap w (a + wrap w b) = wrap w (a + b).
Proof. intros. unfold wrap. apply Zplus_mod_idemp_r. Qed.

(** [GetTagLen] is the size modulo 2^32. *)
Lemma length_loop_spec large l : Forall (fun c => GetTagLen large c = u32 (tag_size large c)) l -> forall i maxIter len,
  length_loop (GetTagLen large) large i maxIter (u32 len) l =
    u32 (len + sumZ (map (size_of_child large) (take (Z.to_nat (maxIter - i)) l))).
Proof.
  induction 1 as [|c l Hc _ IH]; intros i maxIter len; cbn [length_loop].
  - rewrite take_nil. simpl. f_equal. lia.
  - destruct (Z.ltb_spec i maxIter).
    + replace (Z.to_nat (maxIter - i)) with (S (Z.to_nat (maxIter - (i + 1)))) by lia. cbn [take map sumZ].
      rewrite Hc, wrap_add_r by lia.
      replace (if HasChildTags c then _ else _) with (u32 (len + size_of_child large c)).
      * rewrite IH. f_equal. lia.
      * unfold size_of_child, child_size. destruct (HasChildTags c); [destruct (large && _)|];
          repeat (rewrite <- ?Z.add_assoc; rewrite wrap_add_l by lia); f_equal; lia.
    + replace (Z.to_nat (maxIter - i)) with O by lia. simpl. f_equal. lia.
Qed.

Lemma GetTagLen_size large t : GetTagLen large t = u32 (tag_size large t).
Proof.
  induction t as [name type data l Hl] using tag_ind. cbn [GetTagLen tag_size].
  rewrite length_loop_spec by done. rewrite Z.sub_0_r. f_equal. rewrite kept_map. f_equal. unfold max_children.
  by rewrite kept_children.
Qed.

Lemma child_size_lower large own c : own + 7 <= child_size large own c.
Proof. unfold child_size, header_size. case_match; [case_match|]; lia. Qed.

Lemma tag_size_nonneg large t : 0 <= tag_size large t.
Proof.
  induction t as [name type data l Hl] using tag_ind. cbn [tag_size]. rewrite kept_map.
  apply Z.add_nonneg_nonneg; [lia|]. apply (Forall_kept _ large) in Hl.
  induction Hl as [|c k Hc _ IH]; simpl; [lia|]. pose proof (child_size_lower large (tag_size large c) c). lia.
Qed.

Lemma children_size large l : Forall (fun c => tag_size large c <= sumZ (map (size_of_child large) l)) l /\
  7 * Z.of_nat (length l) <= sumZ (map (size_of_child large) l).
Proof.
  induction l as [|c l [IH1 IH2]]; simpl; [split; [constructor|lia]|].
  pose proof (child_size_lower large (tag_size large c) c) as H. fold (size_of_child large c) in H.
  pose proof (tag_size_nonneg large c).
  split; [|lia]. constructor; [lia|]. eapply Forall_impl; [exact IH1|]. simpl. lia.
Qed.

Lemma tag_size_children large name type data l :
  tag_size large (mkTag name type data l) = Z.of_nat (length data) + sumZ (map (size_of_child large) (kept large l)).
Proof. cbn [tag_size]. by rewrite kept_map. Qed.

(** The other end computes the same lengths. *)
Lemma tag_size_sent large t : tag_size large (sent large t) = tag_size large t.
Proof.
  induction t as [name type data l Hl] using tag_ind. cbn [sent]. rewrite !tag_size_children. f_equal.
  rewrite kept_kept, kept_map, map_map. f_equal. apply map_ext_in. intros c Hc.
  assert (tag_size large (sent large c) = tag_size large c) as E.
  { apply (Forall_kept _ large) in Hl. rewrite List.Forall_forall in Hl. by apply Hl. }
  unfold size_of_child, child_size. rewrite E. f_equal.
  destruct c as [n ty d k]. cbn [sent]. unfold HasChildTags, GetTagCount. cbn [m_tagList].
  rewrite kept_map. destruct k as [|c k]; [by destruct large|].
  destruct large; [|done]. cbn [kept]. rewrite length_map. done.
Qed.

(** ** What is written is read back *)

(** The lengths the number format holds. *)
Definition limit (flags : ec_flags) : Z := if EC_FLAG_UTF8_NUMBERS flags then 2 ^ 31 else 2 ^ 32.

Lemma writable_limit flags v : 0 <= v < limit flags -> writable flags 4 v.
Proof. unfold limit, writable, in_width. destruct (EC_FLAG_UTF8_NUMBERS flags); intros; split; (done || lia). Qed.

Lemma writable_small flags len v : len = 1 \/ len = 2 -> in_width (8 * len) v -> writable flags len v.
Proof. intros Hlen Hw. split; [done|]. intros _. destruct Hlen; subst; unfold in_width in Hw; simpl in Hw; lia. Qed.

Lemma count_spec flags l : Z.of_nat (length l) < limit flags \/ EC_FLAG_LARGE_TAG_COUNT flags = false ->
  exists bs, write_count flags l = Some bs /\ Forall is_byte bs /\ bs <> [] /\
    forall rest, read_count flags (bs ++ rest) = Some (max_children (EC_FLAG_LARGE_TAG_COUNT flags) l, rest).
Proof.
  intros Hl. unfold write_count, read_count, max_children.
  destruct (EC_FLAG_LARGE_TAG_COUNT flags) eqn:Ef; cbn [andb].
  - destruct Hl as [Hl|]; [|done].
    assert (in_width 32 (Z.of_nat (length l))) as Hw by (unfold limit, in_width in *; destruct (EC_FLAG_UTF8_NUMBERS flags); lia).
    destruct (Z.geb_spec (Z.of_nat (length l)) 0xFFFF).
    + destruct (WriteNumber_spec flags 2 0xFFFF) as (m & -> & Hm & Hne & Em); [lia|by apply writable_small; [lia|]|].
      destruct (WriteNumber_spec flags 4 (Z.of_nat (length l))) as (c & Ec & Hc & _ & Erc); [lia|by apply writable_limit; lia|].
      rewrite wrap_small by done. rewrite Ec. cbn. exists (m ++ c). split; [done|]. split; [by apply Forall_app|].
      split; [by destruct m; [destruct (Hne ltac:(lia))|]|]. intros rest. rewrite <- app_assoc, Em. simpl. apply Erc.
    + rewrite wrap_small by (unfold in_width; change (2 ^ 16) with 65536; lia).
      destruct (WriteNumber_spec flags 2 (Z.of_nat (length l))) as (m & -> & Hm & Hne & Em); [lia|apply writable_small; [lia|unfold in_width; change (2 ^ (8 * 2)) with 65536; lia]|].
      exists m. split; [done|]. split; [done|]. split; [by apply Hne|]. intros rest. rewrite Em.
      by rewrite (proj2 (Z.eqb_neq _ _)) by lia.
  - rewrite wrap_small by (unfold in_width; change (2 ^ 16) with 65536; lia).
    destruct (WriteNumber_spec flags 2 (Z.min (Z.of_nat (length l)) 0xFFFE)) as (m & -> & Hm & Hne & Em);
      [lia|apply writable_small; [lia|unfold in_width; change (2 ^ (8 * 2)) with 65536; lia]|].
    exists m. split; [done|]. split; [done|]. split; [by apply Hne|]. intros rest. by rewrite Em.
Qed.

(** A tag that can be written, and what it means that it is. *)
Definition written (flags : ec_flags) (t : CECTag) : Prop :=
  exists bs, WriteTag flags t = Some bs /\ Forall is_byte bs /\ (3 <= length bs)%nat /\
    forall fuel rest, (length bs <= fuel)%nat ->
      ReadTag fuel flags (bs ++ rest) = Got (sent (EC_FLAG_LARGE_TAG_COUNT flags) t) rest.

Lemma loop_written flags l : forall i max,
  Forall (written flags) (take (Z.to_nat (max - i)) l) ->
  exists bs, write_loop (WriteTag flags) i max l = Some bs /\ Forall is_byte bs /\
    forall fuel rest, (length bs < fuel)%nat ->
      read_loop fuel flags i (i + Z.of_nat (length (take (Z.to_nat (max - i)) l))) (bs ++ rest) =
        Got (map (sent (EC_FLAG_LARGE_TAG_COUNT flags)) (take (Z.to_nat (max - i)) l)) rest.
Proof.
  induction l as [|t l IH]; intros i max Hl; cbn [write_loop].
  - exists []. split; [done|]. split; [constructor|]. intros [|fuel] rest Hf; [simpl in Hf; lia|].
    rewrite take_nil. cbn [read_loop length]. by rewrite (proj2 (Z.ltb_ge _ _)) by lia.
  - destruct (Z.ltb_spec i max).
    + replace (Z.to_nat (max - i)) with (S (Z.to_nat (max - (i + 1)))) in * by lia. cbn [take map length] in *.
      apply Forall_cons in Hl as [(b & Eb & Hb & Hlen & Hr) Hl].
      destruct (IH (i + 1) max Hl) as (bs & Ebs & Hbs & Hrs). rewrite Eb, Ebs. cbn.
      exists (b ++ bs). split; [done|]. split; [by apply Forall_app|].
      intros [|fuel] rest Hf; [simpl in Hf; lia|]. rewrite length_app in Hf. rewrite <- app_assoc.
      cbn [read_loop]. rewrite (proj2 (Z.ltb_lt _ _)) by lia. rewrite Hr by lia.
      match goal with |- context [read_loop _ _ _ ?n] => replace n with (i + 1 + Z.of_nat (length (take (Z.to_nat (max - (i + 1))) l))) by lia end.
      by rewrite Hrs by lia.
    + replace (Z.to_nat (max - i)) with O by lia. exists []. split; [done|]. split; [constructor|].
      intros [|fuel] rest Hf; [simpl in Hf; lia|]. cbn [read_loop take length].
      by rewrite (proj2 (Z.ltb_ge _ _)) by lia.
Qed.

Lemma children_written flags l : Z.of_nat (length l) < limit flags \/ EC_FLAG_LARGE_TAG_COUNT flags = false ->
  Forall (written flags) (kept (EC_FLAG_LARGE_TAG_COUNT flags) l) ->
  exists bs, WriteChildren flags l = Some bs /\ Forall is_byte bs /\
    forall fuel rest, (length bs < fuel)%nat ->
      ReadChildren fuel flags (bs ++ rest) =
        Got (kept (EC_FLAG_LARGE_TAG_COUNT flags) (map (sent (EC_FLAG_LARGE_TAG_COUNT flags)) l)) rest.
Proof.
  intros Hn Hl. unfold WriteChildren, write_children.
  destruct (count_spec flags l Hn) as (c & -> & Hc & Hne & Ec).
  rewrite kept_map. set (large := EC_FLAG_LARGE_TAG_COUNT flags) in *. pose proof (kept_length large l) as Hk.
  rewrite kept_children in *. fold (max_children large l) in *. rewrite <- (Z.sub_0_r (max_children large l)) in Hl.
  destruct (loop_written flags l 0 _ Hl) as (bs & -> & Hbs & Hr). cbn. rewrite Z.sub_0_r in Hr.
  exists (c ++ bs). split; [done|]. split; [by apply Forall_app|].
  intros [|fuel] rest Hf; [lia|]. rewrite length_app in Hf. rewrite <- app_assoc. cbn [ReadChildren].
  rewrite Ec. rewrite Z.add_0_l, Hk in Hr. assert (length c <> O) by (by destruct c). apply Hr. lia.
Qed.

Lemma name_field name b : in_width 15 name -> let n := u16 (Z.lor (Z.shiftl name 1) (if b : bool then 1 else 0)) in
  in_width 16 n /\ Z.shiftr n 1 = name /\ negb (Z.land n 0x01 =? 0) = b.
Proof.
  intros Hn. unfold in_width in *.
  assert (Z.lor (Z.shiftl name 1) (if b then 1 else 0) = 2 * name + (if b then 1 else 0)) as ->.
  { rewrite Z.lor_comm, lor_shiftl_add by (unfold in_width; destruct b; lia). lia. }
  cbv zeta. rewrite wrap_small by (unfold in_width; change (2 ^ 16) with (2 * 2 ^ 15); destruct b; lia).
  change (2 ^ 16) with (2 * 2 ^ 15).
  rewrite Z.shiftr_div_pow2 by lia. change (Z.land ?x 0x01) with (Z.land x (Z.ones 1)). rewrite Z.land_ones by lia.
  change (2 ^ 1) with 2. split; [destruct b; lia|]. split; [destruct b; lia|].
  rewrite (Z.add_comm (2 * name)), (Z.mul_comm 2), Z.mod_add by lia. by destruct b.
Qed.

Lemma read_data_sent flags name type data l rest : tag_size (EC_FLAG_LARGE_TAG_COUNT flags) (mkTag name type data l) < 2 ^ 32 ->
  let large := EC_FLAG_LARGE_TAG_COUNT flags in
  read_data flags name type (tag_size large (mkTag name type data l)) (kept large (map (sent large) l)) (data ++ rest) =
    Got (sent large (mkTag name type data l)) rest.
Proof.
  intros Hs large. fold large in Hs. unfold read_data. fold large. rewrite GetTagLen_size.
  change (mkTag name type [] (kept large (map (sent large) l))) with (sent large (mkTag name type [] l)).
  rewrite tag_size_sent. pose proof (tag_size_nonneg large (mkTag name type [] l)) as H0.
  assert (tag_size large (mkTag name type data l) = Z.of_nat (length data) + tag_size large (mkTag name type [] l)) as E
    by (cbn [tag_size]; simpl; lia).
  rewrite wrap_small by (unfold in_width; lia). rewrite (proj2 (Z.ltb_ge _ _)) by lia.
  replace (_ - tag_size large (mkTag name type [] l)) with (Z.of_nat (length data)) by lia.
  rewrite Z.gtb_ltb. destruct data as [|b data]; [done|].
  rewrite (proj2 (Z.ltb_lt _ _)) by (simpl; lia). by rewrite ReadBuffer_app.
Qed.

Lemma WriteTag_spec flags t : wf_tag t -> tag_size (EC_FLAG_LARGE_TAG_COUNT flags) t < limit flags -> written flags t.
Proof.
  set (large := EC_FLAG_LARGE_TAG_COUNT flags).
  induction t as [name type data l Hl] using tag_ind. intros Hwf Hs. inversion Hwf as [? ? ? ? Hname Htype Hdata Hch]; subst.
  pose proof (tag_size_nonneg large (mkTag name type data l)) as H0.
  assert (limit flags <= 2 ^ 32) as Hlim by (unfold limit; destruct (EC_FLAG_UTF8_NUMBERS flags); lia).
  destruct (name_field name (match l with [] => false | _ => true end) Hname) as (Hn & En & Eb).
  unfold written. cbn [WriteTag]. rewrite GetTagLen_size. fold large. rewrite (wrap_small 32) by (unfold in_width; lia).
  replace (match l with [] => 0 | _ => 1 end) with (if match l with [] => false | _ => true end then 1 else 0) by (by destruct l).
  set (n := u16 _) in *. clearbody n.
  destruct (WriteNumber_spec flags 2 n) as (wn & -> & Hwn & Nn & Rn); [lia|apply writable_small; [lia|done]|].
  destruct (WriteNumber_spec flags 1 type) as (wt & -> & Hwt & Nt & Rt); [lia|apply writable_small; [lia|done]|].
  destruct (WriteNumber_spec flags 4 (tag_size large (mkTag name type data l))) as (wl & -> & Hwl & Nl & Rl); [lia|by apply writable_limit|].
  assert (exists wc, (match l with [] => Some [] | _ => write_children flags (WriteTag flags) l end) = Some wc /\ Forall is_byte wc /\
    forall fuel rest, (length wc < fuel)%nat ->
      (if negb (Z.land n 1 =? 0) then ReadChildren fuel flags (wc ++ rest) else Got [] (wc ++ rest)) =
        Got (kept large (map (sent large) l)) rest) as (wc & Ewc & Hwc & Rc).
  { rewrite Eb. destruct l as [|c l]; [exists []; by destruct large|].
    rewrite tag_size_children in Hs. destruct (children_size large (kept large (c :: l))) as [Hcs Hcl].
    apply (children_written flags (c :: l)).
    - fold large. destruct large eqn:El; [left|by right]. cbn [kept] in *. lia.
    - fold large. assert (Forall (fun c => tag_size large c < limit flags) (kept large (c :: l))) as Hsz.
      { eapply Forall_impl; [exact Hcs|]. simpl. lia. }
      apply (Forall_kept _ large) in Hl, Hch. clear -Hl Hch Hsz.
      induction Hl as [|x k Hx _ IH]; [constructor|]. apply Forall_cons in Hch as [? ?], Hsz as [? ?]. constructor; auto. }
  rewrite Ewc. cbn. eexists. split; [done|]. split; [repeat apply Forall_app_2; done|].
  assert (wn <> [] /\ wt <> [] /\ wl <> []) as (N1 & N2 & N3) by (split; [apply Nn|split; [apply Nt|apply Nl]]; lia).
  destruct wn as [|b1 wn]; [done|]. destruct wt as [|b2 wt]; [done|]. destruct wl as [|b3 wl]; [done|].
  split; [rewrite !length_app; simpl; lia|]. intros [|fuel] rest Hf; [rewrite !length_app in Hf; simpl in Hf; lia|].
  cbn [ReadTag]. rewrite <- !app_assoc, Rn, Rt, Rl, En. rewrite Rc by (rewrite !length_app in Hf; simpl in Hf; lia).
  apply read_data_sent. fold large. lia.
Qed.

(** ** Reading any bytes *)

(** Three bytes for each tag, and its data. *)
Fixpoint weight (t : CECTag) : Z :=
  match t with mkTag _ _ data children => 3 + Z.of_nat (length data) + sumZ (map weight children) end.

(** An end of reading: never for want of fuel; a value that is good and no heavier than the bytes taken. *)
Definition ends_well {A} (good : A -> Prop) (w : A -> Z) (bs : list Z) (o : outcome A) : Prop :=
  match o with
  | OutOfFuel => False
  | Failed => True
  | Got a rest => exists pre, bs = pre ++ rest /\ good a /\ w a <= Z.of_nat (length pre)
  end.

Definition weights (l : list CECTag) : Z := sumZ (map weight l).

Lemma weight_pos t : 3 <= weight t.
Proof.
  induction t as [name type data l Hl] using tag_ind. cbn [weight].
  assert (0 <= sumZ (map weight l)); [|lia]. induction Hl; simpl; lia.
Qed.

Lemma shift_name n : in_width 16 n -> in_width 15 (Z.shiftr n 1).
Proof. unfold in_width. rewrite Z.shiftr_div_pow2 by lia. change (2 ^ 16) with (2 * 2 ^ 15). change (2 ^ 1) with 2. lia. Qed.

Lemma read_data_ends flags name type tmp_len l bs : in_width 15 name -> in_width 8 type -> Forall wf_tag l ->
  Forall is_byte bs ->
  ends_well wf_tag (fun t => weight t - 3 - weights l) bs (read_data flags name type tmp_len l bs).
Proof.
  intros Hn Ht Hl Hb. unfold read_data, weights. destruct (_ <? _); [done|]. rewrite Z.gtb_ltb.
  set (n := tmp_len - _). destruct (Z.ltb_spec 0 n).
  - destruct (ReadBuffer n bs) as [[data rest]|] eqn:E; [|done]. apply ReadBuffer_inv in E as [-> E]; [|lia].
    apply Forall_app in Hb as [Hb _]. exists data. split; [done|]. split; [by constructor|]. cbn [weight]. lia.
  - exists []. split; [done|]. split; [by constructor|]. cbn [weight length]. lia.
Qed.

Lemma read_count_takes flags bs n rest : Forall is_byte bs -> read_count flags bs = Some (n, rest) ->
  exists pre, bs = pre ++ rest /\ pre <> [].
Proof.
  intros Hb. unfold read_count. destruct (ReadNumber flags 2 bs) as [[c bs1]|] eqn:E; [|done].
  apply ReadNumber_shrinks in E as (_ & pre & -> & Hne); [|lia|done].
  destruct (_ && _); [|intros [= <- <-]; by exists pre].
  apply Forall_app in Hb as [_ Hb]. intros E. apply ReadNumber_shrinks in E as (_ & pre' & -> & _); [|lia|done].
  exists (pre ++ pre'). rewrite app_assoc. split; [done|]. by destruct pre.
Qed.

Lemma reading_ends fuel flags : forall bs, Forall is_byte bs ->
  ((length bs < fuel)%nat -> ends_well wf_tag weight bs (ReadTag fuel flags bs)) /\
  ((length bs + 1 < fuel)%nat -> ends_well (Forall wf_tag) weights bs (ReadChildren fuel flags bs)) /\
  ((length bs + 1 < fuel)%nat -> forall i n, ends_well (Forall wf_tag) weights bs (read_loop fuel flags i n bs)).
Proof.
  induction fuel as [|fuel IH]; intros bs Hb; [split; [|split]; lia|]. split; [|split].
  - intros Hf. cbn [ReadTag].
    destruct (ReadNumber flags 2 bs) as [[n bs1]|] eqn:E1; [|done].
    apply ReadNumber_shrinks in E1 as (Hn & p1 & -> & N1); [|lia|done]. apply Forall_app in Hb as [Hb1 Hb].
    destruct (ReadNumber flags 1 bs1) as [[ty bs2]|] eqn:E2; [|done].
    apply ReadNumber_shrinks in E2 as (Ht & p2 & -> & N2); [|lia|done]. apply Forall_app in Hb as [Hb2 Hb].
    destruct (ReadNumber flags 4 bs2) as [[len bs3]|] eqn:E3; [|done].
    apply ReadNumber_shrinks in E3 as (_ & p3 & -> & N3); [|lia|done]. apply Forall_app in Hb as [Hb3 Hb].
    rewrite !length_app in Hf.
    assert (1 <= length p1 /\ 1 <= length p2 /\ 1 <= length p3)%nat as (L1 & L2 & L3)
      by (destruct p1, p2, p3; simpl; done || lia).
    assert (ends_well (Forall wf_tag) weights bs3
      (if negb (Z.land n 1 =? 0) then ReadChildren fuel flags bs3 else Got [] bs3)) as Hc.
    { destruct (negb _); [|by exists []]. apply (IH bs3 Hb). lia. }
    destruct (if negb _ then _ else _) as [| |l bs4]; [done..|]. destruct Hc as (p4 & -> & Hl & Hw).
    apply Forall_app in Hb as [Hb4 Hb].
    pose proof (read_data_ends flags (Z.shiftr n 1) ty len l bs4 (shift_name _ Hn) Ht Hl Hb) as Hd.
    destruct (read_data _ _ _ _ _ _) as [| |t rest]; [done..|]. destruct Hd as (p5 & -> & Hwf & Hwt).
    exists (p1 ++ p2 ++ p3 ++ p4 ++ p5). rewrite <- !app_assoc. split; [done|]. split; [done|].
    rewrite !length_app. lia.
  - intros Hf. cbn [ReadChildren]. destruct (read_count flags bs) as [[n bs1]|] eqn:E; [|done].
    apply read_count_takes in E as (p & -> & N); [|done]. apply Forall_app in Hb as [_ Hb]. rewrite length_app in Hf.
    assert (1 <= length p)%nat by (destruct p; simpl; done || lia).
    destruct (IH bs1 Hb) as (_ & _ & HL). specialize (HL ltac:(lia) 0 n).
    destruct (read_loop _ _ _ _ _) as [| |l rest]; [done..|]. destruct HL as (p' & -> & Hl & Hw).
    exists (p ++ p'). rewrite <- app_assoc. split; [done|]. split; [done|]. rewrite length_app. lia.
  - intros Hf i n. cbn [read_loop]. destruct (_ <? _); [|by exists []].
    destruct (IH bs Hb) as (HT & _ & _). specialize (HT ltac:(lia)).
    destruct (ReadTag _ _ _) as [| |t bs1]; [done..|]. destruct HT as (p & -> & Hwf & Hw).
    apply Forall_app in Hb as [_ Hb]. rewrite length_app in Hf. pose proof (weight_pos t).
    destruct (IH bs1 Hb) as (_ & _ & HL). specialize (HL ltac:(lia) (i + 1) n).
    destruct (read_loop _ _ _ _ _) as [| |l rest]; [done..|]. destruct HL as (p' & -> & Hl & Hw').
    exists (p ++ p'). rewrite <- app_assoc. split; [done|]. split; [by constructor|].
    rewrite length_app. unfold weights in *. cbn [map sumZ]. lia.
Qed.

(** ** Equality *)

(** Data of a length that fits its field, in every tag. *)
Inductive fits : CECTag -> Prop :=
| fits_mkTag name type data children : Z.of_nat (length data) < 2 ^ 32 -> Forall fits children ->
    fits (mkTag name type data children).

Lemma tag_eq_spec t : fits t -> forall u, fits u -> op_eq t u = true <-> t = u.
Proof.
  induction t as [name type data l Hl] using tag_ind. intros Ht [name' type' data' l'] Hu.
  inversion Ht as [? ? ? ? Hd Hc]; inversion Hu as [? ? ? ? Hd' Hc']; subst. cbn [op_eq m_dataType m_tagName m_tagList].
  unfold m_dataLen. cbn [m_tagData].
  rewrite !wrap_small by (unfold in_width; lia).
  assert (list_eqb op_eq l l' = true <-> l = l') as El.
  { clear Ht Hu. revert l' Hc'. induction Hl as [|c l Hx _ IH]; intros [|c' l'] Hc'; cbn [list_eqb]; try (by split).
    apply Forall_cons in Hc as [? ?], Hc' as [? ?]. rewrite andb_true_iff, (Hx ltac:(done) c'), IH by done.
    split; [intros [-> ->]; done|by intros [= -> ->]]. }
  rewrite !andb_true_iff, El, orb_true_iff, !Z.eqb_eq. unfold data_eqb. rewrite bool_decide_eq_true.
  split; [|intros [= -> -> -> ->]; tauto].
  intros [[[[-> ->] E] Hdata] ->]. destruct Hdata as [E0| ->]; [|done].
  destruct data; [|simpl in E0; lia]. destruct data'; [done|simpl in E; lia].
Qed.

(** ** Values *)

Inductive value :=
| VInt (v : Z)
| VString (s : list Z)
| VHash (h : list Z)
| VIPv4 (a : EC_IPv4_t)
| VUInt128 (x : CUInt128)
| VCustom (data : list Z).

Definition value_ok (v : value) : Prop :=
  match v with
  | VInt v => in_width 64 v
  | VString s => Forall is_byte s /\ Forall (fun b => b <> 0) s
  | VHash h => Forall is_byte h /\ length h = 16%nat
  | VIPv4 a => Forall is_byte (m_ip a) /\ length (m_ip a) = 4%nat /\ in_width 16 (m_port a)
  | VUInt128 x => wf_uint128 x
  | VCustom data => Forall is_byte data
  end.

Definition value_tag (name : Z) (v : value) : CECTag :=
  match v with
  | VInt v => InitInt name v
  | VString s => ConstructStringTag name s
  | VHash h => CECTag_hash name h
  | VIPv4 a => CECTag_ipv4 name a
  | VUInt128 x => CECTag_uint128 name x
  | VCustom data => CECTag_custom name data
  end.

(** What the accessor for values like [v] finds. *)
Definition get_value (v : value) (t : CECTag) : option value :=
  match v with
  | VInt _ => VInt <$> GetInt t
  | VString _ => VString <$> GetStringDataSTL t
  | VHash _ => VHash <$> GetMD4Data t
  | VIPv4 _ => VIPv4 <$> GetIPv4Data t
  | VUInt128 _ => VUInt128 <$> GetInt128Data t
  | VCustom _ => if IsCustom t then Some (VCustom (m_tagData t)) else None
  end.

Lemma until_nul_c_string s : Forall (fun b => b <> 0) s -> until_nul (c_string s) = Some s.
Proof.
  induction 1 as [|b s Hb _ IH]; [done|]. cbn [c_string]. rewrite (proj2 (Z.eqb_neq _ _) Hb). cbn [until_nul].
  by rewrite (proj2 (Z.eqb_neq _ _) Hb), IH.
Qed.

Lemma c_string_bytes s : Forall is_byte s -> Forall is_byte (c_string s).
Proof.
  assert (is_byte 0) by done.
  induction 1 as [|b s Hb Hs IH]; cbn [c_string]; [by repeat constructor|]. destruct (b =? 0); constructor; done || by constructor.
Qed.

Lemma peek_data_poke n name type v : in_width (8 * Z.of_nat n) v -> peek_data n (mkTag name type (poke_be n v) []) = Some v.
Proof.
  intros Hv. unfold peek_data. cbn [m_tagData]. rewrite poke_be_length, Nat.leb_refl, take_ge by (by rewrite poke_be_length).
  by rewrite peek_poke_be.
Qed.

Lemma GetInt_InitInt name v : in_width 64 v -> GetInt (InitInt name v) = Some v.
Proof.
  unfold in_width. intros Hv. unfold InitInt.
  assert (forall n, n <> O -> m_tagData (mkTag name 0 (poke_be n v) []) <> []) as Hne by by intros [|].
  destruct (Z.leb_spec v 0xFF); [|destruct (Z.leb_spec v 0xFFFF); [|destruct (Z.leb_spec v 0xFFFFFFFF)]];
    unfold GetInt; cbn [m_tagData m_dataType poke_be]; match goal with |- context [peek_data ?n _] => idtac end;
    cbn -[peek_data Z.pow Z.div Z.modulo].
  - apply (peek_data_poke 1). unfold in_width. simpl. lia.
  - apply (peek_data_poke 2). unfold in_width. simpl. lia.
  - apply (peek_data_poke 4). unfold in_width. simpl. lia.
  - apply (peek_data_poke 8). unfold in_width. simpl. lia.
Qed.

Lemma get_value_tag name v : value_ok v -> get_value v (value_tag name v) = Some v.
Proof.
  destruct v as [v|s|h|a|x|data]; cbn [value_ok get_value value_tag].
  - intros Hv. by rewrite GetInt_InitInt.
  - intros [_ Hs]. unfold GetStringDataSTL, ConstructStringTag. cbn [m_dataType m_tagData]. cbn [negb Z.eqb].
    pose proof (until_nul_c_string s Hs) as E. destruct (c_string s); [done|]. by rewrite E.
  - intros [_ Hl]. unfold GetMD4Data, CECTag_hash, take_data. simpl. destruct h as [|b h]; [done|].
    rewrite Hl. simpl. do 3 f_equal. apply take_ge. simpl in Hl. lia.
  - intros (_ & Hl & Hp). unfold GetIPv4Data, CECTag_ipv4, take_data. destruct a as [ip port]. simpl in Hl, Hp.
    destruct ip as [|a [|b [|c [|d [|]]]]]; try done.
    pose proof (peek_poke_be 2 port Hp) as E. pose proof (poke_be_length 2 port) as El. cbn [m_ip m_port].
    destruct (poke_be 2 port) as [|p1 [|p2 [|]]]; try done. cbn -[peek_be]. by rewrite E.
  - intros Hx. unfold GetInt128Data, CECTag_uint128, take_data. cbn [m_dataType m_tagData].
    pose proof (SetValueBE_ToByteArray x Hx) as E. assert (length (ToByteArray x) = 16%nat) as El by done.
    destruct (ToByteArray x) as [|b l]; [done|]. rewrite El, take_ge by lia. cbn -[SetValueBE]. by rewrite E.
  - intros _. done.
Qed.

(** Packets of values, added in order. *)
Definition packet_of (opCode : Z) (vs : list (Z * value)) : CECPacket :=
  fold_left (fun p nv => mkPacket (m_opCode p) (AddTag (value_tag nv.1 nv.2) (m_tag p)).1) vs
    (CECPacket_new opCode EC_DETAIL_FULL).

Lemma packet_of_eq opCode vs :
  packet_of opCode vs = mkPacket opCode (mkTag 0 EC_TAGTYPE_CUSTOM [] (map (fun nv => value_tag nv.1 nv.2) vs)).
Proof.
  unfold packet_of, CECPacket_new. simpl.
  assert (forall vs l, fold_left (fun p nv => mkPacket (m_opCode p) (AddTag (value_tag nv.1 nv.2) (m_tag p)).1) vs
    (mkPacket opCode (mkTag 0 EC_TAGTYPE_CUSTOM [] l)) =
    mkPacket opCode (mkTag 0 EC_TAGTYPE_CUSTOM [] (l ++ map (fun nv => value_tag nv.1 nv.2) vs))) as H; [|apply (H vs [])].
  clear vs. induction vs as [|nv vs IH]; intros l; simpl; [by rewrite app_nil_r|]. rewrite IH. by rewrite <- app_assoc.
Qed.

Lemma value_tag_shape name v : m_tagName (value_tag name v) = name /\ m_tagList (value_tag name v) = [].
Proof. destruct v; try by split. simpl. unfold InitInt. by repeat case_match. Qed.

Lemma value_tag_wf name v : in_width 15 name -> value_ok v -> wf_tag (value_tag name v).
Proof.
  intros Hn Hv. assert (forall n ty d, in_width 8 ty -> Forall is_byte d -> m_tagName (mkTag n ty d []) = name -> wf_tag (mkTag n ty d [])) as H.
  { simpl. intros ? ? ? ? ? ->. by constructor. }
  destruct v as [v|s|h|a|x|data]; cbn [value_tag].
  - unfold InitInt. repeat case_match; apply H; try done; apply poke_be_bytes.
  - apply H; try done. apply c_string_bytes, Hv.
  - apply H; try done. apply Hv.
  - apply H; try done. apply Forall_app_2; [apply Hv|apply poke_be_bytes].
  - apply H; try done. unfold ToByteArray. repeat apply Forall_app_2; apply RawPoke_bytes.
  - apply H; try done.
Qed.

Lemma find_value name vs :
  find_tag name (map (fun nv => value_tag nv.1 nv.2) vs) =
    (fun nv => value_tag nv.1 nv.2) <$> List.find (fun nv => nv.1 =? name) vs.
Proof.
  induction vs as [|[n v] vs IH]; cbn [map find_tag List.find fst snd]; [done|].
  rewrite (proj1 (value_tag_shape n v)). by destruct (n =? name).
Qed.

Lemma sent_value large name v : sent large (value_tag name v) = value_tag name v.
Proof.
  pose proof (proj2 (value_tag_shape name v)) as E. destruct (value_tag name v) as [n ty d l]. simpl in E. subst l.
  by destruct large.
Qed.

(** Packets pass through the wire. *)
Lemma packet_written flags opCode l rest : in_width 8 opCode -> Forall wf_tag l ->
  tag_size (EC_FLAG_LARGE_TAG_COUNT flags) (mkTag 0 EC_TAGTYPE_CUSTOM [] l) < limit flags ->
  exists bs, WritePacket flags (mkPacket opCode (mkTag 0 EC_TAGTYPE_CUSTOM [] l)) = Some bs /\ Forall is_byte bs /\
    PacketReadFromSocket flags (bs ++ rest) =
      Got (mkPacket opCode (sent (EC_FLAG_LARGE_TAG_COUNT flags) (mkTag 0 EC_TAGTYPE_CUSTOM [] l))) rest.
Proof.
  intros Hop Hl Hs. set (large := EC_FLAG_LARGE_TAG_COUNT flags) in *. unfold WritePacket, PacketReadFromSocket. cbn [m_opCode m_tag m_tagList].
  destruct (WriteNumber_spec flags 1 opCode) as (wo & -> & Hwo & _ & Ro); [lia|apply writable_small; [lia|done]|].
  rewrite tag_size_children in Hs. destruct (children_size large (kept large l)) as [Hcs Hcl].
  destruct (children_written flags l) as (wc & -> & Hwc & Rc).
  - fold large. destruct large eqn:El; [left|by right]. cbn [kept length] in *. lia.
  - fold large. apply (Forall_kept _ large) in Hl. rewrite Forall_forall in *. intros c Hc.
    apply WriteTag_spec; [by apply Hl|]. fold large. specialize (Hcs c Hc). simpl in Hs. lia.
  - cbn [mbind option_bind]. exists (wo ++ wc). split; [done|]. split; [by apply Forall_app_2|].
    rewrite <- app_assoc, Ro. cbv iota beta. rewrite Rc by (unfold read_fuel; rewrite length_app; lia). done.
Qed.

(** ** Properties *)

(** No tag has more children than an old peer can be sent. *)
Inductive narrow : CECTag -> Prop :=
| narrow_mkTag name type data children : Z.of_nat (length children) <= 0xFFFE -> Forall narrow children ->
    narrow (mkTag name type data children).

Lemma sent_narrow large t : large = true \/ narrow t -> sent large t = t.
Proof.
  induction t as [name type data l Hl] using tag_ind. intros H. cbn [sent].
  assert (map (sent large) l = l) as ->.
  { rewrite <- (map_id l) at 2. apply map_ext_in. intros c Hc. rewrite List.Forall_forall in Hl. apply Hl; [done|].
    destruct H as [H|H]; [by left|right]. inversion H as [? ? ? ? _ Hn]; subst. rewrite List.Forall_forall in Hn. by apply Hn. }
  destruct H as [-> |H]; [done|]. inversion H as [? ? ? ? Hn _]; subst. destruct large; [done|].
  unfold kept. by rewrite take_ge by lia.
Qed.

(** C31: What one end writes the other reads.  A packet with any tree of tags whose length fits the
    number format is written, and reading those bytes, whatever follows them, takes just them and
    gives back the operation code and the tree: the whole tree when the peers agreed on large
    counts or no tag has more than 65534 children, and otherwise the tree without the children
    beyond that, at every level. *)
Theorem ec_packet_roundtrip (flags : ec_flags) (opCode : Z) (tags : list CECTag) (rest : list Z)
  (Hop : in_width 8 opCode) (Hwf : Forall wf_tag tags)
  (Hsize : tag_size (EC_FLAG_LARGE_TAG_COUNT flags) (mkTag 0 EC_TAGTYPE_CUSTOM [] tags) < limit flags) :
  let root := mkTag 0 EC_TAGTYPE_CUSTOM [] tags in
  exists bs, WritePacket flags (mkPacket opCode root) = Some bs /\ Forall is_byte bs /\
    PacketReadFromSocket flags (bs ++ rest) = Got (mkPacket opCode (sent (EC_FLAG_LARGE_TAG_COUNT flags) root)) rest /\
    (EC_FLAG_LARGE_TAG_COUNT flags = true \/ narrow root -> sent (EC_FLAG_LARGE_TAG_COUNT flags) root = root).
Proof.
  intros root. destruct (packet_written flags opCode tags rest Hop Hwf Hsize) as (bs & E & Hb & Er).
  exists bs. split; [done|]. split; [done|]. split; [done|]. apply sent_narrow.
Qed.

(** C32: Reading ends, whatever the bytes: a packet is refused, or a well-formed tree is read from the
    first bytes and the rest is left.  The tree is no larger than the bytes it was read from: three for
    each of its tags and one for each byte of data. *)
Theorem ec_packet_total (flags : ec_flags) (bs : list Z) (Hbs : Forall is_byte bs) :
  match PacketReadFromSocket flags bs with
  | OutOfFuel => False
  | Failed => True
  | Got p rest =>
      exists pre, bs = pre ++ rest /\ in_width 8 (m_opCode p) /\ wf_tag (m_tag p) /\
        weight (m_tag p) - 3 < Z.of_nat (length pre)
  end.
Proof.
  unfold PacketReadFromSocket. destruct (ReadNumber flags 1 bs) as [[op bs1]|] eqn:E; [|done].
  apply ReadNumber_shrinks in E as (Hop & p & -> & Hne); [|lia|done]. apply Forall_app in Hbs as [_ Hb].
  destruct (reading_ends (read_fuel bs1) flags bs1 Hb) as (_ & H & _). specialize (H ltac:(unfold read_fuel; lia)).
  destruct (ReadChildren _ _ _) as [| |l rest]; [done..|]. destruct H as (p' & -> & Hl & Hw).
  exists (p ++ p'). rewrite <- app_assoc. split; [done|]. split; [exact Hop|].
  split; [by constructor|]. cbn [m_tag weight length]. unfold weights in Hw. rewrite length_app.
  destruct p; [done|]. simpl. lia.
Qed.

(** C33: Values arrive.  A packet of named values (integers of any size, strings, hashes, addresses,
    128-bit numbers, raw bytes) is written and read; under each name the accessor of the first
    value's kind finds that value, and a name that was not given is not found. *)
Theorem ec_values_delivered (flags : ec_flags) (opCode : Z) (vs : list (Z * value)) (rest : list Z)
  (Hop : in_width 8 opCode) (Hvs : Forall (fun nv => in_width 15 nv.1 /\ value_ok nv.2) vs)
  (Hmany : EC_FLAG_LARGE_TAG_COUNT flags = true \/ Z.of_nat (length vs) <= 0xFFFE)
  (Hsize : tag_size (EC_FLAG_LARGE_TAG_COUNT flags) (m_tag (packet_of opCode vs)) < limit flags) :
  exists bs p, WritePacket flags (packet_of opCode vs) = Some bs /\
    PacketReadFromSocket flags (bs ++ rest) = Got p rest /\ m_opCode p = opCode /\
    forall name,
      match List.find (fun nv => nv.1 =? name) vs with
      | Some (_, v) => get_value v (GetTagByNameSafe name (m_tag p)) = Some v
      | None => GetTagByName name (m_tag p) = None
      end.
Proof.
  rewrite packet_of_eq in *. set (tags := map (fun nv => value_tag nv.1 nv.2) vs) in *.
  assert (Forall wf_tag tags) as Hwf.
  { apply Forall_map. eapply Forall_impl; [exact Hvs|]. intros [n v] [Hn Hv]. by apply value_tag_wf. }
  destruct (packet_written flags opCode tags rest Hop Hwf Hsize) as (bs & E & _ & Er).
  exists bs. eexists. split; [exact E|]. split; [exact Er|]. split; [done|]. intros name.
  assert (kept (EC_FLAG_LARGE_TAG_COUNT flags) (map (sent (EC_FLAG_LARGE_TAG_COUNT flags)) tags) = tags) as Ek.
  { subst tags. rewrite map_map. erewrite map_ext; [|intros; apply sent_value].
    destruct Hmany as [-> |Hm]; [done|]. destruct (EC_FLAG_LARGE_TAG_COUNT flags); [done|].
    unfold kept. by rewrite take_ge by (rewrite length_map; lia). }
  cbn [m_tag sent]. rewrite Ek. unfold GetTagByNameSafe, GetTagByName. cbn [m_tagList]. subst tags. rewrite find_value.
  destruct (List.find (fun nv => nv.1 =? name) vs) as [[n v]|] eqn:Ef; [|done]. cbn.
  apply get_value_tag. apply find_some in Ef as [Hin _]. rewrite List.Forall_forall in Hvs. by apply (Hvs (n, v)).
Qed.

(** ** Instances *)

(** A tag with two children, one of them nested. *)
Definition sample_tags : list CECTag :=
  [mkTag 0x300 EC_TAGTYPE_HASH16 (replicate 16 7)
     [InitInt 0x301 0x12345; (AddTag (ConstructStringTag 0x303 [97]) (ConstructStringTag 0x302 [0xC3; 0xA9; 0x6C])).1]].

Definition sample_values : list (Z * value) :=
  [(1, VInt 70000); (2, VString [0x61; 0x62]); (1, VInt 3); (3, VIPv4 (EC_IPv4_new 0x0100007F 4662)); (4, VHash (replicate 16 9))].

Lemma sample_tags_wf : Forall wf_tag sample_tags.
Proof.
  unfold sample_tags. repeat match goal with
  | |- Forall _ _ => cbn; constructor
  | |- wf_tag _ => constructor
  | |- _ => by vm_compute
  end.
Qed.

Lemma ec_packet_roundtrip_witness :
  exists bs, WritePacket (mkFlags true false) (mkPacket 0x1F (mkTag 0 EC_TAGTYPE_CUSTOM [] sample_tags)) = Some bs /\
    PacketReadFromSocket (mkFlags true false) (bs ++ [1; 2]) = Got (mkPacket 0x1F (mkTag 0 EC_TAGTYPE_CUSTOM [] sample_tags)) [1; 2].
Proof.
  destruct (ec_packet_roundtrip (mkFlags true false) 0x1F sample_tags [1; 2]) as (bs & E & _ & Er & _);
    [vm_compute; split; (discriminate || reflexivity)|apply sample_tags_wf|vm_compute; reflexivity|].
  exists bs. split; [exact E|]. rewrite Er. vm_compute. reflexivity.
Defined.

Lemma ec_packet_total_witness :
  match PacketReadFromSocket (mkFlags false true) [5; 255; 255; 0; 0; 0; 0; 9] with
  | OutOfFuel => False
  | Failed => True
  | Got p rest => exists pre, [5; 255; 255; 0; 0; 0; 0; 9] = pre ++ rest /\ in_width 8 (m_opCode p) /\ wf_tag (m_tag p) /\
      weight (m_tag p) - 3 < Z.of_nat (length pre)
  end.
Proof. apply ec_packet_total. repeat (apply Forall_cons; split; [by vm_compute|]). by apply Forall_nil. Defined.

Lemma ec_values_delivered_witness :
  exists bs p, WritePacket (mkFlags true true) (packet_of 4 sample_values) = Some bs /\
    PacketReadFromSocket (mkFlags true true) bs = Got p [] /\ GetInt (GetTagByNameSafe 1 (m_tag p)) = Some 70000.
Proof.
  destruct (ec_values_delivered (mkFlags true true) 4 sample_values []) as (bs & p & E & Er & _ & H);
    [vm_compute; split; (discriminate || reflexivity)| |by left|vm_compute; reflexivity|].
  - unfold sample_values. repeat match goal with
      | |- Forall _ [] => by apply Forall_nil
      | |- Forall _ _ => cbn; apply Forall_cons
      | |- _ /\ _ => split
      | |- value_ok _ => progress cbn
      | |- _ => by vm_compute
      end.
  - exists bs, p. rewrite app_nil_r in Er. split; [exact E|]. split; [exact Er|].
    specialize (H 1). simpl in H. destruct (GetInt _); [|discriminate]. by injection H as ->.
Defined.

(** The length of a value received is not compared with its type: reading a 32-bit number that
    came with one byte leaves the data. *)
Example short_integer_overreads :
  exists t rest, ReadFromSocket (mkFlags true true) [2; 4; 1; 7] = Got t rest /\ GetInt t = None.
Proof. vm_compute. do 2 eexists. split; reflexivity. Qed.

(** [GetTagDataLen] keeps 16 bits of the length. *)
Lemma tag_data_len_truncated (data : list Z) : Z.of_nat (length data) = 65536 ->
  GetTagDataLen (CECTag_custom 1 data) = 0.
Proof. intros H. unfold GetTagDataLen, m_dataLen. cbn [m_tagData CECTag_custom]. by rewrite H. Qed.
