(* ===== verification/ValueMap.v ===== *)
(** * Incremental updates ([CValueMap] of [libs/ec/cpp/ECSpecialTags.h])

    The core keeps, for each object and remote end, the values it sent last and sends a tag only
    when its value changed.  Texts of wxWidgets and their UTF-8 form are parameters; the map for
    floating-point numbers is left out. *)
From S2P Require Import Prelude StdMap UInt128 NetworkFunctions DataIO ECSocket ECTag.

Section ValueMap.

Context {wxString : Type} `{EqDecision wxString} (unicode2UTF8 : wxString -> list Z).

Record CValueMap := mkValueMap {
  m_map_uint8 : list (Z * Z);
  m_map_uint16 : list (Z * Z);
  m_map_uint32 : list (Z * Z);
  m_map_uint64 : list (Z * Z);
  m_map_md4 : list (Z * list Z);
  m_map_uint128 : list (Z * CUInt128);
  m_map_string : list (Z * wxString);
  m_map_bool : list (Z * bool);
  m_map_tag : list (Z * CECTag)
}.

Definition CValueMap_new : CValueMap := mkValueMap [] [] [] [] [] [] [] [] [].

(** ** The template: the map with the value and the parent with the tag, if the value changed *)

Definition CreateTagT {T} (ne : T -> T -> bool) (tag : Z -> T -> CECTag) (tagname : Z) (value : T)
  (map : list (Z * T)) (parent : CECTag) : list (Z * T) * CECTag :=
  match mfind tagname map with
  | Some second =>
      if ne second value then (mset tagname value map, (AddTag (tag tagname value) parent).1) else (map, parent)
  | None => (mset tagname value map, (AddTag (tag tagname value) parent).1)
  end.

Definition Z_ne (a b : Z) : bool := negb (a =? b).
Definition hash_ne (a b : list Z) : bool := negb (bool_decide (a = b)).
Definition string_ne (a b : wxString) : bool := negb (bool_decide (a = b)).
Definition bool_ne (a b : bool) : bool := negb (Bool.eqb a b).
Definition tag_ne (a b : CECTag) : bool := negb (ECTag.op_eq a b).

Definition CECTag_bool (name : Z) (data : bool) : CECTag := InitInt name (if data then 1 else 0).
Definition CECTag_wxString (name : Z) (data : wxString) : CECTag := ConstructStringTag name (unicode2UTF8 data).

(** ** The overloads *)

Definition CreateTag_uint8 (tagname value : Z) (m : CValueMap) (parent : CECTag) : CValueMap * CECTag :=
  let '(mkValueMap a b c d e f g h i) := m in
  let '(a, parent) := CreateTagT Z_ne InitInt tagname value a parent in (mkValueMap a b c d e f g h i, parent).

Definition CreateTag_uint16 (tagname value : Z) (m : CValueMap) (parent : CECTag) : CValueMap * CECTag :=
  let '(mkValueMap a b c d e f g h i) := m in
  let '(b, parent) := CreateTagT Z_ne InitInt tagname value b parent in (mkValueMap a b c d e f g h i, parent).

Definition CreateTag_uint32 (tagname value : Z) (m : CValueMap) (parent : CECTag) : CValueMap * CECTag :=
  let '(mkValueMap a b c d e f g h i) := m in
  let '(c, parent) := CreateTagT Z_ne InitInt tagname value c parent in (mkValueMap a b c d e f g h i, parent).

Definition CreateTag_uint64 (tagname value : Z) (m : CValueMap) (parent : CECTag) : CValueMap * CECTag :=
  let '(mkValueMap a b c d e f g h i) := m in
  let '(d, parent) := CreateTagT Z_ne InitInt tagname value d parent in (mkValueMap a b c d e f g h i, parent).

Definition CreateTag_md4 (tagname : Z) (value : list Z) (m : CValueMap) (parent : CECTag) : CValueMap * CECTag :=
  let '(mkValueMap a b c d e f g h i) := m in
  let '(e, parent) := CreateTagT hash_ne CECTag_hash tagname value e parent in (mkValueMap a b c d e f g h i, parent).

Definition CreateTag_uint128 (tagname : Z) (value : CUInt128) (m : CValueMap) (parent : CECTag) : CValueMap * CECTag :=
  let '(mkValueMap a b c d e f g h i) := m in
  let '(f, parent) := CreateTagT op_ne CECTag_uint128 tagname value f parent in (mkValueMap a b c d e f g h i, parent).

Definition CreateTag_string (tagname : Z) (value : wxString) (m : CValueMap) (parent : CECTag) : CValueMap * CECTag :=
  let '(mkValueMap a b c d e f g h i) := m in
  let '(g, parent) := CreateTagT string_ne CECTag_wxString tagname value g parent in (mkValueMap a b c d e f g h i, parent).

Definition CreateTag_bool (tagname : Z) (value : bool) (m : CValueMap) (parent : CECTag) : CValueMap * CECTag :=
  let '(mkValueMap a b c d e f g h i) := m in
  let '(h, parent) := CreateTagT bool_ne CECTag_bool tagname value h parent in (mkValueMap a b c d e f g h i, parent).

(** Whole tags, by their name: whether it was sent, the map and the parent. *)
Definition ValueMap_AddTag (tag : CECTag) (m : CValueMap) (parent : CECTag) : bool * CValueMap * CECTag :=
  let '(mkValueMap a b c d e f g h i) := m in
  let tagname := m_tagName tag in
  let changed := match mfind tagname i with None => true | Some last => tag_ne last tag end in
  if changed then (true, mkValueMap a b c d e f g h (mset tagname tag i), (AddTag tag parent).1)
  else (false, m, parent).

Definition ForgetTag (tagname : Z) (m : CValueMap) : CValueMap :=
  let '(mkValueMap a b c d e f g h i) := m in mkValueMap a b c d e f g h (merase tagname i).

Definition HasTag (tagname : Z) (m : CValueMap) : bool :=
  match mfind tagname (m_map_tag m) with Some _ => true | None => false end.

(** ** Fields of an object *)

Inductive field :=
| FUInt8 (v : Z) | FUInt16 (v : Z) | FUInt32 (v : Z) | FUInt64 (v : Z)
| FHash (v : list Z) | FUInt128 (v : CUInt128) | FString (v : wxString) | FBool (v : bool)
| FTag (type : Z) (data : list Z) (children : list CECTag).

(** The tag a full answer holds. *)
Definition field_tag (name : Z) (f : field) : CECTag :=
  match f with
  | FUInt8 v | FUInt16 v | FUInt32 v | FUInt64 v => InitInt name v
  | FHash v => CECTag_hash name v
  | FUInt128 v => CECTag_uint128 name v
  | FString v => CECTag_wxString name v
  | FBool v => CECTag_bool name v
  | FTag type data children => mkTag name type data children
  end.

(** [AddDiffTag] and [AddTag] with a value map, which may be NULL. *)
Definition AddDiffTag (parent : CECTag) (name : Z) (f : field) (valuemap : option CValueMap) :
  option CValueMap * CECTag :=
  match valuemap with
  | None => (None, (AddTag (field_tag name f) parent).1)
  | Some m =>
      let '(m, parent) :=
        match f with
        | FUInt8 v => CreateTag_uint8 name v m parent
        | FUInt16 v => CreateTag_uint16 name v m parent
        | FUInt32 v => CreateTag_uint32 name v m parent
        | FUInt64 v => CreateTag_uint64 name v m parent
        | FHash v => CreateTag_md4 name v m parent
        | FUInt128 v => CreateTag_uint128 name v m parent
        | FString v => CreateTag_string name v m parent
        | FBool v => CreateTag_bool name v m parent
        | FTag _ _ _ => let '(_, m, parent) := ValueMap_AddTag (field_tag name f) m parent in (m, parent)
        end in
      (Some m, parent)
  end.

(** ** One step *)

Definition kind (f : field) : nat :=
  match f with
  | FUInt8 _ => 0 | FUInt16 _ => 1 | FUInt32 _ => 2 | FUInt64 _ => 3 | FHash _ => 4 | FUInt128 _ => 5
  | FString _ => 6 | FBool _ => 7 | FTag _ _ _ => 8
  end.

Definition same {T} (ne : T -> T -> bool) (name : Z) (value : T) (map : list (Z * T)) : bool :=
  match mfind name map with Some second => negb (ne second value) | None => false end.

(** The value sent last was this one. *)
Definition unchanged (name : Z) (f : field) (m : CValueMap) : bool :=
  match f with
  | FUInt8 v => same Z_ne name v (m_map_uint8 m)
  | FUInt16 v => same Z_ne name v (m_map_uint16 m)
  | FUInt32 v => same Z_ne name v (m_map_uint32 m)
  | FUInt64 v => same Z_ne name v (m_map_uint64 m)
  | FHash v => same hash_ne name v (m_map_md4 m)
  | FUInt128 v => same op_ne name v (m_map_uint128 m)
  | FString v => same string_ne name v (m_map_string m)
  | FBool v => same bool_ne name v (m_map_bool m)
  | FTag _ _ _ => same tag_ne name (field_tag name f) (m_map_tag m)
  end.

Definition store (name : Z) (f : field) (m : CValueMap) : CValueMap :=
  let '(mkValueMap a b c d e f' g h i) := m in
  match f with
  | FUInt8 v => mkValueMap (mset name v a) b c d e f' g h i
  | FUInt16 v => mkValueMap a (mset name v b) c d e f' g h i
  | FUInt32 v => mkValueMap a b (mset name v c) d e f' g h i
  | FUInt64 v => mkValueMap a b c (mset name v d) e f' g h i
  | FHash v => mkValueMap a b c d (mset name v e) f' g h i
  | FUInt128 v => mkValueMap a b c d e (mset name v f') g h i
  | FString v => mkValueMap a b c d e f' (mset name v g) h i
  | FBool v => mkValueMap a b c d e f' g (mset name v h) i
  | FTag _ _ _ => mkValueMap a b c d e f' g h (mset name (field_tag name f) i)
  end.

Lemma CreateTagT_same {T} ne tag name (value : T) map parent :
  CreateTagT ne tag name value map parent =
    if same ne name value map then (map, parent) else (mset name value map, (AddTag (tag name value) parent).1).
Proof. unfold CreateTagT, same. destruct (mfind name map); [|done]. by destruct (ne _ _). Qed.

Lemma AddDiffTag_spec parent name f m :
  AddDiffTag parent name f (Some m) =
    if unchanged name f m then (Some m, parent)
    else (Some (store name f m), (AddTag (field_tag name f) parent).1).
Proof.
  destruct m as [a b c d e f' g h i].
  destruct f; cbn [AddDiffTag unchanged store m_map_uint8 m_map_uint16 m_map_uint32 m_map_uint64 m_map_md4
    m_map_uint128 m_map_string m_map_bool m_map_tag];
    unfold CreateTag_uint8, CreateTag_uint16, CreateTag_uint32, CreateTag_uint64, CreateTag_md4, CreateTag_uint128,
      CreateTag_string, CreateTag_bool; rewrite ?CreateTagT_same;
    try (by match goal with |- context [same ?n ?k ?v ?m] => destruct (same n k v m) end).
  unfold ValueMap_AddTag, same. cbn [field_tag m_tagName]. destruct (mfind name i) as [last|]; [|done].
  by destruct (tag_ne _ _).
Qed.

(** ** What a comparison of values means *)

Definition field_ok (name : Z) (f : field) : Prop :=
  match f with FTag _ _ _ => fits (field_tag name f) | _ => True end.

Lemma compare_chunks_eq l : compare_chunks l = 0 -> Forall (fun p => p.1 = p.2) l.
Proof.
  induction l as [|[a b] l IH]; simpl; [constructor|]. rewrite Z.gtb_ltb.
  destruct (Z.ltb_spec a b); [done|]. destruct (Z.ltb_spec b a); [done|]. intros H1. constructor; [simpl; lia|auto].
Qed.

Lemma op_ne_spec x y : op_ne x y = false <-> x = y.
Proof.
  unfold op_ne. rewrite negb_false_iff, Z.eqb_eq. destruct x as [a b c d], y as [a' b' c' d']. split.
  - intros H. apply compare_chunks_eq in H. cbn in H. rewrite !Forall_cons in H. simpl in H. f_equal; tauto.
  - intros [= -> -> -> ->]. unfold CompareTo. cbn. by rewrite !Z.ltb_irrefl, !Z.gtb_ltb, !Z.ltb_irrefl.
Qed.

(** The stored value against another of the same kind. *)
Lemma unchanged_store name f g m : kind f = kind g -> field_ok name f -> field_ok name g ->
  unchanged name g (store name f m) = true <-> f = g.
Proof.
  intros Hk Hf Hg. destruct m as [m1 m2 m3 m4 m5 m6 m7 m8 m9].
  destruct f, g; try discriminate Hk;
    cbn [unchanged store m_map_uint8 m_map_uint16 m_map_uint32 m_map_uint64 m_map_md4
      m_map_uint128 m_map_string m_map_bool m_map_tag];
    unfold same; rewrite mfind_set_eq, negb_true_iff.
  1-4: unfold Z_ne; rewrite negb_false_iff, Z.eqb_eq; split; [by intros ->|congruence].
  - unfold hash_ne. rewrite negb_false_iff, bool_decide_eq_true. split; [by intros ->|congruence].
  - rewrite op_ne_spec. split; [by intros ->|congruence].
  - unfold string_ne. rewrite negb_false_iff, bool_decide_eq_true. split; [by intros ->|congruence].
  - unfold bool_ne. rewrite negb_false_iff, eqb_true_iff. split; [by intros ->|congruence].
  - unfold tag_ne. rewrite negb_false_iff, tag_eq_spec by done. cbn [field_tag]. split; congruence.
Qed.

Lemma unchanged_store_other name name' f g m : name' <> name ->
  unchanged name' g (store name f m) = unchanged name' g m.
Proof.
  intros Hn. destruct m as [m1 m2 m3 m4 m5 m6 m7 m8 m9].
  destruct f, g; cbn [unchanged store m_map_uint8 m_map_uint16 m_map_uint32 m_map_uint64 m_map_md4
      m_map_uint128 m_map_string m_map_bool m_map_tag]; try done; unfold same; by rewrite mfind_set_ne.
Qed.

(** ** Updates: the fields of an object, in order, as children of a tag *)

Definition update_step (fields : option CValueMap * CECTag) (nf : Z * field) : option CValueMap * CECTag :=
  AddDiffTag fields.2 nf.1 nf.2 fields.1.

Definition update (fields : list (Z * field)) (valuemap : option CValueMap) : option CValueMap * CECTag :=
  fold_left update_step fields (valuemap, CECEmptyTag 0).

(** The other end overwrites what it knows with each tag it gets. *)
Definition learn (known : gmap Z CECTag) (tags : list CECTag) : gmap Z CECTag :=
  fold_left (fun known t => <[m_tagName t := t]> known) tags known.

Lemma learn_app known tags tags' : learn known (tags ++ tags') = learn (learn known tags) tags'.
Proof. apply fold_left_app. Qed.

Lemma field_tag_name name f : m_tagName (field_tag name f) = name.
Proof. destruct f; try done; cbn [field_tag CECTag_bool]; unfold CECTag_bool, InitInt; by repeat case_match. Qed.

(** ** What the other end knows *)

Section Mirror.

(** A name is always used for values of one kind. *)
Context (K : Z -> nat).

Definition allowed (nf : Z * field) : Prop := kind nf.2 = K nf.1 /\ field_ok nf.1 nf.2.

(** Every value that would not be sent again is known. *)
Record knows (m : CValueMap) (known : gmap Z CECTag) : Prop := {
  knows_sorted : msorted (m_map_tag m);
  knows_unchanged name f : allowed (name, f) -> unchanged name f m = true ->
    known !! name = Some (field_tag name f)
}.

Lemma store_sorted name f m : msorted (m_map_tag m) -> msorted (m_map_tag (store name f m)).
Proof. destruct m, f; simpl; auto with amule. Qed.

Lemma knows_step m known parent name f : knows m known -> allowed (name, f) ->
  exists m' tags, AddDiffTag parent name f (Some m) =
      (Some m', mkTag (m_tagName parent) (m_dataType parent) (m_tagData parent) (m_tagList parent ++ tags)) /\
    learn known tags = <[name := field_tag name f]> known /\ knows m' (<[name := field_tag name f]> known).
Proof.
  intros Hk Ha. rewrite AddDiffTag_spec. destruct (unchanged name f m) eqn:Eu.
  - exists m, []. rewrite app_nil_r. split; [by destruct parent|].
    assert (<[name := field_tag name f]> known = known) as ->; [|done].
    apply insert_id. by apply (knows_unchanged m).
  - exists (store name f m), [field_tag name f]. split; [done|]. cbn [learn fold_left]. rewrite field_tag_name.
    split; [done|]. split; [apply store_sorted, Hk|]. intros name' g Hg Hu.
    destruct (decide (name' = name)) as [->|Hn].
    + destruct Ha as [Ka Oa], Hg as [Kg Og]. simpl in *.
      apply unchanged_store in Hu; [|congruence|done..]. subst g. by rewrite lookup_insert_eq.
    + rewrite unchanged_store_other in Hu by done. rewrite lookup_insert_ne by done. by apply (knows_unchanged m).
Qed.

Lemma update_knows fields : Forall allowed fields -> forall m known parent parent' known',
  knows m known -> learn known' (m_tagList parent') = known ->
  exists m' tags, fold_left update_step fields (Some m, parent) =
      (Some m', mkTag (m_tagName parent) (m_dataType parent) (m_tagData parent) (m_tagList parent ++ tags)) /\
    knows m' (learn known tags) /\
    learn known' (m_tagList (fold_left update_step fields (None, parent')).2) = learn known tags.
Proof.
  induction 1 as [|[name f] fields Hf _ IH]; intros m known parent parent' known' Hk E; cbn [fold_left].
  - exists m, []. rewrite app_nil_r. split; [by destruct parent|]. done.
  - destruct (knows_step m known parent name f Hk Hf) as (m1 & tags & E1 & El & Hk1).
    unfold update_step at 2. cbn [fst snd]. rewrite E1.
    unfold update_step at 3. cbn [fst snd AddDiffTag].
    edestruct (IH m1 _ (mkTag (m_tagName parent) (m_dataType parent) (m_tagData parent) (m_tagList parent ++ tags))
      (AddTag (field_tag name f) parent').1 known' Hk1) as (m2 & tags2 & E2 & Hk2 & Ef).
    { cbn [AddTag fst m_tagList]. rewrite learn_app, E. cbn [learn fold_left]. by rewrite field_tag_name. }
    rewrite E2. exists m2, (tags ++ tags2). cbn [m_tagName m_dataType m_tagData m_tagList]. rewrite app_assoc.
    split; [done|]. rewrite learn_app, El. split; [done|]. exact Ef.
Qed.

(** Requests for updates, and tags that are forgotten. *)
Inductive event := EvUpdate (fields : list (Z * field)) | EvForget (name : Z).

Definition event_ok (e : event) : Prop := match e with EvUpdate fields => Forall allowed fields | EvForget _ => True end.

(** The map, what an end knows that gets the updates, and one that gets full answers. *)
Definition exec (s : CValueMap * gmap Z CECTag * gmap Z CECTag) (e : event) :
  CValueMap * gmap Z CECTag * gmap Z CECTag :=
  let '(m, known, full) := s in
  match e with
  | EvUpdate fields =>
      let '(m', parent) := update fields (Some m) in
      (default m m', learn known (m_tagList parent), learn full (m_tagList (update fields None).2))
  | EvForget name => (ForgetTag name m, known, full)
  end.

Lemma knows_forget name m known : knows m known -> knows (ForgetTag name m) known.
Proof.
  intros [Hs Hu]. destruct m as [m1 m2 m3 m4 m5 m6 m7 m8 m9]. simpl in Hs. split; [simpl; by auto with amule|].
  intros name' f Ha Hc. apply Hu; [done|]. destruct f; try exact Hc. cbn [unchanged ForgetTag m_map_tag] in *.
  unfold same in *. destruct (decide (name' = name)) as [->|]; [by rewrite mfind_erase_eq in Hc|].
  by rewrite mfind_erase_ne in Hc.
Qed.

Lemma exec_knows es : Forall event_ok es -> forall m known, knows m known ->
  exists m' known', fold_left exec es (m, known, known) = (m', known', known') /\ knows m' known'.
Proof.
  induction 1 as [|e es He _ IH]; intros m known Hk; cbn [fold_left]; [by exists m, known|].
  destruct e as [fields|name]; cbn [exec].
  - destruct (update_knows fields He m known (CECEmptyTag 0) (CECEmptyTag 0) known Hk eq_refl) as (m1 & tags & E & Hk1 & Ef).
    unfold update. rewrite E. cbn [m_tagList CECEmptyTag CECTag_custom app default] in *. rewrite Ef. by apply IH.
  - apply IH. by apply knows_forget.
Qed.

(** A value just stored, or found unchanged, is not sent again. *)
Lemma update_stores fields : Forall allowed fields -> NoDup fields.*1 -> forall m parent,
  exists m' parent', fold_left update_step fields (Some m, parent) = (Some m', parent') /\
    Forall (fun nf => unchanged nf.1 nf.2 m' = true) fields /\
    (forall name f, name ∉ fields.*1 -> unchanged name f m' = unchanged name f m).
Proof.
  induction 1 as [|[name f] fields [Kf Of] _ IH]; intros Hd m parent; cbn [fold_left fmap list_fmap fst snd] in *.
  - exists m, parent. split; [done|]. by split; [constructor|].
  - apply NoDup_cons in Hd as [Hn Hd]. unfold update_step at 2. cbn [fst snd]. rewrite AddDiffTag_spec.
    assert (exists m1 p1, (if unchanged name f m then (Some m, parent) else (Some (store name f m), (AddTag (field_tag name f) parent).1)) = (Some m1, p1) /\
      unchanged name f m1 = true /\ forall name' g, name' <> name -> unchanged name' g m1 = unchanged name' g m) as (m1 & p1 & -> & H1 & H2).
    { destruct (unchanged name f m) eqn:Eu; [by exists m, parent|]. eexists _, _. split; [done|].
      split; [by apply unchanged_store|]. intros. by apply unchanged_store_other. }
    destruct (IH Hd m1 p1) as (m' & p' & E & Hall & Hother). exists m', p'. split; [done|]. split.
    + constructor; [|done]. cbn [fst snd]. by rewrite Hother.
    + intros name' g Hn'. apply not_elem_of_cons in Hn' as [? ?]. rewrite Hother by done. by apply H2.
Qed.

Lemma update_quiet fields m parent : Forall (fun nf => unchanged nf.1 nf.2 m = true) fields ->
  fold_left update_step fields (Some m, parent) = (Some m, parent).
Proof.
  induction 1 as [|[name f] fields Hf _ IH]; [done|]. cbn [fold_left]. unfold update_step at 2. cbn [fst snd] in *.
  by rewrite AddDiffTag_spec, Hf.
Qed.

End Mirror.

End ValueMap.

(** ** Properties *)

(** C35: Incremental updates are as good as full answers.  Whatever updates are requested and whatever
    tags are forgotten, as long as a name always stands for values of one kind, the remote end
    that gets only what changed knows the same tags as one that gets every field every time; and an
    update repeated at once sends nothing. *)
Theorem valuemap_mirror (wxString : Type) (Heq : EqDecision wxString) (unicode2UTF8 : wxString -> list Z)
  (K : Z -> nat) (es : list event) (Hes : Forall (event_ok unicode2UTF8 K) es) :
  exists m known, fold_left (exec unicode2UTF8) es (CValueMap_new, ∅, ∅) = (m, known, known) /\
    forall fields, Forall (allowed unicode2UTF8 K) fields -> NoDup fields.*1 ->
    exists m' parent, update unicode2UTF8 fields (Some m) = (Some m', parent) /\
      update unicode2UTF8 fields (Some m') = (Some m', CECEmptyTag 0).
Proof.
  assert (knows unicode2UTF8 K CValueMap_new ∅) as H0.
  { split; [constructor|]. intros name f _ Hu. by destruct f. }
  destruct (exec_knows unicode2UTF8 K es Hes _ _ H0) as (m & known & E & Hk). exists m, known. split; [exact E|].
  intros fields Hf Hd. unfold update.
  destruct (update_stores unicode2UTF8 K fields Hf Hd m (CECEmptyTag 0)) as (m' & parent & Eu & Hall & _).
  exists m', parent. split; [exact Eu|]. by apply update_quiet.
Qed.

(** ** Instances *)

(** Texts are their bytes; the second update changes one of two values. *)
Definition sample_events : list (event (wxString := list Z)) :=
  [EvUpdate [(1, FUInt32 5); (2, FString [65; 66])]; EvUpdate [(1, FUInt32 5); (2, FString [67])]; EvForget 3].

Lemma valuemap_mirror_witness :
  exists m known, fold_left (exec id) sample_events (CValueMap_new, ∅, ∅) = (m, known, known) /\
    (update id [(1, FUInt32 5); (2, FString [68])] (Some m)).2 =
      mkTag 0 EC_TAGTYPE_CUSTOM [] [ConstructStringTag 2 [68]].
Proof.
  destruct (valuemap_mirror (list Z) _ id (fun name => if name =? 1 then 2%nat else 6%nat) sample_events) as (m & known & E & _).
  - repeat constructor.
  - exists m, known. split; [exact E|]. apply (f_equal (fun s => s.1.1)) in E. cbn [fst snd] in E. rewrite <- E.
    vm_compute. reflexivity.
Defined.

(** A name used for two kinds is not sent again when it returns to its first value. *)
Example two_kinds_one_name :
  let s := fold_left (exec (wxString := list Z) id) [EvUpdate [(1, FUInt8 5)]; EvUpdate [(1, FUInt16 6)]; EvUpdate [(1, FUInt8 5)]]
    (CValueMap_new, ∅, ∅) in
  s.1.2 !! 1 = Some (InitInt 1 6) /\ s.2 !! 1 = Some (InitInt 1 5).
Proof. vm_compute. split; reflexivity. Qed.
