(* ===== verification/MemFile.v ===== *)
(** * Files in memory ([MemFile.h], [MemFile.cpp])

    [CMemFile] implements the primitives of [CFileDataIO] over a growing, or an attached,
    buffer.  The allocator is a parameter; the laws of [DataIO.v] are discharged for files of
    less than [2^62] bytes. *)
From S2P Require Import Prelude StdMap UInt128 DataIO.

Record CMemFile := mkMemFile {
  m_growthRate : Z;
  m_position : Z;
  m_BufferSize : Z;
  m_fileSize : Z;
  m_delete : bool;
  m_readonly : bool;
  m_buffer : list Z
}.

Definition set_mem_position (p : Z) (f : CMemFile) : CMemFile :=
  mkMemFile (m_growthRate f) p (m_BufferSize f) (m_fileSize f) (m_delete f) (m_readonly f) (m_buffer f).

Definition set_fileSize (n : Z) (f : CMemFile) : CMemFile :=
  mkMemFile (m_growthRate f) (m_position f) (m_BufferSize f) n (m_delete f) (m_readonly f) (m_buffer f).

Definition set_buffer (size : Z) (b : list Z) (f : CMemFile) : CMemFile :=
  mkMemFile (m_growthRate f) (m_position f) size (m_fileSize f) (m_delete f) (m_readonly f) b.

(** The three constructors. *)
Definition CMemFile_new (growthRate : Z) : CMemFile := mkMemFile growthRate 0 0 0 true false [].

Definition CMemFile_attach (buffer : list Z) : CMemFile :=
  mkMemFile 0 0 (Z.of_nat (length buffer)) (Z.of_nat (length buffer)) false false buffer.

Definition CMemFile_attach_const (buffer : list Z) : CMemFile :=
  mkMemFile 0 0 (Z.of_nat (length buffer)) (Z.of_nat (length buffer)) false true buffer.

(** [memcpy(m_buffer + pos, bytes, count)] within the buffer. *)
Definition memcpy_at (buffer : list Z) (pos : Z) (bytes : list Z) : list Z := splice buffer pos bytes.

(** [width_lia] with the bound on file sizes. *)
Ltac mem_lia := unfold wrap, in_width in *; change (2 ^ 62) with 4611686018427387904 in *; norm_pow; lia.

Section MemFile.

(** The C allocator: the buffer extended to the new size, [None] when it fails. *)
Context (realloc : list Z -> Z -> option (list Z)).

#[local] Open Scope io_scope.

Definition grown (growthRate size : Z) : Z :=
  if growthRate =? 0 then size
  else u64 (u64 (size + growthRate - 1) / growthRate * growthRate).

Definition enlargeBuffer (size : Z) : IO CMemFile unit := fun f =>
  if size <? m_BufferSize f then (inl CInvalidParamsEx, f)
  else if negb (m_delete f) then (inl CInvalidStateEx, f)
  else if m_readonly f then (inl CInvalidStateEx, f)
  else
    let newsize := grown (m_growthRate f) size in
    match realloc (m_buffer f) newsize with
    | Some tmp => (inr tt, set_buffer newsize tmp f)
    | None => (inl CInvalidStateEx, f)
    end.

Definition SetLength (newLen : Z) : IO CMemFile unit := fun f =>
  if m_readonly f then (inl CInvalidStateEx, f)
  else
    (seq! (if newLen >? m_BufferSize f then enlargeBuffer newLen else io_ret tt) in
     fun f =>
       let f := if newLen <? m_position f then set_mem_position newLen f else f in
       (inr tt, set_fileSize newLen f)) f.

Definition mem_doRead (count : Z) : IO CMemFile (Z * list Z) := fun f =>
  if m_position f >? m_fileSize f then (inr (0, []), f)
  else
    let count := if u64 (m_position f + count) >? m_fileSize f
                 then m_fileSize f - m_position f else count in
    if count =? 0 then (inr (0, []), f)
    else (inr (count, take (Z.to_nat count) (drop (Z.to_nat (m_position f)) (m_buffer f))),
          set_mem_position (u64 (m_position f + count)) f).

Definition mem_doWrite (bytes : list Z) : IO CMemFile Z := fun f =>
  let count := Z.of_nat (length bytes) in
  if m_readonly f then (inl CInvalidStateEx, f)
  else
    (seq! (if u64 (m_position f + count) >? m_BufferSize f
           then enlargeBuffer (u64 (m_position f + count)) else io_ret tt) in
     fun f =>
       if u64 (m_position f + count) <=? m_BufferSize f then
         let f := set_buffer (m_BufferSize f) (memcpy_at (m_buffer f) (m_position f) bytes) f in
         let f := set_mem_position (u64 (m_position f + count)) f in
         let f := if m_position f >? m_fileSize f then set_fileSize (m_position f) f else f in
         (inr count, f)
       else (inl CInvalidStateEx, f)) f.

Definition mem_doSeek (offset : Z) : IO CMemFile Z := fun f =>
  if offset >=? 0 then (inr offset, set_mem_position offset f) else (inl CInvalidParamsEx, f).

(** [wxCHECK_RET] returns from the function. *)
Definition ResetData (f : CMemFile) : CMemFile :=
  if m_readonly f then f
  else set_mem_position 0 (set_fileSize 0
         (set_buffer (m_BufferSize f) (replicate (Z.to_nat (m_BufferSize f)) 0) f)).

Definition Reset (f : CMemFile) : CMemFile := (mem_doSeek 0 f).2.

Definition GetAvailable (f : CMemFile) : Z := swrap 64 (m_fileSize f - m_position f).

#[export] Instance CMemFile_IO : CFileDataIO CMemFile := {
  GetPosition := m_position;
  GetLength := m_fileSize;
  doRead := mem_doRead;
  doWrite := mem_doWrite;
  doSeek := mem_doSeek
}.

(** One call of the interface. *)
Inductive mem_call :=
| MRead (count : Z)
| MWrite (bytes : list Z)
| MSeek (p : Z)
| MSetLength (n : Z)
| MResetData.

Definition mem_exec (c : mem_call) : IO CMemFile (list Z) :=
  match c with
  | MRead count => let! r := mem_doRead count in io_ret r.2
  | MWrite bytes => seq! mem_doWrite bytes in io_ret []
  | MSeek p => seq! mem_doSeek p in io_ret []
  | MSetLength n => seq! SetLength n in io_ret []
  | MResetData => fun f => if m_readonly f then (inr [], f) else (inr [], ResetData f)
  end.

End MemFile.

(** ** The invariant and the laws *)

Record mem_ok (f : CMemFile) : Prop := {
  mem_buffer : Z.of_nat (length (m_buffer f)) = m_BufferSize f;
  mem_bytes : Forall is_byte (m_buffer f);
  mem_sizes : 0 <= m_fileSize f <= m_BufferSize f /\ m_BufferSize f < 2 ^ 62;
  mem_pos : 0 <= m_position f < 2 ^ 63;
  mem_rate : in_width 32 (m_growthRate f)
}.

Definition mem_content (f : CMemFile) : list Z := take (Z.to_nat (m_fileSize f)) (m_buffer f).

(** The size the buffer gets for a file of [n] bytes. *)
Definition rounded (growthRate n : Z) : Z :=
  if growthRate =? 0 then n else (n + growthRate - 1) / growthRate * growthRate.

Lemma rounded_ge r n : in_width 32 r -> 0 <= n -> n <= rounded r n.
Proof. unfold rounded, in_width. intros Hr Hn. case_cmp; [lia|]. nia. Qed.

Lemma rounded_mono r m n : in_width 32 r -> m <= n -> rounded r m <= rounded r n.
Proof.
  unfold rounded, in_width. intros Hr Hn. case_cmp; [lia|].
  apply Z.mul_le_mono_nonneg_r; [lia|]. apply Z.div_le_mono; lia.
Qed.

Lemma mem_content_length f : mem_ok f -> Z.of_nat (length (mem_content f)) = m_fileSize f.
Proof. intros [H1 _ H2 _ _]. unfold mem_content. rewrite length_take. lia. Qed.

Lemma mem_content_grow f size t : mem_ok f -> mem_content (set_buffer size (m_buffer f ++ t) f) = mem_content f.
Proof. intros [H1 _ H2 _ _]. unfold mem_content. simpl. apply take_app_le. lia. Qed.

(** The file after [bytes] are written at its position. *)
Record written (f : CMemFile) (bytes : list Z) (f' : CMemFile) : Prop := {
  written_ok : mem_ok f';
  written_pos : m_position f' = m_position f + Z.of_nat (length bytes);
  written_size : m_fileSize f' = Z.max (m_fileSize f) (m_position f + Z.of_nat (length bytes));
  written_splice : m_position f <= m_fileSize f ->
    mem_content f' = splice (mem_content f) (m_position f) bytes;
  written_bytes i : (i < length bytes)%nat -> mem_content f' !! (Z.to_nat (m_position f) + i)%nat = bytes !! i;
  written_rest i : (i < Z.to_nat (m_fileSize f))%nat ->
    (i < Z.to_nat (m_position f))%nat \/ (Z.to_nat (m_position f) + length bytes <= i)%nat ->
    mem_content f' !! i = mem_content f !! i;
  written_mode : m_readonly f' = m_readonly f /\ m_delete f' = m_delete f /\ m_growthRate f' = m_growthRate f
}.

Lemma mem_content_lookup f i : (i < Z.to_nat (m_fileSize f))%nat -> mem_content f !! i = m_buffer f !! i.
Proof. intros Hi. unfold mem_content. by rewrite lookup_take_lt. Qed.

(** Writing inside the buffer. *)
Lemma write_inside f bytes : mem_ok f -> Forall is_byte bytes ->
  m_position f + Z.of_nat (length bytes) <= m_BufferSize f ->
  written f bytes (set_fileSize (Z.max (m_fileSize f) (m_position f + Z.of_nat (length bytes)))
    (set_mem_position (m_position f + Z.of_nat (length bytes))
      (set_buffer (m_BufferSize f) (splice (m_buffer f) (m_position f) bytes) f))).
Proof.
  intros [H1 H2 H3 H4 H5] Hb Hfit. split; try done.
  - split; simpl; [|..|lia|lia|done].
    + unfold splice. rewrite !length_app, length_take, length_drop. lia.
    + unfold splice. repeat apply Forall_app_2; auto using Forall_take, Forall_drop.
  - intros Hp. unfold mem_content, splice. simpl.
    rewrite take_take, skipn_firstn_comm. replace (Z.to_nat (m_position f) `min` Z.to_nat (m_fileSize f))%nat
      with (Z.to_nat (m_position f)) by lia.
    rewrite take_app_ge by (rewrite length_take; lia). f_equal.
    rewrite length_take, take_app_ge by lia. f_equal. f_equal. lia.
  - intros i Hi. rewrite mem_content_lookup by (simpl; lia). simpl. rewrite splice_lookup by lia.
    rewrite decide_False, decide_True by lia. f_equal. lia.
  - intros i Hi Ho. rewrite !mem_content_lookup by (simpl; lia). simpl. rewrite splice_lookup by lia.
    destruct Ho; [by rewrite decide_True|by rewrite !decide_False by lia].
Qed.


Lemma written_grown f bytes f' size t : mem_ok f -> written (set_buffer size (m_buffer f ++ t) f) bytes f' ->
  written f bytes f'.
Proof.
  intros Hf [W1 W2 W3 W4 W5 W6 W7]. rewrite mem_content_grow in * by done. by split.
Qed.

(** Reading gives the bytes there are, up to the number asked for. *)
Lemma doRead_spec count f : mem_ok f -> 0 <= count < 2 ^ 62 ->
  let n := Z.max 0 (Z.min count (m_fileSize f - m_position f)) in
  mem_doRead count f = (inr (n, take (Z.to_nat n) (drop (Z.to_nat (m_position f)) (mem_content f))),
                        set_mem_position (m_position f + n) f).
Proof.
  intros [H1 H2 H3 H4 H5] Hc n. unfold mem_doRead. assert (set_mem_position (m_position f) f = f) as Eta by by destruct f.
  rewrite (Z.gtb_ltb (m_position f)). destruct (Z.ltb_spec (m_fileSize f) (m_position f)) as [Hp|Hp].
  - replace n with 0 by lia. by rewrite Z.add_0_r, Eta.
  - rewrite wrap_small by mem_lia.
    assert ((if m_position f + count >? m_fileSize f then m_fileSize f - m_position f else count) = n) as ->.
    { rewrite Z.gtb_ltb. case_cmp; lia. }
    destruct (Z.eqb_spec n 0) as [->|Hn]; [by rewrite Z.add_0_r, Eta|].
    rewrite wrap_small by mem_lia. do 2 f_equal. f_equal.
    unfold mem_content. rewrite skipn_firstn_comm, take_take. f_equal. lia.
Qed.

Lemma mem_ok_position p f : mem_ok f -> 0 <= p < 2 ^ 63 -> mem_ok (set_mem_position p f).
Proof. intros [H1 H2 H3 H4 H5] Hp. by split. Qed.

(** ** Refinement: a memory file is a string of bytes, some unspecified, and a position *)

(** The abstract file: bytes nothing was written to are [None]. *)
Abbreviation byte_file := (list (option Z) * Z)%type (only parsing).

Definition pad (n : Z) (c : list (option Z)) : list (option Z) :=
  c ++ replicate (Z.to_nat n - length c) None.

Definition spec_exec (c : mem_call) (readonly : bool) (a : byte_file) : list (option Z) * byte_file :=
  let '(bytes, p) := a in
  match c with
  | MRead count =>
      let r := take (Z.to_nat count) (drop (Z.to_nat p) bytes) in
      (r, (bytes, p + Z.of_nat (length r)))
  | MWrite b =>
      let bytes := pad p bytes in
      ([], (splice bytes p (map Some b), p + Z.of_nat (length b)))
  | MSeek p => ([], (bytes, p))
  | MSetLength n => ([], (take (Z.to_nat n) (pad n bytes), Z.min p n))
  | MResetData => if readonly then ([], a) else ([], ([], 0))
  end.

(** A known byte is the byte stored. *)
Definition known (o : option Z) (b : Z) : Prop := match o with Some x => x = b | None => True end.

Definition refines (f : CMemFile) (a : byte_file) : Prop :=
  Forall2 known a.1 (mem_content f) /\ a.2 = m_position f.

(** Read-only files are not changed, and attached ones do not grow. *)
Definition permitted (c : mem_call) (f : CMemFile) : Prop :=
  match c with
  | MWrite b => m_readonly f = false /\
      (m_delete f = true \/ m_position f + Z.of_nat (length b) <= m_BufferSize f)
  | MSetLength n => m_readonly f = false /\ (m_delete f = true \/ n <= m_BufferSize f)
  | _ => True
  end.

Lemma pad_lookup n c i :
  pad n c !! i = if decide (i < length c)%nat then c !! i
                 else if decide (i < Z.to_nat n)%nat then Some None else None.
Proof.
  unfold pad. case_decide as H1; [by rewrite lookup_app_l|]. rewrite lookup_app_r by lia.
  case_decide as H2; [apply lookup_replicate_2; lia|apply lookup_replicate_None; lia].
Qed.

Lemma refines_same f a : refines f a -> length a.1 = length (mem_content f) /\
  forall i x b, a.1 !! i = Some x -> mem_content f !! i = Some b -> known x b.
Proof. intros [H _]. by apply Forall2_same_length_lookup in H. Qed.

Lemma refines_write f a b f' : mem_ok f -> refines f a -> written f b f' ->
  refines f' (splice (pad a.2 a.1) a.2 (map Some b), a.2 + Z.of_nat (length b)).
Proof.
  intros Hf Ha [W1 W2 W3 _ W5 W6 _]. pose proof Ha as [_ HP]. apply refines_same in Ha as [HL Hk].
  pose proof (mem_content_length f Hf) as L1. pose proof (mem_content_length f' W1) as L2.
  pose proof Hf as [_ _ Hs Hp _]. split; [|simpl; congruence]. simpl. rewrite HP in *.
  assert (Z.of_nat (length (pad (m_position f) a.1)) = Z.max (m_fileSize f) (m_position f)) as L3
    by (unfold pad; rewrite length_app, length_replicate; lia).
  apply Forall2_same_length_lookup. split.
  - unfold splice. rewrite !length_app, length_take, length_map, length_drop. lia.
  - intros i x y Hx Hy. rewrite splice_lookup, pad_lookup, length_map in Hx by lia.
    repeat case_decide; try done.
    + rewrite W6 in Hy by lia. by apply (Hk i).
    + by simplify_eq.
    + rewrite list_lookup_fmap in Hx. replace i with (Z.to_nat (m_position f) + (i - Z.to_nat (m_position f)))%nat in Hy by lia.
      rewrite W5 in Hy by lia. rewrite Hy in Hx. simpl in Hx. by simplify_eq.
    + rewrite W6 in Hy by lia. by apply (Hk i).
Qed.

Lemma refines_size f a n f' : mem_ok f -> mem_ok f' -> refines f a -> 0 <= n ->
  m_fileSize f' = n -> (forall i, (i < Z.to_nat (Z.min n (m_fileSize f)))%nat -> mem_content f' !! i = mem_content f !! i) ->
  m_position f' = Z.min (m_position f) n ->
  refines f' (take (Z.to_nat n) (pad n a.1), Z.min a.2 n).
Proof.
  intros Hf Hf' Ha Hn Hs Hsame Hp. pose proof Ha as [_ HP]. apply refines_same in Ha as [HL Hk].
  pose proof (mem_content_length f Hf) as L1. pose proof (mem_content_length f' Hf') as L2.
  split; [|simpl; congruence]. simpl. apply Forall2_same_length_lookup. split.
  - rewrite length_take. unfold pad. rewrite length_app, length_replicate. lia.
  - intros i x y Hx Hy. apply lookup_take_Some in Hx as [Hx Hi]. rewrite pad_lookup in Hx.
    repeat case_decide; try done; [|by simplify_eq].
    rewrite Hsame in Hy by lia. by apply (Hk i).
Qed.

Lemma ResetData_ok f : mem_ok f -> m_readonly f = false ->
  mem_ok (ResetData f) /\ mem_content (ResetData f) = [] /\ m_position (ResetData f) = 0.
Proof.
  intros [H1 H2 H3 H4 H5] Hro. unfold ResetData. rewrite Hro. split; [|done].
  split; simpl; [rewrite length_replicate; lia| |lia|lia|done].
  apply Forall_replicate. by split.
Qed.

(** ** Within the limits of the allocator *)

Section Allocator.

Context (realloc : list Z -> Z -> option (list Z)).

#[local] Open Scope io_scope.

(** [doWrite] once the buffer is large enough. *)
Lemma write_final f bytes : mem_ok f -> m_readonly f = false ->
  m_position f + Z.of_nat (length bytes) <= m_BufferSize f ->
  mem_doWrite realloc bytes f = (inr (Z.of_nat (length bytes)),
    set_fileSize (Z.max (m_fileSize f) (m_position f + Z.of_nat (length bytes)))
      (set_mem_position (m_position f + Z.of_nat (length bytes))
        (set_buffer (m_BufferSize f) (splice (m_buffer f) (m_position f) bytes) f))).
Proof.
  intros [H1 H2 H3 H4 H5] Hr Hfit. unfold mem_doWrite. rewrite Hr.
  rewrite wrap_small by mem_lia. rewrite (Z.gtb_ltb _ (m_BufferSize f)), (proj2 (Z.ltb_ge _ _)) by lia.
  unfold io_bind, io_ret, memcpy_at. simpl. rewrite !wrap_small, (proj2 (Z.leb_le _ _)) by mem_lia. simpl.
  destruct f as [gr p bs fs d r b]. simpl in *. case_cmp.
  - by rewrite Z.max_r by lia.
  - by rewrite Z.max_l by lia.
Qed.

Context (memory_limit : Z) (limit_ok : 0 <= memory_limit < 2 ^ 62)
  (realloc_ok : forall b n, Z.of_nat (length b) <= n <= memory_limit ->
     exists t, realloc b n = Some (b ++ t) /\ Z.of_nat (length (b ++ t)) = n /\ Forall is_byte t).

Definition mem_room (f : CMemFile) (n : Z) : Prop :=
  m_readonly f = false /\ (m_position f + n <= m_BufferSize f \/
    m_delete f = true /\ rounded (m_growthRate f) (m_position f + n) <= memory_limit).

Lemma grown_rounded r n : in_width 32 r -> 0 <= n -> rounded r n <= memory_limit -> grown r n = rounded r n.
Proof.
  intros Hr Hn Hl. pose proof (rounded_ge r n Hr Hn). unfold grown. revert Hl. unfold rounded in *.
  case_cmp; [done|]. intros Hl. unfold in_width in Hr. change (2 ^ 62) with 4611686018427387904 in *.
  rewrite (wrap_small 64 (n + r - 1)) by width_lia. rewrite wrap_small; [done|]. width_lia.
Qed.

(** Growing the buffer keeps the file. *)
Lemma enlargeBuffer_spec size f : mem_ok f -> m_BufferSize f <= size -> m_delete f = true ->
  m_readonly f = false -> rounded (m_growthRate f) size <= memory_limit ->
  exists t, enlargeBuffer realloc size f = (inr tt, set_buffer (rounded (m_growthRate f) size) (m_buffer f ++ t) f) /\
    mem_ok (set_buffer (rounded (m_growthRate f) size) (m_buffer f ++ t) f).
Proof.
  intros [H1 H2 H3 H4 H5] Hs Hd Hr Hl. unfold enlargeBuffer.
  rewrite (proj2 (Z.ltb_ge _ _)), Hd, Hr by lia. simpl.
  pose proof (rounded_ge _ size H5 ltac:(lia)) as Hge. rewrite grown_rounded by (done || lia).
  destruct (realloc_ok (m_buffer f) (rounded (m_growthRate f) size)) as (t & -> & Ht & Hb); [lia|].
  exists t. split; [done|]. split; simpl; [done|by apply Forall_app|lia|done|done].
Qed.

Lemma mem_room_range f n : mem_ok f -> mem_room f n -> 0 <= n -> m_position f + n < 2 ^ 62.
Proof.
  intros [H1 H2 H3 H4 H5] [_ [Hr|[_ Hr]]] Hn; [mem_lia|].
  pose proof (rounded_ge (m_growthRate f) (m_position f + n) H5 ltac:(lia)). lia.
Qed.

Lemma written_room f bytes f' : written f bytes f' -> m_BufferSize f <= m_BufferSize f' ->
  forall m, 0 <= m -> mem_room f (Z.of_nat (length bytes) + m) -> mem_room f' m.
Proof.
  intros [_ HP _ _ _ _ (Hr & Hd & Hg)] Hle m Hm [Hro Hroom]. unfold mem_room. rewrite HP, Hr, Hd, Hg.
  split; [done|]. destruct Hroom as [|[? ?]]; [left; lia|right].
  split; [done|]. by rewrite <- Z.add_assoc.
Qed.

Lemma doWrite_spec f bytes : mem_ok f -> Forall is_byte bytes -> mem_room f (Z.of_nat (length bytes)) ->
  exists f', mem_doWrite realloc bytes f = (inr (Z.of_nat (length bytes)), f') /\ written f bytes f' /\
    (forall m, 0 <= m -> mem_room f (Z.of_nat (length bytes) + m) -> mem_room f' m).
Proof.
  intros Hf Hb Hroom. pose proof (mem_room_range f _ Hf Hroom ltac:(lia)) as Hlt.
  pose proof Hroom as [Hro [Hfit|[Hd Hl]]].
  - eexists. split; [by apply write_final|]. pose proof (write_inside f bytes Hf Hb Hfit) as HW.
    split; [done|]. apply (written_room f bytes); [done|done].
  - destruct (Z.le_gt_cases (m_position f + Z.of_nat (length bytes)) (m_BufferSize f)) as [Hfit|Hbig].
    { eexists. split; [by apply write_final|]. pose proof (write_inside f bytes Hf Hb Hfit) as HW.
      split; [done|]. apply (written_room f bytes); [done|done]. }
    pose proof (mem_pos f Hf) as Hp.
    pose proof (rounded_ge _ (m_position f + Z.of_nat (length bytes)) (mem_rate f Hf) ltac:(lia)) as Hge.
    destruct (enlargeBuffer_spec (m_position f + Z.of_nat (length bytes)) f Hf ltac:(lia) Hd Hro Hl)
      as (t & E & Hf1).
    set (f1 := set_buffer _ (m_buffer f ++ t) f) in *.
    assert (m_position f1 + Z.of_nat (length bytes) <= m_BufferSize f1) as Hfit1 by (simpl; lia).
    pose proof (write_inside f1 bytes Hf1 Hb Hfit1) as HW.
    eexists. split; [|split; [by eapply written_grown|]].
    + rewrite <- (write_final f1 bytes Hf1 Hro Hfit1). unfold mem_doWrite.
      replace (m_readonly f1) with false by done. rewrite Hro.
      change (m_position f1) with (m_position f). rewrite wrap_small by mem_lia.
      rewrite (Z.gtb_ltb _ (m_BufferSize f)), (proj2 (Z.ltb_lt _ _)) by lia.
      rewrite (Z.gtb_ltb _ (m_BufferSize f1)), (proj2 (Z.ltb_ge _ _)) by (simpl; lia).
      unfold io_bind at 1. by rewrite E.
    + apply (written_room f bytes); [by eapply written_grown|simpl; lia].
Qed.

#[export] Instance CMemFile_laws : @FileLaws CMemFile (CMemFile_IO realloc).
Proof.
  refine {| file_ok := mem_ok; content := mem_content; room := mem_room |}; cbn.
  - intros f Hf. split; [apply Forall_take, (mem_bytes f Hf)|by rewrite mem_content_length].
  - intros f [H1 H2 H3 H4 H5]. mem_lia.
  - intros f m n Hf [Hr Hroom] Hm. split; [done|]. destruct Hroom as [|[Hd Hl]]; [left; lia|right].
    split; [done|]. etrans; [|exact Hl]. apply rounded_mono; [by apply mem_rate|lia].
  - intros n f Hf Hn Hfit. pose proof Hf as [H1 H2 H3 H4 H5].
    rewrite doRead_spec by (done || destruct Hfit; mem_lia).
    replace (Z.max 0 (Z.min n (m_fileSize f - m_position f))) with n by lia. eexists. split; [done|].
    split; [|done]. apply mem_ok_position; [done|]. mem_lia.
  - intros n f Hf Hn Hlt. pose proof Hf as [H1 H2 H3 H4 H5]. change (2 ^ 31) with 2147483648 in Hn.
    rewrite doRead_spec by (done || mem_lia). do 3 eexists. split; [done|]. split; [lia|].
    split; [apply mem_ok_position; [done|mem_lia]|]. simpl. split_and!; [done|lia|lia].
  - intros bytes f Hf Hb Hroom Hp. destruct (doWrite_spec f bytes Hf Hb Hroom) as (f' & E & [W1 W2 W3 W4 _ _ _] & HR).
    exists f'. split_and!; auto.
  - intros p f Hf Hp. unfold mem_doSeek. rewrite (proj2 (Z.geb_le p 0)) by lia. eexists. split; [done|].
    split; [by apply mem_ok_position|]. do 2 (split; [done|]). intros n m [Hro Hroom] Hm Hle. split; [done|]. cbn.
    destruct Hroom as [|[Hd Hl]]; [left; lia|right]. split; [done|]. etrans; [|exact Hl]. apply rounded_mono; [by apply mem_rate|lia].
Defined.

(** Calls within the limits of the allocator. *)
Definition call_ok (c : mem_call) (f : CMemFile) : Prop :=
  match c with
  | MRead count => 0 <= count < 2 ^ 62
  | MWrite b => Forall is_byte b /\ rounded (m_growthRate f) (m_position f + Z.of_nat (length b)) <= memory_limit
  | MSeek p => 0 <= p < 2 ^ 63
  | MSetLength n => 0 <= n /\ rounded (m_growthRate f) n <= memory_limit
  | MResetData => True
  end.

Lemma SetLength_spec n f : mem_ok f -> 0 <= n -> rounded (m_growthRate f) n <= memory_limit ->
  permitted (MSetLength n) f -> exists f', SetLength realloc n f = (inr tt, f') /\ mem_ok f' /\ m_fileSize f' = n /\
    m_position f' = Z.min (m_position f) n /\
    (forall i, (i < Z.to_nat (Z.min n (m_fileSize f)))%nat -> mem_content f' !! i = mem_content f !! i).
Proof.
  intros Hf Hn Hl [Hro Hperm]. unfold SetLength. rewrite Hro.
  assert (exists f1, (if n >? m_BufferSize f then enlargeBuffer realloc n else io_ret tt) f = (inr tt, f1) /\
    mem_ok f1 /\ n <= m_BufferSize f1 /\ m_fileSize f1 = m_fileSize f /\ m_position f1 = m_position f /\
    mem_content f1 = mem_content f) as (f1 & E & Hf1 & Hfit & F1 & P1 & C1).
  { rewrite Z.gtb_ltb. destruct (Z.ltb_spec (m_BufferSize f) n) as [Hbig|Hfit].
    - destruct (enlargeBuffer_spec n f Hf ltac:(lia)) as (t & E & Hf1); [destruct Hperm; [done|lia]|done|done|].
      eexists. split; [exact E|]. split; [done|]. pose proof (rounded_ge _ n (mem_rate f Hf) Hn).
      split; [simpl; lia|]. split_and!; [done..|by apply mem_content_grow].
    - exists f. by split_and!. }
  unfold io_bind. rewrite E. eexists. split; [done|].
  destruct Hf1 as [H1 H2 H3 H4 H5]. rewrite P1 in *.
  destruct (Z.ltb_spec n (m_position f)).
  - split; [split; simpl; done || lia|]. simpl. split_and!; [done|lia|]. intros i Hi. rewrite <- C1.
    unfold mem_content. simpl. by rewrite !lookup_take_lt by lia.
  - split; [split; simpl; done || lia|]. simpl. split_and!; [done|lia|]. intros i Hi. rewrite <- C1.
    unfold mem_content. simpl. by rewrite !lookup_take_lt by lia.
Qed.

(** A write or a change of length that is not permitted throws and changes nothing. *)
Lemma refused c f : mem_ok f -> call_ok c f -> ~ permitted c f -> mem_exec realloc c f = (inl CInvalidStateEx, f).
Proof.
  intros Hf Hc Hn. pose proof Hf as [H1 H2 H3 H4 H5].
  destruct c as [|b| |n|]; simpl in *; [by destruct Hn| |by destruct Hn| |by destruct Hn].
  - destruct Hc as [_ Hc]. pose proof (rounded_ge _ (m_position f + Z.of_nat (length b)) H5 ltac:(lia)).
    unfold io_bind, mem_doWrite. destruct (m_readonly f) eqn:Hro; [done|].
    rewrite wrap_small by mem_lia. rewrite Z.gtb_ltb.
    destruct (Z.ltb_spec (m_BufferSize f) (m_position f + Z.of_nat (length b))); [|tauto].
    unfold io_bind, enlargeBuffer. rewrite (proj2 (Z.ltb_ge _ _)) by lia.
    destruct (m_delete f) eqn:Hd; [tauto|done].
  - unfold io_bind, SetLength. destruct (m_readonly f) eqn:Hro; [done|].
    rewrite Z.gtb_ltb. destruct (Z.ltb_spec (m_BufferSize f) n); [|tauto].
    unfold io_bind, enlargeBuffer. rewrite (proj2 (Z.ltb_ge _ _)) by lia.
    destruct (m_delete f) eqn:Hd; [tauto|done].
Qed.

(** Each call that is permitted does what it does on the abstract file. *)
Lemma mem_exec_refines c f a : mem_ok f -> refines f a -> call_ok c f -> permitted c f ->
  exists out f', mem_exec realloc c f = (inr out, f') /\ mem_ok f' /\
    refines f' (spec_exec c (m_readonly f) a).2 /\ Forall2 known (spec_exec c (m_readonly f) a).1 out.
Proof.
  intros Hf Ha Hc Hp. destruct a as [bytes p]. pose proof Ha as [Hb HP]. simpl in Hb, HP. subst p.
  pose proof (Forall2_length _ _ _ Hb) as HL. pose proof (mem_content_length f Hf) as HC.
  pose proof Hf as [H1 H2 H3 H4 H5].
  destruct c as [count|b|p|n|]; simpl in Hc, Hp; cbn [mem_exec spec_exec fst snd]; unfold io_bind, io_ret.
  - rewrite doRead_spec by done. do 2 eexists. split; [done|].
    split; [apply mem_ok_position; [done|mem_lia]|]. cbn [fst snd].
    assert (forall A (l : list A), Z.of_nat (length l) = m_fileSize f ->
      take (Z.to_nat (Z.max 0 (Z.min count (m_fileSize f - m_position f)))) (drop (Z.to_nat (m_position f)) l) =
      take (Z.to_nat count) (drop (Z.to_nat (m_position f)) l)) as Etake.
    { intros A l El. destruct (Z.le_gt_cases count (m_fileSize f - m_position f)).
      - by replace (Z.max 0 (Z.min count (m_fileSize f - m_position f))) with count by lia.
      - rewrite !take_ge; [done|rewrite length_drop; lia..]. }
    rewrite Etake by done. split; [|by apply Forall2_take, Forall2_drop].
    split; [done|]. simpl. rewrite length_take, length_drop. lia.
  - destruct Hc as [Hbytes Hl]. destruct Hp as [Hro Hp].
    destruct (doWrite_spec f b Hf Hbytes) as (f' & E & HW & _); [split; [done|]; tauto|].
    rewrite E. do 2 eexists. split; [done|]. split; [by apply (written_ok f b)|]. split; [|done].
    by apply (refines_write f (bytes, m_position f)).
  - unfold mem_doSeek. rewrite (proj2 (Z.geb_le p 0)) by lia. do 2 eexists. split; [done|].
    split; [by apply mem_ok_position|]. by split.
  - destruct Hc as [Hn Hl]. destruct (SetLength_spec n f Hf Hn Hl Hp) as (f' & E & Hf' & HS & HP' & HR).
    rewrite E. do 2 eexists. split; [done|]. split; [done|]. split; [|done].
    by apply (refines_size f (bytes, m_position f)).
  - destruct (m_readonly f) eqn:Hro; [by exists [], f|].
    destruct (ResetData_ok f Hf Hro) as (Hok & HC' & HP'). do 2 eexists. split; [done|]. split; [done|].
    split; [|done]. split; simpl; [by rewrite HC'|done].
Qed.

#[local] Existing Instance CMemFile_IO.

(** What was written can be read after seeking back to where it was written. *)
Lemma mem_readback {A} (w : IO CMemFile A) bs x f : writes (laws := CMemFile_laws) w bs x -> mem_ok f ->
  m_position f <= m_fileSize f -> mem_room f (Z.of_nat (length bs)) ->
  exists f1 f2 rest, w f = (inr x, f1) /\
    mem_content f1 = splice (mem_content f) (m_position f) bs /\
    m_position f1 = m_position f + Z.of_nat (length bs) /\
    @Seek _ (CMemFile_IO realloc) (m_position f) wxFromStart f1 = (inr (m_position f), f2) /\ mem_ok f2 /\
    mem_content f2 = mem_content f1 /\ m_position f2 = m_position f /\ m_position f2 <= m_fileSize f2 /\
    drop (Z.to_nat (m_position f2)) (mem_content f2) = bs ++ rest.
Proof.
  intros Hw Hf Hp Hroom. destruct (Hw f Hf Hp Hroom) as (f1 & E1 & Hf1 & C1 & P1 & _).
  cbn in Hf1, C1, P1. pose proof (mem_pos f Hf) as Hpos. pose proof (mem_sizes f Hf) as Hs.
  pose proof (mem_content_length f Hf) as HL. pose proof (mem_content_length f1 Hf1) as HL1.
  clear Hw Hroom realloc_ok limit_ok.
  destruct (splice_at (mem_content f) (m_position f) bs) as [rest Hrest]; [lia|].
  exists f1, (set_mem_position (m_position f) f1), rest.
  split; [done|]. split; [done|]. split; [done|]. split.
  { unfold Seek. replace (swrap 64 (m_position f)) with (m_position f)
      by (unfold swrap; change (64 - 1) with 63; rewrite Z.mod_small; change (2 ^ 64) with (2 ^ 63 + 2 ^ 63); lia).
    rewrite (proj2 (Z.geb_le _ _)) by lia. cbn. unfold io_bind, mem_doSeek.
    rewrite (proj2 (Z.geb_le _ _)) by lia. by rewrite (proj2 (Z.geb_le _ _)), Z.eqb_refl by lia. }
  split; [by apply mem_ok_position|]. split; [done|]. split; [done|]. split; [|cbn; by rewrite <- C1 in Hrest].
  cbn. pose proof (splice_length (mem_content f) (m_position f) bs). rewrite <- C1, HL1 in *. lia.
Qed.

End Allocator.

(** A block is read exactly when it is there. *)
Lemma mem_Read realloc count f : mem_ok f -> 0 < count < 2 ^ 31 -> exists f',
  @Read _ (CMemFile_IO realloc) count f =
    ((if m_position f + count <=? m_fileSize f
      then inr (take (Z.to_nat count) (drop (Z.to_nat (m_position f)) (mem_content f)))
      else inl CEOFException), f') /\ mem_ok f' /\ mem_content f' = mem_content f /\
    (m_position f + count <= m_fileSize f -> m_position f' = m_position f + count).
Proof.
  intros Hf Hc. change (2 ^ 31) with 2147483648 in Hc. unfold Read, io_bind. cbn [doRead CMemFile_IO].
  rewrite doRead_spec by (done || mem_lia). cbn [fst snd].
  rewrite swrap_count by (change (2 ^ 31) with 2147483648; lia).
  pose proof (mem_pos f Hf) as Hp. pose proof (mem_sizes f Hf) as Hs.
  set (n := Z.max 0 (Z.min count (m_fileSize f - m_position f))).
  exists (set_mem_position (m_position f + n) f).
  split; [|split; [apply mem_ok_position; [done|subst n; mem_lia]|split; [done|]]].
  2: { cbn. subst n. lia. }
  destruct (Z.leb_spec (m_position f + count) (m_fileSize f)) as [Hle|Hlt].
  - replace n with count by lia. by rewrite Z.eqb_refl.
  - rewrite (proj2 (Z.eqb_neq _ count)) by lia. unfold Eof. cbn. by rewrite (proj2 (Z.geb_le _ _)) by lia.
Qed.

(** ** Properties *)

(** C29: A memory file is a string of bytes with a position: on every file that the three
    constructors and the calls give, a call within the limits either does to it what it does on
    the abstract file, with the bytes read as specified, or, exactly when the file is read-only
    or attached and too small, throws and leaves it unchanged. *)
Theorem memfile_refines_bytes (realloc : list Z -> Z -> option (list Z)) (memory_limit : Z)
  (limit_ok : 0 <= memory_limit < 2 ^ 62)
  (realloc_ok : forall b n, Z.of_nat (length b) <= n <= memory_limit ->
     exists t, realloc b n = Some (b ++ t) /\ Z.of_nat (length (b ++ t)) = n /\ Forall is_byte t)
  (growthRate : Z) (buffer : list Z) (c : mem_call) (f : CMemFile) (a : list (option Z) * Z)
  (Hg : in_width 32 growthRate) (Hbuf : Forall is_byte buffer /\ Z.of_nat (length buffer) < 2 ^ 62)
  (Hf : mem_ok f) (Ha : refines f a) (Hc : call_ok memory_limit c f) :
  (mem_ok (CMemFile_new growthRate) /\ refines (CMemFile_new growthRate) ([], 0)) /\
  (mem_ok (CMemFile_attach buffer) /\ refines (CMemFile_attach buffer) (map Some buffer, 0)) /\
  (mem_ok (CMemFile_attach_const buffer) /\ refines (CMemFile_attach_const buffer) (map Some buffer, 0)) /\
  ((permitted c f /\ exists out f', mem_exec realloc c f = (inr out, f') /\ mem_ok f' /\
      refines f' (spec_exec c (m_readonly f) a).2 /\ Forall2 known (spec_exec c (m_readonly f) a).1 out) \/
   (~ permitted c f /\ mem_exec realloc c f = (inl CInvalidStateEx, f))).
Proof.
  destruct Hbuf as [Hb Hl].
  assert (forall g, m_buffer g = buffer -> m_fileSize g = Z.of_nat (length buffer) -> m_position g = 0 ->
    refines g (map Some buffer, 0)) as Hatt.
  { intros g E1 E2 E3. split; [|by rewrite E3]. unfold mem_content. rewrite E1, E2, Nat2Z.id, take_ge by done.
    simpl. clear. induction buffer; constructor; done. }
  split; [split; [by split|split; [constructor|done]]|].
  split; [split; [by split; simpl; [..|lia|done|done]|by apply Hatt]|].
  split; [split; [by split; simpl; [..|lia|done|done]|by apply Hatt]|].
  assert (Decision (permitted c f)) as [Hp|Hp] by (destruct c; apply _).
  - left. split; [done|]. by apply (mem_exec_refines realloc memory_limit).
  - right. split; [done|]. by apply (refused realloc memory_limit).
Qed.

(** Whatever typed values are written to a memory file with room for them, seeking back and
    reading values of the same types gives them again, up to the position the writing ended at;
    the bytes outside are kept. *)
Theorem memfile_roundtrip (realloc : list Z -> Z -> option (list Z)) (memory_limit : Z)
  (limit_ok : 0 <= memory_limit < 2 ^ 62)
  (realloc_ok : forall b n, Z.of_nat (length b) <= n <= memory_limit ->
     exists t, realloc b n = Some (b ++ t) /\ Z.of_nat (length (b ++ t)) = n /\ Forall is_byte t)
  (conv : wxConv) (claws : wxConvLaws conv) (l : list (shape * item)) (bs : list (list Z)) (f : CMemFile)
  (Hl : Forall2 (fun p b => item_bytes p.1 p.2 b) l bs) (Hf : mem_ok f)
  (Hp : m_position f <= m_fileSize f)
  (Hroom : mem_room memory_limit f (Z.of_nat (length (concat bs)))) :
  let IOF := CMemFile_IO realloc in
  exists f1 f2 f3, write_items l f = (inr tt, f1) /\
    mem_content f1 = splice (mem_content f) (m_position f) (concat bs) /\
    Seek (m_position f) wxFromStart f1 = (inr (m_position f), f2) /\
    read_items (map fst l) f2 = (inr (map snd l), f3) /\ m_position f3 = m_position f1 /\
    mem_content f3 = mem_content f1.
Proof.
  intros IOF. set (laws := CMemFile_laws realloc memory_limit limit_ok realloc_ok).
  destruct (mem_readback realloc memory_limit limit_ok realloc_ok (write_items l) (concat bs) tt f
    (write_items_writes (laws := laws) l bs Hl) Hf Hp Hroom)
    as (f1 & f2 & rest & E1 & C1 & P1 & E2 & Hf2 & C2 & P2 & L2 & Hrest).
  destruct (read_items_parses (laws := laws) l bs Hl f2 rest Hf2 L2 Hrest) as (f3 & E3 & _ & C3 & P3).
  cbn in C3, P3. exists f1, f2, f3. split_and!; try done; congruence.
Qed.

(** C30: Typed reads of a memory file with any contents.  Where the bytes at the position are those
    of a value of the type, that value is read and the position moves to their end; whatever the
    bytes are, reading gives a value of the type or throws [CEOFException], no other exception,
    and the contents stay; a block is read, and passed, exactly when it is there, and
    [CEOFException] is thrown exactly when the file ends before it does.  (Nothing is claimed
    about the position after the exception.) *)
Theorem memfile_reads_safe (realloc : list Z -> Z -> option (list Z)) (memory_limit : Z)
  (limit_ok : 0 <= memory_limit < 2 ^ 62)
  (realloc_ok : forall b n, Z.of_nat (length b) <= n <= memory_limit ->
     exists t, realloc b n = Some (b ++ t) /\ Z.of_nat (length (b ++ t)) = n /\ Forall is_byte t)
  (conv : wxConv) (claws : wxConvLaws conv) (s : shape) (f : CMemFile) (count : Z) (Hf : mem_ok f)
  (Hs : match s with SString _ n => n = 2 \/ n = 4 | _ => True end) (Hc : 0 < count < 2 ^ 31) :
  let IOF := CMemFile_IO realloc in
  (forall i b rest, item_bytes s i b -> m_position f <= m_fileSize f ->
     drop (Z.to_nat (m_position f)) (mem_content f) = b ++ rest ->
     exists f', read_item s f = (inr i, f') /\ mem_ok f' /\ mem_content f' = mem_content f /\
       m_position f' = m_position f + Z.of_nat (length b)) /\
  (exists r f', read_item s f = (r, f') /\ mem_ok f' /\ mem_content f' = mem_content f /\
     match r with inr i => item_ok s i | inl e => e = CEOFException end) /\
  (exists f', mem_ok f' /\ mem_content f' = mem_content f /\
     if m_position f + count <=? m_fileSize f
     then Read count f = (inr (take (Z.to_nat count) (drop (Z.to_nat (m_position f)) (mem_content f))), f') /\
          m_position f' = m_position f + count
     else Read count f = (inl CEOFException, f')).
Proof.
  intros IOF. set (laws := CMemFile_laws realloc memory_limit limit_ok realloc_ok). split_and!.
  - intros i b rest Hb Hp E. exact (read_item_parses (laws := laws) s i b Hb f rest Hf Hp E).
  - destruct (yields_read_item (laws := laws) s Hs f Hf) as (f' & Hf' & C' & _ & [(i & E & Hi)|(e & E & He & _)]).
    + exists (inr i), f'. by split_and!.
    + exists (inl e), f'. by split_and!.
  - destruct (mem_Read realloc count f Hf Hc) as (f' & E & Hf' & C & P). exists f'. split; [done|]. split; [done|].
    destruct (Z.leb_spec (m_position f + count) (m_fileSize f)); [split; [exact E|by apply P]|exact E].
Qed.

(** *** Witnesses *)

(** An allocator with a limit of 4096 bytes that clears what it adds. *)
Definition calloc_4096 (b : list Z) (n : Z) : option (list Z) :=
  if n <=? 4096 then Some (b ++ replicate (Z.to_nat n - length b) 0) else None.

Lemma calloc_ok b n : Z.of_nat (length b) <= n <= 4096 ->
  exists t, calloc_4096 b n = Some (b ++ t) /\ Z.of_nat (length (b ++ t)) = n /\ Forall is_byte t.
Proof.
  intros Hn. exists (replicate (Z.to_nat n - length b) 0). unfold calloc_4096.
  rewrite (proj2 (Z.leb_le _ _)) by lia. split; [done|]. rewrite length_app, length_replicate.
  split; [lia|]. by apply Forall_replicate.
Qed.

(** Conversions that only know ASCII. *)
Definition ascii_text (s : list Z) : bool := forallb (fun c => (0 <=? c) && (c <? 128)) s.

Definition ascii_conv : wxConv := {|
  utf8_str s := if ascii_text s then Some s else None;
  cMB2WX b := if ascii_text b then b else [];
  latin1_str s := if forallb (fun c => (0 <=? c) && (c <? 256)) s then Some s else None;
  from_latin1 b := b
|}.

Lemma forallb_range lo hi s : forallb (fun c => (lo <=? c) && (c <? hi)) s = true <->
  Forall (fun c => lo <= c < hi) s.
Proof.
  rewrite forallb_forall, Forall_forall. setoid_rewrite list_elem_of_In.
  split; intros H x Hx; specialize (H x Hx); [bool_facts|]; lia.
Qed.

Lemma ascii_laws : wxConvLaws ascii_conv.
Proof.
  split; cbn.
  - done.
  - intros s b Hs E. destruct (ascii_text s) eqn:Ha; [|done]. injection E as <-. rewrite Ha.
    unfold ascii_text in Ha. apply forallb_range in Ha. split; [|done].
    eapply Forall_impl; [exact Ha|]. unfold is_byte, in_width. simpl. lia.
  - intros s b E Hm. destruct (ascii_text s) eqn:Ha; [|done]. injection E as <-.
    apply forallb_range in Ha. destruct s as [|c s]; [done|]. injection Hm as -> _.
    apply Forall_cons in Ha as [Ha _]. lia.
  - intros s Hs. by rewrite (proj2 (forallb_range 0 256 s)) by (eapply Forall_impl; [exact Hs|]; simpl; lia).
  - done.
Qed.

Definition sample_file : CMemFile :=
  mkMemFile 16 2 16 3 true false ([7; 8; 9] ++ replicate 13 0).

Lemma sample_file_ok : mem_ok sample_file.
Proof. split; [done| |done|done|done]. repeat constructor; done. Qed.

Lemma memfile_refines_bytes_witness :
  exists out f', mem_exec calloc_4096 (MWrite [1; 2; 3]) sample_file = (inr out, f') /\
    refines f' ([Some 7; Some 8; Some 1; Some 2; Some 3], 5).
Proof.
  destruct (memfile_refines_bytes calloc_4096 4096 ltac:(done) calloc_ok 1024 [5] (MWrite [1; 2; 3])
    sample_file ([Some 7; Some 8; Some 9], 2)) as (_ & _ & _ & [(_ & out & f' & E & _ & R & _)|[Hn _]]).
  - done.
  - split; [by repeat constructor|done].
  - apply sample_file_ok.
  - split; [by repeat constructor|done].
  - split; [by repeat constructor|done].
  - by exists out, f'.
  - destruct Hn. split; [done|by left].
Defined.

Lemma memfile_roundtrip_witness :
  let IOF := CMemFile_IO calloc_4096 in let conv := ascii_conv in
  exists f1 f2 f3, write_items [(SUInt16, IUInt16 770); (SString utf8strOptBOM 2, IString [97; 98])] sample_file =
      (inr tt, f1) /\
    mem_content f1 = [7; 8; 2; 3; 5; 0; 0xEF; 0xBB; 0xBF; 97; 98] /\
    Seek 2 wxFromStart f1 = (inr 2, f2) /\
    read_items [SUInt16; SString utf8strOptBOM 2] f2 = (inr [IUInt16 770; IString [97; 98]], f3) /\
    m_position f3 = m_position f1.
Proof.
  intros IOF conv.
  destruct (memfile_roundtrip calloc_4096 4096 ltac:(done) calloc_ok ascii_conv ascii_laws
    [(SUInt16, IUInt16 770); (SString utf8strOptBOM 2, IString [97; 98])]
    [[2; 3]; [5; 0; 0xEF; 0xBB; 0xBF; 97; 98]] sample_file) as (f1 & f2 & f3 & E1 & C & E2 & E3 & P & _).
  - repeat constructor; [done|]. exists (BOMHeader ++ [97; 98]). split; [|done].
    split; [by repeat constructor|]. split; [done|]. by exists [97; 98].
  - apply sample_file_ok.
  - done.
  - split; [done|]. by left.
  - by exists f1, f2, f3.
Defined.

Lemma memfile_reads_safe_witness :
  let IOF := CMemFile_IO calloc_4096 in let conv := ascii_conv in
  (exists f', read_item SUInt8 sample_file = (inr (IUInt8 9), f') /\ m_position f' = 3) /\
  (exists f', Read 2 sample_file = (inl CEOFException, f') /\ mem_content f' = [7; 8; 9]).
Proof.
  intros IOF conv.
  destruct (memfile_reads_safe calloc_4096 4096 ltac:(done) calloc_ok ascii_conv ascii_laws SUInt8 sample_file 2
    sample_file_ok I ltac:(done)) as (Hread & _ & (f' & _ & C & E)). split.
  - destruct (Hread (IUInt8 9) [9] [] ltac:(by split) ltac:(done) eq_refl) as (f1 & E1 & _ & _ & P). by exists f1.
  - exists f'. split; [exact E|exact C].
Defined.

(** A read past the end of the file throws, but it has taken the bytes that were left. *)
Example short_read_moves_position :
  @Read _ (CMemFile_IO calloc_4096) 2 sample_file = (inl CEOFException, set_mem_position 3 sample_file).
Proof. vm_compute. reflexivity. Qed.
