(* ===== verification/RC4Encrypt.v ===== *)
(** * The stream cipher of the obfuscated protocols ([RC4Encrypt.h], [RC4Encrypt.cpp])

    RC4 with the key kept in the buffer object, the buffer itself being a [CMemFile] that refuses
    data once it is encrypted. *)
From S2P Require Import Prelude StdMap UInt128 DataIO MemFile.

Record RC4_Key_Struct := mkKey { abyState : list Z; byX : Z; byY : Z }.

Definition RC4_Key_zero : RC4_Key_Struct := mkKey (replicate 256 0) 0 0.

Definition state_at (s : list Z) (i : Z) : Z := s !!! Z.to_nat i.

(** [std::swap(s[i], s[j])] *)
Definition swap_at (i j : Z) (s : list Z) : list Z :=
  let tmp := state_at s i in <[Z.to_nat j := tmp]> (<[Z.to_nat i := state_at s j]> s).

(** One round of the loop of [RC4Crypt]: the byte of the key stream. *)
Definition rc4_round (k : RC4_Key_Struct) : Z * RC4_Key_Struct :=
  let byX := (byX k + 1) mod 256 in
  let byY := (state_at (abyState k) byX + byY k) mod 256 in
  let s := swap_at byX byY (abyState k) in
  let byXorIndex := (state_at s byX + state_at s byY) mod 256 in
  (state_at s byXorIndex, mkKey s byX byY).

Fixpoint rc4_loop (pachIn : list Z) (k : RC4_Key_Struct) : list Z * RC4_Key_Struct :=
  match pachIn with
  | [] => ([], k)
  | b :: rest =>
      let '(x, k) := rc4_round k in
      let '(out, k) := rc4_loop rest k in (Z.lxor b x :: out, k)
  end.

(** The loop with [pachIn == NULL]. *)
Fixpoint rc4_skip (nLen : nat) (k : RC4_Key_Struct) : RC4_Key_Struct :=
  match nLen with O => k | S n => rc4_skip n (rc4_round k).2 end.

(** The first loop of [RC4CreateKey] fills the state, the second mixes in the key. *)
Fixpoint key_loop (n : nat) (i index1 index2 : Z) (pachKeyData : list Z) (s : list Z) : list Z :=
  match n with
  | O => s
  | S n =>
      let index2 := (state_at pachKeyData index1 + state_at s i + index2) mod 256 in
      let s := swap_at i index2 s in
      let index1 := (index1 + 1) mod Z.of_nat (length pachKeyData) in
      key_loop n (i + 1) index1 index2 pachKeyData s
  end.

Definition identity_state : list Z := seqZ 0 256.

Definition RC4CreateKey (pachKeyData : list Z) (bSkipDiscard : bool) : RC4_Key_Struct :=
  let k := mkKey (key_loop 256 0 0 0 pachKeyData identity_state) 0 0 in
  if negb bSkipDiscard then rc4_skip 1024 k else k.

(** ** The buffer *)

Record CRC4EncryptableBuffer := mkBuffer {
  m_file : CMemFile; m_encrypted : bool; m_hasKey : bool; m_key : RC4_Key_Struct
}.

(** [std::runtime_error], or what the file throws. *)
Inductive rc4_exn := runtime_error | file_error (e : exn).

(** The default growth rate of a [CMemFile] is 1024. *)
Definition CRC4EncryptableBuffer_new : CRC4EncryptableBuffer :=
  mkBuffer (CMemFile_new 1024) false false RC4_Key_zero.

Section Buffer.

Context (realloc : list Z -> Z -> option (list Z)).

Abbreviation BufIO A := (CRC4EncryptableBuffer -> (rc4_exn + A) * CRC4EncryptableBuffer) (only parsing).

Definition BufAppend (buffer : list Z) : BufIO unit := fun b =>
  if negb (m_encrypted b) then
    match Append (IOF := CMemFile_IO realloc) buffer (m_file b) with
    | (inr _, f) => (inr tt, mkBuffer f (m_encrypted b) (m_hasKey b) (m_key b))
    | (inl e, f) => (inl (file_error e), mkBuffer f (m_encrypted b) (m_hasKey b) (m_key b))
    end
  else (inl runtime_error, b).

Definition RC4Crypt (pachIn : list Z) : BufIO (list Z) := fun b =>
  if m_hasKey b then
    let '(out, k) := rc4_loop pachIn (m_key b) in
    (inr out, mkBuffer (m_file b) (m_encrypted b) (m_hasKey b) k)
  else (inl runtime_error, b).

Definition RC4Discard (nLen : Z) : BufIO unit := fun b =>
  if m_hasKey b then
    (inr tt, mkBuffer (m_file b) (m_encrypted b) (m_hasKey b) (rc4_skip (Z.to_nat nLen) (m_key b)))
  else (inl runtime_error, b).

(** The bytes of the file, encrypted in place. *)
Definition Encrypt : BufIO unit := fun b =>
  let n := Z.to_nat (m_fileSize (m_file b)) in
  match RC4Crypt (take n (m_buffer (m_file b))) b with
  | (inr out, b) =>
      let f := m_file b in
      (inr tt, mkBuffer (set_buffer (m_BufferSize f) (out ++ drop n (m_buffer f)) f) true (m_hasKey b) (m_key b))
  | (inl e, b) => (inl e, b)
  end.

Definition Detach : BufIO (list Z) := fun b =>
  let ret := take (Z.to_nat (m_fileSize (m_file b))) (m_buffer (m_file b)) in
  (inr ret, mkBuffer (ResetData (m_file b)) false (m_hasKey b) (m_key b)).

Definition SetKey (keyhash : list Z) (bSkipDiscard : bool) : BufIO unit := fun b =>
  if negb (m_hasKey b)
  then (inr tt, mkBuffer (m_file b) (m_encrypted b) true (RC4CreateKey keyhash bSkipDiscard))
  else (inl runtime_error, b).

Definition BufResetData (b : CRC4EncryptableBuffer) : CRC4EncryptableBuffer :=
  mkBuffer (ResetData (m_file b)) false (m_hasKey b) (m_key b).

Definition FullReset (b : CRC4EncryptableBuffer) : CRC4EncryptableBuffer :=
  let b := BufResetData b in mkBuffer (m_file b) (m_encrypted b) false RC4_Key_zero.

End Buffer.

(** ** The cipher *)

(** The state is a permutation of the bytes and the indices are bytes. *)
Record key_ok (k : RC4_Key_Struct) : Prop := {
  key_perm : abyState k ≡ₚ identity_state;
  key_x : is_byte (byX k);
  key_y : is_byte (byY k)
}.

Lemma perm_length s : s ≡ₚ identity_state -> length s = 256%nat.
Proof. intros H. by rewrite (Permutation_length H). Qed.

Lemma swap_at_perm i j s : 0 <= i < 256 -> 0 <= j < 256 -> s ≡ₚ identity_state -> swap_at i j s ≡ₚ s.
Proof.
  intros Hi Hj Hs%perm_length. unfold swap_at, state_at.
  destruct (lookup_lt_is_Some_2 s (Z.to_nat i)) as [a Ha]; [lia|].
  destruct (lookup_lt_is_Some_2 s (Z.to_nat j)) as [b Hb]; [lia|].
  rewrite (list_lookup_total_correct _ _ _ Ha), (list_lookup_total_correct _ _ _ Hb).
  by apply Permutation_insert_swap.
Qed.

Lemma perm_at s i : s ≡ₚ identity_state -> 0 <= i < 256 -> is_byte (state_at s i).
Proof.
  intros Hs Hi. unfold state_at. destruct (lookup_lt_is_Some_2 s (Z.to_nat i)) as [x Hx]; [rewrite perm_length; [lia|done]|].
  rewrite (list_lookup_total_correct _ _ _ Hx). apply list_elem_of_lookup_2 in Hx. rewrite Hs in Hx.
  apply elem_of_seqZ in Hx. unfold is_byte, in_width. lia.
Qed.

Lemma rc4_round_ok k : key_ok k -> is_byte (rc4_round k).1 /\ key_ok (rc4_round k).2.
Proof.
  intros [Hs Hx Hy]. unfold rc4_round. cbn [fst snd].
  set (x := (byX k + 1) mod 256). set (y := (state_at (abyState k) x + byY k) mod 256).
  assert (0 <= x < 256 /\ 0 <= y < 256) as [Bx By] by (split; apply Z.mod_pos_bound; lia).
  assert (swap_at x y (abyState k) ≡ₚ identity_state) as Hs' by (by rewrite swap_at_perm).
  split; [apply perm_at; [done|apply Z.mod_pos_bound; lia]|by split].
Qed.

Lemma rc4_skip_ok n : forall k, key_ok k -> key_ok (rc4_skip n k).
Proof. induction n as [|n IH]; intros k Hk; [done|]. cbn [rc4_skip]. by apply IH, rc4_round_ok. Qed.

Lemma lxor_byte a b : is_byte a -> is_byte b -> is_byte (Z.lxor a b).
Proof. apply lxor_in_width. done. Qed.

Lemma rc4_loop_cons b bs k : rc4_loop (b :: bs) k =
  (Z.lxor b (rc4_round k).1 :: (rc4_loop bs (rc4_round k).2).1, (rc4_loop bs (rc4_round k).2).2).
Proof. cbn [rc4_loop]. destruct (rc4_round k) as [x k']. cbn [fst snd]. by destruct (rc4_loop bs k'). Qed.

Lemma rc4_loop_ok bs : forall k, key_ok k -> Forall is_byte bs ->
  Forall is_byte (rc4_loop bs k).1 /\ key_ok (rc4_loop bs k).2.
Proof.
  induction bs as [|b bs IH]; intros k Hk Hbs; [by split|]. apply Forall_cons in Hbs as [Hb Hbs].
  rewrite rc4_loop_cons. cbn [fst snd]. destruct (rc4_round_ok k Hk) as [Hr Hk'].
  destruct (IH _ Hk' Hbs). split; [|done]. constructor; [by apply lxor_byte|done].
Qed.

Lemma rc4_loop_length bs : forall k, length (rc4_loop bs k).1 = length bs.
Proof. induction bs as [|b bs IH]; intros k; [done|]. rewrite rc4_loop_cons. cbn. by rewrite IH. Qed.

(** The key stream goes on from one call to the next, and passes over what is skipped. *)
Lemma rc4_loop_app bs1 bs2 : forall k,
  rc4_loop (bs1 ++ bs2) k =
    ((rc4_loop bs1 k).1 ++ (rc4_loop bs2 (rc4_loop bs1 k).2).1, (rc4_loop bs2 (rc4_loop bs1 k).2).2).
Proof.
  induction bs1 as [|b bs1 IH]; intros k; [cbn [app rc4_loop fst snd]; by destruct (rc4_loop bs2 k)|].
  rewrite <- app_comm_cons, !rc4_loop_cons, IH. done.
Qed.

Lemma rc4_loop_skip bs : forall k, (rc4_loop bs k).2 = rc4_skip (length bs) k.
Proof. induction bs as [|b bs IH]; intros k; [done|]. rewrite rc4_loop_cons. cbn [snd length rc4_skip]. by rewrite <- IH. Qed.

(** Encrypting twice with the same key gives the text back. *)
Lemma rc4_loop_twice bs : forall k,
  rc4_loop (rc4_loop bs k).1 k = (bs, (rc4_loop bs k).2).
Proof.
  induction bs as [|b bs IH]; intros k; [done|]. rewrite rc4_loop_cons. cbn [fst snd]. rewrite rc4_loop_cons, IH.
  cbn [fst snd]. by rewrite Z.lxor_assoc, Z.lxor_nilpotent, Z.lxor_0_r.
Qed.

Lemma key_loop_perm n key : Forall is_byte key -> key <> [] -> forall i index1 index2 s,
  0 <= i -> i + Z.of_nat n <= 256 -> s ≡ₚ identity_state -> key_loop n i index1 index2 key s ≡ₚ identity_state.
Proof.
  intros Hkey Hne. induction n as [|n IH]; intros i index1 index2 s Hi Hn Hs; [done|]. cbn [key_loop].
  apply IH; [lia|lia|]. rewrite swap_at_perm; [done|lia|apply Z.mod_pos_bound; lia|done].
Qed.

Lemma RC4CreateKey_ok key skip : Forall is_byte key -> key <> [] -> key_ok (RC4CreateKey key skip).
Proof.
  intros Hkey Hne. assert (key_ok (mkKey (key_loop 256 0 0 0 key identity_state) 0 0)) as Hk.
  { split; cbn [abyState byX byY]; [by apply key_loop_perm|unfold is_byte, in_width; lia..]. }
  unfold RC4CreateKey. destruct skip; cbn [negb]; [exact Hk|]. by apply rc4_skip_ok.
Qed.

(** The published test vectors: key [Key], text [Plaintext]; key [Wiki], text [pedia]. *)
Example rc4_test_vectors :
  (rc4_loop [0x50; 0x6C; 0x61; 0x69; 0x6E; 0x74; 0x65; 0x78; 0x74] (RC4CreateKey [0x4B; 0x65; 0x79] true)).1 =
    [0xBB; 0xF3; 0x16; 0xE8; 0xD9; 0x40; 0xAF; 0x0A; 0xD3] /\
  (rc4_loop [0x70; 0x65; 0x64; 0x69; 0x61] (RC4CreateKey [0x57; 0x69; 0x6B; 0x69] true)).1 =
    [0x10; 0x21; 0xBF; 0x04; 0x20].
Proof. vm_compute. by split. Qed.

(** ** Streams of calls *)

Section Streams.

Context (realloc : list Z -> Z -> option (list Z)).

(** One [RC4Crypt] after the other, the outputs in order. *)
Fixpoint crypt_calls (pieces : list (list Z)) (b : CRC4EncryptableBuffer) :
  (rc4_exn + list (list Z)) * CRC4EncryptableBuffer :=
  match pieces with
  | [] => (inr [], b)
  | p :: pieces =>
      match RC4Crypt p b with
      | (inr out, b) =>
          match crypt_calls pieces b with
          | (inr outs, b) => (inr (out :: outs), b)
          | (inl e, b) => (inl e, b)
          end
      | (inl e, b) => (inl e, b)
      end
  end.

Lemma crypt_calls_concat pieces : forall b, m_hasKey b = true ->
  exists outs, crypt_calls pieces b =
    (inr outs, mkBuffer (m_file b) (m_encrypted b) true (rc4_loop (concat pieces) (m_key b)).2) /\
  concat outs = (rc4_loop (concat pieces) (m_key b)).1.
Proof.
  induction pieces as [|p pieces IH]; intros b Hk; simpl; [exists []; destruct b; by simpl in *; subst|].
  unfold RC4Crypt. rewrite Hk. rewrite rc4_loop_app. destruct (rc4_loop p (m_key b)) as [out k] eqn:Ep. simpl.
  destruct (IH (mkBuffer (m_file b) (m_encrypted b) true k) eq_refl) as (outs & -> & E). simpl in *.
  exists (out :: outs). split; [done|]. simpl. by rewrite E.
Qed.

(** What a buffer holds before it is encrypted. *)
Record holds (b : CRC4EncryptableBuffer) (bs : list Z) : Prop := {
  holds_plain : m_encrypted b = false;
  holds_ok : mem_ok (m_file b);
  holds_bytes : mem_content (m_file b) = bs;
  holds_mode : m_readonly (m_file b) = false /\ m_delete (m_file b) = true /\ m_growthRate (m_file b) = 1024
}.

Context (memory_limit : Z) (limit_ok : 0 <= memory_limit < 2 ^ 62)
  (realloc_ok : forall b n, Z.of_nat (length b) <= n <= memory_limit ->
     exists t, realloc b n = Some (b ++ t) /\ Z.of_nat (length (b ++ t)) = n /\ Forall is_byte t).

Lemma BufAppend_spec b bs bytes : holds b bs -> Forall is_byte bytes ->
  Z.of_nat (length bytes) < 2 ^ 31 -> rounded 1024 (Z.of_nat (length (bs ++ bytes))) <= memory_limit ->
  exists b', BufAppend realloc bytes b = (inr tt, b') /\ holds b' (bs ++ bytes) /\
    m_hasKey b' = m_hasKey b /\ m_key b' = m_key b.
Proof using All.
  intros [Hp Hf Hc (Hro & Hd & Hg)] Hb Hlen Hroom. unfold BufAppend. rewrite Hp. simpl.
  pose proof (mem_content_length _ Hf) as HL. pose proof (mem_sizes _ Hf) as Hs. rewrite Hc in HL.
  set (f := set_mem_position (m_fileSize (m_file b)) (m_file b)).
  assert (@Seek _ (CMemFile_IO realloc) 0 wxFromEnd (m_file b) = (inr (m_fileSize (m_file b)), f)) as Es.
  { unfold Seek. simpl. rewrite Z.add_0_r. replace (swrap 64 (m_fileSize (m_file b))) with (m_fileSize (m_file b))
      by (unfold swrap; rewrite Z.mod_small; mem_lia). unfold io_bind, mem_doSeek.
    rewrite (proj2 (Z.geb_le _ _)) by lia. by rewrite (proj2 (Z.geb_le _ _)), Z.eqb_refl by lia. }
  assert (mem_ok f) as Hf' by (apply mem_ok_position; [done|mem_lia]).
  rewrite length_app in Hroom.
  destruct (doWrite_spec realloc memory_limit limit_ok realloc_ok f bytes Hf' Hb) as (f' & E & [W1 W2 W3 W4 _ _ W7] & _).
  { split; [done|right]. split; [done|]. simpl. rewrite Hg. by replace (m_fileSize _ + _) with
      (Z.of_nat (length bs + length bytes)) by lia. }
  unfold Append, io_bind. rewrite Es. unfold Write, io_bind. simpl. rewrite E.
  replace (swrap 32 (Z.of_nat (length bytes))) with (Z.of_nat (length bytes))
    by (unfold swrap; rewrite Z.mod_small; change (2 ^ (32 - 1)) with (2 ^ 31); change (2 ^ 32) with (2 ^ 31 + 2 ^ 31); lia).
  rewrite Z.eqb_refl. eexists. split; [done|]. split; [|done]. split; simpl; [done|done| |].
  - rewrite W4 by (simpl; lia). unfold splice, mem_content in *. simpl. rewrite Hc, take_ge, drop_ge, app_nil_r by lia. done.
  - destruct W7 as (-> & -> & ->). done.
Qed.

Fixpoint append_calls (pieces : list (list Z)) (b : CRC4EncryptableBuffer) :
  (rc4_exn + unit) * CRC4EncryptableBuffer :=
  match pieces with
  | [] => (inr tt, b)
  | p :: pieces => match BufAppend realloc p b with
                   | (inr _, b) => append_calls pieces b
                   | (inl e, b) => (inl e, b)
                   end
  end.

Lemma append_calls_spec pieces : forall b bs, holds b bs -> Forall (Forall is_byte) pieces ->
  Forall (fun p => Z.of_nat (length p) < 2 ^ 31) pieces ->
  rounded 1024 (Z.of_nat (length (bs ++ concat pieces))) <= memory_limit ->
  exists b', append_calls pieces b = (inr tt, b') /\ holds b' (bs ++ concat pieces) /\
    m_hasKey b' = m_hasKey b /\ m_key b' = m_key b.
Proof using All.
  induction pieces as [|p pieces IH]; intros b bs Hb Hp Hl Hr; simpl in *; [exists b; by rewrite app_nil_r|].
  apply Forall_cons in Hp as [Hp Hps]. apply Forall_cons in Hl as [Hl Hls].
  destruct (BufAppend_spec b bs p Hb Hp Hl) as (b1 & -> & Hb1 & E1 & E2).
  { etrans; [|exact Hr]. apply rounded_mono; [done|]. rewrite !length_app. lia. }
  destruct (IH b1 (bs ++ p) Hb1 Hps Hls) as (b' & E & Hb' & E3 & E4); [by rewrite <- app_assoc|].
  exists b'. rewrite <- app_assoc in Hb'. split_and!; congruence || done.
Qed.

End Streams.

(** ** Properties *)

(** The cipher is its own inverse, however the text is cut.  Two objects get the same key; one
    encrypts a text in any pieces, the other decrypts what comes out in any other pieces: the text
    comes back, byte for byte.  The key stays well formed: its state a permutation of the bytes. *)
Theorem rc4_stream_roundtrip (keyhash : list Z) (bSkipDiscard : bool) (sender receiver : CRC4EncryptableBuffer)
  (pieces received : list (list Z))
  (Hkey : Forall is_byte keyhash) (Hne : keyhash <> [])
  (Hs : m_hasKey sender = false) (Hr : m_hasKey receiver = false) :
  exists sender1 outs sender2 receiver1,
    SetKey keyhash bSkipDiscard sender = (inr tt, sender1) /\
    crypt_calls pieces sender1 = (inr outs, sender2) /\ key_ok (m_key sender1) /\
    SetKey keyhash bSkipDiscard receiver = (inr tt, receiver1) /\
    length (concat outs) = length (concat pieces) /\
    (concat received = concat outs ->
     exists texts receiver2, crypt_calls received receiver1 = (inr texts, receiver2) /\
       concat texts = concat pieces /\ m_key receiver2 = m_key sender2).
Proof.
  unfold SetKey. rewrite Hs, Hr. simpl. set (k := RC4CreateKey keyhash bSkipDiscard).
  destruct (crypt_calls_concat pieces (mkBuffer (m_file sender) (m_encrypted sender) true k) eq_refl)
    as (outs & E & Eo). simpl in E, Eo. do 4 eexists. split; [done|]. split; [exact E|].
  split; [by apply RC4CreateKey_ok|]. split; [done|]. split; [by rewrite Eo, rc4_loop_length|]. intros Erec.
  destruct (crypt_calls_concat received (mkBuffer (m_file receiver) (m_encrypted receiver) true k) eq_refl)
    as (texts & E' & Et). simpl in E', Et. rewrite Erec, Eo, rc4_loop_twice in *.
  do 2 eexists. split; [exact E'|]. by split.
Qed.

(** The buffer enforces its protocol.  Data appended to a new buffer, then keyed and encrypted, is
    detached as the cipher text of all that was appended; without a key nothing is encrypted; after
    encrypting nothing can be appended and a second key is refused until the buffer is reset,
    the refusals leaving the buffer as it was. *)
Theorem rc4_buffer_protocol (realloc : list Z -> Z -> option (list Z)) (memory_limit : Z)
  (limit_ok : 0 <= memory_limit < 2 ^ 62)
  (realloc_ok : forall b n, Z.of_nat (length b) <= n <= memory_limit ->
     exists t, realloc b n = Some (b ++ t) /\ Z.of_nat (length (b ++ t)) = n /\ Forall is_byte t)
  (pieces : list (list Z)) (more keyhash key2 : list Z) (bSkipDiscard : bool)
  (Hbytes : Forall (Forall is_byte) pieces) (Hlen : Forall (fun p => Z.of_nat (length p) < 2 ^ 31) pieces)
  (Hroom : rounded 1024 (Z.of_nat (length (concat pieces))) <= memory_limit) :
  exists b1 b2 b3,
    append_calls realloc pieces CRC4EncryptableBuffer_new = (inr tt, b1) /\
    Encrypt b1 = (inl runtime_error, b1) /\
    SetKey keyhash bSkipDiscard b1 = (inr tt, b2) /\
    Encrypt b2 = (inr tt, b3) /\
    BufAppend realloc more b3 = (inl runtime_error, b3) /\
    SetKey key2 bSkipDiscard b3 = (inl runtime_error, b3) /\
    (Detach b3).1 = inr (rc4_loop (concat pieces) (RC4CreateKey keyhash bSkipDiscard)).1 /\
    (exists b4, SetKey key2 bSkipDiscard (FullReset b3) = (inr tt, b4) /\ m_encrypted b4 = false).
Proof.
  assert (holds CRC4EncryptableBuffer_new []) as H0.
  { by split. }
  destruct (append_calls_spec realloc memory_limit limit_ok realloc_ok pieces _ [] H0 Hbytes Hlen Hroom)
    as (b1 & E & [Hp Hf Hc Hm] & Ek & _). simpl in Hc, Ek.
  pose proof (rc4_loop_length (concat pieces) (RC4CreateKey keyhash bSkipDiscard)) as Hl. pose proof (mem_content_length _ Hf) as HL. rewrite Hc in HL.
  destruct b1 as [f enc hk k1]. unfold mem_content in Hc. cbn [m_file m_encrypted m_hasKey m_key] in *. subst enc hk.
  destruct (rc4_loop (concat pieces) (RC4CreateKey keyhash bSkipDiscard)) as [out k2] eqn:El.
  do 3 eexists. split; [exact E|]. unfold Encrypt, RC4Crypt, SetKey. cbn. split; [reflexivity|]. split; [reflexivity|].
  cbn. rewrite Hc, El. split; [reflexivity|]. cbn. split; [done|]. split; [done|]. split; [|eexists; by split].
  f_equal. cbn in Hl. rewrite take_app_le by lia. apply take_ge. lia.
Qed.

(** ** Instances *)

Lemma rc4_stream_roundtrip_witness :
  exists sender1 outs sender2, SetKey [1; 2; 3] true CRC4EncryptableBuffer_new = (inr tt, sender1) /\
    crypt_calls [[1; 2]; [3]] sender1 = (inr outs, sender2) /\ length (concat outs) = 3%nat.
Proof.
  destruct (rc4_stream_roundtrip [1; 2; 3] true CRC4EncryptableBuffer_new CRC4EncryptableBuffer_new [[1; 2]; [3]] [])
    as (s1 & outs & s2 & r1 & H1 & H2 & _ & _ & H3 & _); [|discriminate|reflexivity..|].
  - repeat constructor; discriminate.
  - exists s1, outs, s2. split; [exact H1|]. split; [exact H2|exact H3].
Defined.

Lemma rc4_buffer_protocol_witness :
  exists b1, append_calls calloc_4096 [[1; 2]; [3]] CRC4EncryptableBuffer_new = (inr tt, b1) /\
    Encrypt b1 = (inl runtime_error, b1).
Proof.
  destruct (rc4_buffer_protocol calloc_4096 4096 ltac:(done) calloc_ok [[1; 2]; [3]] [4] [5] [6] true)
    as (b1 & b2 & b3 & H1 & H2 & _).
  - repeat constructor; discriminate.
  - repeat constructor.
  - vm_compute. discriminate.
  - exists b1. split; [exact H1|exact H2].
Defined.
