(* ===== verification/EncryptedDatagramSocket.v ===== *)
(** * Obfuscated datagrams ([EncryptedDatagramSocket.h], [EncryptedDatagramSocket.cpp])

    The three kinds of packet between clients (eD2k, Kad by node ID, Kad by verify key) and the
    packets exchanged with servers.  MD5, the random numbers and what the program knows of
    itself are parameters. *)
From S2P Require Import Prelude StdMap UInt128 DataIO MemFile RC4Encrypt.

Definition CRYPT_HEADER_WITHOUTPADDING : Z := 8.
Definition MAGICVALUE_UDP : Z := 91.
Definition MAGICVALUE_UDP_SYNC_CLIENT : Z := 0x395F2EC1.
Definition MAGICVALUE_UDP_SYNC_SERVER : Z := 0x13EF24D5.
Definition MAGICVALUE_UDP_SERVERCLIENT : Z := 0xA5.
Definition MAGICVALUE_UDP_CLIENTSERVER : Z := 0x6B.

(** [include/protocol/Protocols.h] *)
Definition OP_EDONKEYPROT : Z := 0xE3.
Definition OP_PACKEDPROT : Z := 0xD4.
Definition OP_EMULEPROT : Z := 0xC5.
Definition OP_UDPRESERVEDPROT1 : Z := 0xA3.
Definition OP_UDPRESERVEDPROT2 : Z := 0xB2.
Definition OP_KADEMLIAHEADER : Z := 0xE4.
Definition OP_KADEMLIAPACKEDPROT : Z := 0xE5.

(** The cases of the two [switch] statements. *)
Definition is_protocol_byte (b : Z) : bool :=
  (b =? OP_EMULEPROT) || (b =? OP_KADEMLIAPACKEDPROT) || (b =? OP_KADEMLIAHEADER) ||
  (b =? OP_UDPRESERVEDPROT1) || (b =? OP_UDPRESERVEDPROT2) || (b =? OP_PACKEDPROT).

(** What the program knows of itself: the Kad preferences if Kad ever ran, the user hash, the
    public address, and the verify key it gives to an address. *)
Record identity := mkIdentity {
  GetKadID : option CUInt128;
  GetUserHash : list Z;
  GetPublicIP : Z;
  GetUDPVerifyKey : Z -> Z
}.

Section Datagrams.

(** MD5 as the 16 bytes of [GetRawHash]. *)
Context (md5 : list Z -> list Z).

(** A fresh buffer keyed with the hash of the data, without discarding. *)
Definition keyed (keyData : list Z) : RC4_Key_Struct := RC4CreateKey (md5 keyData) true.

(** [RC4Crypt] on bytes of the packet: the output, and the key for what follows. *)
Definition crypt (bs : list Z) (k : RC4_Key_Struct) : list Z * RC4_Key_Struct := rc4_loop bs k.

Definition sub_bytes (pos len : Z) (bs : list Z) : list Z := take (Z.to_nat len) (drop (Z.to_nat pos) bs).

(** ** Key data: the last two bytes are the random part of the packet *)

Definition ed2k_key (userHash : list Z) (ip : Z) (random : list Z) : list Z :=
  userHash ++ poke_le 4 ip ++ [MAGICVALUE_UDP] ++ random.

Definition kad_id_key (kadID : list Z) (random : list Z) : list Z := kadID ++ random.

Definition kad_verify_key (verifyKey : Z) (random : list Z) : list Z := poke_le 4 verifyKey ++ random.

(** The key data of one try; [None] leaves the default [MD5Sum], whose hash is zero. *)
Definition try_key (me : identity) (ip currentTry : Z) (random : list Z) : option (list Z) :=
  if currentTry =? 0 then
    match GetKadID me with Some id => Some (kad_id_key (StoreCryptValue id) random) | None => None end
  else if currentTry =? 1 then Some (ed2k_key (GetUserHash me) ip random)
  else
    match GetKadID me with Some _ => Some (kad_verify_key (GetUDPVerifyKey me ip) random) | None => None end.

Definition try_state (me : identity) (ip currentTry : Z) (random : list Z) : RC4_Key_Struct :=
  match try_key me ip currentTry random with
  | Some keyData => keyed keyData
  | None => RC4CreateKey (replicate 16 0) true
  end.

(** The loop over the tries: whether the last was one for Kad, the value read and the key after it. *)
Fixpoint try_loop (tries : nat) (me : identity) (ip currentTry : Z) (bufIn : list Z) :
  bool * Z * RC4_Key_Struct :=
  let kad := negb (currentTry =? 1) in
  let '(value, k) := crypt (sub_bytes 3 4 bufIn) (try_state me ip currentTry (sub_bytes 1 2 bufIn)) in
  let value := peek_le value in
  match tries with
  | S (S _ as tries) =>
      if negb (value =? MAGICVALUE_UDP_SYNC_CLIENT)
      then try_loop tries me ip ((currentTry + 1) mod 3) bufIn
      else (kad, value, k)
  | _ => (kad, value, k)
  end.

(** The result of decrypting: the length returned, the bytes [bufOut] points to (to the end of
    the packet) and the two verify keys. *)
Record received := mkReceived {
  r_result : Z; r_bufOut : list Z; r_receiverVerifyKey : Z; r_senderVerifyKey : Z
}.

Definition DecryptReceivedClient (me : identity) (bufIn : list Z) (ip : Z) : received :=
  let bufLen := Z.of_nat (length bufIn) in
  let pass := mkReceived bufLen bufIn 0 0 in
  if bufLen <=? CRYPT_HEADER_WITHOUTPADDING then pass
  else if is_protocol_byte (state_at bufIn 0) then pass
  else
    let marker := Z.land (state_at bufIn 0) 0x03 in
    let currentTry := if marker =? 3 then 1 else marker in
    let '(kad, value, k) :=
      (match GetKadID me with
       | None => try_loop 1 me ip 1 bufIn
       | Some _ => try_loop 3 me ip currentTry bufIn
       end) in
    if value =? MAGICVALUE_UDP_SYNC_CLIENT then
      let '(padLen, k) := crypt (sub_bytes 7 1 bufIn) k in
      let padLen := peek_le padLen in
      let result := bufLen - CRYPT_HEADER_WITHOUTPADDING in
      if result <=? padLen then pass
      else
        let k := if padLen >? 0 then rc4_skip (Z.to_nat padLen) k else k in
        let result := result - padLen in
        if kad then
          if result <=? 8 then pass
          else
            let '(receiverVerifyKey, k) := crypt (sub_bytes (CRYPT_HEADER_WITHOUTPADDING + padLen) 4 bufIn) k in
            let '(senderVerifyKey, k) := crypt (sub_bytes (CRYPT_HEADER_WITHOUTPADDING + padLen + 4) 4 bufIn) k in
            let result := result - 8 in
            let bufOut := sub_bytes (bufLen - result) result bufIn in
            mkReceived result (crypt bufOut k).1 (peek_le receiverVerifyKey) (peek_le senderVerifyKey)
        else
          let bufOut := sub_bytes (bufLen - result) result bufIn in
          mkReceived result (crypt bufOut k).1 0 0
    else pass.

(** ** Sending to a client *)

(** [CMD4Hash::IsEmpty] *)
Definition hash_is_empty (h : list Z) : bool := forallb (Z.eqb 0) h.

(** The first byte of a packet of each kind. *)
Definition mark_byte (kad kadRecvKeyUsed : bool) (b : Z) : Z :=
  let b := if kad then Z.land b 0xFE else Z.lor b 0x01 in
  if kad then (if kadRecvKeyUsed then Z.lor (Z.land b 0xFE) 0x02 else Z.land b 0xFC)
  else Z.lor b 0x01.

(** The loop over at most 128 random bytes; [None] when all are refused. *)
Fixpoint marker_loop (kad kadRecvKeyUsed : bool) (rands : list Z) : option Z :=
  match rands with
  | [] => None
  | b :: rands =>
      let m := mark_byte kad kadRecvKeyUsed b in
      if negb (is_protocol_byte m) then Some m else marker_loop kad kadRecvKeyUsed rands
  end.

(** The hash the key is made of and whether the verify key is used; [None] where neither is there. *)
Definition send_key (me : identity) (clientHashOrKadID : option (list Z)) (kad : bool)
  (receiverVerifyKey : Z) (random : list Z) : option (list Z * bool) :=
  let known := match clientHashOrKadID with Some h => negb (hash_is_empty h) | None => false end in
  if kad then
    if negb known && negb (receiverVerifyKey =? 0) then Some (kad_verify_key receiverVerifyKey random, true)
    else if known then Some (kad_id_key (default [] clientHashOrKadID) random, false)
    else None
  else Some (ed2k_key (default [] clientHashOrKadID) (GetPublicIP me) random, false).

(** The packet sent; the plain buffer when there is no key.  [randomKeyPart] and [rands] are the
    numbers drawn. *)
Definition EncryptSendClient (me : identity) (buf : list Z) (clientHashOrKadID : option (list Z)) (kad : bool)
  (receiverVerifyKey senderVerifyKey randomKeyPart : Z) (rands : list Z) : list Z :=
  let random := poke_le 2 randomKeyPart in
  match send_key me clientHashOrKadID kad receiverVerifyKey random with
  | None => buf
  | Some (keyData, kadRecvKeyUsed) =>
      let k := keyed keyData in
      let marker := default 0x01 (marker_loop kad kadRecvKeyUsed (take 128 rands)) in
      let padLen := 0 in
      let '(magic, k) := crypt (poke_le 4 MAGICVALUE_UDP_SYNC_CLIENT) k in
      let '(pad, k) := crypt [padLen] k in
      let '(keys, k) :=
        (if kad then
           let '(r, k) := crypt (poke_le 4 receiverVerifyKey) k in
           let '(s, k) := crypt (poke_le 4 senderVerifyKey) k in (r ++ s, k)
         else ([], k)) in
      [marker] ++ random ++ magic ++ pad ++ keys ++ (crypt buf k).1
  end.

(** ** Servers *)

Definition server_key (baseKey direction : Z) (random : list Z) : list Z := poke_le 4 baseKey ++ [direction] ++ random.

Definition DecryptReceivedServer (cryptLayerEnabled : bool) (bufIn : list Z) (dwBaseKey : Z) : Z * list Z :=
  let nBufLen := Z.of_nat (length bufIn) in
  if (nBufLen <=? CRYPT_HEADER_WITHOUTPADDING) || negb cryptLayerEnabled || (dwBaseKey =? 0) then (nBufLen, bufIn)
  else if state_at bufIn 0 =? OP_EDONKEYPROT then (nBufLen, bufIn)
  else
    let k := keyed (server_key dwBaseKey MAGICVALUE_UDP_SERVERCLIENT (sub_bytes 1 2 bufIn)) in
    let '(dwValue, k) := crypt (sub_bytes 3 4 bufIn) k in
    if peek_le dwValue =? MAGICVALUE_UDP_SYNC_SERVER then
      let '(byPadLen, k) := crypt (sub_bytes 7 1 bufIn) k in
      let byPadLen := Z.land (peek_le byPadLen) 15 in
      let nResult := nBufLen - CRYPT_HEADER_WITHOUTPADDING in
      if nResult <=? byPadLen then (nBufLen, bufIn)
      else
        let k := if byPadLen >? 0 then rc4_skip (Z.to_nat byPadLen) k else k in
        let nResult := nResult - byPadLen in
        (nResult, (crypt (sub_bytes (nBufLen - nResult) nResult bufIn) k).1)
    else (nBufLen, bufIn).

Fixpoint server_marker_loop (rands : list Z) : option Z :=
  match rands with
  | [] => None
  | b :: rands => if negb (b =? OP_EDONKEYPROT) then Some b else server_marker_loop rands
  end.

Definition EncryptSendServer (buf : list Z) (dwBaseKey nRandomKeyPart : Z) (rands : list Z) : list Z :=
  let random := poke_le 2 nRandomKeyPart in
  let k := keyed (server_key dwBaseKey MAGICVALUE_UDP_CLIENTSERVER random) in
  let marker := default 0x01 (server_marker_loop (take 128 rands)) in
  let byPadLen := 0 in
  let '(magic, k) := crypt (poke_le 4 MAGICVALUE_UDP_SYNC_SERVER) k in
  let '(pad, k) := crypt [byPadLen] k in
  [marker] ++ random ++ magic ++ pad ++ (crypt buf k).1.

End Datagrams.

(** ** The packets as the protocol describes them *)

(** The marker and the random key part are plain, the rest is encrypted. *)
Definition packet (marker : Z) (random : list Z) (k : RC4_Key_Struct) (body : list Z) : list Z :=
  [marker] ++ random ++ (rc4_loop body k).1.

(** Magic value, length of the padding, padding, verify keys of a Kad packet, contents. *)
Definition client_body (pad : list Z) (keys : option (Z * Z)) (contents : list Z) : list Z :=
  poke_le 4 MAGICVALUE_UDP_SYNC_CLIENT ++ [Z.of_nat (length pad)] ++ pad ++
  match keys with Some (r, s) => poke_le 4 r ++ poke_le 4 s | None => [] end ++ contents.

(** The length byte of a server may have other bits set above the lowest four. *)
Definition server_body (padByte : Z) (pad contents : list Z) : list Z :=
  poke_le 4 MAGICVALUE_UDP_SYNC_SERVER ++ [padByte] ++ pad ++ contents.

Lemma sub_bytes_at (pre x post : list Z) pos len :
  pos = Z.of_nat (length pre) -> len = Z.of_nat (length x) -> sub_bytes pos len (pre ++ x ++ post) = x.
Proof.
  intros -> ->. unfold sub_bytes. by rewrite !Nat2Z.id, drop_app_length, take_app_length.
Qed.

(** A piece of the cipher text, decrypted with the key where it starts. *)
Lemma crypt_piece x k : crypt (rc4_loop x k).1 k = (x, (rc4_loop x k).2).
Proof. apply rc4_loop_twice. Qed.

Lemma rc4_skip_piece x k : rc4_skip (length x) k = (rc4_loop x k).2.
Proof. symmetry. apply rc4_loop_skip. Qed.

(** Passing over the padding behind [pre]. *)
Lemma skip_padding (pre pad : list Z) k :
  (if Z.of_nat (length pad) >? 0 then rc4_skip (Z.to_nat (Z.of_nat (length pad))) (rc4_loop pre k).2
   else (rc4_loop pre k).2) = (rc4_loop (pre ++ pad) k).2.
Proof.
  rewrite Nat2Z.id, rc4_skip_piece, rc4_loop_app, Z.gtb_ltb.
  destruct (Z.ltb_spec 0 (Z.of_nat (length pad))); [done|]. by destruct pad.
Qed.

(** The parts of a packet lie one behind the other; each is decrypted with the key at its start. *)
Lemma packet_parts marker random k body1 body2 : length random = 2%nat ->
  packet marker random k (body1 ++ body2) =
    ([marker] ++ random ++ (rc4_loop body1 k).1) ++ (rc4_loop body2 (rc4_loop body1 k).2).1.
Proof. intros Hr. unfold packet. rewrite rc4_loop_app. cbn [fst snd]. by rewrite <- !app_assoc. Qed.

(** Decrypting at a position: the piece [x] behind [pre] and before [post]. *)
Lemma crypt_at marker random k body pre x post pos len : length random = 2%nat ->
  body = pre ++ x ++ post -> pos = 3 + Z.of_nat (length pre) -> len = Z.of_nat (length x) ->
  crypt (sub_bytes pos len (packet marker random k body)) (rc4_loop pre k).2 = (x, (rc4_loop (pre ++ x) k).2).
Proof.
  intros Hr -> -> ->. rewrite packet_parts by done. rewrite rc4_loop_app. cbn [fst snd].
  rewrite sub_bytes_at.
  - rewrite crypt_piece, rc4_loop_app. done.
  - rewrite !length_app, rc4_loop_length, Hr. simpl. lia.
  - by rewrite rc4_loop_length.
Qed.

Lemma packet_length marker random k body : length random = 2%nat ->
  Z.of_nat (length (packet marker random k body)) = 3 + Z.of_nat (length body).
Proof. intros Hr. unfold packet. rewrite !length_app, rc4_loop_length, Hr. simpl. lia. Qed.

Lemma packet_random marker random k body : length random = 2%nat ->
  sub_bytes 1 2 (packet marker random k body) = random.
Proof. intros Hr. unfold packet. apply sub_bytes_at; [done|by rewrite Hr]. Qed.

Lemma packet_marker marker random k body : state_at (packet marker random k body) 0 = marker.
Proof. done. Qed.

(** ** The receiver *)

Section Protocol.

Context (md5 : list Z -> list Z).

(** The try the marker selects. *)
Definition first_try (me : identity) (marker : Z) : Z :=
  match GetKadID me with
  | None => 1
  | Some _ => let m := Z.land marker 0x03 in if m =? 3 then 1 else m
  end.

Lemma try_loop_first tries me ip currentTry marker random keyData pad keys contents : length random = 2%nat ->
  try_key me ip currentTry random = Some keyData ->
  try_loop md5 tries me ip currentTry (packet marker random (keyed md5 keyData) (client_body pad keys contents)) =
    (negb (currentTry =? 1), MAGICVALUE_UDP_SYNC_CLIENT,
     (rc4_loop (poke_le 4 MAGICVALUE_UDP_SYNC_CLIENT) (keyed md5 keyData)).2).
Proof using.
  intros Hr Hk. assert (forall n, try_loop md5 n me ip currentTry
    (packet marker random (keyed md5 keyData) (client_body pad keys contents)) =
    let '(value, k) := crypt (sub_bytes 3 4 (packet marker random (keyed md5 keyData) (client_body pad keys contents)))
      (try_state md5 me ip currentTry random) in
    match n with
    | S (S _ as tries) =>
        if negb (peek_le value =? MAGICVALUE_UDP_SYNC_CLIENT)
        then try_loop md5 tries me ip ((currentTry + 1) mod 3) (packet marker random (keyed md5 keyData) (client_body pad keys contents))
        else (negb (currentTry =? 1), peek_le value, k)
    | _ => (negb (currentTry =? 1), peek_le value, k)
    end) as E.
  { intros n. rewrite <- (packet_random marker random (keyed md5 keyData) (client_body pad keys contents)) at 3 by done.
    by destruct n as [|[|n]]. }
  rewrite E. unfold try_state. rewrite Hk.
  pose proof (crypt_at marker random (keyed md5 keyData) (client_body pad keys contents) []
    (poke_le 4 MAGICVALUE_UDP_SYNC_CLIENT) _ 3 4 Hr eq_refl eq_refl eq_refl) as Hc.
  change (rc4_loop [] (keyed md5 keyData)).2 with (keyed md5 keyData) in Hc. rewrite Hc.
  rewrite peek_poke by (unfold in_width; cbn; unfold MAGICVALUE_UDP_SYNC_CLIENT; lia).
  rewrite Z.eqb_refl. cbn [negb app]. by destruct tries as [|[|]].
Qed.

Lemma receive_client me ip marker random keyData pad keys contents : length random = 2%nat ->
  is_protocol_byte marker = false -> (length pad < 256)%nat -> contents <> [] ->
  try_key me ip (first_try me marker) random = Some keyData ->
  (first_try me marker = 1 <-> keys = None) ->
  match keys with Some (r, s) => in_width 32 r /\ in_width 32 s | None => True end ->
  DecryptReceivedClient md5 me (packet marker random (keyed md5 keyData) (client_body pad keys contents)) ip =
    mkReceived (Z.of_nat (length contents)) contents
      (match keys with Some (r, _) => r | None => 0 end) (match keys with Some (_, s) => s | None => 0 end).
Proof using.
  intros Hr Hm Hpad Hne Hkey Hkind Hkeys. set (k := keyed md5 keyData).
  assert (0 < Z.of_nat (length contents)) as Hc by (destruct contents; [done|simpl; lia]).
  set (body := client_body pad keys contents).
  set (mid := match keys with Some (r, s) => poke_le 4 r ++ poke_le 4 s | None => [] end).
  assert (body = poke_le 4 MAGICVALUE_UDP_SYNC_CLIENT ++ [Z.of_nat (length pad)] ++ pad ++ mid ++ contents) as Ebody by done.
  assert (Z.of_nat (length (packet marker random k body)) =
    8 + Z.of_nat (length pad) + Z.of_nat (length mid) + Z.of_nat (length contents)) as HL.
  { rewrite packet_length, Ebody by done. rewrite !length_app, poke_le_length. simpl. lia. }
  unfold DecryptReceivedClient. rewrite HL. unfold CRYPT_HEADER_WITHOUTPADDING.
  rewrite (proj2 (Z.leb_gt _ 8)) by lia. rewrite packet_marker, Hm.
  replace (match GetKadID me with None => _ | Some _ => _ end) with
    (negb (first_try me marker =? 1), MAGICVALUE_UDP_SYNC_CLIENT, (rc4_loop (poke_le 4 MAGICVALUE_UDP_SYNC_CLIENT) k).2)
    by (revert Hkey; unfold first_try; destruct (GetKadID me); intros Hkey; symmetry; by apply try_loop_first).
  rewrite Z.eqb_refl.
  rewrite (crypt_at marker random k body (poke_le 4 MAGICVALUE_UDP_SYNC_CLIENT) [Z.of_nat (length pad)]
    (pad ++ mid ++ contents) 7 1 Hr Ebody eq_refl eq_refl).
  replace (peek_le [Z.of_nat (length pad)]) with (Z.of_nat (length pad)) by (simpl; lia).
  rewrite (proj2 (Z.leb_gt _ (Z.of_nat (length pad)))) by lia.
  set (pre := poke_le 4 MAGICVALUE_UDP_SYNC_CLIENT ++ [Z.of_nat (length pad)]) in *.
  rewrite skip_padding.
  assert (Z.of_nat (length (pre ++ pad)) = 5 + Z.of_nat (length pad)) as Hpre by (rewrite length_app; simpl; lia).
  assert (body = (pre ++ pad) ++ mid ++ contents) as Epre by (rewrite Ebody; subst pre; by rewrite <- !app_assoc).
  clearbody pre body k. destruct keys as [[r s]|]; cbv zeta.
  - replace (first_try me marker =? 1) with false by (symmetry; apply Z.eqb_neq; intros E; by apply Hkind in E).
    cbn [negb]. destruct Hkeys as [Wr Ws]. subst mid. rewrite length_app, !poke_le_length in *.
    rewrite (proj2 (Z.leb_gt _ 8)) by lia.
    rewrite (crypt_at marker random k body (pre ++ pad) (poke_le 4 r) (poke_le 4 s ++ contents)), 
      (crypt_at marker random k body ((pre ++ pad) ++ poke_le 4 r) (poke_le 4 s) contents);
      rewrite ?length_app, ?poke_le_length; try done; try lia; [|by rewrite Epre, <- !app_assoc..].
    rewrite (crypt_at marker random k body (((pre ++ pad) ++ poke_le 4 r) ++ poke_le 4 s) contents []);
      rewrite ?length_app, ?poke_le_length, ?app_nil_r; try done; try lia; [|by rewrite Epre, <- !app_assoc].
    rewrite !peek_poke by done. cbn [fst]. f_equal; lia.
  - replace (first_try me marker =? 1) with true by (symmetry; apply Z.eqb_eq; by apply Hkind).
    cbn [negb]. subst mid. simpl (length []) in *.
    rewrite (crypt_at marker random k body (pre ++ pad) contents []); rewrite ?app_nil_r; try done; try lia.
    cbn [fst]. f_equal; lia.
Qed.

(** ** The sender *)

(** A statement about all bytes, checked on each of them. *)
Lemma all_bytes (P : Z -> bool) : forallb P (seqZ 0 256) = true -> forall b, is_byte b -> P b = true.
Proof using.
  intros H b [Hb1 Hb2]. rewrite forallb_forall in H. apply H, list_elem_of_In, elem_of_seqZ. lia.
Qed.

Lemma mark_byte_kind kad used b : is_byte b ->
  Z.land (mark_byte kad used b) 3 = (if kad then if used then 2 else 0 else Z.land (mark_byte kad used b) 3) /\
  (kad = false -> Z.land (mark_byte kad used b) 3 = 1 \/ Z.land (mark_byte kad used b) 3 = 3).
Proof using.
  intros Hb. pose proof (all_bytes (fun b => (Z.land (mark_byte true true b) 3 =? 2) && (Z.land (mark_byte true false b) 3 =? 0) &&
    ((Z.land (mark_byte false used b) 3 =? 1) || (Z.land (mark_byte false used b) 3 =? 3)))) as H.
  assert (forallb (fun b => (Z.land (mark_byte true true b) 3 =? 2) && (Z.land (mark_byte true false b) 3 =? 0) &&
    ((Z.land (mark_byte false used b) 3 =? 1) || (Z.land (mark_byte false used b) 3 =? 3))) (seqZ 0 256) = true) as Hall
    by (destruct used; vm_compute; reflexivity).
  specialize (H Hall b Hb). apply andb_prop in H as [[H1%Z.eqb_eq H2%Z.eqb_eq]%andb_prop H3%orb_prop].
  destruct kad; [destruct used; by split|]. split; [done|]. intros _.
  destruct H3 as [H3%Z.eqb_eq|H3%Z.eqb_eq]; auto.
Qed.

Lemma marker_loop_found kad used rands m : Forall is_byte rands -> marker_loop kad used rands = Some m ->
  is_protocol_byte m = false /\ exists b, is_byte b /\ m = mark_byte kad used b.
Proof using.
  induction 1 as [|b rands Hb _ IH]; simpl; [done|].
  destruct (is_protocol_byte (mark_byte kad used b)) eqn:E; simpl; [done|]. intros [= <-]. split; [done|]. by exists b.
Qed.

(** The marker sent is no protocol byte and names the kind of the packet. *)
Lemma sent_marker kad used rands : Forall is_byte rands -> (kad = true -> is_Some (marker_loop kad used rands)) ->
  let m := default 0x01 (marker_loop kad used rands) in
  is_protocol_byte m = false /\
  (if kad then Z.land m 3 = if used then 2 else 0 else Z.land m 3 = 1 \/ Z.land m 3 = 3).
Proof using.
  intros Hr Hsome. destruct (marker_loop kad used rands) as [m|] eqn:E; simpl.
  - destruct (marker_loop_found _ _ _ _ Hr E) as (Hm & b & Hb & ->). split; [done|].
    destruct (mark_byte_kind kad used b Hb) as [H1 H2]. destruct kad; [done|auto].
  - destruct kad; [destruct (Hsome eq_refl) as [? [=]]|]. split; [reflexivity|by left].
Qed.

Lemma EncryptSendClient_packet me buf hash kad r s randomKeyPart rands keyData used :
  send_key me hash kad r (poke_le 2 randomKeyPart) = Some (keyData, used) ->
  EncryptSendClient md5 me buf hash kad r s randomKeyPart rands =
    packet (default 0x01 (marker_loop kad used (take 128 rands))) (poke_le 2 randomKeyPart) (keyed md5 keyData)
      (client_body [] (if kad then Some (r, s) else None) buf).
Proof using.
  intros E. unfold EncryptSendClient, crypt. rewrite E. unfold packet, client_body.
  set (k := keyed md5 keyData). clearbody k. change (Z.of_nat (length (@nil Z))) with 0. rewrite app_nil_l.
  rewrite (rc4_loop_app (poke_le 4 MAGICVALUE_UDP_SYNC_CLIENT)), (rc4_loop_app [0]).
  destruct (rc4_loop (poke_le 4 MAGICVALUE_UDP_SYNC_CLIENT) k) as [magic k1]. cbn [fst snd].
  destruct (rc4_loop [0] k1) as [pad k2]. cbn [fst snd]. destruct kad.
  - rewrite <- app_assoc, (rc4_loop_app (poke_le 4 r)), (rc4_loop_app (poke_le 4 s)).
    destruct (rc4_loop (poke_le 4 r) k2) as [cr k3]. cbn [fst snd].
    destruct (rc4_loop (poke_le 4 s) k3) as [cs k4]. cbn [fst snd]. by rewrite <- !app_assoc.
  - by rewrite !app_nil_l.
Qed.

End Protocol.

(** ** Properties *)

(** The two ends agree on what the key is made of: for an eD2k packet the receiver's user hash and
    the sender's address; for a Kad packet either the receiver's node ID or the verify key the
    receiver gives to the sender's address. *)
Definition agree (a b : identity) (ip : Z) (kad : bool) (hash : option (list Z)) (receiverVerifyKey : Z) : Prop :=
  if kad then
    exists id, GetKadID b = Some id /\
    match hash with
    | Some h => if hash_is_empty h then receiverVerifyKey = GetUDPVerifyKey b ip /\ receiverVerifyKey <> 0
                else h = StoreCryptValue id
    | None => receiverVerifyKey = GetUDPVerifyKey b ip /\ receiverVerifyKey <> 0
    end
  else hash = Some (GetUserHash b) /\ ip = GetPublicIP a.

(** C38: What one client obfuscates another reads.  Whatever the contents, the random key part and the
    random bytes, as long as both ends agree on the key (and, for a Kad packet, one of the 128
    random markers is not a protocol byte), the receiver gets the contents back in full, with the
    verify keys of a Kad packet. *)
Theorem datagram_roundtrip (md5 : list Z -> list Z) (a b : identity) (ip : Z) (kad : bool)
  (hash : option (list Z)) (buf : list Z) (receiverVerifyKey senderVerifyKey randomKeyPart : Z) (rands : list Z)
  (Hagree : agree a b ip kad hash receiverVerifyKey) (Hne : buf <> [])
  (Hr : in_width 32 receiverVerifyKey) (Hs : in_width 32 senderVerifyKey) (Hrands : Forall is_byte rands)
  (Hmarker : kad = true -> forall used, is_Some (marker_loop true used (take 128 rands))) :
  DecryptReceivedClient md5 b
    (EncryptSendClient md5 a buf hash kad receiverVerifyKey senderVerifyKey randomKeyPart rands) ip =
    mkReceived (Z.of_nat (length buf)) buf (if kad then receiverVerifyKey else 0) (if kad then senderVerifyKey else 0).
Proof.
  assert (exists keyData used, send_key a hash kad receiverVerifyKey (poke_le 2 randomKeyPart) = Some (keyData, used) /\
    try_key b ip (if kad then if used then 2 else 0 else 1) (poke_le 2 randomKeyPart) = Some keyData /\
    (kad = true -> GetKadID b <> None)) as (keyData & used & Ek & Et & Hk).
  { unfold agree, send_key, try_key in *. destruct kad.
    - destruct Hagree as (id & Eid & Hh). rewrite Eid.
      assert (forall used : bool, (if used then 2 else 0) =? 1 = false) as E1 by by intros [].
      destruct hash as [h|]; [destruct (hash_is_empty h) eqn:Ee|]; simpl.
      + destruct Hh as [E Hn]. rewrite (proj2 (Z.eqb_neq _ _) Hn). simpl. do 2 eexists. split; [done|]. by rewrite <- E.
      + do 2 eexists. split; [done|]. simpl. by rewrite Hh.
      + destruct Hh as [E Hn]. rewrite (proj2 (Z.eqb_neq _ _) Hn). simpl. do 2 eexists. split; [done|]. by rewrite <- E.
    - destruct Hagree as [-> ->]. do 2 eexists. split; [done|]. done. }
  rewrite (EncryptSendClient_packet _ _ _ _ _ _ _ _ _ _ _ Ek).
  destruct (sent_marker kad used (take 128 rands)) as [Hp Hm]; [by apply Forall_take|by intros ->; apply Hmarker|].
  set (m := default 0x01 (marker_loop kad used (take 128 rands))) in *.
  assert (first_try b m = if kad then if used then 2 else 0 else 1) as Ef.
  { unfold first_try. destruct kad.
    - destruct (GetKadID b); [|by destruct (Hk eq_refl)]. change 0x03 with 3. rewrite Hm. by destruct used.
    - change 0x03 with 3. destruct (GetKadID b); [|done]. by destruct Hm as [-> | ->]. }
  rewrite receive_client; rewrite ?Ef; try done; [by destruct kad|simpl; lia| |by destruct kad].
  destruct kad; [destruct used|]; by split.
Qed.

(** ** Bounds *)

Lemma sub_bytes_length pos len bs : 0 <= pos -> 0 <= len -> pos + len <= Z.of_nat (length bs) ->
  Z.of_nat (length (sub_bytes pos len bs)) = len.
Proof. intros H1 H2 H3. unfold sub_bytes. rewrite length_take, length_drop. lia. Qed.

Lemma sub_bytes_bytes pos len bs : Forall is_byte bs -> Forall is_byte (sub_bytes pos len bs).
Proof. intros H. by apply Forall_take, Forall_drop. Qed.

Lemma crypt_ok bs k : key_ok k -> Forall is_byte bs ->
  Forall is_byte (crypt bs k).1 /\ key_ok (crypt bs k).2 /\ length (crypt bs k).1 = length bs.
Proof. intros Hk Hb. destruct (rc4_loop_ok bs k Hk Hb). split_and!; try done. apply rc4_loop_length. Qed.

Section Bounds.

Context (md5 : list Z -> list Z) (md5_ok : forall bs, Forall is_byte (md5 bs) /\ length (md5 bs) = 16%nat).

Lemma keyed_ok keyData : key_ok (keyed md5 keyData).
Proof using All.
  destruct (md5_ok keyData) as [H1 H2]. apply RC4CreateKey_ok; [done|]. by destruct (md5 keyData).
Qed.

Lemma try_state_ok me ip t random : key_ok (try_state md5 me ip t random).
Proof using All.
  unfold try_state. destruct (try_key _ _ _ _); [apply keyed_ok|]. apply RC4CreateKey_ok; [|done].
  apply Forall_replicate. by split.
Qed.

Lemma try_loop_ok tries me ip bufIn : forall t, Forall is_byte bufIn ->
  key_ok (try_loop md5 tries me ip t bufIn).2.
Proof using All.
  induction tries as [|tries IH]; intros t Hb; cbn [try_loop];
    destruct (crypt_ok (sub_bytes 3 4 bufIn) _ (try_state_ok me ip t (sub_bytes 1 2 bufIn)) (sub_bytes_bytes 3 4 _ Hb))
      as (_ & Hk & _); destruct (crypt (sub_bytes 3 4 bufIn) _) as [value k]; [done|].
  destruct tries as [|tries]; [done|]. destruct (negb _); [by apply IH|done].
Qed.

(** What a decrypted packet must satisfy. *)
Definition within (bufIn : list Z) (r : received) : Prop :=
  r_result r = Z.of_nat (length (r_bufOut r)) /\ Forall is_byte (r_bufOut r) /\
  in_width 32 (r_receiverVerifyKey r) /\ in_width 32 (r_senderVerifyKey r) /\
  (r = mkReceived (Z.of_nat (length bufIn)) bufIn 0 0 \/
   0 < r_result r /\ r_result r + CRYPT_HEADER_WITHOUTPADDING <= Z.of_nat (length bufIn)).

Lemma within_pass bufIn : Forall is_byte bufIn -> within bufIn (mkReceived (Z.of_nat (length bufIn)) bufIn 0 0).
Proof using. intros H. split_and!; try done; by left. Qed.

Lemma within_out bufIn result k r s : Forall is_byte bufIn -> key_ok k -> in_width 32 r -> in_width 32 s ->
  0 < result -> result + 8 <= Z.of_nat (length bufIn) ->
  within bufIn (mkReceived result (crypt (sub_bytes (Z.of_nat (length bufIn) - result) result bufIn) k).1 r s).
Proof using.
  intros Hb Hk Hr Hs H0 H8.
  destruct (crypt_ok (sub_bytes (Z.of_nat (length bufIn) - result) result bufIn) k Hk (sub_bytes_bytes _ _ _ Hb))
    as (O1 & _ & O3). split_and!; simpl; try done; [|by right]. rewrite O3, sub_bytes_length; lia.
Qed.

Lemma peek_crypt bs k n : Forall is_byte bs -> key_ok k -> Z.of_nat (length bs) = Z.of_nat n ->
  in_width (8 * Z.of_nat n) (peek_le (crypt bs k).1).
Proof using.
  intros Hb Hk Hn. destruct (crypt_ok bs k Hk Hb) as (O1 & _ & O3). rewrite <- Hn, <- O3. by apply peek_le_range.
Qed.

End Bounds.

(** C39: No packet makes the decryption leave its buffer.  Whatever the bytes received, whoever sent
    them, the result is the length of the bytes handed on, which are bytes; either the packet is
    handed on unchanged with verify keys 0, or at least the header of eight bytes was removed and
    something is left. *)
Theorem datagram_in_bounds (md5 : list Z -> list Z) (me : identity) (bufIn : list Z) (ip : Z)
  (md5_ok : forall bs, Forall is_byte (md5 bs) /\ length (md5 bs) = 16%nat) (Hb : Forall is_byte bufIn) :
  within bufIn (DecryptReceivedClient md5 me bufIn ip).
Proof.
  unfold DecryptReceivedClient. set (pass := mkReceived _ bufIn 0 0).
  assert (within bufIn pass) as Hpass by by apply within_pass. unfold CRYPT_HEADER_WITHOUTPADDING.
  destruct (Z.leb_spec (Z.of_nat (length bufIn)) 8) as [|H8]; [done|].
  destruct (is_protocol_byte _); [done|].
  set (tries := match GetKadID me with None => _ | Some _ => _ end).
  assert (key_ok tries.2) as Hk by (subst tries; destruct (GetKadID me); by apply try_loop_ok).
  clearbody tries. destruct tries as [[kad value] k]. simpl in Hk. destruct (value =? _); [|done].
  assert (Z.of_nat (length (sub_bytes 7 1 bufIn)) = 1) as H1 by (apply sub_bytes_length; lia).
  pose proof (peek_crypt (sub_bytes 7 1 bufIn) k 1 (sub_bytes_bytes _ _ _ Hb) Hk H1) as Hpad.
  destruct (crypt_ok (sub_bytes 7 1 bufIn) k Hk (sub_bytes_bytes _ _ _ Hb)) as (_ & Hk1 & _).
  destruct (crypt (sub_bytes 7 1 bufIn) k) as [pad k1]. cbn [fst snd] in *.
  set (padLen := peek_le pad) in *. clearbody padLen. clear pad. unfold in_width in Hpad.
  destruct (Z.leb_spec (Z.of_nat (length bufIn) - 8) padLen) as [|Hlen]; [done|]. cbv zeta.
  set (k2 := if padLen >? 0 then _ else _).
  assert (key_ok k2) as Hk2 by (subst k2; destruct (padLen >? 0); [by apply rc4_skip_ok|done]). clearbody k2.
  destruct kad; [|apply within_out; done || lia].
  destruct (Z.leb_spec (Z.of_nat (length bufIn) - 8 - padLen) 8) as [|Hlen2]; [done|].
  assert (Z.of_nat (length (sub_bytes (8 + padLen) 4 bufIn)) = 4) as H4 by (apply sub_bytes_length; lia).
  assert (Z.of_nat (length (sub_bytes (8 + padLen + 4) 4 bufIn)) = 4) as H4' by (apply sub_bytes_length; lia).
  pose proof (peek_crypt _ k2 4 (sub_bytes_bytes (8 + padLen) 4 _ Hb) Hk2 H4) as Hr.
  destruct (crypt_ok _ k2 Hk2 (sub_bytes_bytes (8 + padLen) 4 _ Hb)) as (_ & Hk3 & _).
  destruct (crypt (sub_bytes (8 + padLen) 4 bufIn) k2) as [r k3]. cbn [fst snd] in *.
  pose proof (peek_crypt _ k3 4 (sub_bytes_bytes (8 + padLen + 4) 4 _ Hb) Hk3 H4') as Hs.
  destruct (crypt_ok _ k3 Hk3 (sub_bytes_bytes (8 + padLen + 4) 4 _ Hb)) as (_ & Hk4 & _).
  destruct (crypt (sub_bytes (8 + padLen + 4) 4 bufIn) k3) as [s k4]. cbn [fst snd] in *.
  apply within_out; done || lia.
Qed.

(** Packets exchanged with a server.  What is sent is the documented packet for that direction,
    under a marker that is not the eD2k protocol byte; a packet a server obfuscates in the same
    way for the other direction, with any padding of up to 15 bytes and any bits above the
    padding length, is read back in full. *)
Theorem server_datagrams (md5 : list Z -> list Z) (baseKey marker padByte : Z)
  (buf random pad : list Z) (randomKeyPart : Z) (rands : list Z)
  (Hrandom : length random = 2%nat) (Hmarker : marker <> OP_EDONKEYPROT) (Hbase : baseKey <> 0)
  (Hpad : Z.land padByte 15 = Z.of_nat (length pad)) (Hbyte : is_byte padByte) (Hne : buf <> []) :
  (exists m, m <> OP_EDONKEYPROT /\
    EncryptSendServer md5 buf baseKey randomKeyPart rands =
      packet m (poke_le 2 randomKeyPart)
        (keyed md5 (server_key baseKey MAGICVALUE_UDP_CLIENTSERVER (poke_le 2 randomKeyPart))) (server_body 0 [] buf)) /\
  DecryptReceivedServer md5 true
    (packet marker random (keyed md5 (server_key baseKey MAGICVALUE_UDP_SERVERCLIENT random)) (server_body padByte pad buf))
    baseKey = (Z.of_nat (length buf), buf).
Proof.
  split.
  - exists (default 0x01 (server_marker_loop (take 128 rands))). split.
    + induction (take 128 rands) as [|b l IH]; simpl; [done|].
      destruct (Z.eqb_spec b OP_EDONKEYPROT); simpl; [done|]. done.
    + unfold EncryptSendServer, crypt, packet, server_body.
      set (k := keyed md5 _). clearbody k. rewrite app_nil_l.
      rewrite (rc4_loop_app (poke_le 4 MAGICVALUE_UDP_SYNC_SERVER)), (rc4_loop_app [0]).
      destruct (rc4_loop (poke_le 4 MAGICVALUE_UDP_SYNC_SERVER) k) as [magic k1]. cbn [fst snd].
      destruct (rc4_loop [0] k1) as [p k2]. cbn [fst snd]. done.
  - assert (0 < Z.of_nat (length buf)) as Hc by (destruct buf; [done|simpl; lia]).
    set (k := keyed md5 (server_key baseKey MAGICVALUE_UDP_SERVERCLIENT random)).
    assert (Z.of_nat (length (packet marker random k (server_body padByte pad buf))) =
      8 + Z.of_nat (length pad) + Z.of_nat (length buf)) as HL.
    { rewrite packet_length by done. unfold server_body. rewrite !length_app, poke_le_length. simpl. lia. }
    unfold DecryptReceivedServer. rewrite HL. unfold CRYPT_HEADER_WITHOUTPADDING.
    rewrite (proj2 (Z.leb_gt _ 8)), (proj2 (Z.eqb_neq baseKey 0)) by (done || lia). cbn [negb orb].
    rewrite packet_marker, (proj2 (Z.eqb_neq _ _) Hmarker), packet_random by done. fold k.
    pose proof (crypt_at marker random k (server_body padByte pad buf) [] (poke_le 4 MAGICVALUE_UDP_SYNC_SERVER) _ 3 4
      Hrandom eq_refl eq_refl eq_refl) as E. change (rc4_loop [] k).2 with k in E. rewrite E. clear E.
    rewrite app_nil_l, peek_poke, Z.eqb_refl by (unfold in_width; cbn; unfold MAGICVALUE_UDP_SYNC_SERVER; lia).
    rewrite (crypt_at marker random k (server_body padByte pad buf) (poke_le 4 MAGICVALUE_UDP_SYNC_SERVER) [padByte] (pad ++ buf) 7 1
      Hrandom eq_refl eq_refl eq_refl).
    replace (peek_le [padByte]) with padByte by (simpl; lia). rewrite Hpad.
    rewrite (proj2 (Z.leb_gt _ (Z.of_nat (length pad)))) by lia.
    set (pre := poke_le 4 MAGICVALUE_UDP_SYNC_SERVER ++ [padByte]).
    rewrite skip_padding.
    rewrite (crypt_at marker random k (server_body padByte pad buf) (pre ++ pad) buf []); rewrite ?app_nil_r, ?length_app; try done.
    + cbn [fst]. f_equal. lia.
    + subst pre. simpl. lia.
    + lia.
Qed.

(** ** Instances *)

(** A function with values of 16 bytes, in place of MD5. *)
Definition toy_md5 (bs : list Z) : list Z := poke_le 16 (fold_left (fun h b => (h * 257 + b + 1) mod 2 ^ 128) bs 5).

Lemma toy_md5_ok bs : Forall is_byte (toy_md5 bs) /\ length (toy_md5 bs) = 16%nat.
Proof. split; [apply poke_le_bytes|apply poke_le_length]. Qed.

Definition sample_me : identity := mkIdentity (Some (mkUInt128 1 2 3 4)) (replicate 16 7) 0x0A0B0C0D (fun ip => ip + 1).

Lemma datagram_roundtrip_witness :
  DecryptReceivedClient toy_md5 sample_me
    (EncryptSendClient toy_md5 sample_me [0xE4; 1; 2] None true 6 9 0x1234 [200]) 5 = mkReceived 3 [0xE4; 1; 2] 6 9.
Proof.
  apply (datagram_roundtrip toy_md5 sample_me sample_me 5 true None [0xE4; 1; 2] 6 9 0x1234 [200]).
  - exists (mkUInt128 1 2 3 4). split; [reflexivity|]. split; [reflexivity|discriminate].
  - discriminate.
  - split; [discriminate|reflexivity].
  - split; [discriminate|reflexivity].
  - repeat constructor; discriminate.
  - intros _ []; vm_compute; eexists; reflexivity.
Defined.

Lemma datagram_in_bounds_witness :
  within [0x40; 1; 2; 3; 4; 5; 6; 7; 8; 9] (DecryptReceivedClient toy_md5 sample_me [0x40; 1; 2; 3; 4; 5; 6; 7; 8; 9] 5).
Proof. apply (datagram_in_bounds toy_md5 sample_me); [exact toy_md5_ok|]. repeat constructor; discriminate. Defined.

Lemma server_datagrams_witness :
  DecryptReceivedServer toy_md5 true
    (packet 1 [2; 3] (keyed toy_md5 (server_key 77 MAGICVALUE_UDP_SERVERCLIENT [2; 3])) (server_body 0x22 [8; 9] [1; 2; 3])) 77
    = (3, [1; 2; 3]).
Proof.
  apply (server_datagrams toy_md5 77 1 0x22 [1; 2; 3] [2; 3] [8; 9] 0 []); try reflexivity; try discriminate.
  split; [discriminate|reflexivity].
Defined.
