(* ===== verification/Tag.v ===== *)
(** * Tags ([Tag.h], [Tag.cpp], and the tag functions of [SafeFile.cpp])

    A tag is a name, or a one-byte name identifier, with a value in a union selected by the
    type.  There are two external forms: the eD2k form ([CTag(data)], [WriteNewEd2kTag]), which
    shortens integers and strings, and the older form that Kad and the met files use
    ([ReadTag], [WriteTag]). *)
From S2P Require Import Prelude StdMap UInt128 DataIO MemFile.

(** ** Types and values ([include/tags/TagTypes.h]) *)

Definition TAGTYPE_HASH16 : Z := 0x01.
Definition TAGTYPE_STRING : Z := 0x02.
Definition TAGTYPE_UINT32 : Z := 0x03.
Definition TAGTYPE_FLOAT32 : Z := 0x04.
Definition TAGTYPE_BOOL : Z := 0x05.
Definition TAGTYPE_BOOLARRAY : Z := 0x06.
Definition TAGTYPE_BLOB : Z := 0x07.
Definition TAGTYPE_UINT16 : Z := 0x08.
Definition TAGTYPE_UINT8 : Z := 0x09.
Definition TAGTYPE_BSOB : Z := 0x0A.
Definition TAGTYPE_UINT64 : Z := 0x0B.
Definition TAGTYPE_STR1 : Z := 0x11.
Definition TAGTYPE_STR16 : Z := 0x20.

(** The member of the union that was stored last; [VNull] is the null pointer. *)
Inductive tag_val :=
| VNull
| VInt (v : Z)
| VStr (s : wxString)
| VFloat (bits : Z)
| VHash (h : list Z)
| VData (d : list Z).

Record CTag := mkTag {
  m_uType : Z;
  m_uName : Z;
  m_Name : wxString;
  m_val : tag_val;
  m_nSize : Z
}.

(** The two base constructors. *)
Definition CTag_named (Name : wxString) : CTag := mkTag 0 0 Name (VInt 0) 0.
Definition CTag_id (uName : Z) : CTag := mkTag 0 uName [] (VInt 0) 0.

Definition with_value (type : Z) (v : tag_val) (size : Z) (t : CTag) : CTag :=
  mkTag type (m_uName t) (m_Name t) v size.

(** [CTagIntSized::Init]; the assertions on the value are debug code. *)
Definition int_init (value bitsize : Z) (t : CTag) : exn + CTag :=
  if bitsize =? 64 then inr (with_value TAGTYPE_UINT64 (VInt value) (m_nSize t) t)
  else if bitsize =? 32 then inr (with_value TAGTYPE_UINT32 (VInt value) (m_nSize t) t)
  else if bitsize =? 16 then inr (with_value TAGTYPE_UINT16 (VInt value) (m_nSize t) t)
  else if bitsize =? 8 then inr (with_value TAGTYPE_UINT8 (VInt value) (m_nSize t) t)
  else inl StringException.

(** [CTagVarInt::SizedInit]. *)
Definition SizedInit (value forced_bits : Z) (t : CTag) : exn + CTag :=
  if negb (forced_bits =? 0) then int_init value forced_bits t
  else
    let type := if value <=? 0xFF then TAGTYPE_UINT8
                else if value <=? 0xFFFF then TAGTYPE_UINT16
                else if value <=? 0xFFFFFFFF then TAGTYPE_UINT32 else TAGTYPE_UINT64 in
    inr (with_value type (VInt value) (m_nSize t) t).

Definition CTagFloat (t : CTag) (value : Z) : CTag := with_value TAGTYPE_FLOAT32 (VFloat value) (m_nSize t) t.
Definition CTagString (t : CTag) (value : wxString) : CTag := with_value TAGTYPE_STRING (VStr value) (m_nSize t) t.
Definition CTagHash (t : CTag) (value : list Z) : CTag := with_value TAGTYPE_HASH16 (VHash value) (m_nSize t) t.
Definition CTagBsob (t : CTag) (value : list Z) (nSize : Z) : CTag :=
  with_value TAGTYPE_BSOB (VData (take (Z.to_nat nSize) value)) nSize t.
Definition CTagBlob (t : CTag) (value : list Z) (nSize : Z) : CTag :=
  with_value TAGTYPE_BLOB (VData (take (Z.to_nat nSize) value)) nSize t.

(** ** Access *)

Definition IsStr (t : CTag) : bool := m_uType t =? TAGTYPE_STRING.
Definition IsInt (t : CTag) : bool :=
  (m_uType t =? TAGTYPE_UINT64) || (m_uType t =? TAGTYPE_UINT32) ||
  (m_uType t =? TAGTYPE_UINT16) || (m_uType t =? TAGTYPE_UINT8).
Definition IsFloat (t : CTag) : bool := m_uType t =? TAGTYPE_FLOAT32.
Definition IsHash (t : CTag) : bool := m_uType t =? TAGTYPE_HASH16.
Definition IsBlob (t : CTag) : bool := m_uType t =? TAGTYPE_BLOB.
Definition IsBsob (t : CTag) : bool := m_uType t =? TAGTYPE_BSOB.

(** The members of the union, without a check of the type. *)
Definition val_int (t : CTag) : exn + Z := match m_val t with VInt v => inr v | _ => inl WrongUnionMember end.
Definition val_str (t : CTag) : exn + wxString :=
  match m_val t with VStr s => inr s | _ => inl WrongUnionMember end.
Definition val_float (t : CTag) : exn + Z := match m_val t with VFloat v => inr v | _ => inl WrongUnionMember end.
Definition val_hash (t : CTag) : exn + list Z :=
  match m_val t with VHash h => inr h | _ => inl WrongUnionMember end.
Definition val_data (t : CTag) : exn + list Z :=
  match m_val t with VData d => inr d | _ => inl WrongUnionMember end.

(** [CHECK_TAG_TYPE] *)
Definition checked {A} (check : bool) (r : exn + A) : exn + A := if check then r else inl CInvalidPacket.

Definition GetInt (t : CTag) : exn + Z := checked (IsInt t) (val_int t).
Definition GetStr (t : CTag) : exn + wxString := checked (IsStr t) (val_str t).
Definition GetFloat (t : CTag) : exn + Z := checked (IsFloat t) (val_float t).
Definition GetHash (t : CTag) : exn + list Z := checked (IsHash t) (val_hash t).
Definition GetBlobSize (t : CTag) : exn + Z := checked (IsBlob t) (inr (m_nSize t)).
Definition GetBlob (t : CTag) : exn + list Z := checked (IsBlob t) (val_data t).
Definition GetBsobSize (t : CTag) : exn + Z := checked (IsBsob t) (inr (m_nSize t)).
Definition GetBsob (t : CTag) : exn + list Z := checked (IsBsob t) (val_data t).

(** The copy constructor, and the assignment after it has released the old value. *)
Definition CTag_copy (r : CTag) : exn + CTag :=
  let mk v size := mkTag (m_uType r) (m_uName r) (m_Name r) v size in
  if IsStr r then match GetStr r with inr s => inr (mk (VStr s) 0) | inl e => inl e end
  else if IsInt r then match GetInt r with inr v => inr (mk (VInt v) 0) | inl e => inl e end
  else if IsFloat r then match GetFloat r with inr v => inr (mk (VFloat v) 0) | inl e => inl e end
  else if IsHash r then match GetHash r with inr h => inr (mk (VHash h) 0) | inl e => inl e end
  else if IsBlob r then
    match GetBlobSize r, GetBlob r with
    | inr n, inr d => inr (mk (VData (take (Z.to_nat n) d)) n)
    | inl e, _ | _, inl e => inl e
    end
  else if IsBsob r then
    match GetBsobSize r, GetBsob r with
    | inr n, inr d => inr (mk (VData (take (Z.to_nat n) d)) n)
    | inl e, _ | _, inl e => inl e
    end
  else inr (mk (VInt 0) 0).

Section Tags.

Context {F : Type} {IOF : CFileDataIO F} {conv : wxConv}.

#[local] Open Scope io_scope.

Definition io_lift {A} (r : exn + A) : IO F A := fun f => (r, f).

(** ** The eD2k form *)

(** The name: an identifier in one byte, or a length and text; a text of one byte is an
    identifier, too. *)
Definition read_name (m_uType : Z) : IO F (Z * Z * wxString) :=
  if negb (Z.land m_uType 0x80 =? 0) then
    let! m_uName := ReadUInt8 in io_ret (Z.land m_uType 0x7F, m_uName, [])
  else
    let! length := ReadUInt16 in
    if length =? 1 then let! m_uName := ReadUInt8 in io_ret (m_uType, m_uName, [])
    else let! m_Name := ReadOnlyString false length in io_ret (m_uType, 0, m_Name).

(** The type kept, the value and its size. *)
Definition read_value (m_uType : Z) (bOptUTF8 : bool) : IO F (Z * tag_val * Z) :=
  if m_uType =? TAGTYPE_STRING then
    let! s := ReadString bOptUTF8 2 false in io_ret (m_uType, VStr s, 0)
  else if m_uType =? TAGTYPE_UINT32 then let! v := ReadUInt32 in io_ret (m_uType, VInt v, 0)
  else if m_uType =? TAGTYPE_UINT64 then let! v := ReadUInt64 in io_ret (m_uType, VInt v, 0)
  else if m_uType =? TAGTYPE_UINT16 then let! v := ReadUInt16 in io_ret (TAGTYPE_UINT32, VInt v, 0)
  else if m_uType =? TAGTYPE_UINT8 then let! v := ReadUInt8 in io_ret (TAGTYPE_UINT32, VInt v, 0)
  else if m_uType =? TAGTYPE_FLOAT32 then let! b := Read 4 in io_ret (m_uType, VFloat (peek_le b), 0)
  else if m_uType =? TAGTYPE_HASH16 then let! h := ReadHash in io_ret (m_uType, VHash h, 0)
  else if m_uType =? TAGTYPE_BOOL then seq! ReadUInt8 in io_ret (m_uType, VNull, 0)
  else if m_uType =? TAGTYPE_BOOLARRAY then
    let! len := ReadUInt16 in
    seq! Seek (len / 8 + 1) wxFromCurrent in io_ret (m_uType, VNull, 0)
  else if m_uType =? TAGTYPE_BLOB then
    let! m_nSize := ReadUInt32 in
    fun f =>
      if m_nSize >? u64 (GetLength f - GetPosition f) then (inl CInvalidPacket, f)
      else (let! d := Read m_nSize in io_ret (m_uType, VData d, m_nSize)) f
  else if (m_uType >=? TAGTYPE_STR1) && (m_uType <=? TAGTYPE_STR16) then
    let! s := ReadOnlyString bOptUTF8 (u8 (m_uType - TAGTYPE_STR1 + 1)) in
    io_ret (TAGTYPE_STRING, VStr s, 0)
  else io_throw CInvalidPacket.

Definition CTag_read (bOptUTF8 : bool) : IO F CTag :=
  let! uType := ReadUInt8 in
  let! name := read_name uType in
  let '(uType, uName, Name) := name in
  let! value := read_value uType bOptUTF8 in
  let '(uType, v, size) := value in
  io_ret (mkTag uType uName Name v size).

(** [unicode2char] outside Windows converts to UTF-8. *)
Definition unicode2char (x : wxString) : option (list Z) := utf8_str (c_str x).

Definition GetRawSize (rstr : wxString) (eEncode : EUtf8Str) : Z :=
  let native := match unicode2char rstr with Some s => strlen (Some s) | None => 0 end in
  match eEncode with
  | utf8strNone => native
  | _ => match utf8_str rstr with
         | Some s => (match eEncode with utf8strOptBOM => 3 | _ => 0 end) + strlen (Some s)
         | None => native
         end
  end.

Definition short_type (t : CTag) (eStrEncode : EUtf8Str) : exn + Z :=
  if IsInt t then
    match val_int t with
    | inr v => inr (if v <=? 0xFF then TAGTYPE_UINT8
                    else if v <=? 0xFFFF then TAGTYPE_UINT16
                    else if v <=? 0xFFFFFFFF then TAGTYPE_UINT32 else TAGTYPE_UINT64)
    | inl e => inl e
    end
  else if IsStr t then
    match val_str t with
    | inr s =>
        let uStrValLen := u16 (GetRawSize s eStrEncode) in
        inr (if (uStrValLen >=? 1) && (uStrValLen <=? 16) then u8 (TAGTYPE_STR1 + uStrValLen - 1)
             else TAGTYPE_STRING)
    | inl e => inl e
    end
  else inr (m_uType t).

(** The result is false when the type has no external form; its name is written all the same. *)
Definition WriteNewEd2kTag (t : CTag) (eStrEncode : EUtf8Str) : IO F bool :=
  let! uType := io_lift (short_type t eStrEncode) in
  seq! (match m_Name t with
        | [] => seq! WriteUInt8 (Z.lor uType 0x80) in WriteUInt8 (m_uName t)
        | _ => seq! WriteUInt8 uType in WriteString (m_Name t) utf8strNone 2
        end) in
  if uType =? TAGTYPE_STRING then
    let! s := io_lift (val_str t) in seq! WriteString s eStrEncode 2 in io_ret true
  else if uType =? TAGTYPE_UINT64 then let! v := io_lift (val_int t) in seq! WriteUInt64 v in io_ret true
  else if uType =? TAGTYPE_UINT32 then let! v := io_lift (val_int t) in seq! WriteUInt32 v in io_ret true
  else if uType =? TAGTYPE_UINT16 then let! v := io_lift (val_int t) in seq! WriteUInt16 v in io_ret true
  else if uType =? TAGTYPE_UINT8 then let! v := io_lift (val_int t) in seq! WriteUInt8 v in io_ret true
  else if uType =? TAGTYPE_FLOAT32 then
    let! v := io_lift (val_float t) in seq! Write (poke_le 4 v) in io_ret true
  else if uType =? TAGTYPE_HASH16 then
    let! h := io_lift (val_hash t) in seq! WriteHash h in io_ret true
  else if uType =? TAGTYPE_BLOB then
    seq! WriteUInt32 (m_nSize t) in
    let! d := io_lift (val_data t) in seq! Write (take (Z.to_nat (m_nSize t)) d) in io_ret true
  else if (uType >=? TAGTYPE_STR1) && (uType <=? TAGTYPE_STR16) then
    let! s := io_lift (val_str t) in seq! WriteString s eStrEncode 0 in io_ret true
  else io_ret false.

(** ** The form of Kad and of the met files *)

(** [CTagIntN(name, value)] as [ReadTag] makes it. *)
Definition int_tag (name : wxString) (value bitsize : Z) : IO F CTag :=
  io_lift (int_init value bitsize (CTag_named name)).

Definition ReadTag (bOptACP : bool) : IO F CTag :=
  let! type := ReadUInt8 in
  let! name := ReadString false 2 false in
  if type =? TAGTYPE_HASH16 then let! h := ReadHash in io_ret (CTagHash (CTag_named name) h)
  else if type =? TAGTYPE_STRING then
    let! s := ReadString bOptACP 2 false in io_ret (CTagString (CTag_named name) s)
  else if type =? TAGTYPE_UINT64 then let! v := ReadUInt64 in int_tag name v 64
  else if type =? TAGTYPE_UINT32 then let! v := ReadUInt32 in int_tag name v 32
  else if type =? TAGTYPE_UINT16 then let! v := ReadUInt16 in int_tag name v 16
  else if type =? TAGTYPE_UINT8 then let! v := ReadUInt8 in int_tag name v 8
  else if type =? TAGTYPE_FLOAT32 then let! v := ReadFloat in io_ret (CTagFloat (CTag_named name) v)
  else if type =? TAGTYPE_BSOB then
    let! b := ReadBsob in io_ret (CTagBsob (CTag_named name) b (Z.of_nat (length b)))
  else io_throw StringException.

(** The tags read before an exception stay in the caller's list. *)
Fixpoint read_tags (n : nat) (bOptACP : bool) (taglist : list CTag) (f : F) :
  (exn + unit) * list CTag * F :=
  match n with
  | O => (inr tt, taglist, f)
  | S n =>
      match ReadTag bOptACP f with
      | (inr t, f) => read_tags n bOptACP (taglist ++ [t]) f
      | (inl e, f) => (inl e, taglist, f)
      end
  end.

Definition ReadTagPtrList (taglist : list CTag) (bOptACP : bool) (f : F) : (exn + unit) * list CTag * F :=
  match ReadUInt8 f with
  | (inr count, f) => read_tags (Z.to_nat count) bOptACP taglist f
  | (inl e, f) => (inl e, taglist, f)
  end.

Definition WriteTag (t : CTag) : IO F unit :=
  seq! WriteUInt8 (m_uType t) in
  seq! (match m_Name t with
        | [] => seq! WriteUInt16 1 in WriteUInt8 (m_uName t)
        | _ => WriteString (m_Name t) utf8strNone 2
        end) in
  if m_uType t =? TAGTYPE_HASH16 then let! h := io_lift (GetHash t) in WriteHash h
  else if m_uType t =? TAGTYPE_STRING then let! s := io_lift (GetStr t) in WriteString s utf8strRaw 2
  else if m_uType t =? TAGTYPE_UINT64 then let! v := io_lift (GetInt t) in WriteUInt64 v
  else if m_uType t =? TAGTYPE_UINT32 then let! v := io_lift (GetInt t) in WriteUInt32 v
  else if m_uType t =? TAGTYPE_FLOAT32 then let! v := io_lift (GetFloat t) in WriteFloat v
  else if m_uType t =? TAGTYPE_BSOB then
    let! b := io_lift (GetBsob t) in let! n := io_lift (GetBsobSize t) in WriteBsob b (u8 n)
  else if m_uType t =? TAGTYPE_UINT16 then let! v := io_lift (GetInt t) in WriteUInt16 v
  else if m_uType t =? TAGTYPE_UINT8 then let! v := io_lift (GetInt t) in WriteUInt8 v
  else if m_uType t =? TAGTYPE_BLOB then
    let! n := io_lift (GetBlobSize t) in
    seq! WriteUInt32 n in
    let! d := io_lift (GetBlob t) in Write (take (Z.to_nat n) d)
  else io_ret tt.

Fixpoint write_tags (l : list CTag) : IO F unit :=
  match l with
  | [] => io_ret tt
  | t :: l => seq! WriteTag t in write_tags l
  end.

Definition WriteTagPtrList (tagList : list CTag) : IO F unit :=
  seq! WriteUInt8 (Z.of_nat (length tagList)) in write_tags tagList.

(** [WriteTagToFile] of the met files: unknown types are left out on request. *)
Definition WriteTagToFile (t : CTag) (restrictive : bool) : IO F bool :=
  if negb restrictive || (IsStr t || IsInt t || IsFloat t || IsBlob t)
  then seq! WriteTag t in io_ret true
  else io_ret false.

Definition GetIntTagValue : IO F Z :=
  let! type := ReadUInt8 in
  seq! ReadString false 2 false in
  if type =? TAGTYPE_UINT64 then ReadUInt64
  else if type =? TAGTYPE_UINT32 then ReadUInt32
  else if type =? TAGTYPE_UINT16 then ReadUInt16
  else if type =? TAGTYPE_UINT8 then ReadUInt8
  else io_throw StringException.

End Tags.

(** ** Well-typed tags *)

(** The value a type goes with, and the size stored with it. *)
Inductive val_ok : Z -> tag_val -> Z -> Prop :=
| ok_uint8 v : in_width 8 v -> val_ok TAGTYPE_UINT8 (VInt v) 0
| ok_uint16 v : in_width 16 v -> val_ok TAGTYPE_UINT16 (VInt v) 0
| ok_uint32 v : in_width 32 v -> val_ok TAGTYPE_UINT32 (VInt v) 0
| ok_uint64 v : in_width 64 v -> val_ok TAGTYPE_UINT64 (VInt v) 0
| ok_float v : in_width 32 v -> val_ok TAGTYPE_FLOAT32 (VFloat v) 0
| ok_str s : val_ok TAGTYPE_STRING (VStr s) 0
| ok_hash h : hash_ok h -> val_ok TAGTYPE_HASH16 (VHash h) 0
| ok_blob d : Forall is_byte d -> Z.of_nat (length d) < 2 ^ 32 ->
    val_ok TAGTYPE_BLOB (VData d) (Z.of_nat (length d))
| ok_bsob d : Forall is_byte d -> Z.of_nat (length d) < 256 ->
    val_ok TAGTYPE_BSOB (VData d) (Z.of_nat (length d))
| ok_bool : val_ok TAGTYPE_BOOL VNull 0
| ok_boolarray : val_ok TAGTYPE_BOOLARRAY VNull 0.

#[export] Hint Constructors val_ok : amule.

Definition tag_ok (t : CTag) : Prop := in_width 8 (m_uName t) /\ val_ok (m_uType t) (m_val t) (m_nSize t).

(** The exceptions of the readers. *)
Definition ctag_exn (e : exn) : Prop := e = CEOFException \/ e = CInvalidPacket \/ e = CIOFailureException.
Definition tag_exn (e : exn) : Prop := e = CEOFException \/ e = StringException.

Section TagTheory.

Context {F : Type} {IOF : CFileDataIO F} {laws : FileLaws F} {conv : wxConv}.

#[local] Open Scope io_scope.

Lemma yields_value {A} (m : IO F A) (P : A -> Prop) ty (v : A -> tag_val) :
  yields m P eof -> (forall x, P x -> val_ok ty (v x) 0) ->
  yields (let! x := m in io_ret (ty, v x, 0)) (fun r => val_ok r.1.1 r.1.2 r.2) ctag_exn.
Proof.
  intros Hm Hg. eapply yields_bind.
  - eapply yields_mono; [exact Hm|done|]. intros e ->. by left.
  - intros x Hx. apply yields_ret. simpl. auto.
Qed.

(** A step over bytes inside the file. *)
Lemma yields_skip (Q : Z * tag_val * Z -> Prop) r (g : Z -> Z) : Q r -> (forall v, in_width 16 v -> 0 <= g v < 2 ^ 32) ->
  yields (let! len := ReadUInt16 in seq! Seek (g len) wxFromCurrent in io_ret r) Q ctag_exn.
Proof.
  intros HQ Hg. intros f Hf.
  destruct (yields_then 2 (fun b => seq! Seek (g (peek_le b)) wxFromCurrent in io_ret r) Q ctag_exn
    ltac:(done) (or_introl eq_refl)) with (f := f) as (f' & H); [|done|].
  - intros b f1 Hb Hl Hf1 Hle. pose proof (peek_le_range b Hb) as Hv.
    replace (length b) with 2%nat in Hv by lia. specialize (Hg _ Hv).
    destruct (law_position f1 Hf1) as [HP HL].
    change (2 ^ 32) with 4294967296 in Hg. change (2 ^ 62) with 4611686018427387904 in HL.
    unfold outcome, Seek, io_bind, io_ret.
    replace (swrap 64 (GetPosition f1 + g (peek_le b))) with (GetPosition f1 + g (peek_le b))
      by (unfold swrap; change (64 - 1) with 63; norm_pow; rewrite Z.mod_small; lia).
    rewrite (proj2 (Z.geb_le _ _)) by lia.
    destruct (law_seek (GetPosition f1 + g (peek_le b)) f1 Hf1 ltac:(norm_pow; lia)) as (f2 & -> & Hf2 & C2 & P2 & _).
    rewrite (proj2 (Z.geb_le _ _)), Z.eqb_refl by lia. exists f2. split_and!; [done..|lia|].
    left. by exists r.
  - exists f'. destruct H as (? & ? & ? & H). split_and!; [done..|].
    revert H. unfold ReadUInt16, io_bind, io_ret. by destruct (Read 2 f) as [[|] ?].
Qed.

(** A block whose length was checked against the end of the file. *)
Lemma yields_blob : yields (let! m_nSize := ReadUInt32 in fun f =>
    if m_nSize >? u64 (GetLength f - GetPosition f) then (inl CInvalidPacket, f)
    else (let! d := Read m_nSize in io_ret (TAGTYPE_BLOB, VData d, m_nSize)) f)
  (fun r => val_ok r.1.1 r.1.2 r.2) ctag_exn.
Proof.
  intros f Hf.
  destruct (yields_then 4 (fun b f => if peek_le b >? u64 (GetLength f - GetPosition f)
      then (inl CInvalidPacket, f)
      else (let! d := Read (peek_le b) in io_ret (TAGTYPE_BLOB, VData d, peek_le b)) f)
    (fun r => val_ok r.1.1 r.1.2 r.2) ctag_exn ltac:(done) (or_introl eq_refl)) with (f := f) as (f' & H); [|done|].
  - intros b f1 Hb Hl Hf1 Hle. pose proof (peek_le_range b Hb) as Hv.
    replace (length b) with 4%nat in Hv by lia. generalize dependent (peek_le b). intros n Hn.
    change (8 * Z.of_nat 4) with 32 in Hn. destruct (law_position f1 Hf1) as [HP HL].
    change (2 ^ 62) with 4611686018427387904 in HL. unfold outcome. rewrite wrap_small by width_lia.
    rewrite Z.gtb_ltb. destruct (Z.ltb_spec (GetLength f1 - GetPosition f1) n) as [Hbig|Hfit].
    { exists f1. split_and!; [done..|]. right. exists CInvalidPacket. split_and!; [done|right; by left|done]. }
    unfold Read, io_bind. destruct (law_read n f1 Hf1 ltac:(width_lia) ltac:(lia)) as (f2 & -> & Hf2 & C2 & P2).
    destruct (law_content f1 Hf1) as [HB HC]. cbn [fst snd]. exists f2. split_and!; [done|done|width_lia|].
    destruct (Z.eqb_spec n (swrap 32 n)) as [E|E]; cbn.
    + left. eexists. split; [done|]. cbn [fst snd].
      set (d := take (Z.to_nat n) (drop (Z.to_nat (GetPosition f1)) (content f1))).
      assert (Z.of_nat (length d) = n) as Hd by (unfold d; rewrite length_take, length_drop; width_lia).
      pose proof (ok_blob d ltac:(by apply Forall_take, Forall_drop) ltac:(width_lia)) as Hok.
      by rewrite Hd in Hok.
    + right. unfold Eof. rewrite Z.geb_leb, (length_kept f1 f2) by done.
      destruct (Z.leb_spec (GetLength f1) (GetPosition f2)) as [He|He].
      * exists CEOFException. split_and!; [done|by left|done].
      * exists CIOFailureException. split_and!; [done|right; by right|done].
  - exists f'. destruct H as (? & ? & ? & H). split_and!; [done..|].
    revert H. unfold ReadUInt32, io_bind, io_ret. by destruct (Read 4 f) as [[|] ?].
Qed.

(** Case analysis on the type a reader dispatches on. *)
Ltac case_type := match goal with
  | |- context [?a =? ?b] => destruct (Z.eqb_spec a b) as [->|?]; cbv iota
  end.

Lemma yields_read_value type o : yields (read_value type o) (fun r => val_ok r.1.1 r.1.2 r.2) ctag_exn.
Proof.
  unfold read_value. repeat case_type.
  - eapply (yields_value _ _ TAGTYPE_STRING VStr); [apply yields_String|]. auto with amule.
  - eapply yields_value; [apply yields_UInt32|]. auto with amule.
  - eapply yields_value; [apply yields_UInt64|]. auto with amule.
  - eapply yields_value; [apply yields_UInt16|]. intros x Hx. apply ok_uint32. width_lia.
  - eapply yields_value; [apply yields_UInt8|]. intros x Hx. apply ok_uint32. width_lia.
  - eapply yields_value; [by apply yields_Read|]. intros x [Hb Hl]. apply ok_float.
    pose proof (peek_le_range x Hb) as Hr. by replace (length x) with 4%nat in Hr by lia.
  - eapply yields_value; [apply yields_Hash|]. auto with amule.
  - eapply yields_value; [apply yields_UInt8|]. auto with amule.
  - apply yields_skip; [auto with amule|]. intros v Hv. width_lia.
  - apply yields_blob.
  - destruct (_ && _); [|apply yields_throw; [right; by left|done]].
    eapply (yields_value _ _ TAGTYPE_STRING VStr); [apply yields_OnlyString|]. auto with amule.
Qed.

Lemma yields_read_name type : in_width 8 type ->
  yields (read_name type) (fun r => in_width 8 r.1.2) ctag_exn.
Proof.
  assert (forall A (m : IO F A) P, yields m P eof -> yields m P ctag_exn) as Hmono.
  { intros A m P Hm. eapply yields_mono; [exact Hm|done|]. intros e ->. by left. }
  intros Ht. unfold read_name. destruct (negb _).
  - eapply yields_bind; [apply Hmono, yields_UInt8|]. intros. by apply yields_ret.
  - eapply yields_bind; [apply Hmono, yields_UInt16|]. intros n Hn. destruct (n =? 1).
    + eapply yields_bind; [apply Hmono, yields_UInt8|]. intros. by apply yields_ret.
    + eapply yields_bind; [apply Hmono, yields_OnlyString|]. intros. by apply yields_ret.
Qed.

Lemma yields_CTag_read o : yields (CTag_read o) tag_ok ctag_exn.
Proof.
  unfold CTag_read. eapply yields_bind.
  { eapply yields_mono; [apply yields_UInt8|done|]. intros e ->. by left. }
  intros type Ht. eapply yields_bind; [by apply yields_read_name|]. intros [[ty name] Name] Hn.
  eapply yields_bind; [apply yields_read_value|]. intros [[ty' v] size] Hv. by apply yields_ret.
Qed.

Lemma yields_tag {A} (m : IO F A) (P : A -> Prop) (k : A -> IO F CTag) :
  yields m P eof -> (forall x, P x -> yields (k x) tag_ok tag_exn) -> yields (let! x := m in k x) tag_ok tag_exn.
Proof.
  intros Hm Hk. eapply yields_bind; [|exact Hk].
  eapply yields_mono; [exact Hm|done|]. intros e ->. by left.
Qed.

Lemma yields_ReadTag o : yields (ReadTag o) tag_ok tag_exn.
Proof.
  unfold ReadTag. eapply yields_tag; [apply yields_UInt8|]. intros type Ht.
  eapply yields_tag; [apply yields_String|]. intros name _. unfold int_tag, io_lift, int_init. simpl.
  repeat case_type.
  - eapply yields_tag; [apply yields_Hash|]. intros h Hh. apply yields_ret. split; simpl; auto with amule. done.
  - eapply yields_tag; [apply yields_String|]. intros s _. apply yields_ret. split; simpl; auto with amule. done.
  - eapply yields_tag; [apply yields_UInt64|]. intros v Hv. apply yields_ret. split; simpl; auto with amule. done.
  - eapply yields_tag; [apply yields_UInt32|]. intros v Hv. apply yields_ret. split; simpl; auto with amule. done.
  - eapply yields_tag; [apply yields_UInt16|]. intros v Hv. apply yields_ret. split; simpl; auto with amule. done.
  - eapply yields_tag; [apply yields_UInt8|]. intros v Hv. apply yields_ret. split; simpl; auto with amule. done.
  - eapply yields_tag; [by apply (yields_int 4)|]. intros v Hv. apply yields_ret. split; simpl; auto with amule. done.
  - eapply yields_tag; [apply yields_Bsob|]. intros b [Hb Hl]. apply yields_ret.
    split; simpl; [done|]. rewrite Nat2Z.id, take_ge by done. auto with amule.
  - apply yields_throw; [by right|done].
Qed.

(** A list of tags is read to its end, or up to the exception. *)
Lemma read_tags_spec o n f l : file_ok f -> exists f' r tags, read_tags n o l f = (r, l ++ tags, f') /\
  file_ok f' /\ content f' = content f /\ Forall tag_ok tags /\ (length tags <= n)%nat /\
  match r with inr _ => length tags = n | inl e => tag_exn e end.
Proof.
  revert f l. induction n as [|n IH]; intros f l Hf; simpl.
  - exists f, (inr tt), []. rewrite app_nil_r. by split_and!.
  - destruct (yields_ReadTag o f Hf) as (f1 & Hf1 & C1 & _ & [(t & -> & Ht)|(e & -> & He & _)]).
    + destruct (IH f1 (l ++ [t]) Hf1) as (f2 & r & tags & E & Hf2 & C2 & Hts & Hlen & Hr).
      exists f2, r, (t :: tags). rewrite E, C2, <- app_assoc.
      split_and!; [done..|by constructor|simpl; lia|]. destruct r; [done|]. simpl. lia.
    + exists f1, (inl e), []. rewrite app_nil_r. split_and!; try done. simpl. lia.
Qed.

End TagTheory.

(** ** Round trips *)

(** Decide the comparisons of type constants. *)
Ltac eval_types := repeat match goal with
  | |- context [?a =? ?b] => let r := eval vm_compute in (a =? b) in
      match r with
      | true => change (a =? b) with true
      | false => change (a =? b) with false
      end; cbv iota
  end.

(** How a value is stored in the form of Kad; blobs and booleans have no such form. *)
Inductive kad_value `{conv : wxConv} : Z -> tag_val -> Z -> list Z -> Prop :=
| kad_hash h : hash_ok h -> kad_value TAGTYPE_HASH16 (VHash h) 0 h
| kad_str s b : text_ok utf8strRaw true s b ->
    kad_value TAGTYPE_STRING (VStr s) 0 (poke_le 2 (Z.of_nat (length b)) ++ b)
| kad_uint64 v : in_width 64 v -> kad_value TAGTYPE_UINT64 (VInt v) 0 (poke_le 8 v)
| kad_uint32 v : in_width 32 v -> kad_value TAGTYPE_UINT32 (VInt v) 0 (poke_le 4 v)
| kad_uint16 v : in_width 16 v -> kad_value TAGTYPE_UINT16 (VInt v) 0 (poke_le 2 v)
| kad_uint8 v : in_width 8 v -> kad_value TAGTYPE_UINT8 (VInt v) 0 (poke_le 1 v)
| kad_float v : in_width 32 v -> kad_value TAGTYPE_FLOAT32 (VFloat v) 0 (poke_le 4 v)
| kad_bsob d : Forall is_byte d -> Z.of_nat (length d) < 256 ->
    kad_value TAGTYPE_BSOB (VData d) (Z.of_nat (length d)) (bytes_bsob d).

(** The name as text: an identifier is stored as a text of one character. *)
Definition name_text (t : CTag) : wxString :=
  match m_Name t with [] => [m_uName t] | n => n end.

(** Text that Latin-1 stores. *)
Definition plain_text (s : wxString) : Prop :=
  Forall (fun c => 0 < c < 256) s /\ Z.of_nat (length s) <= 0xFFFF /\ take 3 s <> BOMHeader.

Section RoundTrip.

Context {F : Type} {IOF : CFileDataIO F} {laws : FileLaws F} {conv : wxConv} {claws : wxConvLaws conv}.

#[local] Open Scope io_scope.

Lemma plain_text_ok s : plain_text s -> text_ok utf8strNone false s s.
Proof.
  intros (Hc & Hl & Hb). split_and!; try done. eapply Forall_impl; [exact Hc|]. simpl. lia.
Qed.

Lemma parses_lift {A} (x : A) : parses (io_lift (inr x)) [] x.
Proof. apply parses_ret. Qed.

(** [t] is stored in the form of Kad as [b]. *)
Definition kad_stored (t : CTag) (b : list Z) : Prop :=
  plain_text (name_text t) /\ exists v, kad_value (m_uType t) (m_val t) (m_nSize t) v /\
    b = poke_le 1 (m_uType t) ++ (poke_le 2 (Z.of_nat (length (name_text t))) ++ name_text t) ++ v.

(** The tag that is read back: its identifier has become a name. *)
Definition kad_read (t : CTag) : CTag := mkTag (m_uType t) 0 (name_text t) (m_val t) (m_nSize t).

Lemma writes_name t : plain_text (name_text t) ->
  writes (match m_Name t with
          | [] => seq! WriteUInt16 1 in WriteUInt8 (m_uName t)
          | _ => WriteString (m_Name t) utf8strNone 2
          end) (poke_le 2 (Z.of_nat (length (name_text t))) ++ name_text t) tt.
Proof.
  intros Hp. pose proof (writes_String _ _ _ _ 2 ltac:(tauto) (plain_text_ok _ Hp)) as HW.
  unfold name_text in *. destruct (m_Name t) eqn:E; [|done].
  eapply writes_bind; [by apply writes_int|]. destruct Hp as (Hc & _). apply Forall_cons in Hc as [Hc _].
  replace [m_uName t] with (poke_le 1 (m_uName t)) by (simpl; rewrite Z.mod_small by lia; done).
  by apply writes_int.
Qed.

Lemma writes_WriteTag t b : kad_stored t b -> writes (WriteTag t) b tt.
Proof.
  intros (Hp & v & Hv & ->). unfold WriteTag. eapply writes_bind; [by apply writes_int|].
  eapply writes_bind; [by apply writes_name|].
  unfold GetHash, GetStr, GetInt, GetFloat, GetBsob, GetBsobSize, GetBlob, GetBlobSize, val_hash, val_str,
    val_int, val_float, val_data, IsHash, IsStr, IsInt, IsFloat, IsBsob, IsBlob, checked.
  generalize dependent (m_nSize t). generalize dependent (m_val t). generalize dependent (m_uType t).
  intros type val size Hv. destruct Hv; eval_types; unfold io_bind at 1; cbn [io_lift orb].
  - by apply writes_Hash.
  - change 2%nat with (Z.to_nat 2). eapply writes_String; [tauto|done].
  - by apply writes_int.
  - by apply writes_int.
  - by apply writes_int.
  - by apply writes_int.
  - by apply writes_int.
  - unfold io_bind at 1. cbn. rewrite wrap_small by width_lia. by apply writes_Bsob.
Qed.

Lemma parses_ReadTag t b : kad_stored t b -> parses (ReadTag true) b (kad_read t).
Proof.
  intros (Hp & v & Hv & ->). unfold ReadTag, kad_read. eapply parses_bind.
  { apply parses_UInt8. destruct Hv; done. }
  eapply parses_bind.
  { pose proof (plain_text_ok _ Hp) as Ht. pose proof (text_ok_decode _ _ _ _ Ht) as Hd.
    change 2%nat with (Z.to_nat 2). pose proof (parses_String false false 2 (name_text t)) as H.
    rewrite Hd in H. apply H; [tauto|]. by destruct Hp as (_ & ? & _). }
  unfold int_tag, io_lift, int_init.
  generalize dependent (m_nSize t). generalize dependent (m_val t). generalize dependent (m_uType t).
  intros type val size Hv. destruct Hv; eval_types.
  - by apply (parses_map _ (CTagHash (CTag_named (name_text t))) h h), parses_Hash.
  - apply (parses_map _ (CTagString (CTag_named (name_text t))) _ s). rewrite <- (text_ok_decode _ _ _ _ H).
    change 2%nat with (Z.to_nat 2). apply parses_String; [tauto|]. by destruct H as (_ & ? & _).
  - by apply (parses_map _ (fun v => with_value TAGTYPE_UINT64 (VInt v) 0 (CTag_named (name_text t))) _ v), parses_UInt64.
  - by apply (parses_map _ (fun v => with_value TAGTYPE_UINT32 (VInt v) 0 (CTag_named (name_text t))) _ v), parses_UInt32.
  - by apply (parses_map _ (fun v => with_value TAGTYPE_UINT16 (VInt v) 0 (CTag_named (name_text t))) _ v), parses_UInt16.
  - by apply (parses_map _ (fun v => with_value TAGTYPE_UINT8 (VInt v) 0 (CTag_named (name_text t))) _ v), parses_UInt8.
  - apply (parses_map _ (CTagFloat (CTag_named (name_text t))) (poke_le 4 v) v). by apply (parses_int 4).
  - rewrite <- (app_nil_r (bytes_bsob d)). eapply parses_bind; [by apply parses_Bsob|].
    assert (CTagBsob (CTag_named (name_text t)) d (Z.of_nat (length d)) =
      mkTag TAGTYPE_BSOB 0 (name_text t) (VData d) (Z.of_nat (length d))) as <-
      by (unfold CTagBsob; rewrite Nat2Z.id, take_ge by done; done).
    apply parses_ret.
Qed.

(** *** Lists of tags *)

Lemma writes_tags l bs : Forall2 kad_stored l bs -> writes (write_tags l) (concat bs) tt.
Proof.
  induction 1 as [|t b l bs Ht _ IH]; simpl; [apply writes_ret|].
  eapply writes_bind; [by apply writes_WriteTag|done].
Qed.

Lemma writes_WriteTagPtrList l bs : Forall2 kad_stored l bs ->
  writes (WriteTagPtrList l) (poke_le 1 (Z.of_nat (length l)) ++ concat bs) tt.
Proof. intros Hl. eapply writes_bind; [by apply writes_int|]. by apply writes_tags. Qed.

Lemma read_tags_parses l bs : Forall2 kad_stored l bs -> forall acc f rest,
  file_ok f -> GetPosition f <= GetLength f ->
  drop (Z.to_nat (GetPosition f)) (content f) = concat bs ++ rest ->
  exists f', read_tags (length l) true acc f = (inr tt, acc ++ map kad_read l, f') /\
    file_ok f' /\ content f' = content f /\ GetPosition f' = GetPosition f + Z.of_nat (length (concat bs)).
Proof.
  induction 1 as [|t b l bs Ht _ IH]; intros acc f rest Hf Hp E; simpl.
  - exists f. rewrite app_nil_r. split_and!; [done..|lia].
  - simpl in E. rewrite <- app_assoc in E.
    destruct (parses_ReadTag t b Ht f _ Hf Hp E) as (f1 & E1 & Hf1 & C1 & P1). rewrite E1.
    destruct (parses_at f b _ Hf Hp E) as [HL E'].
    destruct (IH (acc ++ [kad_read t]) f1 rest Hf1) as (f2 & E2 & Hf2 & C2 & P2).
    + rewrite (length_kept f f1 Hf Hf1 C1). lia.
    + by rewrite P1, C1.
    + exists f2. rewrite E2, C2, P2, P1, length_app, <- app_assoc. split_and!; [done..|lia].
Qed.

End RoundTrip.

(** *** The eD2k form *)

Section Ed2k.

Context {F : Type} {IOF : CFileDataIO F} {laws : FileLaws F} {conv : wxConv} {claws : wxConvLaws conv}.

#[local] Open Scope io_scope.

(** A text whose length goes into the type.  With [utf8strNone] the type announces the length of the
    UTF-8 form, so the two forms have to be of one length. *)
Definition short_text (e : EUtf8Str) (s : wxString) (b : list Z) : Prop :=
  1 <= Z.of_nat (length b) <= 16 /\ (e = utf8strNone -> GetRawSize s e = Z.of_nat (length b)).

(** A text with a length of its own: with [utf8strNone] the UTF-8 form decides that. *)
Definition long_text (e : EUtf8Str) (s : wxString) (b : list Z) : Prop :=
  match e with
  | utf8strNone => u16 (GetRawSize s e) = 0 \/ 16 < u16 (GetRawSize s e)
  | _ => Z.of_nat (length b) = 0 \/ 16 < Z.of_nat (length b)
  end.

(** How a value is stored with a text encoding [e]: the type written, the bytes, and the type
    that is read back. *)
Inductive ed2k_value (e : EUtf8Str) : Z -> tag_val -> Z -> Z -> list Z -> Z -> Prop :=
| ed2k_int8 type v : (IsInt (mkTag type 0 [] (VInt v) 0) = true) -> in_width 8 v ->
    ed2k_value e type (VInt v) 0 TAGTYPE_UINT8 (poke_le 1 v) TAGTYPE_UINT32
| ed2k_int16 type v : (IsInt (mkTag type 0 [] (VInt v) 0) = true) -> 0xFF < v <= 0xFFFF ->
    ed2k_value e type (VInt v) 0 TAGTYPE_UINT16 (poke_le 2 v) TAGTYPE_UINT32
| ed2k_int32 type v : (IsInt (mkTag type 0 [] (VInt v) 0) = true) -> 0xFFFF < v <= 0xFFFFFFFF ->
    ed2k_value e type (VInt v) 0 TAGTYPE_UINT32 (poke_le 4 v) TAGTYPE_UINT32
| ed2k_int64 type v : (IsInt (mkTag type 0 [] (VInt v) 0) = true) -> 0xFFFFFFFF < v < 2 ^ 64 ->
    ed2k_value e type (VInt v) 0 TAGTYPE_UINT64 (poke_le 8 v) TAGTYPE_UINT64
| ed2k_short s b : text_ok e (reads_utf8 e) s b -> short_text e s b ->
    ed2k_value e TAGTYPE_STRING (VStr s) 0 (TAGTYPE_STR1 + Z.of_nat (length b) - 1) b TAGTYPE_STRING
| ed2k_long s b : text_ok e (reads_utf8 e) s b -> long_text e s b ->
    ed2k_value e TAGTYPE_STRING (VStr s) 0 TAGTYPE_STRING (poke_le 2 (Z.of_nat (length b)) ++ b) TAGTYPE_STRING
| ed2k_float v : in_width 32 v ->
    ed2k_value e TAGTYPE_FLOAT32 (VFloat v) 0 TAGTYPE_FLOAT32 (poke_le 4 v) TAGTYPE_FLOAT32
| ed2k_hash h : hash_ok h -> ed2k_value e TAGTYPE_HASH16 (VHash h) 0 TAGTYPE_HASH16 h TAGTYPE_HASH16
| ed2k_blob d : Forall is_byte d -> Z.of_nat (length d) < 2 ^ 31 ->
    ed2k_value e TAGTYPE_BLOB (VData d) (Z.of_nat (length d)) TAGTYPE_BLOB
      (poke_le 4 (Z.of_nat (length d)) ++ d) TAGTYPE_BLOB.

(** The name: an identifier behind a flag in the type, or a text. *)
Definition ed2k_name (t : CTag) (uType : Z) (b : list Z) : Prop :=
  match m_Name t with
  | [] => in_width 8 (m_uName t) /\ b = poke_le 1 (Z.lor uType 0x80) ++ poke_le 1 (m_uName t)
  | n => plain_text n /\ b = poke_le 1 uType ++ poke_le 2 (Z.of_nat (length n)) ++ n
  end.

(** What is read back: a name of one character comes back as an identifier. *)
Definition ed2k_read (t : CTag) (type : Z) : CTag :=
  match m_Name t with
  | [] => mkTag type (m_uName t) [] (m_val t) (m_nSize t)
  | [c] => mkTag type c [] (m_val t) (m_nSize t)
  | n => mkTag type 0 n (m_val t) (m_nSize t)
  end.

Definition ed2k_stored (e : EUtf8Str) (t : CTag) (b : list Z) (type : Z) : Prop :=
  exists uType nb vb, ed2k_value e (m_uType t) (m_val t) (m_nSize t) uType vb type /\
    ed2k_name t uType nb /\ b = nb ++ vb.

Lemma ed2k_type_range e type v n uType vb type' : ed2k_value e type v n uType vb type' -> 0 <= uType < 128.
Proof.
  intros [| | | |s b _ [Hl _]| | | |]; done || (unfold TAGTYPE_STR1; lia).
Qed.

(** The flag bit of the type byte. *)
Lemma flag_bit u : 0 <= u < 128 ->
  Z.land (Z.lor u 0x80) 0x80 = 0x80 /\ Z.land (Z.lor u 0x80) 0x7F = u /\ Z.land u 0x80 = 0 /\
  in_width 8 (Z.lor u 0x80).
Proof.
  intros Hu.
  assert (forallb (fun u => (Z.land (Z.lor u 0x80) 0x80 =? 0x80) && (Z.land (Z.lor u 0x80) 0x7F =? u) &&
    (Z.land u 0x80 =? 0) && (0 <=? Z.lor u 0x80) && (Z.lor u 0x80 <? 256)) (seqZ 0 128) = true) as H
    by by vm_compute.
  rewrite forallb_forall in H. specialize (H u).
  rewrite <- list_elem_of_In, elem_of_seqZ in H. specialize (H ltac:(lia)).
  bool_facts. unfold in_width. change (2 ^ 8) with 256. lia.
Qed.

Lemma GetRawSize_text e s b : e <> utf8strNone -> text_ok e true s b -> GetRawSize s e = Z.of_nat (length b).
Proof.
  intros He (Hs & Hl & H). unfold GetRawSize.
  assert (forall u, utf8_str s = Some u -> strlen (Some u) = Z.of_nat (length u)) as Hlen.
  { intros u Hu. destruct (utf8_round s u Hs Hu) as (_ & Hn & _). unfold strlen. by rewrite c_str_id. }
  destruct e; [done| |].
  - destruct H as (u & Hu & ->). rewrite Hu, (Hlen u Hu), length_app. change (length BOMHeader) with 3%nat. lia.
  - destruct H as (Hu & _). by rewrite Hu, (Hlen b Hu).
Qed.

Lemma short_text_size e s b : text_ok e (reads_utf8 e) s b -> short_text e s b ->
  u16 (GetRawSize s e) = Z.of_nat (length b).
Proof.
  intros Ht [Hl Hn]. assert (GetRawSize s e = Z.of_nat (length b)) as ->.
  { destruct e; [by apply Hn|by apply GetRawSize_text..]. }
  apply wrap_small. unfold in_width. lia.
Qed.

Lemma long_text_size e s b : text_ok e (reads_utf8 e) s b -> long_text e s b ->
  u16 (GetRawSize s e) = 0 \/ 16 < u16 (GetRawSize s e).
Proof.
  intros Ht Hl. destruct e; [done|..]; rewrite (GetRawSize_text _ s b) by done;
    (rewrite wrap_small; [exact Hl|]); destruct Ht as (_ & Ht & _); unfold in_width; lia.
Qed.

Lemma short_type_spec e t uType vb type' :
  ed2k_value e (m_uType t) (m_val t) (m_nSize t) uType vb type' -> short_type t e = inr uType.
Proof.
  unfold short_type, val_int, val_str, IsStr, IsInt.
  generalize (m_nSize t). generalize (m_val t). generalize (m_uType t). intros type v n Hv.
  destruct Hv as [ty v Hi Hr|ty v Hi Hr|ty v Hi Hr|ty v Hi Hr|s b Ht Hl|s b Ht Hl|v Hr|h Hh|d Hd Hl];
    try (unfold IsInt in Hi; simpl in Hi; rewrite Hi); eval_types; cbn [orb].
  - by rewrite (proj2 (Z.leb_le v _)) by width_lia.
  - by rewrite (proj2 (Z.leb_gt _ 0xFF)), (proj2 (Z.leb_le v _)) by width_lia.
  - by rewrite (proj2 (Z.leb_gt _ 0xFF)), (proj2 (Z.leb_gt _ 0xFFFF)), (proj2 (Z.leb_le v _)) by width_lia.
  - by rewrite (proj2 (Z.leb_gt _ 0xFF)), (proj2 (Z.leb_gt _ 0xFFFF)), (proj2 (Z.leb_gt _ 0xFFFFFFFF)) by width_lia.
  - rewrite (short_text_size e s b Ht Hl). destruct Hl as [Hl _].
    rewrite Z.geb_leb, (proj2 (Z.leb_le 1 _)), (proj2 (Z.leb_le _ 16)) by lia. cbn [andb].
    unfold TAGTYPE_STR1. by rewrite wrap_small by (unfold in_width; lia).
  - pose proof (long_text_size e s b Ht Hl) as Hn. rewrite Z.geb_leb.
    destruct Hn as [-> | Hn]; [done|]. by rewrite (proj2 (Z.leb_gt _ 16)), andb_false_r by lia.
  - done.
  - done.
  - done.
Qed.

Lemma writes_ed2k_name t uType nb : 0 <= uType < 128 -> ed2k_name t uType nb ->
  writes (match m_Name t with
          | [] => seq! WriteUInt8 (Z.lor uType 0x80) in WriteUInt8 (m_uName t)
          | _ => seq! WriteUInt8 uType in WriteString (m_Name t) utf8strNone 2
          end) nb tt.
Proof.
  intros Hu Hn. unfold ed2k_name in Hn. destruct (m_Name t) as [|c n].
  - destruct Hn as [_ ->]. eapply writes_bind; by apply writes_int.
  - destruct Hn as [Hp ->]. eapply writes_bind; [by apply writes_int|].
    change 2%nat with (Z.to_nat 2). eapply writes_String; [tauto|by apply plain_text_ok].
Qed.

(** The comparisons with a type between [TAGTYPE_STR1] and [TAGTYPE_STR16]. *)
Ltac str_types := unfold TAGTYPE_STR1, TAGTYPE_STR16, TAGTYPE_STRING, TAGTYPE_UINT64, TAGTYPE_UINT32,
  TAGTYPE_UINT16, TAGTYPE_UINT8, TAGTYPE_FLOAT32, TAGTYPE_HASH16, TAGTYPE_BLOB, TAGTYPE_BOOL, TAGTYPE_BOOLARRAY in *;
  rewrite !(proj2 (Z.eqb_neq _ _)) by lia; rewrite (proj2 (Z.geb_le _ _)), (proj2 (Z.leb_le _ _)) by lia; cbn [andb].

Lemma writes_WriteNewEd2kTag e t b type' : ed2k_stored e t b type' -> writes (WriteNewEd2kTag t e) b true.
Proof.
  intros (uType & nb & vb & Hv & Hn & ->). unfold WriteNewEd2kTag. rewrite (short_type_spec _ _ _ _ _ Hv).
  pose proof (ed2k_type_range _ _ _ _ _ _ _ Hv) as Hu. rewrite <- (app_nil_l (nb ++ vb)).
  eapply writes_bind; [apply writes_ret|]. eapply writes_bind; [by apply writes_ed2k_name|]. clear Hn Hu nb.
  unfold val_int, val_str, val_float, val_hash, val_data.
  generalize dependent (m_nSize t). generalize dependent (m_val t). generalize dependent (m_uType t).
  intros type v n Hv.
  assert (forall (m : IO F unit) bs, writes m bs tt -> writes (seq! m in io_ret true) bs true) as Hlast
    by (intros; by eapply writes_last).
  destruct Hv as [ty v Hi Hr|ty v Hi Hr|ty v Hi Hr|ty v Hi Hr|s b Ht Hl|s b Ht Hl|v Hr|h Hh|d Hd Hl];
    [eval_types|eval_types|eval_types|eval_types|destruct Hl as [Hl _]; str_types|eval_types..];
    try (unfold io_bind at 1; cbn [io_lift]; apply Hlast).
  - by apply writes_int.
  - by apply writes_int.
  - by apply writes_int.
  - by apply writes_int.
  - rewrite <- (app_nil_l b). change [] with (poke_le (Z.to_nat 0) (Z.of_nat (length b))).
    eapply writes_String; [tauto|done].
  - change 2%nat with (Z.to_nat 2). eapply writes_String; [tauto|done].
  - by apply writes_int.
  - by apply writes_Hash.
  - eapply writes_bind; [by apply writes_int|]. unfold io_bind at 1. cbn [io_lift]. apply Hlast.
    rewrite Nat2Z.id, take_ge by done. by apply writes_Write.
Qed.

Lemma parses_read_name t uType nb : 0 <= uType < 128 -> ed2k_name t uType nb ->
  exists b0 b1 u1, nb = b0 ++ b1 /\ parses ReadUInt8 b0 u1 /\
    parses (read_name u1) b1 (uType, m_uName (ed2k_read t uType), m_Name (ed2k_read t uType)).
Proof.
  intros Hu Hn. destruct (flag_bit uType Hu) as (F1 & F2 & F3 & F4). unfold ed2k_name, ed2k_read in *.
  destruct (m_Name t) as [|c n] eqn:En.
  - destruct Hn as [Hb ->]. do 3 eexists. split; [done|]. split; [by apply parses_UInt8|].
    unfold read_name. rewrite F1, F2. change (negb (128 =? 0)) with true. cbv iota.
    by apply (parses_map _ (fun id => (uType, id, []))), parses_UInt8.
  - destruct Hn as [Hp ->]. do 3 eexists. split; [done|]. split; [apply parses_UInt8; width_lia|].
    unfold read_name. rewrite F3. change (negb (0 =? 0)) with false. cbv iota.
    pose proof (text_ok_decode _ _ _ _ (plain_text_ok _ Hp)) as Hd. destruct Hp as (Hc & Hl & _).
    eapply parses_bind; [apply parses_UInt16; width_lia|].
    destruct n as [|c2 n].
    + change (Z.of_nat (length [c]) =? 1) with true. cbv iota. apply Forall_cons in Hc as [Hc _].
      replace [c] with (poke_le 1 c) by (simpl; rewrite Z.mod_small by lia; done).
      apply (parses_map _ (fun id => (uType, id, [])) _ c), parses_UInt8. width_lia.
    + rewrite (proj2 (Z.eqb_neq _ _)) by (simpl; lia).
      apply (parses_map _ (fun Name => (uType, 0, Name)) _ (c :: c2 :: n)). rewrite <- Hd at 3.
      by apply parses_OnlyString.
Qed.

Lemma parses_read_value e type v n uType vb type' : ed2k_value e type v n uType vb type' ->
  parses (read_value uType (reads_utf8 e)) vb (type', v, n).
Proof.
  unfold read_value.
  intros [ty v' Hi Hr|ty v' Hi Hr|ty v' Hi Hr|ty v' Hi Hr|s b Ht Hl|s b Ht Hl|v' Hr|h Hh|d Hd Hl];
    [eval_types|eval_types|eval_types|eval_types|destruct Hl as [Hl _]; str_types|eval_types..].
  - by apply (parses_map _ (fun v => (TAGTYPE_UINT32, VInt v, 0)) _ v'), parses_UInt8.
  - apply (parses_map _ (fun v => (TAGTYPE_UINT32, VInt v, 0)) _ v'), parses_UInt16. width_lia.
  - apply (parses_map _ (fun v => (TAGTYPE_UINT32, VInt v, 0)) _ v'), parses_UInt32. width_lia.
  - apply (parses_map _ (fun v => (TAGTYPE_UINT64, VInt v, 0)) _ v'), parses_UInt64. width_lia.
  - apply (parses_map _ (fun s => (2, VStr s, 0)) _ s).
    replace (u8 (17 + Z.of_nat (length b) - 1 - 17 + 1)) with (Z.of_nat (length b))
      by (rewrite wrap_small by (unfold in_width; lia); lia).
    rewrite <- (text_ok_decode _ _ _ _ Ht). apply parses_OnlyString. lia.
  - apply (parses_map _ (fun s => (TAGTYPE_STRING, VStr s, 0)) _ s).
    rewrite <- (text_ok_decode _ _ _ _ Ht). change 2%nat with (Z.to_nat 2).
    apply parses_String; [tauto|]. by destruct Ht as (_ & ? & _).
  - rewrite <- (peek_poke 4 v') at 2 by done.
    apply (parses_map _ (fun b => (TAGTYPE_FLOAT32, VFloat (peek_le b), 0))). by apply (parses_Read (poke_le 4 v')).
  - by apply (parses_map _ (fun h => (TAGTYPE_HASH16, VHash h, 0))), parses_Hash.
  - eapply parses_bind; [apply parses_UInt32; width_lia|]. intros f rest Hf Hp E.
    destruct (parses_at f d rest Hf Hp E) as [HL _]. destruct (law_position f Hf) as [HP HL2].
    change (2 ^ 62) with 4611686018427387904 in HL2.
    rewrite wrap_small, Z.gtb_ltb, (proj2 (Z.ltb_ge _ _)) by width_lia.
    by apply (parses_map _ (fun d' => (TAGTYPE_BLOB, VData d', Z.of_nat (length d))) d d (parses_Read d Hl) f rest).
Qed.

Lemma parses_CTag_read e t b type' : ed2k_stored e t b type' ->
  parses (CTag_read (reads_utf8 e)) b (ed2k_read t type').
Proof.
  intros (uType & nb & vb & Hv & Hn & ->).
  destruct (parses_read_name t uType nb (ed2k_type_range _ _ _ _ _ _ _ Hv) Hn) as (b0 & b1 & u1 & -> & H0 & H1).
  unfold CTag_read. rewrite <- app_assoc. eapply parses_bind; [exact H0|]. eapply parses_bind; [exact H1|].
  rewrite <- (app_nil_r vb). eapply parses_bind; [by eapply parses_read_value|].
  assert (ed2k_read t type' = mkTag type' (m_uName (ed2k_read t uType)) (m_Name (ed2k_read t uType)) (m_val t) (m_nSize t)) as ->
    by (unfold ed2k_read; by destruct (m_Name t) as [|? [|? ?]]).
  apply parses_ret.
Qed.

End Ed2k.

(** ** Reading arbitrary bytes *)

Lemma accessors_typed t : val_ok (m_uType t) (m_val t) (m_nSize t) ->
  (forall e, GetInt t = inl e -> e = CInvalidPacket /\ IsInt t = false) /\
  (forall e, GetStr t = inl e -> e = CInvalidPacket /\ IsStr t = false) /\
  (forall e, GetFloat t = inl e -> e = CInvalidPacket /\ IsFloat t = false) /\
  (forall e, GetHash t = inl e -> e = CInvalidPacket /\ IsHash t = false) /\
  (forall e, GetBlob t = inl e -> e = CInvalidPacket /\ IsBlob t = false) /\
  (forall e, GetBsob t = inl e -> e = CInvalidPacket /\ IsBsob t = false) /\
  (m_val t <> VNull -> CTag_copy t = inr t).
Proof.
  unfold CTag_copy, GetInt, GetStr, GetFloat, GetHash, GetBlob, GetBlobSize, GetBsob, GetBsobSize, checked,
    IsInt, IsStr, IsFloat, IsHash, IsBlob, IsBsob, val_int, val_str, val_float, val_hash, val_data.
  destruct t as [type name Name v size]. cbn [m_uType m_uName m_Name m_val m_nSize]. intros Hv.
  destruct Hv; eval_types; cbn [orb]; (split_and!; [intros e He; by simplify_eq..|]); try done;
    intros _; by rewrite Nat2Z.id, take_ge.
Qed.

Lemma ReadTagPtrList_outcome realloc memory_limit (limit_ok : 0 <= memory_limit < 2 ^ 62)
  (realloc_ok : forall b n, Z.of_nat (length b) <= n <= memory_limit ->
     exists t, realloc b n = Some (b ++ t) /\ Z.of_nat (length (b ++ t)) = n /\ Forall is_byte t)
  {conv : wxConv} acc o f : mem_ok f -> exists r tags f', @ReadTagPtrList _ (CMemFile_IO realloc) conv acc o f = (r, acc ++ tags, f') /\
    mem_content f' = mem_content f /\ Forall tag_ok tags /\
    match r with
    | inr _ => head (drop (Z.to_nat (m_position f)) (mem_content f)) = Some (Z.of_nat (length tags))
    | inl e => tag_exn e
    end.
Proof.
  intros Hf. unfold ReadTagPtrList, ReadUInt8, io_bind, io_ret.
  destruct (mem_Read realloc 1 f Hf ltac:(done)) as (f1 & -> & Hf1 & C1 & _).
  destruct (Z.leb_spec (m_position f + 1) (m_fileSize f)) as [Hle|Hlt].
  - pose proof (mem_content_length f Hf) as HL. pose proof (mem_pos f Hf) as Hp. pose proof (mem_bytes f Hf) as Hb.
    destruct (drop (Z.to_nat (m_position f)) (mem_content f)) as [|c rest] eqn:Ed.
    { apply (f_equal length) in Ed. rewrite length_drop in Ed. simpl in Ed. lia. }
    assert (is_byte c) as Hc.
    { assert (Forall is_byte (c :: rest)) as H by (rewrite <- Ed; by apply Forall_drop, Forall_take).
      by apply Forall_cons in H as [H _]. }
    unfold is_byte, in_width in Hc. change (2 ^ 8) with 256 in Hc.
    change (take (Z.to_nat 1) (c :: rest)) with [c]. replace (peek_le [c]) with c by (simpl; lia).
    destruct (read_tags_spec (laws := CMemFile_laws realloc memory_limit limit_ok realloc_ok)
      o (Z.to_nat c) f1 acc Hf1) as (f2 & r & tags & -> & Hf2 & C2 & Ht & Hlen & Hr).
    exists r, tags, f2. cbn in C2. split; [done|]. split; [congruence|]. split; [done|].
    destruct r; [done|]. simpl. f_equal. lia.
  - exists (inl CEOFException), [], f1. rewrite app_nil_r. split_and!; [done..|by left].
Qed.

(** ** Properties *)

(** A list of up to 255 tags written to a memory file in the form of Kad is read back: the
    same types and values in the same order, the name identifiers as one-character names; tags
    read before keep their place in the caller's list. *)
Theorem tag_kad_roundtrip (realloc : list Z -> Z -> option (list Z)) (memory_limit : Z)
  (limit_ok : 0 <= memory_limit < 2 ^ 62)
  (realloc_ok : forall b n, Z.of_nat (length b) <= n <= memory_limit ->
     exists t, realloc b n = Some (b ++ t) /\ Z.of_nat (length (b ++ t)) = n /\ Forall is_byte t)
  (conv : wxConv) (claws : wxConvLaws conv) (l acc : list CTag) (bs : list (list Z)) (f : CMemFile)
  (Hl : Forall2 kad_stored l bs) (Hn : Z.of_nat (length l) <= 255) (Hf : mem_ok f)
  (Hp : m_position f <= m_fileSize f)
  (Hroom : mem_room memory_limit f (1 + Z.of_nat (length (concat bs)))) :
  let IOF := CMemFile_IO realloc in
  exists f1 f2 f3, WriteTagPtrList l f = (inr tt, f1) /\
    Seek (m_position f) wxFromStart f1 = (inr (m_position f), f2) /\
    ReadTagPtrList acc true f2 = (inr tt, acc ++ map kad_read l, f3) /\
    m_position f3 = m_position f1 /\ mem_content f3 = mem_content f1.
Proof.
  intros IOF. set (laws := CMemFile_laws realloc memory_limit limit_ok realloc_ok).
  set (b0 := poke_le 1 (Z.of_nat (length l))).
  destruct (mem_readback realloc memory_limit limit_ok realloc_ok (WriteTagPtrList l) (b0 ++ concat bs) tt f)
    as (f1 & f2 & rest & E1 & C1 & P1 & E2 & Hf2 & C2 & P2 & L2 & Hrest); [..|done|done| |].
  { by apply (writes_WriteTagPtrList (laws := laws)). }
  { rewrite length_app. by replace (Z.of_nat (length b0 + length (concat bs)))
      with (1 + Z.of_nat (length (concat bs))) by (simpl; lia). }
  rewrite <- app_assoc in Hrest.
  destruct (parses_UInt8 (laws := laws) (Z.of_nat (length l)) ltac:(width_lia) f2 _ Hf2 L2 Hrest)
    as (f3 & E3 & Hf3 & C3 & P3).
  destruct (parses_at (laws := laws) f2 b0 _ Hf2 L2 Hrest) as [HL Hrest'].
  destruct (read_tags_parses (laws := laws) l bs Hl acc f3 rest Hf3) as (f4 & E4 & Hf4 & C4 & P4).
  { rewrite (length_kept (laws := laws) f2 f3 Hf2 Hf3 C3). cbn in *. lia. }
  { cbn in *. by rewrite P3, C3. }
  exists f1, f2, f4. split; [done|]. split; [done|]. unfold ReadTagPtrList.
  change IOF with (CMemFile_IO realloc). rewrite E3, Nat2Z.id.
  rewrite length_app in P1. cbn in *. split; [done|]. split; [lia|congruence].
Qed.

(** C28: A tag written to a memory file in the eD2k form is read back with its value, by a reader
    that decodes text the way it was encoded: integers come back as 32- or 64-bit ones whatever
    their type was, short strings as strings, a name of one character as an identifier.  The tags
    meant are those of [ed2k_stored]: integers, strings, floats, hashes and blobs under 2^31
    bytes, named by an identifier or by Latin-1 text, with strings of at most 65535 bytes; neither
    names nor strings hold a NUL or start with a byte order mark.  In UTF-8 ([utf8strRaw], [utf8strOptBOM])
    these are all such strings.  With the default encoding [utf8strNone] the characters are those
    of Latin-1, and a string whose type announces its length, which is at most 16 bytes in UTF-8,
    must be as long in Latin-1, as ASCII text is: nothing is claimed for the other short strings,
    whose announced length is wrong ([ed2k_tag_latin1_mismatch]). *)
Theorem tag_ed2k_roundtrip (realloc : list Z -> Z -> option (list Z)) (memory_limit : Z)
  (limit_ok : 0 <= memory_limit < 2 ^ 62)
  (realloc_ok : forall b n, Z.of_nat (length b) <= n <= memory_limit ->
     exists t, realloc b n = Some (b ++ t) /\ Z.of_nat (length (b ++ t)) = n /\ Forall is_byte t)
  (conv : wxConv) (claws : wxConvLaws conv) (e : EUtf8Str) (t : CTag) (b : list Z) (type : Z) (f : CMemFile)
  (Ht : ed2k_stored e t b type) (Hf : mem_ok f) (Hp : m_position f <= m_fileSize f)
  (Hroom : mem_room memory_limit f (Z.of_nat (length b))) :
  let IOF := CMemFile_IO realloc in
  exists f1 f2 f3, WriteNewEd2kTag t e f = (inr true, f1) /\
    mem_content f1 = splice (mem_content f) (m_position f) b /\
    Seek (m_position f) wxFromStart f1 = (inr (m_position f), f2) /\
    CTag_read (reads_utf8 e) f2 = (inr (ed2k_read t type), f3) /\
    m_position f3 = m_position f1 /\ mem_content f3 = mem_content f1.
Proof.
  intros IOF. set (laws := CMemFile_laws realloc memory_limit limit_ok realloc_ok).
  destruct (mem_readback realloc memory_limit limit_ok realloc_ok (WriteNewEd2kTag t e) b true f
    (writes_WriteNewEd2kTag (laws := laws) e t b type Ht) Hf Hp Hroom)
    as (f1 & f2 & rest & E1 & C1 & P1 & E2 & Hf2 & C2 & P2 & L2 & Hrest).
  destruct (parses_CTag_read (laws := laws) e t b type Ht f2 rest Hf2 L2 Hrest) as (f3 & E3 & _ & C3 & P3).
  cbn in C3, P3. exists f1, f2, f3. split_and!; try done; congruence.
Qed.

(** C27: Whatever the bytes of a file, reading a tag in either form gives a tag whose value goes
    with its type or throws one of the documented exceptions, and leaves the file alone; a list
    of tags is read to its announced length or keeps the good tags before the exception; and
    the accessors of a tag read give its value exactly for the right type, never another member
    of the union. *)
Theorem tag_reads_typed (realloc : list Z -> Z -> option (list Z)) (memory_limit : Z)
  (limit_ok : 0 <= memory_limit < 2 ^ 62)
  (realloc_ok : forall b n, Z.of_nat (length b) <= n <= memory_limit ->
     exists t, realloc b n = Some (b ++ t) /\ Z.of_nat (length (b ++ t)) = n /\ Forall is_byte t)
  (conv : wxConv) (o : bool) (f : CMemFile) (acc : list CTag) (Hf : mem_ok f) :
  let IOF := CMemFile_IO realloc in
  (exists f', mem_ok f' /\ mem_content f' = mem_content f /\
    ((exists t, CTag_read o f = (inr t, f') /\ tag_ok t) \/
     (exists e, CTag_read o f = (inl e, f') /\ ctag_exn e))) /\
  (exists f', mem_ok f' /\ mem_content f' = mem_content f /\
    ((exists t, ReadTag o f = (inr t, f') /\ tag_ok t) \/
     (exists e, ReadTag o f = (inl e, f') /\ tag_exn e))) /\
  (exists r tags f', ReadTagPtrList acc o f = (r, acc ++ tags, f') /\ mem_content f' = mem_content f /\
    Forall tag_ok tags /\ match r with
                          | inr _ => head (drop (Z.to_nat (m_position f)) (mem_content f)) = Some (Z.of_nat (length tags))
                          | inl e => tag_exn e
                          end) /\
  (forall t, tag_ok t ->
     (forall e, GetInt t = inl e -> e = CInvalidPacket /\ IsInt t = false) /\
     (forall e, GetStr t = inl e -> e = CInvalidPacket /\ IsStr t = false) /\
     (forall e, GetFloat t = inl e -> e = CInvalidPacket /\ IsFloat t = false) /\
     (forall e, GetHash t = inl e -> e = CInvalidPacket /\ IsHash t = false) /\
     (forall e, GetBlob t = inl e -> e = CInvalidPacket /\ IsBlob t = false) /\
     (forall e, GetBsob t = inl e -> e = CInvalidPacket /\ IsBsob t = false) /\
     (m_val t <> VNull -> CTag_copy t = inr t)).
Proof.
  intros IOF. set (laws := CMemFile_laws realloc memory_limit limit_ok realloc_ok). split_and!.
  - destruct (yields_CTag_read (laws := laws) o f Hf) as (f' & Hf' & C' & _ & [(t & E & Ht)|(e & E & He & _)]);
      exists f'; eauto 10.
  - destruct (yields_ReadTag (laws := laws) o f Hf) as (f' & Hf' & C' & _ & [(t & E & Ht)|(e & E & He & _)]);
      exists f'; eauto 10.
  - exact (ReadTagPtrList_outcome realloc memory_limit limit_ok realloc_ok acc o f Hf).
  - intros t [_ Ht]. pose proof (accessors_typed t Ht) as H. tauto.
Qed.

(** *** Witnesses *)

Definition sample_tags : list CTag :=
  [mkTag TAGTYPE_UINT16 0x15 [] (VInt 770) 0; mkTag TAGTYPE_STRING 0 [110; 97] (VStr [97; 98]) 0].

Definition sample_stored : list (list Z) :=
  [[8; 1; 0; 0x15; 2; 3]; [2; 2; 0; 110; 97; 2; 0; 97; 98]].

Lemma sample_tags_stored : Forall2 (@kad_stored ascii_conv) sample_tags sample_stored.
Proof.
  repeat constructor; simpl; try lia; try done.
  - exists [2; 3]. split; [|done]. by apply (@kad_uint16 ascii_conv 770).
  - exists [2; 0; 97; 98]. split; [|done]. apply (@kad_str ascii_conv [97; 98] [97; 98]).
    split; [by repeat constructor|]. by split.
Qed.

Lemma tag_kad_roundtrip_witness :
  let IOF := CMemFile_IO calloc_4096 in let conv := ascii_conv in
  exists f1 f2 f3, WriteTagPtrList sample_tags (CMemFile_new 1024) = (inr tt, f1) /\
    Seek 0 wxFromStart f1 = (inr 0, f2) /\
    ReadTagPtrList [] true f2 = (inr tt,
      [mkTag TAGTYPE_UINT16 0 [0x15] (VInt 770) 0; mkTag TAGTYPE_STRING 0 [110; 97] (VStr [97; 98]) 0], f3).
Proof.
  intros IOF conv.
  destruct (tag_kad_roundtrip calloc_4096 4096 ltac:(done) calloc_ok ascii_conv ascii_laws sample_tags []
    sample_stored (CMemFile_new 1024) sample_tags_stored ltac:(done)) as (f1 & f2 & f3 & E1 & E2 & E3 & _).
  - split; simpl; done || (unfold in_width; lia) || constructor.
  - done.
  - split; [reflexivity|right; split; [reflexivity|vm_compute; discriminate]].
  - exists f1, f2, f3. split; [exact E1|]. split; [exact E2|exact E3].
Defined.

Definition sample_string_tag : CTag := mkTag TAGTYPE_STRING 1 [] (VStr [97; 98]) 0.

Lemma sample_string_stored : @ed2k_stored ascii_conv utf8strRaw sample_string_tag [0x92; 1; 97; 98] TAGTYPE_STRING.
Proof.
  exists 0x12, [0x92; 1], [97; 98]. split; [|by split].
  apply (@ed2k_short ascii_conv utf8strRaw [97; 98] [97; 98]); [|split; [simpl; lia|done]].
  split; [by repeat constructor|]. by split.
Qed.

Lemma sample_ascii_stored : @ed2k_stored ascii_conv utf8strNone sample_string_tag [0x92; 1; 97; 98] TAGTYPE_STRING.
Proof.
  exists 0x12, [0x92; 1], [97; 98]. split; [|by split].
  apply (@ed2k_short ascii_conv utf8strNone [97; 98] [97; 98]); [|split; [simpl; lia|done]].
  split; [by repeat constructor|]. split; [done|]. split; [by repeat constructor|]. by split_and!.
Qed.

(** In UTF-8, and, the text being ASCII, with the default encoding. *)
Lemma tag_ed2k_roundtrip_witness :
  let IOF := CMemFile_IO calloc_4096 in let conv := ascii_conv in
  let back e := exists f1 f2 f3, WriteNewEd2kTag sample_string_tag e sample_file = (inr true, f1) /\
    mem_content f1 = [7; 8; 0x92; 1; 97; 98] /\ Seek 2 wxFromStart f1 = (inr 2, f2) /\
    CTag_read (reads_utf8 e) f2 = (inr sample_string_tag, f3) in
  back utf8strRaw /\ back utf8strNone.
Proof.
  intros IOF conv back. assert (forall e,
    @ed2k_stored ascii_conv e sample_string_tag [0x92; 1; 97; 98] TAGTYPE_STRING -> back e) as H.
  2: { split; apply H; [exact sample_string_stored|exact sample_ascii_stored]. }
  intros e Ht.
  destruct (tag_ed2k_roundtrip calloc_4096 4096 ltac:(done) calloc_ok ascii_conv ascii_laws e
    sample_string_tag [0x92; 1; 97; 98] TAGTYPE_STRING sample_file Ht sample_file_ok)
    as (f1 & f2 & f3 & E1 & C & E2 & E3 & _).
  - done.
  - split; [reflexivity|left; vm_compute; discriminate].
  - exists f1, f2, f3. split; [exact E1|]. split; [exact C|]. split; [exact E2|exact E3].
Defined.

Lemma tag_reads_typed_witness :
  let IOF := CMemFile_IO calloc_4096 in let conv := ascii_conv in
  exists f', mem_ok f' /\ mem_content f' = [7; 8; 9] /\
    ((exists t, CTag_read true sample_file = (inr t, f') /\ tag_ok t) \/
     (exists e, CTag_read true sample_file = (inl e, f') /\ ctag_exn e)).
Proof.
  intros IOF conv.
  exact (proj1 (tag_reads_typed calloc_4096 4096 ltac:(done) calloc_ok ascii_conv true sample_file [] sample_file_ok)).
Defined.

(** A string tag written for a peer without Unicode support: the type announces the length of
    the UTF-8 form, but the bytes are those of the Latin-1 form.  For a text of one character
    with code 233 the type says two bytes and one is written. *)
Lemma ed2k_tag_latin1_mismatch {F} {IOF : CFileDataIO F} {laws : FileLaws F} {conv : wxConv}
  {claws : wxConvLaws conv} (Hc : utf8_str [233] = Some [195; 169]) :
  writes (WriteNewEd2kTag (mkTag TAGTYPE_STRING 1 [] (VStr [233]) 0) utf8strNone)
    [Z.lor (TAGTYPE_STR1 + 1) 0x80; 1; 233] true.
Proof.
  assert (short_type (mkTag TAGTYPE_STRING 1 [] (VStr [233]) 0) utf8strNone = inr (TAGTYPE_STR1 + 1)) as Ht.
  { unfold short_type, GetRawSize, unicode2char. cbn. by rewrite Hc. }
  unfold WriteNewEd2kTag. rewrite Ht. change ([Z.lor (TAGTYPE_STR1 + 1) 0x80; 1; 233]) with
    ([] ++ (poke_le 1 (Z.lor (TAGTYPE_STR1 + 1) 0x80) ++ poke_le 1 1) ++ [] ++ [233]).
  eapply writes_bind; [apply writes_ret|]. eapply writes_bind.
  { eapply writes_bind; by apply writes_int. }
  change (TAGTYPE_STR1 + 1) with 0x12. eval_types. cbn [Z.geb Z.leb Z.compare andb TAGTYPE_STR1 TAGTYPE_STR16].
  eapply writes_bind; [apply writes_ret|]. eapply writes_last. unfold WriteString. rewrite latin1_ok by (repeat constructor; lia).
  change [233] with (poke_le (Z.to_nat 0) 1 ++ [233]) at 2.
  apply (writes_StringCore [233] false 0 ltac:(tauto)); repeat constructor; done.
Qed.
