(* ===== verification/ClientCredits.v ===== *)
(** * The credits of a client ([ClientCredits.{h,cpp}])

    What is remembered of a client between sessions: the traffic in both directions, its public key, and
    a description for display.  Traffic is credited to an address only while the client has proved its
    key from there.  Two times of waiting in the upload queue are kept, one for the proved address.

    The ratio of scores is computed with the machine's [float] and [double], here the binary formats of
    the standard library's [SpecFloat]. *)
From Stdlib Require Import SpecFloat.
From S2P Require Import Prelude.

Definition MAXPUBKEYSIZE : Z := 80.

Record CreditStruct := mkCredit {
  key : list Z;
  uploaded : Z;
  downloaded : Z;
  nLastSeen : Z;
  nReserved3 : Z;
  nKeySize : Z;
  abySecureIdent : list Z
}.

(** The constructor; the default hash is zero. *)
Definition CreditStruct_new : CreditStruct := mkCredit (replicate 16 0) 0 0 0 0 0 (replicate 80 0).

Record ClientMetaStruct := mkMeta {
  name : list Z;
  firstSeen : Z;
  sessions : Z;
  lastIP : Z;
  lastPort : Z;
  kadPort : Z;
  version : Z;
  clientSoft : Z;
  sourceFrom : Z;
  obfuscation : Z
}.

Definition ClientMetaStruct_new : ClientMetaStruct := mkMeta [] 0 0 0 0 0 0 0 0 0.

Definition IsPopulated (m : ClientMetaStruct) : bool := negb (firstSeen m =? 0).

Inductive EIdentState := IS_NOTAVAILABLE | IS_IDNEEDED | IS_IDENTIFIED | IS_IDFAILED | IS_IDBADGUY.

#[global] Instance EIdentState_eq_dec : EqDecision EIdentState.
Proof. solve_decision. Defined.

(** The public key and its length, whether it is proved or not. *)
Record Ident := mkIdent {
  m_identState : EIdentState;
  m_abyPublicKey : list Z;
  m_nPublicKeyLen : Z;
  m_dwIdentIP : Z
}.

Record Waiting := mkWaiting { m_dwSecureWaitTime : Z; m_dwUnSecureWaitTime : Z; m_dwWaitTimeIP : Z }.

Record CClientCredits := mkCredits {
  m_meta : ClientMetaStruct;
  m_pCredits : CreditStruct;
  m_ident : Ident;
  m_wait : Waiting;
  m_dwCryptRndChallengeFor : Z;
  m_dwCryptRndChallengeFrom : Z
}.

Definition set_struct (s : CreditStruct) (c : CClientCredits) : CClientCredits :=
  mkCredits (m_meta c) s (m_ident c) (m_wait c) (m_dwCryptRndChallengeFor c) (m_dwCryptRndChallengeFrom c).
Definition set_ident (i : Ident) (c : CClientCredits) : CClientCredits :=
  mkCredits (m_meta c) (m_pCredits c) i (m_wait c) (m_dwCryptRndChallengeFor c) (m_dwCryptRndChallengeFrom c).
Definition set_wait (w : Waiting) (c : CClientCredits) : CClientCredits :=
  mkCredits (m_meta c) (m_pCredits c) (m_ident c) w (m_dwCryptRndChallengeFor c) (m_dwCryptRndChallengeFrom c).
Definition SetMeta (m : ClientMetaStruct) (c : CClientCredits) : CClientCredits :=
  mkCredits m (m_pCredits c) (m_ident c) (m_wait c) (m_dwCryptRndChallengeFor c) (m_dwCryptRndChallengeFrom c).
Definition set_challenge_for (n : Z) (c : CClientCredits) : CClientCredits :=
  mkCredits (m_meta c) (m_pCredits c) (m_ident c) (m_wait c) n (m_dwCryptRndChallengeFrom c).
Definition set_challenge_from (n : Z) (c : CClientCredits) : CClientCredits :=
  mkCredits (m_meta c) (m_pCredits c) (m_ident c) (m_wait c) (m_dwCryptRndChallengeFor c) n.

(** The first [n] bytes of [dst] are replaced. *)
Definition memcpy (dst src : list Z) (n : Z) : list Z := take (Z.to_nat n) src ++ drop (Z.to_nat n) dst.

(** [garbage]: what the buffer held before. *)
Definition InitalizeIdent (garbage : list Z) (s : CreditStruct) : Ident :=
  if nKeySize s =? 0 then mkIdent IS_NOTAVAILABLE (replicate 80 0) 0 0
  else mkIdent IS_IDNEEDED (memcpy garbage (abySecureIdent s) (nKeySize s)) (nKeySize s) 0.

(** The constructor from a stored record, and the one from a key. *)
Definition CClientCredits_load (garbage : list Z) (in_credits : CreditStruct) : CClientCredits :=
  mkCredits ClientMetaStruct_new in_credits (InitalizeIdent garbage in_credits) (mkWaiting 0 0 0) 0 0.

Definition CClientCredits_new (tick : Z) (k : list Z) : CClientCredits :=
  let s := CreditStruct_new in
  let s := mkCredit k (uploaded s) (downloaded s) (nLastSeen s) (nReserved3 s) (nKeySize s) (abySecureIdent s) in
  mkCredits ClientMetaStruct_new s (InitalizeIdent (replicate 80 0) s) (mkWaiting tick tick 0) 0 0.

Definition GetKey (c : CClientCredits) : list Z := key (m_pCredits c).
Definition GetSecureIdent (c : CClientCredits) : list Z := m_abyPublicKey (m_ident c).
Definition GetSecIDKeyLen (c : CClientCredits) : Z := m_nPublicKeyLen (m_ident c).
Definition GetUploadedTotal (c : CClientCredits) : Z := uploaded (m_pCredits c).
Definition GetDownloadedTotal (c : CClientCredits) : Z := downloaded (m_pCredits c).
Definition HasMeta (c : CClientCredits) : bool := IsPopulated (m_meta c).
Definition GetIdentState (c : CClientCredits) : EIdentState := m_identState (m_ident c).
Definition SetIdentState (st : EIdentState) (c : CClientCredits) : CClientCredits :=
  let i := m_ident c in set_ident (mkIdent st (m_abyPublicKey i) (m_nPublicKeyLen i) (m_dwIdentIP i)) c.

Definition GetCurrentIdentState (dwForIP : Z) (c : CClientCredits) : EIdentState :=
  match GetIdentState c with
  | IS_IDENTIFIED => if dwForIP =? m_dwIdentIP (m_ident c) then IS_IDENTIFIED else IS_IDBADGUY
  | st => st
  end.

(** The three states that lose their credits if they could prove their key. *)
Definition unproved (st : EIdentState) : bool :=
  match st with IS_IDFAILED | IS_IDBADGUY | IS_IDNEEDED => true | IS_NOTAVAILABLE | IS_IDENTIFIED => false end.

Definition with_traffic (up down : Z) (s : CreditStruct) : CreditStruct :=
  mkCredit (key s) up down (nLastSeen s) (nReserved3 s) (nKeySize s) (abySecureIdent s).

Definition AddDownloaded (bytes dwForIP : Z) (cryptoavail : bool) (c : CClientCredits) : CClientCredits :=
  if unproved (GetCurrentIdentState dwForIP c) && cryptoavail then c
  else set_struct (with_traffic (uploaded (m_pCredits c)) (u64 (downloaded (m_pCredits c) + bytes)) (m_pCredits c)) c.

Definition AddUploaded (bytes dwForIP : Z) (cryptoavail : bool) (c : CClientCredits) : CClientCredits :=
  if unproved (GetCurrentIdentState dwForIP c) && cryptoavail then c
  else set_struct (with_traffic (u64 (uploaded (m_pCredits c) + bytes)) (downloaded (m_pCredits c)) (m_pCredits c)) c.

(** ** The ratio of scores *)

Definition float_of (n : Z) : spec_float := binary_normalize 24 128 n 0 false.
Definition double_of (n : Z) : spec_float := binary_normalize 53 1024 n 0 false.

(** The conversion of a [double] to a [float]. *)
Definition to_float (x : spec_float) : spec_float :=
  match x with
  | S754_finite s m e => binary_normalize 24 128 (cond_Zopp s (Zpos m)) e s
  | x => x
  end.

Definition f_one : spec_float := float_of 1.
Definition f_two : spec_float := float_of 2.
Definition f_ten : spec_float := float_of 10.

Definition GetScoreRatio (dwForIP : Z) (cryptoavail : bool) (c : CClientCredits) : spec_float :=
  if unproved (GetCurrentIdentState dwForIP c) && cryptoavail then f_one
  else if GetDownloadedTotal c <? 1000000 then f_one
  else
    let result := if GetUploadedTotal c =? 0 then f_ten
                  else SFdiv 24 128 (SFmul 24 128 (float_of (GetDownloadedTotal c)) f_two) (float_of (GetUploadedTotal c)) in
    let result2 := to_float (SFsqrt 53 1024 (SFadd 53 1024 (SFdiv 53 1024 (double_of (GetDownloadedTotal c)) (double_of 1048576)) (double_of 2))) in
    let result := if SFltb result2 result then result2 else result in
    if SFltb result f_one then f_one
    else if SFltb f_ten result then f_ten
    else result.

(** ** The description, the key and the waiting time *)

Definition UpdateMeta (now : Z) (nm : list Z) (ip port kad ver : Z) (soft from obf : Z) (countSession : bool) (c : CClientCredits) : CClientCredits :=
  let m := m_meta c in
  SetMeta (mkMeta (match nm with [] => name m | _ => nm end)
    (if firstSeen m =? 0 then u32 now else firstSeen m)
    (if countSession then u32 (sessions m + 1) else sessions m)
    ip port kad ver soft from obf) c.

Definition SetLastSeen (now : Z) (c : CClientCredits) : CClientCredits :=
  let s := m_pCredits c in
  set_struct (mkCredit (key s) (uploaded s) (downloaded s) (u32 now) (nReserved3 s) (nKeySize s) (abySecureIdent s)) c.

Definition Verified (dwForIP : Z) (c : CClientCredits) : CClientCredits :=
  let i := m_ident c in
  let s := m_pCredits c in
  let s :=
    if nKeySize s =? 0 then
      let '(up, down) := if downloaded s >? 0 then (1, 1) else (uploaded s, downloaded s) in
      mkCredit (key s) up down (nLastSeen s) (nReserved3 s) (m_nPublicKeyLen i) (memcpy (abySecureIdent s) (m_abyPublicKey i) (m_nPublicKeyLen i))
    else s in
  set_struct s (set_ident (mkIdent IS_IDENTIFIED (m_abyPublicKey i) (m_nPublicKeyLen i) dwForIP) c).

Definition SetSecureIdent (pachIdent : list Z) (nIdentLen : Z) (c : CClientCredits) : bool * CClientCredits :=
  if (MAXPUBKEYSIZE <? nIdentLen) || negb (nKeySize (m_pCredits c) =? 0) then (false, c)
  else
    let i := m_ident c in
    (true, set_ident (mkIdent IS_IDNEEDED (memcpy (m_abyPublicKey i) pachIdent nIdentLen) nIdentLen (m_dwIdentIP i)) c).

Definition SetSecWaitStartTime (tick dwForIP : Z) (c : CClientCredits) : CClientCredits :=
  set_wait (mkWaiting (u64 (tick - 1)) (u64 (tick - 1)) dwForIP) c.

Definition ClearWaitStartTime (c : CClientCredits) : CClientCredits :=
  set_wait (mkWaiting 0 0 (m_dwWaitTimeIP (m_wait c))) c.

Definition GetSecureWaitStartTime (tick dwForIP : Z) (c : CClientCredits) : Z * CClientCredits :=
  let c := if (m_dwUnSecureWaitTime (m_wait c) =? 0) || (m_dwSecureWaitTime (m_wait c) =? 0) then SetSecWaitStartTime tick dwForIP c else c in
  let w := m_wait c in
  if negb (nKeySize (m_pCredits c) =? 0) then
    if decide (GetCurrentIdentState dwForIP c = IS_IDENTIFIED) then (m_dwSecureWaitTime w, c)
    else if dwForIP =? m_dwWaitTimeIP w then (m_dwUnSecureWaitTime w, c)
    else (tick, set_wait (mkWaiting (m_dwSecureWaitTime w) tick dwForIP) c)
  else (m_dwUnSecureWaitTime w, c).

(** ** What the operations promise *)

(** The ratio is kept between 1 and 10. *)
Lemma score_ratio_clamped ip crypto c : SFltb (GetScoreRatio ip crypto c) f_one = false /\ SFltb f_ten (GetScoreRatio ip crypto c) = false.
Proof.
  assert (SFltb f_one f_one = false /\ SFltb f_ten f_one = false) as H1 by (split; vm_compute; reflexivity).
  unfold GetScoreRatio. destruct (_ && _); [exact H1|]. destruct (_ <? 1000000); [exact H1|].
  cbv zeta. match goal with |- context [if SFltb ?x f_one then f_one else _] => generalize x end. intros r.
  destruct (SFltb r f_one) eqn:E1; [exact H1|]. destruct (SFltb f_ten r) eqn:E2; [|by rewrite E1, E2].
  split; vm_compute; reflexivity.
Qed.

(** A client with a key that has not proved it from this address neither sees nor moves the time of the
    one that has: it waits from its own first request. *)
Lemma secure_wait_protected tick ip c : nKeySize (m_pCredits c) <> 0 -> m_dwSecureWaitTime (m_wait c) <> 0 -> m_dwUnSecureWaitTime (m_wait c) <> 0 ->
  GetCurrentIdentState ip c <> IS_IDENTIFIED ->
  let '(t, c') := GetSecureWaitStartTime tick ip c in
  m_dwSecureWaitTime (m_wait c') = m_dwSecureWaitTime (m_wait c) /\
  t = (if ip =? m_dwWaitTimeIP (m_wait c) then m_dwUnSecureWaitTime (m_wait c) else tick).
Proof.
  intros Hk Hs Hu Hi. unfold GetSecureWaitStartTime. rewrite (proj2 (Z.eqb_neq (m_dwUnSecureWaitTime _) 0)), (proj2 (Z.eqb_neq (m_dwSecureWaitTime _) 0)) by done.
  simpl. rewrite (proj2 (Z.eqb_neq (nKeySize _) 0)) by done. simpl. rewrite decide_False by done. by destruct (ip =? _).
Qed.

(** The first proof of a key deletes the credits from before. *)
Lemma first_key_deletes_credits ip c : nKeySize (m_pCredits c) = 0 -> GetDownloadedTotal c > 0 ->
  GetDownloadedTotal (Verified ip c) = 1 /\ GetUploadedTotal (Verified ip c) = 1.
Proof. intros Hk Hd. unfold Verified, GetDownloadedTotal in *. rewrite Hk, Z.gtb_ltb, (proj2 (Z.ltb_lt _ _)) by lia. done. Qed.
