(* ===== verification/ClientCreditsList.v ===== *)
(** * The file of credits ([ClientCreditsList.{h,cpp}])

    The clients known from their traffic, by user hash, and the file [clients.met] they are kept in:
    records of 119 bytes, and behind them a trailer with descriptions that older programs never read.
    The handshake over a client's key is in [SecureIdent.v].

    The credits are shared by pointer with the clients; as no entry is ever removed while the program
    runs, the user hash stands for the pointer. *)
From S2P Require Import Prelude StdMap UInt128 DataIO MemFile ClientCredits.

(** [CMD4Hash::operator<] *)
Fixpoint hash_ltb (a b : list Z) : bool :=
  match a, b with
  | [], [] => false
  | [], _ => true
  | _, [] => false
  | x :: a, y :: b => if x <? y then true else if y <? x then false else hash_ltb a b
  end.

#[export] Program Instance hash_KeyOrder : KeyOrder (list Z) := {| kltb := hash_ltb |}.
Next Obligation. intros a. induction a as [|x a IH]; simpl; [done|]. by rewrite Z.ltb_irrefl. Qed.
Next Obligation.
  intros a. induction a as [|x a IH]; intros [|y b] [|z c]; simpl; try done.
  destruct (Z.ltb_spec x y), (Z.ltb_spec y z), (Z.ltb_spec x z), (Z.ltb_spec y x), (Z.ltb_spec z y), (Z.ltb_spec z x); try lia; try done. eauto.
Qed.
Next Obligation.
  intros a. induction a as [|x a IH]; intros [|y b]; simpl; try done.
  destruct (Z.ltb_spec x y), (Z.ltb_spec y x); try lia; try done. intros. f_equal; [lia|by apply IH].
Qed.

Abbreviation ClientMap := (list (list Z * CClientCredits)) (only parsing).

Definition CREDITFILE_VERSION : Z := 0x12.

Definition kMetaMagic : list Z := [65; 77; 85; 76; 69; 77; 68; 49].
Definition kMetaVersion : Z := 1.
Definition kMetaMaxNameChars : nat := 64.

(** 150 days *)
Definition expired_before (now : Z) : Z := u32 (now - 12960000).

Definition has_traffic (c : CClientCredits) : bool := negb (GetUploadedTotal c =? 0) || negb (GetDownloadedTotal c =? 0).

Section Files.

Context {F : Type} {IOF : CFileDataIO F} {conv : wxConv}.

(** What the bytes of a key's buffer behind the key are. *)
Context (garbage : list Z).

#[local] Open Scope io_scope.

(** ** Saving *)

Definition write_record (s : CreditStruct) : IO F unit :=
  seq! WriteHash (key s) in
  seq! WriteUInt32 (u32 (uploaded s)) in
  seq! WriteUInt32 (u32 (downloaded s)) in
  seq! WriteUInt32 (nLastSeen s) in
  seq! WriteUInt32 (u32 (Z.shiftr (uploaded s) 32)) in
  seq! WriteUInt32 (u32 (Z.shiftr (downloaded s) 32)) in
  seq! WriteUInt16 (nReserved3 s) in
  seq! WriteUInt8 (nKeySize s) in
  Write (take (Z.to_nat MAXPUBKEYSIZE) (abySecureIdent s)).

Fixpoint write_records (m : ClientMap) (count : Z) : IO F Z :=
  match m with
  | [] => io_ret count
  | (_, c) :: m =>
      if has_traffic c then seq! write_record (m_pCredits c) in write_records m (u32 (count + 1))
      else write_records m count
  end.

Definition write_meta (c : CClientCredits) : IO F unit :=
  let meta := m_meta c in
  seq! WriteHash (GetKey c) in
  seq! WriteUInt32 (firstSeen meta) in
  seq! WriteUInt32 (sessions meta) in
  seq! WriteUInt32 (lastIP meta) in
  seq! WriteUInt16 (lastPort meta) in
  seq! WriteUInt16 (kadPort meta) in
  seq! WriteUInt32 (version meta) in
  seq! WriteUInt8 (clientSoft meta) in
  seq! WriteUInt8 (sourceFrom meta) in
  seq! WriteUInt8 (obfuscation meta) in
  WriteString (take kMetaMaxNameChars (name meta)) utf8strRaw 2.

Fixpoint write_metas (m : ClientMap) : IO F unit :=
  match m with
  | [] => io_ret tt
  | (_, c) :: m => if negb (HasMeta c) || negb (has_traffic c) then write_metas m else seq! write_meta c in write_metas m
  end.

(** [catch (const CIOFailureException &)] *)
Definition catch_failure (m : IO F unit) : IO F unit := fun f =>
  match m f with
  | (inl CIOFailureException, f) => (inr tt, f)
  | r => r
  end.

Fixpoint count_metas (m : ClientMap) (entries : Z) : Z :=
  match m with
  | [] => entries
  | (_, c) :: m => count_metas m (if HasMeta c && has_traffic c then u32 (entries + 1) else entries)
  end.

Definition SaveMetaTrailer (m : ClientMap) : IO F unit :=
  let entries := count_metas m 0 in
  if entries =? 0 then io_ret tt
  else
    catch_failure (
      seq! Write kMetaMagic in
      seq! WriteUInt8 kMetaVersion in
      seq! WriteUInt32 entries in
      write_metas m).

(** [SaveList], on the file it creates. *)
Definition SaveList (m : ClientMap) : IO F unit :=
  catch_failure (
    seq! WriteUInt8 CREDITFILE_VERSION in
    seq! WriteUInt32 0 in
    let! count := write_records m 0 in
    seq! Seek 1 wxFromStart in
    seq! WriteUInt32 count in
    seq! Seek 0 wxFromEnd in
    SaveMetaTrailer m).

(** ** Loading *)

Definition read_record : IO F CreditStruct :=
  let! key := ReadHash in
  let! up := ReadUInt32 in
  let! down := ReadUInt32 in
  let! seen := ReadUInt32 in
  let! uphigh := ReadUInt32 in
  let! downhigh := ReadUInt32 in
  let! reserved := ReadUInt16 in
  let! size := ReadUInt8 in
  let! ident := Read MAXPUBKEYSIZE in
  io_ret (mkCredit key (u64 (up + Z.shiftl uphigh 32)) (u64 (down + Z.shiftl downhigh 32)) seen reserved size ident).

(** The loop over the records; [inr false] is a corrupt one, after which nothing is kept. *)
Fixpoint load_records (n : nat) (dwExpired : Z) (m : ClientMap) (f : F) : (exn + bool) * ClientMap * F :=
  match n with
  | O => (inr true, m, f)
  | S n =>
      match read_record f with
      | (inl e, f) => (inl e, m, f)
      | (inr newcstruct, f) =>
          if nKeySize newcstruct >? MAXPUBKEYSIZE then (inr false, [], f)
          else if nLastSeen newcstruct <? dwExpired then load_records n dwExpired m f
          else
            let newcredits := CClientCredits_load garbage newcstruct in
            load_records n dwExpired (mset (GetKey newcredits) newcredits m) f
      end
  end.

Definition read_meta : IO F (list Z * ClientMetaStruct) :=
  let! key := ReadHash in
  let! first := ReadUInt32 in
  let! sess := ReadUInt32 in
  let! ip := ReadUInt32 in
  let! port := ReadUInt16 in
  let! kad := ReadUInt16 in
  let! ver := ReadUInt32 in
  let! soft := ReadUInt8 in
  let! from := ReadUInt8 in
  let! obf := ReadUInt8 in
  let! nm := ReadString true 2 false in
  io_ret (key, mkMeta nm first sess ip port kad ver soft from obf).

Definition restore_meta (key : list Z) (meta : ClientMetaStruct) (m : ClientMap) : ClientMap :=
  match mfind key m with
  | Some c => mset key (SetMeta meta c) m
  | None => m
  end.

Fixpoint load_metas (entries : nat) (m : ClientMap) (f : F) : (exn + unit) * ClientMap * F :=
  match entries with
  | O => (inr tt, m, f)
  | S entries =>
      match read_meta f with
      | (inl e, f) => (inl e, m, f)
      | (inr (key, meta), f) => load_metas entries (restore_meta key meta m) f
      end
  end.

(** The header of the trailer: how many descriptions follow. *)
Definition read_trailer_header : IO F (option Z) :=
  let! magic := Read 8 in
  if negb (bool_decide (magic = kMetaMagic)) then io_ret None
  else
    let! version := ReadUInt8 in
    if negb (version =? kMetaVersion) then io_ret None
    else let! entries := ReadUInt32 in io_ret (Some entries).

(** [catch (const CSafeIOException &)] *)
Definition catch_safe {A} (r : (exn + A) * ClientMap * F) : (exn + unit) * ClientMap * F :=
  match r with
  | (inl CEOFException, m, f) | (inl CIOFailureException, m, f) => (inr tt, m, f)
  | (inl e, m, f) => (inl e, m, f)
  | (inr _, m, f) => (inr tt, m, f)
  end.

Definition LoadMetaTrailer (m : ClientMap) (f : F) : (exn + unit) * ClientMap * F :=
  let remaining := u64 (GetLength f - GetPosition f) in
  if remaining <? 8 + 1 + 4 then (inr tt, m, f)
  else
    catch_safe
      match read_trailer_header f with
      | (inl e, f) => (inl e, m, f)
      | (inr None, f) => (inr tt, m, f)
      | (inr (Some entries), f) => load_metas (Z.to_nat entries) m f
      end.

(** After the count. *)
Definition load_body (now count : Z) (m : ClientMap) (f : F) : (exn + unit) * ClientMap * F :=
  match load_records (Z.to_nat count) (expired_before now) m f with
  | (inl e, m, f) => (inl e, m, f)
  | (inr false, m, f) => (inr tt, m, f)
  | (inr true, m, f) => LoadMetaTrailer m f
  end.

(** [LoadList], on the opened file.  [bakLength] is the length of the backup file if there is one;
    [reopen] opens the file again after the backup was made. *)
Definition LoadList (now : Z) (bakLength : option Z) (reopen : F -> option F) (m : ClientMap) (f : F) : (exn + unit) * ClientMap * F :=
  catch_safe
    match ReadUInt8 f with
    | (inl e, f) => (inl e, m, f)
    | (inr v, f) =>
        if negb (v =? CREDITFILE_VERSION) then (inr tt, m, f)
        else
          let bCreateBackup := match bakLength with Some n => negb (n >? GetLength f) | None => true end in
          match (if bCreateBackup then match reopen f with Some f => Some ((seq! Seek 1 wxFromStart in io_ret tt) f) | None => None end
                 else Some (inr tt, f)) with
          | None => (inr tt, m, f)
          | Some (inl e, f) => (inl e, m, f)
          | Some (inr _, f) =>
              match ReadUInt32 f with
              | (inl e, f) => (inl e, m, f)
              | (inr count, f) => load_body now count m f
              end
          end
    end.

End Files.

(** ** The list *)

(** [GetCredit]: the credits and the changed list. *)
Definition GetCredit (tick now : Z) (key : list Z) (m : ClientMap) : CClientCredits * ClientMap :=
  let result := match mfind key m with Some c => c | None => CClientCredits_new tick key end in
  let result := SetLastSeen now result in
  (result, mset key result m).

Definition GetAllCredits (m : ClientMap) : list CClientCredits := map snd m.

Definition GetCreditCount (m : ClientMap) : Z := Z.of_nat (length m).

(** [Process]: whether the list is saved. *)
Definition Process (tick m_nLastSaved : Z) : bool := u64 (tick - m_nLastSaved) >? 780000.

(** ** The external form *)

Record credit_ok (s : CreditStruct) : Prop := {
  co_key : hash_ok (key s);
  co_up : in_width 64 (uploaded s);
  co_down : in_width 64 (downloaded s);
  co_seen : in_width 32 (nLastSeen s);
  co_reserved : in_width 16 (nReserved3 s);
  co_size : 0 <= nKeySize s <= MAXPUBKEYSIZE;
  co_ident : Forall is_byte (abySecureIdent s) /\ length (abySecureIdent s) = 80%nat
}.

Definition bytes_record (s : CreditStruct) : list Z :=
  key s ++ poke_le 4 (u32 (uploaded s)) ++ poke_le 4 (u32 (downloaded s)) ++ poke_le 4 (nLastSeen s) ++
  poke_le 4 (u32 (Z.shiftr (uploaded s) 32)) ++ poke_le 4 (u32 (Z.shiftr (downloaded s) 32)) ++
  poke_le 2 (nReserved3 s) ++ poke_le 1 (nKeySize s) ++ abySecureIdent s.

Lemma bytes_record_length s : credit_ok s -> length (bytes_record s) = 119%nat.
Proof. intros [[_ H1] _ _ _ _ _ [_ H2]]. unfold bytes_record. rewrite !length_app, !poke_le_length. lia. Qed.

Lemma split_64 x : in_width 64 x -> u64 (u32 x + Z.shiftl (u32 (Z.shiftr x 32)) 32) = x.
Proof.
  intros Hx. rewrite Z.shiftr_div_pow2, Z.shiftl_mul_pow2 by lia. unfold wrap, in_width in *. norm_pow. lia.
Qed.

Section Codec.

Context {F : Type} {IOF : CFileDataIO F} {laws : FileLaws F} {conv : wxConv} {claws : wxConvLaws conv}.
Context (garbage : list Z).

#[local] Open Scope io_scope.

Lemma writes_record s : credit_ok s -> writes (write_record s) (bytes_record s) tt.
Proof.
  intros [H1 _ _ _ _ _ [H2 H3]]. unfold write_record, bytes_record. eapply writes_bind; [by apply writes_Hash|].
  do 7 (eapply writes_bind; [by apply writes_int|]). rewrite take_ge by (rewrite H3; done). apply writes_Write; [done|rewrite H3; done].
Qed.

Lemma parses_record s : credit_ok s -> parses read_record (bytes_record s) s.
Proof.
  intros [H1 H2 H3 H4 H5 H6 [_ H7]]. unfold read_record, bytes_record. eapply parses_bind; [by apply parses_Hash|].
  do 5 (eapply parses_bind; [apply parses_UInt32; first [done | by apply wrap_range]|]).
  eapply parses_bind; [by apply parses_UInt16|]. eapply parses_bind; [apply parses_UInt8; unfold MAXPUBKEYSIZE in H6; width_lia|].
  rewrite <- (app_nil_r (abySecureIdent s)). eapply parses_bind.
  - replace MAXPUBKEYSIZE with (Z.of_nat (length (abySecureIdent s))) by (rewrite H7; done). apply parses_Read. rewrite H7. done.
  - rewrite !split_64 by done. destruct s. apply parses_ret.
Qed.

Lemma yields_record : yields read_record (fun s => nKeySize s <= MAXPUBKEYSIZE -> credit_ok s) eof.
Proof.
  unfold read_record. eapply yields_bind; [apply yields_Hash|]. intros k Hk.
  do 5 (eapply yields_bind; [apply yields_UInt32|]; intros ? ?).
  eapply yields_bind; [apply yields_UInt16|]. intros ? ?. eapply yields_bind; [apply yields_UInt8|]. intros ? ?.
  eapply yields_bind; [by apply yields_Read|]. intros i [Hi Hl]. apply yields_ret. intros Hs. simpl in Hs.
  constructor; simpl; try done; try (by apply wrap_range); [unfold in_width in *; lia|]. split; [done|]. unfold MAXPUBKEYSIZE in Hl. lia.
Qed.

(** *** Descriptions *)

(** The name as it is stored. *)
Definition name_bytes (m : ClientMetaStruct) : list Z := default [] (utf8_str (take kMetaMaxNameChars (name m))).

Record meta_ok (m : ClientMetaStruct) : Prop := {
  mo_name : text_ok utf8strRaw true (take kMetaMaxNameChars (name m)) (name_bytes m);
  mo_first : in_width 32 (firstSeen m);
  mo_sessions : in_width 32 (sessions m);
  mo_ip : in_width 32 (lastIP m);
  mo_port : in_width 16 (lastPort m);
  mo_kad : in_width 16 (kadPort m);
  mo_version : in_width 32 (version m);
  mo_soft : in_width 8 (clientSoft m);
  mo_from : in_width 8 (sourceFrom m);
  mo_obf : in_width 8 (obfuscation m)
}.

Definition bytes_meta (c : CClientCredits) : list Z :=
  let m := m_meta c in
  GetKey c ++ poke_le 4 (firstSeen m) ++ poke_le 4 (sessions m) ++ poke_le 4 (lastIP m) ++ poke_le 2 (lastPort m) ++
  poke_le 2 (kadPort m) ++ poke_le 4 (version m) ++ poke_le 1 (clientSoft m) ++ poke_le 1 (sourceFrom m) ++
  poke_le 1 (obfuscation m) ++ (poke_le 2 (Z.of_nat (length (name_bytes m))) ++ name_bytes m).

(** What is left of a description. *)
Definition cut_name (m : ClientMetaStruct) : ClientMetaStruct :=
  mkMeta (take kMetaMaxNameChars (name m)) (firstSeen m) (sessions m) (lastIP m) (lastPort m) (kadPort m) (version m)
    (clientSoft m) (sourceFrom m) (obfuscation m).

Lemma writes_meta c : hash_ok (GetKey c) -> meta_ok (m_meta c) -> writes (write_meta c) (bytes_meta c) tt.
Proof.
  intros Hk [H1 _ _ _ _ _ _ _ _ _]. unfold write_meta, bytes_meta. eapply writes_bind; [by apply writes_Hash|].
  do 9 (eapply writes_bind; [by apply writes_int|]). by apply (writes_String utf8strRaw true _ _ 2 ltac:(lia)).
Qed.

Lemma parses_meta c : hash_ok (GetKey c) -> meta_ok (m_meta c) -> parses read_meta (bytes_meta c) (GetKey c, cut_name (m_meta c)).
Proof.
  intros Hk [H1 H2 H3 H4 H5 H6 H7 H8 H9 H10]. unfold read_meta, bytes_meta. eapply parses_bind; [by apply parses_Hash|].
  do 3 (eapply parses_bind; [by apply parses_UInt32|]). do 2 (eapply parses_bind; [by apply parses_UInt16|]).
  eapply parses_bind; [by apply parses_UInt32|]. do 3 (eapply parses_bind; [by apply parses_UInt8|]).
  rewrite <- (app_nil_r (poke_le 2 _ ++ _)). eapply parses_bind.
  - apply (parses_String true false 2 _ ltac:(lia)). by destruct H1 as (_ & ? & _).
  - rewrite (text_ok_decode _ _ _ _ H1). apply parses_ret.
Qed.

Lemma yields_meta : yields read_meta (fun _ => True) eof.
Proof.
  unfold read_meta. eapply yields_bind; [apply yields_Hash|]. intros k Hk.
  do 3 (eapply yields_bind; [apply yields_UInt32|]; intros ? ?). do 2 (eapply yields_bind; [apply yields_UInt16|]; intros ? ?).
  eapply yields_bind; [apply yields_UInt32|]. intros ? ?. do 3 (eapply yields_bind; [apply yields_UInt8|]; intros ? ?).
  eapply yields_bind; [apply yields_String|]. intros ? ?. by apply yields_ret.
Qed.

End Codec.

(** ** The lists that are written *)

Abbreviation Entry := (list Z * CClientCredits)%type (only parsing).

Definition saved (m : ClientMap) : ClientMap := List.filter (fun e => has_traffic e.2) m.

Definition described (m : ClientMap) : ClientMap := List.filter (fun e => HasMeta e.2 && has_traffic e.2) m.

Definition record_bytes (l : list CreditStruct) : list Z := concat (map bytes_record l).

Definition records_of (m : ClientMap) : list CreditStruct := map (fun e => m_pCredits e.2) m.

Section Lists.

Context {conv : wxConv}.

(** What is required of an entry; its description only counts if there is one. *)
Definition entry_ok (e : Entry) : Prop :=
  e.1 = GetKey e.2 /\ credit_ok (m_pCredits e.2) /\ (HasMeta e.2 = true -> meta_ok (m_meta e.2)).

Definition meta_bytes (m : ClientMap) : list Z := concat (map (fun e => bytes_meta e.2) m).

Definition trailer (m : ClientMap) : list Z :=
  match described m with
  | [] => []
  | d => kMetaMagic ++ poke_le 1 kMetaVersion ++ poke_le 4 (Z.of_nat (length d)) ++ meta_bytes d
  end.

Definition file_bytes (m : ClientMap) : list Z :=
  poke_le 1 CREDITFILE_VERSION ++ poke_le 4 (Z.of_nat (length (saved m))) ++ record_bytes (records_of (saved m)) ++ trailer m.

End Lists.

Lemma filter_length_le {A} (p : A -> bool) l : (length (List.filter p l) <= length l)%nat.
Proof. induction l as [|x l IH]; simpl; [done|]. destruct (p x); simpl; lia. Qed.

Lemma Forall_filter {A} (p : A -> bool) (P : A -> Prop) l : Forall P l -> Forall P (List.filter p l).
Proof. induction 1 as [|x l Hx _ IH]; simpl; [done|]. destruct (p x); [by constructor|done]. Qed.

Section Saving.

Context {F : Type} {IOF : CFileDataIO F} {laws : FileLaws F} {conv : wxConv} {claws : wxConvLaws conv}.

#[local] Open Scope io_scope.

Lemma bind_run {A B} (m : IO F A) (k : A -> IO F B) f x f' : m f = (inr x, f') -> io_bind m k f = k x f'.
Proof. unfold io_bind. by intros ->. Qed.

Lemma catch_failure_run (m : IO F unit) f f' : m f = (inr tt, f') -> catch_failure m f = (inr tt, f').
Proof. unfold catch_failure. by intros ->. Qed.

Lemma writes_catch (m : IO F unit) bs : writes m bs tt -> writes (catch_failure m) bs tt.
Proof.
  intros Hm f Hf Hp Hr. destruct (Hm f Hf Hp Hr) as (f' & E & H). exists f'. split; [by apply catch_failure_run|done].
Qed.

Lemma writes_records m : Forall entry_ok m -> forall count, 0 <= count -> count + Z.of_nat (length m) < 2 ^ 32 ->
  writes (write_records m count) (record_bytes (records_of (saved m))) (count + Z.of_nat (length (saved m))).
Proof.
  induction 1 as [|[k c] m [_ [Hc _]] _ IH]; intros count Hn Hlt.
  - simpl. change (Z.of_nat 0) with 0. rewrite Z.add_0_r. apply writes_ret.
  - cbn [length] in Hlt. simpl. destruct (has_traffic c); [|apply IH; lia].
    unfold records_of, record_bytes. cbn [map concat length]. eapply writes_bind; [by apply writes_record|].
    rewrite wrap_small by width_lia. replace (count + Z.of_nat (S (length (saved m)))) with (count + 1 + Z.of_nat (length (saved m))) by lia.
    apply IH; lia.
Qed.

Lemma writes_metas m : Forall entry_ok m -> writes (write_metas m) (meta_bytes (described m)) tt.
Proof.
  induction 1 as [|[k c] m (Hk & Hc & Hm) _ IH]; [apply writes_ret|]. simpl. simpl in Hm.
  rewrite <- negb_andb. destruct (HasMeta c && has_traffic c) eqn:E; simpl; [|done].
  apply andb_true_iff in E as [E _]. unfold meta_bytes. simpl. eapply writes_bind; [|done].
  apply writes_meta; [apply Hc|by apply Hm].
Qed.

Lemma count_metas_spec m : forall n, 0 <= n -> n + Z.of_nat (length m) < 2 ^ 32 -> count_metas m n = n + Z.of_nat (length (described m)).
Proof.
  induction m as [|[k c] m IH]; intros n Hn Hlt; cbn [length] in Hlt; simpl; [lia|].
  destruct (_ && _); [|apply IH; lia]. rewrite wrap_small by width_lia. rewrite IH by lia. cbn [length]. lia.
Qed.

Lemma writes_trailer m : Forall entry_ok m -> Z.of_nat (length m) < 2 ^ 32 -> writes (SaveMetaTrailer m) (trailer m) tt.
Proof.
  intros Hm Hlt. unfold SaveMetaTrailer, trailer. rewrite count_metas_spec by lia. rewrite Z.add_0_l.
  pose proof (writes_metas m Hm) as HW. destruct (described m) as [|e d]; [apply writes_ret|].
  rewrite (proj2 (Z.eqb_neq _ _)) by (cbn [length]; lia). apply writes_catch.
  eapply writes_bind; [apply writes_Write; [by repeat constructor|done]|]. do 2 (eapply writes_bind; [by apply writes_int|]). exact HW.
Qed.

(** Overwriting inside the file, and going on at its end. *)
Lemma splice_inside {A} (a b b' c : list A) : length b = length b' -> splice (a ++ b ++ c) (Z.of_nat (length a)) b' = a ++ b' ++ c.
Proof.
  intros Hl. unfold splice. rewrite Nat2Z.id, take_app_length, <- Hl, <- length_app, (app_assoc a b c). by rewrite drop_app_length.
Qed.

Lemma splice_at_end {A} (a b : list A) : splice a (Z.of_nat (length a)) b = a ++ b.
Proof. unfold splice. rewrite Nat2Z.id, take_ge, drop_ge by lia. by rewrite app_nil_r. Qed.

Lemma seek_run from offset p f : 0 <= p < 2 ^ 62 -> file_ok f ->
  match from with wxFromStart => offset | wxFromCurrent => GetPosition f + offset | wxFromEnd => GetLength f + offset end = p ->
  exists f', Seek offset from f = (inr p, f') /\ file_ok f' /\ content f' = content f /\ GetPosition f' = p /\
    forall n m, room f n -> 0 <= m -> p + m <= GetPosition f + n -> room f' m.
Proof.
  intros Hp Hf Eq. destruct (law_seek p f Hf) as (f' & E & H); [lia|]. exists f'. split; [|done].
  unfold Seek. rewrite Eq. assert (swrap 64 p = p) as ->.
  { unfold swrap. change (64 - 1) with 63. rewrite Z.mod_small; norm_pow; lia. }
  rewrite (proj2 (Z.geb_le p 0)) by lia. unfold io_bind. by rewrite E, (proj2 (Z.geb_le p 0)), Z.eqb_refl by lia.
Qed.

(** A writer at the end of the file appends. *)
Lemma append_run {A} (w : IO F A) bs x f r : writes w bs x -> file_ok f -> GetPosition f = GetLength f -> 0 <= r ->
  room f (Z.of_nat (length bs) + r) ->
  exists f', w f = (inr x, f') /\ file_ok f' /\ content f' = content f ++ bs /\ GetPosition f' = GetLength f' /\ room f' r.
Proof.
  intros Hw Hf Hp Hr Hroom. destruct (Hw f Hf ltac:(lia)) as (f' & E & O & C & P & R); [eapply law_room; [done|exact Hroom|lia]|].
  destruct (law_content f Hf) as [_ HL]. destruct (law_content f' O) as [_ HL']. rewrite Hp, HL, splice_at_end in C.
  exists f'. split_and!; [done|done|done| |by apply R]. rewrite P, HL', C, length_app. lia.
Qed.

Lemma SaveList_spec m f : Forall entry_ok m -> Z.of_nat (length m) < 2 ^ 32 -> file_ok f -> content f = [] -> GetPosition f = 0 ->
  room f (Z.of_nat (length (file_bytes m))) ->
  exists f', SaveList m f = (inr tt, f') /\ file_ok f' /\ content f' = file_bytes m.
Proof.
  intros Hm Hlt Hf Hc Hp Hroom. destruct (law_content f Hf) as [_ HL]. rewrite Hc in HL. simpl in HL.
  set (n := Z.of_nat (length (saved m))). unfold file_bytes in Hroom. rewrite !length_app, !poke_le_length in Hroom.
  set (recs := record_bytes (records_of (saved m))) in *. set (tr := trailer m) in *.
  destruct (append_run (WriteUInt8 CREDITFILE_VERSION) (poke_le 1 CREDITFILE_VERSION) tt f (4 + Z.of_nat (length recs) + Z.of_nat (length tr)))
    as (f1 & E1 & O1 & C1 & P1 & R1); [by apply writes_int|done|lia|lia|rewrite poke_le_length; eapply law_room; [done|exact Hroom|lia]|].
  destruct (append_run (WriteUInt32 0) (poke_le 4 0) tt f1 (Z.of_nat (length recs) + Z.of_nat (length tr)))
    as (f2 & E2 & O2 & C2 & P2 & R2); [by apply writes_int|done|done|lia|rewrite poke_le_length; eapply law_room; [done|exact R1|lia]|].
  destruct (append_run (write_records m 0) recs n f2 (Z.of_nat (length tr)))
    as (f3 & E3 & O3 & C3 & P3 & R3); [by apply writes_records|done|done|lia|exact R2|].
  rewrite C2, C1, Hc, app_nil_l in C3. destruct (law_content f3 O3) as [_ HL3]. rewrite C3 in HL3. rewrite !length_app, !poke_le_length in HL3.
  destruct (seek_run wxFromStart 1 1 f3 ltac:(lia) O3 eq_refl) as (f4 & E4 & O4 & C4 & P4 & R4).
  destruct (law_content f4 O4) as [_ HL4]. rewrite C4, C3 in HL4. rewrite !length_app, !poke_le_length in HL4.
  assert (room f4 (4 + (Z.of_nat (length recs) + Z.of_nat (length tr)))) as Hr4 by (apply (R4 _ _ R3); lia).
  assert (writes (WriteUInt32 n) (poke_le 4 n) tt) as W5 by by apply writes_int.
  destruct (W5 f4 O4 ltac:(lia)) as (f5 & E5 & O5 & C5 & P5 & R5); [eapply law_room; [done|exact Hr4|rewrite poke_le_length; lia]|].
  rewrite poke_le_length in P5, R5. specialize (R5 (Z.of_nat (length recs) + Z.of_nat (length tr)) ltac:(lia) Hr4). rewrite P4, C4, C3, <- app_assoc in C5.
  change 1 with (Z.of_nat (length (poke_le 1 CREDITFILE_VERSION))) in C5. rewrite splice_inside in C5 by done.
  destruct (law_content f5 O5) as [_ HL5]. rewrite C5 in HL5. rewrite !length_app, !poke_le_length in HL5.
  assert (0 <= GetLength f5) as H0 by (clear -HL5; lia).
  destruct (seek_run wxFromEnd 0 (GetLength f5) f5 (conj H0 (proj2 (law_position f5 O5))) O5 (Z.add_0_r _)) as (f6 & E6 & O6 & C6 & P6 & R6).
  destruct (append_run (SaveMetaTrailer m) tr tt f6 0) as (f7 & E7 & O7 & C7 & _);
    [by apply writes_trailer|done|rewrite (length_kept f5 f6 O5 O6 C6); exact P6|lia|apply (R6 _ _ R5); lia|].
  exists f7. split; [|split; [done|]].
  - apply catch_failure_run. rewrite (bind_run _ _ _ _ _ E1), (bind_run _ _ _ _ _ E2), (bind_run _ _ _ _ _ E3), (bind_run _ _ _ _ _ E4),
      (bind_run _ _ _ _ _ E5), (bind_run _ _ _ _ _ E6). exact E7.
  - rewrite C7, C6, C5. unfold file_bytes. by rewrite <- !app_assoc.
Qed.

End Saving.

(** ** What is loaded *)

Section Loading.

Context (garbage : list Z).

Definition insert_record (dwExpired : Z) (m : ClientMap) (s : CreditStruct) : ClientMap :=
  if nLastSeen s <? dwExpired then m else mset (key s) (CClientCredits_load garbage s) m.

Definition load_all (dwExpired : Z) (m : ClientMap) (l : list CreditStruct) : ClientMap := fold_left (insert_record dwExpired) l m.

(** What holds of every list that was loaded: ordered, filed by the hash, with a fresh state of
    identification. *)
Definition fresh_entry (e : Entry) : Prop :=
  e.1 = key (m_pCredits e.2) /\ credit_ok (m_pCredits e.2) /\ m_ident e.2 = InitalizeIdent garbage (m_pCredits e.2).

Definition fresh_map (m : ClientMap) : Prop := msorted m /\ Forall fresh_entry m.

Lemma fresh_insert m s : fresh_map m -> credit_ok s -> fresh_map (mset (key s) (CClientCredits_load garbage s) m).
Proof. intros [H1 H2] Hs. split; [by apply msorted_set|]. by apply mset_Forall. Qed.

Lemma fresh_load_all d l : forall m, fresh_map m -> Forall credit_ok l -> fresh_map (load_all d m l).
Proof.
  induction l as [|s l IH]; intros m Hm Hl; [done|]. apply Forall_cons in Hl as [Hs Hl]. simpl. apply IH; [|done].
  unfold insert_record. destruct (_ <? _); [done|by apply fresh_insert].
Qed.

(** Without the descriptions. *)
Definition forget (m : ClientMap) : ClientMap := map (fun e => (e.1, SetMeta ClientMetaStruct_new e.2)) m.

(** A description is put on the entry of its key. *)
Lemma mset_found_map {V} (k : list Z) (v c : V) m : msorted m -> mfind k m = Some c ->
  mset k v m = map (fun e => if decide (e.1 = k) then (k, v) else e) m.
Proof.
  induction m as [|[k1 v1] m IH]; simpl; intros Hs Hf; [done|]. apply msorted_cons in Hs as [Hs Hm].
  destruct (key_cases k k1) as [(E1 & E2)|[(E1 & E2)|(-> & E1 & E2)]]; simpl in *; rewrite ?E1, ?E2 in *.
  - done.
  - rewrite decide_False by (intros ->; pose proof (kltb_irrefl (K := list Z) k); simpl in *; congruence). f_equal. by apply IH.
  - rewrite decide_True by done. f_equal. assert (Forall (fun e => e.1 <> k1) m) as HF.
    { eapply Forall_impl; [exact Hm|]. intros e He <-. pose proof (kltb_irrefl (K := list Z) e.1). simpl in *. congruence. }
    clear -HF. induction HF as [|e m He _ IH]; simpl; [done|]. rewrite decide_False by done. by f_equal.
Qed.

Lemma restore_meta_map k meta m : msorted m ->
  restore_meta k meta m = map (fun e => if decide (e.1 = k) then (e.1, SetMeta meta e.2) else e) m.
Proof.
  intros Hs. unfold restore_meta. destruct (mfind k m) as [c|] eqn:E.
  - rewrite (mset_found_map k _ c m Hs E). apply map_ext_in. intros [k1 v1] Hin. simpl. destruct (decide (k1 = k)) as [->|]; [|done].
    apply list_elem_of_In in Hin. apply (mfind_In _ _ _ Hs) in Hin. congruence.
  - assert (forall e, e ∈ m -> e.1 <> k) as HF.
    { intros [k1 v1] Hin Hk. simpl in Hk. subst k1. apply (mfind_In _ _ _ Hs) in Hin. congruence. }
    clear -HF. induction m as [|e m IH]; simpl; [done|]. rewrite decide_False by (apply HF; left). f_equal. apply IH. intros e' He'. apply HF. by right.
Qed.

Lemma msorted_same_keys {V} (m m' : list (list Z * V)) : map fst m = map fst m' -> msorted m -> msorted m'.
Proof.
  revert m'. induction m as [|[k v] m IH]; intros [|[k' v'] m']; simpl; try done. intros [= -> E] Hs.
  apply msorted_cons in Hs as [H1 H2]. apply msorted_cons. split; [by apply IH|].
  clear -E H2. revert m' E. induction H2 as [|[a b] m Ha _ IH]; intros [|[a' b'] m']; simpl; try done. intros [= -> E]. constructor; [exact Ha|by apply IH].
Qed.

Lemma restore_meta_keys k meta m : msorted m -> map fst (restore_meta k meta m) = map fst m.
Proof.
  intros Hs. rewrite restore_meta_map by done. rewrite map_map. apply map_ext. intros e. by destruct (decide (e.1 = k)).
Qed.

Lemma restore_meta_forget k meta m : msorted m -> forget (restore_meta k meta m) = forget m.
Proof.
  intros Hs. rewrite restore_meta_map by done. unfold forget. rewrite map_map. apply map_ext. intros e. by destruct (decide (e.1 = k)).
Qed.

Lemma restore_meta_fresh k meta m : fresh_map m -> fresh_map (restore_meta k meta m).
Proof.
  intros [Hs Hm]. split; [apply (msorted_same_keys m); [by rewrite restore_meta_keys|done]|]. rewrite restore_meta_map by done.
  apply Forall_map. eapply Forall_impl; [exact Hm|]. intros [k1 c] H. simpl. destruct (decide (k1 = k)); [|done]. exact H.
Qed.

Context {F : Type} {IOF : CFileDataIO F} {laws : FileLaws F} {conv : wxConv} {claws : wxConvLaws conv}.

(** The records that are there are loaded. *)
Lemma load_records_spec d l : forall m f rest, Forall credit_ok l -> file_ok f -> GetPosition f <= GetLength f ->
  drop (Z.to_nat (GetPosition f)) (content f) = record_bytes l ++ rest ->
  exists f', load_records garbage (length l) d m f = (inr true, load_all d m l, f') /\ file_ok f' /\ content f' = content f /\
    GetPosition f' <= GetLength f' /\ drop (Z.to_nat (GetPosition f')) (content f') = rest.
Proof.
  induction l as [|s l IH]; intros m f rest Hl Hf Hp E; [by exists f|]. apply Forall_cons in Hl as [Hs Hl].
  unfold record_bytes in E. cbn [map concat] in E. rewrite <- app_assoc in E.
  destruct (parses_record s Hs f _ Hf Hp E) as (f1 & E1 & O1 & C1 & P1). destruct (parses_at f _ _ Hf Hp E) as [HL E'].
  destruct (IH (insert_record d m s) f1 rest Hl O1) as (f2 & E2 & O2 & C2 & P2 & D2);
    [rewrite (length_kept f f1 Hf O1 C1); lia|by rewrite P1, C1|].
  exists f2. split; [|split; [done|split; [by rewrite C2, C1|done]]]. cbn [length load_records]. rewrite E1.
  destruct Hs as [_ _ _ _ _ [_ Hsize] _]. rewrite Z.gtb_ltb, (proj2 (Z.ltb_ge _ _)) by lia.
  unfold load_all. simpl. change (fold_left (insert_record d) l (insert_record d m s)) with (load_all d (insert_record d m s) l).
  rewrite <- E2. unfold insert_record. by destruct (_ <? d).
Qed.

(** Whatever is there, the list stays well formed and only the end of the file is reported. *)
Lemma load_records_any d n : forall m f, fresh_map m -> file_ok f ->
  exists r m' f', load_records garbage n d m f = (r, m', f') /\ fresh_map m' /\ file_ok f' /\ (forall e, r = inl e -> e = CEOFException).
Proof.
  induction n as [|n IH]; intros m f Hm Hf; simpl; [by exists (inr true), m, f|].
  destruct (yields_record f Hf) as (f1 & O1 & _ & _ & [(s & -> & Hs)|(e & -> & He & _)]); [|exists (inl e), m, f1; split_and!; try done; by intros ? [= ->]].
  destruct (Z.gtb_spec (nKeySize s) MAXPUBKEYSIZE) as [|Hle]; [exists (inr false), [], f1; split_and!; try done; by split; constructor|].
  destruct (_ <? d); [by apply IH|]. apply IH; [|done]. apply fresh_insert; [done|]. by apply Hs.
Qed.

Lemma load_metas_any n : forall m f, fresh_map m -> file_ok f ->
  exists r m' f', load_metas n m f = (r, m', f') /\ fresh_map m' /\ forget m' = forget m /\ (forall e, r = inl e -> e = CEOFException).
Proof.
  induction n as [|n IH]; intros m f Hm Hf; simpl; [by exists (inr tt), m, f|].
  destruct (yields_meta f Hf) as (f1 & O1 & _ & _ & [([k meta] & -> & _)|(e & -> & He & _)]); [|exists (inl e), m, f1; split_and!; try done; by intros ? [= ->]].
  destruct (IH (restore_meta k meta m) f1 (restore_meta_fresh _ _ _ Hm) O1) as (r & m' & f' & E & H1 & H2 & H3).
  exists r, m', f'. split_and!; try done. rewrite H2. apply restore_meta_forget, Hm.
Qed.

Lemma yields_trailer_header : yields read_trailer_header (fun _ => True) eof.
Proof.
  unfold read_trailer_header. eapply yields_bind; [by apply yields_Read|]. intros magic _. destruct (negb _); [by apply yields_ret|].
  eapply yields_bind; [apply yields_UInt8|]. intros v _. destruct (negb _); [by apply yields_ret|].
  eapply yields_bind; [apply yields_UInt32|]. intros n _. by apply yields_ret.
Qed.

Lemma LoadMetaTrailer_any m f : fresh_map m -> file_ok f ->
  exists m' f', LoadMetaTrailer m f = (inr tt, m', f') /\ fresh_map m' /\ forget m' = forget m.
Proof.
  intros Hm Hf. unfold LoadMetaTrailer. destruct (_ <? _); [by exists m, f|].
  destruct (yields_trailer_header f Hf) as (f1 & O1 & _ & _ & [([n|] & -> & _)|(e & -> & -> & _)]); [|by exists m, f1|by exists m, f1].
  destruct (load_metas_any (Z.to_nat n) m f1 Hm O1) as (r & m' & f' & -> & H1 & H2 & H3).
  exists m', f'. destruct r as [e|[]]; [|done]. by rewrite (H3 e eq_refl).
Qed.

End Loading.

(** ** Reading back what was saved *)

Section Again.

Context (garbage : list Z).

(** What a session keeps of an entry. *)
Definition reload (e : Entry) : Entry :=
  (e.1, let c := CClientCredits_load garbage (m_pCredits e.2) in if HasMeta e.2 then SetMeta (cut_name (m_meta e.2)) c else c).

Lemma mset_last (k : list Z) (v : CClientCredits) m : Forall (fun e => kltb e.1 k = true) m -> mset k v m = m ++ [(k, v)].
Proof.
  induction 1 as [|[k1 v1] m H _ IH]; [done|]. cbn [mset app]. cbn [fst] in H. rewrite H, (kltb_asym _ _ H). by rewrite IH.
Qed.

Definition plain (e : Entry) : Entry := (e.1, CClientCredits_load garbage (m_pCredits e.2)).

Lemma load_all_again d m : forall acc, msorted (acc ++ map plain m) -> Forall (fun e => e.1 = GetKey e.2 /\ d <= nLastSeen (m_pCredits e.2)) m ->
  load_all garbage d acc (records_of m) = acc ++ map plain m.
Proof.
  induction m as [|[k c] m IH]; intros acc Hs Hm; simpl; [by rewrite app_nil_r|]. apply Forall_cons in Hm as [[Hk Hd] Hm]. simpl in Hk, Hd.
  assert (insert_record garbage d acc (m_pCredits c) = mset k (CClientCredits_load garbage (m_pCredits c)) acc) as ->
    by (unfold insert_record; rewrite (proj2 (Z.ltb_ge _ _)) by lia; by rewrite Hk).
  change (plain (k, c)) with (k, CClientCredits_load garbage (m_pCredits c)) in *. simpl in Hs.
  rewrite mset_last.
  - rewrite (IH (acc ++ [_])); [by rewrite <- app_assoc|by rewrite <- app_assoc|done].
  - apply msorted_app in Hs as (_ & _ & H). eapply Forall_impl; [exact H|]. intros e He. by apply Forall_cons in He as [? _].
Qed.

(** The descriptions, entry by entry. *)
Definition put_meta (k : list Z) (c : CClientCredits) (p : list Z * ClientMetaStruct) : CClientCredits :=
  if decide (k = p.1) then SetMeta p.2 c else c.

Definition put_metas (l : list (list Z * ClientMetaStruct)) (e : Entry) : Entry := (e.1, fold_left (put_meta e.1) l e.2).

Definition metas_of (m : ClientMap) : list (list Z * ClientMetaStruct) := map (fun e => (GetKey e.2, cut_name (m_meta e.2))) (described m).

Lemma put_metas_skip l k c : Forall (fun p => p.1 <> k) l -> fold_left (put_meta k) l c = c.
Proof. induction 1 as [|[k1 m1] l H _ IH]; [done|]. simpl. unfold put_meta at 2. rewrite decide_False by (simpl in *; congruence). done. Qed.

Lemma metas_of_keys m k : Forall (fun e => e.1 = GetKey e.2 /\ e.1 <> k) m -> Forall (fun p => p.1 <> k) (metas_of m).
Proof. intros H. unfold metas_of, described. apply Forall_map, Forall_filter. eapply Forall_impl; [exact H|]. intros e [E Hne]. simpl. congruence. Qed.

Lemma put_metas_reload m : msorted m -> Forall (fun e => e.1 = GetKey e.2) m ->
  Forall (fun e => has_traffic e.2 = true -> put_metas (metas_of m) (plain e) = reload e) m.
Proof.
  intros Hs Hk. apply Forall_forall. intros e He Ht. apply list_elem_of_split in He as (m1 & m2 & ->).
  apply Forall_app in Hk as [K1 [Ke K2]%Forall_cons]. apply msorted_app in Hs as (S1 & S2 & H1).
  destruct e as [k c]. apply msorted_cons in S2 as [S2 H2]. unfold put_metas, reload, metas_of, described. simpl.
  rewrite List.filter_app, map_app, fold_left_app. simpl in *. rewrite Ht, andb_true_r.
  pose proof (kltb_irrefl k) as Hirr. change (hash_ltb k k = false) in Hirr.
  rewrite (put_metas_skip (map _ (List.filter _ m1))).
  2:{ apply (metas_of_keys m1). rewrite Forall_forall in *. intros e He. split; [by apply K1|]. intros E. specialize (H1 e He).
      apply Forall_cons in H1 as [H1 _]. unfold klt in H1. simpl in H1. rewrite E in H1. congruence. }
  assert (Forall (fun p => p.1 <> k) (metas_of m2)) as HM2.
  { apply (metas_of_keys m2). rewrite Forall_forall in *. intros e He. split; [by apply K2|]. intros E. specialize (H2 e He). rewrite E in H2. congruence. }
  destruct (HasMeta c); simpl; [|by rewrite (put_metas_skip _ _ _ HM2)]. unfold put_meta at 2. simpl. rewrite decide_True by done.
  by rewrite (put_metas_skip _ _ _ HM2).
Qed.

Context {F : Type} {IOF : CFileDataIO F} {laws : FileLaws F} {conv : wxConv} {claws : wxConvLaws conv}.

Lemma load_metas_spec l : forall M f rest, Forall (fun e => hash_ok (GetKey e.2) /\ meta_ok (m_meta e.2)) l -> msorted M -> file_ok f ->
  GetPosition f <= GetLength f -> drop (Z.to_nat (GetPosition f)) (content f) = meta_bytes l ++ rest ->
  exists f', load_metas (length l) M f = (inr tt, map (put_metas (map (fun e => (GetKey e.2, cut_name (m_meta e.2))) l)) M, f').
Proof.
  induction l as [|e l IH]; intros M f rest Hl Hs Hf Hp E.
  - exists f. simpl. f_equal. f_equal. rewrite <- (map_id M) at 1. apply map_ext. by intros [].
  - apply Forall_cons in Hl as [[H1 H2] Hl]. unfold meta_bytes in E. cbn [map concat] in E. rewrite <- app_assoc in E.
    destruct (parses_meta e.2 H1 H2 f _ Hf Hp E) as (f1 & E1 & O1 & C1 & P1). destruct (parses_at f _ _ Hf Hp E) as [HL E'].
    assert (msorted (restore_meta (GetKey e.2) (cut_name (m_meta e.2)) M)) as Hs'
      by (apply (msorted_same_keys M); [by rewrite restore_meta_keys|done]).
    destruct (IH _ f1 rest Hl Hs' O1) as (f2 & E2); [rewrite (length_kept f f1 Hf O1 C1); lia|by rewrite P1, C1|].
    exists f2. cbn [length load_metas]. rewrite E1, E2. f_equal. f_equal. rewrite restore_meta_map, map_map by done.
    apply map_ext. intros [k c]. unfold put_metas. simpl. unfold put_meta at 3. simpl. destruct (decide (k = GetKey e.2)); done.
Qed.

Lemma parses_trailer_header n : in_width 32 n ->
  parses read_trailer_header (kMetaMagic ++ poke_le 1 kMetaVersion ++ poke_le 4 n) (Some n).
Proof.
  intros Hn. unfold read_trailer_header. eapply parses_bind; [by apply (parses_Read kMetaMagic)|]. rewrite bool_decide_true by done. simpl negb. cbv iota.
  eapply parses_bind; [by apply parses_UInt8|]. simpl negb. cbv iota. by apply (parses_map _ Some), parses_UInt32.
Qed.

Lemma LoadMetaTrailer_again m M f : Forall entry_ok m -> Z.of_nat (length m) < 2 ^ 32 -> msorted M -> file_ok f -> GetPosition f <= GetLength f ->
  drop (Z.to_nat (GetPosition f)) (content f) = trailer m ->
  exists f', LoadMetaTrailer M f = (inr tt, map (put_metas (metas_of m)) M, f').
Proof.
  intros Hm Hlt Hs Hf Hp E. unfold LoadMetaTrailer. pose proof (law_position f Hf) as HP. destruct (law_content f Hf) as [_ HL].
  rewrite wrap_small by width_lia. unfold trailer in *. unfold metas_of.
  assert (length (described m) <= length m)%nat as Hd by apply filter_length_le.
  assert (Forall (fun e => hash_ok (GetKey e.2) /\ meta_ok (m_meta e.2)) (described m)) as Hok.
  { apply Forall_forall. intros e He. apply list_elem_of_In, filter_In in He as [He Hb]. apply andb_true_iff in Hb as [Hb _].
    apply list_elem_of_In in He. rewrite Forall_forall in Hm. destruct (Hm e He) as (H1 & H2 & H3). split; [apply H2|by apply H3]. }
  destruct (described m) as [|e d].
  - apply (f_equal length) in E. rewrite length_drop in E. rewrite (proj2 (Z.ltb_lt _ _)) by (simpl in E; lia).
    exists f. simpl. rewrite (map_ext _ (fun x => x)) by (by intros []). by rewrite map_id.
  - set (D := e :: d) in *. set (n := Z.of_nat (length D)) in *. assert (in_width 32 n) as Hn by (subst n; width_lia).
    rewrite (app_assoc (poke_le 1 _)), (app_assoc kMetaMagic) in E.
    destruct (parses_trailer_header n Hn f _ Hf Hp E) as (f1 & E1 & O1 & C1 & P1). destruct (parses_at f _ _ Hf Hp E) as [HL1 E'].
    rewrite !length_app, !poke_le_length in HL1. change (length kMetaMagic) with 8%nat in HL1.
    assert (GetPosition f1 <= GetLength f1) as Hp1.
    { rewrite (length_kept f f1 Hf O1 C1), P1, !length_app, !poke_le_length. change (length kMetaMagic) with 8%nat. lia. }
    destruct (load_metas_spec D M f1 [] Hok Hs O1 Hp1) as (f2 & E2); [by rewrite P1, C1, app_nil_r|].
    exists f2. rewrite (proj2 (Z.ltb_ge _ _)) by lia. rewrite E1. subst n. rewrite Nat2Z.id, E2. done.
Qed.

End Again.

Section Properties.

Context (garbage : list Z).
Context {F : Type} {IOF : CFileDataIO F} {laws : FileLaws F} {conv : wxConv} {claws : wxConvLaws conv}.

(** Opening the file again gives the same bytes from the start. *)
Definition reopens (reopen : F -> option F) : Prop := forall f, file_ok f ->
  match reopen f with Some g => file_ok g /\ content g = content f /\ GetPosition g = 0 | None => False end.

Lemma LoadList_head now bak reopen m f count rest : reopens reopen -> file_ok f -> GetPosition f = 0 -> in_width 32 count ->
  content f = poke_le 1 CREDITFILE_VERSION ++ poke_le 4 count ++ rest ->
  exists f', LoadList garbage now bak reopen m f = catch_safe (load_body garbage now count m f') /\ file_ok f' /\
    GetPosition f' <= GetLength f' /\ drop (Z.to_nat (GetPosition f')) (content f') = rest.
Proof.
  intros Hre Hf Hp Hn E. destruct (law_content f Hf) as [_ HL]. rewrite E in HL. rewrite !length_app, !poke_le_length in HL.
  destruct (parses_UInt8 CREDITFILE_VERSION ltac:(done) f (poke_le 4 count ++ rest) Hf ltac:(lia)) as (f1 & E1 & O1 & C1 & P1); [by rewrite Hp, E|].
  rewrite Hp, poke_le_length in P1. change (0 + Z.of_nat 1) with 1 in P1.
  assert (exists f2, (if match bak with Some n => negb (n >? GetLength f1) | None => true end
      then match reopen f1 with Some f => Some (io_bind (Seek 1 wxFromStart) (fun _ => io_ret tt) f) | None => None end
      else Some (inr tt, f1)) = Some (inr tt, f2) /\ file_ok f2 /\ content f2 = content f /\ GetPosition f2 = 1) as (f2 & E2 & O2 & C2 & P2).
  { destruct (match bak with Some n => _ | None => true end); [|by exists f1]. specialize (Hre f1 O1). destruct (reopen f1) as [g|]; [|done].
    destruct Hre as (G1 & G2 & G3). destruct (seek_run wxFromStart 1 1 g ltac:(lia) G1 eq_refl) as (f2 & E2 & O2 & C2 & P2 & _).
    exists f2. rewrite (bind_run _ _ _ _ _ E2). by rewrite C2, G2, C1. }
  assert (GetPosition f2 <= GetLength f2) as Hp2 by (rewrite (length_kept f f2 Hf O2 C2), P2; lia).
  assert (drop (Z.to_nat (GetPosition f2)) (content f2) = poke_le 4 count ++ rest) as D2 by (rewrite P2, C2, E; done).
  destruct (parses_UInt32 count Hn f2 rest O2 Hp2 D2) as (f3 & E3 & O3 & C3 & P3). destruct (parses_at f2 _ _ O2 Hp2 D2) as [HL3 D3].
  exists f3. rewrite (length_kept f2 f3 O2 O3 C3), P3, C3. split; [|done]. unfold LoadList. rewrite E1. rewrite Z.eqb_refl. simpl negb. cbv iota zeta.
  unfold io_bind in E2. unfold io_bind. rewrite E2, E3. done.
Qed.

Lemma forget_load_all d l : forall m, forget m = m -> Forall (fun e => m_meta e.2 = ClientMetaStruct_new) m ->
  forget (load_all garbage d m l) = load_all garbage d m l.
Proof.
  induction l as [|s l IH]; intros m Hm Hf; [done|].
  change (load_all garbage d m (s :: l)) with (load_all garbage d (insert_record garbage d m s) l). unfold insert_record. destruct (_ <? d); [by apply IH|].
  assert (Forall (fun e => m_meta e.2 = ClientMetaStruct_new) (mset (key s) (CClientCredits_load garbage s) m)) as HF by by apply mset_Forall.
  apply IH; [|done]. unfold forget. rewrite <- (map_id (mset _ _ m)) at 2. apply map_ext_in. intros [k c] Hin. simpl. f_equal.
  apply list_elem_of_In in Hin. rewrite Forall_forall in HF. specialize (HF _ Hin). simpl in HF. destruct c. simpl in *. by rewrite HF.
Qed.

Lemma load_body_any now count m f : fresh_map garbage m -> file_ok f ->
  exists m' f', catch_safe (load_body garbage now count m f) = (inr tt, m', f') /\ fresh_map garbage m'.
Proof.
  intros Hm Hf. unfold load_body. destruct (load_records_any garbage (expired_before now) (Z.to_nat count) m f Hm Hf) as (r & m1 & f1 & -> & H1 & O1 & HE).
  destruct r as [e|[|]]; [rewrite (HE e eq_refl); by exists m1, f1| |by exists m1, f1].
  destruct (LoadMetaTrailer_any garbage m1 f1 H1 O1) as (m2 & f2 & -> & H2 & _). by exists m2, f2.
Qed.

Lemma LoadList_any now bak reopen f : (forall g g', file_ok g -> reopen g = Some g' -> file_ok g') -> file_ok f ->
  exists m' f', LoadList garbage now bak reopen [] f = (inr tt, m', f') /\ fresh_map garbage m'.
Proof.
  intros Hre Hf. assert (fresh_map garbage []) as Hnil by by split; constructor. unfold LoadList.
  destruct (yields_UInt8 f Hf) as (f1 & O1 & _ & _ & [(v & -> & _)|(e & -> & -> & _)]); [|by exists [], f1].
  destruct (negb (v =? _)); [by exists [], f1|]. cbv zeta.
  assert (forall g, file_ok g -> exists m' f', catch_safe (match ReadUInt32 g with (inl e, f) => (inl e, [], f)
    | (inr count, f) => load_body garbage now count [] f end) = (inr tt, m', f') /\ fresh_map garbage m') as Hgo.
  { intros g Hg. destruct (yields_UInt32 g Hg) as (g1 & O & _ & _ & [(n & -> & _)|(e & -> & -> & _)]); [|by exists [], g1]. by apply load_body_any. }
  destruct (match bak with Some n => _ | None => true end); [|by apply Hgo].
  destruct (reopen f1) as [g|] eqn:E; [|by exists [], f1]. specialize (Hre f1 g O1 E).
  destruct (seek_run wxFromStart 1 1 g ltac:(lia) Hre eq_refl) as (g1 & E1 & O2 & _). rewrite (bind_run _ _ _ _ _ E1). by apply Hgo.
Qed.

End Properties.

(** ** Properties *)

(** C17: What is saved is loaded again: every client with traffic comes back with its credits and key and its
    description, the name cut to 64 characters, in the same order; nobody else does, and everybody has to
    identify himself anew. *)
Theorem credits_file_roundtrip (F : Type) (IOF : CFileDataIO F) (laws : FileLaws F) (conv : wxConv) (claws : wxConvLaws conv)
  (garbage : list Z) (m : list (list Z * CClientCredits)) (f : F) (now : Z) (bak : option Z) (reopen : F -> option F) :
  msorted m -> Forall entry_ok m -> Z.of_nat (length m) < 2 ^ 32 ->
  Forall (fun e => expired_before now <= nLastSeen (m_pCredits e.2)) m ->
  file_ok f -> content f = [] -> GetPosition f = 0 -> room f (Z.of_nat (length (file_bytes m))) -> reopens reopen ->
  exists f', SaveList m f = (inr tt, f') /\ file_ok f' /\
    forall g, file_ok g -> content g = content f' -> GetPosition g = 0 ->
      exists g', LoadList garbage now bak reopen [] g = (inr tt, map (reload garbage) (saved m), g').
Proof.
  intros Hs Hm Hlt Hnow Hf Hc Hp Hroom Hre. destruct (SaveList_spec m f Hm Hlt Hf Hc Hp Hroom) as (f' & E & O & C).
  exists f'. split; [done|]. split; [done|]. intros g Og Cg Pg. rewrite C in Cg. unfold file_bytes in Cg.
  assert (length (saved m) <= length m)%nat as Hle by apply filter_length_le.
  assert (in_width 32 (Z.of_nat (length (saved m)))) as Hn by (clear -Hle Hlt; width_lia).
  destruct (LoadList_head garbage now bak reopen [] g _ _ Hre Og Pg Hn Cg) as (g1 & -> & O1 & P1 & D1).
  assert (Forall (fun e => e.1 = GetKey e.2) m) as Hk by (eapply Forall_impl; [exact Hm|]; by intros e (? & _)).
  assert (msorted (map (plain garbage) (saved m))) as HS.
  { apply (msorted_same_keys (saved m)); [by rewrite map_map|]. unfold saved. clear -Hs. induction m as [|[k c] m IH]; [done|].
    apply msorted_cons in Hs as [H1 H2]. simpl. destruct (has_traffic c); [|by apply IH]. apply msorted_cons. split; [by apply IH|by apply Forall_filter]. }
  unfold load_body. rewrite Nat2Z.id. replace (length (saved m)) with (length (records_of (saved m))) by apply length_map.
  destruct (load_records_spec garbage (expired_before now) (records_of (saved m)) [] g1 (trailer m)) as (g2 & -> & O2 & _ & P2 & D2);
    [apply Forall_map, Forall_filter; eapply Forall_impl; [exact Hm|]; by intros e (_ & ? & _)|done|done|exact D1|].
  rewrite (load_all_again garbage _ (saved m) [] HS).
  2:{ apply Forall_filter. apply Forall_forall. intros e He. rewrite Forall_forall in Hk, Hnow. auto. }
  destruct (LoadMetaTrailer_again m ([] ++ map (plain garbage) (saved m)) g2 Hm Hlt HS O2 P2 D2) as (g3 & ->).
  exists g3. simpl. f_equal. f_equal. rewrite map_map. apply map_ext_in. intros e He. apply filter_In in He as [He Ht].
  apply list_elem_of_In in He. pose proof (put_metas_reload garbage m Hs Hk) as HP. rewrite Forall_forall in HP. by apply HP.
Qed.

(** C18: Loading is safe whatever the file holds: it ends without an exception, what is kept are well-formed
    credits filed by their hash, and nobody is identified; when the file begins with intact records these
    are the credits, and no byte behind them changes more than a description. *)
Theorem credits_load_safe (F : Type) (IOF : CFileDataIO F) (laws : FileLaws F) (conv : wxConv) (claws : wxConvLaws conv)
  (garbage : list Z) (f : F) (now : Z) (bak : option Z) (reopen : F -> option F) :
  file_ok f -> GetPosition f = 0 -> reopens reopen ->
  exists m f', LoadList garbage now bak reopen [] f = (inr tt, m, f') /\ msorted m /\
    Forall (fun e => e.1 = GetKey e.2 /\ credit_ok (m_pCredits e.2) /\ GetIdentState e.2 <> IS_IDENTIFIED) m /\
    forall l rest, Forall credit_ok l -> Z.of_nat (length l) < 2 ^ 32 ->
      content f = poke_le 1 CREDITFILE_VERSION ++ poke_le 4 (Z.of_nat (length l)) ++ record_bytes l ++ rest ->
      forget m = load_all garbage (expired_before now) [] l.
Proof.
  intros Hf Hp Hre.
  destruct (LoadList_any garbage now bak reopen f) as (m & f' & E & Hs & Hm); [|done|].
  { intros g g' Hg Eg. specialize (Hre g Hg). rewrite Eg in Hre. apply Hre. }
  exists m, f'. split; [done|]. split; [done|]. split.
  - eapply Forall_impl; [exact Hm|]. intros e (H1 & H2 & H3). split_and!; [done|done|]. unfold GetIdentState. rewrite H3. unfold InitalizeIdent. by destruct (_ =? 0).
  - intros l rest Hl Hlt Hc. assert (in_width 32 (Z.of_nat (length l))) as Hn by (clear -Hlt; width_lia).
    destruct (LoadList_head garbage now bak reopen [] f _ _ Hre Hf Hp Hn Hc) as (f1 & E1 & O1 & P1 & D1).
    rewrite E1 in E. unfold load_body in E. rewrite Nat2Z.id in E.
    destruct (load_records_spec garbage (expired_before now) l [] f1 rest Hl O1 P1 D1) as (f2 & E2 & O2 & _). rewrite E2 in E.
    assert (fresh_map garbage (load_all garbage (expired_before now) [] l)) as Hfr by (apply fresh_load_all; [by split; constructor|done]).
    destruct (LoadMetaTrailer_any garbage _ f2 Hfr O2) as (m' & f3 & E3 & _ & HF). rewrite E3 in E. simpl in E. injection E as <- _.
    rewrite HF. by apply forget_load_all.
Qed.

(** *** Witnesses *)

(** A client with traffic, a key and a description, and one without. *)
Definition sample_credits : CClientCredits :=
  set_struct (mkCredit (replicate 16 1) 5 (2 ^ 40) 1700000000 0 2 ([7; 8] ++ replicate 78 0))
    (SetMeta (mkMeta [97; 98] 1600000000 3 16843009 4662 4672 70000 3 1 2) (CClientCredits_new 0 (replicate 16 1))).

Definition sample_list : list (list Z * CClientCredits) :=
  [(replicate 16 1, sample_credits); (replicate 16 2, SetLastSeen 1700000001 (CClientCredits_new 0 (replicate 16 2)))].

Lemma bytes_checked l : forallb (fun c => (0 <=? c) && (c <? 256)) l = true -> Forall is_byte l.
Proof. intros H. eapply Forall_impl; [by apply forallb_range|]. done. Qed.

Lemma sample_credit_entries : @Forall (list Z * CClientCredits) (entry_ok (conv := ascii_conv)) sample_list.
Proof.
  constructor; [|constructor; [|constructor]].
  - split; [done|]. split; [constructor; try done; (split; [by apply bytes_checked|done])|]. intros _. constructor; try done.
    split; [by do 2 (constructor; [done|])|by split_and!].
  - split; [done|]. split; [constructor; try done; (split; [by apply bytes_checked|done])|done].
Qed.

Lemma credits_file_roundtrip_witness :
  let IOF := CMemFile_IO calloc_4096 in
  exists f1 f2, SaveList (conv := ascii_conv) sample_list (CMemFile_new 1024) = (inr tt, f1) /\
    LoadList (conv := ascii_conv) [] 1700000002 None (fun f => Some (set_mem_position 0 f)) [] (set_mem_position 0 f1) =
      (inr tt, [reload [] (replicate 16 1, sample_credits)], f2).
Proof.
  intros IOF. set (laws := CMemFile_laws calloc_4096 4096 ltac:(done) calloc_ok).
  destruct (credits_file_roundtrip CMemFile IOF laws ascii_conv ascii_laws [] sample_list (CMemFile_new 1024) 1700000002 None
    (fun f => Some (set_mem_position 0 f))) as (f1 & E1 & O1 & H).
  - by repeat constructor.
  - apply sample_credit_entries.
  - done.
  - repeat constructor; vm_compute; congruence.
  - by split.
  - done.
  - done.
  - split; [done|right; split; [done|vm_compute; congruence]].
  - intros f Hf. split; [exact (mem_ok_position 0 f Hf (conj (Z.le_refl 0) eq_refl))|done].
  - destruct (H (set_mem_position 0 f1) (mem_ok_position 0 f1 O1 (conj (Z.le_refl 0) eq_refl)) eq_refl eq_refl) as (f2 & E2).
    exists f1, f2. split; [exact E1|exact E2].
Defined.

(** A file with a damaged trailer. *)
Definition damaged_file : CMemFile :=
  CMemFile_attach (poke_le 1 CREDITFILE_VERSION ++ poke_le 4 1 ++ record_bytes [m_pCredits sample_credits] ++ kMetaMagic ++ [1; 255; 255; 255; 255; 9]).

Lemma credits_load_safe_witness :
  let IOF := CMemFile_IO calloc_4096 in
  exists m f', LoadList (conv := ascii_conv) [] 1700000002 (Some 1000) (fun f => Some (set_mem_position 0 f)) [] damaged_file = (inr tt, m, f') /\
    forget m = [(replicate 16 1, CClientCredits_load [] (m_pCredits sample_credits))].
Proof.
  intros IOF. set (laws := CMemFile_laws calloc_4096 4096 ltac:(done) calloc_ok).
  assert (mem_ok damaged_file) as Hok by (split; try done; by apply bytes_checked).
  destruct (credits_load_safe CMemFile IOF laws ascii_conv ascii_laws [] damaged_file 1700000002 (Some 1000) (fun f => Some (set_mem_position 0 f)))
    as (m & f' & E & _ & _ & H).
  - exact Hok.
  - done.
  - intros f Hf. split; [exact (mem_ok_position 0 f Hf (conj (Z.le_refl 0) eq_refl))|done].
  - exists m, f'. split; [exact E|]. rewrite (H [m_pCredits sample_credits] (kMetaMagic ++ [1; 255; 255; 255; 255; 9])); [done| |done|].
    + constructor; [|constructor]. apply (Forall_inv sample_credit_entries).
    + vm_compute. reflexivity.
Defined.
