(* ===== verification/SecureIdent.v ===== *)
(** * Secure identification ([ClientCreditsList.cpp], [BaseClient.cpp], [ClientTCPSocket.cpp])

    Clients prove that a user hash is theirs by signing a challenge with the key that was stored for it.
    Each end may ask for a key and a signature ([OP_SECIDENTSTATE]), answers with its key ([OP_PUBLICKEY])
    and signs the other's key and challenge ([OP_SIGNATURE]).

    Signing and verifying are RSA of a library, and parameters here.  The credits of a hash are shared by
    all clients that claim it; packets are the bytes that are written. *)
From S2P Require Import Prelude StdMap UInt128 NetworkFunctions DataIO ClientCredits.

Definition CRYPT_CIP_REMOTECLIENT : Z := 10.
Definition CRYPT_CIP_LOCALCLIENT : Z := 20.
Definition CRYPT_CIP_NONECLIENT : Z := 30.

Definition OP_PUBLICKEY : Z := 0x85.
Definition OP_SIGNATURE : Z := 0x86.
Definition OP_SECIDENTSTATE : Z := 0x87.

Record Packet := mkPacket { opcode : Z; body : list Z }.

(** What the program knows of its own address. *)
Record Net := mkNet { GetPublicIP_ignorelocal : Z; GetPublicIP : Z; GetED2KID : Z }.

(** [ESecureIdentState]; [IS_ALLREQUESTSSEND] is 0, too. *)
Definition IS_UNAVAILABLE : Z := 0.
Definition IS_ALLREQUESTSSEND : Z := 0.
Definition IS_SIGNATURENEEDED : Z := 1.
Definition IS_KEYANDSIGNEEDED : Z := 2.

(** The part of a client that takes part. *)
Record CUpDownClient := mkClient {
  m_socket : bool;
  has_credits : bool;
  IsBanned : bool;
  m_bHelloAnswerPending : bool;
  GetIP : Z;
  m_bySupportSecIdent : Z;
  m_SecureIdentState : Z;
  m_dwLastSignatureIP : Z
}.

Definition set_state (st : Z) (c : CUpDownClient) : CUpDownClient :=
  mkClient (m_socket c) (has_credits c) (IsBanned c) (m_bHelloAnswerPending c) (GetIP c) (m_bySupportSecIdent c) st (m_dwLastSignatureIP c).
Definition set_last_signature (ip : Z) (c : CUpDownClient) : CUpDownClient :=
  mkClient (m_socket c) (has_credits c) (IsBanned c) (m_bHelloAnswerPending c) (GetIP c) (m_bySupportSecIdent c) (m_SecureIdentState c) ip.

Section Crypt.

Context {Key : Type} (SignMessage : Key -> list Z -> option (list Z)) (VerifyMessage : list Z -> list Z -> list Z -> option bool).

(** The list's own key. *)
Record Crypto := mkCrypto { m_abyMyPublicKey : list Z; m_nMyPublicKeyLen : Z; m_pSignkey : option Key }.

(** [loaded] is what the key file gives: the signer and its public key in external form, [None] for an
    exception. *)
Definition InitalizeCrypting (enabled : bool) (loaded : option (Key * list Z)) : Crypto :=
  let zero := replicate 80 0 in
  if negb enabled then mkCrypto zero 0 None
  else match loaded with
       | None => mkCrypto zero 0 None
       | Some (key, pub) => mkCrypto (memcpy zero (take 80 pub) (Z.min 80 (Z.of_nat (length pub)))) (u8 (Z.of_nat (length pub))) (Some key)
       end.

Definition CryptoAvailable (y : Crypto) : bool :=
  (m_nMyPublicKeyLen y >? 0) && match m_pSignkey y with Some _ => true | None => false end.

(** What follows the key in a message. *)
Definition challenge_bytes (challenge byChaIPKind ChallengeIP : Z) : list Z :=
  poke_le 4 challenge ++ (if byChaIPKind =? 0 then [] else poke_le 4 ChallengeIP ++ poke_le 1 byChaIPKind).

(** The length and the output buffer; an exception of the signer gives 0. *)
Definition CreateSignature (y : Crypto) (pTarget : CClientCredits) (nMaxSize ChallengeIP byChaIPKind : Z) : Z * list Z :=
  if negb (CryptoAvailable y) then (0, [])
  else match m_pSignkey y with
       | None => (0, [])
       | Some signer =>
           let keylen := GetSecIDKeyLen pTarget in
           let abyBuffer := take (Z.to_nat keylen) (GetSecureIdent pTarget) ++ challenge_bytes (m_dwCryptRndChallengeFrom pTarget) byChaIPKind ChallengeIP in
           match SignMessage signer abyBuffer with
           | Some sig => (u8 (Z.of_nat (length sig)), take (Z.to_nat nMaxSize) sig)
           | None => (0, [])
           end
       end.

(** The address that is signed by a client which does not know its own. *)
Definition remote_challenge_ip (n : Net) : Z :=
  if GetPublicIP_ignorelocal n =? 0 then if IsLowID (GetED2KID n) then GetPublicIP n else GetED2KID n
  else GetPublicIP n.

Definition challenge_ip (n : Net) (dwForIP byChaIPKind : Z) : Z :=
  if byChaIPKind =? CRYPT_CIP_LOCALCLIENT then dwForIP
  else if byChaIPKind =? CRYPT_CIP_REMOTECLIENT then remote_challenge_ip n
  else 0.

(** The message whose signature is expected. *)
Definition expected_message (y : Crypto) (n : Net) (challenge dwForIP byChaIPKind : Z) : list Z :=
  take (Z.to_nat (m_nMyPublicKeyLen y)) (m_abyMyPublicKey y) ++ challenge_bytes challenge byChaIPKind (challenge_ip n dwForIP byChaIPKind).

Definition VerifyIdent (y : Crypto) (n : Net) (pTarget : CClientCredits) (pachSignature : list Z) (dwForIP byChaIPKind : Z) : bool * CClientCredits :=
  if negb (CryptoAvailable y) then (false, SetIdentState IS_NOTAVAILABLE pTarget)
  else
    let pubkey := take (Z.to_nat (GetSecIDKeyLen pTarget)) (GetSecureIdent pTarget) in
    let bResult := default false (VerifyMessage pubkey (expected_message y n (m_dwCryptRndChallengeFor pTarget) dwForIP byChaIPKind) pachSignature) in
    (bResult,
     if bResult then Verified dwForIP pTarget
     else if decide (GetIdentState pTarget = IS_IDNEEDED) then SetIdentState IS_IDFAILED pTarget
     else pTarget).

(** ** The client's part *)

Definition SendPublicKeyPacket (y : Crypto) (c : CUpDownClient) : CUpDownClient * list Packet :=
  if negb (m_socket c) || negb (has_credits c) || negb (m_SecureIdentState c =? IS_KEYANDSIGNEEDED) then (c, [])
  else if negb (CryptoAvailable y) then (c, [])
  else
    (set_state IS_SIGNATURENEEDED c,
     [mkPacket OP_PUBLICKEY (poke_le 1 (m_nMyPublicKeyLen y) ++ take (Z.to_nat (m_nMyPublicKeyLen y)) (m_abyMyPublicKey y))]).

(** Version 2 is used if the other side supports nothing else. *)
Definition use_v2 (c : CUpDownClient) : bool := negb (Z.land (m_bySupportSecIdent c) 1 =? 1).

(** The kind and the address that are signed. *)
Definition signed_ip (n : Net) (c : CUpDownClient) : Z * Z :=
  if use_v2 c then
    if IsLowID (GetED2KID n) then (CRYPT_CIP_REMOTECLIENT, GetIP c) else (CRYPT_CIP_LOCALCLIENT, GetED2KID n)
  else (0, 0).

Definition SendSignaturePacket (y : Crypto) (n : Net) (cr : CClientCredits) (c : CUpDownClient) : CUpDownClient * list Packet :=
  if negb (m_socket c) || negb (has_credits c) || (m_SecureIdentState c =? 0) then (c, [])
  else if negb (CryptoAvailable y) then (c, [])
  else if GetSecIDKeyLen cr =? 0 then (c, [])
  else if m_dwCryptRndChallengeFrom cr =? 0 then (c, [])
  else
    let '(byChaIPKind, ChallengeIP) := signed_ip n c in
    let '(siglen, achBuffer) := CreateSignature y cr 250 ChallengeIP byChaIPKind in
    if siglen =? 0 then (c, [])
    else
      (set_state IS_ALLREQUESTSSEND c,
       [mkPacket OP_SIGNATURE (poke_le 1 siglen ++ take (Z.to_nat siglen) achBuffer ++ (if use_v2 c then poke_le 1 byChaIPKind else []))]).

(** An empty packet is refused by the comparison of the lengths, whatever is read behind it. *)
Definition ProcessPublicKeyPacket (y : Crypto) (n : Net) (pachPacket : list Z) (cr : CClientCredits) (c : CUpDownClient) :
  CClientCredits * CUpDownClient * list Packet :=
  let nSize := Z.of_nat (length pachPacket) in
  if negb (m_socket c) || negb (has_credits c) then (cr, c, [])
  else match pachPacket with
       | [] => (cr, c, [])
       | len :: key =>
           if negb (len =? nSize - 1) then (cr, c, [])
           else if nSize >? 250 then (cr, c, [])
           else if negb (CryptoAvailable y) then (cr, c, [])
           else
             let '(ok, cr) := SetSecureIdent key len cr in
             if ok && (m_SecureIdentState c =? IS_SIGNATURENEEDED) then let '(c, out) := SendSignaturePacket y n cr c in (cr, c, out)
             else (cr, c, [])
       end.

Definition ProcessSignaturePacket (y : Crypto) (n : Net) (pachPacket : list Z) (cr : CClientCredits) (c : CUpDownClient) : CClientCredits * CUpDownClient :=
  let nSize := Z.of_nat (length pachPacket) in
  if negb (m_socket c) || negb (has_credits c) then (cr, c)
  else match pachPacket with
       | [] => (cr, c)
       | len :: rest =>
           if nSize >? 250 then (cr, c)
           else
             match (if len =? nSize - 1 then Some 0
                    else if (len =? nSize - 2) && (Z.land (m_bySupportSecIdent c) 2 >? 0) then Some (default 0 (last pachPacket))
                    else None) with
             | None => (cr, c)
             | Some byChaIPKind =>
                 if negb (CryptoAvailable y) then (cr, c)
                 else if m_dwLastSignatureIP c =? GetIP c then (cr, c)
                 else if GetSecIDKeyLen cr =? 0 then (cr, c)
                 else if m_dwCryptRndChallengeFor cr =? 0 then (cr, c)
                 else
                   let '(_, cr) := VerifyIdent y n cr (take (Z.to_nat len) rest) (GetIP c) byChaIPKind in
                   (cr, set_last_signature (GetIP c) c)
             end
       end.

(** [rnd] is the answer of [rand()]. *)
Definition SendSecIdentStatePacket (y : Crypto) (rnd : Z) (cr : CClientCredits) (c : CUpDownClient) : CClientCredits * list Packet :=
  if negb (has_credits c) then (cr, [])
  else
    let nValue := if CryptoAvailable y then
                    if GetSecIDKeyLen cr =? 0 then IS_KEYANDSIGNEEDED
                    else if negb (m_dwLastSignatureIP c =? GetIP c) then IS_SIGNATURENEEDED else 0
                  else 0 in
    if nValue =? 0 then (cr, [])
    else
      let dwRandom := u32 (rnd + 1) in
      (set_challenge_for dwRandom cr, [mkPacket OP_SECIDENTSTATE (poke_le 1 nValue ++ poke_le 4 dwRandom)]).

Definition ProcessSecIdentStatePacket (pachPacket : list Z) (cr : CClientCredits) (c : CUpDownClient) : CClientCredits * CUpDownClient :=
  if negb (Z.of_nat (length pachPacket) =? 5) then (cr, c)
  else if negb (has_credits c) then (cr, c)
  else
    let st := peek_le (take 1 pachPacket) in
    if (st =? 0) || (st =? 1) || (st =? 2) then (set_challenge_from (peek_le (drop 1 pachPacket)) cr, set_state st c)
    else (cr, c).

Definition InfoPacketsReceived (y : Crypto) (rnd : Z) (cr : CClientCredits) (c : CUpDownClient) : CClientCredits * list Packet :=
  if negb (m_bySupportSecIdent c =? 0) then SendSecIdentStatePacket y rnd cr c else (cr, []).

Definition CheckHandshakeFinished (c : CUpDownClient) : bool := negb (m_bHelloAnswerPending c).

(** The three cases of [CClientTCPSocket::ProcessExtPacket]; [None] is the exception that closes the
    connection. *)
Definition ProcessPacket (y : Crypto) (n : Net) (p : Packet) (cr : CClientCredits) (c : CUpDownClient) :
  option (CClientCredits * CUpDownClient * list Packet) :=
  if opcode p =? OP_SECIDENTSTATE then
    if negb (CheckHandshakeFinished c) then None
    else
      let '(cr, c) := ProcessSecIdentStatePacket (body p) cr c in
      if m_SecureIdentState c =? IS_SIGNATURENEEDED then let '(c, out) := SendSignaturePacket y n cr c in Some (cr, c, out)
      else if m_SecureIdentState c =? IS_KEYANDSIGNEEDED then
        let '(c, out1) := SendPublicKeyPacket y c in
        let '(c, out2) := SendSignaturePacket y n cr c in Some (cr, c, out1 ++ out2)
      else Some (cr, c, [])
  else if opcode p =? OP_PUBLICKEY then
    if IsBanned c then Some (cr, c, [])
    else if negb (CheckHandshakeFinished c) then None
    else Some (ProcessPublicKeyPacket y n (body p) cr c)
  else if opcode p =? OP_SIGNATURE then
    if negb (CheckHandshakeFinished c) then None
    else let '(cr, c) := ProcessSignaturePacket y n (body p) cr c in Some (cr, c, [])
  else Some (cr, c, []).

(** ** The clients that claim one hash *)

Record World := mkWorld { w_credits : CClientCredits; w_clients : gmap Z CUpDownClient }.

(** [EClient]: a client appears, goes or changes in any way. *)
Inductive Event :=
| EClient (id : Z) (c : option CUpDownClient)
| EInfo (id rnd : Z)
| EPacket (id : Z) (n : Net) (p : Packet)
| EDownloaded (id bytes : Z)
| EUploaded (id bytes : Z).

Definition from_client (id : Z) (out : list Packet) : list (Z * Packet) := map (pair id) out.

Definition handle (y : Crypto) (w : World) (ev : Event) : World * list (Z * Packet) :=
  match ev with
  | EClient id c => (mkWorld (w_credits w) (partial_alter (fun _ => c) id (w_clients w)), [])
  | EInfo id rnd =>
      match w_clients w !! id with
      | None => (w, [])
      | Some c => let '(cr, out) := InfoPacketsReceived y rnd (w_credits w) c in (mkWorld cr (w_clients w), from_client id out)
      end
  | EPacket id n p =>
      match w_clients w !! id with
      | None => (w, [])
      | Some c =>
          match ProcessPacket y n p (w_credits w) c with
          | None => (mkWorld (w_credits w) (delete id (w_clients w)), [])
          | Some (cr, c, out) => (mkWorld cr (<[id := c]> (w_clients w)), from_client id out)
          end
      end
  | EDownloaded id bytes =>
      match w_clients w !! id with
      | None => (w, [])
      | Some c => (mkWorld (AddDownloaded bytes (GetIP c) (CryptoAvailable y) (w_credits w)) (w_clients w), [])
      end
  | EUploaded id bytes =>
      match w_clients w !! id with
      | None => (w, [])
      | Some c => (mkWorld (AddUploaded bytes (GetIP c) (CryptoAvailable y) (w_credits w)) (w_clients w), [])
      end
  end.

(** The events in order, and the packets sent so far. *)
Fixpoint run (y : Crypto) (w : World) (sent : list (Z * Packet)) (evs : list Event) : World * list (Z * Packet) :=
  match evs with
  | [] => (w, sent)
  | ev :: evs => let '(w, out) := handle y w ev in run y w (sent ++ out) evs
  end.

(** ** A stored key *)

(** The key [K] is stored for the hash, and is the one that is used. *)
Record pinned (K : list Z) (cr : CClientCredits) : Prop := {
  pin_size : nKeySize (m_pCredits cr) = Z.of_nat (length K);
  pin_pos : 0 < Z.of_nat (length K);
  pin_len : GetSecIDKeyLen cr = Z.of_nat (length K);
  pin_key : take (length K) (GetSecureIdent cr) = K;
  pin_stored : take (length K) (abySecureIdent (m_pCredits cr)) = K
}.

(** The packet that asks for a signature of this challenge. *)
Definition asks (challenge : Z) (p : Packet) : Prop := exists v, p = mkPacket OP_SECIDENTSTATE (poke_le 1 v ++ poke_le 4 challenge).

(** A signature with [K] of this program's key and a challenge it sent, from [ip]. *)
Definition proof_of (y : Crypto) (sent : list (Z * Packet)) (K : list Z) (ip : Z) : Prop :=
  exists challenge id p n kind sig, challenge <> 0 /\ (id, p) ∈ sent /\ asks challenge p /\
    VerifyMessage K (expected_message y n challenge ip kind) sig = Some true.

(** The invariant of a session. *)
Record session (y : Crypto) (K : list Z) (sent : list (Z * Packet)) (cr : CClientCredits) : Prop := {
  ses_pin : pinned K cr;
  ses_state : GetIdentState cr <> IS_NOTAVAILABLE;
  ses_asked : m_dwCryptRndChallengeFor cr = 0 \/ exists id p, (id, p) ∈ sent /\ asks (m_dwCryptRndChallengeFor cr) p;
  ses_proof : GetIdentState cr = IS_IDENTIFIED -> proof_of y sent K (m_dwIdentIP (m_ident cr))
}.

Lemma proof_more y sent out K ip : proof_of y sent K ip -> proof_of y (sent ++ out) K ip.
Proof. intros (ch & id & p & n & kind & sig & H1 & H2 & H3). exists ch, id, p, n, kind, sig. split_and!; try apply H3; [done|]. apply elem_of_app. by left. Qed.

Lemma session_more y K sent out cr : session y K sent cr -> session y K (sent ++ out) cr.
Proof.
  intros [H1 H2 H3 H4]. constructor; [done|done| |intros H; by apply proof_more, H4].
  destruct H3 as [H3|(id & p & H3 & H5)]; [by left|right]. exists id, p. split; [|done]. apply elem_of_app. by left.
Qed.

(** What the operations leave alone. *)
Lemma session_traffic y K sent cr up down : session y K sent cr -> session y K sent (set_struct (with_traffic up down (m_pCredits cr)) cr).
Proof. intros [[H1 H2 H3 H4 H5] H6 H7 H8]. split; [by constructor|done|done|done]. Qed.

Lemma session_from y K sent cr ch : session y K sent cr -> session y K sent (set_challenge_from ch cr).
Proof. intros [[H1 H2 H3 H4 H5] H6 H7 H8]. split; [by constructor|done|done|done]. Qed.

Lemma session_for y K sent cr id v ch : session y K sent cr ->
  session y K (sent ++ from_client id [mkPacket OP_SECIDENTSTATE (poke_le 1 v ++ poke_le 4 ch)]) (set_challenge_for ch cr).
Proof.
  intros H. apply (session_more _ _ _ (from_client id [mkPacket OP_SECIDENTSTATE (poke_le 1 v ++ poke_le 4 ch)])) in H.
  destruct H as [[H1 H2 H3 H4 H5] H6 _ H8]. split; [done|done| |done]. right. exists id. eexists. split; [|by exists v].
  apply elem_of_app. right. by left.
Qed.

(** A stored key is never replaced. *)
Lemma session_key y K sent cr key len : session y K sent cr -> SetSecureIdent key len cr = (false, cr).
Proof.
  intros [[H1 H2 _ _ _] _ _ _]. unfold SetSecureIdent. rewrite (proj2 (Z.eqb_neq (nKeySize _) 0)) by lia. by rewrite orb_true_r.
Qed.

Lemma session_verify y K sent cr n sig ip kind : CryptoAvailable y = true -> session y K sent cr -> m_dwCryptRndChallengeFor cr <> 0 ->
  session y K sent (VerifyIdent y n cr sig ip kind).2.
Proof.
  intros Hy [[H1 H2 H3 H4 H5] H6 H7 H8] Hne. unfold VerifyIdent. rewrite Hy. cbn [negb snd].
  destruct (VerifyMessage _ _ _) as [[|]|] eqn:E; cbn [default].
  - assert (nKeySize (m_pCredits cr) =? 0 = false) as En by lia. unfold Verified. rewrite En.
    split; [by constructor|done|done|]. intros _. destruct H7 as [H7|(id & p & H7 & H9)]; [done|].
    exists (m_dwCryptRndChallengeFor cr), id, p, n, kind, sig. split_and!; [done|done|done|].
    rewrite H3, Nat2Z.id, H4 in E. exact E.
  - case_decide as Hd; [|by constructor]. split; [by constructor|done|done|done].
  - case_decide as Hd; [|by constructor]. split; [by constructor|done|done|done].
Qed.

Lemma session_packet y K sent n p cr c : CryptoAvailable y = true -> session y K sent cr ->
  match ProcessPacket y n p cr c with Some (cr', _, _) => session y K sent cr' | None => True end.
Proof.
  intros Hy H. unfold ProcessPacket. destruct (_ =? OP_SECIDENTSTATE).
  - destruct (negb _); [done|]. destruct (ProcessSecIdentStatePacket (body p) cr c) as [cr1 c1] eqn:E.
    assert (session y K sent cr1) as H1.
    { revert E. unfold ProcessSecIdentStatePacket. destruct (negb _); [by intros [= <- _]|]. destruct (negb _); [by intros [= <- _]|].
      destruct (_ || _); intros [= <- _]; [by apply session_from|done]. }
    destruct (_ =? IS_SIGNATURENEEDED); [by destruct (SendSignaturePacket _ _ _ _)|]. destruct (_ =? IS_KEYANDSIGNEEDED); [|done].
    destruct (SendPublicKeyPacket _ _). by destruct (SendSignaturePacket _ _ _ _).
  - destruct (_ =? OP_PUBLICKEY).
    + destruct (IsBanned c); [done|]. destruct (negb _); [done|]. unfold ProcessPublicKeyPacket. destruct (_ || _); [done|].
      destruct (body p) as [|len key]; [done|]. destruct (negb _); [done|]. destruct (_ >? 250); [done|]. destruct (negb _); [done|].
      by rewrite (session_key y K sent).
    + destruct (_ =? OP_SIGNATURE); [|done]. destruct (negb _); [done|]. unfold ProcessSignaturePacket. destruct (_ || _); [done|].
      destruct (body p) as [|len rest]; [done|]. destruct (_ >? 250); [done|].
      destruct (if _ =? _ then Some 0 else _) as [kind|]; [|done]. destruct (negb _); [done|]. destruct (_ =? GetIP c); [done|].
      destruct (GetSecIDKeyLen cr =? 0); [done|]. destruct (Z.eqb_spec (m_dwCryptRndChallengeFor cr) 0) as [|Hne]; [done|].
      pose proof (session_verify y K sent cr n (take (Z.to_nat len) rest) (GetIP c) kind Hy H Hne) as HV.
      by destruct (VerifyIdent _ _ _ _ _ _).
Qed.

Lemma session_handle y K sent w ev : CryptoAvailable y = true -> session y K sent (w_credits w) ->
  let '(w', out) := handle y w ev in session y K (sent ++ out) (w_credits w').
Proof.
  intros Hy H. destruct ev as [id c|id rnd|id n p|id bytes|id bytes]; simpl.
  - by apply session_more.
  - destruct (w_clients w !! id) as [c|]; [|by apply session_more]. unfold InfoPacketsReceived, SendSecIdentStatePacket.
    destruct (negb (_ =? 0)); [|by apply session_more]. destruct (negb _); [by apply session_more|].
    destruct (_ =? 0); [by apply session_more|]. by apply session_for.
  - destruct (w_clients w !! id) as [c|]; [|by apply session_more].
    pose proof (session_packet y K sent n p (w_credits w) c Hy H) as HP.
    destruct (ProcessPacket _ _ _ _ _) as [[[cr c1] out]|]; by apply session_more.
  - destruct (w_clients w !! id) as [c|]; apply session_more; [|done]. simpl. unfold AddDownloaded. destruct (_ && _); [done|by apply session_traffic].
  - destruct (w_clients w !! id) as [c|]; apply session_more; [|done]. simpl. unfold AddUploaded. destruct (_ && _); [done|by apply session_traffic].
Qed.

Lemma session_run y K evs : CryptoAvailable y = true -> forall w sent, session y K sent (w_credits w) ->
  let '(w', sent') := run y w sent evs in session y K sent' (w_credits w').
Proof.
  intros Hy. induction evs as [|ev evs IH]; intros w sent H; [done|]. simpl. pose proof (session_handle y K sent w ev Hy H) as HH.
  destruct (handle y w ev) as [w1 out]. by apply IH.
Qed.

(** Loaded credits with a key. *)
Lemma session_load y garbage s : 0 < nKeySize s <= MAXPUBKEYSIZE -> length (abySecureIdent s) = 80%nat ->
  session y (take (Z.to_nat (nKeySize s)) (abySecureIdent s)) [] (CClientCredits_load garbage s).
Proof.
  intros Hk Hl. unfold MAXPUBKEYSIZE in Hk. assert (length (take (Z.to_nat (nKeySize s)) (abySecureIdent s)) = Z.to_nat (nKeySize s)) as HL
    by (rewrite length_take; lia).
  assert (InitalizeIdent garbage s = mkIdent IS_IDNEEDED (memcpy garbage (abySecureIdent s) (nKeySize s)) (nKeySize s) 0) as EI
    by (unfold InitalizeIdent; by rewrite (proj2 (Z.eqb_neq _ _)) by lia).
  unfold CClientCredits_load. rewrite EI. split; [constructor; rewrite ?HL| | |]; try done; simpl; try lia.
  - unfold GetSecIDKeyLen. cbn [m_ident m_nPublicKeyLen]. lia.
  - unfold GetSecureIdent, memcpy. cbn [m_ident m_abyPublicKey]. rewrite take_app_le by lia. by rewrite take_take, Nat.min_id.
Qed.

(** What a client gets for a proof only: the credits of its traffic and a ratio. *)
Lemma unproved_unless y K sent cr ip : session y K sent cr -> unproved (GetCurrentIdentState ip cr) = false -> proof_of y sent K ip.
Proof.
  intros [_ H1 _ H2] Hu. unfold GetCurrentIdentState in Hu. destruct (GetIdentState cr) eqn:E; try done.
  destruct (Z.eqb_spec ip (m_dwIdentIP (m_ident cr))) as [->|]; [by apply H2|done].
Qed.

(** ** Two ends *)

(** The ends are named by a boolean; each is the other's client. *)
Record Ends := mkEnds {
  key_of : bool -> Key;
  pub_of : bool -> list Z;
  net_of : bool -> Net;
  ip_of : bool -> Z;
  rnd_of : bool -> Z;
  supports : bool -> Z
}.

Record Sys := mkSys {
  credits_of : bool -> CClientCredits;
  client_of : bool -> CUpDownClient;
  started : bool -> bool;
  wire : bool -> list Packet
}.

Inductive Action := AStart (s : bool) | ADeliver (s : bool).

Definition upd {A} (s : bool) (v : A) (f : bool -> A) : bool -> A := fun t => if Bool.eqb t s then v else f t.

Context (E : Ends).

Definition crypto_of (s : bool) : Crypto := InitalizeCrypting true (Some (key_of E s, pub_of E s)).

(** An end is ready once, and packets arrive in the order they were sent; [None] is an action that is not
    possible. *)
Definition step (x : Action) (w : Sys) : option Sys :=
  match x with
  | AStart s =>
      if started w s then None
      else
        let '(cr, out) := InfoPacketsReceived (crypto_of s) (rnd_of E s) (credits_of w s) (client_of w s) in
        Some (mkSys (upd s cr (credits_of w)) (client_of w) (upd s true (started w)) (upd s (wire w s ++ out) (wire w)))
  | ADeliver s =>
      let t := negb s in
      match wire w s with
      | [] => None
      | p :: rest =>
          match ProcessPacket (crypto_of t) (net_of E t) p (credits_of w t) (client_of w t) with
          | None => None
          | Some (cr, c, out) =>
              Some (mkSys (upd t cr (credits_of w)) (upd t c (client_of w)) (started w) (upd t (wire w t ++ out) (upd s rest (wire w))))
          end
      end
  end.

Fixpoint steps (xs : list Action) (w : Sys) : option Sys :=
  match xs with
  | [] => Some w
  | x :: xs => match step x w with Some w => steps xs w | None => None end
  end.

(** Nothing is left to do. *)
Definition finished (w : Sys) : Prop := forall s, started w s = true /\ wire w s = [].

(** ** The same with packets and keys reduced to their meaning *)

Inductive Msg := MAsk (key_too : bool) | MKey | MSig.

Record AEnd := mkAEnd { a_known : bool; a_pinned : bool; a_got : bool; a_asked : bool; a_done : bool; a_state : Z }.

Record ASys := mkASys { a_end : bool -> AEnd; a_started : bool -> bool; a_wire : bool -> list Msg }.

Definition a_sign (a : AEnd) : AEnd * list Msg :=
  if (a_state a =? 0) || negb (a_known a) || negb (a_got a) then (a, [])
  else (mkAEnd (a_known a) (a_pinned a) (a_got a) (a_asked a) (a_done a) 0, [MSig]).

Definition a_start (a : AEnd) : AEnd * list Msg :=
  if a_known a && a_done a then (a, [])
  else (mkAEnd (a_known a) (a_pinned a) (a_got a) true (a_done a) (a_state a), [MAsk (negb (a_known a))]).

Definition a_process (m : Msg) (a : AEnd) : AEnd * list Msg :=
  match m with
  | MAsk key_too =>
      let '(a, out) := a_sign (mkAEnd (a_known a) (a_pinned a) true (a_asked a) (a_done a) 1) in
      (a, (if key_too then [MKey] else []) ++ out)
  | MKey =>
      if a_pinned a then (a, [])
      else
        let a := mkAEnd true false (a_got a) (a_asked a) (a_done a) (a_state a) in
        if a_state a =? 1 then a_sign a else (a, [])
  | MSig =>
      if a_done a || negb (a_known a) || negb (a_asked a) then (a, [])
      else (mkAEnd (a_known a) true (a_got a) (a_asked a) true (a_state a), [])
  end.

Definition a_step (x : Action) (w : ASys) : option ASys :=
  match x with
  | AStart s =>
      if a_started w s then None
      else let '(a, out) := a_start (a_end w s) in
        Some (mkASys (upd s a (a_end w)) (upd s true (a_started w)) (upd s (a_wire w s ++ out) (a_wire w)))
  | ADeliver s =>
      let t := negb s in
      match a_wire w s with
      | [] => None
      | m :: rest => let '(a, out) := a_process m (a_end w t) in
          Some (mkASys (upd t a (a_end w)) (a_started w) (upd t (a_wire w t ++ out) (upd s rest (a_wire w))))
      end
  end.

Fixpoint a_steps (xs : list Action) (w : ASys) : option ASys :=
  match xs with
  | [] => Some w
  | x :: xs => match a_step x w with Some w => a_steps xs w | None => None end
  end.

Definition a_finished (w : ASys) : bool :=
  a_started w false && a_started w true && match a_wire w false, a_wire w true with [], [] => true | _, _ => false end.

(** Every run of at most [n] actions that ends has identified both. *)
Fixpoint explore (n : nat) (w : ASys) : bool :=
  (negb (a_finished w) || (a_done (a_end w false) && a_done (a_end w true))) &&
  forallb (fun x => match a_step x w with None => true | Some w => match n with O => false | S n => explore n w end end)
    [AStart false; AStart true; ADeliver false; ADeliver true].

Lemma explore_steps xs : forall n w w', explore n w = true -> a_steps xs w = Some w' ->
  (length xs <= n)%nat /\ (a_finished w' = true -> forall s, a_done (a_end w' s) = true).
Proof.
  induction xs as [|x xs IH]; intros n w w' He Hs.
  - injection Hs as <-. split; [simpl; lia|]. intros Hf s. destruct n; simpl in He; rewrite Hf in He; simpl in He;
      apply andb_true_iff in He as [He _]; apply andb_true_iff in He as [H1 H2]; by destruct s.
  - simpl in Hs. destruct (a_step x w) as [w1|] eqn:Ex; [|done].
    assert (match n with O => false | S n => explore n w1 end = true) as H1.
    { destruct n; cbn [explore] in He; apply andb_true_iff in He as [_ He]; rewrite forallb_forall in He;
        specialize (He x ltac:(destruct x as [[|]|[|]]; simpl; tauto)); by rewrite Ex in He. }
    destruct n as [|n]; [done|]. destruct (IH n w1 w' H1 Hs). split; [simpl; lia|done].
Qed.

Definition a_init (known pin : bool -> bool) : ASys :=
  mkASys (fun s => mkAEnd (known s) (pin s) false false false 0) (fun _ => false) (fun _ => []).

Lemma explore_all (k0 k1 p0 p1 : bool) : (p0 = true -> k0 = true) -> (p1 = true -> k1 = true) ->
  explore 8 (a_init (fun s => if s then k1 else k0) (fun s => if s then p1 else p0)) = true.
Proof.
  intros H0 H1. destruct k0, k1, p0, p1; try (by specialize (H0 eq_refl)); try (by specialize (H1 eq_refl)); vm_compute; reflexivity.
Qed.

(** ** The simulation *)

(** The ends are set up as they should be: keys of a usual size, a signature that is accepted, and for
    version 2 addresses that both ends agree on. *)
Record ends_ok : Prop := {
  eo_pub s : 0 < Z.of_nat (length (pub_of E s)) <= 80;
  eo_sign s m : exists sig, SignMessage (key_of E s) m = Some sig /\ 0 < Z.of_nat (length sig) <= 248 /\ VerifyMessage (pub_of E s) m sig = Some true;
  eo_rnd s : 0 <= rnd_of E s < 2 ^ 31;
  eo_ip s : ip_of E s <> 0;
  eo_supports s : supports E s <> 0;
  eo_v2 s : Z.land (supports E (negb s)) 1 <> 1 ->
    0 < Z.land (supports E s) 2 /\
    (if IsLowID (GetED2KID (net_of E s)) then remote_challenge_ip (net_of E (negb s)) = ip_of E (negb s) else GetED2KID (net_of E s) = ip_of E s)
}.

(** The other end as a client. *)
Definition the_client (s : bool) (st last : Z) : CUpDownClient :=
  mkClient true true false false (ip_of E (negb s)) (supports E (negb s)) st last.

Definition chal (s : bool) : Z := u32 (rnd_of E s + 1).

Definition kind_ip (s : bool) : Z * Z := signed_ip (net_of E s) (the_client s 0 0).

Definition signed_message (s : bool) : list Z := pub_of E (negb s) ++ challenge_bytes (chal (negb s)) (kind_ip s).1 (kind_ip s).2.

Definition sig_of (s : bool) : list Z := default [] (SignMessage (key_of E s) (signed_message s)).

(** The packets that [s] sends. *)
Definition concrete (s : bool) (m : Msg) : Packet :=
  match m with
  | MAsk key_too => mkPacket OP_SECIDENTSTATE (poke_le 1 (if key_too then IS_KEYANDSIGNEEDED else IS_SIGNATURENEEDED) ++ poke_le 4 (chal s))
  | MKey => mkPacket OP_PUBLICKEY (poke_le 1 (Z.of_nat (length (pub_of E s))) ++ pub_of E s)
  | MSig => mkPacket OP_SIGNATURE (poke_le 1 (Z.of_nat (length (sig_of s))) ++ sig_of s ++ (if use_v2 (the_client s 0 0) then poke_le 1 (kind_ip s).1 else []))
  end.

Record rel_end (s : bool) (a : AEnd) (cr : CClientCredits) (c : CUpDownClient) : Prop := {
  re_client : exists last, c = the_client s (a_state a) last /\ (last =? ip_of E (negb s)) = a_done a;
  re_len : GetSecIDKeyLen cr = if a_known a then Z.of_nat (length (pub_of E (negb s))) else 0;
  re_key : a_known a = true -> take (length (pub_of E (negb s))) (GetSecureIdent cr) = pub_of E (negb s);
  re_size : nKeySize (m_pCredits cr) = if a_pinned a then Z.of_nat (length (pub_of E (negb s))) else 0;
  re_from : m_dwCryptRndChallengeFrom cr = if a_got a then chal (negb s) else 0;
  re_for : m_dwCryptRndChallengeFor cr = if a_asked a then chal s else 0;
  re_done : a_done a = true -> GetCurrentIdentState (ip_of E (negb s)) cr = IS_IDENTIFIED;
  re_pin : a_pinned a = false -> a_done a = false
}.

Section Honest.

Context (OK : ends_ok).

Lemma crypto_available s : CryptoAvailable (crypto_of s) = true.
Proof. pose proof (eo_pub OK s). unfold CryptoAvailable, crypto_of, InitalizeCrypting. simpl. rewrite wrap_small by width_lia. rewrite Z.gtb_ltb, (proj2 (Z.ltb_lt _ _)) by lia. done. Qed.

Lemma crypto_len s : m_nMyPublicKeyLen (crypto_of s) = Z.of_nat (length (pub_of E s)).
Proof. pose proof (eo_pub OK s). unfold crypto_of, InitalizeCrypting. simpl. rewrite wrap_small by width_lia. done. Qed.

Lemma crypto_key s : take (Z.to_nat (m_nMyPublicKeyLen (crypto_of s))) (m_abyMyPublicKey (crypto_of s)) = pub_of E s.
Proof.
  pose proof (eo_pub OK s). rewrite crypto_len, Nat2Z.id. unfold crypto_of, InitalizeCrypting. cbn [negb m_abyMyPublicKey]. unfold memcpy.
  rewrite Z.min_r, Nat2Z.id by lia. rewrite (take_ge (pub_of E s) 80) by lia. rewrite (take_ge (pub_of E s) (length _)) by lia. apply take_app_length.
Qed.

Lemma chal_ne s : chal s <> 0 /\ in_width 32 (chal s).
Proof. pose proof (eo_rnd OK s). unfold chal. rewrite wrap_small by width_lia. width_lia. Qed.

Lemma sig_spec s : SignMessage (key_of E s) (signed_message s) = Some (sig_of s) /\ 0 < Z.of_nat (length (sig_of s)) <= 248 /\
  VerifyMessage (pub_of E s) (signed_message s) (sig_of s) = Some true.
Proof. unfold sig_of. destruct (eo_sign OK s (signed_message s)) as (sig & -> & H). done. Qed.

(** Signing. *)
Lemma sim_sign s a cr c : rel_end s a cr c ->
  let '(c', out) := SendSignaturePacket (crypto_of s) (net_of E s) cr c in
  let '(a', ms) := a_sign a in rel_end s a' cr c' /\ out = map (concrete s) ms.
Proof.
  intros H. pose proof H as [(last & -> & Hl) H2 H3 H4 H5 H6 H7 H8]. unfold SendSignaturePacket, a_sign.
  cbn [the_client m_socket has_credits negb orb m_SecureIdentState]. destruct (a_state a =? 0); [done|]. rewrite crypto_available. cbn [negb orb].
  rewrite H2. pose proof (eo_pub OK (negb s)) as Hp. destruct (a_known a) eqn:Ek; cbn [negb orb]; [|done]. rewrite (proj2 (Z.eqb_neq _ _)) by lia.
  rewrite H5. destruct (chal_ne (negb s)) as [Hc _]. destruct (a_got a) eqn:Eg; cbn [negb]; [|done]. rewrite (proj2 (Z.eqb_neq _ _)) by done.
  change (signed_ip (net_of E s) (the_client s (a_state a) last)) with (kind_ip s).
  change (use_v2 (the_client s (a_state a) last)) with (use_v2 (the_client s 0 0)).
  destruct (sig_spec s) as (S1 & S2 & _). unfold CreateSignature. rewrite crypto_available. cbn [negb]. change (m_pSignkey (crypto_of s)) with (Some (key_of E s)). cbv iota.
  rewrite H2, Nat2Z.id, (H3 eq_refl), H5. destruct (kind_ip s) as [kind ip] eqn:EK.
  assert (pub_of E (negb s) ++ challenge_bytes (chal (negb s)) kind ip = signed_message s) as -> by (unfold signed_message; by rewrite EK).
  rewrite S1. rewrite wrap_small by width_lia. rewrite (proj2 (Z.eqb_neq _ _)) by lia. split.
  - split; simpl; rewrite ?Ek, ?Eg; try done. by exists last.
  - unfold concrete. cbn [map]. rewrite Nat2Z.id, EK. rewrite (take_ge (sig_of s) (Z.to_nat 250)) by lia. by rewrite take_ge.
Qed.

(** Asking. *)
Lemma sim_start s a cr c : rel_end s a cr c ->
  let '(cr', out) := InfoPacketsReceived (crypto_of s) (rnd_of E s) cr c in
  let '(a', ms) := a_start a in rel_end s a' cr' c /\ out = map (concrete s) ms.
Proof.
  intros H. pose proof H as [(last & -> & Hl) H2 H3 H4 H5 H6 H7 H8]. unfold InfoPacketsReceived, SendSecIdentStatePacket, a_start.
  cbn [the_client m_bySupportSecIdent has_credits negb m_dwLastSignatureIP GetIP]. rewrite (proj2 (Z.eqb_neq _ _)) by apply (eo_supports OK). cbn [negb].
  rewrite crypto_available, H2, Hl. pose proof (eo_pub OK (negb s)) as Hp. destruct (a_known a) eqn:Ek; [rewrite (proj2 (Z.eqb_neq (Z.of_nat _) 0)) by lia|].
  - destruct (a_done a) eqn:Ed; simpl; [done|]. split; [|done]. split; simpl; rewrite ?Ek, ?Ed; try done. by exists last.
  - simpl. split; [|done]. split; simpl; rewrite ?Ek; try done. by exists last.
Qed.

(** A packet of the other end. *)
Lemma sim_ask t a cr c key_too : rel_end t a cr c -> exists cr' c' out,
  ProcessPacket (crypto_of t) (net_of E t) (concrete (negb t) (MAsk key_too)) cr c = Some (cr', c', out) /\
  let '(a', ms) := a_process (MAsk key_too) a in rel_end t a' cr' c' /\ out = map (concrete t) ms.
Proof.
  intros [(last & -> & Hl) H2 H3 H4 H5 H6 H7 H8]. destruct (chal_ne (negb t)) as [Hc1 Hc2].
  set (a1 := mkAEnd (a_known a) (a_pinned a) true (a_asked a) (a_done a) 1). set (cr1 := set_challenge_from (chal (negb t)) cr).
  assert (rel_end t a1 cr1 (the_client t 1 last)) as H1 by (split; try done; by exists last).
  pose proof (sim_sign t a1 cr1 _ H1) as HS. unfold ProcessPacket, concrete. cbn [opcode body]. rewrite Z.eqb_refl. change (negb (CheckHandshakeFinished _)) with false. cbv iota.
  assert (ProcessSecIdentStatePacket (poke_le 1 (if key_too then IS_KEYANDSIGNEEDED else IS_SIGNATURENEEDED) ++ poke_le 4 (chal (negb t))) cr (the_client t (a_state a) last) =
    (cr1, the_client t (if key_too then 2 else 1) last)) as ->.
  { unfold ProcessSecIdentStatePacket. rewrite length_app, !poke_le_length. cbn [has_credits the_client negb]. change (Z.of_nat (1 + 4) =? 5) with true. cbn [negb].
    rewrite (take_app_length' _ _ 1), (drop_app_length' _ _ 1) by (by rewrite poke_le_length).
    rewrite !peek_poke by (done || by destruct key_too). by destruct key_too. }
  unfold a_process. fold a1. destruct key_too; cbn [the_client m_SecureIdentState]; change (2 =? IS_SIGNATURENEEDED) with false; change (1 =? IS_SIGNATURENEEDED) with true; cbv iota.
  - change (2 =? IS_KEYANDSIGNEEDED) with true. cbv iota. unfold SendPublicKeyPacket. change (mkClient true true false false (ip_of E (negb t)) (supports E (negb t)) 2 last) with (the_client t 2 last).
    cbn [m_socket has_credits m_SecureIdentState the_client negb orb]. change (negb (2 =? IS_KEYANDSIGNEEDED)) with false. cbv iota. rewrite crypto_available. cbn [negb].
    change (set_state IS_SIGNATURENEEDED (the_client t 2 last)) with (the_client t 1 last). destruct (SendSignaturePacket _ _ _ _) as [c' out]. destruct (a_sign a1) as [a' ms].
    destruct HS as [HS ->]. do 3 eexists. split; [done|]. split; [done|]. rewrite crypto_key, crypto_len. done.
  - change (mkClient true true false false (ip_of E (negb t)) (supports E (negb t)) 1 last) with (the_client t 1 last). destruct (SendSignaturePacket _ _ _ _) as [c' out].
    destruct (a_sign a1) as [a' ms]. destruct HS as [HS ->]. by do 3 eexists.
Qed.

Lemma poke_le_byte v : 0 <= v < 256 -> poke_le 1 v = [v].
Proof. intros Hv. simpl. by rewrite Z.mod_small. Qed.

Lemma sim_key t a cr c : rel_end t a cr c -> exists cr' c' out,
  ProcessPacket (crypto_of t) (net_of E t) (concrete (negb t) MKey) cr c = Some (cr', c', out) /\
  let '(a', ms) := a_process MKey a in rel_end t a' cr' c' /\ out = map (concrete t) ms.
Proof.
  intros H. pose proof H as [(last & -> & Hl) H2 H3 H4 H5 H6 H7 H8]. pose proof (eo_pub OK (negb t)) as Hp. set (K := pub_of E (negb t)) in *.
  unfold ProcessPacket, concrete. cbn [opcode body]. change (OP_PUBLICKEY =? OP_SECIDENTSTATE) with false. rewrite Z.eqb_refl.
  cbn [IsBanned the_client]. change (negb (CheckHandshakeFinished _)) with false. cbv iota. unfold ProcessPublicKeyPacket, a_process.
  cbn [m_socket has_credits negb orb]. fold K. rewrite poke_le_byte by lia. cbn [app length].
  rewrite (proj2 (Z.eqb_eq (Z.of_nat (length K)) (Z.of_nat (S (length K)) - 1))) by lia. cbn [negb].
  rewrite (Z.gtb_ltb (Z.of_nat (S (length K)))), (proj2 (Z.ltb_ge 250 (Z.of_nat (S (length K))))) by lia. rewrite crypto_available. cbn [negb]. cbv iota.
  unfold SetSecureIdent. rewrite H4. unfold MAXPUBKEYSIZE. rewrite (proj2 (Z.ltb_ge (80) (Z.of_nat (length K)))) by lia. cbn [orb].
  destruct (a_pinned a) eqn:Ep.
  - rewrite (proj2 (Z.eqb_neq _ _)) by lia. cbn [negb andb]. by do 3 eexists.
  - rewrite Z.eqb_refl. cbn [negb].
    set (a1 := mkAEnd true false (a_got a) (a_asked a) (a_done a) (a_state a)). set (cr1 := set_ident _ cr).
    assert (rel_end t a1 cr1 (the_client t (a_state a) last)) as H1.
    { split; try done; [by exists last| |intros Hd; simpl in Hd; specialize (H8 eq_refl); congruence]. intros _. fold K.
      unfold GetSecureIdent, cr1, memcpy. cbn [m_ident set_ident m_abyPublicKey]. rewrite Nat2Z.id, (take_ge K) by done. apply take_app_length. }
    pose proof (sim_sign t a1 cr1 _ H1) as HS. cbn [andb m_SecureIdentState the_client]. change (a_state a1) with (a_state a).
    change IS_SIGNATURENEEDED with 1. destruct (a_state a =? 1); [|by do 3 eexists].
    change (mkClient true true false false (ip_of E (negb t)) (supports E (negb t)) (a_state a) last) with (the_client t (a_state a) last).
    destruct (SendSignaturePacket _ _ _ _) as [c' out]. destruct (a_sign a1) as [a' ms]. destruct HS as [HS ->]. by do 3 eexists.
Qed.

(** The message that is expected is the one that was signed. *)
Lemma expected_signed t : expected_message (crypto_of t) (net_of E t) (chal t) (ip_of E (negb t)) (kind_ip (negb t)).1 = signed_message (negb t).
Proof.
  unfold expected_message, signed_message. rewrite crypto_key, negb_involutive. f_equal.
  unfold kind_ip, signed_ip. destruct (use_v2 (the_client (negb t) 0 0)) eqn:Ev; [|done].
  assert (Z.land (supports E (negb (negb t))) 1 <> 1) as Hv by (unfold use_v2 in Ev; simpl in Ev; lia).
  destruct (eo_v2 OK (negb t) Hv) as [_ Hip]. rewrite negb_involutive in Hip. destruct (IsLowID _); simpl; unfold challenge_ip; simpl; rewrite ?negb_involutive; congruence.
Qed.

(** How the kind is told from the packet. *)
Lemma kind_spec t sfx : sfx = (if use_v2 (the_client (negb t) 0 0) then poke_le 1 (kind_ip (negb t)).1 else []) ->
  let len := Z.of_nat (length (sig_of (negb t))) in let pk := len :: sig_of (negb t) ++ sfx in
  (if len =? Z.of_nat (length pk) - 1 then Some 0
   else if (len =? Z.of_nat (length pk) - 2) && (Z.land (supports E (negb t)) 2 >? 0) then Some (default 0 (last pk)) else None) = Some (kind_ip (negb t)).1 /\
  Z.of_nat (length pk) <= 250.
Proof.
  intros Hs len pk. destruct (sig_spec (negb t)) as (_ & Hlen & _). fold len in Hlen.
  assert (Z.of_nat (length pk) = 1 + len + Z.of_nat (length sfx)) as HL by (subst pk len; simpl; rewrite length_app; lia). rewrite HL.
  unfold kind_ip, signed_ip in *. destruct (use_v2 (the_client (negb t) 0 0)) eqn:Ev; subst sfx.
  - rewrite poke_le_length. rewrite (proj2 (Z.eqb_neq len (1 + len + Z.of_nat 1 - 1))) by lia. rewrite (proj2 (Z.eqb_eq len (1 + len + Z.of_nat 1 - 2))) by lia.
    assert (Z.land (supports E (negb (negb t))) 1 <> 1) as Hv by (unfold use_v2 in Ev; simpl in Ev; lia).
    destruct (eo_v2 OK (negb t) Hv) as [Hsup _]. rewrite Z.gtb_ltb, (proj2 (Z.ltb_lt _ _)) by done. cbn [andb]. split; [|lia]. subst pk.
    assert (0 <= (if IsLowID (GetED2KID (net_of E (negb t))) then (CRYPT_CIP_REMOTECLIENT, GetIP (the_client (negb t) 0 0)) else (CRYPT_CIP_LOCALCLIENT, GetED2KID (net_of E (negb t)))).1 < 256) as Hk
      by (destruct (IsLowID _); done).
    rewrite poke_le_byte by done. by rewrite app_comm_cons, last_snoc.
  - simpl length. rewrite (proj2 (Z.eqb_eq len (1 + len + Z.of_nat 0 - 1))) by lia. split; [done|lia].
Qed.

Lemma sim_sig t a cr c : rel_end t a cr c -> exists cr' c' out,
  ProcessPacket (crypto_of t) (net_of E t) (concrete (negb t) MSig) cr c = Some (cr', c', out) /\
  let '(a', ms) := a_process MSig a in rel_end t a' cr' c' /\ out = map (concrete t) ms.
Proof.
  intros H. pose proof H as [(last & -> & Hl) H2 H3 H4 H5 H6 H7 H8]. pose proof (eo_pub OK (negb t)) as Hp.
  destruct (sig_spec (negb t)) as (_ & Hlen & Hver). destruct (kind_spec t _ eq_refl) as [Hkind Hsize]. cbv zeta in Hkind, Hsize.
  unfold ProcessPacket, concrete. cbn [opcode body]. change (OP_SIGNATURE =? OP_SECIDENTSTATE) with false. change (OP_SIGNATURE =? OP_PUBLICKEY) with false. rewrite Z.eqb_refl.
  change (negb (CheckHandshakeFinished _)) with false. cbv iota. unfold ProcessSignaturePacket, a_process. cbn [m_socket has_credits the_client negb orb].
  rewrite (poke_le_byte (Z.of_nat (length (sig_of (negb t))))) by lia. cbn [app m_bySupportSecIdent].
  set (sfx := if use_v2 (the_client (negb t) 0 0) then _ else _) in *.
  change (m_bySupportSecIdent (the_client t (a_state a) last)) with (supports E (negb t)). rewrite Hkind. rewrite Z.gtb_ltb, (proj2 (Z.ltb_ge _ _)) by lia.
  rewrite crypto_available. cbn [negb]. cbn [the_client m_dwLastSignatureIP GetIP]. rewrite Hl. destruct (a_done a) eqn:Ed; [by do 3 eexists|]. cbn [orb].
  rewrite H2, H6. destruct (a_known a) eqn:Ek; [|by do 3 eexists]. rewrite (proj2 (Z.eqb_neq (Z.of_nat _) 0)) by lia. cbn [negb orb].
  destruct (chal_ne t) as [Hc _]. destruct (a_asked a) eqn:Ea; [|by do 3 eexists]. rewrite (proj2 (Z.eqb_neq (chal t) 0)) by done.
  unfold VerifyIdent. rewrite crypto_available, H2, H6, !Nat2Z.id, (H3 eq_refl), expected_signed, take_app_length, Hver. cbn [negb default].
  do 3 eexists. split; [done|]. split; [|done]. unfold Verified. rewrite H4.
  assert (forall x : CreditStruct, (if a_pinned a then Z.of_nat (length (pub_of E (negb t))) else 0) = nKeySize x -> True) as _ by done.
  destruct (a_pinned a) eqn:Ep.
  - rewrite (proj2 (Z.eqb_neq (Z.of_nat _) 0)) by lia. split; simpl; rewrite ?Ek; try done; [eexists; split; [done|apply Z.eqb_refl]|].
    intros _. unfold GetCurrentIdentState. simpl. by rewrite Z.eqb_refl.
  - rewrite Z.eqb_refl. destruct (if downloaded (m_pCredits cr) >? 0 then (1, 1) else _) as [up down].
    split; simpl; rewrite ?Ek; try done; [eexists; split; [done|apply Z.eqb_refl]|].
    intros _. unfold GetCurrentIdentState. simpl. by rewrite Z.eqb_refl.
Qed.

Lemma sim_packet t m a cr c : rel_end t a cr c -> exists cr' c' out,
  ProcessPacket (crypto_of t) (net_of E t) (concrete (negb t) m) cr c = Some (cr', c', out) /\
  let '(a', ms) := a_process m a in rel_end t a' cr' c' /\ out = map (concrete t) ms.
Proof. destruct m; [apply sim_ask|apply sim_key|apply sim_sig]. Qed.

(** Systems. *)
Record rel (aw : ASys) (w : Sys) : Prop := {
  rel_ends s : rel_end s (a_end aw s) (credits_of w s) (client_of w s);
  rel_started s : started w s = a_started aw s;
  rel_wire s : wire w s = map (concrete s) (a_wire aw s)
}.

Lemma upd_eq {A} s (v : A) f : upd s v f s = v.
Proof. unfold upd. by rewrite Bool.eqb_reflx. Qed.

Lemma upd_other {A} s (v : A) f : upd s v f (negb s) = f (negb s).
Proof. by destruct s. Qed.

Lemma bool_cases (P : bool -> Prop) s : P s -> P (negb s) -> forall t, P t.
Proof. intros H1 H2 t. destruct s, t; done. Qed.

Lemma sim_step x aw w : rel aw w ->
  match step x w, a_step x aw with Some w', Some aw' => rel aw' w' | None, None => True | _, _ => False end.
Proof.
  intros [R1 R2 R3]. destruct x as [s|s]; unfold step, a_step.
  - rewrite R2. destruct (a_started aw s); [done|]. pose proof (sim_start s _ _ _ (R1 s)) as HS.
    destruct (InfoPacketsReceived _ _ _ _) as [cr out]. destruct (a_start _) as [a ms]. destruct HS as [HS ->].
    split; apply (bool_cases _ s); simpl; rewrite ?upd_eq, ?upd_other, ?R3, ?map_app; done.
  - rewrite R3. destruct (a_wire aw s) as [|m rest] eqn:Ew; [done|]. cbn [map].
    destruct (sim_packet (negb s) m _ _ _ (R1 (negb s))) as (cr & c & out & EP & HP). rewrite negb_involutive in EP. rewrite EP.
    destruct (a_process m (a_end aw (negb s))) as [a ms]. destruct HP as [HP ->].
    split; apply (bool_cases _ (negb s)); simpl; rewrite ?upd_eq, ?upd_other, ?negb_involutive; try done.
    + by rewrite map_app, R3.
    + by rewrite !upd_eq.
Qed.

Lemma sim_steps xs : forall aw w w', rel aw w -> steps xs w = Some w' -> exists aw', a_steps xs aw = Some aw' /\ rel aw' w'.
Proof.
  induction xs as [|x xs IH]; intros aw w w' R H; [injection H as <-; by exists aw|]. simpl in *. pose proof (sim_step x aw w R) as HS.
  destruct (step x w) as [w1|]; [|done]. destruct (a_step x aw) as [aw1|]; [|done]. by apply (IH aw1 w1).
Qed.

Lemma rel_finished aw w : rel aw w -> finished w -> a_finished aw = true.
Proof.
  intros [_ R2 R3] HF. destruct (HF false) as [F1 F2], (HF true) as [T1 T2]. rewrite R2 in F1, T1. rewrite R3 in F2, T2. unfold a_finished. rewrite F1, T1.
  by destruct (a_wire aw false), (a_wire aw true).
Qed.

End Honest.

(** How well an end knows the other before: not at all, its key, or its stored key. *)
Record acquainted (s known pin : bool) (cr : CClientCredits) : Prop := {
  aq_len : GetSecIDKeyLen cr = if known then Z.of_nat (length (pub_of E (negb s))) else 0;
  aq_key : known = true -> take (length (pub_of E (negb s))) (GetSecureIdent cr) = pub_of E (negb s);
  aq_size : nKeySize (m_pCredits cr) = if pin then Z.of_nat (length (pub_of E (negb s))) else 0;
  aq_challenges : m_dwCryptRndChallengeFor cr = 0 /\ m_dwCryptRndChallengeFrom cr = 0
}.

(** A new connection. *)
Definition connected (w : Sys) : Prop := forall s,
  client_of w s = the_client s IS_UNAVAILABLE 0 /\ started w s = false /\ wire w s = [].

End Crypt.

(** ** Properties *)

(** C9: Nothing is credited without a proof: for a hash whose key is stored, whatever packets arrive from
    however many clients that claim it, the key is never replaced, and an address is identified, has
    traffic credited or gets a ratio other than 1 only if a signature of this program's key and of a
    challenge it had sent came from that address and the stored key accepts it. *)
Theorem ident_credits_need_proof (Key : Type) (SignMessage : Key -> list Z -> option (list Z))
  (VerifyMessage : list Z -> list Z -> list Z -> option bool) (y : @Crypto Key) (garbage : list Z) (stored : CreditStruct)
  (clients : gmap Z CUpDownClient) (evs : list Event) :
  CryptoAvailable y = true -> 0 < nKeySize stored <= MAXPUBKEYSIZE -> length (abySecureIdent stored) = 80%nat ->
  let K := take (Z.to_nat (nKeySize stored)) (abySecureIdent stored) in
  let '(w, sent) := run SignMessage VerifyMessage y (mkWorld (CClientCredits_load garbage stored) clients) [] evs in
  let cr := w_credits w in
  take (Z.to_nat (nKeySize (m_pCredits cr))) (abySecureIdent (m_pCredits cr)) = K /\
  take (Z.to_nat (GetSecIDKeyLen cr)) (GetSecureIdent cr) = K /\
  forall ip bytes,
    GetCurrentIdentState ip cr = IS_IDENTIFIED \/ AddDownloaded bytes ip true cr <> cr \/ AddUploaded bytes ip true cr <> cr \/
      GetScoreRatio ip true cr <> f_one ->
    proof_of VerifyMessage y sent K ip.
Proof.
  intros Hy Hk Hl K. pose proof (session_run SignMessage VerifyMessage y K evs Hy (mkWorld (CClientCredits_load garbage stored) clients) []
    (session_load SignMessage VerifyMessage y garbage stored Hk Hl)) as H.
  destruct (run _ _ _ _ _ _) as [w sent]. cbv zeta. pose proof H as [[H1 H2 H3 H4 H5] _ _ _]. rewrite H1, H3, Nat2Z.id. split; [done|]. split; [done|].
  intros ip bytes Hip. apply (unproved_unless VerifyMessage y K sent (w_credits w) ip H).
  destruct (unproved (GetCurrentIdentState ip (w_credits w))) eqn:Hu; [|done]. exfalso.
  unfold AddDownloaded, AddUploaded, GetScoreRatio in Hip. rewrite Hu in Hip. simpl in Hip. destruct Hip as [Hip|[|[|]]]; try done. by rewrite Hip in Hu.
Qed.

(** C10: Two honest ends always identify each other: however the two directions of the connection interleave
    and whatever each knows of the other's key before, the exchange ends within eight actions, and when
    nothing is left to do each end has identified the other at its address. *)
Theorem ident_handshake_completes (Key : Type) (SignMessage : Key -> list Z -> option (list Z))
  (VerifyMessage : list Z -> list Z -> list Z -> option bool) (E : @Ends Key) (known pin : bool -> bool) (w w' : Sys) (xs : list Action) :
  ends_ok SignMessage VerifyMessage E -> connected E w ->
  (forall s, acquainted E s (known s) (pin s) (credits_of w s)) -> (forall s, pin s = true -> known s = true) ->
  steps SignMessage VerifyMessage E xs w = Some w' ->
  (length xs <= 8)%nat /\
  (finished w' -> forall s, GetCurrentIdentState (ip_of E (negb s)) (credits_of w' s) = IS_IDENTIFIED) /\
  (~ finished w' -> exists x w'', step SignMessage VerifyMessage E x w' = Some w'').
Proof.
  intros OK HC HA HP Hs.
  set (aw := a_init (fun s => if s then known true else known false) (fun s => if s then pin true else pin false)).
  assert (rel SignMessage E aw w) as R.
  { split; intros s; destruct (HC s) as (C1 & C2 & C3); [|by rewrite C2|by rewrite C3]. rewrite C1.
    assert (a_end aw s = mkAEnd (known s) (pin s) false false false 0) as -> by by destruct s. destruct (HA s) as [A1 A2 A3 [A4 A5]].
    split; try done. exists 0. split; [done|]. apply Z.eqb_neq. intros E0. by apply (eo_ip _ _ _ OK (negb s)). }
  destruct (sim_steps SignMessage VerifyMessage E OK xs aw w w' R Hs) as (aw' & HS & R').
  destruct (explore_steps xs 8 aw aw' (explore_all _ _ _ _ (HP false) (HP true)) HS) as [HL HD].
  split; [done|]. split.
  - intros HF s. apply (re_done _ _ _ _ _ (rel_ends _ _ _ _ R' s)). apply HD. by eapply rel_finished.
  - intros HF. destruct (started w' false) eqn:S0; [|exists (AStart false); simpl; rewrite S0; destruct (InfoPacketsReceived _ _ _ _); by eexists].
    destruct (started w' true) eqn:S1; [|exists (AStart true); simpl; rewrite S1; destruct (InfoPacketsReceived _ _ _ _); by eexists].
    assert (exists s, wire w' s <> []) as [s Hw].
    { destruct (wire w' false) eqn:W0; [|by exists false; rewrite W0]. destruct (wire w' true) eqn:W1; [|by exists true; rewrite W1].
      destruct HF. by intros [|]. }
    exists (ADeliver s). pose proof (sim_step SignMessage VerifyMessage E OK (ADeliver s) aw' w' R') as HX.
    destruct (step _ _ _ _ w') as [w2|]; [by exists w2|]. exfalso. revert HX. simpl. destruct R' as [_ _ R3]. rewrite (R3 s) in Hw.
    destruct (a_wire aw' s); [done|]. by destruct (a_process _ _).
Qed.

(** *** Witnesses *)

(** A signature scheme for examples: the key and a check sum. *)
Definition check_sum (m : list Z) : Z := foldr Z.add 0 m mod 256.

Definition sample_sign (k : Z) (m : list Z) : option (list Z) := Some [k; check_sum m].

Definition sample_verify (pub m sig : list Z) : option bool := Some (bool_decide (sig = [default 0 (head pub); check_sum m])).

Definition sample_stored : CreditStruct := mkCredit (replicate 16 1) 0 2000000 0 0 1 (2 :: replicate 79 0).

(** A client proves its key and has traffic credited; another one only claims the hash. *)
Definition sample_events : list Event := [
  EClient 1 (Some (mkClient true true false false 5 3 0 0)); EClient 2 (Some (mkClient true true false false 6 3 0 0));
  EInfo 2 7; EPacket 2 (mkNet 0 0 0) (mkPacket OP_SIGNATURE [2; 2; 44]); EDownloaded 2 1000;
  EInfo 1 41; EPacket 1 (mkNet 0 0 0) (mkPacket OP_SIGNATURE [2; 2; 43]); EDownloaded 1 1000].

Definition sample_run : World * list (Z * Packet) :=
  run sample_sign sample_verify (InitalizeCrypting true (Some (1, [1]))) (mkWorld (CClientCredits_load [] sample_stored) ∅) [] sample_events.

Lemma ident_credits_need_proof_witness :
  GetDownloadedTotal (w_credits sample_run.1) = 2001000 /\
  proof_of sample_verify (InitalizeCrypting true (Some (1, [1]))) sample_run.2 [2] 5.
Proof.
  assert (CryptoAvailable (InitalizeCrypting true (Some (1, [1]))) = true) as H1 by done.
  assert (0 < nKeySize sample_stored <= MAXPUBKEYSIZE) as H2 by done.
  assert (length (abySecureIdent sample_stored) = 80%nat) as H3 by done.
  pose proof (ident_credits_need_proof Z sample_sign sample_verify (InitalizeCrypting true (Some (1, [1]))) [] sample_stored ∅ sample_events H1 H2 H3) as H.
  split; [vm_compute; reflexivity|]. fold sample_run in H. destruct sample_run as [w sent] eqn:E. destruct H as (_ & _ & H). apply (H 5 0). left.
  replace w with sample_run.1 by (by rewrite E). vm_compute. reflexivity.
Defined.

Definition sample_ends : @Ends Z :=
  mkEnds (fun s => if s then 1 else 2) (fun s => if s then [1] else [2]) (fun s => mkNet 0 0 (if s then 167772161 else 100))
    (fun s => if s then 167772161 else 184549377) (fun s => if s then 41 else 42) (fun s => if s then 3 else 3).

Definition sample_sys : Sys :=
  mkSys (fun _ => CClientCredits_new 0 (replicate 16 1)) (fun s => the_client sample_ends s 0 0) (fun _ => false) (fun _ => []).

Definition sample_schedule : list Action :=
  [AStart false; ADeliver false; AStart true; ADeliver true; ADeliver true; ADeliver false; ADeliver false; ADeliver true].

Lemma sample_ends_ok : ends_ok sample_sign sample_verify sample_ends.
Proof.
  split.
  - by intros [|].
  - intros s m. exists [if s then 1 else 2; check_sum m]. split; [done|]. split; [done|]. unfold sample_verify. destruct s; by rewrite bool_decide_true.
  - by intros [|].
  - by intros [|].
  - by intros [|].
  - by intros [|].
Qed.

Lemma sample_finishes : match steps sample_sign sample_verify sample_ends sample_schedule sample_sys with
  | Some w => started w true && started w false && Nat.eqb (length (wire w true)) 0 && Nat.eqb (length (wire w false)) 0
  | None => false
  end = true.
Proof. vm_compute. reflexivity. Qed.

Lemma ident_handshake_completes_witness : exists w', steps sample_sign sample_verify sample_ends sample_schedule sample_sys = Some w' /\
  GetCurrentIdentState 184549377 (credits_of w' true) = IS_IDENTIFIED.
Proof.
  pose proof sample_finishes as HF. destruct (steps sample_sign sample_verify sample_ends sample_schedule sample_sys) as [w'|] eqn:E; [|discriminate HF].
  destruct (ident_handshake_completes Z sample_sign sample_verify sample_ends (fun _ => false) (fun _ => false) sample_sys w' sample_schedule
    sample_ends_ok) as (_ & H & _).
  - intros s. split; [reflexivity|split; reflexivity].
  - intros s. split; [reflexivity|intros H; discriminate H|reflexivity|split; reflexivity].
  - intros s H. discriminate H.
  - exact E.
  - exists w'. split; [reflexivity|]. refine (H _ true). intros s.
    apply andb_true_iff in HF as [HF W0]. apply andb_true_iff in HF as [HF W1]. apply andb_true_iff in HF as [S1 S0].
    apply Nat.eqb_eq in W0, W1. apply nil_length_inv in W0, W1. destruct s; split; assumption.
Defined.
