(* ===== verification/AICHHashList.v ===== *)
(** * AICH hashes reported for a keyword entry ([kademlia/kademlia/AICHHashList.{h,cpp}])

    Each hash has a slot with the number of publishers that reported it; publishers hold the index
    of their slot.  The referenced hashes travel in a search answer. *)
From S2P Require Import Prelude StdMap UInt128 DataIO.

Definition KAD_AICH_HASH_SIZE : Z := 20.
Definition INVALID_INDEX : Z := 0xFFFF.
Definition MAX_RESULT_TAG_SIZE : Z := 250.
Definition MAX_RESULT_HASHES : Z := 11.
Definition MAX_SLOTS : Z := 1024.
Definition KADEMLIA_VERSION9_50a : Z := 0x09.

Record CKadAICHHashList := mkHashList { m_hashes : list (list Z); m_popularity : list Z }.

Definition CKadAICHHashList_new : CKadAICHHashList := mkHashList [] [].

Record SResultHash := mkResultHash { r_popularity : Z; r_hash : list Z }.

(** The index of the first slot with the hash. *)
Fixpoint find_slot (hash : list Z) (i : Z) (l : list (list Z)) : option Z :=
  match l with
  | [] => None
  | h :: l => if bool_decide (h = hash) then Some i else find_slot hash (i + 1) l
  end.

(** The index and the list. *)
Definition AddReference (hash : list Z) (l : CKadAICHHashList) : Z * CKadAICHHashList :=
  match find_slot hash 0 (m_hashes l) with
  | Some i =>
      let p := m_popularity l !!! Z.to_nat i in
      (u16 i, mkHashList (m_hashes l) (if p <? 0xFF then <[Z.to_nat i := u8 (p + 1)]> (m_popularity l) else m_popularity l))
  | None =>
      if Z.of_nat (length (m_hashes l)) >=? MAX_SLOTS then (INVALID_INDEX, l)
      else
        let l := mkHashList (m_hashes l ++ [hash]) (m_popularity l ++ [1]) in
        (u16 (Z.of_nat (length (m_hashes l)) - 1), l)
  end.

Definition DropReferenceAt (index : Z) (l : CKadAICHHashList) : CKadAICHHashList :=
  if index >=? Z.of_nat (length (m_hashes l)) then l
  else
    let p := m_popularity l !!! Z.to_nat index in
    mkHashList (m_hashes l) (if p >? 0 then <[Z.to_nat index := u8 (p - 1)]> (m_popularity l) else m_popularity l).

Definition GetSlotCount (l : CKadAICHHashList) : Z := u16 (Z.of_nat (length (m_hashes l))).

Fixpoint referenced_loop (count : Z) (l : list Z) : Z :=
  match l with
  | [] => count
  | popularity :: l => referenced_loop (if popularity >? 0 then u16 (count + 1) else count) l
  end.

Definition GetReferencedCount (l : CKadAICHHashList) : Z := referenced_loop 0 (m_popularity l).

Definition IsEmpty (l : CKadAICHHashList) : bool := GetReferencedCount l =? 0.

Definition GetPopularityAt (index : Z) (l : CKadAICHHashList) : Z :=
  if index <? Z.of_nat (length (m_popularity l)) then m_popularity l !!! Z.to_nat index else 0.

Definition GetHashAt (index : Z) (l : CKadAICHHashList) : list Z :=
  if index <? Z.of_nat (length (m_hashes l)) then m_hashes l !!! Z.to_nat index else replicate 20 0.

(** The new index of each slot. *)
Fixpoint compaction_loop (next : Z) (l : list Z) : list Z :=
  match l with
  | [] => []
  | popularity :: l =>
      if popularity >? 0 then next :: compaction_loop (u16 (next + 1)) l else INVALID_INDEX :: compaction_loop next l
  end.

Definition BuildCompactionMap (l : CKadAICHHashList) : list Z := compaction_loop 0 (m_popularity l).

(** The loop of [Compact]: what stays of a vector. *)
Fixpoint keep_mapped {A} (map : list Z) (l : list A) : list A :=
  match map, l with
  | i :: map, x :: l => if negb (i =? INVALID_INDEX) then x :: keep_mapped map l else keep_mapped map l
  | _, _ => []
  end.

Definition Compact (l : CKadAICHHashList) : list Z * CKadAICHHashList :=
  let map := BuildCompactionMap l in
  (map, mkHashList (keep_mapped map (m_hashes l)) (keep_mapped map (m_popularity l))).

(** ** The payload of a search answer *)

Fixpoint count_loop (count : Z) (l : list Z) : Z :=
  match l with
  | [] => count
  | popularity :: l =>
      if count <? MAX_RESULT_HASHES then count_loop (if popularity >? 0 then u8 (count + 1) else count) l else count
  end.

Fixpoint encode_loop (written count : Z) (popularity : list Z) (hashes : list (list Z)) : list Z :=
  match popularity, hashes with
  | p :: popularity, h :: hashes =>
      if written <? count then
        if p =? 0 then encode_loop written count popularity hashes
        else p :: h ++ encode_loop (u8 (written + 1)) count popularity hashes
      else []
  | _, _ => []
  end.

Definition EncodeResultTag (l : CKadAICHHashList) : list Z :=
  let count := count_loop 0 (m_popularity l) in
  if count =? 0 then [] else count :: encode_loop 0 count (m_popularity l) (m_hashes l).

(** The loop over the announced hashes, [data] being what is left. *)
Fixpoint decode_loop (n : nat) (data : list Z) : list SResultHash :=
  match n with
  | O => []
  | S n =>
      let entry := mkResultHash (data !!! 0%nat) (take 20 (drop 1 data)) in
      let rest := decode_loop n (drop 21 data) in
      if r_popularity entry >? 0 then entry :: rest else rest
  end.

(** [None] for false. *)
Definition DecodeResultTag (data : list Z) : option (list SResultHash) :=
  match data with
  | [] => None
  | count :: rest =>
      if count >? MAX_RESULT_HASHES then None
      else if Z.of_nat (length data) <? 1 + count * (1 + KAD_AICH_HASH_SIZE) then None
      else Some (decode_loop (Z.to_nat count) rest)
  end.

Definition PeerSupportsAICHKeywordStorage (peerKadVersion : Z) : bool := peerKadVersion >=? KADEMLIA_VERSION9_50a.

Definition SelectTrusted (hashes : list SResultHash) (publishersKnown : Z) : option SResultHash :=
  match hashes with
  | [h] =>
      let popularity := r_popularity h in
      if (popularity =? 0) || (publishersKnown =? 0) then None
      else if publishersKnown / popularity >? 3 then None
      else Some h
  | _ => None
  end.

(** ** Well-formed lists *)

Definition aich_ok (h : list Z) : Prop := Forall is_byte h /\ length h = 20%nat.

Record list_ok (l : CKadAICHHashList) : Prop := {
  ok_length : length (m_popularity l) = length (m_hashes l);
  ok_slots : Z.of_nat (length (m_hashes l)) <= MAX_SLOTS;
  ok_popularity : Forall is_byte (m_popularity l);
  ok_hash : Forall aich_ok (m_hashes l);
  ok_distinct : NoDup (m_hashes l)
}.

Lemma list_ok_new : list_ok CKadAICHHashList_new.
Proof. by split; try constructor. Qed.

Lemma find_slot_spec hash l : forall i,
  match find_slot hash i l with
  | Some j => i <= j < i + Z.of_nat (length l) /\ l !! Z.to_nat (j - i) = Some hash
  | None => hash ∉ l
  end.
Proof.
  induction l as [|h l IH]; intros i; simpl; [apply not_elem_of_nil|].
  case_bool_decide as E.
  - split; [lia|]. replace (Z.to_nat (i - i)) with O by lia. by rewrite E.
  - specialize (IH (i + 1)). destruct (find_slot hash (i + 1) l) as [j|].
    + destruct IH as [IH1 IH2]. split; [lia|]. replace (Z.to_nat (j - i)) with (S (Z.to_nat (j - (i + 1)))) by lia. done.
    + apply not_elem_of_cons. by split.
Qed.

Lemma AddReference_ok hash l : aich_ok hash -> list_ok l -> list_ok (AddReference hash l).2.
Proof.
  intros Hh [H1 H2 H3 H4 H5]. unfold AddReference. pose proof (find_slot_spec hash (m_hashes l) 0) as Hf.
  destruct (find_slot hash 0 (m_hashes l)) as [i|]; simpl.
  - destruct Hf as [Hf _]. set (p := m_popularity l !!! Z.to_nat i). split; simpl; try done; destruct (Z.ltb_spec p 0xFF); try done.
    + by rewrite length_insert.
    + apply Forall_insert; [done|]. apply wrap_range. lia.
  - destruct (Z.geb_spec (Z.of_nat (length (m_hashes l))) MAX_SLOTS); [by split|].
    split; simpl; rewrite ?length_app; simpl; [lia|lia| | |].
    + apply Forall_app_2; [done|]. by apply Forall_singleton.
    + apply Forall_app_2; [done|]. by apply Forall_singleton.
    + apply NoDup_app. split; [done|]. split; [|apply NoDup_singleton].
      intros x Hx Hx'. apply list_elem_of_singleton in Hx'. by subst.
Qed.

Lemma DropReferenceAt_ok index l : list_ok l -> list_ok (DropReferenceAt index l).
Proof.
  intros [H1 H2 H3 H4 H5]. unfold DropReferenceAt. destruct (_ >=? _); [by split|].
  set (p := m_popularity l !!! Z.to_nat index). split; simpl; try done; destruct (p >? 0); try done.
  - by rewrite length_insert.
  - apply Forall_insert; [done|]. apply wrap_range. lia.
Qed.

(** ** The referenced hashes *)

Definition referenced (popularity : list Z) (hashes : list (list Z)) : list SResultHash :=
  filter (λ r, 0 < r_popularity r) (zip_with mkResultHash popularity hashes).

Definition positives (l : list Z) : Z := Z.of_nat (length (filter (λ p, 0 < p) l)).

Lemma positives_cons p l : positives (p :: l) = (if p >? 0 then 1 else 0) + positives l.
Proof. unfold positives. rewrite filter_cons. destruct (Z.gtb_spec p 0); case_decide; simpl; lia. Qed.

Lemma positives_bounds l : 0 <= positives l <= Z.of_nat (length l).
Proof. unfold positives. pose proof (length_filter (λ p, 0 < p) l). lia. Qed.

Lemma referenced_cons p h popularity hashes :
  referenced (p :: popularity) (h :: hashes) =
    if p >? 0 then mkResultHash p h :: referenced popularity hashes else referenced popularity hashes.
Proof. unfold referenced. simpl. rewrite filter_cons. simpl. destruct (Z.gtb_spec p 0); case_decide; done || lia. Qed.

Lemma length_referenced popularity : forall hashes, length popularity = length hashes ->
  Z.of_nat (length (referenced popularity hashes)) = positives popularity.
Proof.
  induction popularity as [|p popularity IH]; intros [|h hashes] H; simpl in H; try lia; [done|].
  rewrite referenced_cons, positives_cons. specialize (IH hashes ltac:(lia)). destruct (p >? 0); simpl; lia.
Qed.

Lemma referenced_loop_eq l : forall count, 0 <= count -> count + positives l < 65536 ->
  referenced_loop count l = count + positives l.
Proof.
  induction l as [|p l IH]; intros count H0 H; simpl; [unfold positives; simpl; lia|].
  rewrite positives_cons in H |- *. pose proof (positives_bounds l).
  destruct (p >? 0); rewrite ?wrap_small by width_lia; rewrite IH; lia.
Qed.

Lemma count_loop_eq l : forall count, 0 <= count <= MAX_RESULT_HASHES ->
  count_loop count l = Z.min MAX_RESULT_HASHES (count + positives l).
Proof.
  unfold MAX_RESULT_HASHES. induction l as [|p l IH]; intros count H; simpl; [unfold positives; simpl; lia|].
  rewrite positives_cons. pose proof (positives_bounds l). unfold MAX_RESULT_HASHES.
  destruct (Z.ltb_spec count 11); [|destruct (p >? 0); lia].
  destruct (p >? 0); rewrite ?wrap_small by width_lia; rewrite IH; lia.
Qed.

(** ** Compaction *)

(** The popularity of a slot, 0 behind the last one. *)
Definition votes (l : CKadAICHHashList) (i : nat) : Z := default 0 (m_popularity l !! i).

Lemma compaction_loop_length l : forall next, length (compaction_loop next l) = length l.
Proof. induction l as [|p l IH]; intros next; simpl; [done|]. destruct (p >? 0); simpl; by rewrite IH. Qed.

Lemma compaction_loop_lookup l : forall next i p, 0 <= next -> next + Z.of_nat (length l) < INVALID_INDEX ->
  l !! i = Some p -> compaction_loop next l !! i = Some (if p >? 0 then next + positives (take i l) else INVALID_INDEX).
Proof.
  unfold INVALID_INDEX. induction l as [|q l IH]; intros next i p H0 H Hi; [done|]. simpl length in H.
  destruct i as [|i]; simpl in Hi.
  - injection Hi as ->. simpl. destruct (p >? 0); simpl; [|done]. unfold positives. simpl. f_equal. lia.
  - simpl. destruct (q >? 0) eqn:E; simpl.
    + rewrite wrap_small by width_lia. rewrite (IH (next + 1) i p) by (done || lia).
      rewrite positives_cons, E. f_equal. destruct (p >? 0); lia.
    + rewrite (IH next i p) by (done || lia). by rewrite positives_cons, E.
Qed.

(** What the loop of [Compact] keeps is what has a popularity. *)
Lemma keep_mapped_length {A} (l : list Z) : forall next (x : list A), 0 <= next -> next + Z.of_nat (length l) < INVALID_INDEX ->
  length x = length l -> Z.of_nat (length (keep_mapped (compaction_loop next l) x)) = positives l.
Proof.
  unfold INVALID_INDEX. induction l as [|p l IH]; intros next [|a x] H0 H Hx; simpl in Hx, H; try lia; [done|].
  simpl. rewrite positives_cons. destruct (p >? 0); simpl.
  - rewrite wrap_small by width_lia. unfold INVALID_INDEX. destruct (Z.eqb_spec next 65535); [lia|]. simpl.
    rewrite <- (IH (next + 1) x) by lia. lia.
  - rewrite <- (IH next x) by lia. lia.
Qed.

Lemma keep_mapped_lookup {A} (l : list Z) : forall next (x : list A) i p, 0 <= next -> next + Z.of_nat (length l) < INVALID_INDEX ->
  length x = length l -> l !! i = Some p -> 0 < p ->
  keep_mapped (compaction_loop next l) x !! Z.to_nat (positives (take i l)) = x !! i.
Proof.
  unfold INVALID_INDEX. induction l as [|q l IH]; intros next [|a x] i p H0 H Hx Hi Hp; simpl in Hx, H; try lia; [done|].
  destruct i as [|i]; simpl in Hi.
  - injection Hi as ->. simpl. destruct (Z.gtb_spec p 0); [|lia]. simpl.
    unfold INVALID_INDEX. destruct (Z.eqb_spec next 65535); [lia|]. done.
  - simpl. rewrite positives_cons. pose proof (positives_bounds (take i l)). destruct (q >? 0); simpl.
    + rewrite wrap_small by width_lia. unfold INVALID_INDEX. destruct (Z.eqb_spec next 65535); [lia|]. simpl.
      replace (Z.to_nat (1 + positives (take i l))) with (S (Z.to_nat (positives (take i l)))) by lia. simpl.
      apply (IH (next + 1) x i p); done || lia.
    + apply (IH next x i p); done || lia.
Qed.

Lemma keep_mapped_sublist {A} map (x : list A) : keep_mapped map x `sublist_of` x.
Proof.
  revert x. induction map as [|i map IH]; intros [|a x]; simpl; try apply sublist_nil_l.
  destruct (negb _); [by apply sublist_skip|by apply sublist_cons].
Qed.

Lemma keep_mapped_Forall {A} (P : A -> Prop) map x : Forall P x -> Forall P (keep_mapped map x).
Proof.
  rewrite !Forall_forall. intros H a Ha. apply H. eapply elem_of_sublist; [exact Ha|apply keep_mapped_sublist].
Qed.

Lemma keep_mapped_positive l : forall next, 0 <= next -> next + Z.of_nat (length l) < INVALID_INDEX -> Forall (λ p, 0 <= p) l ->
  Forall (λ p, 0 < p) (keep_mapped (compaction_loop next l) l).
Proof.
  unfold INVALID_INDEX. induction l as [|p l IH]; intros next H0 H Hl; simpl in H; [constructor|].
  apply Forall_cons in Hl as [Hp Hl]. simpl. destruct (Z.gtb_spec p 0); simpl.
  - rewrite wrap_small by width_lia. unfold INVALID_INDEX. destruct (Z.eqb_spec next 65535); [lia|].
    constructor; [lia|]. apply IH; done || lia.
  - apply IH; done || lia.
Qed.

Lemma slots_small l : list_ok l -> 0 + Z.of_nat (length (m_popularity l)) < INVALID_INDEX.
Proof. intros [H1 H2 _ _ _]. unfold INVALID_INDEX, MAX_SLOTS in *. lia. Qed.

Lemma Compact_ok l : list_ok l -> list_ok (Compact l).2.
Proof.
  intros Hl. pose proof (slots_small l Hl) as Hs. destruct Hl as [H1 H2 H3 H4 H5].
  pose proof (keep_mapped_length (m_popularity l) 0 (m_hashes l) ltac:(lia) Hs ltac:(done)) as L1.
  pose proof (keep_mapped_length (m_popularity l) 0 (m_popularity l) ltac:(lia) Hs ltac:(done)) as L2.
  pose proof (positives_bounds (m_popularity l)).
  split; unfold Compact, BuildCompactionMap; simpl; [lia|lia| | |].
  - by apply keep_mapped_Forall.
  - by apply keep_mapped_Forall.
  - eapply sublist_NoDup; [exact H5|apply keep_mapped_sublist].
Qed.

(** The new index of a referenced slot. *)
Lemma Compact_index l i p : list_ok l -> m_popularity l !! i = Some p -> 0 < p ->
  (Compact l).1 !! i = Some (positives (take i (m_popularity l))) /\
  0 <= positives (take i (m_popularity l)) < Z.of_nat (length (m_hashes (Compact l).2)) /\
  m_popularity (Compact l).2 !! Z.to_nat (positives (take i (m_popularity l))) = Some p /\
  m_hashes (Compact l).2 !! Z.to_nat (positives (take i (m_popularity l))) = m_hashes l !! i.
Proof.
  intros Hl Hi Hp. pose proof (slots_small l Hl) as Hs. destruct Hl as [H1 H2 H3 H4 H5].
  pose proof (keep_mapped_lookup (m_popularity l) 0 (m_popularity l) i p ltac:(lia) Hs ltac:(done) Hi Hp) as L1.
  pose proof (keep_mapped_lookup (m_popularity l) 0 (m_hashes l) i p ltac:(lia) Hs ltac:(done) Hi Hp) as L2.
  pose proof (positives_bounds (take i (m_popularity l))).
  unfold Compact, BuildCompactionMap; simpl. split; [|split; [|split]].
  - rewrite (compaction_loop_lookup _ 0 i p) by (done || lia). destruct (Z.gtb_spec p 0); [done|lia].
  - assert (is_Some (m_hashes l !! i)) as Hh by (apply lookup_lt_is_Some; apply lookup_lt_Some in Hi; lia).
    rewrite <- L2 in Hh. apply lookup_lt_is_Some in Hh. lia.
  - by rewrite L1.
  - done.
Qed.

Lemma Compact_free l i : list_ok l -> m_popularity l !! i = Some 0 -> (Compact l).1 !! i = Some INVALID_INDEX.
Proof.
  intros Hl Hi. pose proof (slots_small l Hl) as Hs. unfold Compact, BuildCompactionMap; simpl.
  by rewrite (compaction_loop_lookup _ 0 i 0) by (done || lia).
Qed.

Lemma Compact_positive l : list_ok l -> Forall (λ p, 0 < p) (m_popularity (Compact l).2).
Proof.
  intros Hl. pose proof (slots_small l Hl) as Hs. destruct Hl as [_ _ H3 _ _]. apply (keep_mapped_positive _ 0); [lia|done|].
  eapply Forall_impl; [exact H3|]. intros p [Hp _]. exact Hp.
Qed.

(** Every slot that is left comes from an old one. *)
Lemma keep_mapped_inv {A} map : forall (l : list Z) (x : list A) j p a, length x = length l ->
  keep_mapped map l !! j = Some p -> keep_mapped map x !! j = Some a -> exists i, l !! i = Some p /\ x !! i = Some a.
Proof.
  induction map as [|m map IH]; intros [|q l] [|b x] j p a Hx Hp Ha; simpl in Hx, Hp, Ha; try done.
  assert (forall j, keep_mapped map l !! j = Some p -> keep_mapped map x !! j = Some a ->
    exists i, (q :: l) !! i = Some p /\ (b :: x) !! i = Some a) as Hrest.
  { intros k Hk1 Hk2. destruct (IH l x k p a ltac:(lia) Hk1 Hk2) as (i & Hi). by exists (S i). }
  destruct (negb (m =? INVALID_INDEX)); [|by apply (Hrest j)].
  destruct j as [|j]; [exists O; split; assumption|by apply (Hrest j)].
Qed.

Lemma Compact_inv l j : list_ok l -> (j < length (m_hashes (Compact l).2))%nat ->
  exists i, m_hashes (Compact l).2 !! j = m_hashes l !! i /\ votes (Compact l).2 j = votes l i /\ 0 < votes l i /\
    (i < length (m_hashes l))%nat.
Proof.
  intros Hl Hj. pose proof (Compact_ok l Hl) as Hc. pose proof (Compact_positive l Hl) as Hpos.
  destruct (lookup_lt_is_Some_2 _ _ Hj) as [a Ha].
  destruct (lookup_lt_is_Some_2 (m_popularity (Compact l).2) j ltac:(destruct Hc; lia)) as [p Hp].
  pose proof (Forall_lookup_1 _ _ _ _ Hpos Hp) as Hp0. simpl in Hp0.
  destruct (keep_mapped_inv (Compact l).1 (m_popularity l) (m_hashes l) j p a ltac:(symmetry; apply Hl) Hp Ha) as (i & Hi1 & Hi2).
  exists i. rewrite Ha, Hi2. unfold votes. rewrite Hp, Hi1. split_and!; try done. by apply lookup_lt_Some in Hi2.
Qed.

(** ** The answer *)

Definition result_bytes (r : SResultHash) : list Z := r_popularity r :: r_hash r.

Definition result_ok (r : SResultHash) : Prop := 0 < r_popularity r < 256 /\ aich_ok (r_hash r).

Lemma encode_loop_eq popularity : forall hashes written count, length popularity = length hashes ->
  Forall is_byte popularity -> 0 <= written <= count -> count <= MAX_RESULT_HASHES ->
  encode_loop written count popularity hashes =
  concat (map result_bytes (take (Z.to_nat (count - written)) (referenced popularity hashes))).
Proof.
  unfold MAX_RESULT_HASHES.
  induction popularity as [|p popularity IH]; intros [|h hashes] written count H Hp Hw Hc; simpl in H; try lia.
  - change (referenced [] []) with (@nil SResultHash). by rewrite take_nil.
  - apply Forall_cons in Hp as [Hp0 Hp]. unfold is_byte, in_width in Hp0. simpl. rewrite referenced_cons.
    destruct (Z.ltb_spec written count); [|by replace (Z.to_nat (count - written)) with O by lia].
    destruct (Z.eqb_spec p 0) as [->|Hn]; [by apply IH; simpl; (lia || done)|].
    destruct (Z.gtb_spec p 0); [|lia]. rewrite wrap_small by width_lia. rewrite IH by (done || lia).
    by replace (Z.to_nat (count - written)) with (S (Z.to_nat (count - (written + 1)))) by lia.
Qed.

Lemma referenced_ok l : list_ok l -> Forall result_ok (referenced (m_popularity l) (m_hashes l)).
Proof.
  intros [H1 _ H3 H4 _]. revert H1 H3 H4. generalize (m_popularity l), (m_hashes l).
  induction l0 as [|p ps IH]; intros [|h hs] H1 H3 H4; simpl in H1; try lia; [constructor|].
  apply Forall_cons in H3 as [Hp H3]. apply Forall_cons in H4 as [Hh H4]. rewrite referenced_cons. unfold is_byte, in_width in Hp.
  destruct (Z.gtb_spec p 0); [constructor|]; try (apply IH; done || lia). split; [simpl; lia|done].
Qed.

Lemma decode_loop_eq rs : forall rest, Forall result_ok rs ->
  decode_loop (length rs) (concat (map result_bytes rs) ++ rest) = rs.
Proof.
  induction rs as [|[p h] rs IH]; intros rest H; [done|]. apply Forall_cons in H as [[Hp [Hb Hl]] H]. simpl in *.
  rewrite drop_0, <- app_assoc, take_app_le, take_ge by (simpl; lia).
  destruct (Z.gtb_spec p 0); [|lia]. f_equal. rewrite <- Hl at 1. rewrite drop_app_length. by apply IH.
Qed.

Lemma result_bytes_length rs : Forall result_ok rs -> length (concat (map result_bytes rs)) = (21 * length rs)%nat.
Proof.
  induction 1 as [|r rs [_ [_ Hl]] H IH]; [done|]. simpl. rewrite length_app, Hl, IH. lia.
Qed.

(** ** References *)

Lemma GetPopularityAt_votes i l : 0 <= i -> GetPopularityAt i l = votes l (Z.to_nat i).
Proof.
  intros Hi. unfold GetPopularityAt, votes. destruct (Z.ltb_spec i (Z.of_nat (length (m_popularity l)))).
  - rewrite list_lookup_total_alt. destruct (m_popularity l !! Z.to_nat i) eqn:E; [done|]. apply lookup_ge_None_1 in E. lia.
  - by rewrite lookup_ge_None_2 by lia.
Qed.

Lemma GetHashAt_lookup i l h : 0 <= i -> m_hashes l !! Z.to_nat i = Some h -> GetHashAt i l = h.
Proof.
  intros Hi Hh. unfold GetHashAt. pose proof (lookup_lt_Some _ _ _ Hh).
  destruct (Z.ltb_spec i (Z.of_nat (length (m_hashes l)))); [|lia]. by apply list_lookup_total_correct.
Qed.

Lemma votes_range l i : list_ok l -> 0 <= votes l i < 256.
Proof.
  intros [_ _ H _ _]. unfold votes. destruct (m_popularity l !! i) as [p|] eqn:E; simpl; [|lia].
  apply (Forall_lookup_1 _ _ _ _ H E).
Qed.

Lemma votes_insert h ps p i j : (i < length ps)%nat -> votes (mkHashList h (<[i := p]> ps)) j = if bool_decide (i = j) then p else votes (mkHashList h ps) j.
Proof.
  intros Hi. unfold votes. simpl. case_bool_decide as E; [subst; by rewrite list_lookup_insert_eq|by rewrite list_lookup_insert_ne].
Qed.

(** A reference goes to the slot of the hash, a new one when there is none, and the full list
    refuses. *)
Lemma AddReference_spec hash l : list_ok l ->
  let r := AddReference hash l in
  (r.1 = INVALID_INDEX /\ r.2 = l /\ hash ∉ m_hashes l) \/
  (exists i, r.1 = Z.of_nat i /\ Z.of_nat i < MAX_SLOTS /\ m_hashes r.2 !! i = Some hash /\
     (m_hashes r.2 = m_hashes l \/ hash ∉ m_hashes l /\ i = length (m_hashes l) /\ m_hashes r.2 = m_hashes l ++ [hash]) /\
     forall j, votes r.2 j = if bool_decide (i = j) then Z.min 255 (votes l j + 1) else votes l j).
Proof.
  intros Hl. pose proof Hl as [H1 H2 H3 H4 H5]. unfold MAX_SLOTS in *. cbv zeta. unfold AddReference.
  pose proof (find_slot_spec hash (m_hashes l) 0) as Hf. destruct (find_slot hash 0 (m_hashes l)) as [i|].
  - right. destruct Hf as [Hi Hf]. rewrite Z.sub_0_r in Hf. exists (Z.to_nat i). simpl. rewrite wrap_small by width_lia.
    split; [lia|]. split; [lia|]. split; [done|]. split; [by left|]. intros j.
    pose proof (votes_range l (Z.to_nat i) Hl) as Hv. unfold votes in Hv.
    rewrite list_lookup_total_alt. destruct (m_popularity l !! Z.to_nat i) as [p|] eqn:Ep; [|apply lookup_ge_None_1 in Ep; lia].
    simpl in Hv |- *. destruct (Z.ltb_spec p 0xFF).
    + rewrite votes_insert by lia. case_bool_decide as E; [|done]. subst j. unfold votes. rewrite Ep. simpl.
      rewrite wrap_small by width_lia. lia.
    + case_bool_decide as E; [|done]. subst j. unfold votes. simpl. rewrite Ep. simpl. lia.
  - unfold MAX_SLOTS. destruct (Z.geb_spec (Z.of_nat (length (m_hashes l))) 1024); [by left|]. right. exists (length (m_hashes l)). simpl.
    rewrite length_app. simpl. rewrite wrap_small by width_lia.
    split; [lia|]. split; [lia|]. split; [by apply list_lookup_middle|]. split; [by right|]. intros j. unfold votes. simpl.
    case_bool_decide as E.
    + subst j. rewrite (lookup_ge_None_2 (m_popularity l)) by lia. rewrite list_lookup_middle by lia. done.
    + destruct (decide (j < length (m_popularity l))%nat); [by rewrite lookup_app_l|].
      rewrite (lookup_ge_None_2 (m_popularity l)) by lia. rewrite lookup_ge_None_2; [done|]. rewrite length_app. simpl. lia.
Qed.

Lemma DropReferenceAt_spec index l : list_ok l -> 0 <= index ->
  m_hashes (DropReferenceAt index l) = m_hashes l /\
  forall j, votes (DropReferenceAt index l) j = if bool_decide (Z.to_nat index = j) then Z.max 0 (votes l j - 1) else votes l j.
Proof.
  intros Hl Hi. pose proof Hl as [H1 H2 H3 H4 H5]. unfold DropReferenceAt.
  destruct (Z.geb_spec index (Z.of_nat (length (m_hashes l)))).
  - split; [done|]. intros j. case_bool_decide as E; [|done]. unfold votes. by rewrite lookup_ge_None_2 by lia.
  - split; [done|]. intros j. pose proof (votes_range l (Z.to_nat index) Hl) as Hv. unfold votes in Hv.
    rewrite list_lookup_total_alt. destruct (m_popularity l !! Z.to_nat index) as [p|] eqn:Ep; [|apply lookup_ge_None_1 in Ep; lia].
    simpl in Hv |- *. destruct (Z.gtb_spec p 0).
    + rewrite votes_insert by lia. case_bool_decide as E; [|done]. subst j. unfold votes. rewrite Ep. simpl.
      rewrite wrap_small by width_lia. lia.
    + case_bool_decide as E; [|done]. subst j. unfold votes. simpl. rewrite Ep. simpl. lia.
Qed.

Lemma EncodeResultTag_eq l : list_ok l -> EncodeResultTag l =
  let r := take 11 (referenced (m_popularity l) (m_hashes l)) in
  if bool_decide (r = []) then [] else Z.of_nat (length r) :: concat (map result_bytes r).
Proof.
  intros Hl. pose proof Hl as [H1 H2 H3 H4 H5]. cbv zeta. unfold EncodeResultTag.
  rewrite count_loop_eq by (unfold MAX_RESULT_HASHES; lia).
  pose proof (length_referenced (m_popularity l) (m_hashes l) H1) as Hr. pose proof (positives_bounds (m_popularity l)).
  rewrite encode_loop_eq; [|done|done|unfold MAX_RESULT_HASHES; lia|unfold MAX_RESULT_HASHES; lia].
  rewrite Z.sub_0_r, Z.add_0_l. set (r := referenced _ _) in *. unfold MAX_RESULT_HASHES.
  replace (take (Z.to_nat (Z.min 11 (positives (m_popularity l)))) r) with (take 11 r).
  2:{ destruct (Z.min_spec 11 (positives (m_popularity l))) as [[? ->]|[? ->]]; [done|].
      by rewrite !take_ge by lia. }
  replace (Z.min 11 (positives (m_popularity l))) with (Z.of_nat (length (take 11 r))) by (rewrite length_take; lia).
  destruct (take 11 r) as [|x r']; [done|]. simpl. by destruct (Z.eqb_spec (Z.pos (Pos.of_succ_nat (length r'))) 0).
Qed.

Lemma aich_result_bytes l : list_ok l ->
  Forall is_byte (EncodeResultTag l) /\ Z.of_nat (length (EncodeResultTag l)) <= 232.
Proof.
  intros Hl. rewrite EncodeResultTag_eq by done. cbv zeta. set (r := take 11 _).
  assert (Forall result_ok r) as Hr by (apply Forall_take, referenced_ok, Hl).
  assert (length r <= 11)%nat as Hn by (unfold r; rewrite length_take; lia).
  pose proof (result_bytes_length r Hr) as Hb. split.
  - case_bool_decide; [constructor|]. constructor; [unfold is_byte, in_width; norm_pow; lia|].
    clear -Hr. induction Hr as [|[p h] r [Hp [Hh _]] Hr IH]; [constructor|]. simpl in *.
    constructor; [unfold is_byte, in_width; norm_pow; lia|]. by apply Forall_app.
  - case_bool_decide; simpl; [lia|]. rewrite Hb. lia.
Qed.

(** The published answer: the first eleven referenced hashes are read back, in 1 + 21 bytes for each
    and at most 232 bytes; a list without references sends nothing, and nothing is refused; and any
    payload that announces more than eleven hashes, or more than it holds, is refused. *)
Theorem aich_result_roundtrip (l : CKadAICHHashList) (tail : list Z) : list_ok l ->
  let r := take 11 (referenced (m_popularity l) (m_hashes l)) in
  (r = [] -> EncodeResultTag l = []) /\
  (r <> [] -> DecodeResultTag (EncodeResultTag l ++ tail) = Some r) /\
  Forall is_byte (EncodeResultTag l) /\ Z.of_nat (length (EncodeResultTag l)) <= 232 <= MAX_RESULT_TAG_SIZE.
Proof.
  intros Hl r. pose proof (aich_result_bytes l Hl) as [HB HL].
  assert (Forall result_ok r) as Hr by (apply Forall_take, referenced_ok, Hl).
  assert (length r <= 11)%nat as Hn by (unfold r; rewrite length_take; lia).
  pose proof (result_bytes_length r Hr) as Hb.
  split; [|split; [|split; [done|unfold MAX_RESULT_TAG_SIZE; lia]]]; rewrite EncodeResultTag_eq by done; cbv zeta; fold r.
  - intros ->. done.
  - intros Hne. rewrite bool_decide_eq_false_2 by done. unfold DecodeResultTag. simpl.
    unfold MAX_RESULT_HASHES, KAD_AICH_HASH_SIZE. rewrite length_app, Hb.
    destruct (Z.gtb_spec (Z.of_nat (length r)) 11); [lia|].
    destruct (Z.ltb_spec (Z.of_nat (S (21 * length r + length tail))) (1 + Z.of_nat (length r) * (1 + 20))); [lia|].
    by rewrite Nat2Z.id, decode_loop_eq.
Qed.

(** What is accepted: exactly the payloads whose count is at most eleven and covered by the data. *)
Theorem aich_decode_accepts (data : list Z) :
  is_Some (DecodeResultTag data) <->
  exists count rest, data = count :: rest /\ count <= 11 /\ 21 * count <= Z.of_nat (length rest).
Proof.
  unfold DecodeResultTag, MAX_RESULT_HASHES, KAD_AICH_HASH_SIZE. destruct data as [|count rest].
  - split; [intros [? ?]; done|intros (? & ? & ? & _); done].
  - simpl length. destruct (Z.gtb_spec count 11); [|destruct (Z.ltb_spec (Z.of_nat (S (length rest))) (1 + count * (1 + 20)))].
    + split; [intros [? ?]; done|intros (? & ? & [= -> ->] & ? & _); lia].
    + split; [intros [? ?]; done|intros (? & ? & [= -> ->] & _ & ?); lia].
    + split; [intros _; eexists _, _; split; [done|lia]|by eexists].
Qed.

Definition sample_hashes : CKadAICHHashList :=
  (AddReference (replicate 20 7) (AddReference (replicate 20 3) (AddReference (replicate 20 7) CKadAICHHashList_new).2).2).2.

Lemma sample_hashes_ok : list_ok sample_hashes.
Proof.
  repeat apply AddReference_ok; try apply list_ok_new; split; try done; apply Forall_replicate; unfold is_byte, in_width; norm_pow; lia.
Qed.

Lemma aich_result_roundtrip_witness : list_ok sample_hashes /\
  DecodeResultTag (EncodeResultTag sample_hashes ++ [9]) = Some [mkResultHash 2 (replicate 20 7); mkResultHash 1 (replicate 20 3)].
Proof.
  split; [apply sample_hashes_ok|]. refine (proj1 (proj2 (aich_result_roundtrip sample_hashes [9] sample_hashes_ok)) _). done.
Defined.
