(* ===== verification/KadEntry.v ===== *)
(** * Entries of the Kad index ([kademlia/kademlia/Entry.{h,cpp}])

    An entry describes a file, a source or a note that somebody published.  A keyword entry also
    remembers who published it, under which names and with which AICH hash, and how far it is to be
    trusted: the publishers of all entries are counted for each /24 network in one global map.

    The comparison of names without case and the double arithmetic are parameters, as they are the
    toolkit's and the machine's; the clock readings of one call are one argument. *)
From stdpp Require Import gmap.
From S2P Require Import Prelude StdMap UInt128 DataIO MemFile Tag AICHHashList.

Definition TAG_FILENAME : wxString := [0x01].
Definition TAG_FILESIZE : wxString := [0x02].
Definition TAG_FILEFORMAT : wxString := [0x04].
Definition TAG_PUBLISHINFO : wxString := [0x33].
Definition TAG_KADAICHHASHRESULT : wxString := [0x37].

Definition KADEMLIAREPUBLISHTIMES : Z := 5 * 60 * 60.
Definition KADEMLIAREPUBLISHTIMEK : Z := 24 * 60 * 60.

(** ** Plain entries *)

Record sFileNameEntry := mkFileName { m_filename : wxString; m_popularityIndex : Z }.

Record CEntry := mkEntry {
  m_uIP : Z;
  m_uTCPport : Z;
  m_uUDPport : Z;
  m_uKeyID : CUInt128;
  m_uSourceID : CUInt128;
  m_uSize : Z;
  m_tLifeTime : Z;
  m_bSource : bool;
  m_filenames : list sFileNameEntry;
  m_taglist : list CTag
}.

Definition CEntry_new (now : Z) : CEntry :=
  mkEntry 0 0 0 (of_uint32 0) (of_uint32 0) 0 now false [] [].

Definition set_filenames (l : list sFileNameEntry) (e : CEntry) : CEntry :=
  mkEntry (m_uIP e) (m_uTCPport e) (m_uUDPport e) (m_uKeyID e) (m_uSourceID e) (m_uSize e) (m_tLifeTime e) (m_bSource e)
    l (m_taglist e).

Definition set_taglist (l : list CTag) (e : CEntry) : CEntry :=
  mkEntry (m_uIP e) (m_uTCPport e) (m_uUDPport e) (m_uKeyID e) (m_uSourceID e) (m_uSize e) (m_tLifeTime e) (m_bSource e)
    (m_filenames e) l.

Fixpoint clone_tags (l : list CTag) : exn + list CTag :=
  match l with
  | [] => inr []
  | t :: l =>
      match CTag_copy t, clone_tags l with
      | inr t, inr l => inr (t :: l)
      | inl e, _ | _, inl e => inl e
      end
  end.

Definition Copy (e : CEntry) : exn + CEntry :=
  match clone_tags (m_taglist e) with inr l => inr (set_taglist l e) | inl x => inl x end.

(** The answer-only tags are not stored. *)
Definition AddTag (tag : CTag) (e : CEntry) : CEntry :=
  if bool_decide (m_Name tag = TAG_PUBLISHINFO) || bool_decide (m_Name tag = TAG_KADAICHHASHRESULT) then e
  else set_taglist (m_taglist e ++ [tag]) e.

(** The tags are read under the test of their type, so that the accessors do not throw. *)
Definition int_of (t : CTag) : Z := match GetInt t with inr v => v | inl _ => 0 end.
Definition str_of (t : CTag) : wxString := match GetStr t with inr s => s | inl _ => [] end.
Definition float_of (t : CTag) : Z := match GetFloat t with inr v => v | inl _ => 0 end.

(** [None] for false, whose value is 0. *)
Definition GetIntTagValue (tagname : wxString) (includeVirtualTags : bool) (e : CEntry) : option Z :=
  match List.find (fun t => IsInt t && bool_decide (m_Name t = tagname)) (m_taglist e) with
  | Some t => Some (int_of t)
  | None => if includeVirtualTags && bool_decide (tagname = TAG_FILESIZE) then Some (m_uSize e) else None
  end.

Definition GetStrTagValue (tagname : wxString) (e : CEntry) : wxString :=
  match List.find (fun t => bool_decide (m_Name t = tagname) && IsStr t) (m_taglist e) with
  | Some t => str_of t
  | None => []
  end.

Definition SetFileName (name : wxString) (e : CEntry) : CEntry :=
  match name with
  | [] => e
  | _ => set_filenames [mkFileName name 1] e
  end.

(** The loop of [GetCommonFileName] with the best name so far. *)
Fixpoint most_popular (result : sFileNameEntry) (l : list sFileNameEntry) : sFileNameEntry :=
  match l with
  | [] => result
  | x :: l => most_popular (if m_popularityIndex x >? m_popularityIndex result then x else result) l
  end.

Definition GetCommonFileName (e : CEntry) : wxString :=
  match m_filenames e with
  | [] => []
  | x :: l => m_filename (most_popular x l)
  end.

Definition is_empty (s : wxString) : bool := match s with [] => true | _ => false end.

Definition GetTagCount (e : CEntry) : Z :=
  u32 (Z.of_nat (length (m_taglist e)) + (if negb (m_uSize e =? 0) then 1 else 0) +
       (if is_empty (GetCommonFileName e) then 0 else 1)).

Section WriteTags.

Context {F : Type} {IOF : CFileDataIO F} {conv : wxConv}.

#[local] Open Scope io_scope.

(** The loop over the tag list. *)
Fixpoint write_budget (l : list CTag) (budget : Z) : IO F unit :=
  match l with
  | [] => io_ret tt
  | t :: l => if budget >? 0 then seq! WriteTag t in write_budget l (budget - 1) else io_ret tt
  end.

Definition WriteTagListInc (e : CEntry) (increaseTagNumber : Z) : IO F unit :=
  let wanted := u32 (GetTagCount e + increaseTagNumber) in
  let count := if wanted >? 0xFF then 0xFF else wanted in
  seq! WriteUInt8 (u8 count) in
  let budget := if count >? increaseTagNumber then count - increaseTagNumber else 0 in
  let name := negb (is_empty (GetCommonFileName e)) && (budget >? 0) in
  seq! (if name then WriteTag (CTagString (CTag_named TAG_FILENAME) (GetCommonFileName e)) else io_ret tt) in
  let budget := if name then budget - 1 else budget in
  let size := negb (m_uSize e =? 0) && (budget >? 0) in
  seq! (if size then let! t := io_lift (SizedInit (m_uSize e) 0 (CTag_named TAG_FILESIZE)) in WriteTag t else io_ret tt) in
  let budget := if size then budget - 1 else budget in
  write_budget (m_taglist e) budget.

Definition WriteTagList (e : CEntry) : IO F unit := WriteTagListInc e 0.

End WriteTags.

(** ** Search terms ([struct SSearchTerm] of [Indexed.h]) *)

Inductive ESearchTermOp := OpGreaterEqual | OpLessEqual | OpGreater | OpLess | OpEqual | OpNotEqual.

Inductive SSearchTerm :=
| TermAND (left right : SSearchTerm)
| TermOR (left right : SSearchTerm)
| TermNOT (left right : SSearchTerm)
| TermString (astr : list wxString)
| TermMetaTag (tag : CTag)
| TermOp (op : ESearchTermOp) (tag : CTag).

(** What the toolkit does with the case of letters. *)
Class wxCase := {
  MakeLower : wxString -> wxString;
  (** [a.CmpNoCase(b) == 0] *)
  same_nocase : wxString -> wxString -> bool
}.

(** The machine's double arithmetic, as the trust value uses it. *)
Class Doubles := {
  double : Type;
  d_zero : double;
  d_add : double -> double -> double;
  (** [10.0 / count] *)
  d_points : Z -> double;
  (** [x < 1.0] *)
  d_below_one : double -> bool;
  (** [(uint16_t)(x * 100)] *)
  d_percent : double -> Z
}.

(** [Find]: whether the text occurs. *)
Fixpoint occurs (s t : wxString) : bool :=
  bool_decide (take (length s) t = s) || match t with [] => false | _ :: t => occurs s t end.

(** [name.Mid(name.Find('.', true) + 1)]; [None] when there is no dot. *)
Fixpoint extension (name : wxString) : option wxString :=
  match name with
  | [] => None
  | c :: name =>
      match extension name with
      | Some e => Some e
      | None => if c =? 46 then Some name else None
      end
  end.

Definition int_cmp (op : ESearchTermOp) (a b : Z) : bool :=
  match op with
  | OpGreaterEqual => a >=? b
  | OpLessEqual => a <=? b
  | OpGreater => a >? b
  | OpLess => a <? b
  | OpEqual => a =? b
  | OpNotEqual => negb (a =? b)
  end.

Section SearchTerms.

Context {wxcase : wxCase}.

(** The comparisons of floats, given by their bits. *)
Context (float_cmp : ESearchTermOp -> Z -> Z -> bool).

Definition match_string (e : CEntry) (astr : list wxString) : bool :=
  match astr with
  | [] => false
  | _ =>
      let commonFileNameLower := MakeLower (GetCommonFileName e) in
      forallb (fun s => occurs s commonFileNameLower) astr
  end.

Definition match_meta (e : CEntry) (tag : CTag) : bool :=
  if m_uType tag =? 2 then
    if bool_decide (m_Name tag = TAG_FILEFORMAT) then
      match extension (GetCommonFileName e) with
      | Some ext => same_nocase ext (str_of tag)
      | None => false
      end
    else
      match List.find (fun t => IsStr t && bool_decide (m_Name tag = m_Name t)) (m_taglist e) with
      | Some t => same_nocase (str_of t) (str_of tag)
      | None => false
      end
  else false.

Definition match_op (e : CEntry) (op : ESearchTermOp) (tag : CTag) : bool :=
  if IsInt tag then
    match GetIntTagValue (m_Name tag) true e with
    | Some value => int_cmp op value (int_of tag)
    | None => false
    end
  else if IsFloat tag then
    match List.find (fun t => IsFloat t && bool_decide (m_Name tag = m_Name t)) (m_taglist e) with
    | Some t => float_cmp op (float_of t) (float_of tag)
    | None => false
    end
  else false.

Fixpoint SearchTermsMatch (e : CEntry) (searchTerm : SSearchTerm) : bool :=
  match searchTerm with
  | TermAND l r => SearchTermsMatch e l && SearchTermsMatch e r
  | TermOR l r => SearchTermsMatch e l || SearchTermsMatch e r
  | TermNOT l r => SearchTermsMatch e l && negb (SearchTermsMatch e r)
  | TermString astr => match_string e astr
  | TermMetaTag tag => match_meta e tag
  | TermOp op tag => match_op e op tag
  end.

End SearchTerms.

(** ** Keyword entries *)

Record sPublishingIP := mkPublisher { p_ip : Z; p_lastPublish : Z; p_aichHashIdx : Z }.

Abbreviation GlobalPublishIPMap := (gmap Z Z) (only parsing).

(** [ip & 0xFFFFFF00] *)
Definition subnet (ip : Z) : Z := Z.land ip 0xFFFFFF00.

Definition AdjustGlobalPublishTracking (ip : Z) (increase : bool) (g : GlobalPublishIPMap) : GlobalPublishIPMap :=
  let found := g !! subnet ip in
  let count := default 0 found in
  let count := if increase then u32 (count + 1) else u32 (count - 1) in
  if count >? 0 then <[subnet ip := count]> g
  else match found with Some _ => delete (subnet ip) g | None => g end.

Section KeyEntry.

Context {wxcase : wxCase} {doubles : Doubles}.

Record CKeyEntry := mkKeyEntry {
  ke_entry : CEntry;
  m_lastTrustValueCalc : Z;
  m_trustValue : double;
  m_aichHashes : CKadAICHHashList;
  m_publishingIPs : option (list sPublishingIP)
}.

Definition CKeyEntry_new (now : Z) : CKeyEntry := mkKeyEntry (CEntry_new now) 0 d_zero CKadAICHHashList_new None.

Definition set_entry (b : CEntry) (e : CKeyEntry) : CKeyEntry :=
  mkKeyEntry b (m_lastTrustValueCalc e) (m_trustValue e) (m_aichHashes e) (m_publishingIPs e).

Definition set_trust (t : Z) (v : double) (e : CKeyEntry) : CKeyEntry :=
  mkKeyEntry (ke_entry e) t v (m_aichHashes e) (m_publishingIPs e).

Definition set_hashes (h : CKadAICHHashList) (e : CKeyEntry) : CKeyEntry :=
  mkKeyEntry (ke_entry e) (m_lastTrustValueCalc e) (m_trustValue e) h (m_publishingIPs e).

Definition set_publishers (p : option (list sPublishingIP)) (e : CKeyEntry) : CKeyEntry :=
  mkKeyEntry (ke_entry e) (m_lastTrustValueCalc e) (m_trustValue e) (m_aichHashes e) p.

(** Every publisher leaves the global map. *)
Definition release (l : list sPublishingIP) (g : GlobalPublishIPMap) : GlobalPublishIPMap :=
  fold_left (fun g p => AdjustGlobalPublishTracking (p_ip p) false g) l g.

(** The destructor. *)
Definition CKeyEntry_delete (e : CKeyEntry) (g : GlobalPublishIPMap) : GlobalPublishIPMap :=
  match m_publishingIPs e with
  | Some l => release l g
  | None => g
  end.

(** The loop of [ReCalculateTrustValue]. *)
Fixpoint trust_loop (g : GlobalPublishIPMap) (v : double) (l : list sPublishingIP) : double :=
  match l with
  | [] => v
  | p :: l =>
      let count := default 0 (g !! subnet (p_ip p)) in
      trust_loop g (if count >? 0 then d_add v (d_points count) else v) l
  end.

Definition ReCalculateTrustValue (tick : Z) (g : GlobalPublishIPMap) (e : CKeyEntry) : CKeyEntry :=
  match m_publishingIPs e with
  | None => e
  | Some l => set_trust tick (trust_loop g d_zero l) e
  end.

(** The value, and the entry. *)
Definition GetTrustValue (tick : Z) (g : GlobalPublishIPMap) (e : CKeyEntry) : double * CKeyEntry :=
  let e := if u64 (tick - m_lastTrustValueCalc e) >? 10 * 60 * 1000 then ReCalculateTrustValue tick g e else e in
  (m_trustValue e, e).

Fixpoint cleanup_loop (now : Z) (l : list sPublishingIP) (aich : CKadAICHHashList) (g : GlobalPublishIPMap) :
  list sPublishingIP * CKadAICHHashList * GlobalPublishIPMap :=
  match l with
  | [] => ([], aich, g)
  | p :: l' =>
      if now - p_lastPublish p >? KADEMLIAREPUBLISHTIMEK
      then cleanup_loop now l' (DropReferenceAt (p_aichHashIdx p) aich) (AdjustGlobalPublishTracking (p_ip p) false g)
      else (l, aich, g)
  end.

Definition CleanUpTrackedPublishers (now : Z) (e : CKeyEntry) (g : GlobalPublishIPMap) : CKeyEntry * GlobalPublishIPMap :=
  match m_publishingIPs e with
  | None => (e, g)
  | Some l =>
      let '(l, aich, g) := cleanup_loop now l (m_aichHashes e) g in
      (set_publishers (Some l) (set_hashes aich e), g)
  end.

Definition SetPublishedAICHHash (hash : list Z) (e : CKeyEntry) : CKeyEntry :=
  set_hashes (AddReference hash (m_aichHashes e)).2 e.

Definition DirtyDeletePublishData (e : CKeyEntry) : CKeyEntry := set_publishers None e.

(** ** Merging a new entry with the stored one *)

(** The publisher of a republished entry: its time is renewed, and its hash follows the new one. *)
Definition refresh_publisher (now : Z) (hasNewAICHHash : bool) (newAICHHash : list Z) (p : sPublishingIP)
  (aich : CKadAICHHashList) : sPublishingIP * CKadAICHHashList :=
  if hasNewAICHHash then
    if p_aichHashIdx p =? INVALID_INDEX then
      let '(i, aich) := AddReference newAICHHash aich in (mkPublisher (p_ip p) now i, aich)
    else if negb (bool_decide (GetHashAt (p_aichHashIdx p) aich = newAICHHash)) then
      let '(i, aich) := AddReference newAICHHash (DropReferenceAt (p_aichHashIdx p) aich) in
      (mkPublisher (p_ip p) now i, aich)
    else (mkPublisher (p_ip p) now (p_aichHashIdx p), aich)
  else if negb (p_aichHashIdx p =? INVALID_INDEX) then
    (mkPublisher (p_ip p) now INVALID_INDEX, DropReferenceAt (p_aichHashIdx p) aich)
  else (mkPublisher (p_ip p) now INVALID_INDEX, aich).

(** The first publisher with the address, what is before it and what is behind it. *)
Fixpoint find_publisher (ip : Z) (l : list sPublishingIP) : option (list sPublishingIP * sPublishingIP * list sPublishingIP) :=
  match l with
  | [] => None
  | p :: l =>
      if p_ip p =? ip then Some ([], p, l)
      else match find_publisher ip l with
           | Some (pre, q, post) => Some (p :: pre, q, post)
           | None => None
           end
  end.

Definition MAX_FILENAMES : Z := 100.

(** [std::min_element] *)
Fixpoint min_element (i : nat) (best : nat) (popularity : Z) (l : list sFileNameEntry) : nat :=
  match l with
  | [] => best
  | x :: l =>
      if m_popularityIndex x <? popularity then min_element (S i) i (m_popularityIndex x) l
      else min_element (S i) best popularity l
  end.

Definition weakest (l : list sFileNameEntry) : nat :=
  match l with
  | [] => O
  | x :: l => min_element 1 0 (m_popularityIndex x) l
  end.

Definition pushBounded (candidate : sFileNameEntry) (l : list sFileNameEntry) : list sFileNameEntry :=
  if Z.of_nat (length l) <? MAX_FILENAMES then l ++ [candidate]
  else
    match l !! weakest l with
    | Some w => if m_popularityIndex candidate >? m_popularityIndex w then <[weakest l := candidate]> l else l
    | None => l
    end.

(** The loop over the names of the stored entry. *)
Fixpoint merge_names (fastRefresh : bool) (currentName : sFileNameEntry) (from : list sFileNameEntry) (duplicate : bool)
  (l : list sFileNameEntry) : bool * list sFileNameEntry :=
  match from with
  | [] => (duplicate, l)
  | n :: from =>
      if is_empty (m_filename n) then merge_names fastRefresh currentName from duplicate l
      else
        let same := same_nocase (m_filename currentName) (m_filename n) in
        let n := if same && negb fastRefresh then mkFileName (m_filename n) (u32 (m_popularityIndex n + 1)) else n in
        merge_names fastRefresh currentName from (duplicate || same) (pushBounded n l)
  end.

Definition merge_filenames (fastRefresh : bool) (from l : list sFileNameEntry) : list sFileNameEntry :=
  let '(currentName, l) := match l with [] => (mkFileName [] 0, []) | x :: l => (x, l) end in
  let '(duplicate, l) := merge_names fastRefresh currentName from false l in
  if negb duplicate && negb (is_empty (m_filename currentName)) then pushBounded currentName l else l.

(** The last loop of [MergeIPsAndFilenames]. *)
Definition remap (compacted : list Z) (p : sPublishingIP) : sPublishingIP :=
  mkPublisher (p_ip p) (p_lastPublish p)
    (if p_aichHashIdx p <? Z.of_nat (length compacted) then compacted !!! Z.to_nat (p_aichHashIdx p) else INVALID_INDEX).

(** A publisher that is new to the entry. *)
Definition add_publisher (now tick : Z) (hasNewAICHHash : bool) (newAICHHash : list Z) (e : CKeyEntry)
  (l : list sPublishingIP) (g : GlobalPublishIPMap) : CKeyEntry * GlobalPublishIPMap :=
  let '(i, aich) := if hasNewAICHHash then AddReference newAICHHash (m_aichHashes e) else (INVALID_INDEX, m_aichHashes e) in
  let l := l ++ [mkPublisher (m_uIP (ke_entry e)) now i] in
  let g := AdjustGlobalPublishTracking (m_uIP (ke_entry e)) true g in
  let '(l, aich, g) :=
    if Z.of_nat (length l) >? 100 then
      match l with
      | [] => (l, aich, g)
      | p :: l => (l, DropReferenceAt (p_aichHashIdx p) aich, AdjustGlobalPublishTracking (p_ip p) false g)
      end
    else (l, aich, g) in
  (ReCalculateTrustValue tick g (set_publishers (Some l) (set_hashes aich e)), g).

Definition compact_publishers (e : CKeyEntry) : CKeyEntry :=
  let '(compacted, aich) := Compact (m_aichHashes e) in
  set_publishers (match m_publishingIPs e with Some l => Some (map (remap compacted) l) | None => None end) (set_hashes aich e).

(** The publisher of the entry among the ones taken over: a refresh, or a new one. *)
Definition merge_publishers (now tick : Z) (hasNewAICHHash : bool) (newAICHHash : list Z) (e : CKeyEntry)
  (l : list sPublishingIP) (g : GlobalPublishIPMap) : CKeyEntry * GlobalPublishIPMap :=
  match find_publisher (m_uIP (ke_entry e)) l with
  | Some (pre, p, post) =>
      let '(p, aich) := refresh_publisher now hasNewAICHHash newAICHHash p (m_aichHashes e) in
      (set_publishers (Some (pre ++ post ++ [p])) (set_hashes aich e), g)
  | None => add_publisher now tick hasNewAICHHash newAICHHash e l g
  end.

Definition is_fast_refresh (now ip : Z) (l : list sPublishingIP) : bool :=
  match find_publisher ip l with
  | Some (_, p, _) => now - p_lastPublish p <? KADEMLIAREPUBLISHTIMES - 60 * 60
  | None => false
  end.

(** The entry, the stored entry it took the publishers from, and the global map. *)
Definition MergeIPsAndFilenames (now tick : Z) (e : CKeyEntry) (fromEntry : option CKeyEntry) (g : GlobalPublishIPMap) :
  CKeyEntry * option CKeyEntry * GlobalPublishIPMap :=
  match m_publishingIPs e with
  | Some _ => (e, fromEntry, g)
  | None =>
      let hasNewAICHHash := GetSlotCount (m_aichHashes e) >? 0 in
      let newAICHHash := GetHashAt 0 (m_aichHashes e) in
      let fresh :=
        let '(e, g) := merge_publishers now tick hasNewAICHHash newAICHHash (set_hashes CKadAICHHashList_new e) [] g in
        (compact_publishers e, fromEntry, g) in
      match fromEntry with
      | None => fresh
      | Some from =>
          match m_publishingIPs from with
          | None => fresh
          | Some l =>
              let e := set_hashes (m_aichHashes from) e in
              let fastRefresh := is_fast_refresh now (m_uIP (ke_entry e)) l in
              let names := merge_filenames fastRefresh (m_filenames (ke_entry from)) (m_filenames (ke_entry e)) in
              let e := set_trust (m_lastTrustValueCalc from) (m_trustValue from) (set_entry (set_filenames names (ke_entry e)) e) in
              let '(e, g) := merge_publishers now tick hasNewAICHHash newAICHHash e l g in
              (compact_publishers e, Some (set_publishers None from), g)
          end
      end
  end.

(** ** The publish data on disk *)

Section PublishFile.

Context {F : Type} {IOF : CFileDataIO F} {conv : wxConv}.

(** [ENABLE_KAD_PROTOCOL_10], which is chosen when the program is configured. *)
Context (protocol_10 : bool).

#[local] Open Scope io_scope.

(** The hashes whose slot is referenced. *)
Fixpoint write_hashes (newIndexes : list Z) (hashes : list (list Z)) : IO F unit :=
  match newIndexes, hashes with
  | i :: newIndexes, h :: hashes =>
      if negb (i =? INVALID_INDEX) then seq! Write h in write_hashes newIndexes hashes else write_hashes newIndexes hashes
  | _, _ => io_ret tt
  end.

Fixpoint write_names (l : list sFileNameEntry) : IO F unit :=
  match l with
  | [] => io_ret tt
  | n :: l => seq! WriteString (m_filename n) utf8strRaw 2 in seq! WriteUInt32 (m_popularityIndex n) in write_names l
  end.

Fixpoint write_publishers (newIndexes : list Z) (l : list sPublishingIP) : IO F unit :=
  match l with
  | [] => io_ret tt
  | p :: l =>
      seq! WriteUInt32 (p_ip p) in
      seq! WriteUInt32 (u32 (p_lastPublish p)) in
      seq! (if protocol_10 then
              WriteUInt16 (if negb (p_aichHashIdx p =? INVALID_INDEX) then newIndexes !!! Z.to_nat (p_aichHashIdx p) else INVALID_INDEX)
            else io_ret tt) in
      write_publishers newIndexes l
  end.

Definition WritePublishTrackingDataToFile (e : CKeyEntry) : IO F unit :=
  let newIndexes := BuildCompactionMap (m_aichHashes e) in
  seq! (if protocol_10 then
          seq! WriteUInt16 (GetReferencedCount (m_aichHashes e)) in write_hashes newIndexes (m_hashes (m_aichHashes e))
        else io_ret tt) in
  seq! WriteUInt32 (u32 (Z.of_nat (length (m_filenames (ke_entry e))))) in
  seq! write_names (m_filenames (ke_entry e)) in
  match m_publishingIPs e with
  | Some l => seq! WriteUInt32 (u32 (Z.of_nat (length l))) in write_publishers newIndexes l
  | None => WriteUInt32 0
  end.

Fixpoint read_hashes (n : nat) : IO F (list (list Z)) :=
  match n with
  | O => io_ret []
  | S n => let! h := Read KAD_AICH_HASH_SIZE in let! l := read_hashes n in io_ret (h :: l)
  end.

Fixpoint read_names (n : nat) (l : list sFileNameEntry) : IO F (list sFileNameEntry) :=
  match n with
  | O => io_ret l
  | S n =>
      let! name := ReadString true 2 false in
      let! popularity := ReadUInt32 in
      read_names n (l ++ [mkFileName name popularity])
  end.

(** One publisher: its address, its time and its index. *)
Definition read_publisher (includesAICH : bool) : IO F (Z * Z * Z) :=
  let! ip := ReadUInt32 in
  let! lastPublish := ReadUInt32 in
  let! storedIdx := (if includesAICH then ReadUInt16 else io_ret INVALID_INDEX) in
  io_ret (ip, lastPublish, storedIdx).

(** The publishers read before an exception stay in the global map. *)
Fixpoint read_publishers (n : nat) (includesAICH : bool) (loadedHashes : list (list Z)) (aich : CKadAICHHashList)
  (l : list sPublishingIP) (g : GlobalPublishIPMap) (f : F) :
  (exn + unit) * (CKadAICHHashList * list sPublishingIP * GlobalPublishIPMap) * F :=
  match n with
  | O => (inr tt, (aich, l, g), f)
  | S n =>
      match read_publisher includesAICH f with
      | (inl e, f) => (inl e, (aich, l, g), f)
      | (inr (ip, lastPublish, storedIdx), f) =>
          let '(i, aich) :=
            if negb (storedIdx =? INVALID_INDEX) && negb (storedIdx >=? Z.of_nat (length loadedHashes))
            then AddReference (loadedHashes !!! Z.to_nat storedIdx) aich else (INVALID_INDEX, aich) in
          read_publishers n includesAICH loadedHashes aich (l ++ [mkPublisher ip lastPublish i])
            (AdjustGlobalPublishTracking ip true g) f
      end
  end.

Definition read_header (includesAICH : bool) (names : list sFileNameEntry) : IO F (list (list Z) * list sFileNameEntry * Z) :=
  let! hashCount := (if includesAICH then ReadUInt16 else io_ret 0) in
  let! loadedHashes := read_hashes (Z.to_nat hashCount) in
  let! nameCount := ReadUInt32 in
  let! names := read_names (Z.to_nat nameCount) names in
  let! ipCount := ReadUInt32 in
  io_ret (loadedHashes, names, ipCount).

(** After an exception the caller has lost the entry, but not the global map. *)
Definition ReadPublishTrackingDataFromFile (tick : Z) (includesAICH : bool) (e : CKeyEntry) (g : GlobalPublishIPMap) (f : F) :
  (exn + CKeyEntry) * GlobalPublishIPMap * F :=
  match read_header includesAICH (m_filenames (ke_entry e)) f with
  | (inl x, f) => (inl x, g, f)
  | (inr (loadedHashes, names, ipCount), f) =>
      match read_publishers (Z.to_nat ipCount) includesAICH loadedHashes (m_aichHashes e) [] g f with
      | (inl x, (_, _, g), f) => (inl x, g, f)
      | (inr _, (aich, l, g), f) =>
          let e := set_publishers (Some l) (set_hashes aich (set_entry (set_filenames names (ke_entry e)) e)) in
          (inr (ReCalculateTrustValue tick g e), g, f)
      end
  end.

(** ** The answer to a search *)

Definition WriteTagListWithPublishInfo (tick : Z) (g : GlobalPublishIPMap) (e : CKeyEntry) : IO F CKeyEntry :=
  match m_publishingIPs e with
  | None | Some [] => seq! WriteTagList (ke_entry e) in io_ret e
  | Some l =>
      let aichTagValue := if protocol_10 then EncodeResultTag (m_aichHashes e) else [] in
      seq! WriteTagListInc (ke_entry e) (match aichTagValue with [] => 1 | _ => 2 end) in
      let '(value, e) := GetTrustValue tick g e in
      let trust := d_percent value in
      let publishers := Z.land (Z.of_nat (length l)) 0xFF in
      let names := Z.land (Z.of_nat (length (m_filenames (ke_entry e)))) 0xFF in
      let tagValue := Z.lor (Z.lor (u32 (Z.shiftl names 24)) (Z.shiftl publishers 16)) trust in
      seq! (let! t := io_lift (SizedInit tagValue 0 (CTag_named TAG_PUBLISHINFO)) in WriteTag t) in
      seq! (match aichTagValue with
            | [] => io_ret tt
            | _ => WriteTag (CTagBsob (CTag_named TAG_KADAICHHASHRESULT) aichTagValue (u8 (Z.of_nat (length aichTagValue))))
            end) in
      io_ret e
  end.

End PublishFile.

End KeyEntry.

(** ** The global map counts publishers *)

Definition in_subnet (s : Z) (ips : list Z) : Z := Z.of_nat (length (filter (λ ip, subnet ip = s) ips)).

(** The map holds the number of publishers of every network that has one. *)
Definition counted (g : GlobalPublishIPMap) (ips : list Z) : Prop :=
  Z.of_nat (length ips) < 2 ^ 32 /\
  forall s, g !! s = if in_subnet s ips =? 0 then None else Some (in_subnet s ips).

Lemma in_subnet_cons s ip ips : in_subnet s (ip :: ips) = (if bool_decide (subnet ip = s) then 1 else 0) + in_subnet s ips.
Proof.
  unfold in_subnet. rewrite filter_cons. case_decide; [rewrite bool_decide_eq_true_2 by done|rewrite bool_decide_eq_false_2 by done]; simpl; lia.
Qed.

Lemma in_subnet_bounds s ips : 0 <= in_subnet s ips <= Z.of_nat (length ips).
Proof. unfold in_subnet. pose proof (length_filter (λ ip, subnet ip = s) ips). lia. Qed.

Lemma in_subnet_app s a b : in_subnet s (a ++ b) = in_subnet s a + in_subnet s b.
Proof. unfold in_subnet. rewrite filter_app, length_app. lia. Qed.

Lemma counted_nil : counted ∅ [].
Proof. split; [done|]. intros s. apply lookup_empty. Qed.

Lemma counted_perm g a b : a ≡ₚ b -> counted g a -> counted g b.
Proof.
  intros H [Hl Hg]. split; [by rewrite <- H|]. intros s. rewrite Hg.
  assert (in_subnet s a = in_subnet s b) as -> by (unfold in_subnet; by rewrite H). done.
Qed.

Lemma counted_insert g ip ips : counted g ips -> Z.of_nat (length ips) + 1 < 2 ^ 32 ->
  counted (AdjustGlobalPublishTracking ip true g) (ip :: ips).
Proof.
  intros [Hl Hg] Hb. split; [simpl; lia|]. intros s. pose proof (in_subnet_bounds (subnet ip) ips) as Hn.
  unfold AdjustGlobalPublishTracking. rewrite Hg.
  replace (default 0 (if in_subnet (subnet ip) ips =? 0 then None else Some (in_subnet (subnet ip) ips)))
    with (in_subnet (subnet ip) ips) by (destruct (Z.eqb_spec (in_subnet (subnet ip) ips) 0); simpl; congruence).
  rewrite wrap_small by width_lia. destruct (Z.gtb_spec (in_subnet (subnet ip) ips + 1) 0); [|lia].
  rewrite in_subnet_cons. destruct (decide (subnet ip = s)) as [<-|Hs].
  - rewrite lookup_insert_eq, bool_decide_eq_true_2 by done. destruct (Z.eqb_spec (1 + in_subnet (subnet ip) ips) 0); [lia|]. f_equal. lia.
  - rewrite lookup_insert_ne, bool_decide_eq_false_2, Z.add_0_l by done. apply Hg.
Qed.

Lemma counted_delete g ip ips : counted g (ip :: ips) -> counted (AdjustGlobalPublishTracking ip false g) ips.
Proof.
  intros [Hl Hg]. simpl in Hl. split; [lia|]. intros s. pose proof (in_subnet_bounds (subnet ip) ips) as Hn.
  pose proof (Hg (subnet ip)) as Hi. rewrite in_subnet_cons, bool_decide_eq_true_2 in Hi by done.
  destruct (Z.eqb_spec (1 + in_subnet (subnet ip) ips) 0); [lia|].
  pose proof (Hg s) as Hs. rewrite in_subnet_cons in Hs.
  unfold AdjustGlobalPublishTracking. rewrite Hi. simpl. rewrite wrap_small by width_lia.
  replace (1 + in_subnet (subnet ip) ips - 1) with (in_subnet (subnet ip) ips) by lia.
  destruct (decide (subnet ip = s)) as [<-|Hne].
  - destruct (Z.gtb_spec (in_subnet (subnet ip) ips) 0); destruct (Z.eqb_spec (in_subnet (subnet ip) ips) 0); try lia.
    + by rewrite lookup_insert_eq.
    + by rewrite lookup_delete_eq.
  - rewrite bool_decide_eq_false_2, Z.add_0_l in Hs by done.
    destruct (Z.gtb_spec (in_subnet (subnet ip) ips) 0); [by rewrite lookup_insert_ne|by rewrite lookup_delete_ne].
Qed.

Abbreviation ips_of l := (map p_ip l).

Lemma counted_release l : forall g ips, counted g (ips_of l ++ ips) -> counted (release l g) ips.
Proof.
  induction l as [|p l IH]; intros g ips H; [done|]. simpl in *. apply IH. by apply counted_delete.
Qed.

(** What a wrapped counter would do: a network that is not in the map gets the largest count. *)
Lemma adjust_underflow g ip : g !! subnet ip = None ->
  AdjustGlobalPublishTracking ip false g = <[subnet ip := 0xFFFFFFFF]> g.
Proof. intros H. unfold AdjustGlobalPublishTracking. by rewrite H. Qed.

(** ** The slots count the publishers that point at them *)

(** The hash a publisher reported. *)
Definition hash_of (aich : CKadAICHHashList) (p : sPublishingIP) : option (list Z) :=
  if p_aichHashIdx p =? INVALID_INDEX then None else m_hashes aich !! Z.to_nat (p_aichHashIdx p).

Definition pointing (i : nat) (l : list sPublishingIP) : Z :=
  Z.of_nat (length (filter (λ p, p_aichHashIdx p = Z.of_nat i) l)).

Definition slot_ok (slots : nat) (p : sPublishingIP) : Prop :=
  p_aichHashIdx p = INVALID_INDEX \/ 0 <= p_aichHashIdx p < Z.of_nat slots.

Record tracked (aich : CKadAICHHashList) (l : list sPublishingIP) : Prop := {
  tr_list : list_ok aich;
  tr_slots : Forall (slot_ok (length (m_hashes aich))) l;
  tr_votes : forall i, (i < length (m_hashes aich))%nat -> votes aich i = pointing i l;
  tr_few : Z.of_nat (length l) <= 255
}.

Lemma pointing_cons i p l : pointing i (p :: l) = (if bool_decide (p_aichHashIdx p = Z.of_nat i) then 1 else 0) + pointing i l.
Proof.
  unfold pointing. rewrite filter_cons. case_decide; [rewrite bool_decide_eq_true_2 by done|rewrite bool_decide_eq_false_2 by done]; simpl; lia.
Qed.

Lemma pointing_bounds i l : 0 <= pointing i l <= Z.of_nat (length l).
Proof. unfold pointing. pose proof (length_filter (λ p, p_aichHashIdx p = Z.of_nat i) l). lia. Qed.

Lemma pointing_perm i a b : a ≡ₚ b -> pointing i a = pointing i b.
Proof. intros H. unfold pointing. by rewrite H. Qed.

Lemma pointing_none i l : Forall (λ p, p_aichHashIdx p <> Z.of_nat i) l -> pointing i l = 0.
Proof.
  induction 1 as [|p l Hp _ IH]; [done|]. rewrite pointing_cons, bool_decide_eq_false_2, IH by done. lia.
Qed.

Lemma tracked_perm aich a b : a ≡ₚ b -> tracked aich a -> tracked aich b.
Proof.
  intros H [H1 H2 H3 H4]. split; [done|by rewrite <- H| |by rewrite <- H].
  intros i Hi. rewrite H3 by done. by apply pointing_perm.
Qed.

Lemma tracked_new : tracked CKadAICHHashList_new [].
Proof. split; [apply list_ok_new|constructor|simpl; lia|simpl; lia]. Qed.

Lemma slots_lt_invalid aich i : list_ok aich -> (i < length (m_hashes aich))%nat -> Z.of_nat i < INVALID_INDEX.
Proof. intros [H1 H2 _ _ _] Hi. unfold MAX_SLOTS, INVALID_INDEX in *. lia. Qed.

(** A publisher without a hash, or one that points nowhere. *)
Lemma tracked_plain aich p l : p_aichHashIdx p = INVALID_INDEX -> Z.of_nat (length l) < 255 -> tracked aich l -> tracked aich (p :: l).
Proof.
  intros Hp Hl [H1 H2 H3 H4]. split; [done|constructor; [by left|done]| |simpl; lia].
  intros i Hi. rewrite H3 by done. rewrite pointing_cons, bool_decide_eq_false_2; [lia|].
  pose proof (slots_lt_invalid aich i H1 Hi). lia.
Qed.

(** A reported hash finds its slot as long as the list has room. *)
Lemma tracked_reference aich hash l ip t : tracked aich l -> aich_ok hash -> Z.of_nat (length l) < 255 ->
  Z.of_nat (length (m_hashes aich)) < MAX_SLOTS ->
  let r := AddReference hash aich in
  let p := mkPublisher ip t r.1 in
  tracked r.2 (p :: l) /\ hash_of r.2 p = Some hash /\
  (length (m_hashes r.2) <= S (length (m_hashes aich)))%nat /\
  Forall (λ q, hash_of r.2 q = hash_of aich q) l.
Proof.
  intros [H1 H2 H3 H4] Hh Hl Hs r p. pose proof (AddReference_ok hash aich Hh H1) as Hok.
  pose proof (AddReference_spec hash aich H1) as Hspec. fold r in Hok, Hspec. cbv zeta in Hspec.
  destruct Hspec as [(Hi & Hr & Hn)|(i & Hi & Hlt & Hhash & Hhs & Hv)].
  { exfalso. subst r. unfold AddReference in Hi. pose proof (find_slot_spec hash (m_hashes aich) 0) as Hf.
    destruct (find_slot hash 0 (m_hashes aich)) as [j|]; simpl in Hi.
    - destruct Hf as [Hf _]. rewrite wrap_small in Hi by (unfold MAX_SLOTS in Hs; width_lia). unfold INVALID_INDEX, MAX_SLOTS in *. lia.
    - unfold MAX_SLOTS, INVALID_INDEX in *. destruct (Z.geb_spec (Z.of_nat (length (m_hashes aich))) 1024); [lia|]. simpl in Hi.
      rewrite length_app in Hi. simpl in Hi. rewrite wrap_small in Hi by width_lia. lia. }
  assert (Z.of_nat i <> INVALID_INDEX) as HiI by (unfold INVALID_INDEX, MAX_SLOTS in *; lia).
  assert (prefix (m_hashes aich) (m_hashes r.2)) as Hpre by (destruct Hhs as [->|(_ & _ & ->)]; [done|by eexists]).
  pose proof (prefix_length _ _ Hpre) as Hlen. pose proof (lookup_lt_Some _ _ _ Hhash) as Hir.
  split; [split|split; [|split]].
  - done.
  - constructor; [right; simpl; lia|]. eapply Forall_impl; [exact H2|]. intros q [Hq|Hq]; [by left|right; lia].
  - intros j Hj. rewrite Hv, pointing_cons. simpl. rewrite Hi.
    assert (votes aich j = pointing j l) as ->.
    { destruct (decide (j < length (m_hashes aich))%nat) as [Hj'|Hj']; [by apply H3|].
      rewrite pointing_none. { unfold votes. rewrite lookup_ge_None_2; [done|]. destruct H1. lia. }
      eapply Forall_impl; [exact H2|]. intros q [Hq|Hq]; [|lia]. rewrite Hq. pose proof (slots_lt_invalid _ j Hok Hj). lia. }
    pose proof (pointing_bounds j l). do 2 case_bool_decide; lia.
  - simpl. lia.
  - unfold hash_of. simpl. rewrite Hi. destruct (Z.eqb_spec (Z.of_nat i) INVALID_INDEX); [done|]. by rewrite Nat2Z.id.
  - destruct Hhs as [->|(_ & _ & ->)]; [lia|]. rewrite length_app. simpl. lia.
  - eapply Forall_impl; [exact H2|]. intros q Hq. unfold hash_of. destruct (Z.eqb_spec (p_aichHashIdx q) INVALID_INDEX); [done|].
    destruct Hq as [Hq|Hq]; [done|]. destruct (lookup_lt_is_Some_2 (m_hashes aich) (Z.to_nat (p_aichHashIdx q)) ltac:(lia)) as [x Hx].
    rewrite Hx. by apply (prefix_lookup_Some _ _ _ _ Hx).
Qed.

Lemma tracked_drop aich p l : tracked aich (p :: l) ->
  tracked (DropReferenceAt (p_aichHashIdx p) aich) l /\
  m_hashes (DropReferenceAt (p_aichHashIdx p) aich) = m_hashes aich.
Proof.
  intros [H1 H2 H3 H4]. apply Forall_cons in H2 as [Hp H2]. simpl in H4.
  assert (0 <= p_aichHashIdx p) as Hi by (destruct Hp as [->|?]; unfold INVALID_INDEX; lia).
  destruct (DropReferenceAt_spec _ _ H1 Hi) as [Hh Hv]. split; [|done]. split; [by apply DropReferenceAt_ok|by rewrite Hh| |lia].
  intros i Hl. rewrite Hh in Hl. rewrite Hv, H3 by done. rewrite pointing_cons. pose proof (pointing_bounds i l).
  destruct (decide (p_aichHashIdx p = Z.of_nat i)) as [->|Hne].
  - rewrite Nat2Z.id, !bool_decide_eq_true_2 by done. lia.
  - rewrite !bool_decide_eq_false_2; [lia|done|]. pose proof (slots_lt_invalid _ i H1 Hl). lia.
Qed.

(** Renumbering keeps what the publishers point at, and leaves no more slots than publishers. *)
Lemma remap_hash aich l p : tracked aich l -> p ∈ l ->
  hash_of (Compact aich).2 (remap (Compact aich).1 p) = hash_of aich p /\
  slot_ok (length (m_hashes (Compact aich).2)) (remap (Compact aich).1 p).
Proof.
  intros [H1 H2 H3 H4] Hp. pose proof (proj1 (Forall_forall _ _) H2 p Hp) as Hs.
  assert (length (Compact aich).1 = length (m_hashes aich)) as Hlen
    by (unfold Compact, BuildCompactionMap; simpl; rewrite compaction_loop_length; apply H1).
  destruct Hs as [Hs|Hs].
  - assert (remap (Compact aich).1 p = mkPublisher (p_ip p) (p_lastPublish p) INVALID_INDEX) as ->.
    { unfold remap. f_equal. rewrite Hs. destruct H1 as [_ Hm _ _ _].
      destruct (Z.ltb_spec INVALID_INDEX (Z.of_nat (length (Compact aich).1))); [unfold INVALID_INDEX, MAX_SLOTS in *; lia|done]. }
    unfold hash_of, slot_ok. rewrite Hs. split; [done|by left].
  - set (i := Z.to_nat (p_aichHashIdx p)). assert (Z.of_nat i = p_aichHashIdx p) as Hi by lia.
    assert (0 < votes aich i) as Hv.
    { rewrite H3 by lia. unfold pointing. destruct (filter _ l) eqn:E; [|simpl; lia].
      exfalso. assert (p ∈ filter (λ q, p_aichHashIdx q = Z.of_nat i) l) as Hin by (apply list_elem_of_filter; done).
      rewrite E in Hin. by apply not_elem_of_nil in Hin. }
    unfold votes in Hv. destruct (m_popularity aich !! i) as [x|] eqn:Ex; [|simpl in Hv; lia]. simpl in Hv.
    destruct (Compact_index aich i x H1 Ex Hv) as (E1 & E2 & E3 & E4).
    pose proof (slots_lt_invalid _ i H1 ltac:(lia)) as Hinv.
    assert (remap (Compact aich).1 p = mkPublisher (p_ip p) (p_lastPublish p) (positives (take i (m_popularity aich)))) as ->.
    { unfold remap. f_equal. destruct (Z.ltb_spec (p_aichHashIdx p) (Z.of_nat (length (Compact aich).1))); [|lia].
      fold i. by apply list_lookup_total_correct. }
    pose proof (Compact_ok aich H1) as [_ Hm _ _ _].
    split; [|right; exact E2]. unfold hash_of at 1. simpl p_aichHashIdx.
    destruct (Z.eqb_spec (positives (take i (m_popularity aich))) INVALID_INDEX) as [E|_]; [unfold INVALID_INDEX, MAX_SLOTS in *; lia|].
    rewrite E4. unfold hash_of. rewrite <- Hi. destruct (Z.eqb_spec (Z.of_nat i) INVALID_INDEX); [lia|]. by rewrite Nat2Z.id.
Qed.

(** Two publishers point at one slot after the renumbering when they did before. *)
Lemma hash_of_inj aich p q i : list_ok aich -> p_aichHashIdx q = Z.of_nat i -> (i < length (m_hashes aich))%nat ->
  slot_ok (length (m_hashes aich)) p -> hash_of aich p = hash_of aich q -> p_aichHashIdx p = Z.of_nat i.
Proof.
  intros Hl Hq Hi Hp E. pose proof (slots_lt_invalid _ i Hl Hi) as Hinv. unfold hash_of in E. rewrite Hq in E.
  destruct (Z.eqb_spec (Z.of_nat i) INVALID_INDEX); [lia|]. rewrite Nat2Z.id in E.
  destruct (lookup_lt_is_Some_2 _ _ Hi) as [h Hh]. rewrite Hh in E.
  destruct (Z.eqb_spec (p_aichHashIdx p) INVALID_INDEX); [done|]. destruct Hp as [?|Hp]; [done|].
  destruct Hl as [_ _ _ _ Hnd]. pose proof (NoDup_lookup _ _ _ _ Hnd E Hh). lia.
Qed.

Lemma pointing_hash aich l i h : list_ok aich -> Forall (slot_ok (length (m_hashes aich))) l ->
  m_hashes aich !! i = Some h -> pointing i l = Z.of_nat (length (filter (λ o, o = Some h) (map (hash_of aich) l))).
Proof.
  intros Hl Hs Hh. pose proof (lookup_lt_Some _ _ _ Hh) as Hi. pose proof (slots_lt_invalid _ i Hl Hi) as Hinv.
  induction Hs as [|p l Hp _ IH]; [done|]. rewrite pointing_cons, IH. simpl. rewrite filter_cons.
  case_decide as E; case_bool_decide as E'; simpl; try lia; exfalso.
  - apply E'. apply (hash_of_inj aich p (mkPublisher 0 0 (Z.of_nat i)) i); try done.
    rewrite E. unfold hash_of. simpl. destruct (Z.eqb_spec (Z.of_nat i) INVALID_INDEX); [lia|]. by rewrite Nat2Z.id.
  - apply E. unfold hash_of. rewrite E'. destruct (Z.eqb_spec (Z.of_nat i) INVALID_INDEX); [lia|]. by rewrite Nat2Z.id.
Qed.

Lemma pointing_pos i l : 0 < pointing i l -> Z.of_nat i ∈ map p_aichHashIdx l.
Proof.
  induction l as [|p l IH]; [done|]. rewrite pointing_cons. case_bool_decide as E; intros H.
  - simpl. rewrite E. apply list_elem_of_here.
  - simpl. apply list_elem_of_further, IH. lia.
Qed.

Lemma tracked_slots aich l : tracked aich l -> Forall (λ p, 0 < p) (m_popularity aich) ->
  (length (m_hashes aich) <= length l)%nat.
Proof.
  intros [H1 H2 H3 H4] Hp. rewrite <- (length_map p_aichHashIdx l), <- (length_seq (length (m_hashes aich)) 0), <- (length_map Z.of_nat).
  apply submseteq_length, NoDup_submseteq.
  - apply NoDup_fmap; [intros ? ? ?; lia|]. apply NoDup_seq.
  - intros x Hx. apply list_elem_of_fmap in Hx as (i & -> & Hi). apply elem_of_seq in Hi.
    apply pointing_pos. rewrite <- H3 by lia. unfold votes.
    destruct (lookup_lt_is_Some_2 (m_popularity aich) i ltac:(destruct H1; lia)) as [v Hv]. rewrite Hv.
    apply (Forall_lookup_1 _ _ _ _ Hp Hv).
Qed.

Lemma tracked_compact aich l : tracked aich l ->
  let c := Compact aich in
  tracked c.2 (map (remap c.1) l) /\ map (hash_of c.2) (map (remap c.1) l) = map (hash_of aich) l /\
  Forall (λ p, 0 < p) (m_popularity c.2) /\ (length (m_hashes c.2) <= length l)%nat.
Proof.
  intros Ht c. pose proof Ht as [H1 H2 H3 H4].
  assert (map (hash_of c.2) (map (remap c.1) l) = map (hash_of aich) l) as Hh.
  { rewrite map_map. apply map_ext_in. intros p Hp. apply list_elem_of_In in Hp. by apply (remap_hash aich l). }
  pose proof (Compact_ok aich H1) as Hok. pose proof (Compact_positive aich H1) as Hpos. fold c in Hok, Hpos.
  assert (Forall (slot_ok (length (m_hashes c.2))) (map (remap c.1) l)) as Hs.
  { apply Forall_forall. intros q Hq. apply list_elem_of_fmap in Hq as (p & -> & Hp). by apply (remap_hash aich l). }
  assert (tracked c.2 (map (remap c.1) l)) as Ht'.
  { split; [done|done| |by rewrite length_map]. intros j Hj. destruct (Compact_inv aich j H1 Hj) as (i & E1 & E2 & E3 & E4).
    fold c in E1, E2. rewrite E2, H3 by done. destruct (lookup_lt_is_Some_2 _ _ Hj) as [h Hh'].
    rewrite (pointing_hash c.2 _ j h), Hh by done. apply pointing_hash; [done|done|congruence]. }
  split; [done|]. split; [done|]. split; [done|]. pose proof (tracked_slots _ _ Ht' Hpos) as Hl. by rewrite length_map in Hl.
Qed.

(** ** What an entry promises: the reports of its publishers

    The abstract entry is the list of the last reports, one for each address, oldest first. *)

Definition report : Type := Z * Z * option (list Z).

Definition view (aich : CKadAICHHashList) (l : list sPublishingIP) : list report :=
  map (fun p => (p_ip p, p_lastPublish p, hash_of aich p)) l.

(** A publication replaces the earlier one from the address; the hundred latest are kept. *)
Definition publish (ip now : Z) (hash : option (list Z)) (v : list report) : list report :=
  let v := filter (λ r, r.1.1 ≠ ip) v ++ [(ip, now, hash)] in
  drop (length v - 100) v.

Lemma view_app aich a b : view aich (a ++ b) = view aich a ++ view aich b.
Proof. apply map_app. Qed.

Lemma view_ext aich aich' l : Forall (λ q, hash_of aich' q = hash_of aich q) l -> view aich' l = view aich l.
Proof.
  intros H. apply map_ext_in. intros p Hp. apply list_elem_of_In in Hp. by rewrite (proj1 (Forall_forall _ _) H p Hp).
Qed.

Lemma hash_of_same aich aich' p : m_hashes aich' = m_hashes aich -> hash_of aich' p = hash_of aich p.
Proof. intros H. unfold hash_of. by rewrite H. Qed.

Lemma view_compact aich l : tracked aich l -> view (Compact aich).2 (map (remap (Compact aich).1) l) = view aich l.
Proof.
  intros Ht. unfold view. rewrite map_map. apply map_ext_in. intros p Hp. apply list_elem_of_In in Hp.
  by rewrite (proj1 (remap_hash aich l p Ht Hp)).
Qed.

Lemma view_absent aich l ip : find_publisher ip l = None -> filter (λ r, r.1.1 ≠ ip) (view aich l) = view aich l.
Proof.
  induction l as [|p l IH]; simpl; [done|]. destruct (Z.eqb_spec (p_ip p) ip); [done|]. intros H.
  rewrite filter_cons_True by done. f_equal. apply IH. by destruct (find_publisher ip l) as [[[? ?] ?]|].
Qed.

Lemma find_publisher_some ip l pre p post : find_publisher ip l = Some (pre, p, post) -> l = pre ++ p :: post /\ p_ip p = ip.
Proof.
  revert pre. induction l as [|q l IH]; intros pre; simpl; [done|]. destruct (Z.eqb_spec (p_ip q) ip) as [E|_].
  - intros [= <- -> ->]. by split.
  - destruct (find_publisher ip l) as [[[pre' q'] post']|]; [|done]. intros [= <- -> ->].
    destruct (IH pre' eq_refl) as [-> ?]. by split.
Qed.

Lemma filter_ips ip aich l : ip ∉ ips_of l -> filter (λ r, r.1.1 ≠ ip) (view aich l) = view aich l.
Proof.
  induction l as [|p l IH]; simpl; intros H; [done|]. apply not_elem_of_cons in H as [H1 H2].
  rewrite filter_cons_True by (simpl; congruence). f_equal. by apply IH.
Qed.

Lemma view_present aich pre p post : NoDup (ips_of (pre ++ p :: post)) ->
  filter (λ r, r.1.1 ≠ p_ip p) (view aich (pre ++ p :: post)) = view aich (pre ++ post).
Proof.
  rewrite map_app. simpl. intros (H1 & H2 & H3)%NoDup_app. apply NoDup_cons in H3 as [H3 H4].
  rewrite !view_app, filter_app. simpl. rewrite filter_cons_False by (simpl; tauto). rewrite !filter_ips; [done|done|].
  intros H. apply (H2 _ H). apply list_elem_of_here.
Qed.

(** ** The steps of a merge *)

Lemma GetHashAt_hash_of aich p l : tracked aich (p :: l) -> p_aichHashIdx p <> INVALID_INDEX ->
  hash_of aich p = Some (GetHashAt (p_aichHashIdx p) aich).
Proof.
  intros [H1 H2 _ _] Hp. apply Forall_cons in H2 as [[?|Hs] _]; [done|]. unfold hash_of.
  destruct (Z.eqb_spec (p_aichHashIdx p) INVALID_INDEX); [done|].
  destruct (lookup_lt_is_Some_2 (m_hashes aich) (Z.to_nat (p_aichHashIdx p)) ltac:(lia)) as [h Hh]. rewrite Hh.
  f_equal. symmetry. apply GetHashAt_lookup; [lia|done].
Qed.

Lemma tracked_tail aich p l : p_aichHashIdx p = INVALID_INDEX -> tracked aich (p :: l) -> tracked aich l.
Proof.
  intros Hp Ht. pose proof Ht as [Hl _ _ _]. destruct (tracked_drop aich p l Ht) as [H _]. rewrite Hp in H.
  unfold DropReferenceAt in H. destruct Hl as [_ Hs _ _ _].
  destruct (Z.geb_spec INVALID_INDEX (Z.of_nat (length (m_hashes aich)))); [done|unfold INVALID_INDEX, MAX_SLOTS in *; lia].
Qed.

Lemma refresh_spec now (has : bool) hash p l aich : tracked aich (p :: l) -> (has = true -> aich_ok hash) ->
  Z.of_nat (length (m_hashes aich)) < MAX_SLOTS ->
  let r := refresh_publisher now has hash p aich in
  tracked r.2 (r.1 :: l) /\ p_ip r.1 = p_ip p /\ p_lastPublish r.1 = now /\
  hash_of r.2 r.1 = (if has then Some hash else None) /\
  Forall (λ q, hash_of r.2 q = hash_of aich q) l /\ (length (m_hashes r.2) <= S (length (m_hashes aich)))%nat.
Proof.
  intros Ht Hh Hroom. pose proof Ht as [_ _ _ Hfew]. simpl in Hfew. unfold refresh_publisher.
  assert (forall q, p_aichHashIdx q = p_aichHashIdx p -> tracked aich (q :: l)) as Hq.
  { intros q Hq. destruct Ht as [H1 H2 H3 H4]. apply Forall_cons in H2 as [Hp H2]. split; [done| | |done].
    - constructor; [|done]. unfold slot_ok in *. by rewrite Hq.
    - intros i Hi. rewrite H3, !pointing_cons by done. by rewrite Hq. }
  assert (Forall (λ q, hash_of aich q = hash_of aich q) l) as Hrefl by by apply Forall_forall.
  destruct has.
  - specialize (Hh eq_refl). destruct (Z.eqb_spec (p_aichHashIdx p) INVALID_INDEX) as [E|E].
    + pose proof (tracked_reference aich hash l (p_ip p) now (tracked_tail _ _ _ E Ht) Hh ltac:(lia) Hroom) as HA.
      cbv zeta in HA. destruct (AddReference hash aich) as [i aich']. destruct HA as (? & ? & ? & ?). by split_and!.
    + case_bool_decide as E'; simpl.
      * split; [by apply Hq|]. split_and!; try done; [|lia]. rewrite <- E'. rewrite <- (GetHashAt_hash_of aich p l Ht E). done.
      * destruct (tracked_drop aich p l Ht) as [Hd Hs]. rewrite <- Hs in Hroom.
        pose proof (tracked_reference _ hash l (p_ip p) now Hd Hh ltac:(lia) Hroom) as HA. cbv zeta in HA.
        destruct (AddReference hash _) as [i aich']. simpl in HA |- *. rewrite Hs in HA. destruct HA as (? & ? & ? & HA). split_and!; try done.
        eapply Forall_impl; [exact HA|]. intros q ->. by apply hash_of_same.
  - destruct (Z.eqb_spec (p_aichHashIdx p) INVALID_INDEX) as [E|E]; simpl.
    + split; [by apply Hq|]. split_and!; try done. lia.
    + destruct (tracked_drop aich p l Ht) as [Hd Hs]. rewrite Hs. split; [apply tracked_plain; [done|lia|done]|].
      split_and!; try done; [|lia]. eapply Forall_impl; [exact Hrefl|]. intros q _. by apply hash_of_same.
Qed.

Section Merge.

Context {wxcase : wxCase} {doubles : Doubles}.

Lemma length_view aich l : length (view aich l) = length l.
Proof. apply length_map. Qed.

Lemma ips_view aich l : map (fun r : report => r.1.1) (view aich l) = ips_of l.
Proof. unfold view. by rewrite map_map. Qed.

Lemma add_spec now tick (has : bool) hash e l g : tracked (m_aichHashes e) l -> (has = true -> aich_ok hash) ->
  Z.of_nat (length (m_hashes (m_aichHashes e))) < MAX_SLOTS -> Z.of_nat (length l) <= 100 ->
  let r := add_publisher now tick has hash e l g in
  let v := view (m_aichHashes e) l ++ [(m_uIP (ke_entry e), now, if has then Some hash else None)] in
  exists l', m_publishingIPs r.1 = Some l' /\ tracked (m_aichHashes r.1) l' /\
    view (m_aichHashes r.1) l' = drop (length v - 100) v /\ ke_entry r.1 = ke_entry e /\
    (length (m_hashes (m_aichHashes r.1)) <= S (length (m_hashes (m_aichHashes e))))%nat /\
    m_trustValue r.1 = trust_loop r.2 d_zero l' /\
    forall rest, counted g (ips_of l ++ rest) -> Z.of_nat (length (ips_of l ++ rest)) + 1 < 2 ^ 32 ->
      counted r.2 (ips_of l' ++ rest).
Proof.
  intros Ht Hh Hroom Hlen. cbv zeta. unfold add_publisher. set (ip := m_uIP (ke_entry e)).
  set (ia := if has then AddReference hash (m_aichHashes e) else (INVALID_INDEX, m_aichHashes e)).
  set (p := mkPublisher ip now ia.1).
  assert (tracked ia.2 (l ++ [p]) /\ view ia.2 (l ++ [p]) = view (m_aichHashes e) l ++ [(ip, now, if has then Some hash else None)] /\
    (length (m_hashes ia.2) <= S (length (m_hashes (m_aichHashes e))))%nat) as (H1 & H2 & H3).
  { assert (tracked ia.2 (p :: l) /\ hash_of ia.2 p = (if has then Some hash else None) /\
      (length (m_hashes ia.2) <= S (length (m_hashes (m_aichHashes e))))%nat /\
      Forall (λ q, hash_of ia.2 q = hash_of (m_aichHashes e) q) l) as (A1 & A2 & A3 & A4).
    { unfold p, ia. destruct has.
      - apply (tracked_reference _ hash l ip now); [done|by apply Hh|lia|done].
      - split; [apply tracked_plain; [done|lia|done]|]. split_and!; try done; [simpl; lia|by apply Forall_forall]. }
    split; [|split]; [|by rewrite view_app, (view_ext _ _ _ A4); simpl; rewrite A2|done].
    eapply tracked_perm; [|exact A1]. by rewrite Permutation_app_comm. }
  destruct ia as [i aich]. simpl in *. fold p. rewrite <- H2, length_view.
  assert (forall rest, counted g (ips_of l ++ rest) -> Z.of_nat (length (ips_of l ++ rest)) + 1 < 2 ^ 32 ->
    counted (AdjustGlobalPublishTracking ip true g) (ips_of (l ++ [p]) ++ rest)) as HG.
  { intros rest Hg Hr. pose proof (counted_insert g ip _ Hg Hr) as HI. eapply counted_perm; [|exact HI].
    rewrite map_app. simpl. by rewrite <- app_assoc, Permutation_middle. }
  destruct (Z.gtb_spec (Z.of_nat (length (l ++ [p]))) 100) as [Hgt|Hle].
  - assert (length (l ++ [p]) - 100 = 1)%nat as -> by (rewrite length_app in *; simpl in *; lia).
    destruct (l ++ [p]) as [|q l'] eqn:E; [by destruct l|]. simpl. exists l'. rewrite drop_0.
    destruct (tracked_drop aich q l' H1) as [D1 D2]. split_and!; try done; [|by rewrite D2|].
    + apply view_ext, Forall_forall. intros x _. by apply hash_of_same.
    + intros rest Hg Hr. apply counted_delete. by apply HG.
  - assert (length (l ++ [p]) - 100 = 0)%nat as -> by lia. simpl. exists (l ++ [p]). by rewrite drop_0.
Qed.

(** ** The invariant *)

Record reports_ok (now : Z) (v : list report) : Prop := {
  ro_few : Z.of_nat (length v) <= 100;
  ro_distinct : NoDup (map (fun r => r.1.1) v);
  ro_sorted : StronglySorted Z.le (map (fun r => r.1.2) v);
  ro_past : Forall (fun r => r.1.2 <= now) v
}.

Lemma SSorted_snoc l x : StronglySorted Z.le l -> Forall (fun y => y <= x) l -> StronglySorted Z.le (l ++ [x]).
Proof.
  induction 1 as [|y l Hl IH Hy]; intros H; simpl; [by repeat constructor|]. apply Forall_cons in H as [H1 H2].
  constructor; [by apply IH|]. apply Forall_app. split; [done|by apply Forall_singleton].
Qed.

Lemma SSorted_drop l n : StronglySorted Z.le l -> StronglySorted Z.le (drop n l).
Proof. revert n. induction l as [|x l IH]; intros [|n] H; simpl; try done. apply IH. by inversion H. Qed.

Lemma SSorted_filter (P : report -> Prop) `{forall r, Decision (P r)} (v : list report) :
  StronglySorted Z.le (map (fun r => r.1.2) v) -> StronglySorted Z.le (map (fun r => r.1.2) (filter P v)).
Proof.
  induction v as [|r v IH]; [done|]. simpl. intros Hs. apply StronglySorted_inv in Hs as [Hs Hf]. rewrite filter_cons. case_decide; [|by apply IH].
  simpl. constructor; [by apply IH|]. rewrite Forall_map in Hf |- *. apply Forall_forall. intros y Hy.
  apply list_elem_of_filter in Hy as [_ Hy]. exact (proj1 (Forall_forall _ _) Hf y Hy).
Qed.

Lemma reports_ok_nil now : reports_ok now [].
Proof. split; simpl; try constructor; lia. Qed.

Lemma publish_ok n0 now ip hash v : reports_ok n0 v -> n0 <= now -> reports_ok now (publish ip now hash v).
Proof.
  intros [H1 H2 H3 H4] Hn. unfold publish. set (w := filter _ v).
  assert (NoDup (map (fun r : report => r.1.1) (w ++ [(ip, now, hash)]))) as HN.
  { rewrite map_app. simpl. apply NoDup_app. split; [|split; [|apply NoDup_singleton]].
    - eapply sublist_NoDup; [exact H2|]. exact (fmap_sublist _ _ _ (sublist_filter _ v)).
    - intros x Hx Hx'. apply list_elem_of_singleton in Hx'. subst x. apply list_elem_of_fmap in Hx as (y & -> & Hy).
      by apply list_elem_of_filter in Hy as [? _]. }
  assert (Forall (fun r : report => r.1.2 <= now) w) as HP.
  { apply Forall_forall. intros r Hr. apply list_elem_of_filter in Hr as [_ Hr]. pose proof (proj1 (Forall_forall _ _) H4 r Hr). simpl in *. lia. }
  assert (length w <= length v)%nat as HL by apply length_filter.
  split.
  - rewrite length_drop. lia.
  - rewrite <- skipn_map. eapply sublist_NoDup; [exact HN|apply sublist_drop].
  - rewrite <- skipn_map. apply SSorted_drop. rewrite map_app. apply SSorted_snoc; [by apply SSorted_filter|]. simpl.
    rewrite Forall_map. exact HP.
  - apply Forall_drop, Forall_app. split; [done|]. apply Forall_singleton. simpl. lia.
Qed.

(** ** Stored and fresh entries *)

Definition reports (e : CKeyEntry) : list report :=
  match m_publishingIPs e with Some l => view (m_aichHashes e) l | None => [] end.

Definition publishers (e : CKeyEntry) : list Z :=
  match m_publishingIPs e with Some l => ips_of l | None => [] end.

Definition name_ok (n : sFileNameEntry) : Prop := m_filename n <> [].

Record stored_ok (now : Z) (e : CKeyEntry) : Prop := {
  so_publishers : exists l, m_publishingIPs e = Some l /\ tracked (m_aichHashes e) l;
  so_reports : reports_ok now (reports e);
  so_slots : Z.of_nat (length (m_hashes (m_aichHashes e))) <= 100;
  so_names : Z.of_nat (length (m_filenames (ke_entry e))) <= 100
}.

(** An entry as the packet handler makes it: with one name, and one hash at most. *)
Record fresh_ok (e : CKeyEntry) : Prop := {
  fo_new : m_publishingIPs e = None;
  fo_list : list_ok (m_aichHashes e);
  fo_slots : (length (m_hashes (m_aichHashes e)) <= 1)%nat;
  fo_names : (length (m_filenames (ke_entry e)) <= 1)%nat
}.

Definition published_hash (e : CKeyEntry) : option (list Z) := m_hashes (m_aichHashes e) !! O.

Lemma merge_publishers_spec now tick (has : bool) hash e l g : tracked (m_aichHashes e) l -> (has = true -> aich_ok hash) ->
  Z.of_nat (length (m_hashes (m_aichHashes e))) <= 100 -> Z.of_nat (length l) <= 100 -> NoDup (ips_of l) ->
  let r := merge_publishers now tick has hash e l g in
  exists l', m_publishingIPs r.1 = Some l' /\ tracked (m_aichHashes r.1) l' /\
    view (m_aichHashes r.1) l' = publish (m_uIP (ke_entry e)) now (if has then Some hash else None) (view (m_aichHashes e) l) /\
    ke_entry r.1 = ke_entry e /\
    (find_publisher (m_uIP (ke_entry e)) l = None -> m_trustValue r.1 = trust_loop r.2 d_zero l') /\
    forall rest, counted g (ips_of l ++ rest) -> Z.of_nat (length (ips_of l ++ rest)) + 1 < 2 ^ 32 ->
      counted r.2 (ips_of l' ++ rest).
Proof.
  intros Ht Hh Hs Hl Hn. cbv zeta. unfold merge_publishers, publish.
  destruct (find_publisher (m_uIP (ke_entry e)) l) as [[[pre p] post]|] eqn:E.
  - destruct (find_publisher_some _ _ _ _ _ E) as [-> Hip]. rewrite <- Hip.
    rewrite view_present by done.
    assert (tracked (m_aichHashes e) (p :: pre ++ post)) as Ht' by (eapply tracked_perm; [|exact Ht]; by rewrite Permutation_middle).
    pose proof (refresh_spec now has hash p (pre ++ post) _ Ht' Hh ltac:(unfold MAX_SLOTS; lia)) as HR. cbv zeta in HR.
    destruct (refresh_publisher now has hash p (m_aichHashes e)) as [p' aich']. destruct HR as (R1 & R2 & R3 & R4 & R5 & R6). simpl in *.
    exists (pre ++ post ++ [p']). split; [done|].
    assert (p' :: pre ++ post ≡ₚ pre ++ post ++ [p']) as HP by (rewrite app_assoc; apply Permutation_cons_append).
    split; [by eapply tracked_perm|]. split; [|split; [done|split; [done|]]].
    + rewrite app_assoc, view_app, (view_ext _ _ _ R5). simpl. rewrite R2, R3, R4, length_app, length_view. simpl.
      rewrite !length_app in *. simpl in Hl. by replace (length pre + length post + 1 - 100)%nat with O by lia.
    + intros rest Hg _. eapply counted_perm; [|exact Hg]. apply Permutation_app_tail. rewrite !map_app. simpl. rewrite R2.
      apply Permutation_app_head, Permutation_cons_append.
  - pose proof (add_spec now tick has hash e l g Ht Hh ltac:(unfold MAX_SLOTS; lia) Hl) as HA. cbv zeta in HA.
    destruct HA as (l' & A1 & A2 & A3 & A4 & A5 & A6 & A7). exists l'. rewrite view_absent by done. by split_and!.
Qed.

(** ** Names *)

Lemma pushBounded_length n l : Z.of_nat (length l) <= 100 -> Z.of_nat (length (pushBounded n l)) <= 100.
Proof.
  intros H. unfold pushBounded, MAX_FILENAMES. destruct (Z.ltb_spec (Z.of_nat (length l)) 100).
  - rewrite length_app. simpl. lia.
  - destruct (l !! weakest l); [|done]. destruct (_ >? _); [by rewrite length_insert|done].
Qed.

Lemma merge_names_length fast cur from : forall dup l, Z.of_nat (length l) <= 100 ->
  Z.of_nat (length (merge_names fast cur from dup l).2) <= 100.
Proof.
  induction from as [|n from IH]; intros dup l H; simpl; [done|]. destruct (is_empty (m_filename n)); [by apply IH|].
  by apply IH, pushBounded_length.
Qed.

Lemma merge_filenames_length fast from l : (length l <= 1)%nat -> Z.of_nat (length (merge_filenames fast from l)) <= 100.
Proof.
  intros H. unfold merge_filenames. destruct l as [|x l]; simpl in H.
  - pose proof (merge_names_length fast (mkFileName [] 0) from false [] ltac:(simpl; lia)) as HM.
    destruct (merge_names _ _ _ _ _) as [dup l']. simpl in HM. destruct (negb dup && _); [by apply pushBounded_length|done].
  - pose proof (merge_names_length fast x from false l ltac:(lia)) as HM.
    destruct (merge_names _ _ _ _ _) as [dup l']. simpl in HM. destruct (negb dup && _); [by apply pushBounded_length|done].
Qed.

(** What a stored name becomes. *)
Definition renewed (fast : bool) (cur n : sFileNameEntry) : sFileNameEntry :=
  if same_nocase (m_filename cur) (m_filename n) && negb fast then mkFileName (m_filename n) (u32 (m_popularityIndex n + 1)) else n.

Lemma merge_names_spec fast cur from : forall dup l, (length l + length from <= 100)%nat ->
  Forall name_ok from ->
  merge_names fast cur from dup l =
  (dup || existsb (fun n => same_nocase (m_filename cur) (m_filename n)) from, l ++ map (renewed fast cur) from).
Proof.
  induction from as [|n from IH]; intros dup l H Hn; simpl; [by rewrite orb_false_r, app_nil_r|].
  apply Forall_cons in Hn as [Hn1 Hn]. simpl in H. destruct (m_filename n) as [|c s] eqn:E; [done|]. simpl. rewrite <- E.
  rewrite IH.
  - rewrite orb_assoc. f_equal. unfold pushBounded, MAX_FILENAMES. destruct (Z.ltb_spec (Z.of_nat (length l)) 100); [|lia].
    rewrite <- app_assoc. simpl. done.
  - unfold pushBounded, MAX_FILENAMES. destruct (Z.ltb_spec (Z.of_nat (length l)) 100); [|lia]. rewrite length_app. simpl. lia.
  - done.
Qed.

(** Below the cap no name is lost: the stored names stay, in their order, and the published one gains
    a point or comes last. *)
Lemma merge_filenames_spec fast from x : (length from < 100)%nat -> Forall name_ok from -> name_ok x ->
  merge_filenames fast from [x] =
  map (renewed fast x) from ++
  (if existsb (fun n => same_nocase (m_filename x) (m_filename n)) from then [] else [x]).
Proof.
  intros H Hn Hx. unfold merge_filenames. rewrite merge_names_spec by (simpl; lia || done). simpl.
  destruct (existsb _ from); simpl; [by rewrite app_nil_r|].
  destruct (m_filename x) eqn:E; [done|]. simpl. unfold pushBounded, MAX_FILENAMES.
  rewrite length_map. destruct (Z.ltb_spec (Z.of_nat (length from)) 100); [done|lia].
Qed.

(** ** The composition *)

Lemma compact_spec e l : m_publishingIPs e = Some l -> tracked (m_aichHashes e) l ->
  let e' := compact_publishers e in
  exists l', m_publishingIPs e' = Some l' /\ tracked (m_aichHashes e') l' /\ view (m_aichHashes e') l' = view (m_aichHashes e) l /\
    ips_of l' = ips_of l /\ ke_entry e' = ke_entry e /\ m_trustValue e' = m_trustValue e /\
    (length (m_hashes (m_aichHashes e')) <= length l)%nat /\ Forall (λ p, 0 < p) (m_popularity (m_aichHashes e')).
Proof.
  intros Hl Ht. destruct (tracked_compact _ _ Ht) as (C1 & C2 & C3 & C4). pose proof (view_compact _ _ Ht) as C5.
  unfold compact_publishers. rewrite Hl. destruct (Compact (m_aichHashes e)) as [c aich] eqn:E. simpl in *.
  exists (map (remap c) l). split_and!; try done. by rewrite map_map.
Qed.

Definition old_reports (from : option CKeyEntry) : list report := match from with Some e => reports e | None => [] end.
Definition old_publishers (from : option CKeyEntry) : list Z := match from with Some e => publishers e | None => [] end.

Definition votes_for (h : list Z) (v : list report) : Z := Z.of_nat (length (filter (λ o, o = Some h) (map snd v))).

Lemma published_has e : fresh_ok e ->
  published_hash e = (if GetSlotCount (m_aichHashes e) >? 0 then Some (GetHashAt 0 (m_aichHashes e)) else None) /\
  (GetSlotCount (m_aichHashes e) >? 0 = true -> aich_ok (GetHashAt 0 (m_aichHashes e))).
Proof.
  intros [_ Hl Hs _]. unfold published_hash, GetSlotCount, GetHashAt. destruct (m_hashes (m_aichHashes e)) as [|h hs] eqn:E.
  - by split.
  - simpl in Hs. rewrite wrap_small by (simpl; width_lia). simpl. destruct hs; [|simpl in Hs; lia]. split; [done|]. intros _.
    destruct Hl as [_ _ _ H4 _]. rewrite E in H4. apply Forall_cons in H4 as [H4 _]. exact H4.
Qed.

Definition names_after (now : Z) (e : CKeyEntry) (from : option CKeyEntry) : list sFileNameEntry :=
  match from with
  | Some old =>
      merge_filenames (is_fast_refresh now (m_uIP (ke_entry e)) (default [] (m_publishingIPs old)))
        (m_filenames (ke_entry old)) (m_filenames (ke_entry e))
  | None => m_filenames (ke_entry e)
  end.

Lemma merge_finish n0 now tick (has : bool) hash e0 e l g v : tracked (m_aichHashes e0) l ->
  (has = true -> aich_ok hash) -> Z.of_nat (length (m_hashes (m_aichHashes e0))) <= 100 ->
  view (m_aichHashes e0) l = v -> reports_ok n0 v -> n0 <= now ->
  Z.of_nat (length (m_filenames (ke_entry e0))) <= 100 ->
  let r := merge_publishers now tick has hash e0 l g in
  e = compact_publishers r.1 ->
  stored_ok now e /\ reports e = publish (m_uIP (ke_entry e0)) now (if has then Some hash else None) v /\
  ke_entry e = ke_entry e0 /\ Forall (λ p, 0 < p) (m_popularity (m_aichHashes e)) /\
  (find_publisher (m_uIP (ke_entry e0)) l = None -> exists l', m_publishingIPs r.1 = Some l' /\ m_publishingIPs e = Some (map (remap (Compact (m_aichHashes r.1)).1) l') /\
     m_trustValue e = trust_loop r.2 d_zero l') /\
  forall rest, counted g (ips_of l ++ rest) -> Z.of_nat (length (ips_of l ++ rest)) + 1 < 2 ^ 32 -> counted r.2 (publishers e ++ rest).
Proof.
  intros Ht Hh Hs Hv Hr Hn Hf r ->. pose proof Hr as [R1 R2 _ _].
  pose proof (merge_publishers_spec now tick has hash e0 l g Ht Hh Hs) as HM.
  rewrite <- Hv, length_view in R1. rewrite <- Hv, ips_view in R2. specialize (HM R1 R2). fold r in HM.
  destruct HM as (l' & M1 & M2 & M3 & M4 & M5 & M6). rewrite Hv in M3.
  destruct (compact_spec r.1 l' M1 M2) as (l2 & C1 & C2 & C3 & C4 & C5 & C6 & C7 & C8).
  assert (reports (compact_publishers r.1) = publish (m_uIP (ke_entry e0)) now (if has then Some hash else None) v) as HR
    by (unfold reports; rewrite C1, C3; exact M3).
  pose proof (publish_ok n0 now (m_uIP (ke_entry e0)) (if has then Some hash else None) v Hr Hn) as HP.
  split; [|split; [done|split; [congruence|split; [done|split]]]].
  - split; [by exists l2|by rewrite HR| |by rewrite C5, M4].
    rewrite <- M3 in HP. destruct HP as [HP _ _ _]. rewrite length_view in HP. lia.
  - intros Hnone. exists l'. split; [done|]. rewrite C6. split; [|by apply M5].
    unfold compact_publishers. rewrite M1. by destruct (Compact _).
  - intros rest Hg Hb. unfold publishers. rewrite C1, C4. by apply M6.
Qed.

Lemma merge_spec n0 now tick e from g : fresh_ok e -> (forall old, from = Some old -> stored_ok n0 old) -> n0 <= now ->
  let r := MergeIPsAndFilenames now tick e from g in
  stored_ok now r.1.1 /\ reports r.1.1 = publish (m_uIP (ke_entry e)) now (published_hash e) (old_reports from) /\
  ke_entry r.1.1 = set_filenames (names_after now e from) (ke_entry e) /\
  r.1.2 = match from with Some old => Some (set_publishers None old) | None => None end /\
  Forall (λ p, 0 < p) (m_popularity (m_aichHashes r.1.1)) /\
  forall rest, counted g (old_publishers from ++ rest) -> Z.of_nat (length (old_publishers from ++ rest)) + 1 < 2 ^ 32 ->
    counted r.2 (publishers r.1.1 ++ rest).
Proof.
  intros He Hold Hn. destruct (published_has e He) as [Hh1 Hh2]. pose proof He as [F1 F2 F3 F4]. cbv zeta.
  unfold MergeIPsAndFilenames. rewrite F1. destruct from as [old|].
  - specialize (Hold old eq_refl). pose proof Hold as [(l & S1 & S2) S3 S4 S5].
    rewrite S1. unfold old_reports, old_publishers, publishers, names_after. rewrite S1. simpl default. rewrite Hh1.
    set (names := merge_filenames _ _ _). set (e0 := set_trust _ _ _).
    pose proof (merge_finish n0 now tick _ (GetHashAt 0 (m_aichHashes e)) e0
      (compact_publishers (merge_publishers now tick (GetSlotCount (m_aichHashes e) >? 0) (GetHashAt 0 (m_aichHashes e)) e0 l g).1)
      l g (reports old) S2 Hh2 S4 ltac:(unfold reports; by rewrite S1) S3 Hn) as HF.
    specialize (HF ltac:(by apply merge_filenames_length) eq_refl). cbv zeta in HF.
    destruct (merge_publishers _ _ _ _ _ _ _) as [e' g'] eqn:E. cbn [fst snd] in *. destruct HF as (Q1 & Q2 & Q3 & Q4 & _ & Q6).
    split_and!; try done.
  - unfold old_reports, old_publishers, names_after. rewrite Hh1. set (e0 := set_hashes CKadAICHHashList_new e).
    pose proof (merge_finish n0 now tick _ (GetHashAt 0 (m_aichHashes e)) e0
      (compact_publishers (merge_publishers now tick (GetSlotCount (m_aichHashes e) >? 0) (GetHashAt 0 (m_aichHashes e)) e0 [] g).1)
      [] g [] tracked_new Hh2 ltac:(simpl; lia) eq_refl (reports_ok_nil n0) Hn ltac:(simpl; lia) eq_refl) as HF. cbv zeta in HF.
    destruct (merge_publishers _ _ _ _ _ _ _) as [e' g'] eqn:E. cbn [fst snd] in *. destruct HF as (Q1 & Q2 & Q3 & Q4 & _ & Q6).
    split_and!; try done. rewrite Q3. simpl. by destruct (ke_entry e).
Qed.

(** ** Expiry *)

Definition current (now : Z) (r : report) : Prop := now - r.1.2 <= KADEMLIAREPUBLISHTIMEK.

#[export] Instance current_dec now r : Decision (current now r).
Proof. unfold current. apply _. Defined.

Lemma cleanup_spec now l : forall aich g, tracked aich l -> StronglySorted Z.le (map p_lastPublish l) ->
  let '(l', aich', g') := cleanup_loop now l aich g in
  tracked aich' l' /\ m_hashes aich' = m_hashes aich /\ view aich' l' = filter (current now) (view aich l) /\
  forall rest, counted g (ips_of l ++ rest) -> counted g' (ips_of l' ++ rest).
Proof.
  induction l as [|p l IH]; intros aich g Ht Hs; [by split_and!|]. simpl. simpl in Hs. apply StronglySorted_inv in Hs as [Hs Hf].
  destruct (Z.gtb_spec (now - p_lastPublish p) KADEMLIAREPUBLISHTIMEK) as [H|H].
  - destruct (tracked_drop aich p l Ht) as [D1 D2].
    specialize (IH _ (AdjustGlobalPublishTracking (p_ip p) false g) D1 Hs). destruct (cleanup_loop _ _ _ _) as [[l' aich'] g'].
    destruct IH as (I1 & I2 & I3 & I4). rewrite filter_cons_False by (unfold current; simpl; lia).
    split; [done|]. split; [congruence|]. split.
    + rewrite I3. f_equal. apply view_ext, Forall_forall. intros q _. by apply hash_of_same.
    + intros rest Hg. apply I4. by apply counted_delete.
  - split; [done|]. split; [done|]. split; [|by intros].
    rewrite filter_cons_True by (unfold current; simpl; lia). simpl. f_equal.
    assert (Forall (current now) (view aich l)) as HC.
    { apply Forall_forall. intros r Hr. apply list_elem_of_fmap in Hr as (q & -> & Hq). unfold current. simpl.
      rewrite Forall_map in Hf. pose proof (proj1 (Forall_forall _ _) Hf q Hq). simpl in *. lia. }
    clear -HC. induction HC as [|r v Hr _ IH]; [done|]. by rewrite filter_cons_True, <- IH.
Qed.

Lemma reports_ok_filter n0 now (P : report -> Prop) `{forall r, Decision (P r)} v : reports_ok n0 v -> n0 <= now ->
  reports_ok now (filter P v).
Proof.
  intros [H1 H2 H3 H4] Hn. pose proof (length_filter P v). split; [lia| | |].
  - eapply sublist_NoDup; [exact H2|]. exact (fmap_sublist _ _ _ (sublist_filter _ v)).
  - by apply SSorted_filter.
  - apply Forall_forall. intros r Hr. apply list_elem_of_filter in Hr as [_ Hr].
    pose proof (proj1 (Forall_forall _ _) H4 r Hr). simpl in *. lia.
Qed.

Lemma CleanUp_spec n0 now e g : stored_ok n0 e -> n0 <= now ->
  let r := CleanUpTrackedPublishers now e g in
  stored_ok now r.1 /\ reports r.1 = filter (current now) (reports e) /\ ke_entry r.1 = ke_entry e /\
  forall rest, counted g (publishers e ++ rest) -> counted r.2 (publishers r.1 ++ rest).
Proof.
  intros [(l & S1 & S2) S3 S4 S5] Hn. cbv zeta. unfold CleanUpTrackedPublishers, publishers. rewrite S1.
  pose proof S3 as [_ _ R3 _]. unfold reports in R3. rewrite S1 in R3. unfold view in R3. rewrite map_map in R3.
  pose proof (cleanup_spec now l (m_aichHashes e) g S2 R3) as HC. destruct (cleanup_loop _ _ _ _) as [[l' aich'] g'].
  destruct HC as (C1 & C2 & C3 & C4). cbn [fst snd].
  assert (reports (set_publishers (Some l') (set_hashes aich' e)) = filter (current now) (reports e)) as HR
    by (unfold reports; simpl; by rewrite S1).
  split; [|split; [done|split; [done|done]]]. split; [by exists l'| |simpl; by rewrite C2|done].
  rewrite HR. by eapply reports_ok_filter.
Qed.

(** ** Trust *)

(** The sum over the publishers of the points of their networks, shared by all publications from there. *)
Definition trust_of (ips : list Z) (l : list Z) : double :=
  fold_left (fun v ip => d_add v (d_points (in_subnet (subnet ip) ips))) l d_zero.

Lemma trust_counted g ips l : counted g ips -> (forall p, p ∈ l -> p_ip p ∈ ips) -> forall v,
  trust_loop g v l = fold_left (fun v ip => d_add v (d_points (in_subnet (subnet ip) ips))) (ips_of l) v.
Proof.
  intros [Hb Hg] Hin. induction l as [|p l IH]; intros v; [done|]. simpl. rewrite <- IH by (intros q Hq; apply Hin; by apply list_elem_of_further).
  f_equal. assert (0 < in_subnet (subnet (p_ip p)) ips) as H.
  { pose proof (Hin p ltac:(apply list_elem_of_here)) as Hp. apply list_elem_of_split in Hp as (a & b & E). rewrite E, in_subnet_app, in_subnet_cons.
    rewrite bool_decide_eq_true_2 by done. pose proof (in_subnet_bounds (subnet (p_ip p)) a). pose proof (in_subnet_bounds (subnet (p_ip p)) b). lia. }
  rewrite Hg. destruct (Z.eqb_spec (in_subnet (subnet (p_ip p)) ips) 0); [lia|]. simpl. destruct (Z.gtb_spec (in_subnet (subnet (p_ip p)) ips) 0); [done|lia].
Qed.

End Merge.

(** ** What is written *)

Section Written.

Context {F : Type} {IOF : CFileDataIO F} {laws : FileLaws F} {conv : wxConv} {claws : wxConvLaws conv}.

#[local] Open Scope io_scope.

(** The tags of an entry, in the order of the answer. *)
Definition size_tag (size : Z) : CTag :=
  let type := if size <=? 0xFF then TAGTYPE_UINT8 else if size <=? 0xFFFF then TAGTYPE_UINT16
              else if size <=? 0xFFFFFFFF then TAGTYPE_UINT32 else TAGTYPE_UINT64 in
  with_value type (VInt size) 0 (CTag_named TAG_FILESIZE).

Definition all_tags (e : CEntry) : list CTag :=
  (if is_empty (GetCommonFileName e) then [] else [CTagString (CTag_named TAG_FILENAME) (GetCommonFileName e)]) ++
  (if m_uSize e =? 0 then [] else [size_tag (m_uSize e)]) ++ m_taglist e.

(** The number of tags an answer announces, when [extra] tags follow the ones of the entry. *)
Definition announced (e : CEntry) (extra : Z) : Z := Z.min 0xFF (Z.of_nat (length (all_tags e)) + extra).

Lemma write_budget_take l : forall n, write_budget l n = write_tags (take (Z.to_nat n) l).
Proof.
  induction l as [|t l IH]; intros n; simpl; [by rewrite take_nil|]. destruct (Z.gtb_spec n 0).
  - rewrite IH. by replace (Z.to_nat n) with (S (Z.to_nat (n - 1))) by lia.
  - by replace (Z.to_nat n) with O by lia.
Qed.

Lemma GetTagCount_all e : Z.of_nat (length (all_tags e)) < 2 ^ 32 -> GetTagCount e = Z.of_nat (length (all_tags e)).
Proof.
  unfold GetTagCount, all_tags. rewrite !length_app. intros H.
  rewrite wrap_small; destruct (is_empty _), (m_uSize e =? 0); simpl in *; width_lia.
Qed.

(** One optional tag, and the budget after it. *)
Lemma writes_optional (c : bool) (m k : IO F unit) t b (rest : list CTag) budget :
  (forall b, kad_stored t b -> writes m b tt) ->
  Forall2 kad_stored (take (Z.to_nat budget) ((if c then [t] else []) ++ rest)) b ->
  (forall b', Forall2 kad_stored (take (Z.to_nat (if c && (budget >? 0) then budget - 1 else budget)) rest) b' ->
     writes k (concat b') tt) ->
  writes (seq! (if c && (budget >? 0) then m else io_ret tt) in k) (concat b) tt.
Proof.
  intros Hm Hb Hk. destruct c; simpl in *.
  - destruct (Z.gtb_spec budget 0).
    + replace (Z.to_nat budget) with (S (Z.to_nat (budget - 1))) in Hb by lia. simpl in Hb.
      apply Forall2_cons_inv_l in Hb as (x & b' & Hx & Hb & ->). simpl. eapply writes_bind; [by apply Hm|by apply Hk].
    + replace (Z.to_nat budget) with O in Hb, Hk by lia. simpl in Hb, Hk. apply Forall2_nil_inv_l in Hb as ->.
      change (concat []) with (@nil Z ++ concat []). eapply writes_bind; [apply writes_ret|by apply Hk].
  - rewrite <- (app_nil_l (concat b)). eapply writes_bind; [apply writes_ret|by apply Hk].
Qed.

Lemma writes_TagListInc e extra bs : Z.of_nat (length (all_tags e)) + extra < 2 ^ 32 -> 0 <= extra <= 0xFF ->
  Forall2 kad_stored (take (Z.to_nat (announced e extra - extra)) (all_tags e)) bs ->
  writes (WriteTagListInc e extra) (poke_le 1 (announced e extra) ++ concat bs) tt.
Proof.
  intros Hn Hx Hb. unfold WriteTagListInc. rewrite GetTagCount_all, (wrap_small 32) by (width_lia || lia).
  assert ((if Z.of_nat (length (all_tags e)) + extra >? 0xFF then 0xFF else Z.of_nat (length (all_tags e)) + extra) = announced e extra) as ->
    by (unfold announced; destruct (Z.gtb_spec (Z.of_nat (length (all_tags e)) + extra) 0xFF); lia).
  assert (0 <= announced e extra <= 255) as Ha by (unfold announced; lia).
  rewrite (wrap_small 8) by width_lia. eapply writes_bind; [by apply (writes_int 1)|].
  replace (if announced e extra >? extra then announced e extra - extra else 0) with (announced e extra - extra)
    by (unfold announced in *; destruct (Z.gtb_spec (Z.min 255 (Z.of_nat (length (all_tags e)) + extra)) extra); lia).
  revert Hb. unfold all_tags. generalize (announced e extra - extra). intros budget Hb.
  assert ((if is_empty (GetCommonFileName e) then [] else [CTagString (CTag_named TAG_FILENAME) (GetCommonFileName e)]) =
    (if negb (is_empty (GetCommonFileName e)) then [CTagString (CTag_named TAG_FILENAME) (GetCommonFileName e)] else [])) as E1
    by (by destruct (is_empty _)).
  assert ((if m_uSize e =? 0 then [] else [size_tag (m_uSize e)]) = (if negb (m_uSize e =? 0) then [size_tag (m_uSize e)] else [])) as E2
    by (by destruct (m_uSize e =? 0)).
  rewrite E1, E2 in Hb. eapply writes_optional; [|exact Hb|]; [intros b; apply writes_WriteTag|]. intros b2 Hb2.
  eapply writes_optional; [|exact Hb2|]; [intros b; apply writes_WriteTag|]. intros b3 Hb3.
  rewrite write_budget_take. by apply writes_tags.
Qed.

(** The integer tags that are sent. *)
Lemma sized_stored v name : in_width 64 v -> plain_text name -> name <> [] ->
  exists t b, SizedInit v 0 (CTag_named name) = inr t /\ kad_stored t b /\ m_Name t = name /\ m_val t = VInt v.
Proof.
  intros Hv Hp Hne. unfold SizedInit. simpl.
  set (type := if v <=? 255 then _ else _).
  assert (exists b, kad_value type (VInt v) 0 b) as [b Hb].
  { unfold type. destruct (Z.leb_spec v 255); [eexists; apply kad_uint8; width_lia|].
    destruct (Z.leb_spec v 65535); [eexists; apply kad_uint16; width_lia|].
    destruct (Z.leb_spec v 4294967295); [eexists; apply kad_uint32; width_lia|]. eexists. by apply kad_uint64. }
  eexists _, (poke_le 1 type ++ (poke_le 2 (Z.of_nat (length name)) ++ name) ++ b). split; [done|]. split; [|done].
  destruct name; [done|]. split; [done|]. by exists b.
Qed.

Lemma bsob_stored data name : Forall is_byte data -> Z.of_nat (length data) < 256 -> plain_text name -> name <> [] ->
  exists b, kad_stored (CTagBsob (CTag_named name) data (u8 (Z.of_nat (length data)))) b.
Proof.
  intros Hd Hl Hp Hne. unfold CTagBsob. rewrite wrap_small by width_lia. rewrite Nat2Z.id, take_ge by done.
  exists (poke_le 1 TAGTYPE_BSOB ++ (poke_le 2 (Z.of_nat (length name)) ++ name) ++ bytes_bsob data).
  destruct name; [done|]. split; [done|]. eexists. split; [by apply kad_bsob|done].
Qed.

Lemma stored_list l : Forall (fun t => exists b, kad_stored t b) l -> exists bs, Forall2 kad_stored l bs.
Proof.
  induction 1 as [|t l [b Hb] _ [bs IH]]; [by exists []|]. exists (b :: bs). by constructor.
Qed.

End Written.

(** ** The answer *)

(** The value of the publish information: names, publishers and trust. *)
Lemma info_value names pubs trust : 0 <= names < 256 -> 0 <= pubs < 256 -> in_width 16 trust ->
  Z.lor (Z.lor (u32 (Z.shiftl names 24)) (Z.shiftl pubs 16)) trust = names * 2 ^ 24 + pubs * 2 ^ 16 + trust.
Proof.
  intros Hn Hp Ht. rewrite (wrap_small 32) by (rewrite Z.shiftl_mul_pow2 by done; width_lia).
  replace (Z.shiftl names 24) with (Z.shiftl (Z.shiftl names 8) 16) by (rewrite Z.shiftl_shiftl by done; done).
  rewrite <- Z.shiftl_lor, Z.lor_comm, lor_shiftl_add, Z.lor_comm, lor_shiftl_add by (done || width_lia). norm_pow. lia.
Qed.

Section Answer.

Context {wxcase : wxCase} {doubles : Doubles} {F : Type} {IOF : CFileDataIO F} {laws : FileLaws F} {conv : wxConv}
  {claws : wxConvLaws conv}.

#[local] Open Scope io_scope.

Definition sendable (e : CEntry) : Prop :=
  Forall (fun t => exists b, kad_stored t b) (all_tags e) /\ Z.of_nat (length (all_tags e)) + 2 < 2 ^ 32.

(** The tag with the publish information of [e]. *)
Definition is_publish_info (value : Z) (t : CTag) : Prop := m_Name t = TAG_PUBLISHINFO /\ m_val t = VInt value.

Lemma land_ff n : 0 <= n < 256 -> Z.land n 0xFF = n.
Proof. intros H. change 0xFF with (Z.ones 8). rewrite Z.land_ones by done. apply Z.mod_small. norm_pow. lia. Qed.

Lemma plain_name c : 0 < c < 128 -> plain_text [c].
Proof. intros H. split; [apply Forall_singleton; lia|]. split; [simpl; lia|]. simpl. unfold BOMHeader. congruence. Qed.

Definition hash_tags (protocol_10 : bool) (e : CKeyEntry) : list CTag :=
  match (if protocol_10 then EncodeResultTag (m_aichHashes e) else []) with
  | [] => []
  | d => [CTagBsob (CTag_named TAG_KADAICHHASHRESULT) d (u8 (Z.of_nat (length d)))]
  end.

Lemma hash_tags_stored protocol_10 e : list_ok (m_aichHashes e) ->
  Forall (fun t => exists b, kad_stored t b) (hash_tags protocol_10 e) /\ (length (hash_tags protocol_10 e) <= 1)%nat.
Proof.
  intros Hl. unfold hash_tags. destruct protocol_10; [|by repeat constructor].
  destruct (aich_result_bytes (m_aichHashes e) Hl) as [Hb Hn]. destruct (EncodeResultTag (m_aichHashes e)) as [|x d] eqn:E; [by repeat constructor|].
  split; [|simpl; lia]. apply Forall_singleton. apply bsob_stored; [done|lia|by apply plain_name|done].
Qed.

(** The hashes an answer gives, with their counts: the first eleven that are referenced. *)
Definition answered_hashes (e : CKeyEntry) : list SResultHash :=
  take 11 (referenced (m_popularity (m_aichHashes e)) (m_hashes (m_aichHashes e))).

(** They travel in one tag, which a decoder reads back; to an old protocol, or without any, none is sent. *)
Lemma hash_tags_spec protocol_10 e : list_ok (m_aichHashes e) ->
  if protocol_10 && negb (bool_decide (answered_hashes e = [])) then
    exists d, hash_tags protocol_10 e = [CTagBsob (CTag_named TAG_KADAICHHASHRESULT) d (u8 (Z.of_nat (length d)))] /\
      DecodeResultTag d = Some (answered_hashes e)
  else hash_tags protocol_10 e = [].
Proof.
  intros Hl. unfold hash_tags. destruct protocol_10; [|done]. destruct (aich_result_roundtrip (m_aichHashes e) [] Hl) as (H0 & H1 & _).
  rewrite app_nil_r in H1. simpl. fold (answered_hashes e) in H0, H1. destruct (bool_decide_reflect (answered_hashes e = [])) as [E|E].
  - by rewrite (H0 E).
  - specialize (H1 E). destruct (EncodeResultTag (m_aichHashes e)); [by discriminate H1|]. exists (z :: l). split; [reflexivity|exact H1].
Qed.

Lemma writes_answer protocol_10 tick g e l : list_ok (m_aichHashes e) -> m_publishingIPs e = Some l -> l <> [] ->
  Z.of_nat (length l) <= 255 -> Z.of_nat (length (m_filenames (ke_entry e))) <= 255 ->
  (forall v, in_width 16 (d_percent v)) -> sendable (ke_entry e) ->
  exists info hashes bs, writes (WriteTagListWithPublishInfo protocol_10 tick g e)
      (poke_le 1 (announced (ke_entry e) (1 + Z.of_nat (length hashes))) ++ concat bs) (GetTrustValue tick g e).2 /\
    hashes = hash_tags protocol_10 e /\
    Forall2 kad_stored (take (Z.to_nat (announced (ke_entry e) (1 + Z.of_nat (length hashes)) - (1 + Z.of_nat (length hashes)))) (all_tags (ke_entry e)) ++ info :: hashes) bs /\
    is_publish_info (Z.of_nat (length (m_filenames (ke_entry e))) * 2 ^ 24 + Z.of_nat (length l) * 2 ^ 16 +
      d_percent (GetTrustValue tick g e).1) info.
Proof.
  intros Hok Hl Hne Hlen Hnames Hd [Hs Hsn].
  destruct (hash_tags_stored protocol_10 e Hok) as [Hh Hh1].
  set (v := Z.of_nat (length (m_filenames (ke_entry e))) * 2 ^ 24 + Z.of_nat (length l) * 2 ^ 16 + d_percent (GetTrustValue tick g e).1).
  pose proof (Hd (GetTrustValue tick g e).1) as Ht.
  destruct (sized_stored v TAG_PUBLISHINFO ltac:(unfold v; width_lia) ltac:(by apply plain_name) ltac:(done)) as (info & bi & E1 & E2 & E3 & E4).
  destruct (stored_list _ Hh) as [bh Hbh].
  set (n := 1 + Z.of_nat (length (hash_tags protocol_10 e))).
  destruct (stored_list _ (Forall_take _ (Z.to_nat (announced (ke_entry e) n - n)) _ Hs)) as [bt Hbt].
  exists info, (hash_tags protocol_10 e), (bt ++ bi :: bh). split; [|split; [done|split; [|done]]].
  2:{ apply Forall2_app; [exact Hbt|]. by constructor. }
  fold n. unfold WriteTagListWithPublishInfo. rewrite Hl. destruct l as [|p l']; [done|].
  rewrite concat_app, app_assoc. simpl concat.
  replace (match (if protocol_10 then EncodeResultTag (m_aichHashes e) else []) with [] => 1 | _ => 2 end) with n.
  2:{ unfold n, hash_tags. by destruct (if protocol_10 then _ else _). }
  eapply writes_bind; [apply writes_TagListInc; [lia|lia|exact Hbt]|].
  assert (m_filenames (ke_entry (GetTrustValue tick g e).2) = m_filenames (ke_entry e)) as HF.
  { unfold GetTrustValue. destruct (_ >? _); [|done]. unfold ReCalculateTrustValue. by rewrite Hl. }
  destruct (GetTrustValue tick g e) as [value e'] eqn:ET. cbn [fst snd] in *. rewrite HF, !land_ff, info_value by (lia || done).
  fold v. rewrite E1. rewrite <- (app_nil_r (concat bh)).
  eapply writes_bind.
  { exact (writes_WriteTag info bi E2). }
  eapply writes_bind; [|apply writes_ret]. unfold hash_tags in Hbh.
  destruct (if protocol_10 then _ else _) as [|x d]; [apply Forall2_nil_inv_l in Hbh as ->; apply writes_ret|].
  apply Forall2_cons_inv_l in Hbh as (b0 & bh' & Hb0 & Hbh & ->). apply Forall2_nil_inv_l in Hbh as ->. simpl. rewrite app_nil_r.
  by apply writes_WriteTag.
Qed.

End Answer.

(** ** The publish data are read back *)

Section PublishRoundTrip.

Context {wxcase : wxCase} {doubles : Doubles} {F : Type} {IOF : CFileDataIO F} {laws : FileLaws F} {conv : wxConv}
  {claws : wxConvLaws conv}.

#[local] Open Scope io_scope.

Definition name_stored (n : sFileNameEntry) (b : list Z) : Prop :=
  in_width 32 (m_popularityIndex n) /\ exists t, text_ok utf8strRaw true (m_filename n) t /\
    b = (poke_le 2 (Z.of_nat (length t)) ++ t) ++ poke_le 4 (m_popularityIndex n).

Definition publisher_bytes (with_hash : bool) (p : sPublishingIP) : list Z :=
  poke_le 4 (p_ip p) ++ poke_le 4 (p_lastPublish p) ++ (if with_hash then poke_le 2 (p_aichHashIdx p) else []).

Definition publisher_ok (p : sPublishingIP) : Prop := in_width 32 (p_ip p) /\ in_width 32 (p_lastPublish p).

Lemma writes_names l bs : Forall2 name_stored l bs -> writes (write_names l) (concat bs) tt.
Proof.
  induction 1 as [|n b l bs (Hp & t & Ht & ->) _ IH]; cbn [write_names concat]; [apply writes_ret|].
  rewrite <- !app_assoc. rewrite app_assoc. eapply writes_bind.
  { change 2%nat with (Z.to_nat 2). eapply writes_String; [tauto|exact Ht]. }
  eapply writes_bind; [by apply (writes_int 4)|done].
Qed.

Lemma parses_names l bs : Forall2 name_stored l bs -> forall acc,
  parses (read_names (length l) acc) (concat bs) (acc ++ l).
Proof.
  induction 1 as [|n b l bs (Hp & t & Ht & ->) _ IH]; intros acc; cbn [length read_names concat]; [rewrite app_nil_r; apply parses_ret|].
  rewrite <- !app_assoc. rewrite app_assoc. eapply parses_bind.
  { change 2%nat with (Z.to_nat 2). pose proof (parses_String true false 2 t) as HS.
    rewrite (text_ok_decode _ _ _ _ Ht) in HS. apply HS; [tauto|]. by destruct Ht as (_ & ? & _). }
  eapply parses_bind; [by apply parses_UInt32|]. specialize (IH (acc ++ [n])). rewrite <- app_assoc in IH.
  destruct n as [name pop]. exact IH.
Qed.

Lemma writes_hashes map : forall hs, Forall aich_ok hs -> writes (write_hashes map hs) (concat (keep_mapped map hs)) tt.
Proof.
  induction map as [|i map IH]; intros [|h hs] H; simpl; try apply writes_ret. apply Forall_cons in H as [[Hh Hl] H].
  destruct (negb (i =? INVALID_INDEX)); [|by apply IH]. simpl. eapply writes_bind; [|by apply IH].
  apply writes_Write; [done|rewrite Hl; done].
Qed.

Lemma parses_hashes hs : Forall aich_ok hs -> parses (read_hashes (length hs)) (concat hs) hs.
Proof.
  induction 1 as [|h hs [Hh Hl] _ IH]; cbn [length read_hashes concat]; [apply parses_ret|]. eapply parses_bind.
  { unfold KAD_AICH_HASH_SIZE. replace 20 with (Z.of_nat (length h)) by lia. apply parses_Read. rewrite Hl. done. }
  rewrite <- (app_nil_r (concat hs)). eapply parses_bind; [exact IH|]. apply parses_ret.
Qed.

Lemma writes_publishers (protocol_10 : bool) newIndexes l : Forall publisher_ok l ->
  Forall (λ p, p_aichHashIdx p = INVALID_INDEX ∨ 0 <= p_aichHashIdx p < Z.of_nat (length newIndexes)) l ->
  Z.of_nat (length newIndexes) <= INVALID_INDEX ->
  writes (write_publishers protocol_10 newIndexes l) (concat (map (publisher_bytes protocol_10) (map (remap newIndexes) l))) tt.
Proof.
  intros H Hi Hn. induction l as [|p l IH]; cbn [write_publishers concat map]; [apply writes_ret|].
  apply Forall_cons in H as [[H1 H2] H]. apply Forall_cons in Hi as [Hi1 Hi]. unfold publisher_bytes at 1. cbn [p_ip p_lastPublish remap].
  rewrite <- !app_assoc. eapply writes_bind; [by apply (writes_int 4)|]. rewrite (wrap_small 32) by done.
  eapply writes_bind; [by apply (writes_int 4)|]. eapply writes_bind; [|by apply IH].
  destruct protocol_10; [|apply writes_ret]. cbn [p_aichHashIdx remap].
  destruct (Z.eqb_spec (p_aichHashIdx p) INVALID_INDEX) as [E|E]; cbn [negb].
  - rewrite E. destruct (Z.ltb_spec INVALID_INDEX (Z.of_nat (length newIndexes))); [lia|]. by apply (writes_int 2).
  - destruct Hi1 as [?|Hi1]; [done|]. destruct (Z.ltb_spec (p_aichHashIdx p) (Z.of_nat (length newIndexes))); [|lia].
    by apply (writes_int 2).
Qed.

Lemma parses_publisher (b : bool) p : publisher_ok p -> (b = true -> in_width 16 (p_aichHashIdx p)) ->
  parses (read_publisher b) (publisher_bytes b p) (p_ip p, p_lastPublish p, if b then p_aichHashIdx p else INVALID_INDEX).
Proof.
  intros [H1 H2] Hi. unfold read_publisher, publisher_bytes. eapply parses_bind; [by apply parses_UInt32|].
  eapply parses_bind; [by apply parses_UInt32|]. destruct b.
  - rewrite <- (app_nil_r (poke_le 2 _)). eapply parses_bind; [apply parses_UInt16; by apply Hi|apply parses_ret].
  - change (@nil Z) with (@nil Z ++ []). eapply parses_bind; [apply parses_ret|apply parses_ret].
Qed.

(** What a file without hashes keeps of a report. *)
Definition stored_report (with_hash : bool) (r : report) : report := (r.1, if with_hash then r.2 else None).

(** One publisher that is read. *)
Lemma read_step (b : bool) c p aich acc : tracked aich acc -> list_ok c ->
  (length (m_hashes aich) <= length acc)%nat -> Z.of_nat (length acc) < 255 -> slot_ok (length (m_hashes c)) p ->
  let storedIdx := if b then p_aichHashIdx p else INVALID_INDEX in
  let r := if negb (storedIdx =? INVALID_INDEX) && negb (storedIdx >=? Z.of_nat (length (m_hashes c)))
           then AddReference (m_hashes c !!! Z.to_nat storedIdx) aich else (INVALID_INDEX, aich) in
  let q := mkPublisher (p_ip p) (p_lastPublish p) r.1 in
  tracked r.2 (acc ++ [q]) /\ (length (m_hashes r.2) <= length (acc ++ [q]))%nat /\
  view r.2 (acc ++ [q]) = view aich acc ++ [stored_report b (p_ip p, p_lastPublish p, hash_of c p)].
Proof.
  intros Ht Hc Hs Hl Hp. cbv zeta. rewrite length_app. cbn [length].
  assert (forall r : Z * CKadAICHHashList, let q := mkPublisher (p_ip p) (p_lastPublish p) r.1 in
    tracked r.2 (q :: acc) -> hash_of r.2 q = (if b then hash_of c p else None) ->
    (length (m_hashes r.2) <= S (length (m_hashes aich)))%nat -> Forall (λ x, hash_of r.2 x = hash_of aich x) acc ->
    tracked r.2 (acc ++ [q]) /\ (length (m_hashes r.2) <= length acc + 1)%nat /\
    view r.2 (acc ++ [q]) = view aich acc ++ [stored_report b (p_ip p, p_lastPublish p, hash_of c p)]) as HK.
  { intros r q H1 H2 H3 H4. split; [eapply tracked_perm; [|exact H1]; apply Permutation_cons_append|]. split; [lia|].
    rewrite view_app, (view_ext _ _ _ H4). simpl. by rewrite H2. }
  assert (tracked aich (mkPublisher (p_ip p) (p_lastPublish p) INVALID_INDEX :: acc)) as Hplain by (apply tracked_plain; done).
  pose proof Hc as [_ Hm _ Ha _]. destruct b; [|apply HK; [done|done|simpl; lia|by apply Forall_forall]].
  destruct (Z.eqb_spec (p_aichHashIdx p) INVALID_INDEX) as [E|E]; cbn [negb andb].
  { apply HK; [done| |simpl; lia|by apply Forall_forall]. unfold hash_of. by rewrite E. }
  destruct Hp as [?|Hp]; [done|]. destruct (Z.geb_spec (p_aichHashIdx p) (Z.of_nat (length (m_hashes c)))); [lia|]. cbn [negb].
  destruct (lookup_lt_is_Some_2 (m_hashes c) (Z.to_nat (p_aichHashIdx p)) ltac:(lia)) as [h Hh].
  rewrite (list_lookup_total_correct _ _ _ Hh).
  destruct (tracked_reference aich h acc (p_ip p) (p_lastPublish p) Ht (Forall_lookup_1 _ _ _ _ Ha Hh) Hl ltac:(unfold MAX_SLOTS; lia))
    as (T1 & T2 & T3 & T4).
  apply HK; [exact T1| |exact T3|exact T4]. rewrite T2. unfold hash_of.
  destruct (Z.eqb_spec (p_aichHashIdx p) INVALID_INDEX); [done|]. by rewrite Hh.
Qed.

Lemma read_publishers_spec (b : bool) c l : list_ok c -> Forall publisher_ok l -> Forall (slot_ok (length (m_hashes c))) l ->
  forall aich acc g f rest, tracked aich acc -> (length (m_hashes aich) <= length acc)%nat ->
  Z.of_nat (length acc + length l) <= 255 ->
  file_ok f -> GetPosition f <= GetLength f ->
  drop (Z.to_nat (GetPosition f)) (content f) = concat (map (publisher_bytes b) l) ++ rest ->
  exists aich' l' g' f', read_publishers (length l) b (m_hashes c) aich acc g f = (inr tt, (aich', l', g'), f') /\
    tracked aich' l' /\ (length (m_hashes aich') <= length l')%nat /\
    view aich' l' = view aich acc ++ map (stored_report b) (view c l) /\ ips_of l' = ips_of acc ++ ips_of l /\
    (forall ips, counted g ips -> Z.of_nat (length l + length ips) < 2 ^ 32 -> counted g' (ips_of l ++ ips)) /\
    file_ok f' /\ content f' = content f /\ GetPosition f' = GetPosition f + Z.of_nat (length (concat (map (publisher_bytes b) l))).
Proof.
  intros Hc. induction l as [|p l IH]; intros Hp Hs aich acc g f rest Ht Hr Hn Hf Hpos E.
  - exists aich, acc, g, f. simpl. rewrite !app_nil_r. split_and!; try done; lia.
  - apply Forall_cons in Hp as [Hp1 Hp]. apply Forall_cons in Hs as [Hs1 Hs].
    cbn [map concat length read_publishers] in *. rewrite <- app_assoc in E.
    assert (b = true -> in_width 16 (p_aichHashIdx p)) as Hw.
    { intros _. destruct Hc as [_ Hm _ _ _]. unfold slot_ok, MAX_SLOTS, INVALID_INDEX in *. destruct Hs1 as [->|?]; width_lia. }
    destruct (parses_publisher b p Hp1 Hw f _ Hf Hpos E) as (f1 & E1 & Hf1 & C1 & P1). rewrite E1.
    destruct (parses_at f (publisher_bytes b p) _ Hf Hpos E) as [HL E'].
    pose proof (read_step b c p aich acc Ht Hc Hr ltac:(lia) Hs1) as HS. cbv zeta in HS.
    destruct (if negb _ && _ then _ else _) as [i aich1]. cbn [fst snd] in HS. destruct HS as (S1 & S2 & S3).
    destruct (IH Hp Hs aich1 _ (AdjustGlobalPublishTracking (p_ip p) true g) f1 rest S1 S2) as (aich' & l' & g' & f' & E2 & I1 & I2 & I3 & I4 & I5 & I6 & I7 & I8).
    { rewrite length_app. cbn [length]. lia. }
    { done. }
    { rewrite (length_kept f f1 Hf Hf1 C1). lia. }
    { by rewrite P1, C1. }
    exists aich', l', g', f'. split; [exact E2|]. split; [done|]. split; [done|]. split; [|split; [|split]].
    + rewrite I3, S3, <- app_assoc. done.
    + rewrite I4, map_app, <- app_assoc. done.
    + intros ips Hg Hb. eapply counted_perm; [symmetry; apply Permutation_middle|]. apply (I5 (p_ip p :: ips)); [|cbn [length]; lia].
      apply counted_insert; [done|lia].
    + split; [done|]. split; [congruence|]. rewrite I8, P1, length_app. lia.
Qed.

(** The bytes in front of the publishers. *)
Definition header_bytes (b : bool) (hs : list (list Z)) (names : list (list Z)) (count nnames : Z) : list Z :=
  (if b then poke_le 2 (Z.of_nat (length hs)) ++ concat hs else []) ++ poke_le 4 nnames ++ concat names ++ poke_le 4 count.

Lemma parses_publish_header (b : bool) hs names bn count : Forall aich_ok hs -> Z.of_nat (length hs) < 65536 ->
  Forall2 name_stored names bn -> Z.of_nat (length names) < 2 ^ 32 -> in_width 32 count ->
  parses (read_header b []) (header_bytes b hs bn count (Z.of_nat (length names))) (if b then hs else [], names, count).
Proof.
  intros Hh Hl Hn Hnl Hc. unfold read_header, header_bytes.
  assert (parses (ReadUInt32 (F := F)) (poke_le 4 (Z.of_nat (length names))) (Z.of_nat (length names))) as P1 by (apply parses_UInt32; width_lia).
  assert (parses (read_names (Z.to_nat (Z.of_nat (length names))) []) (concat bn) names) as P2 by (rewrite Nat2Z.id; by apply (parses_names names bn)).
  assert (parses (ReadUInt32 (F := F)) (poke_le 4 count) count) as P3 by (by apply parses_UInt32).
  assert (forall hs' : list (list Z), parses (let! nameCount := ReadUInt32 (F := F) in let! names := read_names (Z.to_nat nameCount) [] in
    let! ipCount := ReadUInt32 in io_ret (hs', names, ipCount)) (poke_le 4 (Z.of_nat (length names)) ++ concat bn ++ poke_le 4 count) (hs', names, count)) as PR.
  { intros hs'. eapply parses_bind; [exact P1|]. eapply parses_bind; [exact P2|].
    rewrite <- (app_nil_r (poke_le 4 count)). eapply parses_bind; [exact P3|apply parses_ret]. }
  destruct b.
  - rewrite <- app_assoc. eapply parses_bind; [apply parses_UInt16; width_lia|]. eapply parses_bind; [|apply PR].
    rewrite Nat2Z.id. by apply parses_hashes.
  - eapply parses_bind; [apply (parses_ret 0)|]. change (poke_le 4 (Z.of_nat (length names)) ++ concat bn ++ poke_le 4 count)
      with ([] ++ poke_le 4 (Z.of_nat (length names)) ++ concat bn ++ poke_le 4 count).
    eapply parses_bind; [apply parses_ret|apply PR].
Qed.

Lemma writes_tracking (b : bool) e l bn : m_publishingIPs e = Some l -> tracked (m_aichHashes e) l -> Forall publisher_ok l ->
  Forall2 name_stored (m_filenames (ke_entry e)) bn -> Z.of_nat (length (m_filenames (ke_entry e))) < 2 ^ 32 ->
  writes (WritePublishTrackingDataToFile b e)
    (header_bytes b (m_hashes (Compact (m_aichHashes e)).2) bn (Z.of_nat (length l)) (Z.of_nat (length (m_filenames (ke_entry e)))) ++
     concat (map (publisher_bytes b) (map (remap (Compact (m_aichHashes e)).1) l))) tt.
Proof.
  intros Hl Ht Hp Hn Hnl. pose proof Ht as [H1 H2 _ H4]. unfold WritePublishTrackingDataToFile, header_bytes. rewrite Hl.
  rewrite <- !app_assoc. pose proof (slots_small _ H1) as Hsm.
  assert (length (Compact (m_aichHashes e)).1 = length (m_hashes (m_aichHashes e))) as Hlen
    by (unfold Compact, BuildCompactionMap; simpl; rewrite compaction_loop_length; apply H1).
  eapply writes_bind; [|rewrite (wrap_small 32) by width_lia; eapply writes_bind; [by apply (writes_int 4)|];
    eapply writes_bind; [by apply writes_names|]; rewrite (wrap_small 32) by width_lia; eapply writes_bind; [by apply (writes_int 4)|]].
  - destruct b; [|apply writes_ret]. pose proof (positives_bounds (m_popularity (m_aichHashes e))).
    assert (GetReferencedCount (m_aichHashes e) = Z.of_nat (length (m_hashes (Compact (m_aichHashes e)).2))) as ->.
    { unfold GetReferencedCount. rewrite referenced_loop_eq by (unfold INVALID_INDEX in *; lia).
      symmetry. apply (keep_mapped_length (m_popularity (m_aichHashes e)) 0); [lia|done|symmetry; apply H1]. }
    eapply writes_bind; [by apply (writes_int 2)|]. destruct H1 as [_ _ _ Hhash _]. by apply writes_hashes.
  - apply writes_publishers; [done| |].
    + rewrite Hlen. exact H2.
    + rewrite Hlen. destruct H1 as [_ Hm _ _ _]. unfold MAX_SLOTS, INVALID_INDEX in *. lia.
Qed.

Lemma reads_tracking (b : bool) tick e e0 l bn g f rest : m_publishingIPs e = Some l -> tracked (m_aichHashes e) l ->
  Forall publisher_ok l -> Forall2 name_stored (m_filenames (ke_entry e)) bn -> Z.of_nat (length (m_filenames (ke_entry e))) < 2 ^ 32 ->
  m_filenames (ke_entry e0) = [] -> m_aichHashes e0 = CKadAICHHashList_new ->
  file_ok f -> GetPosition f <= GetLength f ->
  drop (Z.to_nat (GetPosition f)) (content f) =
    (header_bytes b (m_hashes (Compact (m_aichHashes e)).2) bn (Z.of_nat (length l)) (Z.of_nat (length (m_filenames (ke_entry e)))) ++
     concat (map (publisher_bytes b) (map (remap (Compact (m_aichHashes e)).1) l))) ++ rest ->
  exists e' g' f' l', ReadPublishTrackingDataFromFile tick b e0 g f = (inr e', g', f') /\
    m_publishingIPs e' = Some l' /\ tracked (m_aichHashes e') l' /\ (length (m_hashes (m_aichHashes e')) <= length l')%nat /\
    reports e' = map (stored_report b) (reports e) /\
    ke_entry e' = set_filenames (m_filenames (ke_entry e)) (ke_entry e0) /\
    (forall ips, counted g ips -> Z.of_nat (length l + length ips) < 2 ^ 32 -> counted g' (publishers e ++ ips)) /\
    file_ok f' /\ content f' = content f /\
    drop (Z.to_nat (GetPosition f')) (content f') = rest.
Proof.
  intros Hl Ht Hp Hn Hnl He1 He2 Hf Hpos E. rewrite <- app_assoc in E. pose proof Ht as [H1 H2 _ H4].
  destruct (tracked_compact _ _ Ht) as (T1 & T2 & T3 & T4). pose proof (view_compact _ _ Ht) as TV. set (c := (Compact (m_aichHashes e)).2) in *.
  set (lm := map (remap (Compact (m_aichHashes e)).1) l) in *. pose proof T1 as [Hc1 Hc2 _ _]. pose proof Hc1 as [_ _ _ Hch _].
  assert (length lm = length l) as Hlm by apply length_map.
  destruct (parses_publish_header b (m_hashes c) (m_filenames (ke_entry e)) bn (Z.of_nat (length l)) Hch ltac:(lia) Hn Hnl ltac:(width_lia) f _ Hf Hpos E)
    as (f1 & E1 & Hf1 & C1 & P1).
  destruct (parses_at f _ _ Hf Hpos E) as [HL E'].
  assert (Forall publisher_ok lm) as Hplm by (unfold lm; rewrite Forall_map; exact Hp).
  destruct (read_publishers_spec b c lm Hc1 Hplm Hc2 CKadAICHHashList_new [] g f1 rest) as (aich' & l' & g' & f' & E2 & I1 & I2 & I3 & I4 & I5 & I6 & I7 & I8).
  { apply tracked_new. } { simpl. lia. } { cbn [length]. lia. } { done. }
  { rewrite (length_kept f f1 Hf Hf1 C1). lia. } { by rewrite P1, C1. }
  unfold ReadPublishTrackingDataFromFile. rewrite He1, E1, Nat2Z.id, He2.
  assert (read_publishers (length l) b (if b then m_hashes c else []) CKadAICHHashList_new [] g f1 =
    read_publishers (length lm) b (m_hashes c) CKadAICHHashList_new [] g f1) as ->.
  { rewrite Hlm. destruct b; [done|]. clear. generalize (length l), CKadAICHHashList_new, (@nil sPublishingIP), g, f1. clear g f1.
    induction n as [|n IH]; intros aich acc g f; [done|]. cbn [read_publishers]. unfold read_publisher, io_bind.
    destruct (ReadUInt32 f) as [[x|ip] f1]; [done|]. destruct (ReadUInt32 f1) as [[x|t] f2]; [done|]. cbn. apply IH. }
  rewrite E2. set (e1 := set_publishers (Some l') _). eexists _, g', f', l'. split; [done|].
  assert (ips_of lm = ips_of l) as Hips by (unfold lm; by rewrite map_map).
  split; [done|]. split; [done|]. split; [done|]. split; [|split; [done|split; [|split; [done|split; [congruence|]]]]].
  - unfold reports. simpl. rewrite Hl, I3. simpl. by rewrite TV.
  - intros ips Hg Hb. unfold publishers. rewrite Hl, <- Hips. apply I5; [done|lia].
  - rewrite C1 in I7. rewrite I7, I8, P1. destruct (parses_at f1 (concat (map (publisher_bytes b) lm)) rest Hf1) as [_ E3].
    + rewrite (length_kept f f1 Hf Hf1 C1). lia.
    + by rewrite P1, C1.
    + by rewrite P1, C1 in E3.
Qed.

End PublishRoundTrip.

(** ** Properties *)

(** C8: A republished entry takes over the stored one: its reports are the stored ones with the publisher's
    new report last, one for each address and the latest hundred only; every AICH slot that is left counts
    exactly the publishers that report its hash, and has at least one; the names are bounded; the stored
    entry has given its publishers away, and the global map counts what the entry holds now. *)
Theorem kad_entry_publish {wxcase : wxCase} {doubles : Doubles} (n0 now tick : Z) (e : CKeyEntry) (from : option CKeyEntry)
  (g : gmap Z Z) (rest : list Z) :
  fresh_ok e -> (forall old, from = Some old -> stored_ok n0 old) -> n0 <= now ->
  counted g (old_publishers from ++ rest) -> Z.of_nat (length (old_publishers from ++ rest)) + 1 < 2 ^ 32 ->
  let '(e', from', g') := MergeIPsAndFilenames now tick e from g in
  stored_ok now e' /\ reports e' = publish (m_uIP (ke_entry e)) now (published_hash e) (old_reports from) /\
  (forall i h, m_hashes (m_aichHashes e') !! i = Some h ->
     GetPopularityAt (Z.of_nat i) (m_aichHashes e') = votes_for h (reports e') /\ 0 < votes_for h (reports e')) /\
  ke_entry e' = set_filenames (names_after now e from) (ke_entry e) /\
  old_publishers from' = [] /\ counted g' (publishers e' ++ rest).
Proof.
  intros He Hold Hn Hg Hb. pose proof (merge_spec n0 now tick e from g He Hold Hn) as HM. cbv zeta in HM.
  destruct (MergeIPsAndFilenames now tick e from g) as [[e' from'] g']. destruct HM as (M1 & M2 & M3 & M4 & M5 & M6). cbn [fst snd] in *.
  split_and!; try done; [| |by apply M6].
  - intros i h Hi. pose proof M1 as [(l & S1 & S2) _ _ _]. pose proof S2 as [Hl Hs Hv _]. pose proof (lookup_lt_Some _ _ _ Hi) as Hlt.
    rewrite GetPopularityAt_votes, Nat2Z.id by lia.
    assert (votes (m_aichHashes e') i = votes_for h (reports e')) as HV.
    { rewrite Hv by done. rewrite (pointing_hash _ _ _ h Hl Hs Hi). unfold votes_for, reports, view. rewrite S1, map_map. done. }
    split; [done|]. rewrite <- HV. unfold votes. destruct (lookup_lt_is_Some_2 (m_popularity (m_aichHashes e')) i ltac:(destruct Hl; lia)) as [p Hp].
    rewrite Hp. apply (Forall_lookup_1 _ _ _ _ M5 Hp).
  - rewrite M4. by destruct from.
Qed.

Definition sample_case : wxCase := {| MakeLower := id; same_nocase a b := bool_decide (a = b) |}.

(** Thousandths. *)
Definition sample_doubles : Doubles :=
  {| double := Z; d_zero := 0; d_add := Z.add; d_points n := 10000 / n; d_below_one x := x <? 1000; d_percent x := u16 (x / 10) |}.

Definition sample_entry (ip : Z) (name : wxString) (hash : list (list Z)) : @CKeyEntry sample_doubles :=
  let e := CEntry_new 0 in
  @mkKeyEntry sample_doubles (mkEntry ip 4662 4672 (of_uint32 1) (of_uint32 2) 1000 100000 false [mkFileName name 1] []) 0 0
    (mkHashList hash (map (fun _ => 1) hash)) None.

Definition hash7 : list Z := replicate 20 7.

Lemma hash7_ok : aich_ok hash7.
Proof. split; [|done]. apply Forall_replicate. unfold is_byte, in_width. norm_pow. lia. Qed.

Lemma sample_entry_fresh ip name hash : hash = [] \/ hash = [hash7] -> fresh_ok (sample_entry ip name hash).
Proof.
  intros H. split; [done| |destruct H as [-> | ->]; simpl; lia|simpl; lia].
  destruct H as [-> | ->]; [apply list_ok_new|]. split; simpl; try done.
  - apply Forall_singleton. unfold is_byte, in_width. norm_pow. lia.
  - apply Forall_singleton, hash7_ok.
  - apply NoDup_singleton.
Qed.

(** An entry with one publisher, and a second one from another network. *)
Definition sample_stored : @CKeyEntry sample_doubles :=
  @mkKeyEntry sample_doubles (ke_entry (sample_entry 1 [97] [])) 0 10000 (mkHashList [hash7] [1]) (Some [mkPublisher 1 100 0]).

Lemma sample_stored_ok : stored_ok 100 sample_stored.
Proof.
  destruct (sample_entry_fresh 1 [97] [hash7] ltac:(by right)) as [_ Hl _ _]. split; [|split|simpl; lia|simpl; lia].
  - eexists. split; [done|]. split; [exact Hl| | |simpl; lia].
    + apply Forall_singleton. right. simpl. lia.
    + intros [|i] Hi; [done|]. simpl in Hi. lia.
  - simpl. lia.
  - apply NoDup_singleton.
  - by repeat constructor.
  - apply Forall_singleton. simpl. lia.
Qed.

Lemma sample_counted : counted {[0 := 1]} (publishers sample_stored ++ []).
Proof.
  split; [done|]. intros s. change (publishers sample_stored ++ []) with [1]. rewrite in_subnet_cons. change (subnet 1) with 0.
  change (in_subnet s []) with 0. destruct (decide (0 = s)) as [<-|H].
  - by rewrite bool_decide_eq_true_2, lookup_singleton_eq.
  - by rewrite bool_decide_eq_false_2, lookup_singleton_ne.
Qed.

Lemma kad_entry_publish_witness :
  let r := @MergeIPsAndFilenames sample_case sample_doubles 200 0 (sample_entry 258 [97] [hash7]) (Some sample_stored) {[0 := 1]} in
  reports r.1.1 = [(1, 100, Some hash7); (258, 200, Some hash7)] /\ counted r.2 (publishers r.1.1 ++ []).
Proof.
  pose proof (@kad_entry_publish sample_case sample_doubles 100 200 0 (sample_entry 258 [97] [hash7]) (Some sample_stored) {[0 := 1]} []
    (sample_entry_fresh _ _ _ ltac:(by right)) ltac:(intros ? [= <-]; apply sample_stored_ok) ltac:(lia) sample_counted ltac:(done)) as H.
  destruct (MergeIPsAndFilenames _ _ _ _ _) as [[e' f'] g']. destruct H as (_ & R & _ & _ & _ & C). cbv zeta. cbn [fst snd]. split; [|exact C].
  rewrite R. vm_compute. reflexivity.
Defined.

(** Trust: the value of an entry whose publishers are counted is the sum of the points of their
    networks, ten for each network shared by everything published from it, when it is computed anew; an
    answer that is less than ten minutes old is repeated, and the cleanup of expired publishers keeps
    exactly the reports of the last day. *)
Theorem kad_trust {wxcase : wxCase} {doubles : Doubles} (n0 now tick : Z) (e : CKeyEntry) (g : gmap Z Z) (rest : list Z) :
  stored_ok n0 e -> counted g (publishers e ++ rest) -> n0 <= now ->
  (GetTrustValue tick g e).1 =
    (if u64 (tick - m_lastTrustValueCalc e) >? 600000 then trust_of (publishers e ++ rest) (publishers e) else m_trustValue e) /\
  let r := CleanUpTrackedPublishers now e g in
  stored_ok now r.1 /\ reports r.1 = filter (current now) (reports e) /\ counted r.2 (publishers r.1 ++ rest).
Proof.
  intros He Hg Hn. split.
  - unfold GetTrustValue. change (10 * 60 * 1000) with 600000. destruct (_ >? 600000); [|done]. cbn [fst].
    destruct He as [(l & S1 & S2) _ _ _]. unfold ReCalculateTrustValue, publishers in *. rewrite S1 in *. simpl.
    apply trust_counted; [done|]. intros p Hp. apply elem_of_app. left. by apply list_elem_of_fmap_2.
  - destruct (CleanUp_spec n0 now e g He Hn) as (H1 & H2 & H3 & H4). split_and!; try done. by apply H4.
Qed.

Lemma kad_trust_witness :
  (@GetTrustValue sample_doubles 600001 {[0 := 1]} sample_stored).1 = 10000 /\
  reports (@CleanUpTrackedPublishers sample_doubles 86501 sample_stored {[0 := 1]}).1 = [].
Proof.
  destruct (@kad_trust sample_case sample_doubles 100 86501 600001 sample_stored {[0 := 1]} [] sample_stored_ok sample_counted ltac:(lia))
    as (H1 & _ & H2 & _). split; [rewrite H1; vm_compute; reflexivity|rewrite H2; vm_compute; reflexivity].
Defined.

(** C12: The tags of an answer: the count that is announced is the number of tags that follow, however many
    the entry has: as many of its own as leave room, the publish information, and, when the protocol has
    them and the entry has a referenced hash, one tag that decodes to the first eleven referenced AICH hashes
    with their counts; the searcher's parser gets all these tags back. *)
Theorem kad_answer_tags {wxcase : wxCase} {doubles : Doubles} {F : Type} {IOF : CFileDataIO F} {laws : FileLaws F}
  {conv : wxConv} {claws : wxConvLaws conv} (protocol_10 : bool) (n0 tick : Z) (g : gmap Z Z) (e : CKeyEntry) :
  stored_ok n0 e -> publishers e <> [] -> (forall v, in_width 16 (d_percent v)) -> sendable (ke_entry e) ->
  exists own info hashes bs,
    writes (WriteTagListWithPublishInfo protocol_10 tick g e) (poke_le 1 (Z.of_nat (length (own ++ info :: hashes))) ++ concat bs)
      (GetTrustValue tick g e).2 /\
    own `prefix_of` all_tags (ke_entry e) /\
    (if protocol_10 && negb (bool_decide (answered_hashes e = [])) then
       exists d, hashes = [CTagBsob (CTag_named TAG_KADAICHHASHRESULT) d (u8 (Z.of_nat (length d)))] /\
         DecodeResultTag d = Some (answered_hashes e)
     else hashes = []) /\
    is_publish_info (Z.of_nat (length (m_filenames (ke_entry e))) * 2 ^ 24 + Z.of_nat (length (publishers e)) * 2 ^ 16 +
      d_percent (GetTrustValue tick g e).1) info /\
    Z.of_nat (length (own ++ info :: hashes)) = Z.min 255 (Z.of_nat (length (all_tags (ke_entry e) ++ info :: hashes))) /\
    forall f rest, file_ok f -> GetPosition f <= GetLength f ->
      drop (Z.to_nat (GetPosition f)) (content f) = (poke_le 1 (Z.of_nat (length (own ++ info :: hashes))) ++ concat bs) ++ rest ->
      exists f', ReadTagPtrList [] true f = (inr tt, map kad_read (own ++ info :: hashes), f').
Proof.
  intros [(l & S1 & S2) S3 _ S5] Hne Hd Hs. pose proof S3 as [Hfew _ _ _]. unfold reports, publishers in *. rewrite S1 in *.
  rewrite length_view in Hfew. rewrite length_map.
  destruct (writes_answer protocol_10 tick g e l) as (info & hashes & bs & W1 & W2 & W3 & W4); try done; try lia; [apply S2|by intros ->|].
  destruct (hash_tags_stored protocol_10 e ltac:(apply S2)) as [_ Hh].
  pose proof (hash_tags_spec protocol_10 e ltac:(apply S2)) as Hd2. rewrite <- W2 in Hh, Hd2.
  set (extra := 1 + Z.of_nat (length hashes)) in *. set (own := take _ (all_tags (ke_entry e))) in *.
  assert (Z.of_nat (length (own ++ info :: hashes)) = announced (ke_entry e) extra) as Ha.
  { rewrite length_app. unfold own. rewrite length_take. simpl. unfold announced, extra in *. lia. }
  exists own, info, hashes, bs. rewrite Ha. split; [exact W1|]. split; [apply prefix_take|]. split; [exact Hd2|]. split; [exact W4|]. split.
  { unfold announced. rewrite length_app. simpl. unfold extra. lia. }
  intros f rest Hf Hp E. rewrite <- app_assoc in E.
  destruct (parses_UInt8 (announced (ke_entry e) extra) ltac:(unfold announced; width_lia) f _ Hf Hp E) as (f1 & E1 & Hf1 & C1 & P1).
  destruct (parses_at f _ _ Hf Hp E) as [HL E'].
  destruct (read_tags_parses _ bs W3 [] f1 rest Hf1) as (f2 & E2 & _).
  { rewrite (length_kept f f1 Hf Hf1 C1). lia. } { by rewrite P1, C1. }
  exists f2. unfold ReadTagPtrList. rewrite E1, <- Ha, Nat2Z.id. exact E2.
Qed.

(** What is stored of an entry, [bn] being its names. *)
Definition tracking_bytes {doubles : Doubles} (b : bool) (e : CKeyEntry) (bn : list (list Z)) : list Z :=
  header_bytes b (m_hashes (Compact (m_aichHashes e)).2) bn (Z.of_nat (length (publishers e))) (Z.of_nat (length (m_filenames (ke_entry e)))) ++
  concat (map (publisher_bytes b) (map (remap (Compact (m_aichHashes e)).1) (default [] (m_publishingIPs e)))).

Lemma reports_ok_stored now b v : reports_ok now v -> reports_ok now (map (stored_report b) v).
Proof.
  intros [H1 H2 H3 H4]. split; rewrite ?length_map, ?map_map; [done|exact H2|exact H3|].
  rewrite Forall_map. exact H4.
Qed.

(** C13: The publish data on disk: what a version-4 file stores of an entry is read back with the names and
    every report, the AICH hashes under new slot numbers; a version-3 file loses the hashes only.  The
    loaded entry is well-formed and its publishers are counted. *)
Theorem kad_publish_roundtrip {wxcase : wxCase} {doubles : Doubles} {F : Type} {IOF : CFileDataIO F} {laws : FileLaws F}
  {conv : wxConv} {claws : wxConvLaws conv} (protocol_10 : bool) (n0 tick : Z) (e : CKeyEntry) (bn : list (list Z)) :
  stored_ok n0 e -> Forall2 name_stored (m_filenames (ke_entry e)) bn -> Forall (fun ip => in_width 32 ip) (publishers e) ->
  Forall (fun r => in_width 32 r.1.2) (reports e) ->
  let bs := tracking_bytes protocol_10 e bn in
  writes (WritePublishTrackingDataToFile protocol_10 e) bs tt /\
    forall e0 g ips f rest, m_filenames (ke_entry e0) = [] -> m_aichHashes e0 = CKadAICHHashList_new ->
      counted g ips -> Z.of_nat (length (publishers e) + length ips) < 2 ^ 32 ->
      file_ok f -> GetPosition f <= GetLength f -> drop (Z.to_nat (GetPosition f)) (content f) = bs ++ rest ->
      exists e' g' f', ReadPublishTrackingDataFromFile tick protocol_10 e0 g f = (inr e', g', f') /\
        stored_ok n0 e' /\ reports e' = map (stored_report protocol_10) (reports e) /\
        ke_entry e' = set_filenames (m_filenames (ke_entry e)) (ke_entry e0) /\ counted g' (publishers e' ++ ips) /\
        drop (Z.to_nat (GetPosition f')) (content f') = rest.
Proof.
  intros [(l & S1 & S2) S3 S4 S5] Hn Hi Ht. unfold publishers in *. rewrite S1 in Hi.
  assert (Forall publisher_ok l) as Hp.
  { unfold reports in Ht. rewrite S1 in Ht. unfold view in Ht. rewrite Forall_map in Hi, Ht. apply Forall_forall. intros p Hp.
    split; [exact (proj1 (Forall_forall _ _) Hi p Hp)|exact (proj1 (Forall_forall _ _) Ht p Hp)]. }
  unfold tracking_bytes, publishers. rewrite S1, length_map. simpl default.
  split; [apply (writes_tracking protocol_10 e l bn); try done; norm_pow; lia|].
  intros e0 g ips f rest He1 He2 Hg Hb Hf Hpos E.
  destruct (reads_tracking protocol_10 tick e e0 l bn g f rest S1 S2 Hp Hn ltac:(norm_pow; lia) He1 He2 Hf Hpos E)
    as (e' & g' & f' & l' & E1 & R1 & R2 & R3 & R4 & R5 & R6 & R7 & R8 & R9).
  exists e', g', f'. split; [exact E1|]. pose proof (reports_ok_stored n0 protocol_10 _ S3) as HR. rewrite <- R4 in HR.
  split; [|split; [exact R4|split; [exact R5|split; [|exact R9]]]].
  - split; [by exists l'|exact HR| |by rewrite R5]. destruct HR as [HR _ _ _]. unfold reports in HR. rewrite R1, length_view in HR. lia.
  - assert (publishers e' = ips_of l) as HE.
    { unfold publishers. rewrite R1. apply (f_equal (map (fun r : report => r.1.1))) in R4. unfold reports in R4. rewrite R1, S1, map_map in R4.
      rewrite ips_view in R4. rewrite R4. unfold view. by rewrite map_map. }
    unfold publishers in HE. rewrite HE. specialize (R6 ips Hg Hb). unfold publishers in R6. by rewrite S1 in R6.
Qed.

Lemma attach_ok bs : forallb (fun c => (0 <=? c) && (c <? 256)) bs = true -> Z.of_nat (length bs) <? 2 ^ 62 = true ->
  mem_ok (CMemFile_attach bs).
Proof.
  intros Hb Hl. apply forallb_range in Hb. apply Z.ltb_lt in Hl.
  split; unfold CMemFile_attach; simpl; [done| |lia|done|done]. eapply Forall_impl; [exact Hb|]. intros c Hc. exact Hc.
Qed.

Lemma kad_publish_roundtrip_witness : let IOF := CMemFile_IO calloc_4096 in
  let bs := tracking_bytes true sample_stored [[1; 0; 97; 1; 0; 0; 0]] in
  exists f e' g' f', WritePublishTrackingDataToFile (doubles := sample_doubles) (conv := ascii_conv) true sample_stored (CMemFile_new 16) = (inr tt, f) /\
    ReadPublishTrackingDataFromFile (doubles := sample_doubles) (conv := ascii_conv) 0 true (CKeyEntry_new 5) ∅ (CMemFile_attach bs) = (inr e', g', f') /\
    reports e' = [(1, 100, Some hash7)] /\ counted g' (publishers e' ++ []).
Proof.
  intros IOF bs. set (laws := CMemFile_laws calloc_4096 4096 ltac:(done) calloc_ok).
  destruct (@kad_publish_roundtrip sample_case sample_doubles CMemFile IOF laws ascii_conv ascii_laws true 100 0 sample_stored [[1; 0; 97; 1; 0; 0; 0]]
    sample_stored_ok) as [W R].
  - constructor; [|constructor]. split; [done|]. exists [97]. split; [|done].
    split; [by apply Forall_singleton|]. split; [done|]. by split_and!.
  - apply Forall_singleton. done.
  - apply Forall_singleton. done.
  - destruct (W (CMemFile_new 16)) as (f & Ef & _); [by split|done|split; [done|right; split; [done|vm_compute; congruence]]|].
    assert (mem_ok (CMemFile_attach bs)) as Hok.
    { apply attach_ok; vm_compute; reflexivity. }
    assert (drop 0 (mem_content (CMemFile_attach bs)) = bs ++ []) as HE by (vm_compute; reflexivity).
    destruct (R (CKeyEntry_new 5) ∅ [] (CMemFile_attach bs) [] eq_refl eq_refl counted_nil ltac:(vm_compute; reflexivity) Hok
      ltac:(vm_compute; congruence) HE) as (e' & g' & f' & E & _ & E2 & _ & E4 & _).
    exists f, e', g', f'. split; [exact Ef|]. split; [exact E|]. split; [|exact E4]. rewrite E2. reflexivity.
Defined.

Lemma sample_sendable : @sendable ascii_conv (ke_entry sample_stored).
Proof.
  split; [|done]. apply Forall_cons. split; [|apply Forall_cons; split; [|constructor]].
  - exists [2; 1; 0; 1; 1; 0; 97]. split; [by apply plain_name|]. eexists. split; [|reflexivity].
    apply (@kad_str ascii_conv [97] [97]). split; [by apply Forall_singleton|]. split; [done|]. by split_and!.
  - exists [8; 1; 0; 2; 232; 3]. split; [by apply plain_name|]. eexists. split; [|reflexivity]. by apply kad_uint16.
Qed.


Lemma limit_4096 : 0 <= 4096 < 2 ^ 62.
Proof. done. Qed.

Lemma kad_answer_tags_witness : exists own info d bs,
  let hashes := [CTagBsob (CTag_named TAG_KADAICHHASHRESULT) d (u8 (Z.of_nat (length d)))] in
  writes (laws := CMemFile_laws calloc_4096 4096 limit_4096 calloc_ok)
    (WriteTagListWithPublishInfo (IOF := CMemFile_IO calloc_4096) (doubles := sample_doubles) (conv := ascii_conv) true 0 ∅ sample_stored)
    (poke_le 1 (Z.of_nat (length (own ++ info :: hashes))) ++ concat bs) (GetTrustValue 0 ∅ sample_stored).2 /\
  DecodeResultTag d = Some [mkResultHash 1 hash7] /\
  is_publish_info 16843752 info /\
  Z.of_nat (length (own ++ info :: hashes)) = Z.min 255 (Z.of_nat (length (all_tags (ke_entry sample_stored) ++ info :: hashes))).
Proof.
  destruct (@kad_answer_tags sample_case sample_doubles CMemFile (CMemFile_IO calloc_4096) (CMemFile_laws calloc_4096 4096 limit_4096 calloc_ok) ascii_conv
    ascii_laws true 100 0 ∅ sample_stored sample_stored_ok ltac:(done) (fun v => wrap_range 16 _ ltac:(lia)) sample_sendable)
    as (own & info & hashes & bs & W & _ & H & I & N & _).
  destruct H as (d & -> & D). exists own, info, d, bs. split; [exact W|]. split; [exact D|]. split; [exact I|exact N].
Defined.
