(* ===== verification/KadIndex.v ===== *)
(** * The index of a Kad node ([kademlia/kademlia/Indexed.{h,cpp}])

    The node keeps what other nodes publish to it: keyword entries, sources and notes of files, and
    the load it has reported for keys.  Every table is bounded, expired entries leave with [Clean],
    and searches are answered in packets of at most fifty entries.

    The entries of a table are its own; the global map of publishers ([KadEntry.v]) is a field of the
    state, as the destructors of keyword entries change it.  The files that keep the
    index between two runs are not modelled. *)
From stdpp Require Import gmap.
From S2P Require Import Prelude StdMap UInt128 DataIO MemFile Tag AICHHashList KadEntry.

Definition KADEMLIAMAXINDEX : Z := 50000.
Definition KADEMLIAMAXENTRIES : Z := 60000.
Definition KADEMLIAMAXSOURCEPERFILE : Z := 1000.
Definition KADEMLIAMAXNOTESPERFILE : Z := 150.
Definition OLD_MAX_FILE_SIZE : Z := 4290048000.

Record Source (A : Type) := mkSource { sourceID : CUInt128; entryList : list A }.
Arguments mkSource {A}.
Arguments sourceID {A}.
Arguments entryList {A}.

Record Load := mkLoad { l_keyID : CUInt128; l_time : Z }.

Record SrcHash := mkSrcHash { sh_keyID : CUInt128; sh_sources : list (Source CEntry) }.

Section Index.

Context {wxcase : wxCase} {doubles : Doubles}.

Record KeyHash := mkKeyHash { kh_keyID : CUInt128; kh_sources : list (CUInt128 * Source CKeyEntry) }.

Record CIndexed := mkIndexed {
  m_totalIndexSource : Z;
  m_totalIndexKeyword : Z;
  m_totalIndexNotes : Z;
  m_totalIndexLoad : Z;
  m_lastClean : Z;
  m_Keyword_map : list (CUInt128 * KeyHash);
  m_Sources_map : list (CUInt128 * SrcHash);
  m_Notes_map : list (CUInt128 * SrcHash);
  m_Load_map : list (CUInt128 * Load);
  s_globalPublishIPs : gmap Z Z
}.

(** The empty index, which the constructor fills from its files. *)
Definition CIndexed_new (now : Z) : CIndexed := mkIndexed 0 0 0 0 (now + 60 * 30) [] [] [] [] ∅.

Definition set_keywords (total : Z) (m : list (CUInt128 * KeyHash)) (g : gmap Z Z) (i : CIndexed) : CIndexed :=
  mkIndexed (m_totalIndexSource i) total (m_totalIndexNotes i) (m_totalIndexLoad i) (m_lastClean i)
    m (m_Sources_map i) (m_Notes_map i) (m_Load_map i) g.

Definition set_sources (total : Z) (m : list (CUInt128 * SrcHash)) (i : CIndexed) : CIndexed :=
  mkIndexed total (m_totalIndexKeyword i) (m_totalIndexNotes i) (m_totalIndexLoad i) (m_lastClean i)
    (m_Keyword_map i) m (m_Notes_map i) (m_Load_map i) (s_globalPublishIPs i).

Definition set_notes (total : Z) (m : list (CUInt128 * SrcHash)) (i : CIndexed) : CIndexed :=
  mkIndexed (m_totalIndexSource i) (m_totalIndexKeyword i) total (m_totalIndexLoad i) (m_lastClean i)
    (m_Keyword_map i) (m_Sources_map i) m (m_Load_map i) (s_globalPublishIPs i).

Definition set_loads (total : Z) (m : list (CUInt128 * Load)) (i : CIndexed) : CIndexed :=
  mkIndexed (m_totalIndexSource i) (m_totalIndexKeyword i) (m_totalIndexNotes i) total (m_lastClean i)
    (m_Keyword_map i) (m_Sources_map i) (m_Notes_map i) m (s_globalPublishIPs i).

Definition set_lastClean (t : Z) (i : CIndexed) : CIndexed :=
  mkIndexed (m_totalIndexSource i) (m_totalIndexKeyword i) (m_totalIndexNotes i) (m_totalIndexLoad i) t
    (m_Keyword_map i) (m_Sources_map i) (m_Notes_map i) (m_Load_map i) (s_globalPublishIPs i).

(** ** Publishing keywords *)

(** The first entry of the size, and the list without it. *)
Fixpoint take_size (size : Z) (l : list CKeyEntry) : option CKeyEntry * list CKeyEntry :=
  match l with
  | [] => (None, [])
  | e :: l =>
      if m_uSize (ke_entry e) =? size then (Some e, l)
      else let '(o, l) := take_size size l in (o, e :: l)
  end.

(** [entry->MergeIPsAndFilenames(oldEntry)] and the deletion of the old entry. *)
Definition merge_and_delete (now tick : Z) (entry : CKeyEntry) (oldEntry : option CKeyEntry) (g : gmap Z Z) : CKeyEntry * gmap Z Z :=
  let '(entry, oldEntry, g) := MergeIPsAndFilenames now tick entry oldEntry g in
  (entry, match oldEntry with Some e => CKeyEntry_delete e g | None => g end).

(** The result, and the load that is reported, [None] where the code does not set it. *)
Definition AddKeyword (now tick : Z) (keyID srcID : CUInt128) (entry : CKeyEntry) (i : CIndexed) : bool * option Z * CIndexed :=
  let b := ke_entry entry in
  if m_totalIndexKeyword i >? KADEMLIAMAXENTRIES then (false, Some 100, i)
  else if (m_uSize b =? 0) || is_empty (GetCommonFileName b) || (GetTagCount b =? 0) || (m_tLifeTime b <? now) then (false, None, i)
  else
    match mfind keyID (m_Keyword_map i) with
    | None =>
        let '(entry, g) := merge_and_delete now tick entry None (s_globalPublishIPs i) in
        let currKeyHash := mkKeyHash keyID (mset srcID (mkSource srcID [entry]) []) in
        (true, Some 1, set_keywords (u32 (m_totalIndexKeyword i + 1)) (mset keyID currKeyHash (m_Keyword_map i)) g i)
    | Some currKeyHash =>
        let indexTotal := Z.of_nat (length (kh_sources currKeyHash)) in
        if indexTotal >? KADEMLIAMAXINDEX then (false, Some 100, i)
        else
          let load := u8 (indexTotal * 100 / KADEMLIAMAXINDEX) in
          let put currSource total g :=
            let currKeyHash := mkKeyHash (kh_keyID currKeyHash) (mset srcID currSource (kh_sources currKeyHash)) in
            (true, Some load, set_keywords total (mset keyID currKeyHash (m_Keyword_map i)) g i) in
          match mfind srcID (kh_sources currKeyHash) with
          | Some currSource =>
              match entryList currSource with
              | [] =>
                  let '(entry, g) := merge_and_delete now tick entry None (s_globalPublishIPs i) in
                  put (mkSource (sourceID currSource) [entry]) (u32 (m_totalIndexKeyword i + 1)) g
              | _ =>
                  if indexTotal >? KADEMLIAMAXINDEX - 5000 then (false, Some 100, i)
                  else
                    let '(oldEntry, rest) := take_size (m_uSize b) (entryList currSource) in
                    let '(entry, g) := merge_and_delete now tick entry oldEntry (s_globalPublishIPs i) in
                    put (mkSource (sourceID currSource) (entry :: rest))
                      (match oldEntry with Some _ => m_totalIndexKeyword i | None => u32 (m_totalIndexKeyword i + 1) end) g
              end
          | None =>
              let '(entry, g) := merge_and_delete now tick entry None (s_globalPublishIPs i) in
              put (mkSource srcID [entry]) (u32 (m_totalIndexKeyword i + 1)) g
          end
    end.

(** ** Publishing sources and notes *)

(** The loop over the sources: the list after a replacement, with what the caller has to do about the
    total; [None] when nothing was replaced. *)
Fixpoint replace_source (same : CEntry -> bool) (entry : CEntry) (l : list (Source CEntry)) : option (list (Source CEntry) * bool) :=
  match l with
  | [] => None
  | s :: l =>
      match entryList s with
      | currEntry :: es =>
          if same currEntry then Some (mkSource (sourceID s) (entry :: es) :: l, false)
          else match replace_source same entry l with Some (l, new) => Some (s :: l, new) | None => None end
      | [] => Some (mkSource (sourceID s) [entry] :: l, true)
      end
  end.

(** The last source is taken over: its oldest entry goes, and it comes first with the new one. *)
Definition recycle_source (srcID : CUInt128) (entry : CEntry) (l : list (Source CEntry)) : list (Source CEntry) :=
  match last l with
  | Some s => mkSource srcID (entry :: removelast (entryList s)) :: removelast l
  | None => l
  end.

Definition same_source (entry currEntry : CEntry) : bool :=
  (m_uIP currEntry =? m_uIP entry) && ((m_uTCPport currEntry =? m_uTCPport entry) || (m_uUDPport currEntry =? m_uUDPport entry)).

Definition same_note (entry currEntry : CEntry) : bool :=
  (m_uIP currEntry =? m_uIP entry) || op_eq (m_uSourceID currEntry) (m_uSourceID entry).

Definition AddSources (now : Z) (keyID srcID : CUInt128) (entry : CEntry) (i : CIndexed) : bool * option Z * CIndexed :=
  if (m_uIP entry =? 0) || (m_uTCPport entry =? 0) || (m_uUDPport entry =? 0) || (GetTagCount entry =? 0) || (m_tLifeTime entry <? now)
  then (false, None, i)
  else
    match mfind keyID (m_Sources_map i) with
    | None =>
        (true, Some 1, set_sources (u32 (m_totalIndexSource i + 1)) (mset keyID (mkSrcHash keyID [mkSource srcID [entry]]) (m_Sources_map i)) i)
    | Some currSrcHash =>
        let size := Z.of_nat (length (sh_sources currSrcHash)) in
        let load := u8 (size * 100 / KADEMLIAMAXSOURCEPERFILE) in
        let put l total := set_sources total (mset keyID (mkSrcHash (sh_keyID currSrcHash) l) (m_Sources_map i)) i in
        match replace_source (same_source entry) entry (sh_sources currSrcHash) with
        | Some (l, _) => (true, Some load, put l (m_totalIndexSource i))
        | None =>
            if size >? KADEMLIAMAXSOURCEPERFILE
            then (true, Some 100, put (recycle_source srcID entry (sh_sources currSrcHash)) (m_totalIndexSource i))
            else (true, Some load, put (mkSource srcID [entry] :: sh_sources currSrcHash) (u32 (m_totalIndexSource i + 1)))
        end
    end.

Definition AddNotes (keyID srcID : CUInt128) (entry : CEntry) (i : CIndexed) : bool * option Z * CIndexed :=
  if (m_uIP entry =? 0) || (GetTagCount entry =? 0) then (false, None, i)
  else
    match mfind keyID (m_Notes_map i) with
    | None =>
        (true, Some 1, set_notes (u32 (m_totalIndexNotes i + 1)) (mset keyID (mkSrcHash keyID [mkSource srcID [entry]]) (m_Notes_map i)) i)
    | Some currNoteHash =>
        let size := Z.of_nat (length (sh_sources currNoteHash)) in
        let load := u8 (size * 100 / KADEMLIAMAXNOTESPERFILE) in
        let put l total := set_notes total (mset keyID (mkSrcHash (sh_keyID currNoteHash) l) (m_Notes_map i)) i in
        match replace_source (same_note entry) entry (sh_sources currNoteHash) with
        | Some (l, new) => (true, Some load, put l (if new : bool then u32 (m_totalIndexNotes i + 1) else m_totalIndexNotes i))
        | None =>
            if size >? KADEMLIAMAXNOTESPERFILE
            then (true, Some 100, put (recycle_source srcID entry (sh_sources currNoteHash)) (m_totalIndexNotes i))
            else (true, Some load, put (mkSource srcID [entry] :: sh_sources currNoteHash) (u32 (m_totalIndexNotes i + 1)))
        end
    end.

(** ** The load of keys *)

Definition AddLoad (now : Z) (keyID : CUInt128) (timet : Z) (i : CIndexed) : bool * CIndexed :=
  if u32 now >? timet then (false, i)
  else
    match mfind keyID (m_Load_map i) with
    | Some _ => (false, i)
    | None => (true, set_loads (u32 (m_totalIndexLoad i + 1)) (mset keyID (mkLoad keyID timet) (m_Load_map i)) i)
    end.

Definition SendStoreRequest (now : Z) (keyID : CUInt128) (i : CIndexed) : bool * CIndexed :=
  match mfind keyID (m_Load_map i) with
  | Some load =>
      if l_time load <? u32 now
      then (true, set_loads (u32 (m_totalIndexLoad i - 1)) (merase keyID (m_Load_map i)) i)
      else (false, i)
  | None => (true, i)
  end.

(** ** Expiry *)

(** The loop over the keyword entries of a source. *)
Fixpoint clean_entries (tNow : Z) (l : list CKeyEntry) (g : gmap Z Z) : list CKeyEntry * gmap Z Z :=
  match l with
  | [] => ([], g)
  | e :: l =>
      if negb (m_bSource (ke_entry e)) && (m_tLifeTime (ke_entry e) <? tNow) then clean_entries tNow l (CKeyEntry_delete e g)
      else
        let '(e, g) := if m_bSource (ke_entry e) then (e, g) else CleanUpTrackedPublishers tNow e g in
        let '(l, g) := clean_entries tNow l g in
        (e :: l, g)
  end.

Fixpoint clean_keyword_sources (tNow : Z) (l : list (CUInt128 * Source CKeyEntry)) (g : gmap Z Z) :
  list (CUInt128 * Source CKeyEntry) * gmap Z Z :=
  match l with
  | [] => ([], g)
  | (k, s) :: l =>
      let '(es, g) := clean_entries tNow (entryList s) g in
      let '(l, g) := clean_keyword_sources tNow l g in
      (match es with [] => l | _ => (k, mkSource (sourceID s) es) :: l end, g)
  end.

Fixpoint clean_keywords (tNow : Z) (l : list (CUInt128 * KeyHash)) (g : gmap Z Z) : list (CUInt128 * KeyHash) * gmap Z Z :=
  match l with
  | [] => ([], g)
  | (k, kh) :: l =>
      let '(ss, g) := clean_keyword_sources tNow (kh_sources kh) g in
      let '(l, g) := clean_keywords tNow l g in
      (match ss with [] => l | _ => (k, mkKeyHash (kh_keyID kh) ss) :: l end, g)
  end.

Fixpoint clean_source_list (tNow : Z) (l : list (Source CEntry)) : list (Source CEntry) :=
  match l with
  | [] => []
  | s :: l =>
      match filter (fun e => ~ m_tLifeTime e < tNow) (entryList s) with
      | [] => clean_source_list tNow l
      | es => mkSource (sourceID s) es :: clean_source_list tNow l
      end
  end.

Fixpoint clean_sources (tNow : Z) (l : list (CUInt128 * SrcHash)) : list (CUInt128 * SrcHash) :=
  match l with
  | [] => []
  | (k, sh) :: l =>
      match clean_source_list tNow (sh_sources sh) with
      | [] => clean_sources tNow l
      | ss => (k, mkSrcHash (sh_keyID sh) ss) :: clean_sources tNow l
      end
  end.

(** All entries of a table, in the order of its loops. *)
Definition keyhash_entries (kh : KeyHash) : list CKeyEntry := concat (map (fun s => entryList s.2) (kh_sources kh)).
Definition keyword_entries (m : list (CUInt128 * KeyHash)) : list CKeyEntry := concat (map (fun k => keyhash_entries k.2) m).
Definition source_entries (m : list (CUInt128 * SrcHash)) : list CEntry :=
  concat (map (fun k => concat (map entryList (sh_sources k.2))) m).

(** The new totals count the entries that were visited less the ones that were removed. *)
Definition Clean (tNow : Z) (i : CIndexed) : CIndexed :=
  if m_lastClean i >? tNow then i
  else
    let '(km, g) := clean_keywords tNow (m_Keyword_map i) (s_globalPublishIPs i) in
    let sm := clean_sources tNow (m_Sources_map i) in
    mkIndexed (u32 (Z.of_nat (length (source_entries sm)))) (u32 (Z.of_nat (length (keyword_entries km))))
      (m_totalIndexNotes i) (m_totalIndexLoad i) (tNow + 30 * 60) km sm (m_Notes_map i) (m_Load_map i) g.

End Index.

(** ** Answers to searches

    An answer is collected in a memory file and sent in packets: the node's identifier, the key, the
    number of entries, and the entries. *)

Record Answer := mkAnswer { an_count : Z; an_packet : CMemFile; an_sent : list (list Z) }.

Section Search.

Context {wxcase : wxCase} {doubles : Doubles} {conv : wxConv}.

(** The allocator, the comparisons of floats, the configured protocol and the node's own identifier. *)
Context (realloc : list Z -> Z -> option (list Z)) (float_cmp : ESearchTermOp -> Z -> Z -> bool) (protocol_10 : bool)
  (KadID : CUInt128).

#[local] Open Scope io_scope.

#[local] Abbreviation MIO := (IO CMemFile).

Definition packet_header (keyID : CUInt128) : MIO unit :=
  seq! @WriteUInt128 _ (CMemFile_IO realloc) KadID in
  seq! @WriteUInt128 _ (CMemFile_IO realloc) keyID in
  @WriteUInt16 _ (CMemFile_IO realloc) 50.

(** One more entry, and the packet when it is full. *)
Definition put_result {X} (id : CUInt128) (w : MIO X) (a : Answer) : (exn + X) * Answer :=
  match (seq! @WriteUInt128 _ (CMemFile_IO realloc) id in w) (an_packet a) with
  | (inl e, p) => (inl e, mkAnswer (an_count a) p (an_sent a))
  | (inr x, p) =>
      let count := an_count a + 1 in
      if count mod 50 =? 0 then
        match SetLength realloc (16 + 16 + 2) p with
        | (inl e, p') => (inl e, mkAnswer count p' (an_sent a ++ [mem_content p]))
        | (inr _, p') => (inr x, mkAnswer count p' (an_sent a ++ [mem_content p]))
        end
      else (inr x, mkAnswer count p (an_sent a))
  end.

(** The rest of the entries, with their number. *)
Definition send_rest (a : Answer) : (exn + unit) * Answer :=
  let countLeft := u16 (an_count a) mod 50 in
  if (an_count a >? 0) && negb (countLeft =? 0) then
    match (seq! @Seek _ (CMemFile_IO realloc) (16 + 16) wxFromStart in @WriteUInt16 _ (CMemFile_IO realloc) countLeft) (an_packet a) with
    | (inl e, p) => (inl e, mkAnswer (an_count a) p (an_sent a))
    | (inr _, p) => (inr tt, mkAnswer (an_count a) p (an_sent a ++ [mem_content p]))
    end
  else (inr tt, a).

Definition count_only (a : Answer) : Answer := mkAnswer (an_count a + 1) (an_packet a) (an_sent a).

(** One entry of the keyword: the entry, whose trust may have been computed, and whether the loop stops. *)
Definition send_keyword_entry (tick : Z) (g : gmap Z Z) (terms : option SSearchTerm) (oldClient onlyTrusted : bool)
  (currName : CKeyEntry) (a : Answer) : CKeyEntry * (exn + bool) * Answer :=
  let '(v, currName) := GetTrustValue tick g currName in
  if xorb onlyTrusted (d_below_one v) &&
     (match terms with None => true | Some t => SearchTermsMatch float_cmp (ke_entry currName) t end)
  then
    if an_count a <? 0 then (currName, inr false, count_only a)
    else if u16 (an_count a) <? 300 then
      if negb oldClient || (m_uSize (ke_entry currName) <=? OLD_MAX_FILE_SIZE) then
        match put_result (m_uSourceID (ke_entry currName))
                (@WriteTagListWithPublishInfo _ _ (CMemFile_IO realloc) conv protocol_10 tick g currName) a with
        | (inl x, a) => (currName, inl x, a)
        | (inr currName, a) => (currName, inr false, a)
        end
      else (currName, inr false, a)
    else (currName, inr true, a)
  else (currName, inr false, a).

(** The loop over the entries of a source. *)
Fixpoint send_entries (tick : Z) (g : gmap Z Z) (terms : option SSearchTerm) (oldClient onlyTrusted : bool)
  (l : list CKeyEntry) (a : Answer) : list CKeyEntry * (exn + bool) * Answer :=
  match l with
  | [] => ([], inr false, a)
  | e :: l =>
      match send_keyword_entry tick g terms oldClient onlyTrusted e a with
      | (e, inr false, a) =>
          let '(l, r, a) := send_entries tick g terms oldClient onlyTrusted l a in (e :: l, r, a)
      | (e, r, a) => (e :: l, r, a)
      end
  end.

(** The loop over the sources; a stop in the inner loop ends it, too. *)
Fixpoint send_sources (tick : Z) (g : gmap Z Z) (terms : option SSearchTerm) (oldClient onlyTrusted : bool)
  (l : list (CUInt128 * Source CKeyEntry)) (a : Answer) : list (CUInt128 * Source CKeyEntry) * (exn + bool) * Answer :=
  match l with
  | [] => ([], inr false, a)
  | (k, s) :: l =>
      match send_entries tick g terms oldClient onlyTrusted (entryList s) a with
      | (es, inr false, a) =>
          let '(l, r, a) := send_sources tick g terms oldClient onlyTrusted l a in ((k, mkSource (sourceID s) es) :: l, r, a)
      | (es, r, a) => ((k, mkSource (sourceID s) es) :: l, r, a)
      end
  end.

(** The two passes: the trusted entries, then the others if there is room. *)
Definition send_passes (tick : Z) (g : gmap Z Z) (terms : option SSearchTerm) (oldClient : bool)
  (l : list (CUInt128 * Source CKeyEntry)) (a : Answer) : list (CUInt128 * Source CKeyEntry) * (exn + unit) * Answer :=
  match send_sources tick g terms oldClient true l a with
  | (l, inl x, a) => (l, inl x, a)
  | (l, inr _, a) =>
      if an_count a <? 300 then
        match send_sources tick g terms oldClient false l a with
        | (l, inl x, a) => (l, inl x, a)
        | (l, inr _, a) => (l, inr tt, a)
        end
      else (l, inr tt, a)
  end.

(** The packets that were sent, and the index; after an exception the index is not cleaned. *)
Definition SendValidKeywordResult (now tick : Z) (keyID : CUInt128) (terms : option SSearchTerm) (oldClient : bool) (startPosition : Z)
  (i : CIndexed) : (exn + unit) * list (list Z) * CIndexed :=
  match mfind keyID (m_Keyword_map i) with
  | None => (inr tt, [], Clean now i)
  | Some currKeyHash =>
      match packet_header keyID (CMemFile_new (1024 * 50)) with
      | (inl x, _) => (inl x, [], i)
      | (inr _, p) =>
          let '(ss, r, a) := send_passes tick (s_globalPublishIPs i) terms oldClient (kh_sources currKeyHash) (mkAnswer (0 - startPosition) p []) in
          let i := set_keywords (m_totalIndexKeyword i) (mset keyID (mkKeyHash (kh_keyID currKeyHash) ss) (m_Keyword_map i)) (s_globalPublishIPs i) i in
          match r with
          | inl x => (inl x, an_sent a, i)
          | inr _ =>
              match send_rest a with
              | (inl x, a) => (inl x, an_sent a, i)
              | (inr _, a) => (inr tt, an_sent a, Clean now i)
              end
          end
      end
  end.

(** *** Sources and notes *)

(** The loop over the sources of a file: the first entry of each. *)
Fixpoint send_files (maxResults fileSize : Z) (l : list (Source CEntry)) (a : Answer) : (exn + unit) * Answer :=
  match l with
  | [] => (inr tt, a)
  | s :: l =>
      match entryList s with
      | [] => send_files maxResults fileSize l a
      | currName :: _ =>
          if an_count a <? 0 then send_files maxResults fileSize l (count_only a)
          else if an_count a <? maxResults then
            if (fileSize =? 0) || (m_uSize currName =? 0) || (m_uSize currName =? fileSize) then
              match put_result (m_uSourceID currName) (@WriteTagList _ (CMemFile_IO realloc) conv currName) a with
              | (inl x, a) => (inl x, a)
              | (inr _, a) => send_files maxResults fileSize l a
              end
            else send_files maxResults fileSize l a
          else (inr tt, a)
      end
  end.

Definition send_list (keyID : CUInt128) (maxResults fileSize startPosition : Z) (l : list (Source CEntry)) : (exn + unit) * list (list Z) :=
  match packet_header keyID (CMemFile_new (1024 * 50)) with
  | (inl x, _) => (inl x, [])
  | (inr _, p) =>
      match send_files maxResults fileSize l (mkAnswer (0 - startPosition) p []) with
      | (inl x, a) => (inl x, an_sent a)
      | (inr _, a) => let '(r, a) := send_rest a in (r, an_sent a)
      end
  end.

Definition SendValidSourceResult (now : Z) (keyID : CUInt128) (startPosition fileSize : Z) (i : CIndexed) :
  (exn + unit) * list (list Z) * CIndexed :=
  match mfind keyID (m_Sources_map i) with
  | None => (inr tt, [], Clean now i)
  | Some h =>
      match send_list keyID 300 fileSize startPosition (sh_sources h) with
      | (inl x, sent) => (inl x, sent, i)
      | (inr _, sent) => (inr tt, sent, Clean now i)
      end
  end.

(** Notes are sent from the start, and the index is not cleaned. *)
Definition SendValidNoteResult (keyID : CUInt128) (fileSize : Z) (i : CIndexed) : (exn + unit) * list (list Z) :=
  match mfind keyID (m_Notes_map i) with
  | None => (inr tt, [])
  | Some h => send_list keyID 150 fileSize 0 (sh_sources h)
  end.

End Search.

(** ** The invariant of the tables *)

Section Tables.

Context {wxcase : wxCase} {doubles : Doubles}.

(** What a keyword entry in the index satisfies: it has a size, it describes what its source says, and its
    publishers are well-formed. *)
Definition keyword_ok (now : Z) (e : CKeyEntry) : Prop :=
  stored_ok now e /\ m_uSize (ke_entry e) <> 0 /\ m_bSource (ke_entry e) = false.

Record source_ok (now : Z) (s : CUInt128 * Source CKeyEntry) : Prop := {
  src_id : sourceID s.2 = s.1;
  src_entries : Forall (keyword_ok now) (entryList s.2);
  src_some : entryList s.2 <> [];
  src_sizes : NoDup (map (fun e => m_uSize (ke_entry e)) (entryList s.2))
}.

Record keyhash_ok (now : Z) (k : CUInt128 * KeyHash) : Prop := {
  kho_id : kh_keyID k.2 = k.1;
  kho_sorted : msorted (kh_sources k.2);
  kho_sources : Forall (source_ok now) (kh_sources k.2);
  kho_some : kh_sources k.2 <> [];
  kho_max : Z.of_nat (length (kh_sources k.2)) <= KADEMLIAMAXINDEX + 1
}.

Record keywords_ok (now : Z) (i : CIndexed) : Prop := {
  kw_sorted : msorted (m_Keyword_map i);
  kw_hashes : Forall (keyhash_ok now) (m_Keyword_map i);
  kw_total : m_totalIndexKeyword i = Z.of_nat (length (keyword_entries (m_Keyword_map i)));
  kw_max : m_totalIndexKeyword i <= KADEMLIAMAXENTRIES + 1;
  kw_counted : counted (s_globalPublishIPs i) (concat (map publishers (keyword_entries (m_Keyword_map i))))
}.

Record srchash_ok (max : Z) (k : CUInt128 * SrcHash) : Prop := {
  sho_id : sh_keyID k.2 = k.1;
  sho_sources : Forall (fun s => exists e, entryList s = [e]) (sh_sources k.2);
  sho_some : sh_sources k.2 <> [];
  sho_max : Z.of_nat (length (sh_sources k.2)) <= max + 1
}.

Record files_ok (max total : Z) (m : list (CUInt128 * SrcHash)) : Prop := {
  fo_sorted : msorted m;
  fo_hashes : Forall (srchash_ok max) m;
  fo_total : total = u32 (Z.of_nat (length (source_entries m)))
}.

Record index_ok (now : Z) (i : CIndexed) : Prop := {
  ix_keywords : keywords_ok now i;
  ix_sources : files_ok KADEMLIAMAXSOURCEPERFILE (m_totalIndexSource i) (m_Sources_map i);
  ix_notes : files_ok KADEMLIAMAXNOTESPERFILE (m_totalIndexNotes i) (m_Notes_map i);
  ix_loads : msorted (m_Load_map i) /\ Forall (fun l => l_keyID l.2 = l.1) (m_Load_map i) /\
    m_totalIndexLoad i = u32 (Z.of_nat (length (m_Load_map i)))
}.

(** *** Bags of entries *)

Definition option_list {A} (o : option A) : list A := match o with Some x => [x] | None => [] end.

Lemma concat_perm {A B} (f : A -> list B) (l l' : list A) : l ≡ₚ l' -> concat (map f l) ≡ₚ concat (map f l').
Proof. intros H. rewrite <- !flat_map_concat_map. by apply Permutation_flat_map. Qed.

(** Putting a binding exchanges what the old one contributed. *)
Lemma flat_mset {K V B} `{KeyOrder K} (f : K * V -> list B) (k : K) (m : list (K * V)) : exists R,
  concat (map f m) ≡ₚ match mfind k m with Some v0 => f (k, v0) | None => [] end ++ R /\
  forall v, concat (map f (mset k v m)) ≡ₚ f (k, v) ++ R.
Proof.
  destruct (mfind k m) as [v0|] eqn:E.
  - destruct (mset_perm_found k v0 m E) as (m' & H1 & H2). exists (concat (map f m')).
    split; [by rewrite (concat_perm f _ _ H1)|]. intros v. by rewrite (concat_perm f _ _ (H2 v)).
  - exists (concat (map f m)). split; [done|]. intros v. by rewrite (concat_perm f _ _ (mset_perm_fresh k v m E)).
Qed.

Definition found_sources (keyID : CUInt128) (m : list (CUInt128 * KeyHash)) : list (CUInt128 * Source CKeyEntry) :=
  match mfind keyID m with Some kh => kh_sources kh | None => [] end.

Definition found_entries (keyID srcID : CUInt128) (m : list (CUInt128 * KeyHash)) : list CKeyEntry :=
  match mfind srcID (found_sources keyID m) with Some s => entryList s | None => [] end.

(** The table with the entries of one source replaced. *)
Definition put_entries (keyID srcID : CUInt128) (es : list CKeyEntry) (m : list (CUInt128 * KeyHash)) : list (CUInt128 * KeyHash) :=
  mset keyID (mkKeyHash keyID (mset srcID (mkSource srcID es) (found_sources keyID m))) m.

Lemma put_entries_bag keyID srcID m : exists R,
  keyword_entries m ≡ₚ found_entries keyID srcID m ++ R /\
  forall es, keyword_entries (put_entries keyID srcID es m) ≡ₚ es ++ R.
Proof.
  destruct (flat_mset (fun k : CUInt128 * KeyHash => keyhash_entries k.2) keyID m) as (R1 & H1 & H2).
  destruct (flat_mset (fun s : CUInt128 * Source CKeyEntry => entryList s.2) srcID (found_sources keyID m)) as (R2 & H3 & H4).
  exists (R2 ++ R1). split.
  - unfold keyword_entries. rewrite H1, app_assoc. apply Permutation_app_tail. unfold found_entries, found_sources in *.
    unfold keyhash_entries. destruct (mfind keyID m) as [kh|]; [|simpl in H3; apply Permutation_nil_l in H3; by rewrite <- H3].
    rewrite H3. by destruct (mfind srcID _).
  - intros es. unfold keyword_entries, put_entries. rewrite H2, app_assoc. apply Permutation_app_tail. simpl.
    unfold keyhash_entries. simpl. by rewrite H4.
Qed.

Lemma stored_ok_mono n0 now (e : CKeyEntry) : stored_ok n0 e -> n0 <= now -> stored_ok now e.
Proof.
  intros [H1 [R1 R2 R3 R4] H3 H4] Hn. split; try done. split; try done. eapply Forall_impl; [exact R4|]. simpl. intros r Hr. lia.
Qed.

Lemma source_ok_mono n0 now s : source_ok n0 s -> n0 <= now -> source_ok now s.
Proof.
  intros [H1 H2 H3 H4] Hn. split; try done. eapply Forall_impl; [exact H2|]. intros e [He Hz]. split; [by eapply stored_ok_mono|done].
Qed.

Lemma keyhash_ok_mono n0 now k : keyhash_ok n0 k -> n0 <= now -> keyhash_ok now k.
Proof.
  intros [H1 H2 H3 H4 H5] Hn. split; try done. eapply Forall_impl; [exact H3|]. intros s Hs. by eapply source_ok_mono.
Qed.

Lemma keywords_ok_mono n0 now i : keywords_ok n0 i -> n0 <= now -> keywords_ok now i.
Proof.
  intros [H1 H2 H3 H4 H5] Hn. split; try done. eapply Forall_impl; [exact H2|]. intros s Hs. by eapply keyhash_ok_mono.
Qed.

Lemma mfind_Forall {K V} `{KeyOrder K} (P : K * V -> Prop) (k : K) (v : V) m : msorted m -> Forall P m -> mfind k m = Some v -> P (k, v).
Proof. intros Hs HP Hf. apply (mfind_In k v m Hs) in Hf. exact (proj1 (Forall_forall _ _) HP _ Hf). Qed.

Lemma found_sources_ok now keyID m : msorted m -> Forall (keyhash_ok now) m ->
  msorted (found_sources keyID m) /\ Forall (source_ok now) (found_sources keyID m) /\
  Z.of_nat (length (found_sources keyID m)) <= KADEMLIAMAXINDEX + 1.
Proof.
  intros Hs Hf. unfold found_sources. destruct (mfind keyID m) as [kh|] eqn:E; [|simpl; split_and!; [constructor|constructor|unfold KADEMLIAMAXINDEX; lia]].
  destruct (mfind_Forall _ _ _ _ Hs Hf E) as [_ H2 H3 _ H5]. done.
Qed.

Lemma put_entries_ok now keyID srcID es m : msorted m -> Forall (keyhash_ok now) m -> source_ok now (srcID, mkSource srcID es) ->
  (mfind srcID (found_sources keyID m) = None -> Z.of_nat (length (found_sources keyID m)) <= KADEMLIAMAXINDEX) ->
  msorted (put_entries keyID srcID es m) /\ Forall (keyhash_ok now) (put_entries keyID srcID es m).
Proof.
  intros Hs Hf Hso Hmax. destruct (found_sources_ok now keyID m Hs Hf) as (F1 & F2 & F3).
  split; [by apply msorted_set|]. apply mset_Forall; [|done]. split; simpl; [done|by apply msorted_set|by apply mset_Forall| |].
  - intros E. pose proof (mfind_set_eq srcID (mkSource srcID es) (found_sources keyID m)) as H. by rewrite E in H.
  - destruct (mfind srcID (found_sources keyID m)) as [s|] eqn:E; [by rewrite (length_mset_found _ _ _ _ E)|].
    rewrite length_mset_fresh by done. specialize (Hmax eq_refl). lia.
Qed.

Lemma take_size_spec size l : let '(o, rest) := take_size size l in
  l ≡ₚ option_list o ++ rest /\ (forall e, o = Some e -> m_uSize (ke_entry e) = size) /\
  (o = None -> Forall (fun e => m_uSize (ke_entry e) <> size) l).
Proof.
  induction l as [|e l IH]; simpl; [by split_and!|]. destruct (Z.eqb_spec (m_uSize (ke_entry e)) size) as [E|E].
  - split; [done|]. split; [by intros ? [= <-]|done].
  - destruct (take_size size l) as [o rest]. destruct IH as (I1 & I2 & I3). split; [|split; [done|]].
    + rewrite I1. by rewrite Permutation_middle.
    + intros Ho. constructor; [done|]. by apply I3.
Qed.

Lemma merge_and_delete_spec n0 now tick e from g : fresh_ok e -> (forall old, from = Some old -> stored_ok n0 old) -> n0 <= now ->
  let r := merge_and_delete now tick e from g in
  stored_ok now r.1 /\ reports r.1 = publish (m_uIP (ke_entry e)) now (published_hash e) (old_reports from) /\
  ke_entry r.1 = set_filenames (names_after now e from) (ke_entry e) /\
  forall rest, counted g (old_publishers from ++ rest) -> Z.of_nat (length (old_publishers from ++ rest)) + 1 < 2 ^ 32 ->
    counted r.2 (publishers r.1 ++ rest).
Proof.
  intros He Hold Hn. pose proof (merge_spec n0 now tick e from g He Hold Hn) as HM. cbv zeta in *. unfold merge_and_delete.
  destruct (MergeIPsAndFilenames now tick e from g) as [[e' from'] g']. destruct HM as (M1 & M2 & M3 & M4 & _ & M6). cbn [fst snd] in *.
  split_and!; try done. intros rest Hg Hb. specialize (M6 rest Hg Hb). rewrite M4. by destruct from.
Qed.

(** An accepted publication: the entry of the same size makes room for the merged one. *)
Record added (now tick : Z) (keyID srcID : CUInt128) (entry : CKeyEntry) (i i' : CIndexed) (from : option CKeyEntry)
  (rest : list CKeyEntry) : Prop := {
  ad_found : found_entries keyID srcID (m_Keyword_map i) ≡ₚ option_list from ++ rest;
  ad_size : forall o, from = Some o -> m_uSize (ke_entry o) = m_uSize (ke_entry entry);
  ad_none : from = None -> Forall (fun o => m_uSize (ke_entry o) <> m_uSize (ke_entry entry)) rest;
  ad_state : let r := merge_and_delete now tick entry from (s_globalPublishIPs i) in
    i' = set_keywords (m_totalIndexKeyword i + (if from then 0 else 1)) (put_entries keyID srcID (r.1 :: rest) (m_Keyword_map i)) r.2 i;
  ad_room : mfind srcID (found_sources keyID (m_Keyword_map i)) = None ->
    Z.of_nat (length (found_sources keyID (m_Keyword_map i))) <= KADEMLIAMAXINDEX;
  ad_total : m_totalIndexKeyword i <= KADEMLIAMAXENTRIES;
  ad_valid : m_uSize (ke_entry entry) <> 0 /\ GetCommonFileName (ke_entry entry) <> [] /\ now <= m_tLifeTime (ke_entry entry)
}.

Lemma AddKeyword_spec n0 now tick keyID srcID entry i : keywords_ok n0 i -> fresh_ok entry ->
  let '(ok, load, i') := AddKeyword now tick keyID srcID entry i in
  if ok then exists from rest, added now tick keyID srcID entry i i' from rest else i' = i.
Proof.
  intros [K1 K2 K3 K4 K5] He. unfold AddKeyword.
  destruct (Z.gtb_spec (m_totalIndexKeyword i) KADEMLIAMAXENTRIES) as [|Htot]; [done|].
  destruct (_ || _) eqn:Hv; [done|].
  apply orb_false_iff in Hv as [Hv Hv4]. apply orb_false_iff in Hv as [Hv _]. apply orb_false_iff in Hv as [Hv1 Hv2].
  assert (m_uSize (ke_entry entry) <> 0 /\ GetCommonFileName (ke_entry entry) <> [] /\ now <= m_tLifeTime (ke_entry entry)) as Hvalid.
  { split_and!; [lia|by destruct (GetCommonFileName (ke_entry entry))|lia]. }
  assert (0 <= m_totalIndexKeyword i) as Hpos by (rewrite K3; lia).
  assert (u32 (m_totalIndexKeyword i + 1) = m_totalIndexKeyword i + 1) as Hu by (apply wrap_small; unfold KADEMLIAMAXENTRIES in *; width_lia).
  rewrite Hu.
  assert (forall old, mfind keyID (m_Keyword_map i) = old -> found_sources keyID (m_Keyword_map i) = match old with Some kh => kh_sources kh | None => [] end) as HF
    by (intros old <-; done).
  destruct (mfind keyID (m_Keyword_map i)) as [kh|] eqn:Ek.
  - specialize (HF _ eq_refl). destruct (mfind_Forall _ _ _ _ K1 K2 Ek) as [Hid Hs1 Hs2 Hs3 Hs4]. simpl in *.
    destruct (Z.gtb_spec (Z.of_nat (length (kh_sources kh))) KADEMLIAMAXINDEX) as [|Hroom]; [done|].
    destruct (mfind srcID (kh_sources kh)) as [s|] eqn:Es.
    + destruct (mfind_Forall _ _ _ _ Hs1 Hs2 Es) as [Hsid He1 He2 He3]. simpl in *.
      destruct (entryList s) as [|x es] eqn:El; [done|]. rewrite <- El.
      destruct (Z.gtb_spec (Z.of_nat (length (kh_sources kh))) (KADEMLIAMAXINDEX - 5000)); [done|].
      pose proof (take_size_spec (m_uSize (ke_entry entry)) (entryList s)) as HT. destruct (take_size _ (entryList s)) as [from rest].
      destruct HT as (T1 & T2 & T3). destruct (merge_and_delete now tick entry from (s_globalPublishIPs i)) as [e' g'] eqn:Em.
      exists from, rest. split; try done.
      * unfold found_entries. by rewrite HF, Es.
      * intros ->. specialize (T3 eq_refl). rewrite T1 in T3. simpl in T3. exact T3.
      * cbv zeta. rewrite Em. unfold put_entries. rewrite HF, Hid, Hsid. destruct from; simpl; [by rewrite Z.add_0_r|done].
      * by rewrite HF, Es.
    + destruct (merge_and_delete now tick entry None (s_globalPublishIPs i)) as [e' g'] eqn:Em.
      exists None, []. split; try done.
      * unfold found_entries. by rewrite HF, Es.
      * cbv zeta. rewrite Em. unfold put_entries. by rewrite HF, Hid.
      * by rewrite HF.
  - specialize (HF _ eq_refl). simpl in HF. destruct (merge_and_delete now tick entry None (s_globalPublishIPs i)) as [e' g'] eqn:Em.
    exists None, []. split; try done.
    + unfold found_entries. by rewrite HF.
    + cbv zeta. rewrite Em. unfold put_entries. by rewrite HF.
    + rewrite HF. simpl. unfold KADEMLIAMAXINDEX. lia.
Qed.

Lemma found_entries_ok n0 keyID srcID i : keywords_ok n0 i ->
  Forall (keyword_ok n0) (found_entries keyID srcID (m_Keyword_map i)) /\
  NoDup (map (fun e => m_uSize (ke_entry e)) (found_entries keyID srcID (m_Keyword_map i))).
Proof.
  intros [K1 K2 _ _ _]. destruct (found_sources_ok n0 keyID _ K1 K2) as (F1 & F2 & _). unfold found_entries.
  destruct (mfind srcID _) as [s|] eqn:E; [|split; constructor]. by destruct (mfind_Forall _ _ _ _ F1 F2 E).
Qed.

Lemma stored_few now e : stored_ok now e -> Z.of_nat (length (publishers e)) <= 100.
Proof.
  intros [(l & S1 & S2) [R1 _ _ _] _ _]. unfold reports, publishers in *. rewrite S1 in *. rewrite length_view in R1. by rewrite length_map.
Qed.

Lemma publishers_few now l : Forall (keyword_ok now) l -> Z.of_nat (length (concat (map publishers l))) <= 100 * Z.of_nat (length l).
Proof.
  induction 1 as [|e l [He _] _ IH]; [done|]. simpl. rewrite length_app. pose proof (stored_few now e He). lia.
Qed.

Lemma entries_ok now i : keywords_ok now i -> Forall (keyword_ok now) (keyword_entries (m_Keyword_map i)).
Proof.
  intros [_ K2 _ _ _]. unfold keyword_entries. apply Forall_concat, Forall_map. eapply Forall_impl; [exact K2|].
  intros k [_ _ H _ _]. unfold keyhash_entries. apply Forall_concat, Forall_map. eapply Forall_impl; [exact H|]. by intros s [_ ? _ _].
Qed.

Lemma from_ok n0 now tick keyID srcID entry i i' from rest : keywords_ok n0 i -> added now tick keyID srcID entry i i' from rest ->
  (forall old, from = Some old -> stored_ok n0 old) /\ Forall (keyword_ok n0) rest /\
  NoDup (map (fun e => m_uSize (ke_entry e)) (option_list from ++ rest)).
Proof.
  intros Hi [A1 _ _ _ _ _ _]. destruct (found_entries_ok n0 keyID srcID i Hi) as [F1 F2]. rewrite A1 in F1. apply Forall_app in F1 as [F1 F3].
  split; [intros old ->; by apply Forall_cons in F1 as [[? _] _]|]. split; [done|].
  by rewrite <- (Permutation_map (fun e => m_uSize (ke_entry e)) A1).
Qed.

Lemma concat_option (from : option CKeyEntry) : concat (map publishers (option_list from)) = old_publishers from.
Proof. destruct from; simpl; [by rewrite app_nil_r|done]. Qed.

Lemma added_ok n0 now tick keyID srcID entry i i' from rest : keywords_ok n0 i -> fresh_ok entry ->
  m_bSource (ke_entry entry) = false -> n0 <= now ->
  added now tick keyID srcID entry i i' from rest -> keywords_ok now i'.
Proof.
  intros Hi He Hb Hn HA. destruct (from_ok _ _ _ _ _ _ _ _ _ _ Hi HA) as (O1 & O2 & O3). pose proof HA as [A1 A2 A3 A4 A5 A6 A7].
  destruct (merge_and_delete_spec n0 now tick entry from (s_globalPublishIPs i) He O1 Hn) as (M1 & M2 & M3 & M4).
  set (r := merge_and_delete now tick entry from (s_globalPublishIPs i)) in *.
  pose proof (keywords_ok_mono n0 now i Hi Hn) as [K1 K2 K3 K4 K5].
  assert (m_uSize (ke_entry r.1) = m_uSize (ke_entry entry)) as Hsize by (rewrite M3; done).
  destruct (put_entries_bag keyID srcID (m_Keyword_map i)) as (R & B1 & B2).
  assert (source_ok now (srcID, mkSource srcID (r.1 :: rest))) as Hsource.
  { split; [done| |done|].
    - simpl. constructor; [split; [done|rewrite Hsize; split; [apply A7|by rewrite M3]]|]. eapply Forall_impl; [exact O2|].
      intros e [Hs Hz]. split; [by eapply stored_ok_mono|done].
    - simpl. rewrite map_app in O3. apply NoDup_app in O3 as (_ & O4 & O5). constructor; [|done].
      rewrite Hsize. destruct from as [old|].
      + rewrite <- (A2 old eq_refl). apply O4. simpl. apply list_elem_of_here.
      + intros Hin. apply list_elem_of_fmap in Hin as (o & Ho & Hin). exact (proj1 (Forall_forall _ _) (A3 eq_refl) o Hin (eq_sym Ho)). }
  destruct (put_entries_ok now keyID srcID (r.1 :: rest) _ K1 K2 Hsource A5) as [P1 P2]. cbv zeta in A4. fold r in A4. subst i'.
  pose proof (B2 (r.1 :: rest)) as B3.
  assert (length (keyword_entries (put_entries keyID srcID (r.1 :: rest) (m_Keyword_map i))) =
    (length (keyword_entries (m_Keyword_map i)) + (if from then 0 else 1))%nat) as HL.
  { rewrite B3, B1, A1, !length_app. simpl. destruct from; simpl; lia. }
  split; simpl; [done|done| | |].
  - rewrite HL, K3. destruct from; lia.
  - destruct from; lia.
  - assert (concat (map publishers (keyword_entries (put_entries keyID srcID (r.1 :: rest) (m_Keyword_map i)))) ≡ₚ
      publishers r.1 ++ concat (map publishers (rest ++ R))) as HP by (by rewrite (concat_perm publishers _ _ B3)).
    eapply counted_perm; [symmetry; exact HP|]. apply M4.
    + eapply counted_perm; [|exact K5]. rewrite (concat_perm publishers _ _ B1), map_app, concat_app.
      rewrite (concat_perm publishers _ _ A1), map_app, concat_app, concat_option, map_app, concat_app. by rewrite app_assoc.
    + rewrite <- concat_option, <- concat_app, <- map_app, app_assoc.
      pose proof (publishers_few now (keyword_entries (m_Keyword_map i)) (entries_ok now i ltac:(by split))) as HF.
      assert (concat (map publishers (keyword_entries (m_Keyword_map i))) ≡ₚ concat (map publishers ((option_list from ++ rest) ++ R))) as HP2
        by (apply concat_perm; by rewrite B1, A1).
      rewrite <- HP2. rewrite K3 in K4. unfold KADEMLIAMAXENTRIES in K4. norm_pow. lia.
Qed.

(** *** Expiry *)

Lemma clean_entries_app tNow a b : forall g, clean_entries tNow (a ++ b) g =
  let '(a', g) := clean_entries tNow a g in let '(b', g) := clean_entries tNow b g in (a' ++ b', g).
Proof.
  induction a as [|e a IH]; intros g; simpl; [by destruct (clean_entries tNow b g)|].
  destruct (_ && _); [apply IH|]. destruct (if m_bSource _ then _ else _) as [e' g1]. rewrite IH.
  destruct (clean_entries tNow a g1) as [a' g2]. by destruct (clean_entries tNow b g2).
Qed.

Lemma clean_keyword_sources_flat tNow l : forall g,
  let '(l', g') := clean_keyword_sources tNow l g in
  clean_entries tNow (concat (map (fun s => entryList s.2) l)) g = (concat (map (fun s => entryList s.2) l'), g').
Proof.
  induction l as [|[k s] l IH]; intros g; simpl; [done|]. rewrite clean_entries_app.
  destruct (clean_entries tNow (entryList s) g) as [es g1]. specialize (IH g1).
  destruct (clean_keyword_sources tNow l g1) as [l' g2]. rewrite IH. by destruct es.
Qed.

Lemma clean_keywords_flat tNow m : forall g,
  let '(m', g') := clean_keywords tNow m g in clean_entries tNow (keyword_entries m) g = (keyword_entries m', g').
Proof.
  unfold keyword_entries. induction m as [|[k kh] m IH]; intros g; simpl; [done|]. rewrite clean_entries_app. unfold keyhash_entries at 1.
  pose proof (clean_keyword_sources_flat tNow (kh_sources kh) g) as HS.
  destruct (clean_keyword_sources tNow (kh_sources kh) g) as [ss g1]. rewrite HS. specialize (IH g1).
  destruct (clean_keywords tNow m g1) as [m' g2]. rewrite IH. by destruct ss.
Qed.

(** What stays of an entry. *)
Definition cleaned (tNow : Z) (e e' : CKeyEntry) : Prop :=
  ke_entry e' = ke_entry e /\ reports e' = filter (current tNow) (reports e).

Lemma clean_entries_spec n0 tNow l : n0 <= tNow -> Forall (keyword_ok n0) l -> forall g,
  let '(l', g') := clean_entries tNow l g in
  Forall (keyword_ok tNow) l' /\ Forall2 (cleaned tNow) (filter (fun e => ~ m_tLifeTime (ke_entry e) < tNow) l) l' /\
  forall rest, counted g (concat (map publishers l) ++ rest) -> counted g' (concat (map publishers l') ++ rest).
Proof.
  intros Hn. induction 1 as [|e l (He & Hz & Hb) Hl IH]; intros g; simpl; [split_and!; try done; constructor|].
  rewrite Hb. simpl. rewrite filter_cons. destruct (Z.ltb_spec (m_tLifeTime (ke_entry e)) tNow) as [Hlt|Hge].
  - rewrite decide_False by (intros H; by apply H). specialize (IH (CKeyEntry_delete e g)).
    destruct (clean_entries tNow l (CKeyEntry_delete e g)) as [l' g']. destruct IH as (I1 & I2 & I3). split_and!; try done.
    intros rest Hg. apply I3. unfold CKeyEntry_delete, publishers in *. rewrite <- app_assoc in Hg.
    destruct (m_publishingIPs e); [by apply counted_release|done].
  - rewrite decide_True by lia. destruct (CleanUp_spec n0 tNow e g He Hn) as (C1 & C2 & C3 & C4).
    destruct (CleanUpTrackedPublishers tNow e g) as [e' g1]. cbn [fst snd] in *. specialize (IH g1).
    destruct (clean_entries tNow l g1) as [l' g2]. destruct IH as (I1 & I2 & I3). split; [|split].
    + constructor; [|done]. split; [done|]. by rewrite C3.
    + constructor; [by split|done].
    + intros rest Hg. simpl. rewrite <- app_assoc in Hg |- *. apply C4 in Hg.
      eapply counted_perm; [|apply (I3 (publishers e' ++ rest))].
      * rewrite !app_assoc. apply Permutation_app_tail, Permutation_app_comm.
      * eapply counted_perm; [|exact Hg]. rewrite !app_assoc. apply Permutation_app_tail, Permutation_app_comm.
Qed.

Lemma cleaned_sizes tNow l l' : Forall2 (cleaned tNow) (filter (fun e => ~ m_tLifeTime (ke_entry e) < tNow) l) l' ->
  map (fun e => m_uSize (ke_entry e)) l' `sublist_of` map (fun e => m_uSize (ke_entry e)) l.
Proof.
  intros H. assert (map (fun e => m_uSize (ke_entry e)) l' = map (fun e => m_uSize (ke_entry e)) (filter (fun e => ~ m_tLifeTime (ke_entry e) < tNow) l)) as ->.
  { induction H as [|e e' a b [He _] _ IH]; simpl; [done|]. by rewrite He, IH. }
  exact (fmap_sublist _ _ _ (sublist_filter _ l)).
Qed.

Lemma clean_keyword_sources_ok n0 tNow l : n0 <= tNow -> Forall (source_ok n0) l -> forall g,
  let l' := (clean_keyword_sources tNow l g).1 in
  Forall (source_ok tNow) l' /\ map fst l' `sublist_of` map fst l.
Proof.
  intros Hn. induction 1 as [|[k s] l [H1 H2 H3 H4] _ IH]; intros g; simpl; [by split|].
  pose proof (clean_entries_spec n0 tNow (entryList s) Hn H2 g) as HC. destruct (clean_entries tNow (entryList s) g) as [es g1].
  specialize (IH g1). destruct (clean_keyword_sources tNow l g1) as [l' g2]. cbn [fst snd] in *. destruct HC as (C1 & C2 & _), IH as [I1 I2].
  destruct es as [|e es]; simpl; [split; [done|by apply sublist_cons]|]. split; [|by apply sublist_skip].
  constructor; [|done]. split; try done. eapply sublist_NoDup; [exact H4|]. by apply (cleaned_sizes tNow).
Qed.

Lemma msorted_key_order {V} (m : list (CUInt128 * V)) : msorted m <-> StronglySorted (fun a b => kltb a b = true) (map fst m).
Proof.
  unfold msorted. induction m as [|[k v] m IH]; simpl; [split; constructor|].
  split; intros H; apply StronglySorted_inv in H as [H1 H2]; (constructor; [by apply IH|]); [by rewrite Forall_map|].
  rewrite Forall_map in H2. exact H2.
Qed.

Lemma SSorted_sublist {A} (R : A -> A -> Prop) l l' : l' `sublist_of` l -> StronglySorted R l -> StronglySorted R l'.
Proof.
  induction 1 as [|x l' l H IH|x l' l H IH]; intros HS; [constructor| |].
  - apply StronglySorted_inv in HS as [H1 H2]. constructor; [by apply IH|]. apply Forall_forall. intros y Hy.
    apply (proj1 (Forall_forall _ _) H2). by eapply elem_of_sublist.
  - apply StronglySorted_inv in HS as [H1 _]. by apply IH.
Qed.

Lemma msorted_sub {V W} (m : list (CUInt128 * V)) (m' : list (CUInt128 * W)) : map fst m' `sublist_of` map fst m -> msorted m -> msorted m'.
Proof. rewrite !msorted_key_order. apply SSorted_sublist. Qed.

Lemma clean_keywords_ok n0 tNow m : n0 <= tNow -> Forall (keyhash_ok n0) m -> forall g,
  let m' := (clean_keywords tNow m g).1 in
  Forall (keyhash_ok tNow) m' /\ map fst m' `sublist_of` map fst m.
Proof.
  intros Hn. induction 1 as [|[k kh] m [H1 H2 H3 H4 H5] _ IH]; intros g; simpl; [by split|].
  destruct (clean_keyword_sources_ok n0 tNow (kh_sources kh) Hn H3 g) as [S1 S2].
  destruct (clean_keyword_sources tNow (kh_sources kh) g) as [ss g1]. specialize (IH g1).
  destruct (clean_keywords tNow m g1) as [m' g2]. cbn [fst snd] in *. destruct IH as [I1 I2].
  destruct ss as [|s ss]; simpl; [split; [done|by apply sublist_cons]|]. split; [|by apply sublist_skip].
  constructor; [|done]. split; try done; [by eapply msorted_sub|]. apply sublist_length in S2. rewrite !length_map in S2. simpl in *. lia.
Qed.

(** *** Sources and notes *)

Definition single (s : Source CEntry) : Prop := exists e, entryList s = [e].

Definition found_files (keyID : CUInt128) (m : list (CUInt128 * SrcHash)) : list (Source CEntry) :=
  match mfind keyID m with Some h => sh_sources h | None => [] end.

Definition put_files (keyID : CUInt128) (l : list (Source CEntry)) (m : list (CUInt128 * SrcHash)) : list (CUInt128 * SrcHash) :=
  mset keyID (mkSrcHash keyID l) m.

Lemma singles_length l : Forall single l -> length (concat (map entryList l)) = length l.
Proof. induction 1 as [|s l [e He] _ IH]; simpl; [done|]. rewrite He. simpl. lia. Qed.

Lemma replace_source_spec same entry l : Forall single l ->
  match replace_source same entry l with
  | Some (l', new) => new = false /\ Forall single l' /\
      exists pre s e post, l = pre ++ s :: post /\ entryList s = [e] /\ same e = true /\
        Forall (fun s => forall e, entryList s = [e] -> same e = false) pre /\ l' = pre ++ mkSource (sourceID s) [entry] :: post
  | None => Forall (fun s => forall e, entryList s = [e] -> same e = false) l
  end.
Proof.
  induction 1 as [|s l [e He] Hl IH]; simpl; [constructor|]. rewrite He. destruct (same e) eqn:E.
  - split; [done|]. split; [constructor; [by eexists|done]|]. by exists [], s, e, l.
  - destruct (replace_source same entry l) as [[l' new]|].
    + destruct IH as (-> & I1 & pre & s0 & e0 & post & -> & I3 & I4 & I5 & ->). split; [done|]. split; [constructor; [by eexists|done]|].
      exists (s :: pre), s0, e0, post. split_and!; try done. constructor; [|done]. intros e1. rewrite He. by intros [= <-].
    + constructor; [|done]. intros e1. rewrite He. by intros [= <-].
Qed.

Lemma recycle_spec srcID entry l : l <> [] -> Forall single l ->
  recycle_source srcID entry l = mkSource srcID [entry] :: removelast l.
Proof.
  intros Hne Hl. unfold recycle_source. destruct (last l) as [s|] eqn:E; [|by apply last_None in E].
  apply last_Some in E as [l' ->]. apply Forall_app in Hl as [_ Hl]. apply Forall_singleton in Hl as [e He]. by rewrite He.
Qed.

Lemma put_files_ok max total keyID l m total' : files_ok max total m -> Forall single l -> l <> [] ->
  Z.of_nat (length l) <= max + 1 ->
  total' = u32 (total + (Z.of_nat (length l) - Z.of_nat (length (found_files keyID m)))) ->
  files_ok max total' (put_files keyID l m).
Proof.
  intros [H1 H2 H3] Hl Hne Hmax ->. split; [by apply msorted_set|by apply mset_Forall|].
  destruct (flat_mset (fun k : CUInt128 * SrcHash => concat (map entryList (sh_sources k.2))) keyID m) as (R & F1 & F2).
  unfold source_entries, put_files in *. rewrite F2, H3, F1, !length_app. simpl. rewrite singles_length by done.
  unfold found_files. destruct (mfind keyID m) as [h|] eqn:E.
  - destruct (mfind_Forall _ _ _ _ H1 H2 E) as [_ S2 _ _]. simpl in *. rewrite singles_length by exact S2.
    unfold wrap. norm_pow. rewrite Zplus_mod_idemp_l. f_equal. lia.
  - simpl. unfold wrap. norm_pow. rewrite Zplus_mod_idemp_l. f_equal. lia.
Qed.

Lemma found_files_ok max total keyID m : files_ok max total m -> Forall single (found_files keyID m) /\
  Z.of_nat (length (found_files keyID m)) <= Z.max 0 (max + 1).
Proof.
  intros [H1 H2 _]. unfold found_files. destruct (mfind keyID m) as [h|] eqn:E; [|split; [constructor|simpl; lia]].
  destruct (mfind_Forall _ _ _ _ H1 H2 E) as [_ S2 _ S4]. simpl in *. split; [done|lia].
Qed.

(** What a publication does to the sources of a file: the entry takes the place of the one that is the
    same, or comes first, the last one leaving a full list. *)
Definition publish_file (max : Z) (same : CEntry -> bool) (srcID : CUInt128) (entry : CEntry) (l : list (Source CEntry)) : list (Source CEntry) :=
  match replace_source same entry l with
  | Some (l', _) => l'
  | None => mkSource srcID [entry] :: if Z.of_nat (length l) >? max then removelast l else l
  end.

Lemma publish_file_length max same srcID entry l : Forall single l -> 0 <= max -> Z.of_nat (length l) <= max + 1 ->
  Forall single (publish_file max same srcID entry l) /\ publish_file max same srcID entry l <> [] /\
  Z.of_nat (length (publish_file max same srcID entry l)) <= max + 1.
Proof.
  intros Hl H0 Hm. unfold publish_file. pose proof (replace_source_spec same entry l Hl) as HR.
  destruct (replace_source same entry l) as [[l' new]|].
  - destruct HR as (_ & H1 & pre & s & e & post & -> & _ & _ & _ & ->). split; [done|]. split; [by destruct pre|].
    rewrite !length_app in *. simpl in *. lia.
  - split; [|split; [done|]].
    + constructor; [by eexists|]. destruct (_ >? _); [|done]. destruct l as [|x l] using rev_ind; [done|].
      rewrite removelast_last. by apply Forall_app in Hl as [? _].
    + simpl. destruct (Z.gtb_spec (Z.of_nat (length l)) max); [|lia]. destruct l as [|x l _] using rev_ind; [simpl; lia|].
      rewrite removelast_last. rewrite length_app in Hm. simpl in Hm. lia.
Qed.

(** The total after the publication. *)
Definition publish_total (max total : Z) (same : CEntry -> bool) (srcID : CUInt128) (entry : CEntry) (l : list (Source CEntry)) : Z :=
  u32 (total + (Z.of_nat (length (publish_file max same srcID entry l)) - Z.of_nat (length l))).

Lemma publish_files_ok max total same keyID srcID entry m : 0 <= max -> files_ok max total m ->
  files_ok max (publish_total max total same srcID entry (found_files keyID m))
    (put_files keyID (publish_file max same srcID entry (found_files keyID m)) m).
Proof.
  intros H0 Hf. destruct (found_files_ok _ _ keyID _ Hf) as [F1 F2].
  destruct (publish_file_length max same srcID entry _ F1 ltac:(lia) ltac:(lia)) as (P1 & P2 & P3). by eapply put_files_ok.
Qed.

(** The branches of the two functions: a replacement keeps the total, recycling too, and a new source counts. *)
Lemma publish_branch max total same srcID entry l : Forall single l -> in_width 32 total ->
  match replace_source same entry l with
  | Some (l', new) => new = false /\ l' = publish_file max same srcID entry l /\ total = publish_total max total same srcID entry l
  | None =>
      if Z.of_nat (length l) >? max
      then l <> [] -> recycle_source srcID entry l = publish_file max same srcID entry l /\ total = publish_total max total same srcID entry l
      else mkSource srcID [entry] :: l = publish_file max same srcID entry l /\ u32 (total + 1) = publish_total max total same srcID entry l
  end.
Proof.
  intros Hl Ht. pose proof (replace_source_spec same entry l Hl) as HR. unfold publish_total, publish_file.
  destruct (replace_source same entry l) as [[l' new]|].
  - destruct HR as (-> & R1 & pre & s & e & post & -> & _ & _ & _ & ->). split; [done|]. split; [done|].
    rewrite !length_app. simpl. by rewrite Z.sub_diag, Z.add_0_r, wrap_small.
  - destruct (Z.gtb_spec (Z.of_nat (length l)) max).
    + intros Hne. split; [by apply recycle_spec|]. destruct l as [|x l _] using rev_ind; [done|].
      rewrite removelast_last, length_app. simpl.
      replace (Z.of_nat (S (length l)) - Z.of_nat (length l + 1)) with 0 by lia. by rewrite Z.add_0_r, wrap_small.
    + split; [done|]. simpl. f_equal. lia.
Qed.

Lemma AddSources_spec now keyID srcID entry i : files_ok KADEMLIAMAXSOURCEPERFILE (m_totalIndexSource i) (m_Sources_map i) ->
  let '(ok, load, i') := AddSources now keyID srcID entry i in
  let l := found_files keyID (m_Sources_map i) in
  if ok then i' = set_sources (publish_total KADEMLIAMAXSOURCEPERFILE (m_totalIndexSource i) (same_source entry) srcID entry l)
    (put_files keyID (publish_file KADEMLIAMAXSOURCEPERFILE (same_source entry) srcID entry l) (m_Sources_map i)) i
  else i' = i.
Proof.
  intros Hf. unfold AddSources. destruct (_ || _); [done|]. pose proof Hf as [H1 H2 H3].
  assert (in_width 32 (m_totalIndexSource i)) as Ht by (rewrite H3; apply wrap_range; lia).
  destruct (found_files_ok _ _ keyID _ Hf) as [F1 _]. unfold found_files in *.
  pose proof (publish_branch KADEMLIAMAXSOURCEPERFILE (m_totalIndexSource i) (same_source entry) srcID entry _ F1 Ht) as HB.
  destruct (mfind keyID (m_Sources_map i)) as [h|] eqn:E; [|by destruct HB as [<- <-]].
  destruct (mfind_Forall _ _ _ _ H1 H2 E) as [S1 S2 S3 S4]. simpl in *. rewrite S1.
  destruct (replace_source _ _ _) as [[l' new]|]; [by destruct HB as (_ & -> & <-)|].
  destruct (_ >? _); [by destruct (HB S3) as [-> <-]|by destruct HB as [<- <-]].
Qed.

Lemma AddNotes_spec keyID srcID entry i : files_ok KADEMLIAMAXNOTESPERFILE (m_totalIndexNotes i) (m_Notes_map i) ->
  let '(ok, load, i') := AddNotes keyID srcID entry i in
  let l := found_files keyID (m_Notes_map i) in
  if ok then i' = set_notes (publish_total KADEMLIAMAXNOTESPERFILE (m_totalIndexNotes i) (same_note entry) srcID entry l)
    (put_files keyID (publish_file KADEMLIAMAXNOTESPERFILE (same_note entry) srcID entry l) (m_Notes_map i)) i
  else i' = i.
Proof.
  intros Hf. unfold AddNotes. destruct (_ || _); [done|]. pose proof Hf as [H1 H2 H3].
  assert (in_width 32 (m_totalIndexNotes i)) as Ht by (rewrite H3; apply wrap_range; lia).
  destruct (found_files_ok _ _ keyID _ Hf) as [F1 _]. unfold found_files in *.
  pose proof (publish_branch KADEMLIAMAXNOTESPERFILE (m_totalIndexNotes i) (same_note entry) srcID entry _ F1 Ht) as HB.
  destruct (mfind keyID (m_Notes_map i)) as [h|] eqn:E; [|by destruct HB as [<- <-]].
  destruct (mfind_Forall _ _ _ _ H1 H2 E) as [S1 S2 S3 S4]. simpl in *. rewrite S1.
  destruct (replace_source _ _ _) as [[l' new]|]; [by destruct HB as (-> & -> & <-)|].
  destruct (_ >? _); [by destruct (HB S3) as [-> <-]|by destruct HB as [<- <-]].
Qed.

Lemma clean_source_list_ok tNow l : Forall single l ->
  clean_source_list tNow l = filter (fun s => Forall (fun e => ~ m_tLifeTime e < tNow) (entryList s)) l.
Proof.
  induction 1 as [|s l [e He] _ IH]; [done|]. simpl. rewrite He, filter_cons, filter_cons.
  destruct (decide (~ m_tLifeTime e < tNow)) as [H|H].
  - rewrite decide_True by (rewrite He; by apply Forall_singleton). rewrite IH. f_equal. destruct s as [id es]. simpl in *. by rewrite He.
  - rewrite decide_False by (rewrite He, Forall_singleton; done). simpl. exact IH.
Qed.

Lemma clean_sources_ok max tNow m : Forall (srchash_ok max) m ->
  Forall (srchash_ok max) (clean_sources tNow m) /\ map fst (clean_sources tNow m) `sublist_of` map fst m /\
  source_entries (clean_sources tNow m) = filter (fun e => ~ m_tLifeTime e < tNow) (source_entries m).
Proof.
  unfold source_entries. induction 1 as [|[k h] m [S1 S2 S3 S4] _ IH]; simpl; [done|]. destruct IH as (I1 & I2 & I3). simpl in *.
  rewrite filter_app.
  assert (concat (map entryList (clean_source_list tNow (sh_sources h))) = filter (fun e => ~ m_tLifeTime e < tNow) (concat (map entryList (sh_sources h)))) as HE.
  { clear -S2. induction S2 as [|s l [e He] _ IH]; [done|]. simpl. rewrite filter_app, <- IH, He.
    destruct (filter _ [e]) as [|x es] eqn:E; [done|]. simpl. by rewrite app_comm_cons, <- E. }
  rewrite <- HE, <- I3. rewrite clean_source_list_ok in * by exact S2.
  pose proof (length_filter (fun s => Forall (fun e => ~ m_tLifeTime e < tNow) (entryList s)) (sh_sources h)) as HL.
  assert (Forall single (filter (fun s => Forall (fun e => ~ m_tLifeTime e < tNow) (entryList s)) (sh_sources h))) as HF
    by (apply Forall_forall; intros s Hs; apply list_elem_of_filter in Hs as [_ Hs]; exact (proj1 (Forall_forall _ _) S2 s Hs)).
  destruct (filter _ (sh_sources h)) as [|s ss] eqn:E; simpl; [split; [done|]; split; [by apply sublist_cons|done]|].
  split; [|split; [by apply sublist_skip|done]]. constructor; [|done]. split; simpl; [done|exact HF|done|simpl in HL; lia].
Qed.

End Tables.

(** ** Searches change nothing but the trust that is remembered *)

Section Retrust.

Context {wxcase : wxCase} {doubles : Doubles} {conv : wxConv}.
Context (realloc : list Z -> Z -> option (list Z)) (float_cmp : ESearchTermOp -> Z -> Z -> bool) (protocol_10 : bool).

Definition retrusted (e e' : CKeyEntry) : Prop := exists t v, e' = set_trust t v e.

Definition source_retrusted (s s' : CUInt128 * Source CKeyEntry) : Prop :=
  s'.1 = s.1 /\ sourceID s'.2 = sourceID s.2 /\ Forall2 retrusted (entryList s.2) (entryList s'.2).

Lemma retrusted_refl e : retrusted e e.
Proof. exists (m_lastTrustValueCalc e), (m_trustValue e). by destruct e. Qed.

Lemma retrusted_trans e1 e2 e3 : retrusted e1 e2 -> retrusted e2 e3 -> retrusted e1 e3.
Proof. intros (t & v & ->) (t' & v' & ->). by exists t', v'. Qed.

Lemma GetTrustValue_retrusted tick g e : retrusted e (GetTrustValue tick g e).2.
Proof.
  unfold GetTrustValue, ReCalculateTrustValue. destruct (_ >? _); [|apply retrusted_refl]. simpl.
  destruct (m_publishingIPs e); [by eexists _, _|apply retrusted_refl].
Qed.

Lemma bind_inr {F A B} (m : IO F A) (k : A -> IO F B) f y f' : io_bind m k f = (inr y, f') ->
  exists x f1, m f = (inr x, f1) /\ k x f1 = (inr y, f').
Proof. unfold io_bind. destruct (m f) as [[e|x] f1]; [done|]. intros H. by exists x, f1. Qed.

Lemma write_info_retrusted {F} {IOF : CFileDataIO F} tick g e f e' f' :
  WriteTagListWithPublishInfo protocol_10 tick g e f = (inr e', f') -> retrusted e e'.
Proof.
  unfold WriteTagListWithPublishInfo. destruct (m_publishingIPs e) as [[|p l]|].
  - intros H. apply bind_inr in H as (x & f1 & _ & [= -> _]). apply retrusted_refl.
  - pose proof (GetTrustValue_retrusted tick g e) as HR. destruct (GetTrustValue tick g e) as [v e1]. intros H.
    apply bind_inr in H as (x1 & f1 & _ & H). apply bind_inr in H as (x2 & f2 & _ & H). apply bind_inr in H as (x3 & f3 & _ & [= -> _]).
    exact HR.
  - intros H. apply bind_inr in H as (x & f1 & _ & [= -> _]). apply retrusted_refl.
Qed.

Lemma put_result_inr {X} id (w : IO CMemFile X) a x a' : put_result realloc id w a = (inr x, a') -> exists f f', w f = (inr x, f').
Proof.
  unfold put_result. unfold io_bind at 1. destruct (WriteUInt128 id (an_packet a)) as [[e|[]] f]; [done|].
  destruct (w f) as [[e|y] f'] eqn:E; [done|]. intros H. exists f, f'. rewrite E. f_equal.
  destruct (_ =? 0); [destruct (SetLength _ _ _) as [[?|?] ?]; [done|]|]; by injection H as ->.
Qed.

Lemma send_keyword_entry_retrusted tick g terms oldClient onlyTrusted e a :
  retrusted e (send_keyword_entry realloc float_cmp protocol_10 tick g terms oldClient onlyTrusted e a).1.1.
Proof.
  unfold send_keyword_entry. pose proof (GetTrustValue_retrusted tick g e) as HR. destruct (GetTrustValue tick g e) as [v e1]. simpl in HR.
  destruct (_ && _); [|done]. destruct (an_count a <? 0); [done|]. destruct (_ <? 300); [|done]. destruct (_ || _); [|done].
  destruct (put_result _ _ _ _) as [[x|e2] a'] eqn:E; [done|]. apply put_result_inr in E as (f & f' & E).
  apply write_info_retrusted in E. simpl. by eapply retrusted_trans.
Qed.

Lemma send_entries_retrusted tick g terms oldClient onlyTrusted l : forall a,
  Forall2 retrusted l (send_entries realloc float_cmp protocol_10 tick g terms oldClient onlyTrusted l a).1.1.
Proof.
  induction l as [|e l IH]; intros a; simpl; [constructor|].
  assert (Forall2 retrusted l l) as Hrefl by (clear; induction l; constructor; [apply retrusted_refl|done]).
  pose proof (send_keyword_entry_retrusted tick g terms oldClient onlyTrusted e a) as HE.
  destruct (send_keyword_entry _ _ _ _ _ _ _ _ _ _) as [[e' [x|[]]] a']; simpl in *; [by constructor|by constructor|].
  specialize (IH a'). destruct (send_entries _ _ _ _ _ _ _ _ _ a') as [[l' r] a2]. by constructor.
Qed.

Lemma source_retrusted_refl s : source_retrusted s s.
Proof. split; [done|]. split; [done|]. induction (entryList s.2); constructor; [apply retrusted_refl|done]. Qed.

Lemma send_sources_retrusted tick g terms oldClient onlyTrusted l : forall a,
  Forall2 source_retrusted l (send_sources realloc float_cmp protocol_10 tick g terms oldClient onlyTrusted l a).1.1.
Proof.
  induction l as [|[k s] l IH]; intros a; simpl; [constructor|].
  assert (Forall2 source_retrusted l l) as Hrefl by (clear; induction l; constructor; [apply source_retrusted_refl|done]).
  pose proof (send_entries_retrusted tick g terms oldClient onlyTrusted (entryList s) a) as HE.
  destruct (send_entries _ _ _ _ _ _ _ _ _ a) as [[es [x|[]]] a']; simpl in *; [by constructor; [split_and!|]|by constructor; [split_and!|]|].
  specialize (IH a'). destruct (send_sources _ _ _ _ _ _ _ _ _ a') as [[l' r] a2]. constructor; [by split_and!|done].
Qed.

Lemma Forall2_trans {A} (R : A -> A -> Prop) (HR : forall x y z, R x y -> R y z -> R x z) a b c :
  Forall2 R a b -> Forall2 R b c -> Forall2 R a c.
Proof.
  intros H. revert c. induction H as [|x y a b Hxy _ IH]; intros c Hc; inversion Hc; subst; constructor; eauto.
Qed.

Lemma source_retrusted_trans s1 s2 s3 : source_retrusted s1 s2 -> source_retrusted s2 s3 -> source_retrusted s1 s3.
Proof.
  intros (H1 & H2 & H3) (H4 & H5 & H6). split; [congruence|]. split; [congruence|].
  eapply Forall2_trans; [apply retrusted_trans|exact H3|exact H6].
Qed.

Lemma send_passes_retrusted tick g terms oldClient l a :
  Forall2 source_retrusted l (send_passes realloc float_cmp protocol_10 tick g terms oldClient l a).1.1.
Proof.
  unfold send_passes. pose proof (send_sources_retrusted tick g terms oldClient true l a) as H1.
  destruct (send_sources _ _ _ _ _ _ _ true l a) as [[l1 [x|b]] a1]; [done|]. simpl in H1. destruct (an_count a1 <? 300); [|done].
  pose proof (send_sources_retrusted tick g terms oldClient false l1 a1) as H2.
  destruct (send_sources _ _ _ _ _ _ _ false l1 a1) as [[l2 [x|b2]] a2]; simpl in *;
    (eapply Forall2_trans; [apply source_retrusted_trans|exact H1|exact H2]).
Qed.

(** *** The invariant does not see it *)

Lemma retrusted_ok now e e' : retrusted e e' -> keyword_ok now e -> keyword_ok now e'.
Proof. intros (t & v & ->) ([H1 H2 H3 H4] & Hz & Hb). split; [|done]. by split. Qed.

Lemma retrusted_list now l l' : Forall2 retrusted l l' -> Forall (keyword_ok now) l ->
  Forall (keyword_ok now) l' /\ map (fun e => m_uSize (ke_entry e)) l' = map (fun e => m_uSize (ke_entry e)) l /\
  map publishers l' = map publishers l.
Proof.
  induction 1 as [|e e' l l' He _ IH]; intros H; [done|]. apply Forall_cons in H as [H1 H2]. destruct (IH H2) as (I1 & I2 & I3).
  split; [constructor; [by eapply retrusted_ok|done]|]. destruct He as (t & v & ->). simpl. by rewrite I2, I3.
Qed.

Lemma sources_retrusted now l l' : Forall2 source_retrusted l l' -> Forall (source_ok now) l ->
  Forall (source_ok now) l' /\ map fst l' = map fst l /\
  map publishers (concat (map (fun s => entryList s.2) l')) = map publishers (concat (map (fun s => entryList s.2) l)).
Proof.
  induction 1 as [|[k s] [k' s'] l l' (E1 & E2 & E3) _ IH]; intros H; [done|]. apply Forall_cons in H as [[S1 S2 S3 S4] H].
  simpl in *. subst k'. destruct (IH H) as (I1 & I2 & I3). destruct (retrusted_list now _ _ E3 S2) as (R1 & R2 & R3).
  split; [constructor; [|done]|by rewrite I2, !map_app, R3, I3]. split; simpl; [congruence|done| |by rewrite R2].
  intros E. rewrite E in E3. by apply Forall2_nil_inv_r in E3.
Qed.

End Retrust.

(** ** The index as a state machine *)

Section Machine.

Context {wxcase : wxCase} {doubles : Doubles} {conv : wxConv}.
Context (realloc : list Z -> Z -> option (list Z)) (float_cmp : ESearchTermOp -> Z -> Z -> bool) (protocol_10 : bool)
  (KadID : CUInt128).

(** The calls of the packet handlers, at times that do not run backwards. *)
Inductive index_step : Z * CIndexed -> Z * CIndexed -> Prop :=
| step_keyword n0 now tick keyID srcID entry i : n0 <= now -> fresh_ok entry -> m_bSource (ke_entry entry) = false ->
    index_step (n0, i) (now, (AddKeyword now tick keyID srcID entry i).2)
| step_source n0 now keyID srcID entry i : n0 <= now -> index_step (n0, i) (now, (AddSources now keyID srcID entry i).2)
| step_note n0 now keyID srcID entry i : n0 <= now -> index_step (n0, i) (now, (AddNotes keyID srcID entry i).2)
| step_load n0 now keyID t i : n0 <= now -> index_step (n0, i) (now, (AddLoad now keyID t i).2)
| step_store n0 now keyID i : n0 <= now -> index_step (n0, i) (now, (SendStoreRequest now keyID i).2)
| step_search n0 now tick keyID terms oldClient start i : n0 <= now ->
    index_step (n0, i) (now, (SendValidKeywordResult realloc float_cmp protocol_10 KadID now tick keyID terms oldClient start i).2)
| step_find_sources n0 now keyID start size i : n0 <= now ->
    index_step (n0, i) (now, (SendValidSourceResult realloc KadID now keyID start size i).2).

Lemma index_ok_new now0 now : index_ok now (CIndexed_new now0).
Proof.
  split; [|split; [constructor|constructor|done]|split; [constructor|constructor|done]|split; [constructor|split; [constructor|done]]].
  split; [constructor|constructor|done|done|apply counted_nil].
Qed.

Lemma index_ok_mono n0 now i : index_ok n0 i -> n0 <= now -> index_ok now i.
Proof. intros [H1 H2 H3 H4] Hn. split; try done. by eapply keywords_ok_mono. Qed.

Lemma Clean_ok n0 now i : index_ok n0 i -> n0 <= now -> index_ok now (Clean now i).
Proof.
  intros Hi Hn. unfold Clean. destruct (m_lastClean i >? now); [by eapply index_ok_mono|].
  destruct Hi as [[K1 K2 K3 K4 K5] [S1 S2 S3] N L].
  destruct (clean_keywords_ok n0 now _ Hn K2 (s_globalPublishIPs i)) as [C1 C2].
  pose proof (clean_keywords_flat now (m_Keyword_map i) (s_globalPublishIPs i)) as CF.
  pose proof (clean_entries_spec n0 now (keyword_entries (m_Keyword_map i)) Hn
    (entries_ok n0 i ltac:(by split)) (s_globalPublishIPs i)) as CE.
  destruct (clean_keywords now (m_Keyword_map i) (s_globalPublishIPs i)) as [km g] eqn:Ek. rewrite CF in CE. destruct CE as (E1 & E2 & E3).
  cbn [fst snd] in *. destruct (clean_sources_ok _ now _ S2) as (D1 & D2 & D3).
  assert (length (keyword_entries km) <= length (keyword_entries (m_Keyword_map i)))%nat as HL.
  { rewrite <- (Forall2_length _ _ _ E2). apply length_filter. }
  rewrite K3 in K4. unfold KADEMLIAMAXENTRIES in K4.
  assert (u32 (Z.of_nat (length (keyword_entries km))) = Z.of_nat (length (keyword_entries km))) as Hu by (apply wrap_small; width_lia).
  split; simpl; [split; simpl|split|done|done].
  - by eapply msorted_sub.
  - done.
  - exact Hu.
  - rewrite Hu. unfold KADEMLIAMAXENTRIES. lia.
  - specialize (E3 []). rewrite !app_nil_r in E3. by apply E3.
  - by eapply msorted_sub.
  - done.
  - done.
Qed.

(** The other tables do not matter to the keywords. *)
Lemma keywords_ok_same now i i' : m_Keyword_map i' = m_Keyword_map i -> m_totalIndexKeyword i' = m_totalIndexKeyword i ->
  s_globalPublishIPs i' = s_globalPublishIPs i -> keywords_ok now i -> keywords_ok now i'.
Proof. intros E1 E2 E3 [K1 K2 K3 K4 K5]. split; rewrite ?E1, ?E2, ?E3; done. Qed.

Lemma retrusted_index n0 keyID kh ss i : keywords_ok n0 i -> mfind keyID (m_Keyword_map i) = Some kh ->
  Forall2 source_retrusted (kh_sources kh) ss ->
  keywords_ok n0 (set_keywords (m_totalIndexKeyword i) (mset keyID (mkKeyHash (kh_keyID kh) ss) (m_Keyword_map i)) (s_globalPublishIPs i) i).
Proof.
  intros [K1 K2 K3 K4 K5] E HR. destruct (mfind_Forall _ _ _ _ K1 K2 E) as [H1 H2 H3 H4 H5]. simpl in *.
  destruct (sources_retrusted n0 _ _ HR H3) as (R1 & R2 & R3).
  destruct (flat_mset (fun k : CUInt128 * KeyHash => keyhash_entries k.2) keyID (m_Keyword_map i)) as (R & F1 & F2). rewrite E in F1.
  specialize (F2 (mkKeyHash (kh_keyID kh) ss)). simpl in F1, F2.
  assert (map publishers (keyword_entries (mset keyID (mkKeyHash (kh_keyID kh) ss) (m_Keyword_map i))) ≡ₚ
    map publishers (keyword_entries (m_Keyword_map i))) as HP.
  { unfold keyword_entries. rewrite F1, F2, !map_app. unfold keyhash_entries. simpl. by rewrite R3. }
  assert (length ss = length (kh_sources kh)) as HL by (symmetry; by eapply Forall2_length).
  split; simpl; [by apply msorted_set| | |done|].
  - apply mset_Forall; [|done]. split; simpl; [done| |done| |lia].
    + rewrite msorted_key_order, R2. by apply msorted_key_order.
    + intros ->. simpl in HL. by destruct (kh_sources kh).
  - rewrite K3, <- !(length_map publishers). by rewrite HP.
  - eapply counted_perm; [|exact K5]. symmetry. rewrite <- (map_id (map publishers _)), <- (map_id (map publishers (keyword_entries (m_Keyword_map i)))).
    by apply concat_perm.
Qed.

Lemma index_step_ok s s' : index_step s s' -> index_ok s.1 s.2 -> s.1 <= s'.1 /\ index_ok s'.1 s'.2.
Proof.
  destruct 1 as [n0 now tick keyID srcID entry i Hn He Hb|n0 now keyID srcID entry i Hn|n0 now keyID srcID entry i Hn|n0 now keyID t i Hn|
    n0 now keyID i Hn|n0 now tick keyID terms oldClient start i Hn|n0 now keyID start size i Hn]; simpl; intros Hi; split; try done.
  - destruct Hi as [K S N L]. pose proof (AddKeyword_spec n0 now tick keyID srcID entry i K He) as HA.
    destruct (AddKeyword now tick keyID srcID entry i) as [[ok load] i']. simpl. destruct ok; [|subst i'; eapply index_ok_mono; [by split|done]].
    destruct HA as (from & rest & HA). pose proof (added_ok _ _ _ _ _ _ _ _ _ _ K He Hb Hn HA) as HK. destruct HA as [_ _ _ A4 _ _ _].
    cbv zeta in A4. subst i'. by split.
  - pose proof (index_ok_mono _ _ _ Hi Hn) as [K S N L]. pose proof (AddSources_spec now keyID srcID entry i S) as HA.
    destruct (AddSources now keyID srcID entry i) as [[ok load] i']. cbv zeta in HA. simpl. destruct ok; subst i'; [|by split]. split; try done; [by apply (keywords_ok_same now i)|].
    by apply publish_files_ok.
  - pose proof (index_ok_mono _ _ _ Hi Hn) as [K S N L]. pose proof (AddNotes_spec keyID srcID entry i N) as HA.
    destruct (AddNotes keyID srcID entry i) as [[ok load] i']. cbv zeta in HA. simpl. destruct ok; subst i'; [|by split]. split; try done; [by apply (keywords_ok_same now i)|].
    by apply publish_files_ok.
  - pose proof (index_ok_mono _ _ _ Hi Hn) as [K S N (L1 & L2 & L3)]. unfold AddLoad. destruct (_ >? _); [by split|].
    destruct (mfind keyID (m_Load_map i)) eqn:E; simpl; [by split|]. split; try done; [by apply (keywords_ok_same now i)|]. simpl.
    split; [by apply msorted_set|]. split; [by apply mset_Forall|]. rewrite (mset_perm_fresh _ _ _ E), L3. simpl.
    unfold wrap. norm_pow. rewrite Zplus_mod_idemp_l. f_equal. lia.
  - pose proof (index_ok_mono _ _ _ Hi Hn) as [K S N (L1 & L2 & L3)]. unfold SendStoreRequest.
    destruct (mfind keyID (m_Load_map i)) as [l|] eqn:E; simpl; [|by split]. destruct (_ <? _); simpl; [|by split]. split; try done; [by apply (keywords_ok_same now i)|]. simpl.
    split; [by apply msorted_erase|]. split.
    + apply Forall_forall. intros x Hx. apply (proj1 (Forall_forall _ _) L2). by eapply merase_sub.
    + rewrite L3, (length_merase_found _ _ _ E). unfold wrap. norm_pow. rewrite Zminus_mod_idemp_l. f_equal. lia.
  - unfold SendValidKeywordResult. destruct (mfind keyID (m_Keyword_map i)) as [kh|] eqn:E; simpl; [|by eapply Clean_ok].
    destruct (packet_header _ _ _ _) as [[x|[]] p]; simpl; [by eapply index_ok_mono|].
    pose proof (send_passes_retrusted realloc float_cmp protocol_10 tick (s_globalPublishIPs i) terms oldClient (kh_sources kh) (mkAnswer (0 - start) p [])) as HR.
    destruct (send_passes _ _ _ _ _ _ _ _ _) as [[ss r] a]. simpl in HR. destruct Hi as [K S N L].
    pose proof (retrusted_index n0 keyID kh ss i K E HR) as HK. set (i1 := set_keywords _ _ _ _) in *.
    assert (index_ok n0 i1) as Hi1 by (by split).
    destruct r as [x|[]]; simpl; [by eapply index_ok_mono|]. destruct (send_rest realloc a) as [[x|[]] a']; simpl; [by eapply index_ok_mono|by eapply Clean_ok].
  - unfold SendValidSourceResult. destruct (mfind keyID (m_Sources_map i)) as [h|]; simpl; [|by eapply Clean_ok].
    destruct (send_list _ _ _ _ _ _ _) as [[x|[]] sent]; simpl; [by eapply index_ok_mono|by eapply Clean_ok].
Qed.

End Machine.

(** ** Looking entries up *)

Section Lookup.

Context {wxcase : wxCase} {doubles : Doubles}.

Lemma put_entries_eq keyID srcID es m : found_entries keyID srcID (put_entries keyID srcID es m) = es.
Proof. unfold found_entries, put_entries, found_sources at 1. rewrite mfind_set_eq. simpl. by rewrite mfind_set_eq. Qed.

Lemma put_entries_ne keyID srcID es m k s : (k, s) <> (keyID, srcID) ->
  found_entries k s (put_entries keyID srcID es m) = found_entries k s m.
Proof.
  intros Hne. unfold found_entries, put_entries, found_sources at 1. destruct (decide (k = keyID)) as [->|Hk].
  - rewrite mfind_set_eq. simpl. rewrite mfind_set_ne by congruence. done.
  - by rewrite mfind_set_ne.
Qed.

(** When a publication is accepted: the index has room, the entry is complete and has not expired, and the
    keyword is not full; a keyword that is nearly full takes no republications. *)
Definition accepts (now : Z) (keyID srcID : CUInt128) (e : CEntry) (i : CIndexed) : Prop :=
  m_totalIndexKeyword i <= KADEMLIAMAXENTRIES /\
  m_uSize e <> 0 /\ GetCommonFileName e <> [] /\ GetTagCount e <> 0 /\ now <= m_tLifeTime e /\
  Z.of_nat (length (found_sources keyID (m_Keyword_map i))) <= KADEMLIAMAXINDEX /\
  (found_entries keyID srcID (m_Keyword_map i) <> [] -> Z.of_nat (length (found_sources keyID (m_Keyword_map i))) <= KADEMLIAMAXINDEX - 5000).

Lemma AddKeyword_accepts now tick keyID srcID entry i :
  (AddKeyword now tick keyID srcID entry i).1.1 = true <-> accepts now keyID srcID (ke_entry entry) i.
Proof.
  unfold AddKeyword, accepts, found_entries, found_sources.
  destruct (Z.gtb_spec (m_totalIndexKeyword i) KADEMLIAMAXENTRIES) as [|Htot]; [split; [done|lia]|].
  destruct (_ || _) eqn:Hv.
  { split; [done|]. intros (_ & H1 & H2 & H3 & H4 & _). repeat (apply orb_true_iff in Hv as [Hv|Hv]); try lia.
    destruct (GetCommonFileName (ke_entry entry)); done. }
  apply orb_false_iff in Hv as [Hv Hv4]. apply orb_false_iff in Hv as [Hv Hv3]. apply orb_false_iff in Hv as [Hv1 Hv2].
  assert (GetCommonFileName (ke_entry entry) <> []) as Hn by (by destruct (GetCommonFileName (ke_entry entry))).
  destruct (mfind keyID (m_Keyword_map i)) as [kh|].
  - destruct (Z.gtb_spec (Z.of_nat (length (kh_sources kh))) KADEMLIAMAXINDEX) as [|Hroom]; [split; [done|lia]|].
    destruct (mfind srcID (kh_sources kh)) as [s|].
    + destruct (entryList s) as [|x es].
      * destruct (merge_and_delete _ _ _ _ _). split; [|done]. intros _. split_and!; try done; lia.
      * destruct (Z.gtb_spec (Z.of_nat (length (kh_sources kh))) (KADEMLIAMAXINDEX - 5000)) as [Hhot|Hhot].
        -- split; [done|]. intros (_ & _ & _ & _ & _ & _ & H). specialize (H ltac:(done)). lia.
        -- destruct (take_size _ _) as [from rest]. destruct (merge_and_delete _ _ _ _ _). split; [|done]. intros _. split_and!; try done; lia.
    + destruct (merge_and_delete _ _ _ _ _). split; [|done]. intros _. split_and!; try done; lia.
  - destruct (merge_and_delete _ _ _ _ _). split; [|done]. intros _. simpl. unfold KADEMLIAMAXINDEX. split_and!; try done; lia.
Qed.

End Lookup.

Lemma index_run {wxcase : wxCase} {doubles : Doubles} {conv : wxConv} realloc float_cmp protocol_10 KadID s s' :
  rtc (index_step realloc float_cmp protocol_10 KadID) s s' -> index_ok s.1 s.2 -> s.1 <= s'.1 /\ index_ok s'.1 s'.2.
Proof.
  induction 1 as [s|s1 s2 s3 Hs _ IH]; intros Hok; [split; [lia|done]|].
  destruct (index_step_ok _ _ _ _ _ _ Hs Hok) as [H1 H2]. destruct (IH H2) as [H3 H4]. split; [lia|done].
Qed.

Lemma found_stored {wxcase : wxCase} {doubles : Doubles} n0 keyID srcID i (from : option CKeyEntry) rest : keywords_ok n0 i ->
  found_entries keyID srcID (m_Keyword_map i) ≡ₚ option_list from ++ rest -> forall old, from = Some old -> stored_ok n0 old.
Proof.
  intros Hi HP old ->. destruct (found_entries_ok n0 keyID srcID i Hi) as [F1 _]. rewrite HP in F1. by apply Forall_cons in F1 as [[? _] _].
Qed.

(** ** Properties *)

(** C6: The index keeps its bounds: whatever keywords, sources, notes and loads are published to it, and
    whatever is searched, at times that do not run backwards, every table stays well-formed, its total
    counts its entries, a keyword has at most 50001 sources and the index at most 60001 keyword entries, a
    file has at most 1001 sources and 151 notes, an entry has at most a hundred publishers, and the global
    map counts, for every network, the publishers of all entries. *)
Theorem kad_index_invariant {wxcase : wxCase} {doubles : Doubles} {conv : wxConv} (realloc : list Z -> Z -> option (list Z))
  (float_cmp : ESearchTermOp -> Z -> Z -> bool) (protocol_10 : bool) (KadID : CUInt128) (t0 now : Z) (i : CIndexed) :
  rtc (index_step realloc float_cmp protocol_10 KadID) (t0, CIndexed_new t0) (now, i) ->
  t0 <= now /\ index_ok now i /\
  Forall (fun e => Z.of_nat (length (publishers e)) <= 100) (keyword_entries (m_Keyword_map i)) /\
  forall s, default 0 (s_globalPublishIPs i !! s) = in_subnet s (concat (map publishers (keyword_entries (m_Keyword_map i)))).
Proof.
  intros H. apply index_run in H as [Hn Hi]; [|apply index_ok_new]. cbn [fst snd] in Hn, Hi. split; [done|]. split; [done|]. destruct Hi as [K _ _ _]. split.
  - eapply Forall_impl; [exact (entries_ok _ _ K)|]. intros e [He _]. by eapply stored_few.
  - destruct K as [_ _ _ _ [K1 K2]]. intros s. rewrite K2. by case_match eqn:E; [apply Z.eqb_eq in E; rewrite E|].
Qed.

Definition sample_new : @CKeyEntry sample_doubles := sample_entry 258 [97] [hash7].

(** Two publications of a keyword from different networks. *)
Definition sample_step (now : Z) (ip : Z) (i : @CIndexed sample_doubles) : @CIndexed sample_doubles :=
  (@AddKeyword sample_case sample_doubles now 0 (of_uint32 5) (of_uint32 1) (sample_entry ip [97] [hash7]) i).2.

Lemma sample_step_steps n0 now ip i : n0 <= now ->
  @index_step sample_case sample_doubles ascii_conv calloc_4096 (fun _ _ _ => true) true (of_uint32 9) (n0, i) (now, sample_step now ip i).
Proof. intros Hn. apply step_keyword; [done|apply sample_entry_fresh; by right|done]. Qed.

Lemma sample_step_ok n0 now ip i : index_ok n0 i -> n0 <= now -> index_ok now (sample_step now ip i).
Proof. intros Hi Hn. exact (proj2 (index_step_ok _ _ _ _ _ _ (sample_step_steps n0 now ip i Hn) Hi)). Qed.

Lemma kad_index_invariant_witness :
  let i := sample_step 200 258 (sample_step 100 1 (@CIndexed_new sample_doubles 0)) in
  index_ok 200 i /\ default 0 (s_globalPublishIPs i !! 0) = 1 /\ m_totalIndexKeyword i = 1.
Proof.
  intros i.
  pose proof sample_step_steps as HS.
  destruct (@kad_index_invariant sample_case sample_doubles ascii_conv calloc_4096 (fun _ _ _ => true) true (of_uint32 9) 0 200 i) as (_ & H1 & _ & H2).
  - eapply rtc_l; [apply (HS 0 100 1 _); lia|]. eapply rtc_l; [apply (HS 100 200 258 _); lia|]. apply rtc_refl.
  - split; [exact H1|]. split; [rewrite H2; vm_compute; reflexivity|vm_compute; reflexivity].
Defined.

(** C11: Publishing a keyword: a publication is accepted exactly when the index and the keyword have room and
    the entry is complete and current; a refused one changes nothing.  An accepted one puts the entry in
    front of the source's entries, in place of the stored one of the same size, whose reports it takes
    over; the entries of all other sources and keywords stay, and the total grows by one exactly when no
    entry was replaced. *)
Theorem kad_keyword_published {wxcase : wxCase} {doubles : Doubles} (n0 now tick : Z) (keyID srcID : CUInt128) (entry : CKeyEntry) (i : CIndexed) :
  index_ok n0 i -> fresh_ok entry -> n0 <= now ->
  let '(ok, _, i') := AddKeyword now tick keyID srcID entry i in
  (ok = true <-> accepts now keyID srcID (ke_entry entry) i) /\
  (ok = false -> i' = i) /\
  (ok = true -> exists from rest e',
     found_entries keyID srcID (m_Keyword_map i) ≡ₚ option_list from ++ rest /\
     (forall old, from = Some old -> m_uSize (ke_entry old) = m_uSize (ke_entry entry)) /\
     (from = None -> Forall (fun o => m_uSize (ke_entry o) <> m_uSize (ke_entry entry)) rest) /\
     found_entries keyID srcID (m_Keyword_map i') = e' :: rest /\
     reports e' = publish (m_uIP (ke_entry entry)) now (published_hash entry) (old_reports from) /\
     ke_entry e' = set_filenames (names_after now entry from) (ke_entry entry) /\
     m_totalIndexKeyword i' = m_totalIndexKeyword i + (if from then 0 else 1) /\
     forall k s, (k, s) <> (keyID, srcID) -> found_entries k s (m_Keyword_map i') = found_entries k s (m_Keyword_map i)).
Proof.
  intros [K _ _ _] He Hn. pose proof (AddKeyword_accepts now tick keyID srcID entry i) as HA.
  pose proof (AddKeyword_spec n0 now tick keyID srcID entry i K He) as HS.
  destruct (AddKeyword now tick keyID srcID entry i) as [[ok load] i']. simpl in HA. split; [exact HA|].
  destruct ok; [split; [done|]|by split]. intros _. destruct HS as (from & rest & [A1 A2 A3 A4 _ _ _]). cbv zeta in A4.
  destruct (merge_and_delete_spec n0 now tick entry from (s_globalPublishIPs i) He (found_stored n0 keyID srcID i from rest K A1) Hn) as (_ & M2 & M3 & _).
  exists from, rest, (merge_and_delete now tick entry from (s_globalPublishIPs i)).1. subst i'. simpl.
  split_and!; try done; [apply put_entries_eq|]. intros k s Hne. by apply put_entries_ne.
Qed.

Lemma kad_keyword_published_witness :
  let '(ok, _, i') := @AddKeyword sample_case sample_doubles 200 0 (of_uint32 5) (of_uint32 1) sample_new (sample_step 100 1 (CIndexed_new 0)) in
  ok = true /\ map reports (found_entries (of_uint32 5) (of_uint32 1) (m_Keyword_map i')) = [[(1, 100, Some hash7); (258, 200, Some hash7)]].
Proof.
  pose proof (sample_step_ok 0 100 1 _ (index_ok_new 0 0) ltac:(lia)) as Hi.
  pose proof (@kad_keyword_published sample_case sample_doubles 100 200 0 (of_uint32 5) (of_uint32 1) sample_new _ Hi
    (sample_entry_fresh _ _ _ ltac:(by right)) ltac:(lia)) as H.
  set (r := AddKeyword _ _ _ _ _ _) in *.
  assert (r.1 = (true, Some 0) /\ map reports (found_entries (of_uint32 5) (of_uint32 1) (m_Keyword_map r.2)) = [[(1, 100, Some hash7); (258, 200, Some hash7)]]) as [E1 E2]
    by (split; vm_compute; reflexivity).
  clearbody r. destruct r as [[ok load] i']. cbn [fst snd] in E1, E2. injection E1 as -> _. destruct H as (_ & _ & H). split; [done|].
  destruct (H eq_refl) as (from & rest & e' & _). exact E2.
Defined.
