(* ===== verification/KadAnswer.v ===== *)
(** * The answers of a Kad node to searches ([CIndexed::SendValid*Result] of [kademlia/kademlia/Indexed.cpp])

    The definitions are in [KadIndex.v].  Here the packets are followed through the memory file they are
    collected in: the header is written once, fifty entries fill a packet, the file is cut back to the
    header, and the number of entries of the last packet is corrected in place. *)
From stdpp Require Import gmap.
From S2P Require Import Prelude StdMap UInt128 DataIO MemFile Tag AICHHashList KadEntry KadIndex.

(** ** The packets of an answer *)

(** The packet file can grow to the header and fifty entries of [maxlen] bytes. *)
Definition packet_fits (memory_limit maxlen : Z) : Prop := rounded (1024 * 50) (34 + 50 * maxlen) <= memory_limit.

Section Packets.

Context (realloc : list Z -> Z -> option (list Z)) (memory_limit : Z) (limit_ok : 0 <= memory_limit < 2 ^ 62)
  (realloc_ok : forall b n, Z.of_nat (length b) <= n <= memory_limit ->
     exists t, realloc b n = Some (b ++ t) /\ Z.of_nat (length (b ++ t)) = n /\ Forall is_byte t).
Context (KadID keyID : CUInt128).

(** The longest entry of the answer, for which the packet has room fifty times. *)
Context (maxlen : Z) (maxlen_ok : 0 <= maxlen) (packet_room : packet_fits memory_limit maxlen).

#[local] Instance IOF : CFileDataIO CMemFile := CMemFile_IO realloc.
#[local] Abbreviation MIO := (IO CMemFile).
#[local] Instance laws : FileLaws CMemFile := CMemFile_laws realloc memory_limit limit_ok realloc_ok.

Definition ids_bytes : list Z := bytes128 KadID ++ bytes128 keyID.

(** A packet: the identifiers, the number of entries, the entries. *)
Definition packet (l : list (list Z)) : list Z := ids_bytes ++ poke_le 2 (Z.of_nat (length l)) ++ concat l.

(** While it is collected the number stands at fifty. *)
Definition draft (l : list (list Z)) : list Z := ids_bytes ++ poke_le 2 50 ++ concat l.

Lemma ids_length : length ids_bytes = 32%nat.
Proof. unfold ids_bytes, bytes128. rewrite !length_app, !poke_le_length. done. Qed.

Lemma draft_length l : length (draft l) = (34 + length (concat l))%nat.
Proof. unfold draft. rewrite !length_app, ids_length. simpl. lia. Qed.

(** The packet file holds a draft, the position is at its end, and it has room for the rest. *)
Record drafted (p : CMemFile) (l : list (list Z)) : Prop := {
  dr_ok : mem_ok p;
  dr_end : m_position p = m_fileSize p;
  dr_content : mem_content p = draft l;
  dr_room : mem_room memory_limit p (34 + 50 * maxlen - m_position p)
}.

Lemma drafted_position p l : drafted p l -> m_position p = 34 + Z.of_nat (length (concat l)).
Proof.
  intros [H1 H2 H3 _]. rewrite H2, <- (mem_content_length p H1), H3, draft_length. lia.
Qed.

Lemma splice_end {A} (c bs : list A) : splice c (Z.of_nat (length c)) bs = c ++ bs.
Proof. unfold splice. rewrite Nat2Z.id, take_ge, drop_ge by lia. by rewrite app_nil_r. Qed.

Lemma new_room n : 0 <= n <= 34 + 50 * maxlen -> mem_room memory_limit (CMemFile_new (1024 * 50)) n.
Proof.
  intros Hn. unfold mem_room, CMemFile_new. cbn [m_readonly m_position m_BufferSize m_delete m_growthRate]. split; [done|]. right. split; [done|].
  rewrite Z.add_0_l. etrans; [|exact packet_room]. apply rounded_mono; [split; [lia|norm_pow; lia]|lia].
Qed.

Lemma packet_header_drafted : exists p, packet_header realloc KadID keyID (CMemFile_new (1024 * 50)) = (inr tt, p) /\ drafted p [].
Proof.
  assert (writes (packet_header realloc KadID keyID) (draft []) tt) as W.
  { unfold draft, ids_bytes, packet_header. rewrite <- app_assoc. eapply writes_bind; [apply writes_UInt128|].
    eapply writes_bind; [apply writes_UInt128|]. rewrite app_nil_r. by apply (writes_int 2). }
  destruct (W (CMemFile_new (1024 * 50))) as (p & E & Hp & C & P & R).
  - split; done.
  - done.
  - apply new_room. rewrite draft_length. cbn [concat length]. clear W. lia.
  - exists p. split; [exact E|]. change (mem_ok p) in Hp. clear W.
    change (mem_content p = splice [] 0 (draft [])) in C. change (m_position p = 0 + Z.of_nat (length (draft []))) in P.
    rewrite draft_length in P. cbn [concat length] in P.
    assert (mem_content p = draft []) as C' by (rewrite C; generalize (draft []); intros d; exact (splice_end [] d)).
    split; [exact Hp| |exact C'|].
    + rewrite P, <- (mem_content_length p Hp), C', draft_length. done.
    + rewrite P. apply R; clear -maxlen_ok packet_room; [lia|]. rewrite draft_length. apply new_room. cbn [concat length]. lia.
Qed.

(** One more entry. *)
Lemma drafted_write {X} (w : MIO X) p l b (x : X) : drafted p l -> writes w b x ->
  Z.of_nat (length (concat l) + length b) <= 50 * maxlen -> exists p', w p = (inr x, p') /\ drafted p' (l ++ [b]).
Proof.
  intros Hd W Hfit. pose proof (drafted_position p l Hd) as HP. destruct Hd as [D1 D2 D3 D4].
  set (left := 34 + 50 * maxlen - m_position p - Z.of_nat (length b)).
  assert (0 <= left /\ 34 + 50 * maxlen - m_position p = Z.of_nat (length b) + left) as [Hleft Hsum] by (unfold left; clear W; lia).
  rewrite Hsum in D4.
  destruct (W p D1) as (p' & E & Hp & C & P & R).
  { change (m_position p <= m_fileSize p). clear W. lia. }
  { apply (law_room p _ (Z.of_nat (length b) + left)); [done|exact D4|clear W; lia]. }
  clear W. change (mem_ok p') in Hp. change (mem_content p' = splice (mem_content p) (m_position p) b) in C.
  change (m_position p' = m_position p + Z.of_nat (length b)) in P. exists p'. split; [exact E|]. specialize (R left Hleft D4).
  assert (mem_content p' = draft (l ++ [b])) as C'.
  { rewrite C, D2, <- (mem_content_length p D1), splice_end, D3. unfold draft. rewrite concat_app. cbn [concat]. by rewrite app_nil_r, !app_assoc. }
  split; [exact Hp| |exact C'|].
  - rewrite <- (mem_content_length p' Hp), C', draft_length, concat_app, length_app. cbn [concat]. rewrite app_nil_r. clear -P HP. lia.
  - replace (34 + 50 * maxlen - m_position p') with left by (unfold left; clear -P; lia). exact R.
Qed.

Lemma draft_take l : take 34 (draft l) = draft [].
Proof.
  unfold draft. rewrite app_assoc, take_app_le by (rewrite length_app, ids_length; simpl; lia).
  rewrite take_ge by (rewrite length_app, ids_length; simpl; lia). cbn [concat]. by rewrite app_nil_r.
Qed.

(** [packetdata.SetLength(16 + 16 + 2)] *)
Lemma drafted_reset p l : drafted p l -> exists p', SetLength realloc (16 + 16 + 2) p = (inr tt, p') /\ drafted p' [].
Proof.
  intros Hd. pose proof (drafted_position p l Hd) as HP. destruct Hd as [D1 D2 D3 D4]. change (16 + 16 + 2) with 34.
  pose proof D1 as [M1 M2 M3 M4 M5]. destruct D4 as [Hro Hroom]. unfold SetLength. rewrite Hro.
  destruct (Z.gtb_spec 34 (m_BufferSize p)); [lia|]. eexists. split; [reflexivity|].
  assert (mem_content p = draft l) as HC by done. unfold mem_content in HC.
  destruct (Z.ltb_spec 34 (m_position p)).
  - split; simpl; [by split; simpl; try done; lia|done| |].
    + change (take 34 (m_buffer p) = draft []). apply (f_equal (take 34)) in HC. rewrite take_take in HC.
      replace (34 `min` Z.to_nat (m_fileSize p))%nat with 34%nat in HC by lia. rewrite HC. apply draft_take.
    + split; [done|]. simpl. destruct Hroom as [Hr|[Hd Hr]]; [left; lia|right; split; [done|]].
      replace (34 + (34 + 50 * maxlen - 34)) with (m_position p + (34 + 50 * maxlen - m_position p)) by lia. exact Hr.
  - assert (concat l = []) as Hnil by (apply length_zero_iff_nil; lia).
    split; simpl; [by split; simpl; try done; lia|lia| |].
    + change (take (Z.to_nat 34) (m_buffer p) = draft []). replace (m_fileSize p) with 34 in HC by lia. rewrite HC. unfold draft. by rewrite Hnil.
    + split; [done|]. simpl. exact Hroom.
Qed.

Lemma splice_draft l : splice (draft l) 32 (poke_le 2 (Z.of_nat (length l))) = packet l.
Proof.
  unfold splice, draft, packet. rewrite poke_le_length. pose proof ids_length as HI.
  assert (length (poke_le 2 50) = 2%nat) as HP by apply poke_le_length. generalize dependent (poke_le 2 50).
  generalize (poke_le 2 (Z.of_nat (length l))), (concat l). revert HI. generalize ids_bytes. change (Z.to_nat 32) with 32%nat. clear.
  intros ids HI b bs d HP. rewrite take_app_le, take_ge by lia. f_equal. f_equal. rewrite drop_app_ge by lia.
  rewrite HI. change (32 + 2 - 32)%nat with 2%nat. rewrite <- HP. apply drop_app_length.
Qed.

(** [packetdata.Seek(16 + 16); packetdata.WriteUInt16(countLeft)] *)
Lemma drafted_finish p l : drafted p l -> Z.of_nat (length l) < 65536 -> exists p',
  io_bind (Seek (16 + 16) wxFromStart) (fun _ => WriteUInt16 (Z.of_nat (length l))) p = (inr tt, p') /\ mem_content p' = packet l.
Proof.
  intros Hd Hl. pose proof (drafted_position p l Hd) as HP. destruct Hd as [D1 D2 D3 D4]. change (16 + 16) with 32.
  unfold io_bind at 1. assert (Seek 32 wxFromStart p = (inr 32, set_mem_position 32 p)) as -> by reflexivity.
  assert (mem_ok (set_mem_position 32 p)) as H1 by (apply mem_ok_position; [done|norm_pow; lia]).
  assert (mem_content (set_mem_position 32 p) = draft l) as C1 by exact D3.
  pose proof (mem_content_length _ H1) as HL. rewrite C1, draft_length in HL.
  assert (mem_room memory_limit (set_mem_position 32 p) 2) as HR.
  { destruct D4 as [Hro _], D1 as [_ _ M3 _ _]. split; [exact Hro|]. left. unfold set_mem_position. cbn [m_position m_BufferSize].
    clear -M3 D2 HP. lia. }
  destruct (writes_int 2 (Z.of_nat (length l)) ltac:(done) (set_mem_position 32 p) H1) as (p2 & E2 & H2 & C2 & P2 & _).
  - change (m_position (set_mem_position 32 p) <= m_fileSize (set_mem_position 32 p)). rewrite <- HL. unfold set_mem_position. cbn [m_position]. lia.
  - exact HR.
  - exists p2. split; [exact E2|].
    change (mem_content p2 = splice (mem_content (set_mem_position 32 p)) (m_position (set_mem_position 32 p)) (poke_le 2 (Z.of_nat (length l)))) in C2.
    rewrite C2, C1. exact (splice_draft l).
Qed.

(** What has been collected, after the results [T]: the first [start] are skipped, [max] are sent. *)
Record answering (start : nat) (max : nat) (T : list (list Z)) (a : Answer) (chunks : list (list (list Z))) (pending : list (list Z)) : Prop := {
  as_sent : an_sent a = map packet chunks;
  as_full : Forall (fun c => length c = 50%nat) chunks;
  as_pending : (length pending < 50)%nat;
  as_drafted : drafted (an_packet a) pending;
  as_results : concat chunks ++ pending = take max (drop start T);
  as_count : an_count a = Z.min (Z.of_nat max) (Z.of_nat (length T) - Z.of_nat start);
  as_short : Forall (fun b => Z.of_nat (length b) <= maxlen) pending
}.

Lemma concat_short (l : list (list Z)) : Forall (fun b => Z.of_nat (length b) <= maxlen) l -> Z.of_nat (length (concat l)) <= Z.of_nat (length l) * maxlen.
Proof. induction 1 as [|b l Hb _ IH]; [done|]. cbn [concat]. rewrite length_app. simpl length. lia. Qed.

Lemma full_length (chunks : list (list (list Z))) : Forall (fun c => length c = 50%nat) chunks -> length (concat chunks) = (50 * length chunks)%nat.
Proof. induction 1 as [|c l Hc _ IH]; [done|]. cbn [concat]. rewrite length_app, Hc. simpl length. lia. Qed.

Lemma draft_full c : length c = 50%nat -> draft c = packet c.
Proof. intros H. unfold draft, packet. by rewrite H. Qed.

(** A result that is skipped, and one behind a full answer. *)
Lemma answering_skip start max T a chunks pending r : answering start max T a chunks pending -> an_count a < 0 ->
  answering start max (T ++ [r]) (count_only a) chunks pending.
Proof.
  intros [A1 A2 A3 A4 A5 A6 A7] Hc. split; try done; [|simpl; rewrite A6, length_app; simpl; lia].
  rewrite A5, !drop_ge by (rewrite ?length_app; simpl; lia). done.
Qed.

Lemma answering_full start max T T' a chunks pending : answering start max T a chunks pending -> an_count a >= Z.of_nat max ->
  answering start max (T ++ T') a chunks pending.
Proof.
  intros [A1 A2 A3 A4 A5 A6 A7] Hc. split; try done; [|rewrite A6, length_app; lia].
  rewrite A5. destruct max as [|max]; [done|]. rewrite drop_app_le by lia. rewrite take_app_le; [done|]. rewrite length_drop. lia.
Qed.

(** A result that is sent. *)
Lemma answering_put {X} start max T a chunks pending id (w : MIO X) b (x : X) : answering start max T a chunks pending ->
  0 <= an_count a < Z.of_nat max -> writes w b x -> Z.of_nat (length (bytes128 id ++ b)) <= maxlen ->
  exists a' chunks' pending', put_result realloc id w a = (inr x, a') /\
    answering start max (T ++ [bytes128 id ++ b]) a' chunks' pending' /\ an_count a' = an_count a + 1.
Proof.
  intros [A1 A2 A3 A4 A5 A6 A7] Hc W Hlen. set (r := bytes128 id ++ b) in *.
  assert (writes (io_bind (WriteUInt128 id) (fun _ => w)) r x) as W2 by (eapply writes_bind; [apply writes_UInt128|exact W]). clear W.
  pose proof (concat_short pending A7) as HS.
  assert (Z.of_nat (length (concat pending) + length r) <= 50 * maxlen) as Hfit by (clear W2; nia).
  destruct (drafted_write _ _ _ r x A4 W2 Hfit) as (p & E & Hp). clear W2.
  assert (take max (drop start (T ++ [r])) = (concat chunks ++ pending) ++ [r]) as HT.
  { rewrite A5, drop_app_le by lia. rewrite (take_ge (drop start T)) by (rewrite length_drop; lia). rewrite take_ge; [done|].
    rewrite length_app, length_drop. simpl. lia. }
  pose proof (f_equal length A5) as HL. rewrite length_app, full_length, length_take, length_drop in HL by done.
  assert (an_count a = 50 * Z.of_nat (length chunks) + Z.of_nat (length pending)) as HC by lia.
  assert (Forall (fun b => Z.of_nat (length b) <= maxlen) (pending ++ [r])) as HF by (apply Forall_app; split; [done|by apply Forall_singleton]).
  unfold put_result. change (io_bind (@WriteUInt128 CMemFile (CMemFile_IO realloc) id) (fun _ : unit => w)) with (io_bind (WriteUInt128 id) (fun _ => w)).
  rewrite E. destruct (Z.eqb_spec ((an_count a + 1) mod 50) 0) as [Hz|Hz].
  - assert (length (pending ++ [r]) = 50%nat) as H50 by (rewrite length_app; simpl; lia).
    destruct (drafted_reset p _ Hp) as (p' & E' & Hp'). rewrite E'. eexists _, (chunks ++ [pending ++ [r]]), []. split; [reflexivity|].
    split; [|done]. split; cbn [an_sent an_count an_packet].
    + rewrite A1, map_app. cbn [map]. rewrite (dr_content _ _ Hp), draft_full by done. done.
    + apply Forall_app. split; [done|]. by apply Forall_singleton.
    + simpl. lia.
    + done.
    + rewrite HT, concat_app. cbn [concat]. by rewrite !app_nil_r, app_assoc.
    + rewrite A6, length_app. simpl. lia.
    + constructor.
  - eexists _, chunks, (pending ++ [r]). split; [reflexivity|]. split; [|done]. split; cbn [an_sent an_count an_packet]; try done.
    + rewrite length_app. simpl. lia.
    + by rewrite HT, app_assoc.
    + rewrite A6, length_app. simpl. lia.
Qed.

(** The end of the answer: packets of fifty entries, and one with the rest. *)
Lemma answering_rest start max T a chunks pending : answering start max T a chunks pending -> Z.of_nat max < 65536 ->
  exists a', send_rest realloc a = (inr tt, a') /\
    an_sent a' = map packet (chunks ++ if bool_decide (pending = []) then [] else [pending]).
Proof.
  intros [A1 A2 A3 A4 A5 A6 A7] Hm. pose proof (f_equal length A5) as HL. rewrite length_app, full_length, length_take, length_drop in HL by done.
  unfold send_rest. destruct (Z.gtb_spec (an_count a) 0) as [Hc|Hc].
  - assert (an_count a = 50 * Z.of_nat (length chunks) + Z.of_nat (length pending)) as HC by lia.
    rewrite wrap_small by width_lia.
    assert (an_count a mod 50 = Z.of_nat (length pending)) as -> by (rewrite HC; lia).
    destruct (Z.eqb_spec (Z.of_nat (length pending)) 0) as [H0|H0].
    + assert (pending = []) as -> by (apply length_zero_iff_nil; lia). exists a. rewrite bool_decide_eq_true_2, app_nil_r by done. done.
    + rewrite bool_decide_eq_false_2 by (intros ->; done). destruct (drafted_finish _ _ A4 ltac:(lia)) as (p & E & C). cbn [andb negb].
      change (io_bind (@Seek CMemFile (CMemFile_IO realloc) (16 + 16) wxFromStart) (fun _ : Z => @WriteUInt16 CMemFile (CMemFile_IO realloc) (Z.of_nat (length pending))))
        with (io_bind (Seek (16 + 16) wxFromStart) (fun _ => WriteUInt16 (Z.of_nat (length pending)))).
      rewrite E. eexists. split; [reflexivity|]. cbn [an_sent]. rewrite A1, C, map_app. done.
  - assert (length chunks = 0 /\ length pending = 0)%nat as [H1 H2] by lia. cbn [andb]. exists a.
    apply length_zero_iff_nil in H1, H2. subst. rewrite bool_decide_eq_true_2 by done. done.
Qed.

(** *** Collecting what is found

    The entries [M] that were found are all counted, but of those behind the start only the fitting ones
    are sent. *)
Section Searching.

Context {E : Type} (fits : E -> bool) (result : E -> list Z -> Prop)
  (result_short : forall e r, result e r -> Z.of_nat (length r) <= maxlen).

Definition skim (start : nat) (M : list E) : list E := take start M ++ filter (fun e => fits e = true) (drop start M).

Definition searching (start max : nat) (M : list E) (a : Answer) (chunks : list (list (list Z))) (pending : list (list Z)) : Prop :=
  exists T, Forall2 result (skim start M) T /\ answering start max T a chunks pending.

Lemma skim_before start M x : (length M < start)%nat -> skim start (M ++ [x]) = skim start M ++ [x].
Proof.
  intros H. unfold skim. rewrite !(drop_ge), !take_ge by (rewrite ?length_app; simpl; lia). by rewrite !app_nil_r.
Qed.

Lemma skim_behind start M M' : (start <= length M)%nat -> skim start (M ++ M') = skim start M ++ filter (fun e => fits e = true) M'.
Proof. intros H. unfold skim. by rewrite take_app_le, drop_app_le, filter_app, app_assoc by lia. Qed.

Lemma skim_length start M : (start <= length M)%nat <-> (start <= length (skim start M))%nat.
Proof.
  unfold skim. rewrite length_app, length_take. destruct (decide (start <= length M)%nat); [lia|].
  rewrite drop_ge by lia. simpl. lia.
Qed.

Lemma drop_skim start M : drop start (skim start M) = filter (fun e => fits e = true) (drop start M).
Proof.
  unfold skim. destruct (decide (start <= length M)%nat).
  - rewrite drop_app_ge by (rewrite length_take; lia). rewrite length_take.
    replace (start - start `min` length M)%nat with 0%nat by lia. done.
  - rewrite (drop_ge M) by lia. simpl. rewrite app_nil_r, drop_ge by (rewrite length_take; lia). done.
Qed.

Lemma searching_count start max M a chunks pending : searching start max M a chunks pending ->
  (an_count a < 0 -> (length M < start)%nat) /\ (0 <= an_count a -> (start <= length M)%nat) /\ an_count a <= Z.of_nat max.
Proof.
  intros (T & HT & [_ _ _ _ _ A6 _]). apply Forall2_length in HT. pose proof (skim_length start M) as HS. lia.
Qed.

Lemma searching_skip start max M a chunks pending x : searching start max M a chunks pending -> an_count a < 0 ->
  (exists r, result x r) -> searching start max (M ++ [x]) (count_only a) chunks pending.
Proof.
  intros Hs Hc [r Hr]. pose proof (searching_count _ _ _ _ _ _ Hs) as [HM _]. destruct Hs as (T & HT & HA).
  exists (T ++ [r]). split; [|by apply answering_skip]. rewrite skim_before by auto. apply Forall2_app; [done|]. by repeat constructor.
Qed.

Lemma searching_unfit start max M a chunks pending x : searching start max M a chunks pending -> 0 <= an_count a ->
  fits x = false -> searching start max (M ++ [x]) a chunks pending.
Proof.
  intros Hs Hc Hx. pose proof (searching_count _ _ _ _ _ _ Hs) as (_ & HM & _). destruct Hs as (T & HT & HA).
  exists T. split; [|done]. rewrite skim_behind by auto. rewrite filter_cons_False by congruence. by rewrite app_nil_r.
Qed.

Lemma searching_full start max M M' a chunks pending : searching start max M a chunks pending -> Z.of_nat max <= an_count a ->
  Forall (fun x => exists r, result x r) M' -> searching start max (M ++ M') a chunks pending.
Proof.
  intros Hs Hc HM'. pose proof (searching_count _ _ _ _ _ _ Hs) as (_ & HM & _). destruct Hs as (T & HT & HA).
  assert (exists T', Forall2 result (filter (fun e => fits e = true) M') T') as [T' HT'].
  { induction HM' as [|x M' [r Hr] _ [T' IH]]; [by exists []|]. rewrite filter_cons. destruct (decide (fits x = true)); [|by exists T'].
    exists (r :: T'). by constructor. }
  exists (T ++ T'). split; [|apply answering_full; [done|lia]]. rewrite skim_behind by (apply HM; lia). by apply Forall2_app.
Qed.

Lemma searching_put {X} start max M a chunks pending x id (w : MIO X) b (y : X) : searching start max M a chunks pending ->
  0 <= an_count a < Z.of_nat max -> fits x = true -> writes w b y -> result x (bytes128 id ++ b) ->
  exists a' chunks' pending', put_result realloc id w a = (inr y, a') /\ searching start max (M ++ [x]) a' chunks' pending' /\
    an_count a' = an_count a + 1.
Proof.
  intros Hs Hc Hx W Hr. pose proof (searching_count _ _ _ _ _ _ Hs) as (_ & HM & _). destruct Hs as (T & HT & HA).
  destruct (answering_put start max T a chunks pending id w b y HA Hc W (result_short _ _ Hr)) as (a' & chunks' & pending' & E1 & A' & C').
  exists a', chunks', pending'. split; [exact E1|]. split; [|exact C']. exists (T ++ [bytes128 id ++ b]). split; [|exact A'].
  rewrite skim_behind by (apply HM; clear W; lia). rewrite filter_cons_True by done. apply Forall2_app; [done|]. by repeat constructor.
Qed.

(** At the end: every packet but the last has fifty results, the last one fewer, and together they hold the
    fitting results behind the start, up to the limit. *)
Lemma searching_rest start max M a chunks pending : searching start max M a chunks pending -> Z.of_nat max < 65536 ->
  exists rs full rest, Forall2 result (take max (filter (fun e => fits e = true) (drop start M))) rs /\
    (exists a', send_rest realloc a = (inr tt, a') /\ an_sent a' = map packet (full ++ rest)) /\
    concat (full ++ rest) = rs /\ Forall (fun c => length c = 50%nat) full /\
    (rest = [] \/ exists c, rest = [c] /\ (0 < length c < 50)%nat).
Proof.
  intros (T & HT & HA) Hm. destruct (answering_rest _ _ _ _ _ _ HA Hm) as (a' & E1 & E2). destruct HA as [A1 A2 A3 A4 A5 A6 A7].
  exists (take max (drop start T)), chunks, (if bool_decide (pending = []) then [] else [pending]). split.
  { rewrite <- drop_skim. by apply Forall2_take, Forall2_drop. }
  split; [by exists a'|]. rewrite concat_app, <- A5. case_bool_decide as Hp.
  - subst pending. split; [done|]. split; [done|by left].
  - split; [by simpl; rewrite app_nil_r|]. split; [done|]. right. exists pending. split; [done|]. destruct pending; [done|]. simpl in *. lia.
Qed.

End Searching.

Lemma searching_start {E} (fits : E -> bool) result start max p : drafted p [] -> 0 <= start ->
  searching fits result (Z.to_nat start) max [] (mkAnswer (0 - start) p []) [] [].
Proof.
  intros Hp Hs. exists []. split; [unfold skim; rewrite take_nil, drop_nil; constructor|]. split; cbn [an_sent an_count an_packet]; try done.
  - simpl. lia.
  - by rewrite drop_nil, take_nil.
  - simpl. lia.
Qed.

(** *** Sources and notes *)

Section Files.

Context {conv : wxConv}.

Definition heads (l : list (Source CEntry)) : list CEntry := concat (map (fun s => take 1 (entryList s)) l).

Definition size_fits (fileSize : Z) (e : CEntry) : bool := (fileSize =? 0) || (m_uSize e =? 0) || (m_uSize e =? fileSize).

(** What is sent of an entry. *)
Definition file_result (e : CEntry) (r : list Z) : Prop :=
  Z.of_nat (length r) <= maxlen /\ exists b, r = bytes128 (m_uSourceID e) ++ b /\ writes (WriteTagList e) b tt.

Lemma send_files_spec max fileSize start l : (0 < max < 65536)%Z -> Forall (fun e => exists r, file_result e r) (heads l) ->
  forall M a chunks pending, searching (size_fits fileSize) file_result start (Z.to_nat max) M a chunks pending ->
  exists a' chunks' pending', send_files realloc max fileSize l a = (inr tt, a') /\
    searching (size_fits fileSize) file_result start (Z.to_nat max) (M ++ heads l) a' chunks' pending'.
Proof.
  intros Hmax. induction l as [|s l IH]; intros Hl M a chunks pending Hs; [exists a, chunks, pending; split; [done|]; unfold heads; simpl; by rewrite app_nil_r|].
  unfold heads in *. cbn [map concat] in *. cbn [send_files]. destruct (entryList s) as [|e es]; [by eapply (IH Hl)|].
  apply Forall_app in Hl as [He Hl]. change (take 1 (e :: es)) with [e] in *. pose proof (proj1 (Forall_singleton _ _) He) as He1. rewrite app_assoc.
  pose proof (searching_count _ _ _ _ _ _ _ _ Hs) as (_ & _ & Hle).
  destruct (Z.ltb_spec (an_count a) 0) as [Hc|Hc]; [eapply (IH Hl); eapply searching_skip; [exact Hs|exact Hc|exact He1]|].
  destruct (Z.ltb_spec (an_count a) max) as [Hm|Hm].
  - destruct (size_fits fileSize e) eqn:Hf; unfold size_fits in Hf; rewrite Hf; [|eapply (IH Hl); by eapply searching_unfit].
    destruct He1 as (r & Hr1 & b & -> & W).
    assert (0 <= an_count a < Z.of_nat (Z.to_nat max)) as Hc2 by (clear -Hc Hm; lia).
    assert (file_result e (bytes128 (m_uSourceID e) ++ b)) as Hr by (split; [exact Hr1|exists b; split; [reflexivity|exact W]]).
    destruct (searching_put (size_fits fileSize) file_result (fun _ _ H => proj1 H) start (Z.to_nat max) M a chunks pending e (m_uSourceID e) _ b tt Hs
      Hc2 Hf W Hr) as (a' & c' & p' & E & Hs' & _). clear W.
    change (@WriteTagList CMemFile (CMemFile_IO realloc) conv e) with (WriteTagList e). rewrite E. exact (IH Hl _ _ _ _ Hs').
  - exists a, chunks, pending. split; [reflexivity|]. rewrite <- app_assoc. apply searching_full; [exact Hs|clear -Hm Hmax; lia|]. by apply Forall_app.
Qed.

(** The answer: packets of fifty results each, and one with the rest. *)
Definition answered (rs : list (list Z)) (sent : list (list Z)) : Prop :=
  exists full rest, sent = map packet (full ++ rest) /\ concat (full ++ rest) = rs /\ Forall (fun c => length c = 50%nat) full /\
    (rest = [] \/ exists c, rest = [c] /\ (0 < length c < 50)%nat).

Lemma send_list_spec max fileSize start l : 0 < max < 65536 -> 0 <= start -> Forall (fun e => exists r, file_result e r) (heads l) ->
  exists rs sent, send_list realloc KadID keyID max fileSize start l = (inr tt, sent) /\
    Forall2 file_result (take (Z.to_nat max) (filter (fun e => size_fits fileSize e = true) (drop (Z.to_nat start) (heads l)))) rs /\
    answered rs sent.
Proof.
  intros Hmax Hst Hl. assert (Z.of_nat (Z.to_nat max) < 65536) as Hsmall by (clear -Hmax; lia).
  destruct packet_header_drafted as (p & Ep & Hp).
  destruct (send_files_spec max fileSize (Z.to_nat start) l Hmax Hl _ _ _ _ (searching_start (size_fits fileSize) file_result start (Z.to_nat max) p Hp Hst))
    as (a & chunks & pending & E & Hs).
  destruct (searching_rest _ _ _ _ _ _ _ _ Hs Hsmall) as (rs & full & rest & R1 & (a' & R2 & R3) & R4 & R5 & R6).
  exists rs, (an_sent a'). split; [|split; [exact R1|exists full, rest; repeat (split; [assumption|]); assumption]].
  unfold send_list. rewrite Ep, E, R2. reflexivity.
Qed.

End Files.

(** *** Keywords *)

Section Keywords.

Context {wxcase : wxCase} {doubles : Doubles} {conv : wxConv}.
Context (float_cmp : ESearchTermOp -> Z -> Z -> bool) (protocol_10 : bool) (tick : Z) (g : gmap Z Z) (terms : option SSearchTerm)
  (oldClient : bool).

(** The entry with its trust up to date. *)
Definition trusted_now (e : CKeyEntry) : CKeyEntry := (GetTrustValue tick g e).2.

Lemma trusted_now_twice e : trusted_now (trusted_now e) = trusted_now e.
Proof.
  unfold trusted_now, GetTrustValue. cbn [snd]. destruct (u64 (tick - m_lastTrustValueCalc e) >? 10 * 60 * 1000) eqn:E; [|by rewrite E].
  unfold ReCalculateTrustValue. destruct (m_publishingIPs e) as [l|] eqn:El.
  - simpl. rewrite Z.sub_diag. done.
  - rewrite E, El. done.
Qed.

Lemma trusted_now_entry e : ke_entry (trusted_now e) = ke_entry e.
Proof. unfold trusted_now, GetTrustValue, ReCalculateTrustValue. cbn [snd]. destruct (_ >? _); [|done]. by destruct (m_publishingIPs e). Qed.

(** The entries that a pass is for. *)
Definition in_pass (onlyTrusted : bool) (e : CKeyEntry) : bool :=
  xorb onlyTrusted (d_below_one (m_trustValue (trusted_now e))) &&
  match terms with None => true | Some t => SearchTermsMatch float_cmp (ke_entry e) t end.

Definition old_fits (e : CKeyEntry) : bool := negb oldClient || (m_uSize (ke_entry e) <=? OLD_MAX_FILE_SIZE).

(** What is sent of an entry. *)
Definition keyword_result (e : CKeyEntry) (r : list Z) : Prop :=
  Z.of_nat (length r) <= maxlen /\ exists b, r = bytes128 (m_uSourceID (ke_entry e)) ++ b /\
    writes (WriteTagListWithPublishInfo protocol_10 tick g (trusted_now e)) b (trusted_now e).

Definition max300 : nat := Z.to_nat 300.

#[local] Abbreviation found := (searching old_fits keyword_result).

(** [x] is the entry [e], before or after its trust was computed. *)
Definition same_now (e x : CKeyEntry) : Prop := trusted_now x = trusted_now e.

Lemma send_keyword_entry_spec onlyTrusted start e x M a chunks pending : same_now e x -> (exists r, keyword_result e r) ->
  found start max300 M a chunks pending ->
  exists stop a' chunks' pending', send_keyword_entry realloc float_cmp protocol_10 tick g terms oldClient onlyTrusted x a = (trusted_now e, inr stop, a') /\
    found start max300 (M ++ filter (fun e => in_pass onlyTrusted e = true) [e]) a' chunks' pending' /\ (stop = true -> 300 <= an_count a').
Proof.
  intros Hx Hr Hs. assert (ke_entry (trusted_now e) = ke_entry e) as He by apply trusted_now_entry.
  unfold send_keyword_entry. assert (GetTrustValue tick g x = (m_trustValue (trusted_now e), trusted_now e)) as ->.
  { rewrite <- Hx. reflexivity. }
  rewrite He. rewrite filter_cons, filter_nil. fold (in_pass onlyTrusted e). destruct (in_pass onlyTrusted e) eqn:Hp.
  2:{ rewrite decide_False by done. rewrite app_nil_r. exists false, a, chunks, pending. split_and!; done. }
  rewrite decide_True by done. pose proof (searching_count _ _ _ _ _ _ _ _ Hs) as (_ & _ & Hle).
  destruct (Z.ltb_spec (an_count a) 0) as [Hc|Hc].
  { eexists false, _, chunks, pending. split; [reflexivity|]. split; [by apply searching_skip|done]. }
  assert (an_count a <= 300) as Hle3 by exact Hle. clear Hle.
  rewrite (wrap_small 16) by (clear -Hc Hle3; width_lia).
  destruct (Z.ltb_spec (an_count a) 300) as [Hm|Hm].
  2:{ exists true, a, chunks, pending. split; [reflexivity|]. split; [|intros _; exact Hm].
      apply searching_full; [exact Hs|exact Hm|]. apply Forall_singleton. exact Hr. }
  fold (old_fits e). destruct (old_fits e) eqn:Hf.
  2:{ exists false, a, chunks, pending. split; [reflexivity|]. split; [by apply searching_unfit|done]. }
  destruct Hr as (r & Hr1 & b & -> & W).
  assert (keyword_result e (bytes128 (m_uSourceID (ke_entry e)) ++ b)) as Hr by (split; [exact Hr1|exists b; split; [reflexivity|exact W]]).
  destruct (searching_put old_fits keyword_result (fun _ _ H => proj1 H) start max300 M a chunks pending e (m_uSourceID (ke_entry e)) _ b (trusted_now e) Hs
    (conj Hc Hm) Hf W Hr) as (a' & c' & p' & E & Hs' & _). clear W.
  change (@WriteTagListWithPublishInfo doubles CMemFile (CMemFile_IO realloc) conv protocol_10 tick g (trusted_now e))
    with (WriteTagListWithPublishInfo protocol_10 tick g (trusted_now e)). rewrite E.
  exists false, a', c', p'. split; [reflexivity|]. split; [exact Hs'|done].
Qed.

Lemma send_entries_spec onlyTrusted start l xs : Forall2 same_now l xs -> Forall (fun e => exists r, keyword_result e r) l ->
  forall M a chunks pending, found start max300 M a chunks pending ->
  exists xs' stop a' chunks' pending', send_entries realloc float_cmp protocol_10 tick g terms oldClient onlyTrusted xs a = (xs', inr stop, a') /\
    found start max300 (M ++ filter (fun e => in_pass onlyTrusted e = true) l) a' chunks' pending' /\
    (if stop : bool then 300 <= an_count a' else xs' = map trusted_now l).
Proof.
  induction 1 as [|e x l xs Hx _ IH]; intros Hl M a chunks pending Hs.
  { exists [], false, a, chunks, pending. rewrite filter_nil, app_nil_r. done. }
  apply Forall_cons in Hl as [He Hl]. change (e :: l) with ([e] ++ l). rewrite filter_app, app_assoc.
  destruct (send_keyword_entry_spec onlyTrusted start e x M a chunks pending Hx He Hs) as (stop & a1 & c1 & p1 & E1 & Hs1 & Hstop).
  cbn [send_entries]. rewrite E1. destruct stop.
  - eexists _, true, a1, c1, p1. split; [reflexivity|]. split; [|by apply Hstop]. apply searching_full; [exact Hs1|exact (Hstop eq_refl)|].
    apply Forall_forall. intros y Hy. apply list_elem_of_filter in Hy as [_ Hy]. exact (proj1 (Forall_forall _ _) Hl y Hy).
  - destruct (IH Hl _ _ _ _ Hs1) as (xs' & stop & a2 & c2 & p2 & E2 & Hs2 & H2). rewrite E2.
    eexists _, stop, a2, c2, p2. split; [reflexivity|]. split; [exact Hs2|]. destruct stop; [exact H2|]. by rewrite H2.
Qed.

Definition flat (l : list (CUInt128 * Source CKeyEntry)) : list CKeyEntry := concat (map (fun s => entryList s.2) l).

Lemma send_entries_app onlyTrusted l1 l2 : forall a,
  send_entries realloc float_cmp protocol_10 tick g terms oldClient onlyTrusted (l1 ++ l2) a =
  match send_entries realloc float_cmp protocol_10 tick g terms oldClient onlyTrusted l1 a with
  | (l1', inr false, a') =>
      let '(l2', r, a') := send_entries realloc float_cmp protocol_10 tick g terms oldClient onlyTrusted l2 a' in (l1' ++ l2', r, a')
  | (l1', r, a') => (l1' ++ l2, r, a')
  end.
Proof.
  induction l1 as [|e l1 IH]; intros a; cbn [send_entries app].
  - by destruct (send_entries _ _ _ _ _ _ _ _ l2 a) as [[l2' r] a'].
  - destruct (send_keyword_entry _ _ _ _ _ _ _ _ e a) as [[e' [x|[]]] a1]; [done|done|]. rewrite IH.
    destruct (send_entries _ _ _ _ _ _ _ _ l1 a1) as [[l1' [x|[]]] a2]; [done|done|].
    by destruct (send_entries _ _ _ _ _ _ _ _ l2 a2) as [[l2' r] a3].
Qed.

(** The loop over the sources is the loop over all their entries. *)
Lemma send_sources_flat onlyTrusted l : forall a,
  let '(l', r, a') := send_sources realloc float_cmp protocol_10 tick g terms oldClient onlyTrusted l a in
  send_entries realloc float_cmp protocol_10 tick g terms oldClient onlyTrusted (flat l) a = (flat l', r, a').
Proof.
  induction l as [|[k s] l IH]; intros a; [done|]. unfold flat in *. cbn [send_sources map concat snd]. rewrite send_entries_app.
  destruct (send_entries _ _ _ _ _ _ _ _ (entryList s) a) as [[es [x|[]]] a1]; [done|done|]. specialize (IH a1).
  destruct (send_sources _ _ _ _ _ _ _ _ l a1) as [[l' r] a2]. rewrite IH. done.
Qed.

(** What a search finds: the trusted entries, then the others. *)
Definition keyword_matches (l : list CKeyEntry) : list CKeyEntry :=
  filter (fun e => in_pass true e = true) l ++ filter (fun e => in_pass false e = true) l.

Lemma same_now_refl l : Forall2 same_now l l.
Proof. induction l; by constructor. Qed.

Lemma same_now_after l : Forall2 same_now l (map trusted_now l).
Proof. induction l; constructor; [apply trusted_now_twice|done]. Qed.

Lemma send_passes_spec start ss a chunks pending : Forall (fun e => exists r, keyword_result e r) (flat ss) ->
  found start max300 [] a chunks pending ->
  exists ss' a' chunks' pending', send_passes realloc float_cmp protocol_10 tick g terms oldClient ss a = (ss', inr tt, a') /\
    found start max300 (keyword_matches (flat ss)) a' chunks' pending'.
Proof.
  intros Hl Hs. unfold send_passes, keyword_matches. pose proof (send_sources_flat true ss a) as HF.
  destruct (send_entries_spec true start (flat ss) (flat ss) (same_now_refl _) Hl [] a chunks pending Hs) as (xs & stop & a1 & c1 & p1 & E1 & Hs1 & Hstop).
  destruct (send_sources _ _ _ _ _ _ _ true ss a) as [[ss1 r1] a1']. rewrite E1 in HF. injection HF as -> <- <-. cbn [app] in Hs1.
  assert (Forall (fun e => exists r, keyword_result e r) (filter (fun e => in_pass false e = true) (flat ss))) as HN.
  { apply Forall_forall. intros y Hy. apply list_elem_of_filter in Hy as [_ Hy]. exact (proj1 (Forall_forall _ _) Hl y Hy). }
  destruct (Z.ltb_spec (an_count a1) 300) as [Hc|Hc].
  - destruct stop; [exfalso; clear -Hc Hstop; lia|].
    pose proof (send_sources_flat false ss1 a1) as HF2.
    destruct (send_entries_spec false start (flat ss) (flat ss1) ltac:(rewrite Hstop; apply same_now_after) Hl _ _ _ _ Hs1) as (xs2 & stop2 & a2 & c2 & p2 & E2 & Hs2 & _).
    destruct (send_sources _ _ _ _ _ _ _ false ss1 a1) as [[ss2 r2] a2']. rewrite E2 in HF2. injection HF2 as -> <- <-.
    exists ss2, a2, c2, p2. split; [reflexivity|exact Hs2].
  - exists ss1, a1, c1, p1. split; [reflexivity|]. apply searching_full; [exact Hs1|exact Hc|exact HN].
Qed.

End Keywords.

End Packets.

(** ** Properties *)

(** C7: Answers to keyword searches: the entries that match, those of trusted networks first, are counted; the
    first [start] of them are passed over, and of the others that the searcher can use three hundred at
    most are sent, in order, in packets of fifty and a last one with the rest, each with the node, the
    keyword, and its number of results.  The packet file is written and rewound without an error if it
    can grow to fifty entries. *)
Theorem kad_keyword_answer {wxcase : wxCase} {doubles : Doubles} {conv : wxConv} (realloc : list Z -> Z -> option (list Z)) (memory_limit : Z)
  (limit_ok : 0 <= memory_limit < 2 ^ 62)
  (realloc_ok : forall b n, Z.of_nat (length b) <= n <= memory_limit ->
     exists t, realloc b n = Some (b ++ t) /\ Z.of_nat (length (b ++ t)) = n /\ Forall is_byte t)
  (float_cmp : ESearchTermOp -> Z -> Z -> bool) (protocol_10 : bool) (KadID keyID : CUInt128) (maxlen now tick start : Z)
  (terms : option SSearchTerm) (oldClient : bool) (i : CIndexed) (kh : KeyHash) :
  0 <= maxlen -> packet_fits memory_limit maxlen -> 0 <= start -> mfind keyID (m_Keyword_map i) = Some kh ->
  let result := keyword_result realloc memory_limit limit_ok realloc_ok maxlen protocol_10 tick (s_globalPublishIPs i) in
  Forall (fun e => exists r, result e r) (keyhash_entries kh) ->
  let matches := keyword_matches float_cmp tick (s_globalPublishIPs i) terms (keyhash_entries kh) in
  exists rs sent i', SendValidKeywordResult realloc float_cmp protocol_10 KadID now tick keyID terms oldClient start i = (inr tt, sent, i') /\
    Forall2 result (take 300 (filter (fun e => old_fits oldClient e = true) (drop (Z.to_nat start) matches))) rs /\
    answered KadID keyID rs sent.
Proof.
  intros Hmax Hfits Hst Hf result Hl matches.
  destruct (packet_header_drafted realloc memory_limit limit_ok realloc_ok KadID keyID maxlen Hmax Hfits) as (p & Ep & Hp).
  pose proof (searching_start memory_limit limit_ok KadID keyID maxlen (old_fits oldClient) result start max300 p Hp Hst) as Hs.
  destruct (send_passes_spec realloc memory_limit limit_ok realloc_ok KadID keyID maxlen Hmax float_cmp protocol_10 tick (s_globalPublishIPs i)
    terms oldClient (Z.to_nat start) (kh_sources kh) _ _ _ Hl Hs) as (ss & a & chunks & pending & E & Hs').
  destruct (searching_rest realloc memory_limit limit_ok realloc_ok KadID keyID maxlen (old_fits oldClient) result _ _ _ _ _ _ Hs' eq_refl)
    as (rs & full & rest & R1 & (a' & R2 & R3) & R4 & R5 & R6).
  exists rs, (an_sent a'). eexists. split; [|split; [exact R1|exists full, rest; repeat (split; [assumption|]); assumption]].
  unfold SendValidKeywordResult. rewrite Hf, Ep, E, R2. reflexivity.
Qed.

(** Answers to searches for the sources and the notes of a file: of the sources behind the start those of
    the size, or without one, are sent, three hundred at most, and of the notes a hundred and fifty. *)
Theorem kad_file_answer {doubles : Doubles} {conv : wxConv} (realloc : list Z -> Z -> option (list Z)) (memory_limit : Z)
  (limit_ok : 0 <= memory_limit < 2 ^ 62)
  (realloc_ok : forall b n, Z.of_nat (length b) <= n <= memory_limit ->
     exists t, realloc b n = Some (b ++ t) /\ Z.of_nat (length (b ++ t)) = n /\ Forall is_byte t)
  (KadID keyID : CUInt128) (maxlen now start fileSize : Z) (i : CIndexed) (h : SrcHash) :
  0 <= maxlen -> packet_fits memory_limit maxlen -> 0 <= start ->
  let result := file_result realloc memory_limit limit_ok realloc_ok maxlen in
  Forall (fun e => exists r, result e r) (heads (sh_sources h)) ->
  (mfind keyID (m_Sources_map i) = Some h -> exists rs sent,
     SendValidSourceResult realloc KadID now keyID start fileSize i = (inr tt, sent, Clean now i) /\
     Forall2 result (take 300 (filter (fun e => size_fits fileSize e = true) (drop (Z.to_nat start) (heads (sh_sources h))))) rs /\
     answered KadID keyID rs sent) /\
  (mfind keyID (m_Notes_map i) = Some h -> exists rs sent,
     SendValidNoteResult realloc KadID keyID fileSize i = (inr tt, sent) /\
     Forall2 result (take 150 (filter (fun e => size_fits fileSize e = true) (heads (sh_sources h)))) rs /\
     answered KadID keyID rs sent).
Proof.
  intros Hmax Hfits Hst result Hl. split; intros Hf.
  - destruct (send_list_spec realloc memory_limit limit_ok realloc_ok KadID keyID maxlen Hmax Hfits 300 fileSize start _ ltac:(done) Hst Hl)
      as (rs & sent & E & HR & HA).
    exists rs, sent. split; [|split; [exact HR|exact HA]]. unfold SendValidSourceResult. rewrite Hf, E. reflexivity.
  - destruct (send_list_spec realloc memory_limit limit_ok realloc_ok KadID keyID maxlen Hmax Hfits 150 fileSize 0 _ ltac:(done) ltac:(done) Hl)
      as (rs & sent & E & HR & HA).
    exists rs, sent. split; [|split; [exact HR|exact HA]]. unfold SendValidNoteResult. rewrite Hf. exact E.
Qed.

(** An allocator for the packets. *)
Definition calloc_64k (b : list Z) (n : Z) : option (list Z) :=
  if n <=? 65536 then Some (b ++ replicate (Z.to_nat n - length b) 0) else None.

Lemma calloc_64k_ok b n : Z.of_nat (length b) <= n <= 65536 ->
  exists t, calloc_64k b n = Some (b ++ t) /\ Z.of_nat (length (b ++ t)) = n /\ Forall is_byte t.
Proof.
  intros Hn. exists (replicate (Z.to_nat n - length b) 0). unfold calloc_64k.
  rewrite (proj2 (Z.leb_le _ _)) by lia. split; [done|]. rewrite length_app, length_replicate.
  split; [lia|]. by apply Forall_replicate.
Qed.

Lemma limit_64k : 0 <= 65536 < 2 ^ 62.
Proof. done. Qed.

Lemma fits_64k : packet_fits 65536 100.
Proof. vm_compute. congruence. Qed.

Definition sample_file_entry (ip size : Z) : CEntry := mkEntry ip 4662 4672 (of_uint32 1) (of_uint32 2) size 100000 true [mkFileName [97] 1] [].

#[local] Instance IO64 : CFileDataIO CMemFile := CMemFile_IO calloc_64k.
#[local] Instance laws64 : FileLaws CMemFile := CMemFile_laws calloc_64k 65536 limit_64k calloc_64k_ok.

Lemma sample_file_tags : Forall2 (kad_stored (conv := ascii_conv)) (all_tags (sample_file_entry 1 1000)) [[2; 1; 0; 1; 1; 0; 97]; [8; 1; 0; 2; 232; 3]].
Proof.
  constructor; [|constructor; [|constructor]].
  - split; [by apply plain_name|]. eexists. split; [|reflexivity].
    apply (@kad_str ascii_conv [97] [97]). split; [by apply Forall_singleton|]. split; [done|]. by split_and!.
  - split; [by apply plain_name|]. eexists. split; [|reflexivity]. by apply kad_uint16.
Qed.

Lemma sample_file_result ip : file_result (conv := ascii_conv) calloc_64k 65536 limit_64k calloc_64k_ok 100 (sample_file_entry ip 1000)
  (bytes128 (of_uint32 2) ++ poke_le 1 2 ++ concat [[2; 1; 0; 1; 1; 0; 97]; [8; 1; 0; 2; 232; 3]]).
Proof.
  split; [vm_compute; congruence|]. eexists. split; [reflexivity|].
  apply (writes_TagListInc (claws := ascii_laws) (sample_file_entry ip 1000) 0 [[2; 1; 0; 1; 1; 0; 97]; [8; 1; 0; 2; 232; 3]]); [done|done|].
  exact sample_file_tags.
Qed.

(** An index with a source of a file. *)
Definition sample_sources : @CIndexed sample_doubles :=
  (AddSources 100 (of_uint32 7) (of_uint32 2) (sample_file_entry 1 1000) (CIndexed_new 0)).2.

Lemma one_result {A} (l : list A) : 1%nat = length l -> exists x, l = [x].
Proof. destruct l as [|x [|]]; try discriminate. intros _. by exists x. Qed.

Lemma kad_file_answer_witness : exists r sent,
  @SendValidSourceResult sample_doubles ascii_conv calloc_64k (of_uint32 9) 200 (of_uint32 7) 0 1000 sample_sources = (inr tt, sent, Clean 200 sample_sources) /\
  answered (of_uint32 9) (of_uint32 7) [r] sent.
Proof.
  destruct (@kad_file_answer sample_doubles ascii_conv calloc_64k 65536 limit_64k calloc_64k_ok (of_uint32 9) (of_uint32 7) 100 200 0 1000
    sample_sources (mkSrcHash (of_uint32 7) [mkSource (of_uint32 2) [sample_file_entry 1 1000]]) ltac:(done) fits_64k ltac:(done)) as [HS _].
  - apply Forall_singleton. eexists. apply sample_file_result.
  - destruct (HS ltac:(vm_compute; reflexivity)) as (rs & sent & E & HR & HA).
    assert (exists r, rs = [r]) as [r ->].
    { apply Forall2_length in HR. match type of HR with ?n = _ => assert (n = 1%nat) as Hn by (vm_compute; reflexivity) end.
      rewrite Hn in HR. apply one_result. exact HR. }
    exists r, sent. split; [exact E|exact HA].
Defined.

Definition sample_index : @CIndexed sample_doubles := sample_step 200 258 (sample_step 100 1 (CIndexed_new 0)).

Definition sample_stored_entry : @CKeyEntry sample_doubles :=
  match m_Keyword_map sample_index with (_, kh) :: _ => match keyhash_entries kh with e :: _ => e | [] => sample_new end | [] => sample_new end.

Definition sample_info : CTag := with_value TAGTYPE_UINT32 (VInt 16910288) 0 (CTag_named TAG_PUBLISHINFO).

Lemma sample_trust : GetTrustValue 0 (s_globalPublishIPs sample_index) sample_stored_entry = (20000, sample_stored_entry).
Proof. vm_cast_no_check (@eq_refl (Z * @CKeyEntry sample_doubles) (20000, sample_stored_entry)). Qed.

Lemma sample_trusted : trusted_now 0 (s_globalPublishIPs sample_index) sample_stored_entry = sample_stored_entry.
Proof. unfold trusted_now. by rewrite sample_trust. Qed.

Lemma sample_publishers : m_publishingIPs sample_stored_entry = Some [mkPublisher 1 100 0; mkPublisher 258 200 0].
Proof. vm_compute. reflexivity. Qed.

Definition sample_keyhash : @KeyHash sample_doubles := mkKeyHash (of_uint32 5) [(of_uint32 1, mkSource (of_uint32 1) [sample_stored_entry])].

Lemma sample_found : mfind (of_uint32 5) (m_Keyword_map sample_index) = Some sample_keyhash.
Proof. vm_cast_no_check (@eq_refl (option (@KeyHash sample_doubles)) (Some sample_keyhash)). Qed.

Lemma sample_keyword_result : keyword_result (conv := ascii_conv) calloc_64k 65536 limit_64k calloc_64k_ok 100 false 0
  (s_globalPublishIPs sample_index) sample_stored_entry
  (bytes128 (of_uint32 2) ++ (poke_le 1 3 ++ concat [[2; 1; 0; 1; 1; 0; 97]; [8; 1; 0; 2; 232; 3]]) ++ [3; 1; 0; 51; 208; 7; 2; 1]).
Proof.
  split; [vm_compute; congruence|]. eexists. split; [reflexivity|].
  rewrite sample_trusted.
  unfold WriteTagListWithPublishInfo. rewrite sample_publishers.
  eapply writes_bind.
  - apply (writes_TagListInc (claws := ascii_laws) (ke_entry sample_stored_entry) 1 [[2; 1; 0; 1; 1; 0; 97]; [8; 1; 0; 2; 232; 3]]); [done|done|].
    assert (take (Z.to_nat (announced (ke_entry sample_stored_entry) 1 - 1)) (all_tags (ke_entry sample_stored_entry)) = all_tags (sample_file_entry 1 1000)) as ->
      by (vm_compute; reflexivity).
    apply sample_file_tags.
  - rewrite sample_trust.
    rewrite <- (app_nil_r [3; 1; 0; 51; 208; 7; 2; 1]). eapply writes_bind; [|apply writes_ret].
    apply (writes_WriteTag (claws := ascii_laws) sample_info). split; [by apply plain_name|]. eexists. split; [|reflexivity]. by apply kad_uint32.
Qed.

Lemma kad_keyword_answer_witness : exists r sent i',
  @SendValidKeywordResult sample_case sample_doubles ascii_conv calloc_64k (fun _ _ _ => true) false (of_uint32 9) 200 0 (of_uint32 5) None false 0 sample_index = (inr tt, sent, i') /\
  answered (of_uint32 9) (of_uint32 5) [r] sent.
Proof.
  destruct (@kad_keyword_answer sample_case sample_doubles ascii_conv calloc_64k 65536 limit_64k calloc_64k_ok (fun _ _ _ => true) false (of_uint32 9) (of_uint32 5) 100 200 0 0
    None false sample_index sample_keyhash ltac:(done) fits_64k ltac:(done) sample_found)
    as (rs & sent & i' & E & HR & HA).
  - apply Forall_singleton. eexists. apply sample_keyword_result.
  - assert (exists r, rs = [r]) as [r ->].
    { apply Forall2_length in HR. match type of HR with ?n = _ => assert (n = 1%nat) as Hn by (vm_compute; reflexivity) end.
      rewrite Hn in HR. apply one_result. exact HR. }
    exists r, sent, i'. split; [exact E|exact HA].
Defined.
