(* ===== verification/HashTree.v ===== *)
(** * AICH hash trees ([SHAHashSet.h], [SHAHashSet.cpp], [SHA.h], [SHA.cpp])

    A file is covered by a binary tree of SHA-1 hashes whose leaves are blocks of 180 KB and one
    level of which are the eD2k parts.  Trees are partial: nodes may be absent ([NULL]) and the
    hash of a node may be missing.  The SHA-1 function of the cryptographic library is a
    parameter; a path from the root is a list of branches, [true] for the left one. *)
From S2P Require Import Prelude StdMap UInt128 DataIO.

Definition HASHSIZE : Z := 20.

Inductive CAICHHashTree :=
| NULL
| Tree (m_Hash : list Z) (m_nDataSize m_nBaseSize : Z) (m_bIsLeftBranch m_bHashValid : bool)
    (m_pLeftTree m_pRightTree : CAICHHashTree).

Definition CAICHHash_zero : list Z := repeat 0 20.

Definition CAICHHashTree_new (nDataSize : Z) (bLeftBranch : bool) (nBaseSize : Z) : CAICHHashTree :=
  Tree CAICHHash_zero nDataSize nBaseSize bLeftBranch false NULL NULL.

Definition is_null (t : CAICHHashTree) : bool := match t with NULL => true | _ => false end.

Definition GetHash (t : CAICHHashTree) : list Z :=
  match t with NULL => [] | Tree h _ _ _ _ _ _ => h end.

Definition GetNDataSize (t : CAICHHashTree) : Z :=
  match t with NULL => 0 | Tree _ sz _ _ _ _ _ => sz end.

(** [t && t->m_bHashValid]. *)
Definition GetHashValid (t : CAICHHashTree) : bool :=
  match t with NULL => false | Tree _ _ _ _ v _ _ => v end.

(** ** Geometry *)

Definition base_size (n : Z) : Z := if n <=? PARTSIZE then EMBLOCKSIZE else PARTSIZE.

(** The size of the left branch of a node that covers [sz] bytes.  No intermediate result
    exceeds [sz] by more than a block, so that nothing wraps. *)
Definition left_size (sz base : Z) (lb : bool) : Z :=
  let nBlocks := sz / base + (if negb (sz mod base =? 0) then 1 else 0) in
  (if lb then nBlocks + 1 else nBlocks) / 2 * base.

(** The child a descent enters, created when it is missing. *)
Definition child_or_new (t : CAICHHashTree) (n : Z) (lb : bool) : CAICHHashTree :=
  if is_null t then CAICHHashTree_new n lb (base_size n) else t.

(** [FindHash] finds the node that covers a range of bytes and gives its path and level; missing
    nodes on the way are created. *)
Fixpoint FindHash_rec (fuel : nat) (t : CAICHHashTree) (nStartPos nSize nLevel : Z) :
  option (list bool) * Z * CAICHHashTree :=
  match t with
  | NULL => (None, nLevel, t)
  | Tree h sz base lb v l r =>
      let nLevel := u8 (nLevel + 1) in
      if negb (nLevel <=? 22) then (None, nLevel, t)
      else if negb (u64 (nStartPos + nSize) <=? sz) then (None, nLevel, t)
      else if negb (nSize <=? sz) then (None, nLevel, t)
      else if (nStartPos =? 0) && (nSize =? sz) then (Some [], nLevel, t)
      else if sz <=? base then (None, nLevel, t)
      else
        match fuel with
        | O => (None, nLevel, t)
        | S fuel =>
            let nLeft := left_size sz base lb in
            let nRight := sz - nLeft in
            if nStartPos <? nLeft then
              if u64 (nStartPos + nSize) >? nLeft then (None, nLevel, t)
              else
                let '(p, nLevel, l) :=
                  FindHash_rec fuel (child_or_new l nLeft true) nStartPos nSize nLevel in
                (cons true <$> p, nLevel, Tree h sz base lb v l r)
            else
              let nStartPos := nStartPos - nLeft in
              if u64 (nStartPos + nSize) >? nRight then (None, nLevel, t)
              else
                let '(p, nLevel, r) :=
                  FindHash_rec fuel (child_or_new r nRight false) nStartPos nSize nLevel in
                (cons false <$> p, nLevel, Tree h sz base lb v l r)
        end
  end.

(** The level check ends the descent before the fuel does. *)
Definition FindHash (t : CAICHHashTree) (nStartPos nSize : Z) :
  option (list bool) * Z * CAICHHashTree :=
  FindHash_rec 22 t nStartPos nSize 0.

Fixpoint node_at (p : list bool) (t : CAICHHashTree) : CAICHHashTree :=
  match p, t with
  | [], _ => t
  | _, NULL => NULL
  | b :: p, Tree _ _ _ _ _ l r => node_at p (if b : bool then l else r)
  end.

(** [t] with a change made through the pointer [FindHash] gave. *)
Fixpoint update_at (p : list bool) (g : CAICHHashTree -> CAICHHashTree) (t : CAICHHashTree) :
  CAICHHashTree :=
  match p, t with
  | [], _ => g t
  | _, NULL => NULL
  | b :: p, Tree h sz base lb v l r =>
      if b : bool then Tree h sz base lb v (update_at p g l) r
      else Tree h sz base lb v l (update_at p g r)
  end.

Definition set_hash (h : list Z) (t : CAICHHashTree) : CAICHHashTree :=
  match t with NULL => NULL | Tree _ sz base lb _ l r => Tree h sz base lb true l r end.

(** ** Hashing *)

(** The algorithm object holds the bytes added so far. *)
Abbreviation CSHA := (list Z) (only parsing).

Definition sha_Reset (a : CSHA) : CSHA := [].

Definition sha_Add (pData : list Z) (a : CSHA) : CSHA := a ++ pData.

Section Sha.

(** [CryptoPP::SHA1]. *)
Context (sha1 : list Z -> list Z).

Definition sha_Finish (a : CSHA) : list Z * CSHA := (sha1 a, []).

(** [Reset], two [Add]s and [Finish]: the hash of an inner node. *)
Definition parent_hash (left right : list Z) (a : CSHA) : list Z :=
  (sha_Finish (sha_Add right (sha_Add left (sha_Reset a)))).1.

Fixpoint ReCalculateHash (bDontReplace : bool) (t : CAICHHashTree) : bool * CAICHHashTree :=
  match t with
  | NULL => (false, NULL)
  | Tree h sz base lb v l r =>
      if negb (is_null l) && negb (is_null r) then
        let '(okl, l) := ReCalculateHash bDontReplace l in
        if negb okl then (false, Tree h sz base lb v l r)
        else
          let '(okr, r) := ReCalculateHash bDontReplace r in
          if negb okr then (false, Tree h sz base lb v l r)
          else if bDontReplace && v then (true, Tree h sz base lb v l r)
          else if GetHashValid r && GetHashValid l then
            (true, Tree (parent_hash (GetHash l) (GetHash r) []) sz base lb true l r)
          else (v, Tree h sz base lb v l r)
      else if is_null l && is_null r then (true, t)
      else (false, t)
  end.

Definition recalculate_missing (t : CAICHHashTree) : CAICHHashTree :=
  if negb (is_null t) && negb (GetHashValid t) then (ReCalculateHash true t).2 else t.

Fixpoint height (t : CAICHHashTree) : nat :=
  match t with NULL => O | Tree _ _ _ _ _ l r => S (Nat.max (height l) (height r)) end.

(** The recursion enters trees of a smaller height. *)
Fixpoint VerifyHashTree_rec (fuel : nat) (bDeleteBadTrees : bool) (t : CAICHHashTree) :
  bool * CAICHHashTree :=
  match fuel, t with
  | S fuel, Tree h sz base lb v l r =>
      let cut l r := if bDeleteBadTrees then Tree h sz base lb v NULL NULL else Tree h sz base lb v l r in
      if negb v then (false, cut l r)
      else
        let l := recalculate_missing l in
        let r := recalculate_missing r in
        if xorb (GetHashValid r) (GetHashValid l) then (false, cut l r)
        else if GetHashValid r && GetHashValid l then
          if negb (bool_decide (h = parent_hash (GetHash l) (GetHash r) [])) then (false, cut l r)
          else
            let '(okl, l) := VerifyHashTree_rec fuel bDeleteBadTrees l in
            if negb okl then (false, Tree h sz base lb v l r)
            else
              let '(okr, r) := VerifyHashTree_rec fuel bDeleteBadTrees r in
              (okr, Tree h sz base lb v l r)
        else (true, Tree h sz base lb v l r)
  | _, _ => (false, t)
  end.

Definition VerifyHashTree (bDeleteBadTrees : bool) (t : CAICHHashTree) : bool * CAICHHashTree :=
  VerifyHashTree_rec (height t) bDeleteBadTrees t.

(** The hash in [pHashAlg] becomes that of a block. *)
Definition SetBlockHash (nSize nStartPos : Z) (pHashAlg : CSHA) (t : CAICHHashTree) :
  CAICHHashTree * CSHA :=
  match FindHash t nStartPos nSize with
  | (None, _, t) => (t, pHashAlg)
  | (Some p, _, t) =>
      match node_at p t with
      | Tree _ sz base _ _ _ _ =>
          if negb (base =? EMBLOCKSIZE) || negb (sz =? nSize) then (t, pHashAlg)
          else let '(h, a) := sha_Finish pHashAlg in (update_at p (set_hash h) t, a)
      | NULL => (t, pHashAlg)
      end
  end.

End Sha.

(** ** External forms *)

Section Files.

Context {F : Type} {IOF : CFileDataIO F}.

#[local] Open Scope io_scope.

Definition CAICHHash_Read : IO F (list Z) := Read HASHSIZE.
Definition CAICHHash_Write (h : list Z) : IO F unit := Write h.

Definition branch_bit (lb : bool) : Z := if lb then 1 else 0.

(** [wHashIdent <<= 1; wHashIdent |= ...] on a [uint32]. *)
Definition push_bit (wHashIdent : Z) (lb : bool) : Z :=
  Z.lor (u32 (Z.shiftl wHashIdent 1)) (branch_bit lb).

Definition write_ident (b32BitIdent : bool) (wHashIdent : Z) : IO F unit :=
  if negb b32BitIdent then WriteUInt16 (u16 wHashIdent) else WriteUInt32 wHashIdent.

Definition WriteHash (t : CAICHHashTree) (wHashIdent : Z) (b32BitIdent : bool) : IO F unit :=
  match t with
  | NULL => io_ret tt
  | Tree h _ _ lb _ _ _ =>
      seq! write_ident b32BitIdent (push_bit wHashIdent lb) in CAICHHash_Write h
  end.

Fixpoint WriteLowestLevelHashs (t : CAICHHashTree) (wHashIdent : Z) (bNoIdent b32BitIdent : bool) :
  IO F bool :=
  match t with
  | NULL => io_ret false
  | Tree h sz base lb v l r =>
      let wHashIdent := push_bit wHashIdent lb in
      if is_null l && is_null r then
        if (sz <=? base) && v then
          seq! (if negb bNoIdent then write_ident b32BitIdent wHashIdent else io_ret tt) in
          seq! CAICHHash_Write h in io_ret true
        else io_ret false
      else if is_null l || is_null r then io_ret false
      else
        let! ok := WriteLowestLevelHashs l wHashIdent bNoIdent b32BitIdent in
        if ok : bool then WriteLowestLevelHashs r wHashIdent bNoIdent b32BitIdent else io_ret false
  end.

Fixpoint CreatePartRecoveryData (t : CAICHHashTree) (nStartPos nSize wHashIdent : Z)
  (b32BitIdent : bool) : IO F bool :=
  match t with
  | NULL => io_ret false
  | Tree h sz base lb v l r =>
      if negb (u64 (nStartPos + nSize) <=? sz) then io_ret false
      else if negb (nSize <=? sz) then io_ret false
      else if (nStartPos =? 0) && (nSize =? sz) then
        WriteLowestLevelHashs t wHashIdent false b32BitIdent
      else if sz <=? base then io_ret false
      else
        let wHashIdent := push_bit wHashIdent lb in
        let nLeft := left_size sz base lb in
        let nRight := sz - nLeft in
        if is_null l || is_null r then io_ret false
        else if nStartPos <? nLeft then
          if (u64 (nStartPos + nSize) >? nLeft) || negb (GetHashValid r) then io_ret false
          else
            seq! WriteHash r wHashIdent b32BitIdent in
            CreatePartRecoveryData l nStartPos nSize wHashIdent b32BitIdent
        else
          let nStartPos := nStartPos - nLeft in
          if (u64 (nStartPos + nSize) >? nRight) || negb (GetHashValid l) then io_ret false
          else
            seq! WriteHash l wHashIdent b32BitIdent in
            CreatePartRecoveryData r nStartPos nSize wHashIdent b32BitIdent
  end.

(** An operation that also changes the tree: result or exception, the tree, the file. *)
Abbreviation TreeIO := (F -> (exn + bool) * CAICHHashTree * F) (only parsing).

(** The hash of a node is read; a read that fails leaves the node as it was. *)
Definition read_into (t : CAICHHashTree) : TreeIO := fun f =>
  match CAICHHash_Read f with
  | (inr h, f) => (inr true, set_hash h t, f)
  | (inl e, f) => (inl e, t, f)
  end.

(** Each level at least halves the number of parts or blocks: 64 levels cover a [uint64]. *)
Fixpoint LoadLowestLevelHashs_rec (fuel : nat) (t : CAICHHashTree) : TreeIO := fun f =>
  match fuel, t with
  | S fuel, Tree h sz base lb v l r =>
      if sz <=? base then read_into t f
      else
        let nLeft := left_size sz base lb in
        let nRight := sz - nLeft in
        let l := child_or_new l nLeft true in
        let r := child_or_new r nRight false in
        match LoadLowestLevelHashs_rec fuel l f with
        | (inr true, l, f) =>
            match LoadLowestLevelHashs_rec fuel r f with
            | (res, r, f) => (res, Tree h sz base lb v l r, f)
            end
        | (res, l, f) => (res, Tree h sz base lb v l r, f)
        end
  | _, _ => (inr false, t, f)
  end.

Definition LoadLowestLevelHashs (t : CAICHHashTree) : TreeIO := LoadLowestLevelHashs_rec 64 t.

(** The identifier with its highest set bit moved to bit 31, and the number of levels below;
    [None] for the identifier 0. *)
Fixpoint top_bit (n : nat) (wHashIdent : Z) : option (nat * Z) :=
  match n with
  | O => None
  | S n => if Z.land wHashIdent 0x80000000 =? 0 then top_bit n (u32 (Z.shiftl wHashIdent 1))
           else Some (n, wHashIdent)
  end.

Fixpoint SetHash_rec (nLevel : nat) (t : CAICHHashTree) (wHashIdent : Z) (bAllowOverwrite : bool) :
  TreeIO := fun f =>
  match nLevel, t with
  | O, _ =>
      if GetHashValid t && negb bAllowOverwrite then
        match Seek HASHSIZE wxFromCurrent f with
        | (inr _, f) => (inr true, t, f)
        | (inl e, f) => (inl e, t, f)
        end
      else read_into t f
  | S nLevel, NULL => (inr false, t, f)
  | S nLevel, Tree h sz base lb v l r =>
      if sz <=? base then (inr false, t, f)
      else
        let wHashIdent := u32 (Z.shiftl wHashIdent 1) in
        let nLeft := left_size sz base lb in
        let nRight := sz - nLeft in
        if Z.land wHashIdent 0x80000000 >? 0 then
          match SetHash_rec nLevel (child_or_new l nLeft true) wHashIdent true f with
          | (res, l, f) => (res, Tree h sz base lb v l r, f)
          end
        else
          match SetHash_rec nLevel (child_or_new r nRight false) wHashIdent true f with
          | (res, r, f) => (res, Tree h sz base lb v l r, f)
          end
  end.

(** The recursive calls leave [bAllowOverwrite] at its default, [true]. *)
Definition SetHash (t : CAICHHashTree) (wHashIdent : Z) (bAllowOverwrite : bool) : TreeIO := fun f =>
  match top_bit 32 wHashIdent with
  | None => (inr false, t, f)
  | Some (nLevel, wHashIdent) => SetHash_rec nLevel t wHashIdent bAllowOverwrite f
  end.

End Files.

(** ** The sizes of the nodes *)

Definition lsize (sz : Z) (lb : bool) : Z := left_size sz (base_size sz) lb.
Definition rsize (sz : Z) (lb : bool) : Z := sz - lsize sz lb.

Lemma base_size_cases sz :
  sz <= PARTSIZE /\ base_size sz = EMBLOCKSIZE \/ PARTSIZE < sz /\ base_size sz = PARTSIZE.
Proof. unfold base_size. case_cmp; [left|right]; split; lia || done. Qed.

Lemma leaf_size sz : (sz <=? base_size sz) = (sz <=? EMBLOCKSIZE).
Proof.
  destruct (base_size_cases sz) as [[H ->]|[H ->]]; [done|].
  unfold PARTSIZE, EMBLOCKSIZE in *. repeat case_cmp; lia || done.
Qed.

(** The blocks a node covers are dealt to its branches, a half each up to one. *)
Lemma lsize_spec sz lb : EMBLOCKSIZE < sz -> exists n k, 1 < n /\ 0 < k < n /\
  2 * k <= n + 1 /\ n <= 2 * k + 1 /\ (n - 1) * base_size sz < sz <= n * base_size sz /\
  lsize sz lb = k * base_size sz.
Proof.
  intros Hs. unfold lsize, left_size. set (b := base_size sz).
  assert (0 < b < sz) as Hb by
    (subst b; destruct (base_size_cases sz) as [[? ->]|[? ->]]; unfold PARTSIZE, EMBLOCKSIZE in *; lia).
  clearbody b.
  set (n := sz / b + (if negb (sz mod b =? 0) then 1 else 0)).
  assert ((n - 1) * b < sz <= n * b /\ 1 < n) as [Hn Hn1].
  { pose proof (Z.div_mod sz b ltac:(lia)) as Hd. pose proof (Z.mod_pos_bound sz b ltac:(lia)) as Hm.
    set (q := sz / b) in *. set (m := sz mod b) in *. clearbody q m. subst n.
    destruct (Z.eqb_spec m 0) as [->|]; simpl; nia. }
  exists n, ((if lb then n + 1 else n) / 2). clearbody n. split; [done|].
  destruct lb; split_and!; lia.
Qed.

Lemma lsize_range sz lb : EMBLOCKSIZE < sz -> 0 < lsize sz lb < sz.
Proof.
  intros Hs. destruct (lsize_spec sz lb Hs) as (n & k & ? & ? & _ & _ & ? & ->).
  destruct (base_size_cases sz) as [[? E]|[? E]]; rewrite E in *; unfold PARTSIZE, EMBLOCKSIZE in *; nia.
Qed.

Lemma rsize_range sz lb : EMBLOCKSIZE < sz -> 0 < rsize sz lb < sz.
Proof. intros Hs. unfold rsize. pose proof (lsize_range sz lb Hs). lia. Qed.

(** [k] levels below a node are enough. *)
Definition fits (k : nat) (sz : Z) : Prop :=
  if (k <=? 6)%nat then sz <= PARTSIZE /\ sz <= EMBLOCKSIZE * 2 ^ Z.of_nat k
  else sz <= PARTSIZE * 2 ^ (Z.of_nat k - 6).

Lemma fits_0 sz : fits 0 sz -> sz <= EMBLOCKSIZE.
Proof. intros [_ H]. simpl in H. lia. Qed.

(** The larger half of a number of units. *)
Lemma half_fits (n k b sz m : Z) : 0 < b -> 0 < k < n -> 2 * k <= n + 1 -> n <= 2 * k + 1 -> 
  (n - 1) * b < sz <= n * b -> sz <= b * (2 * m) -> k * b <= b * m /\ sz - k * b <= b * m.
Proof.
  intros Hb Hk H1 H2 Hn Hm. assert (n - 1 < 2 * m) by nia. assert (k <= m /\ n - k <= m) by lia. split; nia.
Qed.

Lemma fits_child k sz lb : fits (S k) sz -> EMBLOCKSIZE < sz ->
  fits k (lsize sz lb) /\ fits k (rsize sz lb).
Proof.
  intros Hf Hs. destruct (lsize_spec sz lb Hs) as (n & j & Hn & Hj & H1 & H2 & Hsz & E).
  pose proof (lsize_range sz lb Hs) as Hl. unfold rsize. unfold fits in *.
  destruct (Nat.leb_spec (S k) 6) as [Hk|Hk].
  - destruct Hf as [Hp Hf]. rewrite (proj2 (Nat.leb_le k 6)) by lia.
    destruct (base_size_cases sz) as [[_ Eb]|[? _]]; [|lia]. rewrite Eb in *. rewrite E in *.
    rewrite Nat2Z.inj_succ, Z.pow_succ_r in Hf by lia.
    destruct (half_fits n j EMBLOCKSIZE sz (2 ^ Z.of_nat k)); try done; lia.
  - destruct (base_size_cases sz) as [[Hp Eb]|[Hp Eb]].
    + assert (lsize sz lb <= PARTSIZE /\ sz - lsize sz lb <= PARTSIZE) as [Ha Hb] by lia.
      destruct (Nat.leb_spec k 6) as [Hk6|Hk6].
      * assert (k = 6%nat) as -> by lia. change (2 ^ Z.of_nat 6) with 64.
        unfold PARTSIZE, EMBLOCKSIZE in *. lia.
      * assert (0 < 2 ^ (Z.of_nat k - 6)) by (apply Z.pow_pos_nonneg; lia).
        unfold PARTSIZE in *. nia.
    + rewrite Eb in *. rewrite E.
      replace (Z.of_nat (S k) - 6) with (Z.succ (Z.of_nat k - 6)) in Hf by lia.
      rewrite Z.pow_succ_r in Hf by lia.
      destruct (half_fits n j PARTSIZE sz (2 ^ (Z.of_nat k - 6))) as [Ha Hb]; try done; try lia.
      destruct (Nat.leb_spec k 6) as [Hk6|Hk6]; [|done].
      assert (k = 6%nat) as -> by lia. simpl in Ha, Hb. change (2 ^ Z.of_nat 6) with 64.
      unfold PARTSIZE, EMBLOCKSIZE in *. lia.
Qed.

Lemma fits_mono k k' sz : (k <= k')%nat -> fits k sz -> fits k' sz.
Proof.
  intros Hk. unfold fits. destruct (Nat.leb_spec k 6), (Nat.leb_spec k' 6); try lia.
  - intros [? Hf]. split; [done|]. pose proof (Z.pow_le_mono_r 2 (Z.of_nat k) (Z.of_nat k')).
    unfold EMBLOCKSIZE in *. nia.
  - intros [Hp _]. assert (0 < 2 ^ (Z.of_nat k' - 6)) by (apply Z.pow_pos_nonneg; lia).
    unfold PARTSIZE in *. nia.
  - intros Hf. pose proof (Z.pow_le_mono_r 2 (Z.of_nat k - 6) (Z.of_nat k' - 6)). unfold PARTSIZE in *. nia.
Qed.

(** ** Where a range of bytes lies *)

(** The node that covers [n] bytes from [s] is reached by the path [p]. *)
Inductive locates : bool -> Z -> Z -> Z -> list bool -> Prop :=
| locates_here lb sz : locates lb sz 0 sz []
| locates_left lb sz s n p : EMBLOCKSIZE < sz -> n < sz -> 0 < n -> 0 <= s -> s + n <= lsize sz lb ->
    locates true (lsize sz lb) s n p -> locates lb sz s n (true :: p)
| locates_right lb sz s n p : EMBLOCKSIZE < sz -> n < sz -> 0 < n -> lsize sz lb <= s -> s + n <= sz ->
    locates false (rsize sz lb) (s - lsize sz lb) n p -> locates lb sz s n (false :: p).

Definition part_size (sz q : Z) : Z := Z.min PARTSIZE (sz - q * PARTSIZE).

(** Parts ([u] is [PARTSIZE]) and the blocks of one part. *)
Lemma locates_unit u k lb sz q : u = PARTSIZE \/ u = EMBLOCKSIZE /\ sz <= PARTSIZE ->
  fits k sz -> 0 <= q -> q * u < sz ->
  exists p, locates lb sz (q * u) (Z.min u (sz - q * u)) p /\ (length p <= k)%nat.
Proof.
  intros Hu Hf Hq Hlt. assert (EMBLOCKSIZE <= u /\ 0 < u) as [Hue Hup] by (unfold PARTSIZE, EMBLOCKSIZE in *; lia).
  revert lb sz q Hu Hf Hq Hlt. induction k as [|k IH]; intros lb sz q Hu Hf Hq Hlt;
    (destruct (Z.le_gt_cases sz u) as [Hle|Hs];
      [assert (q = 0) as -> by nia; rewrite Z.min_r, Z.sub_0_r by lia; exists [];
       split; [constructor|simpl; lia]|]).
  - apply fits_0 in Hf. lia.
  - assert (EMBLOCKSIZE < sz) as Hse by lia.
    destruct (fits_child k sz lb Hf Hse) as [HfL HfR]. pose proof (lsize_range sz lb Hse) as Hl.
    destruct (lsize_spec sz lb Hse) as (n & j & _ & Hj & _ & _ & Hn & E).
    assert (base_size sz = u) as Eb by (destruct (base_size_cases sz); lia). rewrite Eb in E, Hn.
    destruct (Z.lt_ge_cases q j) as [Hc|Hc].
    + destruct (IH true (lsize sz lb) q) as (p & Hp & Hlen); [lia|done|done|nia|].
      exists (true :: p). split; [|simpl; lia]. rewrite Z.min_l in Hp by (rewrite E; nia).
      rewrite Z.min_l by nia. constructor; try done; nia.
    + destruct (IH false (rsize sz lb) (q - j)) as (p & Hp & Hlen);
        [unfold rsize; lia|done|lia|unfold rsize; rewrite E; nia|].
      exists (false :: p). split; [|simpl; lia]. unfold rsize in Hp. rewrite E in Hp.
      replace (sz - j * u - (q - j) * u) with (sz - q * u) in Hp by lia.
      replace ((q - j) * u) with (q * u - j * u) in Hp by lia. rewrite <- E in Hp.
      constructor; try done; nia.
Qed.

Lemma locates_part k lb sz q : fits k sz -> 0 <= q -> q * PARTSIZE < sz ->
  exists p, locates lb sz (q * PARTSIZE) (part_size sz q) p /\ (length p <= k)%nat.
Proof. apply locates_unit. by left. Qed.

(** ** Well-shaped trees *)

Definition sha_ok (h : list Z) : Prop := Forall is_byte h /\ length h = 20%nat.

(** [t] is absent, or a node over [sz] bytes whose descendants have the sizes of the geometry. *)
Fixpoint shaped (lb : bool) (sz : Z) (t : CAICHHashTree) : Prop :=
  match t with
  | NULL => True
  | Tree h n base lb' v l r =>
      n = sz /\ base = base_size sz /\ lb' = lb /\ sha_ok h /\
      (EMBLOCKSIZE < sz -> shaped true (lsize sz lb) l /\ shaped false (rsize sz lb) r) /\
      (sz <= EMBLOCKSIZE -> l = NULL /\ r = NULL)
  end.

Lemma sha_ok_zero : sha_ok CAICHHash_zero.
Proof. split; [|done]. repeat constructor; unfold is_byte, in_width; simpl; lia. Qed.

Lemma shaped_child_or_new lb sz t : shaped lb sz t -> shaped lb sz (child_or_new t sz lb).
Proof.
  intros Ht. destruct t; [|done]. unfold child_or_new, CAICHHashTree_new. simpl. split_and!; try done.
  apply sha_ok_zero.
Qed.

Lemma child_or_new_full t sz lb : child_or_new t sz lb <> NULL.
Proof. by destruct t. Qed.

(** The missing nodes on a path are created. *)
Fixpoint grow (p : list bool) (t : CAICHHashTree) : CAICHHashTree :=
  match p, t with
  | b :: p, Tree h sz base lb v l r =>
      let nLeft := left_size sz base lb in
      if b : bool then Tree h sz base lb v (grow p (child_or_new l nLeft true)) r
      else Tree h sz base lb v l (grow p (child_or_new r (sz - nLeft) false))
  | _, _ => t
  end.

Lemma locates_range lb sz s n p : 0 < sz -> locates lb sz s n p -> 0 <= s /\ 0 < n /\ s + n <= sz.
Proof.
  intros Hs H. destruct H as [|lb sz s n p Hse|lb sz s n p Hse]; try pose proof (lsize_range sz lb Hse); lia.
Qed.

Lemma locates_here_iff lb sz s n p : locates lb sz s n p -> (p = [] <-> s = 0 /\ n = sz).
Proof. intros H. destruct H; (split; [done|]); [done|intros; lia..]. Qed.

Lemma shaped_grow lb sz s n p t : locates lb sz s n p -> shaped lb sz t -> shaped lb sz (grow p t).
Proof.
  intros H. revert t. induction H as [|lb sz s n p Hs Hn H0 H1 H2 H IH|lb sz s n p Hs Hn H0 H1 H2 H IH];
    intros t Ht; [by destruct t|..]; (destruct t as [|h sz' base lb' v l r]; [done|]);
    destruct Ht as (-> & -> & -> & Hh & Hc & _); destruct (Hc Hs) as [Hl Hr];
    simpl; split_and!; try done; try lia; intros _; split; try done;
    by apply IH, shaped_child_or_new.
Qed.

Lemma node_at_grow lb sz s n p t : locates lb sz s n p -> shaped lb sz t -> t <> NULL ->
  node_at p (grow p t) <> NULL.
Proof.
  intros H. revert t. induction H as [|lb sz s n p Hs Hn H0 H1 H2 H IH|lb sz s n p Hs Hn H0 H1 H2 H IH];
    intros t Ht Hnn; [by destruct t|..]; (destruct t as [|h sz' base lb' v l r]; [done|]);
    destruct Ht as (-> & -> & -> & Hh & Hc & _); destruct (Hc Hs) as [Hl Hr]; simpl;
    (apply IH; [by apply shaped_child_or_new|apply child_or_new_full]).
Qed.

(** The branch the last step of a path takes. *)
Fixpoint branch_of (lb : bool) (p : list bool) : bool :=
  match p with [] => lb | b :: p => branch_of b p end.

Lemma shaped_node_at lb sz s n p t : locates lb sz s n p -> shaped lb sz t ->
  shaped (branch_of lb p) n (node_at p t).
Proof.
  intros H. revert t. induction H as [|lb sz s n p Hs Hn H0 H1 H2 H IH|lb sz s n p Hs Hn H0 H1 H2 H IH];
    intros t Ht; [by destruct t|..]; (destruct t as [|h sz' base lb' v l r]; [done|]);
    destruct Ht as (-> & -> & -> & Hh & Hc & _); destruct (Hc Hs) as [Hl Hr]; simpl; auto.
Qed.

(** [FindHash] finds every range of the geometry, when the levels suffice. *)
Lemma FindHash_rec_spec fuel lb sz s n p t nLevel :
  locates lb sz s n p -> shaped lb sz t -> t <> NULL -> 0 < sz < 2 ^ 63 -> 0 <= nLevel ->
  (length p <= fuel)%nat -> nLevel + Z.of_nat (length p) < 22 ->
  FindHash_rec fuel t s n nLevel = (Some p, nLevel + Z.of_nat (length p) + 1, grow p t).
Proof.
  intros H. revert fuel t nLevel.
  induction H as [lb sz|lb sz s n p Hs Hn H0 H1 H2 H IH|lb sz s n p Hs Hn H0 H1 H2 H IH];
    intros fuel t nLevel Ht Hnn Hsz HL Hf Hl; (destruct t as [|h sz' base lb' v l r]; [done|]);
    destruct Ht as (-> & -> & -> & Hh & Hc & _).
  - assert (u8 (nLevel + 1) = nLevel + 1) as E8 by (apply wrap_small; width_lia).
    assert (u64 (0 + sz) = sz) as E64 by (rewrite wrap_small; [lia|width_lia]).
    destruct fuel; simpl FindHash_rec; rewrite E8, E64, (proj2 (Z.leb_le (nLevel + 1) 22)), Z.leb_refl,
      Z.eqb_refl by (simpl in Hl; lia); simpl; do 2 f_equal; lia.
  - destruct fuel as [|fuel]; [simpl in Hf; lia|]. simpl length in *. destruct (Hc Hs) as [Hcl Hcr].
    assert (u8 (nLevel + 1) = nLevel + 1) as E8 by (apply wrap_small; width_lia).
    assert (u64 (s + n) = s + n) as E64 by (apply wrap_small; pose proof (lsize_range sz lb Hs); width_lia).
    pose proof (lsize_range sz lb Hs). simpl FindHash_rec. rewrite E8, E64, leaf_size.
    fold (lsize sz lb). rewrite (proj2 (Z.leb_le (nLevel + 1) 22)), (proj2 (Z.leb_le (s + n) sz)),
      (proj2 (Z.leb_le n sz)), (proj2 (Z.eqb_neq n sz)), andb_false_r, (proj2 (Z.leb_gt sz EMBLOCKSIZE)),
      (proj2 (Z.ltb_lt s (lsize sz lb))), Z.gtb_ltb, (proj2 (Z.ltb_ge (lsize sz lb) (s + n))) by lia. simpl.
    rewrite IH by (try apply shaped_child_or_new; try apply child_or_new_full; done || lia).
    do 2 f_equal. lia.
  - destruct fuel as [|fuel]; [simpl in Hf; lia|]. simpl length in *. destruct (Hc Hs) as [Hcl Hcr].
    assert (u8 (nLevel + 1) = nLevel + 1) as E8 by (apply wrap_small; width_lia).
    pose proof (lsize_range sz lb Hs).
    assert (u64 (s + n) = s + n) as E64 by (apply wrap_small; width_lia).
    assert (u64 (s - lsize sz lb + n) = s - lsize sz lb + n) as E64' by (apply wrap_small; width_lia).
    simpl FindHash_rec. rewrite E8, E64, leaf_size. fold (lsize sz lb). rewrite E64'.
    fold (rsize sz lb). rewrite (proj2 (Z.leb_le (nLevel + 1) 22)), (proj2 (Z.leb_le (s + n) sz)),
      (proj2 (Z.leb_le n sz)), (proj2 (Z.eqb_neq n sz)), andb_false_r, (proj2 (Z.leb_gt sz EMBLOCKSIZE)),
      (proj2 (Z.ltb_ge s (lsize sz lb))), Z.gtb_ltb, (proj2 (Z.ltb_ge (rsize sz lb) (s - lsize sz lb + n)))
      by (unfold rsize; lia). simpl.
    rewrite IH by (try apply shaped_child_or_new; try apply child_or_new_full; unfold rsize in *; done || lia).
    do 2 f_equal. lia.
Qed.

(** ** What verification establishes *)

Definition left_tree (t : CAICHHashTree) : CAICHHashTree :=
  match t with NULL => NULL | Tree _ _ _ _ _ l _ => l end.

Definition right_tree (t : CAICHHashTree) : CAICHHashTree :=
  match t with NULL => NULL | Tree _ _ _ _ _ _ r => r end.

(** The bytes whose hash the parent of [l] and [r] must be. *)
Definition pair_of (t : CAICHHashTree) : list Z := GetHash (left_tree t) ++ GetHash (right_tree t).

(** All nodes from the root down to the one at [p] have their hash. *)
Fixpoint known_path (p : list bool) (t : CAICHHashTree) : Prop :=
  match p, t with
  | _, NULL => False
  | [], _ => GetHashValid t = true
  | b :: p, Tree _ _ _ _ v l r => v = true /\ known_path p (if b : bool then l else r)
  end.

(** The hashes that [t] has are those of [g]. *)
Fixpoint agrees (t g : CAICHHashTree) : Prop :=
  match t with
  | NULL => True
  | Tree h _ _ _ v l r => (v = true -> h = GetHash g) /\ agrees l (left_tree g) /\ agrees r (right_tree g)
  end.

(** Every node has no children and its hash, or both children, themselves solid. *)
Fixpoint solid (t : CAICHHashTree) : Prop :=
  match t with
  | NULL => False
  | Tree _ _ _ _ v l r => (l = NULL /\ r = NULL /\ v = true) \/ (solid l /\ solid r)
  end.

Lemma is_null_spec t : reflect (t = NULL) (is_null t).
Proof. destruct t; by constructor. Qed.

Lemma solid_full t : solid t -> is_null t = false.
Proof. by destruct t. Qed.

Section Spec.

Context (sha1 : list Z -> list Z).

Lemma parent_hash_pair l r : parent_hash sha1 l r [] = sha1 (l ++ r).
Proof. done. Qed.

(** All nodes down to the blocks are there, each the hash of its children. *)
Fixpoint complete (t : CAICHHashTree) : Prop :=
  match t with
  | NULL => False
  | Tree h sz base _ v l r =>
      v = true /\
      if sz <=? base then l = NULL /\ r = NULL
      else complete l /\ complete r /\ h = sha1 (GetHash l ++ GetHash r)
  end.

(** All nodes that are there have their hash, which is that of their children if they have any. *)
Fixpoint settled (t : CAICHHashTree) : Prop :=
  match t with
  | NULL => False
  | Tree h _ _ _ v l r =>
      v = true /\ ((l = NULL /\ r = NULL) \/
                   (settled l /\ settled r /\ h = sha1 (GetHash l ++ GetHash r)))
  end.

(** The root has its hash; a node's hash is that of its children when both have theirs, which are
    then verified, and otherwise neither has. *)
Fixpoint verified (t : CAICHHashTree) : Prop :=
  match t with
  | NULL => False
  | Tree h _ _ _ v l r =>
      v = true /\
      ((verified l /\ verified r /\ h = sha1 (GetHash l ++ GetHash r)) \/
       (GetHashValid l = false /\ GetHashValid r = false))
  end.

Lemma settled_solid t : settled t -> solid t.
Proof.
  induction t as [|h sz base lb v l IHl r IHr]; simpl; [done|]. intros [Hv [[-> ->]|(Hl & Hr & _)]]; auto.
Qed.

Lemma settled_verified t : settled t -> verified t.
Proof.
  induction t as [|h sz base lb v l IHl r IHr]; simpl; [done|].
  intros [Hv [[-> ->]|(Hl & Hr & E)]]; split; auto.
Qed.

Lemma settled_valid t : settled t -> GetHashValid t = true.
Proof. by destruct t; [|intros [? _]]. Qed.

Lemma verified_valid t : verified t -> GetHashValid t = true.
Proof. by destruct t; [|intros [? _]]. Qed.

Lemma complete_valid t : complete t -> GetHashValid t = true.
Proof. by destruct t; [|intros [? _]]. Qed.

Lemma complete_full t : complete t -> is_null t = false.
Proof. by destruct t. Qed.

Lemma ReCalculateHash_height b t : height (ReCalculateHash sha1 b t).2 = height t.
Proof.
  induction t as [|h sz base lb v l IHl r IHr]; [done|]. simpl.
  destruct (is_null_spec l), (is_null_spec r); simpl; try done.
  destruct (ReCalculateHash sha1 b l) as [okl l'], (ReCalculateHash sha1 b r) as [okr r'].
  simpl in IHl, IHr. destruct okl, okr; simpl; try (rewrite ?IHl, ?IHr; done).
  destruct (b && v); simpl; [by rewrite IHl, IHr|].
  destruct (GetHashValid r' && GetHashValid l'); simpl; by rewrite IHl, IHr.
Qed.

(** Recalculation fills in the hashes of a solid tree that agrees with a complete one. *)
Lemma ReCalculateHash_solid lb sz t g : solid t -> agrees t g -> complete g -> shaped lb sz t -> shaped lb sz g ->
  exists t', ReCalculateHash sha1 true t = (true, t') /\ settled t' /\ agrees t' g /\ shaped lb sz t' /\
    GetHash t' = GetHash g /\ (GetHashValid t = true -> GetHash t' = GetHash t).
Proof.
  revert lb sz g. induction t as [|h n base lb' v l IHl r IHr]; intros lb sz g Hs Ha Hg Ht Hsg; [done|].
  destruct Ha as (Hah & Hal & Har). destruct Ht as (-> & -> & -> & Hh & Hc & Hn).
  destruct Hs as [(-> & -> & ->)|[Hsl Hsr]].
  - simpl. eexists. split; [done|]. simpl. split_and!; auto.
  - destruct g as [|hg n' base' lb'' vg gl gr]; [done|].
    destruct Hsg as (-> & -> & -> & Hhg & Hcg & Hng). destruct Hg as [-> Hg]. rewrite leaf_size in Hg.
    simpl in Hal, Har. destruct (Z.leb_spec sz EMBLOCKSIZE) as [Hle|Hgt].
    { destruct (Hn Hle) as [-> _]. done. }
    destruct (Hc Hgt) as [Hcl Hcr], (Hcg Hgt) as [Hcgl Hcgr], Hg as (Hgl & Hgr & Ehg).
    destruct (IHl true (lsize sz lb) gl) as (l' & El & Sl & Al & Shl & Hl & _); try done.
    destruct (IHr false (rsize sz lb) gr) as (r' & Er & Sr & Ar & Shr & Hr & _); try done.
    simpl ReCalculateHash. rewrite (solid_full l Hsl), (solid_full r Hsr). simpl. rewrite El, Er. simpl.
    rewrite (settled_valid l'), (settled_valid r') by done.
    destruct v; simpl; eexists; (split; [done|]); simpl in *; rewrite ?Hl, ?Hr, ?parent_hash_pair;
      split_and!; try done; try lia.
    + right. rewrite Hah by done. by split_and!.
    + by apply Hah.
    + right. by split_and!.
    + by rewrite Ehg in Hhg.
Qed.

Lemma recalculate_missing_solid lb sz t g : solid t -> agrees t g -> complete g -> shaped lb sz t ->
  shaped lb sz g ->
  let t' := recalculate_missing sha1 t in
  solid t' /\ agrees t' g /\ shaped lb sz t' /\ GetHashValid t' = true /\ GetHash t' = GetHash g /\
    height t' = height t.
Proof.
  intros Hs Ha Hg Ht Hsg. unfold recalculate_missing. rewrite (solid_full t Hs).
  destruct (GetHashValid t) eqn:Hv; simpl.
  - split_and!; try done. destruct t as [|h ? ? ? v ? ?]; [done|]. destruct Ha as [Ha _]. by apply Ha.
  - destruct (ReCalculateHash_solid lb sz t g) as (t' & E & S & A & Sh & Hh & _); try done.
    pose proof (ReCalculateHash_height true t) as Hhe. rewrite E in *. simpl in *.
    split_and!; try done; [by apply settled_solid|by apply settled_valid].
Qed.

(** A solid tree with the right root that agrees with a complete one passes verification. *)
Lemma VerifyHashTree_solid del fuel lb sz t g : (height t <= fuel)%nat -> solid t -> GetHashValid t = true ->
  agrees t g -> complete g -> shaped lb sz t -> shaped lb sz g ->
  exists t', VerifyHashTree_rec sha1 fuel del t = (true, t') /\ settled t' /\ agrees t' g /\ shaped lb sz t' /\
    GetHash t' = GetHash t.
Proof.
  revert lb sz t g. induction fuel as [|fuel IH]; intros lb sz t g Hf Hs Hv Ha Hg Ht Hsg.
  { destruct t; [done|simpl in Hf; lia]. }
  destruct t as [|h n base lb' v l r]; [done|]. simpl in Hv. subst v.
  destruct Ha as (Hah & Hal & Har). destruct Ht as (-> & -> & -> & Hh & Hc & Hn).
  destruct Hs as [(-> & -> & _)|[Hsl Hsr]].
  - simpl. eexists. split; [done|]. simpl. split_and!; auto.
  - destruct g as [|hg n' base' lb'' vg gl gr]; [done|].
    destruct Hsg as (-> & -> & -> & Hhg & Hcg & Hng). destruct Hg as [-> Hg]. rewrite leaf_size in Hg.
    simpl in Hal, Har. destruct (Z.leb_spec sz EMBLOCKSIZE) as [Hle|Hgt].
    { destruct (Hn Hle) as [-> _]. done. }
    destruct (Hc Hgt) as [Hcl Hcr], (Hcg Hgt) as [Hcgl Hcgr], Hg as (Hgl & Hgr & Ehg).
    destruct (recalculate_missing_solid true (lsize sz lb) l gl) as (Sl & Al & Shl & Vl & Hl & El); try done.
    destruct (recalculate_missing_solid false (rsize sz lb) r gr) as (Sr & Ar & Shr & Vr & Hr & Er); try done.
    simpl in Hf. simpl VerifyHashTree_rec.
    destruct (IH true (lsize sz lb) (recalculate_missing sha1 l) gl) as (l' & -> & Sl' & Al' & Shl' & Hl'); try done; [lia|].
    destruct (IH false (rsize sz lb) (recalculate_missing sha1 r) gr) as (r' & -> & Sr' & Ar' & Shr' & Hr'); try done; [lia|].
    rewrite Vl, Vr, Hl, Hr, parent_hash_pair. simpl.
    assert (h = sha1 (GetHash gl ++ GetHash gr)) as Ehh by (rewrite Hah by done; done).
    rewrite bool_decide_true by done. simpl. eexists. split; [done|]. simpl.
    rewrite Hl', Hr', Hl, Hr. split_and!; try done; [right; by split_and!|lia].
Qed.

Lemma VerifyHashTree_sound del fuel t t' : VerifyHashTree_rec sha1 fuel del t = (true, t') ->
  verified t' /\ GetHash t' = GetHash t.
Proof.
  revert t t'. induction fuel as [|fuel IH]; intros t t'; [done|].
  destruct t as [|h sz base lb v l r]; [done|]. simpl.
  destruct v; simpl; [|done].
  set (l0 := recalculate_missing sha1 l). set (r0 := recalculate_missing sha1 r).
  destruct (GetHashValid r0) eqn:Vr, (GetHashValid l0) eqn:Vl; simpl; try done.
  - case_bool_decide as E; simpl; [|done].
    destruct (VerifyHashTree_rec sha1 fuel del l0) as [[] l'] eqn:El; simpl; [|done].
    destruct (VerifyHashTree_rec sha1 fuel del r0) as [[] r'] eqn:Er; simpl; [|done].
    intros [= <-]. destruct (IH _ _ El) as [Sl Hl], (IH _ _ Er) as [Sr Hr].
    split; [|done]. split; [done|]. left. by rewrite Hl, Hr.
  - intros [= <-]. split; [|done]. split; [done|]. right. by rewrite Vl, Vr.
Qed.

Lemma GetHash_length lb sz t : shaped lb sz t -> is_null t = false -> length (GetHash t) = 20%nat.
Proof. destruct t; [done|]. by intros (_ & _ & _ & [_ H] & _). Qed.

Lemma verified_full t : verified t -> is_null t = false.
Proof. by destruct t. Qed.

Lemma known_path_head b p t : known_path (b :: p) t ->
  GetHashValid (if b then left_tree t else right_tree t) = true /\
  known_path p (if b then left_tree t else right_tree t).
Proof.
  destruct t as [|h sz base lb v l r]; [done|]. intros [_ H]. simpl. split; [|done].
  destruct p; [by destruct (if b then l else r)|].
  destruct (if b then l else r); [done|]. by destruct H.
Qed.

(** The hash of a verified node is that of the genuine tree with the same root, unless the two
    trees exhibit a collision of the hash function on the way. *)
Lemma verified_binding lb sz p t g : shaped lb sz t -> shaped lb sz g -> verified t -> complete g ->
  GetHash t = GetHash g -> known_path p t ->
  GetHash (node_at p t) = GetHash (node_at p g) \/
  exists q, q `prefix_of` p /\ pair_of (node_at q t) <> pair_of (node_at q g) /\
    sha1 (pair_of (node_at q t)) = sha1 (pair_of (node_at q g)).
Proof.
  revert lb sz t g. induction p as [|b p IH]; intros lb sz t g Hst Hsg Ht Hg E Hp; [by left|].
  destruct (known_path_head b p t Hp) as [Hv Hp'].
  destruct t as [|h n base lb' v l r]; [done|]. destruct g as [|hg n' base' lb'' vg gl gr]; [done|].
  destruct Hst as (-> & -> & -> & _ & Hc & Hn), Hsg as (-> & -> & -> & _ & Hcg & Hng).
  simpl in E, Hv, Hp'. subst hg. destruct Ht as [_ Ht], Hg as [_ Hg]. rewrite leaf_size in Hg.
  destruct (Z.leb_spec sz EMBLOCKSIZE) as [Hle|Hgt].
  { destruct (Hn Hle) as [-> ->]. by destruct b. }
  destruct (Hc Hgt) as [Hcl Hcr], (Hcg Hgt) as [Hcgl Hcgr].
  destruct Ht as [(Hl & Hr & Eh)|[Vl Vr]]; [|destruct b; congruence]. destruct Hg as (Hgl & Hgr & Ehg).
  destruct (decide (GetHash l ++ GetHash r = GetHash gl ++ GetHash gr)) as [Ep|Ep].
  2: { right. exists []. split; [apply prefix_nil|]. split; [exact Ep|]. unfold pair_of. simpl. congruence. }
  apply app_inj_1 in Ep as [El Er].
  2: { rewrite (GetHash_length true (lsize sz lb) l), (GetHash_length true (lsize sz lb) gl);
       auto using verified_full, complete_full. }
  destruct (IH b (if b then lsize sz lb else rsize sz lb) (if b then l else r) (if b then gl else gr))
    as [IH'|(q & Hq & IH')]; try by destruct b.
  - left. exact IH'.
  - right. exists (b :: q). split; [by apply prefix_cons|]. exact IH'.
Qed.

(** ** Operations keep the shape *)

Hypothesis sha1_ok : forall x, Forall is_byte x -> sha_ok (sha1 x).

Lemma ReCalculateHash_shaped b lb sz t : shaped lb sz t ->
  shaped lb sz (ReCalculateHash sha1 b t).2 /\ is_null (ReCalculateHash sha1 b t).2 = is_null t.
Proof.
  revert lb sz. induction t as [|h n base lb' v l IHl r IHr]; intros lb sz Ht; [done|].
  pose proof Ht as (-> & -> & -> & Hh & Hc & Hn). simpl.
  destruct (is_null_spec l) as [Nl|Nl], (is_null_spec r) as [Nr|Nr]; simpl; try done.
  destruct (Z.le_gt_cases sz EMBLOCKSIZE) as [Hle|Hgt]; [by destruct (Hn Hle)|].
  destruct (Hc ltac:(lia)) as [Hcl Hcr].
  destruct (IHl _ _ Hcl) as [Sl Fl], (IHr _ _ Hcr) as [Sr Fr].
  assert (forall h v l r, sha_ok h -> shaped true (lsize sz lb) l -> shaped false (rsize sz lb) r ->
    shaped lb sz (Tree h sz (base_size sz) lb v l r)) as Hmk.
  { intros. simpl. split_and!; try done; lia. }
  destruct (ReCalculateHash sha1 b l) as [okl l'], (ReCalculateHash sha1 b r) as [okr r'].
  simpl in Sl, Sr, Fl, Fr. destruct okl; cbn [negb]; [|split; [by apply Hmk|done]].
  destruct okr; cbn [negb]; [|split; [by apply Hmk|done]].
  destruct (b && v); [split; [by apply Hmk|done]|].
  destruct (GetHashValid r' && GetHashValid l'); (split; [|done]); apply Hmk; try done. apply sha1_ok.
  assert (forall lb sz t, shaped lb sz t -> Forall is_byte (GetHash t)) as Hb.
  { intros lb1 sz1 t1 H1. destruct t1; [by constructor|]. by destruct H1 as (_ & _ & _ & [H1 _] & _). }
  apply Forall_app. split; by eapply Hb.
Qed.

Lemma recalculate_missing_shaped lb sz t : shaped lb sz t -> shaped lb sz (recalculate_missing sha1 t).
Proof.
  intros Ht. unfold recalculate_missing. destruct (negb (is_null t) && negb (GetHashValid t)); [|done].
  by apply ReCalculateHash_shaped.
Qed.

Lemma VerifyHashTree_shaped del fuel lb sz t : shaped lb sz t ->
  let t' := (VerifyHashTree_rec sha1 fuel del t).2 in
  shaped lb sz t' /\ GetHash t' = GetHash t /\ GetHashValid t' = GetHashValid t /\ is_null t' = is_null t.
Proof.
  revert lb sz t. induction fuel as [|fuel IH]; intros lb sz t Ht; [done|].
  destruct t as [|h n base lb' v l r]; [done|]. pose proof Ht as (-> & -> & -> & Hh & Hc & Hn). cbn zeta. simpl.
  assert (forall lb sz x, shaped lb sz x -> let x' := recalculate_missing sha1 x in
    shaped lb sz x' /\ is_null x' = is_null x) as Hrec.
  { intros lb1 sz1 x Hx. split; [by apply recalculate_missing_shaped|]. unfold recalculate_missing.
    destruct (negb (is_null x) && negb (GetHashValid x)); [|done]. by apply (ReCalculateHash_shaped true lb1 sz1). }
  assert (forall l' r', (EMBLOCKSIZE < sz -> (shaped true (lsize sz lb) l' /\ is_null l' = is_null l) /\
      (shaped false (rsize sz lb) r' /\ is_null r' = is_null r)) ->
    (sz <= EMBLOCKSIZE -> l' = NULL /\ r' = NULL) ->
    shaped lb sz (Tree h sz (base_size sz) lb v l' r')) as Hmk.
  { intros l' r' H1 H2. simpl. split_and!; try done. intros H. by destruct (H1 H) as [[? _] [? _]]. }
  assert (forall l' r', shaped lb sz (Tree h sz (base_size sz) lb v l' r') ->
    let t' := if del then Tree h sz (base_size sz) lb v NULL NULL else Tree h sz (base_size sz) lb v l' r' in
    shaped lb sz t' /\ GetHash t' = h /\ GetHashValid t' = v /\ is_null t' = false) as Hcut.
  { intros l' r' H1. destruct del; [simpl; by split_and!|done]. }
  destruct v; cbn [negb]; [|by apply (Hcut l r)].
  set (l0 := recalculate_missing sha1 l). set (r0 := recalculate_missing sha1 r).
  assert (EMBLOCKSIZE < sz -> (shaped true (lsize sz lb) l0 /\ is_null l0 = is_null l) /\
      (shaped false (rsize sz lb) r0 /\ is_null r0 = is_null r)) as H0.
  { intros H. destruct (Hc H). split; by apply Hrec. }
  assert (sz <= EMBLOCKSIZE -> l0 = NULL /\ r0 = NULL) as H0'.
  { intros H. unfold l0, r0. by destruct (Hn H) as [-> ->]. }
  destruct (xorb (GetHashValid r0) (GetHashValid l0)); [by apply Hcut, Hmk|].
  destruct (GetHashValid r0 && GetHashValid l0); [|split; [by apply Hmk|done]].
  destruct (negb (bool_decide (h = parent_hash sha1 (GetHash l0) (GetHash r0) []))); [by apply Hcut, Hmk|].
  destruct (VerifyHashTree_rec sha1 fuel del l0) as [okl l'] eqn:El.
  destruct (VerifyHashTree_rec sha1 fuel del r0) as [okr r'] eqn:Er.
  assert (forall x, (VerifyHashTree_rec sha1 fuel del NULL) = x -> x = (false, NULL)) as Hnil by (by destruct fuel).
  assert (sz <= EMBLOCKSIZE -> l' = NULL /\ r' = NULL) as H1'.
  { intros H. destruct (H0' H) as [Nl Nr]. rewrite Nl in El. rewrite Nr in Er.
    apply Hnil in El, Er. by injection El as _ ->; injection Er as _ ->. }
  assert (EMBLOCKSIZE < sz -> (shaped true (lsize sz lb) l' /\ is_null l' = is_null l) /\
      (shaped false (rsize sz lb) r' /\ is_null r' = is_null r)) as H1.
  { intros H. destruct (H0 H) as [[S1 N1] [S2 N2]].
    destruct (IH _ _ l0 S1) as (? & _ & _ & N3), (IH _ _ r0 S2) as (? & _ & _ & N4).
    rewrite El in *. rewrite Er in *. simpl in *. split; split; try done; congruence. }
  destruct okl; simpl; (split; [|done]); apply Hmk; try done.
  - intros H. destruct (H0 H) as [_ ?], (H1 H) as [? _]. done.
  - intros H. destruct (H0' H) as [_ ?], (H1' H) as [? _]. done.
Qed.

End Spec.

(** ** Identifiers *)

Fixpoint path_bits (p : list bool) : Z :=
  match p with [] => 0 | b :: p => branch_bit b * 2 ^ Z.of_nat (length p) + path_bits p end.

(** A leading 1, then a bit for every branch. *)
Definition path_ident (p : list bool) : Z := 2 ^ Z.of_nat (length p) + path_bits p.

Lemma path_bits_range p : 0 <= path_bits p < 2 ^ Z.of_nat (length p).
Proof.
  induction p as [|b p IH]; [done|]. simpl length. rewrite Nat2Z.inj_succ, Z.pow_succ_r by lia.
  simpl. destruct b; simpl branch_bit; lia.
Qed.

Lemma path_bits_app p q : path_bits (p ++ q) = path_bits p * 2 ^ Z.of_nat (length q) + path_bits q.
Proof.
  induction p as [|b p IH]; [done|]. simpl. rewrite IH, length_app, Nat2Z.inj_add, Z.pow_add_r by lia. lia.
Qed.

Lemma path_ident_snoc p b : path_ident (p ++ [b]) = 2 * path_ident p + branch_bit b.
Proof.
  unfold path_ident. rewrite path_bits_app, length_app, Nat2Z.inj_add, Z.pow_add_r by lia. simpl. lia.
Qed.

Lemma path_ident_range p : 2 ^ Z.of_nat (length p) <= path_ident p < 2 ^ (Z.of_nat (length p) + 1).
Proof. unfold path_ident. pose proof (path_bits_range p). rewrite Z.pow_add_r by lia. lia. Qed.

Lemma push_bit_spec i lb : 0 <= i < 2 ^ 31 -> push_bit i lb = 2 * i + branch_bit lb.
Proof.
  intros Hi. unfold push_bit. rewrite Z.shiftl_mul_pow2 by lia. change (2 ^ 1) with 2.
  rewrite wrap_small by width_lia. apply Z.bits_inj'. intros j Hj. rewrite Z.lor_spec.
  replace (i * 2) with (2 * i) by lia. destruct (Z.eq_dec j 0) as [->|Hne].
  - rewrite Z.testbit_even_0. destruct lb; simpl branch_bit; [by rewrite Z.testbit_odd_0|].
    by rewrite Z.add_0_r, Z.testbit_even_0.
  - replace j with (Z.succ (j - 1)) by lia. rewrite Z.testbit_even_succ by lia.
    destruct lb; simpl branch_bit.
    + rewrite Z.testbit_odd_succ by lia. change 1 with (2 * 0 + 1) at 2.
      rewrite Z.testbit_odd_succ, Z.bits_0 by lia. apply orb_false_r.
    + rewrite Z.bits_0, Z.add_0_r, Z.testbit_even_succ by lia. apply orb_false_r.
Qed.

(** The top bit of a 32-bit value. *)
Lemma top_bit_land w : 0 <= w < 2 ^ 32 -> Z.land w 0x80000000 = if w <? 2 ^ 31 then 0 else 0x80000000.
Proof.
  intros Hw. change 0x80000000 with (2 ^ 31). apply Z.bits_inj'. intros j Hj.
  rewrite Z.land_spec, Z.pow2_bits_eqb by lia. destruct (Z.eqb_spec 31 j) as [<-|Hne].
  - rewrite andb_true_r. destruct (Z.ltb_spec w (2 ^ 31)) as [Hlt|Hge].
    + rewrite Z.bits_0. apply (testbit_in_width 31); unfold in_width; lia.
    + rewrite Z.pow2_bits_true by lia. rewrite Z.testbit_true by lia.
      assert (w / 2 ^ 31 = 1) as ->; [|done]. norm_pow. change (2 ^ 31) with 2147483648 in *. lia.
  - rewrite andb_false_r. destruct (w <? 2 ^ 31); [by rewrite Z.bits_0|].
    by rewrite Z.pow2_bits_false by lia.
Qed.

Lemma top_bit_spec n k i : (k <= n)%nat -> (n < 32)%nat -> 2 ^ Z.of_nat k <= i < 2 ^ (Z.of_nat k + 1) ->
  top_bit (S n) (i * 2 ^ (31 - Z.of_nat n)) = Some (k, i * 2 ^ (31 - Z.of_nat k)).
Proof.
  revert k i. induction n as [|n IH]; intros k i Hk Hn Hi.
  - assert (k = 0%nat) as -> by lia. simpl in Hi. assert (i = 1) as -> by lia. done.
  - set (m := 31 - Z.of_nat (S n)). assert (0 <= m < 31) as Hm by lia.
    assert (2 ^ (Z.of_nat k + 1) * 2 ^ m = 2 ^ (Z.of_nat k + 1 + m)) as Ep by (rewrite <- Z.pow_add_r by lia; done).
    assert (0 < 2 ^ m) as Hpm by (apply Z.pow_pos_nonneg; lia).
    assert (2 ^ (Z.of_nat k + 1 + m) <= 2 ^ 32) as Hle by (apply Z.pow_le_mono_r; lia).
    cbn [top_bit]. rewrite top_bit_land by nia.
    destruct (Nat.eq_dec k (S n)) as [->|Hne].
    + assert (2 ^ Z.of_nat (S n) * 2 ^ m = 2 ^ 31) as E31 by (rewrite <- Z.pow_add_r by lia; f_equal; lia).
      rewrite (proj2 (Z.ltb_ge _ _)) by nia. done.
    + assert (2 ^ (Z.of_nat k + 1 + m) <= 2 ^ 31) as Hle' by (apply Z.pow_le_mono_r; lia).
      rewrite (proj2 (Z.ltb_lt _ _)) by nia. simpl Z.eqb. cbv iota.
      rewrite Z.shiftl_mul_pow2, wrap_small by (unfold in_width; lia || nia).
      replace (i * 2 ^ m * 2 ^ 1) with (i * 2 ^ (31 - Z.of_nat n)); [apply IH; lia|].
      replace (31 - Z.of_nat n) with (m + 1) by lia. rewrite Z.pow_add_r by lia. lia.
Qed.

(** ** The hashes of a tree that are stored and sent *)

Abbreviation entry := (list bool * list Z)%type (only parsing).

(** Entries of a subtree, seen from the node [p] above it. *)
Definition under (p : list bool) (es : list entry) : list entry := (fun e => (p ++ e.1, e.2)) <$> es.

Lemma under_nil es : under [] es = es.
Proof. unfold under. induction es as [|[q h] es IH]; [done|]. rewrite fmap_cons, IH. done. Qed.

Lemma under_app p es es' : under p (es ++ es') = under p es ++ under p es'.
Proof. apply fmap_app. Qed.

Lemma under_under p q es : under p (under q es) = under (p ++ q) es.
Proof. unfold under. induction es as [|[e h] es IH]; [done|]. rewrite !fmap_cons, IH. simpl. by rewrite app_assoc. Qed.

(** The lowest level from left to right. *)
Fixpoint blocks (t : CAICHHashTree) : list entry :=
  match t with
  | NULL => []
  | Tree h _ _ _ _ l r =>
      if is_null l && is_null r then [([], h)] else under [true] (blocks l) ++ under [false] (blocks r)
  end.

(** What proves the blocks of the node at [p]: the siblings on the way down, then the blocks. *)
Fixpoint recovery (p : list bool) (t : CAICHHashTree) : list entry :=
  match p, t with
  | [], _ => blocks t
  | _, NULL => []
  | b :: p, Tree _ _ _ _ _ l r =>
      ([negb b], GetHash (if b : bool then r else l)) ::
      under [b] (recovery p (if b : bool then l else r))
  end.

Definition ident_bytes (b32BitIdent : bool) (p : list bool) : list Z :=
  if b32BitIdent then poke_le 4 (path_ident p) else poke_le 2 (u16 (path_ident p)).

Definition entry_bytes (bNoIdent b32BitIdent : bool) (e : entry) : list Z :=
  (if bNoIdent then [] else ident_bytes b32BitIdent e.1) ++ e.2.

Definition entries_bytes (bNoIdent b32BitIdent : bool) (es : list entry) : list Z :=
  concat (entry_bytes bNoIdent b32BitIdent <$> es).

Lemma entries_bytes_app n b es es' : entries_bytes n b (es ++ es') = entries_bytes n b es ++ entries_bytes n b es'.
Proof. unfold entries_bytes. by rewrite fmap_app, concat_app. Qed.

(** How many levels of identifiers there are below a node. *)
Lemma path_ident_31 p : (length p <= 30)%nat -> 0 <= path_ident p < 2 ^ 31.
Proof.
  intros Hl. pose proof (path_ident_range p).
  pose proof (Z.pow_le_mono_r 2 (Z.of_nat (length p) + 1) 31).
  pose proof (Z.pow_nonneg 2 (Z.of_nat (length p))). lia.
Qed.

Lemma push_ident p b : (length p <= 30)%nat -> push_bit (path_ident p) b = path_ident (p ++ [b]).
Proof. intros Hl. rewrite push_bit_spec by (by apply path_ident_31). symmetry. apply path_ident_snoc. Qed.

Section Written.

Context (sha1 : list Z -> list Z).
Context {F : Type} {IOF : CFileDataIO F} {laws : FileLaws F}.

#[local] Open Scope io_scope.

Lemma writes_ident b32 p : writes (write_ident b32 (path_ident p)) (ident_bytes b32 p) tt.
Proof. unfold write_ident, ident_bytes. destruct b32; simpl; by apply writes_int. Qed.

Lemma writes_sha h : sha_ok h -> writes (CAICHHash_Write h) h tt.
Proof. intros [Hb Hl]. apply writes_Write; [done|lia]. Qed.

Lemma complete_kids lb sz h n base lb' v l r : complete sha1 (Tree h n base lb' v l r) ->
  shaped lb sz (Tree h n base lb' v l r) -> EMBLOCKSIZE < sz ->
  complete sha1 l /\ complete sha1 r /\ shaped true (lsize sz lb) l /\ shaped false (rsize sz lb) r /\
  h = sha1 (GetHash l ++ GetHash r).
Proof.
  intros [_ Hg] (-> & -> & -> & Hh & Hc & Hn) Hs. rewrite leaf_size in Hg.
  rewrite (proj2 (Z.leb_gt sz EMBLOCKSIZE)) in Hg by lia. destruct (Hc Hs). tauto.
Qed.

Lemma writes_lowest k p w lb sz noid b32 t : complete sha1 t -> shaped lb sz t -> fits k sz ->
  (length p + k <= 30)%nat -> push_bit w lb = path_ident p ->
  writes (WriteLowestLevelHashs t w noid b32) (entries_bytes noid b32 (under p (blocks t))) true.
Proof.
  revert p w lb sz k. induction t as [|h n base lb' v l IHl r IHr]; intros p w lb sz k Hg Hs Hf Hk Hw; [done|].
  pose proof Hs as (-> & -> & -> & Hh & Hc & Hn). destruct (Z.le_gt_cases sz EMBLOCKSIZE) as [Hle|Hgt].
  - destruct (Hn Hle) as [-> ->]. destruct Hg as [-> _]. simpl. rewrite leaf_size, (proj2 (Z.leb_le _ _)) by done.
    rewrite Hw, app_nil_r. simpl. unfold entries_bytes. simpl. rewrite app_nil_r. eapply writes_bind.
    + instantiate (1 := tt). destruct noid; [apply writes_ret|apply writes_ident].
    + eapply writes_last. by apply writes_sha.
  - destruct (complete_kids lb sz h sz (base_size sz) lb v l r Hg Hs ltac:(lia)) as (Hl & Hr & Hcl & Hcr & _).
    destruct k as [|k]; [apply fits_0 in Hf; lia|].
    destruct (fits_child k sz lb Hf ltac:(lia)) as [HfL HfR].
    simpl. rewrite (complete_full sha1 l), (complete_full sha1 r) by done. simpl.
    rewrite under_app, !under_under, entries_bytes_app. eapply writes_bind.
    + apply (IHl (p ++ [true]) _ true (lsize sz lb) k); rewrite ?length_app; simpl; try done; [lia|].
      rewrite Hw. apply push_ident. lia.
    + apply (IHr (p ++ [false]) _ false (rsize sz lb) k); rewrite ?length_app; simpl; try done; [lia|].
      rewrite Hw. apply push_ident. lia.
Qed.

Lemma writes_recovery k p0 w lb sz s n p b32 t : locates lb sz s n p -> complete sha1 t -> shaped lb sz t ->
  fits k sz -> (length p0 + k <= 30)%nat -> 0 < sz < 2 ^ 63 -> push_bit w lb = path_ident p0 ->
  writes (CreatePartRecoveryData t s n w b32) (entries_bytes false b32 (under p0 (recovery p t))) true.
Proof.
  intros H. revert k p0 w t.
  induction H as [lb sz|lb sz s n p Hs Hn H0 H1 H2 H IH|lb sz s n p Hs Hn H0 H1 H2 H IH];
    intros k p0 w t Hg Ht Hf Hk Hsz Hw; (destruct t as [|h sz' base lb' v l r]; [done|]);
    pose proof Ht as (-> & -> & -> & Hh & _).
  - assert (u64 (0 + sz) = sz) as E64 by (rewrite wrap_small; [lia|width_lia]).
    cbn [CreatePartRecoveryData]. rewrite E64, Z.leb_refl, !Z.eqb_refl. cbn [negb andb recovery].
    by apply (writes_lowest k p0 w lb sz).
  - destruct (complete_kids lb sz _ _ _ _ _ _ _ Hg Ht ltac:(lia)) as (Hl & Hr & Hcl & Hcr & _).
    destruct k as [|k]; [apply fits_0 in Hf; lia|]. destruct (fits_child k sz lb Hf Hs) as [HfL HfR].
    pose proof (lsize_range sz lb Hs). assert (u64 (s + n) = s + n) as E64 by (apply wrap_small; width_lia).
    simpl. rewrite E64, leaf_size. fold (lsize sz lb). rewrite (proj2 (Z.leb_le (s + n) sz)),
      (proj2 (Z.leb_le n sz)), (proj2 (Z.eqb_neq n sz)), andb_false_r, (proj2 (Z.leb_gt sz EMBLOCKSIZE)),
      (proj2 (Z.ltb_lt s (lsize sz lb))), Z.gtb_ltb, (proj2 (Z.ltb_ge (lsize sz lb) (s + n))) by lia.
    rewrite (complete_full sha1 l), (complete_full sha1 r), (complete_valid sha1 r) by done. simpl.
    rewrite Hw, under_under. unfold entries_bytes. rewrite fmap_cons, concat_cons. eapply writes_bind.
    + instantiate (1 := tt). destruct r as [|hr ? ? br ? ? ?]; [done|]. destruct Hcr as (_ & _ & -> & Hhr & _).
      simpl. rewrite push_ident by lia. eapply writes_bind; [apply writes_ident|by apply writes_sha].
    + apply (IH k (p0 ++ [true])); rewrite ?length_app; simpl; try done; [lia|lia|]. apply push_ident. lia.
  - destruct (complete_kids lb sz _ _ _ _ _ _ _ Hg Ht ltac:(lia)) as (Hl & Hr & Hcl & Hcr & _).
    destruct k as [|k]; [apply fits_0 in Hf; lia|]. destruct (fits_child k sz lb Hf Hs) as [HfL HfR].
    pose proof (lsize_range sz lb Hs). assert (u64 (s + n) = s + n) as E64 by (apply wrap_small; width_lia).
    assert (u64 (s - lsize sz lb + n) = s - lsize sz lb + n) as E64' by (apply wrap_small; width_lia).
    simpl. rewrite E64, leaf_size. fold (lsize sz lb). fold (rsize sz lb). rewrite E64',
      (proj2 (Z.leb_le (s + n) sz)), (proj2 (Z.leb_le n sz)), (proj2 (Z.eqb_neq n sz)), andb_false_r,
      (proj2 (Z.leb_gt sz EMBLOCKSIZE)), (proj2 (Z.ltb_ge s (lsize sz lb))), Z.gtb_ltb,
      (proj2 (Z.ltb_ge (rsize sz lb) (s - lsize sz lb + n))) by (unfold rsize; lia).
    rewrite (complete_full sha1 l), (complete_full sha1 r), (complete_valid sha1 l) by done. simpl.
    rewrite Hw, under_under. unfold entries_bytes. rewrite fmap_cons, concat_cons. eapply writes_bind.
    + instantiate (1 := tt). destruct l as [|hl ? ? bl ? ? ?]; [done|]. destruct Hcl as (_ & _ & -> & Hhl & _).
      simpl. rewrite push_ident by lia. eapply writes_bind; [apply writes_ident|by apply writes_sha].
    + apply (IH k (p0 ++ [false])); rewrite ?length_app; unfold rsize in *; simpl; try done; [lia|lia|].
      apply push_ident. lia.
Qed.

End Written.

(** ** Reading hashes into a tree *)

(** The hash of the node at a path is set; missing nodes on the way are created. *)
Fixpoint put (p : list bool) (h : list Z) (t : CAICHHashTree) : CAICHHashTree :=
  match p, t with
  | [], _ => set_hash h t
  | _, NULL => NULL
  | b :: p, Tree h' sz base lb v l r =>
      let nLeft := left_size sz base lb in
      if b : bool then Tree h' sz base lb v (put p h (child_or_new l nLeft true)) r
      else Tree h' sz base lb v l (put p h (child_or_new r (sz - nLeft) false))
  end.

Definition put_all (es : list entry) (t : CAICHHashTree) : CAICHHashTree :=
  fold_left (fun t e => put e.1 e.2 t) es t.

(** The path ends inside a tree over [sz] bytes. *)
Fixpoint inside (lb : bool) (sz : Z) (p : list bool) : Prop :=
  match p with
  | [] => True
  | b :: p => EMBLOCKSIZE < sz /\ inside b (if b : bool then lsize sz lb else rsize sz lb) p
  end.

Lemma put_shaped lb sz p h t : shaped lb sz t -> inside lb sz p -> sha_ok h -> shaped lb sz (put p h t).
Proof.
  revert lb sz t. induction p as [|b p IH]; intros lb sz t Ht Hp Hh;
    (destruct t as [|h' n base lb' v l r]; [done|]); destruct Ht as (-> & -> & -> & Hh' & Hc & Hn).
  - simpl. split_and!; done.
  - destruct Hp as [Hs Hp]. destruct (Hc Hs) as [Hcl Hcr]. simpl. fold (lsize sz lb). fold (rsize sz lb).
    assert (sz <= EMBLOCKSIZE -> False) as Hno by lia.
    destruct b; simpl; split_and!; try done; intros _; (split; [|done]) || (split; [done|]);
      (apply IH; [by apply shaped_child_or_new|done|done]).
Qed.

Lemma put_full p h t : is_null (put p h t) = is_null t.
Proof. destruct p as [|[] p], t; done. Qed.

Section Loaded.

Context {F : Type} {IOF : CFileDataIO F} {laws : FileLaws F}.

(** [m] consumes [bs], reports [true] and leaves the tree [t]. *)
Definition loads (m : F -> (exn + bool) * CAICHHashTree * F) (bs : list Z) (t : CAICHHashTree) : Prop :=
  forall f rest, file_ok f -> GetPosition f <= GetLength f ->
  drop (Z.to_nat (GetPosition f)) (content f) = bs ++ rest ->
  exists f', m f = (inr true, t, f') /\ file_ok f' /\ content f' = content f /\
    GetPosition f' = GetPosition f + Z.of_nat (length bs).

Lemma loads_read h t : sha_ok h -> loads (read_into t) h (set_hash h t).
Proof.
  intros [_ Hl] f rest Hf Hp E. unfold read_into, CAICHHash_Read, HASHSIZE.
  replace 20 with (Z.of_nat (length h)) by lia.
  destruct (parses_Read h ltac:(lia) f rest Hf Hp E) as (f' & -> & ?). by exists f'.
Qed.

(** The remaining identifier of a descent: the bits of the path below a top bit. *)
Lemma SetHash_rec_spec lb sz p h t w (top : bool) :
  shaped lb sz t -> is_null t = false -> inside lb sz p -> sha_ok h -> (length p <= 31)%nat ->
  w = branch_bit top * 2 ^ 31 + path_bits p * 2 ^ (31 - Z.of_nat (length p)) ->
  loads (SetHash_rec (length p) t w true) h (put p h t).
Proof.
  revert lb sz t w top. induction p as [|b p IH]; intros lb sz t w top Ht Hnn Hp Hh Hl Hw.
  - cbn [length SetHash_rec put]. unfold loads. setoid_rewrite andb_false_r. by apply loads_read.
  - destruct t as [|h' n base lb' v l r]; [done|]. pose proof Ht as (-> & -> & -> & _ & Hc & _).
    destruct Hp as [Hs Hp]. destruct (Hc Hs) as [Hcl Hcr]. cbn [length SetHash_rec].
    unfold loads. rewrite leaf_size, (proj2 (Z.leb_gt sz EMBLOCKSIZE)) by lia.
    fold (lsize sz lb). fold (rsize sz lb). cbn [length path_bits] in Hw.
    set (m := 31 - Z.of_nat (length p)) in *.
    assert (0 <= m <= 31) as Hm by (simpl in Hl; lia). simpl length in Hl.
    replace (31 - Z.of_nat (S (length p))) with (m - 1) in Hw by lia.
    assert (2 ^ m = 2 * 2 ^ (m - 1)) as Em by (rewrite <- Z.pow_succ_r by lia; f_equal; lia).
    assert (2 ^ Z.of_nat (length p) * 2 ^ m = 2 ^ 31) as E31 by (rewrite <- Z.pow_add_r by lia; f_equal; lia).
    pose proof (path_bits_range p) as Hpb. assert (0 < 2 ^ (m - 1)) as Hpos by (apply Z.pow_pos_nonneg; lia).
    assert (0 <= path_bits p * 2 ^ m < 2 ^ 31) as Hb31 by nia.
    assert (u32 (Z.shiftl w 1) = branch_bit b * 2 ^ 31 + path_bits p * 2 ^ m) as Ew.
    { rewrite Z.shiftl_mul_pow2, Hw by lia.
      replace ((branch_bit top * 2 ^ 31 + (branch_bit b * 2 ^ Z.of_nat (length p) + path_bits p) * 2 ^ (m - 1)) * 2 ^ 1)
        with (branch_bit b * (2 ^ Z.of_nat (length p) * 2 ^ m) + path_bits p * 2 ^ m + branch_bit top * 2 ^ 32)
        by (rewrite Em; lia).
      rewrite E31. unfold wrap. rewrite Z_mod_plus_full, Z.mod_small; [done|]. destruct b; simpl branch_bit; lia. }
    rewrite Ew, top_bit_land by (destruct b; simpl branch_bit; lia).
    destruct b; simpl branch_bit; [rewrite (proj2 (Z.ltb_ge _ _)) by lia|rewrite (proj2 (Z.ltb_lt _ _)) by lia];
      simpl Z.gtb; cbv iota; intros f rest Hf Hpos' E.
    + destruct (IH true (lsize sz lb) (child_or_new l (lsize sz lb) true) (1 * 2 ^ 31 + path_bits p * 2 ^ m) true)
        with (f := f) (rest := rest) as (f' & -> & H1); try done; try lia;
        [by apply shaped_child_or_new|by destruct l|]. by exists f'.
    + destruct (IH false (rsize sz lb) (child_or_new r (rsize sz lb) false) (0 * 2 ^ 31 + path_bits p * 2 ^ m) false)
        with (f := f) (rest := rest) as (f' & -> & H1); try done; try lia;
        [by apply shaped_child_or_new|by destruct r|]. by exists f'.
Qed.

(** Reading a hash by its identifier sets the node at the path. *)
Lemma SetHash_spec lb sz p h t : shaped lb sz t -> is_null t = false -> inside lb sz p -> sha_ok h ->
  p <> [] -> (length p <= 31)%nat -> loads (SetHash t (path_ident p) false) h (put p h t).
Proof.
  intros Ht Hnn Hp Hh Hne Hl. unfold SetHash, loads.
  pose proof (top_bit_spec 31 (length p) (path_ident p) ltac:(lia) ltac:(lia) (path_ident_range p)) as Etop.
  simpl Z.sub in Etop. rewrite Z.mul_1_r in Etop. rewrite Etop. clear Etop.
  assert (forall w f, SetHash_rec (length p) t w false f = SetHash_rec (length p) t w true f) as Hover.
  { intros w f. destruct p; [done|]. by destruct t. }
  setoid_rewrite Hover. apply (SetHash_rec_spec lb sz p h t _ true); try done.
  unfold path_ident. simpl branch_bit. rewrite Z.mul_add_distr_r, <- Z.pow_add_r by lia.
  replace (Z.of_nat (length p) + (31 - Z.of_nat (length p))) with 31 by lia. lia.
Qed.

End Loaded.

(** ** Trees with the hashes of a complete one *)

(** The same blocks as [g]; inner hashes may be missing. *)
Fixpoint same_blocks (t g : CAICHHashTree) : Prop :=
  match t, g with
  | Tree _ n base lb _ l r, Tree _ n' base' lb' _ l' r' =>
      n = n' /\ base = base' /\ lb = lb' /\
      if n <=? base then t = g else same_blocks l l' /\ same_blocks r r'
  | _, _ => False
  end.

Lemma entries_noident b p es : entries_bytes true b (under p es) = entries_bytes true b es.
Proof.
  induction es as [|e es IH]; [done|].
  change (entries_bytes true b (under p (e :: es))) with (e.2 ++ entries_bytes true b (under p es)). by rewrite IH.
Qed.

Lemma leaf_blocks lb sz t : shaped lb sz t -> is_null t = false -> sz <= EMBLOCKSIZE ->
  exists v, t = Tree (GetHash t) sz (base_size sz) lb v NULL NULL.
Proof.
  destruct t as [|h n base lb' v l r]; [done|]. intros (-> & -> & -> & _ & _ & Hn) _ Hle.
  destruct (Hn Hle) as [-> ->]. by exists v.
Qed.

Section Rebuilt.

Context (sha1 : list Z -> list Z).

Lemma complete_leaf lb sz g : complete sha1 g -> shaped lb sz g -> sz <= EMBLOCKSIZE ->
  g = Tree (GetHash g) sz (base_size sz) lb true NULL NULL.
Proof.
  intros Hg Hs Hle. destruct (leaf_blocks lb sz g Hs (complete_full sha1 g Hg) Hle) as [v E].
  rewrite E in Hg |- *. destruct Hg as [-> _]. done.
Qed.

Lemma complete_node lb sz g : complete sha1 g -> shaped lb sz g -> EMBLOCKSIZE < sz ->
  exists l r, g = Tree (sha1 (GetHash l ++ GetHash r)) sz (base_size sz) lb true l r /\
    complete sha1 l /\ complete sha1 r /\ shaped true (lsize sz lb) l /\ shaped false (rsize sz lb) r.
Proof.
  intros Hg Hs Hgt. destruct g as [|h n base lb' v l r]; [done|].
  destruct (complete_kids sha1 lb sz _ _ _ _ _ _ _ Hg Hs Hgt) as (? & ? & ? & ? & ->).
  destruct Hs as (-> & -> & -> & _), Hg as [-> _]. by exists l, r.
Qed.

Lemma ReCalculateHash_rebuilds lb sz t g : same_blocks t g -> complete sha1 g -> shaped lb sz g ->
  ReCalculateHash sha1 false t = (true, g).
Proof.
  revert lb sz g. induction t as [|h n base lb' v l IHl r IHr]; intros lb sz g Hb Hg Hs; [done|].
  destruct (Z.le_gt_cases sz EMBLOCKSIZE) as [Hle|Hgt].
  - rewrite (complete_leaf lb sz g Hg Hs Hle) in Hb |- *. destruct Hb as (-> & -> & -> & Hb).
    rewrite leaf_size, (proj2 (Z.leb_le _ _)) in Hb by done. by injection Hb as -> -> -> ->.
  - destruct (complete_node lb sz g Hg Hs ltac:(lia)) as (gl & gr & -> & Hgl & Hgr & Hsl & Hsr).
    destruct Hb as (-> & -> & -> & Hb).
    rewrite leaf_size, (proj2 (Z.leb_gt sz EMBLOCKSIZE)) in Hb by lia. destruct Hb as [Hbl Hbr].
    simpl. rewrite (IHl _ _ gl Hbl Hgl Hsl), (IHr _ _ gr Hbr Hgr Hsr). simpl.
    rewrite (complete_valid sha1 gl), (complete_valid sha1 gr) by done.
    destruct l; [by destruct gl|]. destruct r; [by destruct gr|]. simpl.
    done.
Qed.

Context {F : Type} {IOF : CFileDataIO F} {laws : FileLaws F}.

(** The hashes of the lowest level, as they are stored, rebuild them. *)
Lemma LoadLowestLevelHashs_spec b fuel k lb sz t g : shaped lb sz t -> is_null t = false ->
  complete sha1 g -> shaped lb sz g -> fits k sz -> (k < fuel)%nat ->
  exists t', loads (LoadLowestLevelHashs_rec fuel t) (entries_bytes true b (blocks g)) t' /\ same_blocks t' g.
Proof.
  revert k lb sz t g. induction fuel as [|fuel IH]; intros k lb sz t g Ht Hnn Hg Hs Hf Hk; [lia|].
  destruct t as [|h n base lb' v l r]; [done|]. pose proof Ht as (-> & -> & -> & Hh & Hc & Hn).
  destruct (Z.le_gt_cases sz EMBLOCKSIZE) as [Hle|Hgt].
  - pose proof Hs as Hs'. rewrite (complete_leaf lb sz g Hg Hs Hle) in Hs' |- *. destruct (Hn Hle) as [-> ->].
    exists (Tree (GetHash g) sz (base_size sz) lb true NULL NULL). split.
    + unfold loads. cbn [LoadLowestLevelHashs_rec]. rewrite leaf_size, (proj2 (Z.leb_le _ _)) by done.
      unfold entries_bytes. simpl. rewrite app_nil_r. apply loads_read. by destruct Hs' as (_ & _ & _ & ? & _).
    + simpl. rewrite leaf_size, (proj2 (Z.leb_le _ _)) by done. done.
  - destruct (complete_node lb sz g Hg Hs ltac:(lia)) as (gl & gr & -> & Hgl & Hgr & Hsl & Hsr).
    destruct k as [|k]; [apply fits_0 in Hf; lia|]. destruct (fits_child k sz lb Hf ltac:(lia)) as [HfL HfR].
    destruct (Hc ltac:(lia)) as [Hcl Hcr].
    destruct (IH k true (lsize sz lb) (child_or_new l (lsize sz lb) true) gl) as (l' & Ll & Bl);
      try done; [by apply shaped_child_or_new|by destruct l|lia|].
    destruct (IH k false (rsize sz lb) (child_or_new r (rsize sz lb) false) gr) as (r' & Lr & Br);
      try done; [by apply shaped_child_or_new|by destruct r|lia|].
    exists (Tree h sz (base_size sz) lb v l' r'). split.
    + simpl blocks. rewrite (complete_full sha1 gl), (complete_full sha1 gr) by done. simpl.
      rewrite entries_bytes_app, !entries_noident. intros f rest Hfo Hp E.
      rewrite <- app_assoc in E. cbn [LoadLowestLevelHashs_rec]. fold (lsize sz lb). fold (rsize sz lb).
      rewrite leaf_size, (proj2 (Z.leb_gt sz EMBLOCKSIZE)) by lia.
      destruct (Ll f _ Hfo Hp E) as (f1 & -> & Hf1 & C1 & P1).
      destruct (parses_at f _ _ Hfo Hp E) as [HL E'].
      destruct (Lr f1 rest Hf1) as (f2 & -> & Hf2 & C2 & P2);
        [by rewrite (length_kept f f1 Hfo Hf1 C1), P1|by rewrite P1, C1|].
      exists f2. rewrite C2, C1, P2, P1, length_app, Nat2Z.inj_add. split_and!; [done..|lia].
    + simpl. rewrite leaf_size, (proj2 (Z.leb_gt sz EMBLOCKSIZE)) by lia. done.
Qed.

(** *** After the entries of an answer are read *)

(** No children, or only solid ones. *)
Definition tidy (t : CAICHHashTree) : Prop :=
  match t with NULL => True | Tree _ _ _ _ _ l r => (l = NULL /\ r = NULL) \/ (solid l /\ solid r) end.

(** Off the path [p] the tree is tidy. *)
Fixpoint ready (p : list bool) (t : CAICHHashTree) : Prop :=
  match p, t with
  | [], _ => True
  | _, NULL => True
  | b :: p, Tree _ _ _ _ _ l r => ready p (if b : bool then l else r) /\ tidy (if b : bool then r else l)
  end.

Lemma solid_tidy t : solid t -> tidy t.
Proof. destruct t; [done|]. intros [(-> & -> & _)|H]; [by left|by right]. Qed.

Lemma tidy_ready p t : tidy t -> ready p t.
Proof.
  revert t. induction p as [|b p IH]; intros t Ht; [done|]. destruct t as [|h sz base lb v l r]; [done|].
  destruct Ht as [[-> ->]|[Hl Hr]].
  - simpl. destruct b; (split; [by destruct p|done]).
  - simpl. destruct b; (split; [apply IH|]); by apply solid_tidy.
Qed.

Lemma grow_ready p t : ready p t -> ready p (grow p t).
Proof.
  revert t. induction p as [|b p IH]; intros t Ht; [by destruct t|]. destruct t as [|h sz base lb v l r]; [done|].
  destruct b; simpl in *; (split; [apply IH|apply Ht]); destruct Ht as [Ht _];
    [destruct l|destruct r]; try done; by apply tidy_ready; left.
Qed.

Lemma put_under b e h sz base lb v l r :
  put (b :: e.1) e.2 (Tree h sz base lb v l r) =
  (if b then Tree h sz base lb v (put e.1 e.2 (child_or_new l (left_size sz base lb) true)) r
   else Tree h sz base lb v l (put e.1 e.2 (child_or_new r (sz - left_size sz base lb) false))).
Proof. by destruct b. Qed.

Lemma put_all_under (b : bool) es h sz base lb v l r : es <> [] ->
  put_all (under [b] es) (Tree h sz base lb v l r) =
  (if b then Tree h sz base lb v (put_all es (child_or_new l (left_size sz base lb) true)) r
   else Tree h sz base lb v l (put_all es (child_or_new r (sz - left_size sz base lb) false))).
Proof.
  intros Hne.
  assert (forall es l r, is_null (if b then l else r) = false ->
    put_all (under [b] es) (Tree h sz base lb v l r) =
    if b then Tree h sz base lb v (put_all es l) r else Tree h sz base lb v l (put_all es r)) as Hfull.
  { clear. induction es as [|e es IH]; intros l r Hn; [by destruct b|].
    change (under [b] (e :: es)) with ((b :: e.1, e.2) :: under [b] es).
    change (put_all ((b :: e.1, e.2) :: under [b] es) (Tree h sz base lb v l r))
      with (put_all (under [b] es) (put (b :: e.1) e.2 (Tree h sz base lb v l r))).
    rewrite put_under. unfold child_or_new.
    destruct b; rewrite Hn, IH by (by rewrite put_full); done. }
  destruct es as [|e es]; [done|]. clear Hne.
  change (under [b] (e :: es)) with ((b :: e.1, e.2) :: under [b] es).
  change (put_all ((b :: e.1, e.2) :: under [b] es) (Tree h sz base lb v l r))
    with (put_all (under [b] es) (put (b :: e.1) e.2 (Tree h sz base lb v l r))).
  rewrite put_under.
  destruct b; rewrite Hfull; try done; rewrite put_full; [by destruct l|by destruct r].
Qed.

Lemma put_all_cons e es t : put_all (e :: es) t = put_all es (put e.1 e.2 t).
Proof. done. Qed.

Lemma put_all_app es es' t : put_all (es ++ es') t = put_all es' (put_all es t).
Proof. apply fold_left_app. Qed.

Lemma under_ne b es : es <> [] -> under [b] es <> [].
Proof. by destruct es. Qed.

Lemma blocks_ne g : complete sha1 g -> blocks g <> [].
Proof.
  induction g as [|h n base lb v l IHl r IHr]; [done|]. intros [Hv Hg]. simpl.
  destruct (n <=? base); [by destruct Hg as [-> ->]|]. destruct Hg as (Hl & Hr & _).
  rewrite (complete_full sha1 l), (complete_full sha1 r) by done. simpl.
  intros E. apply app_eq_nil in E as [E _]. by apply (under_ne true (blocks l)) in E; [|apply IHl].
Qed.

Lemma agrees_new g n lb : agrees (CAICHHashTree_new n lb (base_size n)) g.
Proof. by simpl. Qed.

Lemma agrees_child_or_new t g n lb : agrees t g -> agrees (child_or_new t n lb) g.
Proof. by destruct t. Qed.

(** What reading leaves behind. *)
Record filled (lb : bool) (sz : Z) (t t' g : CAICHHashTree) : Prop := {
  filled_solid : solid t';
  filled_agrees : agrees t' g;
  filled_shaped : shaped lb sz t';
  filled_valid : GetHashValid t = true -> GetHashValid t' = true /\ GetHash t' = GetHash t
}.

Lemma put_all_blocks lb sz t g : shaped lb sz t -> is_null t = false -> complete sha1 g -> shaped lb sz g ->
  agrees t g -> filled lb sz t (put_all (blocks g) t) g.
Proof.
  revert lb sz t. induction g as [|h n base lb' v gl IHl gr IHr]; intros lb sz t Ht Hnn Hg Hs Ha; [done|].
  destruct t as [|h0 n0 base0 lb0 v0 l r]; [done|]. pose proof Ht as (-> & -> & -> & Hh & Hc & Hn).
  destruct (Z.le_gt_cases sz EMBLOCKSIZE) as [Hle|Hgt].
  - pose proof Hs as (_ & _ & _ & Hhg & _ & Hng). destruct (Hn Hle) as [-> ->], (Hng Hle) as [-> ->].
    unfold put_all. simpl. split.
    + by left.
    + simpl. by split_and!.
    + simpl. split_and!; try done; lia.
    + intros Hv. simpl in *. split; [done|]. symmetry. by apply Ha.
  - destruct (complete_kids sha1 lb sz _ _ _ _ _ _ _ Hg Hs ltac:(lia)) as (Hgl & Hgr & Hsl & Hsr & Eh).
    destruct Hs as (-> & -> & -> & _). destruct (Hc ltac:(lia)) as [Hcl Hcr].
    destruct Ha as (Hah & Hal & Har). simpl in Hal, Har.
    simpl blocks. rewrite (complete_full sha1 gl), (complete_full sha1 gr) by done. simpl andb. cbv iota.
    rewrite put_all_app, !put_all_under by (by apply blocks_ne). fold (lsize sz lb). fold (rsize sz lb).
    destruct (IHl true (lsize sz lb) (child_or_new l (lsize sz lb) true)) as [L1 L2 L3 _];
      try done; [by apply shaped_child_or_new|by destruct l|by apply agrees_child_or_new|].
    destruct (IHr false (rsize sz lb) (child_or_new r (rsize sz lb) false)) as [R1 R2 R3 _];
      try done; [by apply shaped_child_or_new|by destruct r|by apply agrees_child_or_new|].
    split; [by right|by simpl|simpl; split_and!; try done; lia|done].
Qed.

Lemma put_all_recovery lb sz p t g : shaped lb sz t -> is_null t = false -> complete sha1 g -> shaped lb sz g ->
  agrees t g -> inside lb sz p -> ready p t -> filled lb sz t (put_all (recovery p g) t) g.
Proof.
  revert lb sz t g. induction p as [|b p IH]; intros lb sz t g Ht Hnn Hg Hs Ha Hp Hr.
  { replace (recovery [] g) with (blocks g) by (by destruct g). by apply put_all_blocks. }
  destruct Hp as [Hgt Hp]. destruct t as [|h0 n0 base0 lb0 v0 l r]; [done|].
  pose proof Ht as (-> & -> & -> & Hh & Hc & Hn). destruct (Hc Hgt) as [Hcl Hcr].
  destruct (complete_node lb sz g Hg Hs Hgt) as (gl & gr & -> & Hgl & Hgr & Hsl & Hsr).
  destruct Ha as (Hah & Hal & Har). simpl in Hal, Har. destruct Hr as [Hr Htidy].
  assert (forall p g, complete sha1 g -> recovery p g <> []) as Hne.
  { intros p' g' Hg'. destruct p' as [|b' p'], g'; try done. by apply blocks_ne. }
  assert (forall lb sz x gx, shaped lb sz x -> agrees x gx -> complete sha1 gx -> shaped lb sz gx ->
    tidy x -> let x' := set_hash (GetHash gx) (child_or_new x sz lb) in
    solid x' /\ agrees x' gx /\ shaped lb sz x') as Hsib.
  { intros lb1 sz1 x gx Hx Hax Hgx Hsx Htx.
    assert (sha_ok (GetHash gx)) as Hok by (destruct gx; [done|]; by destruct Hsx as (_ & _ & _ & ? & _)).
    destruct x as [|hx nx bx lx vx xl xr].
    - split_and!; [by left|by simpl|]. simpl. by split_and!.
    - destruct Hx as (-> & -> & -> & _ & Hxc & Hxn). destruct Hax as (_ & Ax). simpl.
      split_and!; try done; [|apply Ax..]. destruct Htx as [[-> ->]|Htx]; [by left|by right]. }
  cbn [recovery]. rewrite put_all_cons. destruct b; simpl negb; simpl fst; simpl snd.
  - rewrite (put_under false ([], GetHash gr)). simpl put. rewrite put_all_under by (by apply Hne).
    fold (lsize sz lb). fold (rsize sz lb).
    destruct (Hsib false (rsize sz lb) r gr) as (S1 & S2 & S3); try done.
    destruct (IH true (lsize sz lb) (child_or_new l (lsize sz lb) true) gl) as [I1 I2 I3 _]; try done;
      [by apply shaped_child_or_new|by destruct l|by apply agrees_child_or_new|
       by destruct l; [apply tidy_ready; left|]|].
    split; [by right|by simpl|simpl; split_and!; try done; lia|done].
  - rewrite (put_under true ([], GetHash gl)). simpl put. rewrite put_all_under by (by apply Hne).
    fold (lsize sz lb). fold (rsize sz lb).
    destruct (Hsib true (lsize sz lb) l gl) as (S1 & S2 & S3); try done.
    destruct (IH false (rsize sz lb) (child_or_new r (rsize sz lb) false) gr) as [I1 I2 I3 _]; try done;
      [by apply shaped_child_or_new|by destruct r|by apply agrees_child_or_new|
       by destruct r; [apply tidy_ready; left|]|].
    split; [by right|by simpl|simpl; split_and!; try done; lia|done].
Qed.

End Rebuilt.

(** ** The entries of an answer *)

Section Entries.

Context (sha1 : list Z -> list Z).

Definition entry_ok (lb : bool) (sz : Z) (k : nat) (e : entry) : Prop :=
  inside lb sz e.1 /\ sha_ok e.2 /\ (length e.1 <= k)%nat.

Lemma Forall_under (b : bool) lb sz k es : EMBLOCKSIZE < sz ->
  Forall (entry_ok b (if b then lsize sz lb else rsize sz lb) k) es ->
  Forall (entry_ok lb sz (S k)) (under [b] es).
Proof.
  intros Hs H. unfold under. apply Forall_fmap. eapply Forall_impl; [exact H|].
  intros [p h] (H1 & H2 & H3). split_and!; simpl in *; by try lia.
Qed.

Lemma blocks_ok k lb sz g : complete sha1 g -> shaped lb sz g -> fits k sz ->
  Forall (entry_ok lb sz k) (blocks g).
Proof.
  revert k lb sz. induction g as [|h n base lb' v gl IHl gr IHr]; intros k lb sz Hg Hs Hf; [done|].
  pose proof Hs as (-> & -> & -> & Hh & Hc & Hn). destruct (Z.le_gt_cases sz EMBLOCKSIZE) as [Hle|Hgt].
  - destruct (Hn Hle) as [-> ->]. simpl. repeat constructor; try apply Hh. simpl. lia.
  - destruct (complete_kids sha1 lb sz _ _ _ _ _ _ _ Hg Hs ltac:(lia)) as (Hgl & Hgr & Hsl & Hsr & _).
    destruct k as [|k]; [apply fits_0 in Hf; lia|]. destruct (fits_child k sz lb Hf ltac:(lia)) as [HfL HfR].
    simpl. rewrite (complete_full sha1 gl), (complete_full sha1 gr) by done. simpl. apply Forall_app.
    split; apply Forall_under; auto; lia.
Qed.

Lemma sha_ok_GetHash lb sz t : shaped lb sz t -> is_null t = false -> sha_ok (GetHash t).
Proof. destruct t; [done|]. by intros (_ & _ & _ & H & _). Qed.

Lemma recovery_ok k lb sz p g : complete sha1 g -> shaped lb sz g -> fits k sz -> inside lb sz p ->
  Forall (entry_ok lb sz k) (recovery p g).
Proof.
  revert k lb sz g. induction p as [|b p IH]; intros k lb sz g Hg Hs Hf Hp.
  { replace (recovery [] g) with (blocks g) by (by destruct g). by apply blocks_ok. }
  destruct Hp as [Hgt Hp]. destruct (complete_node sha1 lb sz g Hg Hs Hgt) as (gl & gr & -> & Hgl & Hgr & Hsl & Hsr).
  destruct k as [|k]; [apply fits_0 in Hf; lia|]. destruct (fits_child k sz lb Hf Hgt) as [HfL HfR].
  cbn [recovery]. constructor.
  - split_and!; simpl; [|destruct b|lia].
    + by destruct b.
    + eapply sha_ok_GetHash; [exact Hsr|by eapply complete_full].
    + eapply sha_ok_GetHash; [exact Hsl|by eapply complete_full].
  - apply Forall_under; [done|]. destruct b; by apply IH.
Qed.

(** No entry names the root, unless the part is the whole file and one block. *)
Lemma recovery_not_root lb sz p g : complete sha1 g -> shaped lb sz g -> EMBLOCKSIZE < sz -> inside lb sz p ->
  Forall (fun e : entry => e.1 <> []) (recovery p g).
Proof.
  intros Hg Hs Hgt Hp. destruct (complete_node sha1 lb sz g Hg Hs Hgt) as (gl & gr & -> & Hgl & Hgr & _).
  assert (forall b es, Forall (fun e : entry => e.1 <> []) (under [b] es)) as Hu.
  { intros b es. unfold under. apply Forall_fmap, Forall_true. intros e. done. }
  destruct p as [|b p]; cbn [recovery].
  - simpl. rewrite (complete_full sha1 gl), (complete_full sha1 gr) by done. simpl. apply Forall_app. auto.
  - constructor; [done|auto].
Qed.

Lemma complete_node_at lb sz p g : complete sha1 g -> shaped lb sz g -> inside lb sz p ->
  complete sha1 (node_at p g).
Proof.
  revert lb sz g. induction p as [|b p IH]; intros lb sz g Hg Hs Hp; [by destruct g|].
  destruct Hp as [Hgt Hp]. destruct (complete_node sha1 lb sz g Hg Hs Hgt) as (gl & gr & -> & Hgl & Hgr & Hsl & Hsr).
  simpl. destruct b; eauto.
Qed.

Definition block_count (sz : Z) : Z :=
  sz / EMBLOCKSIZE + (if negb (sz mod EMBLOCKSIZE =? 0) then 1 else 0).

Lemma block_count_spec n sz : (n - 1) * EMBLOCKSIZE < sz <= n * EMBLOCKSIZE -> block_count sz = n.
Proof.
  intros Hn. unfold block_count. destruct (Z.eqb_spec (sz mod EMBLOCKSIZE) 0); simpl;
    unfold EMBLOCKSIZE in *; lia.
Qed.

Lemma blocks_length lb sz g : complete sha1 g -> shaped lb sz g -> 0 < sz <= PARTSIZE ->
  Z.of_nat (length (blocks g)) = block_count sz.
Proof.
  revert lb sz. induction g as [|h n base lb' v gl IHl gr IHr]; intros lb sz Hg Hs Hsz; [done|].
  pose proof Hs as (-> & -> & -> & Hh & Hc & Hn). destruct (Z.le_gt_cases sz EMBLOCKSIZE) as [Hle|Hgt].
  - destruct (Hn Hle) as [-> ->]. rewrite (block_count_spec 1) by lia. done.
  - destruct (complete_kids sha1 lb sz _ _ _ _ _ _ _ Hg Hs ltac:(lia)) as (Hgl & Hgr & Hsl & Hsr & _).
    simpl blocks. rewrite (complete_full sha1 gl), (complete_full sha1 gr) by done. simpl andb. cbv iota.
    unfold under. rewrite length_app, !length_fmap.
    pose proof (lsize_range sz lb ltac:(lia)) as Hl. destruct (lsize_spec sz lb ltac:(lia)) as (m & j & Hm & Hj & _ & _ & Hb & E).
    destruct (base_size_cases sz) as [[_ Eb]|[? _]]; [|lia]. rewrite Eb in *.
    rewrite Nat2Z.inj_add, (IHl true (lsize sz lb)), (IHr false (rsize sz lb)) by (unfold rsize; done || lia).
    rewrite (block_count_spec m sz), (block_count_spec j (lsize sz lb)), (block_count_spec (m - j) (rsize sz lb));
      unfold rsize; rewrite ?E; unfold EMBLOCKSIZE in *; lia.
Qed.

(** One sibling for each level above the part and its blocks: what [nHashsToWrite] announces. *)
Lemma recovery_length lb sz s n p g : locates lb sz s n p -> complete sha1 g -> shaped lb sz g -> 0 < n <= PARTSIZE ->
  Z.of_nat (length (recovery p g)) = Z.of_nat (length p) + block_count n.
Proof.
  intros H. revert g. induction H as [lb sz|lb sz s n p Hgt Hn H0 H1 H2 H IH|lb sz s n p Hgt Hn H0 H1 H2 H IH];
    intros g Hg Hs Hsz.
  { replace (recovery [] g) with (blocks g) by (by destruct g). simpl length. rewrite (blocks_length lb sz); done. }
  all: destruct (complete_node sha1 lb sz g Hg Hs Hgt) as (gl & gr & -> & Hgl & Hgr & Hsl & Hsr).
  all: cbn [recovery length]; unfold under; rewrite length_fmap, Nat2Z.inj_succ, IH by done; lia.
Qed.

(** A block is among the entries of every node above it. *)
Lemma blocks_mem lb sz s n p g : locates lb sz s n p -> complete sha1 g -> shaped lb sz g -> n <= EMBLOCKSIZE ->
  (p, GetHash (node_at p g)) ∈ blocks g.
Proof.
  intros H. revert g. induction H as [lb sz|lb sz s n p Hgt Hn H0 H1 H2 H IH|lb sz s n p Hgt Hn H0 H1 H2 H IH];
    intros g Hg Hs Hsz.
  { rewrite (complete_leaf sha1 lb sz g) by done. simpl. by left. }
  all: destruct (complete_node sha1 lb sz g Hg Hs Hgt) as (gl & gr & -> & Hgl & Hgr & Hsl & Hsr).
  all: simpl; rewrite (complete_full sha1 gl), (complete_full sha1 gr) by done; simpl; apply elem_of_app.
  - left. apply list_elem_of_fmap. eexists. by split; [|apply IH].
  - right. apply list_elem_of_fmap. eexists. by split; [|apply IH].
Qed.

Lemma recovery_mem lb sz p q g : complete sha1 g -> shaped lb sz g -> inside lb sz p ->
  (q, GetHash (node_at q (node_at p g))) ∈ blocks (node_at p g) ->
  (p ++ q, GetHash (node_at (p ++ q) g)) ∈ recovery p g.
Proof.
  revert lb sz g. induction p as [|b p IH]; intros lb sz g Hg Hs Hp Hm.
  { replace (recovery [] g) with (blocks g) by (by destruct g). by destruct g. }
  destruct Hp as [Hgt Hp]. destruct (complete_node sha1 lb sz g Hg Hs Hgt) as (gl & gr & -> & Hgl & Hgr & Hsl & Hsr).
  cbn [recovery app node_at]. right. apply list_elem_of_fmap.
  eexists (p ++ q, _). split; [done|]. destruct b; by eapply IH.
Qed.

End Entries.

(** ** Which nodes are there *)

Lemma locates_inside lb sz s n p : locates lb sz s n p -> inside lb sz p.
Proof. induction 1; [done|by split..]. Qed.

Lemma locates_app lb sz s n p s' n' q : locates lb sz s n p -> locates (branch_of lb p) n s' n' q ->
  0 < n -> locates lb sz (s + s') n' (p ++ q).
Proof.
  intros H Hq Hn. pose proof (locates_range _ _ _ _ _ Hn Hq) as Hr. revert Hq.
  induction H as [lb sz|lb sz s n p Hgt Hlt H0 H1 H2 H IH|lb sz s n p Hgt Hlt H0 H1 H2 H IH];
    intros Hq; simpl in *; [done|constructor; auto; lia|].
  constructor; try lia. replace (s + s' - lsize sz lb) with (s - lsize sz lb + s') by lia. auto.
Qed.

Lemma node_at_nil q : node_at q NULL = NULL.
Proof. by destruct q. Qed.

Lemma put_keeps q p h t : node_at q t <> NULL -> node_at q (put p h t) <> NULL.
Proof.
  revert p t. induction q as [|b q IH]; intros p t Ht.
  - destruct t, p as [|[] p]; done.
  - destruct t as [|h' sz base lb v l r]; [done|]. simpl in Ht.
    assert (forall x n lb', node_at q x <> NULL -> node_at q (child_or_new x n lb') <> NULL) as Hc.
    { intros x n lb' Hx. destruct x; [by rewrite node_at_nil in Hx|done]. }
    destruct p as [|b' p]; [done|]. destruct b', b; simpl; auto.
Qed.

Lemma put_makes p h t : is_null t = false -> node_at p (put p h t) <> NULL.
Proof.
  revert t. induction p as [|b p IH]; intros t Ht; (destruct t as [|h' sz base lb v l r]; [done|]); [done|].
  destruct b; simpl; apply IH; [by destruct l|by destruct r].
Qed.

Lemma put_all_keeps q es t : node_at q t <> NULL -> node_at q (put_all es t) <> NULL.
Proof.
  revert t. induction es as [|e es IH]; intros t Ht; [done|]. rewrite put_all_cons. by apply IH, put_keeps.
Qed.

Lemma put_all_makes e es t : is_null t = false -> e ∈ es -> node_at e.1 (put_all es t) <> NULL.
Proof.
  revert t. induction es as [|e' es IH]; intros t Ht He; [by apply not_elem_of_nil in He|].
  rewrite put_all_cons. apply elem_of_cons in He as [<-|He].
  - by apply put_all_keeps, put_makes.
  - apply IH; [by rewrite put_full|done].
Qed.

Lemma grow_id p t : node_at p t <> NULL -> grow p t = t.
Proof.
  revert t. induction p as [|b p IH]; intros t Ht; [by destruct t|].
  destruct t as [|h sz base lb v l r]; [done|].
  destruct b; simpl in *; [destruct l|destruct r]; try (by rewrite node_at_nil in Ht); simpl; by rewrite IH.
Qed.

Fixpoint same_shape (t t' : CAICHHashTree) : Prop :=
  match t, t' with
  | NULL, NULL => True
  | Tree _ _ _ _ _ l r, Tree _ _ _ _ _ l' r' => same_shape l l' /\ same_shape r r'
  | _, _ => False
  end.

Lemma same_shape_refl t : same_shape t t.
Proof. by induction t. Qed.

Lemma same_shape_trans t1 t2 t3 : same_shape t1 t2 -> same_shape t2 t3 -> same_shape t1 t3.
Proof.
  revert t2 t3. induction t1 as [|h sz base lb v l IHl r IHr]; intros [] []; simpl; try done.
  intros [? ?] [? ?]. eauto.
Qed.

Lemma same_shape_node q t t' : same_shape t t' -> node_at q t <> NULL -> node_at q t' <> NULL.
Proof.
  revert t t'. induction q as [|b q IH]; intros [] []; simpl; try done.
  intros [Hl Hr] Hn. destruct b; eauto.
Qed.

Section Kept.

Context (sha1 : list Z -> list Z).

Lemma ReCalculateHash_same b t : same_shape t (ReCalculateHash sha1 b t).2.
Proof.
  induction t as [|h sz base lb v l IHl r IHr]; [done|]. simpl.
  destruct (is_null_spec l), (is_null_spec r); simpl; try (split; apply same_shape_refl).
  destruct (ReCalculateHash sha1 b l) as [[] l'], (ReCalculateHash sha1 b r) as [[] r']; simpl in *;
    try (split; by try apply same_shape_refl).
  destruct (b && v); [by split|]. by destruct (GetHashValid r' && GetHashValid l').
Qed.

Lemma recalculate_missing_same t : same_shape t (recalculate_missing sha1 t).
Proof.
  unfold recalculate_missing. destruct (negb (is_null t) && negb (GetHashValid t));
    [apply ReCalculateHash_same|apply same_shape_refl].
Qed.

Lemma VerifyHashTree_same del fuel t t' : VerifyHashTree_rec sha1 fuel del t = (true, t') -> same_shape t t'.
Proof.
  revert t t'. induction fuel as [|fuel IH]; intros t t'; [done|].
  destruct t as [|h sz base lb v l r]; [done|]. simpl. destruct v; simpl; [|done].
  set (l0 := recalculate_missing sha1 l). set (r0 := recalculate_missing sha1 r).
  assert (same_shape l l0 /\ same_shape r r0) as [Hl Hr] by (split; apply recalculate_missing_same).
  destruct (xorb (GetHashValid r0) (GetHashValid l0)); [done|].
  destruct (GetHashValid r0 && GetHashValid l0).
  - case_bool_decide; simpl; [|done].
    destruct (VerifyHashTree_rec sha1 fuel del l0) as [[] l'] eqn:El; simpl; [|done].
    destruct (VerifyHashTree_rec sha1 fuel del r0) as [[] r'] eqn:Er; simpl; [|done].
    intros [= <-]. split; eauto using same_shape_trans.
  - intros [= <-]. by split.
Qed.

Lemma settled_node q t : settled sha1 t -> node_at q t <> NULL -> GetHashValid (node_at q t) = true.
Proof.
  revert t. induction q as [|b q IH]; intros t Ht Hn; [by destruct t; [|by destruct Ht]|].
  destruct t as [|h sz base lb v l r]; [done|]. destruct Ht as [_ [[-> ->]|(Hl & Hr & _)]].
  - by destruct b, q.
  - by destruct b; apply IH.
Qed.

End Kept.

Lemma agrees_node q t g : agrees t g -> GetHashValid (node_at q t) = true ->
  GetHash (node_at q t) = GetHash (node_at q g).
Proof.
  revert t g. induction q as [|b q IH]; intros t g Ha Hv.
  - destruct t; [done|]. by apply Ha.
  - destruct t as [|h sz base lb v l r]; [done|]. destruct Ha as (_ & Hl & Hr). simpl in Hv.
    destruct g as [|h' sz' base' lb' v' l' r']; simpl in *.
    + destruct b; [rewrite (IH l NULL Hl Hv)|rewrite (IH r NULL Hr Hv)]; by rewrite node_at_nil.
    + destruct b; auto.
Qed.

(** ** The hash tree of given contents *)

Section Genuine.

Context (sha1 : list Z -> list Z).

(** The reference definition: a block is hashed itself, a longer piece is split where the
    geometry splits it. *)
Fixpoint genuine (k : nat) (lb : bool) (data : list Z) : CAICHHashTree :=
  let sz := Z.of_nat (length data) in
  match k with
  | S k =>
      if sz <=? EMBLOCKSIZE then Tree (sha1 data) sz (base_size sz) lb true NULL NULL
      else
        let l := genuine k true (take (Z.to_nat (lsize sz lb)) data) in
        let r := genuine k false (drop (Z.to_nat (lsize sz lb)) data) in
        Tree (sha1 (GetHash l ++ GetHash r)) sz (base_size sz) lb true l r
  | O => Tree (sha1 data) sz (base_size sz) lb true NULL NULL
  end.

Lemma genuine_full k lb data : is_null (genuine k lb data) = false.
Proof. destruct k; [done|]. simpl. by destruct (_ <=? _). Qed.

Hypothesis sha1_ok : forall x, Forall is_byte x -> sha_ok (sha1 x).

Lemma genuine_ok k lb data : Forall is_byte data -> fits k (Z.of_nat (length data)) ->
  let t := genuine k lb data in
  complete sha1 t /\ shaped lb (Z.of_nat (length data)) t.
Proof.
  revert lb data. induction k as [|k IH]; intros lb data Hb Hf.
  - apply fits_0 in Hf. simpl. rewrite leaf_size, (proj2 (Z.leb_le _ _)) by done.
    split_and!; try done; by apply sha1_ok.
  - cbn zeta. cbn [genuine]. destruct (Z.leb_spec (Z.of_nat (length data)) EMBLOCKSIZE) as [Hle|Hgt].
    + simpl. rewrite leaf_size, (proj2 (Z.leb_le _ _)) by done. split_and!; try done; by apply sha1_ok.
    + set (sz := Z.of_nat (length data)) in *. destruct (fits_child k sz lb Hf Hgt) as [HfL HfR].
      pose proof (lsize_range sz lb Hgt) as Hl.
      assert (Z.of_nat (length (take (Z.to_nat (lsize sz lb)) data)) = lsize sz lb) as EL
        by (rewrite length_take; lia).
      assert (Z.of_nat (length (drop (Z.to_nat (lsize sz lb)) data)) = rsize sz lb) as ER
        by (rewrite length_drop; unfold rsize; lia).
      destruct (IH true (take (Z.to_nat (lsize sz lb)) data)) as [C1 S1]; [by apply Forall_take|by rewrite EL|].
      destruct (IH false (drop (Z.to_nat (lsize sz lb)) data)) as [C2 S2]; [by apply Forall_drop|by rewrite ER|].
      rewrite EL in S1. rewrite ER in S2.
      assert (forall lb sz t, shaped lb sz t -> Forall is_byte (GetHash t)) as Hbytes.
      { intros lb1 sz1 t1 H1. destruct t1; [by constructor|]. by destruct H1 as (_ & _ & _ & [H1 _] & _). }
      simpl. rewrite leaf_size, (proj2 (Z.leb_gt _ _)) by done.
      split; [by split_and!|]. split_and!; try done; try lia; apply sha1_ok, Forall_app; split; by eapply Hbytes.
Qed.

End Genuine.

(** ** Any input at all *)

(** Shape and root of [t] are kept in [t']. *)
Record kept (lb : bool) (sz : Z) (t t' : CAICHHashTree) : Prop := {
  kept_shaped : shaped lb sz t';
  kept_hash : GetHash t' = GetHash t;
  kept_valid : GetHashValid t' = GetHashValid t;
  kept_null : is_null t' = is_null t
}.

Lemma kept_refl lb sz t : shaped lb sz t -> kept lb sz t t.
Proof. done. Qed.

Lemma kept_trans lb sz t1 t2 t3 : kept lb sz t1 t2 -> kept lb sz t2 t3 -> kept lb sz t1 t3.
Proof. intros [] []. split; congruence. Qed.

Lemma kept_left lb sz h v l r l' : shaped lb sz (Tree h sz (base_size sz) lb v l r) -> EMBLOCKSIZE < sz ->
  shaped true (lsize sz lb) l' ->
  kept lb sz (Tree h sz (base_size sz) lb v l r) (Tree h sz (base_size sz) lb v l' r).
Proof.
  intros (_ & _ & _ & Hh & Hc & Hn) Hgt Hl. destruct (Hc Hgt) as [_ Hr].
  split; try done. simpl. split_and!; try done; lia.
Qed.

Lemma kept_right lb sz h v l r r' : shaped lb sz (Tree h sz (base_size sz) lb v l r) -> EMBLOCKSIZE < sz ->
  shaped false (rsize sz lb) r' ->
  kept lb sz (Tree h sz (base_size sz) lb v l r) (Tree h sz (base_size sz) lb v l r').
Proof.
  intros (_ & _ & _ & Hh & Hc & Hn) Hgt Hl. destruct (Hc Hgt) as [Hr _].
  split; try done. simpl. split_and!; try done; lia.
Qed.

(** The search leaves verified trees verified and changes no hash. *)
Lemma FindHash_rec_kept sha1 fuel t s n nLevel lb sz : shaped lb sz t ->
  let t' := (FindHash_rec fuel t s n nLevel).2 in
  kept lb sz t t' /\ (verified sha1 t -> verified sha1 t').
Proof.
  revert t s n nLevel lb sz. induction fuel as [|fuel IH]; intros t s n nLevel lb sz Ht;
    (destruct t as [|h sz' base lb' v l r]; [done|]); pose proof Ht as (-> & -> & -> & Hh & Hc & Hn); cbn zeta;
    cbn [FindHash_rec]; repeat (case_match; [done|]); [done|].
  all: rename select ((sz <=? base_size sz) = false) into Eleaf.
  all: rewrite leaf_size in Eleaf; apply Z.leb_gt in Eleaf; destruct (Hc Eleaf) as [Hcl Hcr].
  all: fold (lsize sz lb); fold (rsize sz lb).
  destruct (s <? lsize sz lb).
  - case_match; [done|]. destruct (IH (child_or_new l (lsize sz lb) true) s n (u8 (nLevel + 1)) true (lsize sz lb))
      as [[K1 K2 K3 K4] K5]; [by apply shaped_child_or_new|].
    destruct (FindHash_rec fuel (child_or_new l (lsize sz lb) true) s n (u8 (nLevel + 1))) as [[p lev] l'].
    simpl in K1, K2, K3, K4, K5. split; [by apply kept_left|].
    assert (GetHashValid l' = GetHashValid l) as El by (rewrite K3; by destruct l).
    intros [Hv [(V1 & V2 & E)|[V1 V2]]]; (split; [done|]); [left|right; split; congruence].
    assert (child_or_new l (lsize sz lb) true = l) as Ec by (by destruct l). rewrite Ec in *.
    rewrite K2. auto.
  - case_match; [done|].
    destruct (IH (child_or_new r (rsize sz lb) false) (s - lsize sz lb) n (u8 (nLevel + 1)) false (rsize sz lb))
      as [[K1 K2 K3 K4] K5]; [by apply shaped_child_or_new|].
    destruct (FindHash_rec fuel (child_or_new r (rsize sz lb) false) (s - lsize sz lb) n (u8 (nLevel + 1))) as [[p lev] r'].
    simpl in K1, K2, K3, K4, K5. split; [by apply kept_right|].
    assert (GetHashValid r' = GetHashValid r) as Er by (rewrite K3; by destruct r).
    intros [Hv [(V1 & V2 & E)|[V1 V2]]]; (split; [done|]); [left|right; split; congruence].
    assert (child_or_new r (rsize sz lb) false = r) as Ec by (by destruct r). rewrite Ec in *.
    rewrite K2. auto.
Qed.

Lemma FindHash_kept sha1 t s n lb sz : shaped lb sz t ->
  kept lb sz t (FindHash t s n).2 /\ (verified sha1 t -> verified sha1 (FindHash t s n).2).
Proof. apply FindHash_rec_kept. Qed.

Section AnyInput.

Context {F : Type} {IOF : CFileDataIO F} {laws : FileLaws F}.

(** Reading a hash sets it to 20 bytes or reports the end of the file. *)
Lemma read_into_any lb sz t f : shaped lb sz t -> file_ok f ->
  exists res t' f', read_into t f = (res, t', f') /\ file_ok f' /\ shaped lb sz t' /\ is_null t' = is_null t /\
    (res = inr true \/ res = inl CEOFException).
Proof.
  intros Ht Hf. unfold read_into, CAICHHash_Read.
  destruct (yields_Read HASHSIZE ltac:(unfold HASHSIZE; lia) f Hf) as (f' & Hf' & _ & _ & H).
  destruct H as [(h & -> & Hb & Hl)|(e & -> & -> & _)].
  - exists (inr true), (set_hash h t), f'. unfold HASHSIZE in Hl. split_and!; try done; [|by destruct t|by left].
    destruct t; [done|]. destruct Ht as (-> & -> & -> & _ & Hc & Hn).
    split_and!; first [exact Hc|exact Hn|done|split; [done|lia]].
  - exists (inl CEOFException), t, f'. split_and!; try done. by right.
Qed.

Lemma SetHash_rec_any n lb sz t w f : shaped lb sz t -> is_null t = false -> file_ok f ->
  exists res t' f', SetHash_rec n t w true f = (res, t', f') /\ file_ok f' /\ shaped lb sz t' /\
    is_null t' = false /\ (n <> 0%nat -> kept lb sz t t') /\ (forall e, res = inl e -> e = CEOFException).
Proof.
  revert lb sz t w f. induction n as [|n IH]; intros lb sz t w f Ht Hn Hf.
  - cbn [SetHash_rec]. rewrite andb_false_r.
    destruct (read_into_any lb sz t f Ht Hf) as (res & t' & f' & E & H1 & H2 & H3 & H4).
    exists res, t', f'. split_and!; try done; [congruence|]. intros e ->. by destruct H4 as [|[= ->]].
  - destruct t as [|h sz' base lb' v l r]; [done|]. pose proof Ht as (-> & -> & -> & Hh & Hc & _).
    cbn [SetHash_rec]. rewrite leaf_size. destruct (Z.leb_spec sz EMBLOCKSIZE) as [|Hgt].
    { do 3 eexists. split; [reflexivity|]. split_and!; done. }
    destruct (Hc Hgt) as [Hcl Hcr]. fold (lsize sz lb). fold (rsize sz lb).
    destruct (Z.land (u32 (Z.shiftl w 1)) 0x80000000 >? 0).
    + destruct (IH true (lsize sz lb) (child_or_new l (lsize sz lb) true) (u32 (Z.shiftl w 1)) f)
        as (res & t' & f' & -> & H1 & H2 & H3 & _ & H5); [by apply shaped_child_or_new|by destruct l|done|].
      pose proof (kept_left lb sz h v l r t' Ht Hgt H2) as K. do 3 eexists. split; [reflexivity|].
      split_and!; try done. apply K.
    + destruct (IH false (rsize sz lb) (child_or_new r (rsize sz lb) false) (u32 (Z.shiftl w 1)) f)
        as (res & t' & f' & -> & H1 & H2 & H3 & _ & H5); [by apply shaped_child_or_new|by destruct r|done|].
      pose proof (kept_right lb sz h v l r t' Ht Hgt H2) as K. do 3 eexists. split; [reflexivity|].
      split_and!; try done. apply K.
Qed.

(** No identifier but 1 names the root. *)
Lemma SetHash_any lb sz t i f : shaped lb sz t -> is_null t = false -> file_ok f -> in_width 32 i -> i <> 1 ->
  exists res t' f', SetHash t i false f = (res, t', f') /\ file_ok f' /\ kept lb sz t t' /\
    (forall e, res = inl e -> e = CEOFException).
Proof.
  intros Ht Hn Hf Hi Hne. unfold SetHash. destruct (Z.eq_dec i 0) as [->|H0].
  { do 3 eexists. split; [reflexivity|]. by split_and!. }
  assert (0 < i) as Hpos by (unfold in_width in Hi; lia).
  pose proof (Z.log2_spec i Hpos) as Hlog. pose proof (Z.log2_nonneg i) as Hl0.
  assert (Z.log2 i < 32) as Hl32 by (apply Z.log2_lt_pow2; [done|apply Hi]).
  pose proof (top_bit_spec 31 (Z.to_nat (Z.log2 i)) i ltac:(lia) ltac:(lia)) as Etop.
  rewrite Z2Nat.id, Z.add_1_r in Etop by done. specialize (Etop Hlog). simpl (31 - Z.of_nat 31) in Etop.
  rewrite Z.mul_1_r in Etop. rewrite Etop.
  destruct (Z.to_nat (Z.log2 i)) as [|n] eqn:En.
  { assert (Z.log2 i = 0) as E0 by lia. rewrite E0 in Hlog. simpl in Hlog. lia. }
  assert (forall w, SetHash_rec (S n) t w false f = SetHash_rec (S n) t w true f) as Hover by (by destruct t).
  rewrite Hover. destruct (SetHash_rec_any (S n) lb sz t (i * 2 ^ (31 - Z.log2 i)) f Ht Hn Hf)
    as (res & t' & f' & E & H1 & _ & _ & H4 & H5). exists res, t', f'. split_and!; auto.
Qed.

End AnyInput.
