(* ===== verification/HashSet.v ===== *)
(** * AICH hash sets ([SHAHashSet.h], [SHAHashSet.cpp])

    The hash set of a file: its tree, how far its root hash is trusted, the answers that repair
    corrupt parts ([CreatePartRecoveryData], [ReadRecoveryData]) and the file of complete hash
    sets ([known2_64.met]) with the index of its root hashes.  Files are behind the interface of
    [DataIO]; opening them is a parameter. *)
From S2P Require Import Prelude StdMap UInt128 DataIO MemFile HashTree.

Inductive EAICHStatus :=
| AICH_ERROR | AICH_EMPTY | AICH_UNTRUSTED | AICH_TRUSTED | AICH_VERIFIED | AICH_HASHSETCOMPLETE.

#[export] Instance EAICHStatus_eq_dec : EqDecision EAICHStatus.
Proof. solve_decision. Defined.

Record CAICHUntrustedHash := mkUntrusted { u_Hash : list Z; m_adwIpsSigning : sset Z }.

Record CAICHHashSet := mkSet {
  m_eStatus : EAICHStatus;
  m_aUntrustedHashs : list CAICHUntrustedHash;
  m_pHashTree : CAICHHashTree
}.

(** What the set asks its owner. *)
Record CKnownFile := mkOwner { GetFileSize : Z; IsPartFile : bool }.

Definition IsLargeFile (o : CKnownFile) : bool := GetFileSize o >? OLD_MAX_FILE_SIZE.

Definition CAICHHashSet_new : CAICHHashSet := mkSet AICH_EMPTY [] (CAICHHashTree_new 0 true PARTSIZE).

Definition SetStatus (v : EAICHStatus) (s : CAICHHashSet) : CAICHHashSet :=
  mkSet v (m_aUntrustedHashs s) (m_pHashTree s).

Definition with_tree (t : CAICHHashTree) (s : CAICHHashSet) : CAICHHashSet :=
  mkSet (m_eStatus s) (m_aUntrustedHashs s) t.

Definition FreeHashSet (s : CAICHHashSet) : CAICHHashSet :=
  match m_pHashTree s with
  | NULL => s
  | Tree h sz base lb v _ _ => with_tree (Tree h sz base lb v NULL NULL) s
  end.

Definition SetFileSize (nSize : Z) (s : CAICHHashSet) : CAICHHashSet :=
  match m_pHashTree s with
  | NULL => s
  | Tree h _ _ lb v l r => with_tree (Tree h nSize (base_size nSize) lb v l r) s
  end.

Definition GetMasterHash (s : CAICHHashSet) : list Z := GetHash (m_pHashTree s).

Definition HasValidMasterHash (s : CAICHHashSet) : bool := GetHashValid (m_pHashTree s).

Definition SetMasterHash (Hash : list Z) (eNewStatus : EAICHStatus) (s : CAICHHashSet) : CAICHHashSet :=
  SetStatus eNewStatus (with_tree (set_hash Hash (m_pHashTree s)) s).

(** ** Trust in a root hash *)

Definition MINUNIQUEIPS_TOTRUST : Z := 10.
Definition MINPERCENTAGE_TOTRUST : Z := 92.

Definition AddSigningIP (dwIP : Z) (u : CAICHUntrustedHash) : CAICHUntrustedHash :=
  mkUntrusted (u_Hash u) (mset (Z.land dwIP 0x00F0FFFF) tt (m_adwIpsSigning u)).

Definition signers (u : CAICHUntrustedHash) : Z := u32 (Z.of_nat (length (m_adwIpsSigning u))).

(** The first entry with the hash gets the address, or a new entry is appended. *)
Fixpoint add_signature (Hash : list Z) (dwFromIP : Z) (us : list CAICHUntrustedHash) :
  list CAICHUntrustedHash :=
  match us with
  | [] => [AddSigningIP dwFromIP (mkUntrusted Hash [])]
  | u :: us => if bool_decide (u_Hash u = Hash) then AddSigningIP dwFromIP u :: us
               else u :: add_signature Hash dwFromIP us
  end.

(** The total of the signatures, and the hash with the most of them (the first such one). *)
Fixpoint most_trusted (us : list CAICHUntrustedHash) (nSigningIPsTotal nMostTrustedIPs : Z)
  (best : option (list Z)) : Z * Z * option (list Z) :=
  match us with
  | [] => (nSigningIPsTotal, nMostTrustedIPs, best)
  | u :: us =>
      let nSigningIPsTotal := u32 (nSigningIPsTotal + signers u) in
      if signers u >? nMostTrustedIPs then most_trusted us nSigningIPsTotal (signers u) (Some (u_Hash u))
      else most_trusted us nSigningIPsTotal nMostTrustedIPs best
  end.

Definition adopt (h : list Z) (st : EAICHStatus) (s : CAICHHashSet) : CAICHHashSet :=
  let s := SetStatus st s in
  if negb (HasValidMasterHash s) || negb (bool_decide (GetMasterHash s = h))
  then FreeHashSet (SetMasterHash h st s) else s.

Definition UntrustedHashReceived (trustingEveryHash : bool) (Hash : list Z) (dwFromIP : Z)
  (s : CAICHHashSet) : CAICHHashSet :=
  match m_eStatus s with
  | AICH_EMPTY | AICH_UNTRUSTED | AICH_TRUSTED =>
      let us := add_signature Hash dwFromIP (m_aUntrustedHashs s) in
      let s := mkSet (m_eStatus s) us (m_pHashTree s) in
      match most_trusted us 0 0 None with
      | (nSigningIPsTotal, nMostTrustedIPs, Some h) =>
          if nSigningIPsTotal =? 0 then s
          else if trustingEveryHash ||
             ((nMostTrustedIPs >=? MINUNIQUEIPS_TOTRUST) &&
              (u32 (100 * nMostTrustedIPs) / nSigningIPsTotal >=? MINPERCENTAGE_TOTRUST))
          then adopt h AICH_TRUSTED s else adopt h AICH_UNTRUSTED s
      | _ => s
      end
  | _ => s
  end.

(** ** Pending requests for recovery data: part, file and client of each *)

Abbreviation CAICHRequestedDataList := (list (Z * Z * Z)) (only parsing).

Fixpoint RemoveClientAICHRequest (pClient : Z) (l : CAICHRequestedDataList) : CAICHRequestedDataList :=
  match l with
  | [] => []
  | e :: l => if e.2 =? pClient then l else e :: RemoveClientAICHRequest pClient l
  end.

Definition IsClientRequestPending (pForFile nPart : Z) (l : CAICHRequestedDataList) : bool :=
  existsb (fun e => (e.1.2 =? pForFile) && (e.1.1 =? nPart)) l.

Definition DropReferencesTo (file : Z) (l : CAICHRequestedDataList) : CAICHRequestedDataList :=
  List.filter (fun e => negb (e.1.2 =? file)) l.

Definition GetAICHReqDetails (pClient : Z) (l : CAICHRequestedDataList) : Z * Z * Z :=
  match List.find (fun e => e.2 =? pClient) l with Some e => e | None => (0, 0, 0) end.

(** ** Blocks of a part *)

Definition hash_part_size (o : CKnownFile) (nPartStartPos : Z) : Z :=
  Z.min PARTSIZE (u64 (GetFileSize o - nPartStartPos)).

(** The loop over the blocks of a part, from position [nPartPos]: are all their hashes there? *)
Fixpoint check_blocks (fuel : nat) (nPartStartPos nPartSize nPartPos : Z) (t : CAICHHashTree) :
  bool * CAICHHashTree :=
  match fuel with
  | O => (true, t)
  | S fuel =>
      if nPartPos <? nPartSize then
        match FindHash t (u64 (nPartStartPos + nPartPos)) (Z.min EMBLOCKSIZE (nPartSize - nPartPos)) with
        | (None, _, t) => (false, t)
        | (Some p, _, t) =>
            if negb (GetHashValid (node_at p t)) then (false, t)
            else check_blocks fuel nPartStartPos nPartSize (nPartPos + EMBLOCKSIZE) t
        end
      else (true, t)
  end.

(** A part has at most 53 blocks; one more turn sees the end. *)
Definition BLOCKS_FUEL : nat := 54.

Definition IsPartDataAvailable (o : CKnownFile) (nPartStartPos : Z) (s : CAICHHashSet) : bool * CAICHHashSet :=
  match m_eStatus s with
  | AICH_VERIFIED | AICH_TRUSTED | AICH_HASHSETCOMPLETE =>
      let '(ok, t) := check_blocks BLOCKS_FUEL nPartStartPos (hash_part_size o nPartStartPos) 0 (m_pHashTree s) in
      (ok, with_tree t s)
  | _ => (false, s)
  end.

(** ** Recovery data *)

Section Recovery.

Context (sha1 : list Z -> list Z).
Context {F : Type} {IOF : CFileDataIO F}.

#[local] Open Scope io_scope.

(** The set and the file change together. *)
Abbreviation SetIO := (IO (CAICHHashSet * F)) (only parsing).

Definition on_file {A} (m : IO F A) : SetIO A := fun '(s, f) =>
  let '(r, f) := m f in (r, (s, f)).

Definition on_set {A} (g : CAICHHashSet -> A * CAICHHashSet) : SetIO A := fun '(s, f) =>
  let '(x, s) := g s in (inr x, (s, f)).

Definition on_tree {A} (g : CAICHHashTree -> A * CAICHHashTree) : SetIO A :=
  on_set (fun s => let '(x, t) := g (m_pHashTree s) in (x, with_tree t s)).

Definition set_status (v : EAICHStatus) : SetIO unit := on_set (fun s => (tt, SetStatus v s)).

Definition find_level (nStartPos nSize : Z) : SetIO Z :=
  on_tree (fun t => let '(_, nLevel, t) := FindHash t nStartPos nSize in (nLevel, t)).

Definition position : SetIO Z := fun '(s, f) => (inr (GetPosition f), (s, f)).

Definition remaining : SetIO Z := fun '(s, f) => (inr (u64 (GetLength f - GetPosition f)), (s, f)).

Definition hashs_of_part (nLevel nPartSize : Z) : Z :=
  u16 ((nLevel - 1) + nPartSize / EMBLOCKSIZE + (if negb (nPartSize mod EMBLOCKSIZE =? 0) then 1 else 0)).

(** [load] is [LoadHashSet], which brings the tree of the set into memory. *)
Definition SetCreatePartRecoveryData (load : CAICHHashSet -> bool * CAICHHashSet) (o : CKnownFile)
  (nPartStartPos : Z) (bDbgDontLoad : bool) : SetIO bool :=
  let! s := on_set (fun s => (s, s)) in
  if IsPartFile o || negb (bool_decide (m_eStatus s = AICH_HASHSETCOMPLETE)) then io_ret false
  else if GetNDataSize (m_pHashTree s) <=? EMBLOCKSIZE then io_ret false
  else
    let! loaded := (if negb bDbgDontLoad then on_set load else io_ret true) in
    if negb loaded then seq! set_status AICH_ERROR in io_ret false
    else
      let nPartSize := hash_part_size o nPartStartPos in
      let! nLevel := find_level nPartStartPos nPartSize in
      let nHashsToWrite := hashs_of_part nLevel nPartSize in
      let bUse32BitIdentifier := IsLargeFile o in
      seq! (if bUse32BitIdentifier then on_file (WriteUInt16 0) else io_ret tt) in
      seq! on_file (WriteUInt16 nHashsToWrite) in
      let! s := on_set (fun s => (s, s)) in
      let! nCheckFilePos := position in
      let! ok := on_file (CreatePartRecoveryData (m_pHashTree s) nPartStartPos nPartSize 0 bUse32BitIdentifier) in
      let! pos := position in
      let bResult := ok && (u32 (nHashsToWrite * (HASHSIZE + (if bUse32BitIdentifier then 4 else 2))) =?
                            u64 (pos - nCheckFilePos)) in
      seq! (if negb bResult then set_status AICH_ERROR else io_ret tt) in
      seq! (if negb bUse32BitIdentifier then on_file (WriteUInt16 0) else io_ret tt) in
      seq! (if negb bDbgDontLoad then on_set (fun s => (tt, FreeHashSet s)) else io_ret tt) in
      io_ret bResult.

Definition read_hash (b32 : bool) : SetIO bool :=
  let! wHashIdent := on_file (if b32 then ReadUInt32 else ReadUInt16) in
  if (wHashIdent =? 1) || (b32 && (wHashIdent >? 0x400000)) then io_ret false
  else fun '(s, f) =>
    let '(r, t, f) := SetHash (m_pHashTree s) wHashIdent false f in (r, (with_tree t s, f)).

Fixpoint read_hashs (b32 : bool) (n : nat) : SetIO bool :=
  match n with
  | O => io_ret true
  | S n =>
      let! ok := read_hash b32 in
      if ok : bool then read_hashs b32 n
      else seq! on_tree (VerifyHashTree sha1 true) in io_ret false
  end.

Definition ReadRecoveryData (o : CKnownFile) (nPartStartPos : Z) : SetIO bool :=
  let! s := on_set (fun s => (s, s)) in
  if negb (bool_decide (m_eStatus s = AICH_VERIFIED)) && negb (bool_decide (m_eStatus s = AICH_TRUSTED))
  then io_ret false
  else
    let nPartSize := hash_part_size o nPartStartPos in
    let! nLevel := find_level nPartStartPos nPartSize in
    let nHashsToRead := hashs_of_part nLevel nPartSize in
    let! nHashsAvailable := on_file ReadUInt16 in
    let! left := remaining in
    if (left <? nHashsToRead * (HASHSIZE + 2)) ||
       (negb (nHashsToRead =? nHashsAvailable) && negb (nHashsAvailable =? 0))
    then io_ret false
    else
      let! ok := read_hashs false (Z.to_nat nHashsAvailable) in
      if negb ok then io_ret false
      else
        let! left := remaining in
        let! available :=
          (if (nHashsAvailable =? 0) && (left >=? 2) then
             let! nHashsAvailable := on_file ReadUInt16 in
             let! left := remaining in
             if (left <? nHashsToRead * (HASHSIZE + 4)) ||
                (negb (nHashsToRead =? nHashsAvailable) && negb (nHashsAvailable =? 0))
             then io_ret None
             else
               let! ok := read_hashs true (Z.to_nat nHashsToRead) in
               io_ret (if ok : bool then Some nHashsAvailable else None)
           else io_ret (Some nHashsAvailable)) in
        match available with
        | None => io_ret false
        | Some nHashsAvailable =>
            if nHashsAvailable =? 0 then io_ret false
            else
              let! ok := on_tree (VerifyHashTree sha1 true) in
              if ok : bool then on_tree (check_blocks BLOCKS_FUEL nPartStartPos nPartSize 0) else io_ret false
        end.

End Recovery.

(** ** Operations on the pair of a set and a file *)

Section SetCodec.

Context {F : Type} {IOF : CFileDataIO F} {laws : FileLaws F}.

#[local] Open Scope io_scope.

Abbreviation SetIO := (IO (CAICHHashSet * F)) (only parsing).

(** From [s], [m] appends [bs], gives [x] and leaves the set [s']. *)
Definition swrites {A} (m : SetIO A) (s : CAICHHashSet) (bs : list Z) (x : A) (s' : CAICHHashSet) : Prop :=
  forall f, file_ok f -> GetPosition f <= GetLength f -> room f (Z.of_nat (length bs)) ->
  exists f', m (s, f) = (inr x, (s', f')) /\ file_ok f' /\
    content f' = splice (content f) (GetPosition f) bs /\
    GetPosition f' = GetPosition f + Z.of_nat (length bs) /\
    forall n, 0 <= n -> room f (Z.of_nat (length bs) + n) -> room f' n.

(** From [s], [m] consumes [bs], gives [x] and leaves the set [s']. *)
Definition sreads {A} (m : SetIO A) (s : CAICHHashSet) (bs : list Z) (x : A) (s' : CAICHHashSet) : Prop :=
  forall f rest, file_ok f -> GetPosition f <= GetLength f ->
  drop (Z.to_nat (GetPosition f)) (content f) = bs ++ rest ->
  exists f', m (s, f) = (inr x, (s', f')) /\ file_ok f' /\ content f' = content f /\
    GetPosition f' = GetPosition f + Z.of_nat (length bs).

Lemma swrites_file {A} (m : IO F A) s bs x : writes m bs x -> swrites (on_file m) s bs x s.
Proof. intros H f Hf Hp Hr. destruct (H f Hf Hp Hr) as (f' & E & H'). exists f'. unfold on_file. by rewrite E. Qed.

Lemma swrites_pure {A} (m : SetIO A) s x s' : (forall f, m (s, f) = (inr x, (s', f))) -> swrites m s [] x s'.
Proof.
  intros H f Hf Hp Hr. exists f. destruct (law_position f Hf) as [HP _].
  split; [apply H|]. split; [done|]. unfold splice. rewrite Nat.add_0_r, app_nil_l, take_drop.
  split; [done|]. split; [simpl; lia|]. intros n Hn. by rewrite Z.add_0_l.
Qed.

Lemma swrites_bind {A B} (m : SetIO A) (k : A -> SetIO B) s b1 x s1 b2 y s2 :
  swrites m s b1 x s1 -> swrites (k x) s1 b2 y s2 -> swrites (let! z := m in k z) s (b1 ++ b2) y s2.
Proof.
  intros Hm Hk. assert (writes (fun f => let '(r, (_, f)) := m (s, f) in (r, f)) b1 x) as Wm.
  { intros f Hf Hp Hr. destruct (Hm f Hf Hp Hr) as (f' & E & H). exists f'. by rewrite E. }
  assert (writes (fun f => let '(r, (_, f)) := k x (s1, f) in (r, f)) b2 y) as Wk.
  { intros f Hf Hp Hr. destruct (Hk f Hf Hp Hr) as (f' & E & H). exists f'. by rewrite E. }
  intros f Hf Hp Hr. rewrite length_app, Nat2Z.inj_add in Hr.
  destruct (writes_bind _ (fun _ => fun f => let '(r, (_, f)) := k x (s1, f) in (r, f)) b1 b2 x y Wm Wk f Hf Hp)
    as (f' & E & H); [by rewrite length_app, Nat2Z.inj_add|].
  destruct (Hm f Hf Hp) as (f1 & E1 & Hf1 & C1 & P1 & R1); [by eapply law_room; [done|exact Hr|lia]|].
  unfold io_bind in E |- *. rewrite E1 in E |- *.
  destruct (law_content f Hf) as [_ HL]. destruct (law_position f Hf) as [HP _].
  destruct (law_content f1 Hf1) as [_ HL1].
  destruct (Hk f1 Hf1) as (f2 & E2 & _);
    [rewrite HL1, C1, P1; apply splice_length; lia|apply R1; [lia|done]|].
  rewrite E2 in E |- *. injection E as ->. by exists f'.
Qed.

(** A step that does not touch the file. *)
Lemma swrites_then {A B} (m : SetIO A) (k : A -> SetIO B) s x s1 bs y s2 :
  (forall f, m (s, f) = (inr x, (s1, f))) -> swrites (k x) s1 bs y s2 -> swrites (let! z := m in k z) s bs y s2.
Proof. intros Hm Hk. rewrite <- (app_nil_l bs). eapply swrites_bind; [by apply swrites_pure|done]. Qed.

Lemma sreads_file {A} (m : IO F A) s bs x : parses m bs x -> sreads (on_file m) s bs x s.
Proof. intros H f rest Hf Hp Hr. destruct (H f rest Hf Hp Hr) as (f' & E & H'). exists f'. unfold on_file. by rewrite E. Qed.

Lemma sreads_pure {A} (m : SetIO A) s x s' : (forall f, m (s, f) = (inr x, (s', f))) -> sreads m s [] x s'.
Proof. intros H f rest Hf Hp E. exists f. split; [apply H|]. split_and!; [done..|simpl; lia]. Qed.

Lemma sreads_bind {A B} (m : SetIO A) (k : A -> SetIO B) s b1 x s1 b2 y s2 :
  sreads m s b1 x s1 -> sreads (k x) s1 b2 y s2 -> sreads (let! z := m in k z) s (b1 ++ b2) y s2.
Proof.
  intros Hm Hk f rest Hf Hp E. rewrite <- app_assoc in E.
  destruct (Hm f _ Hf Hp E) as (f1 & E1 & Hf1 & C1 & P1). destruct (parses_at f b1 _ Hf Hp E) as [HL E'].
  destruct (Hk f1 rest Hf1) as (f2 & E2 & Hf2 & C2 & P2);
    [by rewrite (length_kept f f1 Hf Hf1 C1), P1|by rewrite P1, C1|].
  exists f2. unfold io_bind. rewrite E1, E2, C2, C1, P2, P1, length_app. split_and!; [done..|lia].
Qed.

Lemma sreads_then {A B} (m : SetIO A) (k : A -> SetIO B) s x s1 bs y s2 :
  (forall f, m (s, f) = (inr x, (s1, f))) -> sreads (k x) s1 bs y s2 -> sreads (let! z := m in k z) s bs y s2.
Proof. intros Hm Hk. rewrite <- (app_nil_l bs). eapply sreads_bind; [by apply sreads_pure|done]. Qed.

(** The length check sees at least the bytes that are read afterwards. *)
Lemma sreads_remaining {A} (k : Z -> SetIO A) s bs x s' :
  (forall left, Z.of_nat (length bs) <= left -> sreads (k left) s bs x s') ->
  sreads (let! left := remaining in k left) s bs x s'.
Proof.
  intros Hk f rest Hf Hp E. destruct (parses_at f bs rest Hf Hp E) as [HL _].
  destruct (law_position f Hf) as [HP HL2]. unfold io_bind, remaining.
  rewrite (wrap_small 64 (GetLength f - GetPosition f)) by (unfold in_width; lia).
  destruct (Hk (GetLength f - GetPosition f) ltac:(lia) f rest Hf Hp E) as (f' & E' & H). by exists f'.
Qed.

Lemma swrites_measured {A B} (m : SetIO A) (k : A -> Z -> Z -> SetIO B) s b1 x s1 b2 y s2 :
  swrites m s b1 x s1 ->
  (forall p, 0 <= p < 2 ^ 63 -> swrites (k x p (p + Z.of_nat (length b1))) s1 b2 y s2) ->
  swrites (let! p := position in let! z := m in let! q := position in k z p q) s (b1 ++ b2) y s2.
Proof.
  intros Hm Hk f Hf Hp Hr. destruct (law_position f Hf) as [HP _].
  pose proof (swrites_bind m (fun z => k z (GetPosition f) (GetPosition f + Z.of_nat (length b1))) s b1 x s1 b2 y s2
    Hm (Hk _ HP) f Hf Hp Hr) as (f' & E & H).
  exists f'. split; [|done]. rewrite <- E. unfold io_bind, position.
  rewrite length_app, Nat2Z.inj_add in Hr.
  destruct (Hm f Hf Hp) as (f1 & -> & _ & _ & -> & _); [by eapply law_room; [done|exact Hr|lia]|done].
Qed.

End SetCodec.

(** ** The levels of files *)

Lemma fits_small n : 0 < n <= OLD_MAX_FILE_SIZE -> fits 15 n.
Proof. intros H. unfold fits, OLD_MAX_FILE_SIZE, PARTSIZE in *. simpl. lia. Qed.

Lemma fits_large n : 0 < n <= MAX_FILE_SIZE -> fits 21 n.
Proof. intros H. unfold fits, MAX_FILE_SIZE, PARTSIZE in *. simpl. lia. Qed.

(** The levels of the identifiers an answer uses. *)
Definition ident_levels (o : CKnownFile) : nat := if IsLargeFile o then 21 else 15.

Lemma fits_file o : 0 < GetFileSize o <= MAX_FILE_SIZE -> fits (ident_levels o) (GetFileSize o).
Proof.
  intros H. unfold ident_levels, IsLargeFile. case_cmp; [by apply fits_large|apply fits_small; lia].
Qed.

Lemma ident_levels_bound o : (ident_levels o <= 21)%nat.
Proof. unfold ident_levels. destruct (IsLargeFile o); lia. Qed.

Section Parts.

Context (o : CKnownFile) (q : Z).
Context (Hsize : EMBLOCKSIZE < GetFileSize o <= MAX_FILE_SIZE) (Hq : 0 <= q) (Hpart : q * PARTSIZE < GetFileSize o).

#[local] Abbreviation sz := (GetFileSize o).

Lemma file_size_bound : 0 < sz < 2 ^ 62.
Proof. unfold MAX_FILE_SIZE, EMBLOCKSIZE in *. change (2 ^ 62) with 4611686018427387904. lia. Qed.

Lemma hash_part_size_spec : hash_part_size o (q * PARTSIZE) = part_size sz q.
Proof.
  pose proof file_size_bound. unfold hash_part_size, part_size.
  rewrite wrap_small; [done|]. unfold PARTSIZE in *. mem_lia.
Qed.

Lemma part_size_range : 0 < part_size sz q <= PARTSIZE.
Proof. unfold part_size, PARTSIZE in *. lia. Qed.

Lemma part_located : exists p, locates true sz (q * PARTSIZE) (part_size sz q) p /\ (length p <= ident_levels o)%nat.
Proof. apply locates_part; [|done..]. apply fits_file. pose proof file_size_bound. lia. Qed.

(** The position of the [j]-th block of the part. *)
Lemma block_located j : 0 <= j -> j * EMBLOCKSIZE < part_size sz q ->
  exists p r, locates true sz (q * PARTSIZE) (part_size sz q) p /\
    locates (branch_of true p) (part_size sz q) (j * EMBLOCKSIZE)
      (Z.min EMBLOCKSIZE (part_size sz q - j * EMBLOCKSIZE)) r /\
    locates true sz (q * PARTSIZE + j * EMBLOCKSIZE)
      (Z.min EMBLOCKSIZE (part_size sz q - j * EMBLOCKSIZE)) (p ++ r) /\
    (length (p ++ r) <= ident_levels o)%nat.
Proof.
  intros Hj Hlt. destruct part_located as (p & Hp & _). pose proof part_size_range.
  assert (forall k lb n s m p, locates lb n s m p -> fits k n -> exists k', fits k' m /\ (k' + length p = k)%nat) as Hdeep.
  { clear. intros k lb n s m p H. revert k. induction H as [lb n|lb n s m p Hgt ? ? ? ? H IH|lb n s m p Hgt ? ? ? ? H IH];
      intros k Hf; [exists k; split; [done|simpl; lia]|..];
      (destruct k as [|k]; [apply fits_0 in Hf; lia|]); destruct (fits_child k n lb Hf Hgt) as [H1' H2'].
    - destruct (IH k H1') as (k' & Hk' & E). exists k'. split; [done|simpl; lia].
    - destruct (IH k H2') as (k' & Hk' & E). exists k'. split; [done|simpl; lia]. }
  destruct (Hdeep _ _ _ _ _ _ Hp (fits_file o ltac:(pose proof file_size_bound; lia))) as (k & Hk & Ek).
  destruct (locates_unit EMBLOCKSIZE k (branch_of true p) (part_size sz q) j) as (r & Hr & Hl); try done;
    [right; split; [done|apply part_size_range]|].
  exists p, r. split_and!; try done; [|rewrite length_app; lia].
  eapply locates_app; [done|done|lia].
Qed.

Lemma FindHash_at s n p t : locates true sz s n p -> (length p <= 21)%nat -> shaped true sz t -> is_null t = false ->
  FindHash t s n = (Some p, Z.of_nat (length p) + 1, grow p t).
Proof.
  intros Hp Hl Ht Hnn. pose proof file_size_bound. unfold FindHash.
  rewrite (FindHash_rec_spec 22 true sz s n p t 0); try done; try lia.
  by destruct t.
Qed.

Lemma located_unique lb n s m p p' : locates lb n s m p -> locates lb n s m p' -> p = p'.
Proof.
  intros H. revert p'. induction H as [lb n|lb n s m p Hgt ? ? ? ? H IH|lb n s m p Hgt ? ? ? ? H IH];
    intros p' H'; inversion H'; subst; try done; try lia; f_equal; auto.
Qed.

(** The check for the blocks of a part succeeds on a settled tree that has them all. *)
Lemma check_blocks_spec sha1 t fuel j : shaped true sz t -> settled sha1 t -> 0 <= j ->
  (forall j' p, 0 <= j' -> j' * EMBLOCKSIZE < part_size sz q ->
     locates true sz (q * PARTSIZE + j' * EMBLOCKSIZE) (Z.min EMBLOCKSIZE (part_size sz q - j' * EMBLOCKSIZE)) p ->
     node_at p t <> NULL) ->
  check_blocks fuel (q * PARTSIZE) (part_size sz q) (j * EMBLOCKSIZE) t = (true, t).
Proof.
  intros Ht Hs Hj Hall. revert j Hj. induction fuel as [|fuel IH]; intros j Hj; [done|].
  cbn [check_blocks]. destruct (Z.ltb_spec (j * EMBLOCKSIZE) (part_size sz q)) as [Hlt|]; [|done].
  pose proof part_size_range. pose proof file_size_bound.
  rewrite (wrap_small 64) by (unfold part_size, PARTSIZE, EMBLOCKSIZE in *; mem_lia).
  destruct (block_located j Hj Hlt) as (p & r & _ & _ & Hpr & Hl).
  rewrite (FindHash_at _ _ (p ++ r)) by (done || (by destruct t) || (pose proof (ident_levels_bound o); lia)).
  pose proof (Hall j _ Hj Hlt Hpr) as Hn. rewrite (grow_id _ _ Hn), (settled_node sha1 _ t Hs Hn). simpl.
  replace (j * EMBLOCKSIZE + EMBLOCKSIZE) with ((j + 1) * EMBLOCKSIZE) by lia. apply IH. lia.
Qed.

Lemma hashs_of_part_spec sha1 p g : locates true sz (q * PARTSIZE) (part_size sz q) p -> (length p <= 21)%nat ->
  complete sha1 g -> shaped true sz g ->
  hashs_of_part (Z.of_nat (length p) + 1) (part_size sz q) = Z.of_nat (length (recovery p g)) /\
  0 < Z.of_nat (length (recovery p g)) < 100.
Proof.
  intros Hp Hl Hg Hs. pose proof part_size_range as Hr.
  rewrite (recovery_length sha1 true sz _ _ p g Hp Hg Hs Hr). unfold hashs_of_part, block_count.
  assert (0 < part_size sz q / EMBLOCKSIZE + (if negb (part_size sz q mod EMBLOCKSIZE =? 0) then 1 else 0) <= 53) as Hb.
  { destruct (Z.eqb_spec (part_size sz q mod EMBLOCKSIZE) 0); simpl; unfold PARTSIZE, EMBLOCKSIZE in *; lia. }
  set (c := (if negb (part_size sz q mod EMBLOCKSIZE =? 0) then 1 else 0)) in *.
  replace (Z.of_nat (length p) + 1 - 1 + part_size sz q / EMBLOCKSIZE + c)
    with (Z.of_nat (length p) + (part_size sz q / EMBLOCKSIZE + c)) by lia.
  split; [|lia]. apply wrap_small. unfold in_width. norm_pow. lia.
Qed.

End Parts.

(** ** Answers *)

Section Answers.

Context (sha1 : list Z -> list Z).
Context {F : Type} {IOF : CFileDataIO F} {laws : FileLaws F}.
Context (o : CKnownFile) (q : Z) (p : list bool) (g : CAICHHashTree).
Context (Hsize : EMBLOCKSIZE < GetFileSize o <= MAX_FILE_SIZE) (Hq : 0 <= q) (Hpart : q * PARTSIZE < GetFileSize o).
Context (Hp : locates true (GetFileSize o) (q * PARTSIZE) (part_size (GetFileSize o) q) p).
Context (Hg : complete sha1 g) (Hs : shaped true (GetFileSize o) g).

#[local] Open Scope io_scope.
#[local] Abbreviation sz := (GetFileSize o).
#[local] Abbreviation large := (IsLargeFile o).

(** The packet: no hashes with short identifiers, or none with long ones. *)
Definition answer : list Z :=
  let es := recovery p g in
  (if large then poke_le 2 0 else []) ++ poke_le 2 (Z.of_nat (length es)) ++ entries_bytes false large es ++
  (if large then [] else poke_le 2 0).

Lemma path_levels : (length p <= ident_levels o)%nat.
Proof.
  destruct (part_located o q Hsize Hq Hpart) as (p' & Hp' & Hl). by rewrite (located_unique _ _ _ _ _ _ Hp Hp').
Qed.

Lemma path_21 : (length p <= 21)%nat.
Proof. pose proof path_levels. pose proof (ident_levels_bound o). lia. Qed.

Lemma recovery_entries : Forall (fun e => entry_ok true sz (ident_levels o) e /\ e.1 <> []) (recovery p g).
Proof.
  apply Forall_and. split.
  - apply (recovery_ok sha1); try done; [|by eapply locates_inside].
    apply fits_file. pose proof (file_size_bound o Hsize). lia.
  - apply (recovery_not_root sha1 true sz); try done; [lia|by eapply locates_inside].
Qed.

Lemma entry_length e : entry_ok true sz (ident_levels o) e ->
  Z.of_nat (length (entry_bytes false large e)) = HASHSIZE + (if large then 4 else 2).
Proof.
  intros (_ & [_ Hl] & _). unfold entry_bytes, ident_bytes. rewrite length_app, Hl.
  destruct large; rewrite poke_le_length; done.
Qed.

Lemma entries_length es : Forall (entry_ok true sz (ident_levels o)) es ->
  Z.of_nat (length (entries_bytes false large es)) = Z.of_nat (length es) * (HASHSIZE + (if large then 4 else 2)).
Proof.
  induction 1 as [|e es He _ IH]; [done|]. unfold entries_bytes. rewrite fmap_cons, concat_cons.
  fold (entries_bytes false large es). rewrite length_app, Nat2Z.inj_add, IH, entry_length by done.
  simpl length. lia.
Qed.

Lemma answer_count : hashs_of_part (Z.of_nat (length p) + 1) (part_size sz q) = Z.of_nat (length (recovery p g)) /\
  0 < Z.of_nat (length (recovery p g)) < 100.
Proof. eapply hashs_of_part_spec; try done. apply path_21. Qed.

(** A complete set writes its answer. *)
Lemma SetCreatePartRecoveryData_spec load (b : bool) s s1 :
  IsPartFile o = false -> m_eStatus s = AICH_HASHSETCOMPLETE -> EMBLOCKSIZE < GetNDataSize (m_pHashTree s) ->
  (if b then s1 = s else load s = (true, s1)) -> m_pHashTree s1 = g ->
  swrites (SetCreatePartRecoveryData load o (q * PARTSIZE) b) s answer true (if b then s1 else FreeHashSet s1).
Proof.
  intros Hpf Hst Hn Hload Htree. unfold SetCreatePartRecoveryData, answer.
  rewrite (hash_part_size_spec o q Hsize Hq Hpart).
  destruct answer_count as [Ec Hc]. pose proof recovery_entries as Hes. pose proof path_21 as H21.
  assert (Forall (entry_ok true sz (ident_levels o)) (recovery p g)) as Hes'
    by (eapply Forall_impl; [exact Hes|]; by intros ? [? _]).
  pose proof (entries_length _ Hes') as Hlen.
  eapply swrites_then; [done|]. rewrite Hpf, Hst, bool_decide_true by done. cbn [negb orb].
  rewrite (proj2 (Z.leb_gt (GetNDataSize (m_pHashTree s)) EMBLOCKSIZE)) by lia.
  eapply (swrites_then _ _ _ true s1).
  { intros f. destruct b; simpl; [by subst|]. unfold on_set. by rewrite Hload. }
  cbn [negb]. eapply (swrites_then _ _ _ (Z.of_nat (length p) + 1) s1).
  { intros f. unfold find_level, on_tree, on_set. rewrite Htree.
    rewrite (FindHash_at o Hsize _ _ p) by (done || by destruct g).
    rewrite grow_id; [destruct s1; simpl in *; by subst|].
    pose proof (complete_node_at sha1 true sz p g Hg Hs ltac:(by eapply locates_inside)) as Hnode.
    by destruct (node_at p g). }
  rewrite Ec. eapply swrites_bind.
  { instantiate (1 := s1). instantiate (1 := tt). destruct large; [by apply swrites_file, writes_int|by apply swrites_pure]. }
  eapply swrites_bind; [by apply swrites_file, writes_int|].
  eapply swrites_then; [done|]. eapply (swrites_measured _ _ _ _ true s1).
  { apply swrites_file. rewrite Htree, <- (under_nil (recovery p g)).
    apply (writes_recovery sha1 (ident_levels o) [] 0 true sz); try done.
    - apply fits_file. pose proof (file_size_bound o Hsize). lia.
    - pose proof (ident_levels_bound o). simpl. lia.
    - pose proof (file_size_bound o Hsize). change (2 ^ 62) with 4611686018427387904 in *. norm_pow. lia. }
  intros pos Hpos. rewrite Hlen.
  replace (pos + Z.of_nat (length (recovery p g)) * (HASHSIZE + (if large then 4 else 2)) - pos)
    with (Z.of_nat (length (recovery p g)) * (HASHSIZE + (if large then 4 else 2))) by lia.
  assert (in_width 32 (Z.of_nat (length (recovery p g)) * (HASHSIZE + (if large then 4 else 2)))) as Hw.
  { unfold in_width, HASHSIZE. norm_pow. destruct large; lia. }
  rewrite (wrap_small 32), (wrap_small 64), Z.eqb_refl by (done || (by eapply in_width_weaken; [|done])).
  cbn [andb negb]. eapply swrites_then; [done|].
  rewrite <- (app_nil_r (if large then [] else poke_le 2 0)). eapply (swrites_bind _ _ _ _ tt s1).
  { destruct large; [by apply swrites_pure|by apply swrites_file, writes_int]. }
  eapply swrites_then; [|by apply swrites_pure]. intros f. by destruct b.
Qed.


Lemma parses_ident e : entry_ok true sz (ident_levels o) e ->
  let i := path_ident e.1 in
  parses (if large then ReadUInt32 else ReadUInt16) (ident_bytes large e.1) i /\
  (e.1 <> [] -> i <> 1 /\ large && (i >? 0x400000) = false).
Proof.
  intros (_ & _ & Hl) i. subst i. pose proof (path_ident_range e.1) as Hr.
  unfold ident_levels in Hl. split.
  - unfold ident_bytes. destruct large.
    + apply parses_UInt32. pose proof (Z.pow_le_mono_r 2 (Z.of_nat (length e.1) + 1) 32).
      unfold in_width. pose proof (Z.pow_nonneg 2 (Z.of_nat (length e.1))). lia.
    + assert (in_width 16 (path_ident e.1)) as H16.
      { pose proof (Z.pow_le_mono_r 2 (Z.of_nat (length e.1) + 1) 16).
        unfold in_width. pose proof (Z.pow_nonneg 2 (Z.of_nat (length e.1))). lia. }
      rewrite wrap_small by done. by apply parses_UInt16.
  - intros Hne. assert (2 ^ 1 <= 2 ^ Z.of_nat (length e.1)) as H1.
    { apply Z.pow_le_mono_r; [lia|]. destruct e.1; [done|simpl; lia]. }
    split; [lia|]. destruct large; [|done]. simpl. rewrite Z.gtb_ltb. apply Z.ltb_ge.
    pose proof (Z.pow_le_mono_r 2 (Z.of_nat (length e.1) + 1) 22). change (2 ^ 22) with 0x400000 in *. lia.
Qed.

Lemma sreads_hash s e : entry_ok true sz (ident_levels o) e -> e.1 <> [] -> shaped true sz (m_pHashTree s) ->
  is_null (m_pHashTree s) = false ->
  sreads (read_hash (F := F) large) s (entry_bytes false large e) true (with_tree (put e.1 e.2 (m_pHashTree s)) s).
Proof.
  intros He Hne Ht Hn. destruct (parses_ident e He) as [Hpi Hi]. destruct (Hi Hne) as [H1 H2].
  unfold read_hash, entry_bytes. eapply sreads_bind; [by apply sreads_file|].
  rewrite H2, (proj2 (Z.eqb_neq _ 1)) by done. cbn [orb].
  destruct He as (Hin & Hok & Hl). pose proof (ident_levels_bound o).
  intros f rest Hf Hpos E.
  destruct (SetHash_spec true sz e.1 e.2 (m_pHashTree s) Ht Hn Hin Hok Hne ltac:(lia) f rest Hf Hpos E)
    as (f' & -> & H'). by exists f'.
Qed.

Lemma sreads_hashs es s : Forall (fun e => entry_ok true sz (ident_levels o) e /\ e.1 <> []) es ->
  shaped true sz (m_pHashTree s) -> is_null (m_pHashTree s) = false ->
  sreads (read_hashs sha1 (F := F) large (length es)) s (entries_bytes false large es) true
    (with_tree (put_all es (m_pHashTree s)) s).
Proof.
  intros H. revert s. induction H as [|e es [He Hne] _ IH]; intros s Ht Hn.
  - apply sreads_pure. intros f. by destruct s.
  - cbn [length read_hashs]. unfold entries_bytes. rewrite fmap_cons, concat_cons. eapply sreads_bind.
    { by apply sreads_hash. }
    apply (IH (with_tree (put e.1 e.2 (m_pHashTree s)) s)); simpl.
    + apply put_shaped; [done|apply He|apply He].
    + by rewrite put_full.
Qed.

(** What an answer about a part may be read into: a well-shaped tree with the root hash, whose
    hashes are those of [g], and in which off the way to the part every node has both children
    or none. *)
Record awaits (s : CAICHHashSet) : Prop := {
  aw_status : m_eStatus s = AICH_TRUSTED \/ m_eStatus s = AICH_VERIFIED;
  aw_valid : HasValidMasterHash s = true;
  aw_shaped : shaped true sz (m_pHashTree s);
  aw_agrees : agrees (m_pHashTree s) g;
  aw_ready : ready p (m_pHashTree s)
}.

Lemma awaits_full s : awaits s -> is_null (m_pHashTree s) = false.
Proof. intros [_ H _ _ _]. unfold HasValidMasterHash in H. by destruct (m_pHashTree s). Qed.

Lemma agrees_grow p' t g' : agrees t g' -> agrees (grow p' t) g' /\ GetHashValid (grow p' t) = GetHashValid t /\
  GetHash (grow p' t) = GetHash t /\ is_null (grow p' t) = is_null t.
Proof.
  revert t g'. induction p' as [|b p' IH]; intros t g' Ha; [by destruct t|].
  destruct t as [|h n' base lb' v l r]; [done|]. destruct Ha as (Hh & Hl & Hr).
  destruct b; simpl; split_and!; try done; apply IH; by apply agrees_child_or_new.
Qed.

(** The tree that reading, verifying and checking leave behind. *)
Lemma answer_verifies t : shaped true sz t -> GetHashValid t = true -> agrees t g -> ready p t ->
  exists t', VerifyHashTree sha1 true (put_all (recovery p g) (grow p t)) = (true, t') /\
    settled sha1 t' /\ agrees t' g /\ shaped true sz t' /\ GetHash t' = GetHash t /\
    check_blocks BLOCKS_FUEL (q * PARTSIZE) (part_size sz q) 0 t' = (true, t').
Proof.
  intros Ht Hv Ha Hr. pose proof (locates_inside _ _ _ _ _ Hp) as Hin.
  destruct (agrees_grow p t g Ha) as (Ha' & Hv' & Hh' & Hn').
  assert (is_null t = false) as Hn by (by destruct t). rewrite Hn in Hn'.
  destruct (put_all_recovery sha1 true sz p (grow p t) g) as [S1 S2 S3 S4]; try done;
    [by eapply shaped_grow|by apply grow_ready|].
  destruct (S4 ltac:(congruence)) as [V E]. unfold VerifyHashTree.
  set (t1 := put_all (recovery p g) (grow p t)) in *.
  destruct (VerifyHashTree_solid sha1 true (height t1) true sz t1 g) as (t' & EV & St & At & Sh & Eh); try done.
  exists t'. split; [exact EV|]. split_and!; try done; [congruence|].
  apply (check_blocks_spec o q Hsize Hq Hpart sha1 t' BLOCKS_FUEL 0); try done.
  intros j p' Hj Hlt Hp'. destruct (block_located o q Hsize Hq Hpart j Hj Hlt) as (p0 & r & Hp0 & Hr0 & Hpr & Hl).
  assert (p0 = p) as -> by (by eapply located_unique). assert (p' = p ++ r) as -> by (by eapply located_unique).
  eapply same_shape_node; [by eapply VerifyHashTree_same|].
  apply (put_all_makes (p ++ r, GetHash (node_at (p ++ r) g))); [done|].
  eapply recovery_mem; try done.
  apply (blocks_mem sha1 (branch_of true p) (part_size sz q) (j * EMBLOCKSIZE)
    (Z.min EMBLOCKSIZE (part_size sz q - j * EMBLOCKSIZE))); try done.
  - by eapply complete_node_at.
  - by eapply shaped_node_at.
  - lia.
Qed.

(** The bytes of an answer that are read: the count of long identifiers is not, after short ones. *)
Definition answer_read : list Z :=
  (if large then poke_le 2 0 else []) ++ poke_le 2 (Z.of_nat (length (recovery p g))) ++
  entries_bytes false large (recovery p g).

Lemma answer_split : answer = answer_read ++ (if large then [] else poke_le 2 0).
Proof. unfold answer, answer_read. by rewrite <- !app_assoc. Qed.

Lemma sreads_check s t t' : VerifyHashTree sha1 true (m_pHashTree s) = (true, t) ->
  check_blocks BLOCKS_FUEL (q * PARTSIZE) (part_size sz q) 0 t = (true, t') ->
  sreads (F := F) (let! ok := on_tree (VerifyHashTree sha1 true) in
    if ok : bool then on_tree (check_blocks BLOCKS_FUEL (q * PARTSIZE) (part_size sz q) 0) else io_ret false)
    s [] true (with_tree t' s).
Proof.
  intros E1 E2. eapply (sreads_then _ _ _ true (with_tree t s)).
  - intros f. unfold on_tree, on_set. by rewrite E1.
  - apply sreads_pure. intros f. unfold on_tree, on_set. cbn [m_pHashTree with_tree]. by rewrite E2.
Qed.

Lemma ReadRecoveryData_spec s : awaits s -> exists t',
  sreads (ReadRecoveryData sha1 (F := F) o (q * PARTSIZE)) s answer_read true (with_tree t' s) /\
  settled sha1 t' /\ agrees t' g /\ shaped true sz t' /\ GetHash t' = GetMasterHash s /\
  check_blocks BLOCKS_FUEL (q * PARTSIZE) (part_size sz q) 0 t' = (true, t').
Proof.
  intros Haw. pose proof (awaits_full s Haw) as Hn. destruct Haw as [Hst Hv Ht Ha Hr].
  destruct (answer_verifies (m_pHashTree s) Ht Hv Ha Hr) as (t' & Ev & St & At & Sh & Eh & Ec').
  exists t'. split; [|done]. unfold ReadRecoveryData, answer_read.
  rewrite (hash_part_size_spec o q Hsize Hq Hpart).
  destruct answer_count as [Ec Hc]. pose proof recovery_entries as Hes. pose proof path_21 as H21.
  assert (Forall (entry_ok true sz (ident_levels o)) (recovery p g)) as Hes'
    by (eapply Forall_impl; [exact Hes|]; by intros ? [? _]).
  pose proof (entries_length _ Hes') as Hlen.
  set (es := recovery p g) in *. set (n := Z.of_nat (length es)) in *.
  set (s1 := with_tree (grow p (m_pHashTree s)) s).
  assert (shaped true sz (m_pHashTree s1) /\ is_null (m_pHashTree s1) = false) as [Ht1 Hn1].
  { split; [by eapply shaped_grow|]. change (is_null (grow p (m_pHashTree s)) = false).
    by destruct (agrees_grow p (m_pHashTree s) g Ha) as (_ & _ & _ & ->). }
  set (s2 := with_tree (put_all es (m_pHashTree s1)) s1).
  assert (with_tree t' s = with_tree t' s2) as -> by done.
  eapply sreads_then; [done|].
  replace (negb (bool_decide (m_eStatus s = AICH_VERIFIED)) && negb (bool_decide (m_eStatus s = AICH_TRUSTED)))
    with false by (by destruct Hst as [-> | ->]).
  eapply (sreads_then _ _ _ (Z.of_nat (length p) + 1) s1).
  { intros f. unfold find_level, on_tree, on_set. by rewrite (FindHash_at o Hsize _ _ p) by done. }
  rewrite Ec. fold n. assert (in_width 16 n) as Hw by (unfold in_width; norm_pow; lia).
  assert (Z.to_nat n = length es) as En by (unfold n; lia).
  unfold HASHSIZE in *. pose proof (sreads_hashs es s1 Hes Ht1 Hn1) as Hloop. fold s2 in Hloop.
  destruct large eqn:Hlarge.
  - eapply (sreads_bind _ _ _ (poke_le 2 0)); [by apply sreads_file, parses_UInt16|].
    apply sreads_remaining. intros left Hleft. rewrite length_app, poke_le_length in Hleft.
    rewrite (proj2 (Z.ltb_ge left _)), andb_false_r by lia. cbn [orb].
    eapply sreads_then; [done|]. cbn [negb]. apply sreads_remaining. intros left2 Hleft2.
    rewrite length_app, poke_le_length in Hleft2. rewrite (proj2 (Z.geb_le left2 2)) by lia. cbn [Z.eqb andb].
    rewrite <- (app_nil_r (poke_le 2 n ++ _)). eapply (sreads_bind _ _ _ _ (Some n) s2).
    + eapply sreads_bind; [by apply sreads_file, parses_UInt16|].
      apply sreads_remaining. intros left3 Hleft3. rewrite (proj2 (Z.ltb_ge left3 _)), Z.eqb_refl by lia.
      cbn [negb andb orb]. rewrite En, <- (app_nil_r (entries_bytes _ _ _)).
      eapply sreads_bind; [exact Hloop|by apply sreads_pure].
    + cbv iota. rewrite (proj2 (Z.eqb_neq n 0)) by lia. by apply (sreads_check s2 t' t').
  - rewrite app_nil_l. eapply sreads_bind; [by apply sreads_file, parses_UInt16|].
    apply sreads_remaining. intros left Hleft.
    rewrite (proj2 (Z.ltb_ge left _)), Z.eqb_refl by lia. cbn [negb andb orb]. rewrite En.
    rewrite <- (app_nil_r (entries_bytes _ _ _)). eapply sreads_bind; [exact Hloop|]. cbn [negb].
    apply sreads_remaining. intros left2 Hleft2. rewrite (proj2 (Z.eqb_neq n 0)) by lia. cbn [andb].
    eapply sreads_then; [done|]. cbv iota. rewrite (proj2 (Z.eqb_neq n 0)) by lia.
    by apply (sreads_check s2 t' t').
Qed.

End Answers.

Lemma answer_length o q p g sha1 : EMBLOCKSIZE < GetFileSize o <= MAX_FILE_SIZE -> 0 <= q ->
  q * PARTSIZE < GetFileSize o -> locates true (GetFileSize o) (q * PARTSIZE) (part_size (GetFileSize o) q) p ->
  complete sha1 g -> shaped true (GetFileSize o) g -> Z.of_nat (length (answer o p g)) <= 2400.
Proof.
  intros Hsize Hq Hpart Hp Hg Hs.
  destruct (answer_count sha1 o q p g Hsize Hq Hpart Hp Hg Hs) as [_ Hc].
  pose proof (recovery_entries sha1 o q p g Hsize Hp Hg Hs) as Hes. unfold answer.
  rewrite !length_app, !Nat2Z.inj_add, (entries_length o) by
    (eapply Forall_impl; [exact Hes|]; by intros ? [? _]).
  unfold HASHSIZE. destruct (IsLargeFile o); rewrite !poke_le_length; simpl; lia.
Qed.

Lemma awaits_settled sha1 o p g s t : awaits o p g s -> settled sha1 t -> agrees t g ->
  shaped true (GetFileSize o) t -> forall p', awaits o p' g (with_tree t s).
Proof.
  intros [Hst Hv _ _ _] St At Sh p'. split; try done; [by apply (settled_valid sha1)|].
  by apply tidy_ready, solid_tidy, (settled_solid sha1).
Qed.

(** C19: A part repaired over the network.  What the owner of a complete hash set answers for a
    part is accepted by every set that awaits it ([awaits]): one that is trusted or verified, has
    the same root hash, knows no wrong hash, and in which, off the way to the part, every node has
    both children or none.  The last condition holds of a set that knows only the root hash, and
    of one that holds what accepted answers left there, but not once [IsPartDataAvailable] has
    been asked about another part that is missing: the half-grown nodes it leaves make the set
    refuse this very answer ([stale_nodes_refuse_answer]).  After it accepted, the set has every
    hash it holds verified, still agrees with the complete one, has the genuine hash of every
    block of the part, and awaits the answer about any other part. *)
Theorem aich_recovery_roundtrip (sha1 : list Z -> list Z) (F : Type) (IOF : CFileDataIO F)
  (laws : FileLaws F) (load : CAICHHashSet -> bool * CAICHHashSet) (o o' : CKnownFile) (b : bool) (q : Z)
  (p : list bool) (g : CAICHHashTree) (s s1 r : CAICHHashSet) (f : F)
  (Hsize : EMBLOCKSIZE < GetFileSize o <= MAX_FILE_SIZE) (Hsame : GetFileSize o' = GetFileSize o)
  (Hq : 0 <= q) (Hpart : q * PARTSIZE < GetFileSize o)
  (Hp : locates true (GetFileSize o) (q * PARTSIZE) (part_size (GetFileSize o) q) p)
  (Hg : complete sha1 g) (Hs : shaped true (GetFileSize o) g)
  (Ho : IsPartFile o = false) (Hst : m_eStatus s = AICH_HASHSETCOMPLETE)
  (Hn : GetNDataSize (m_pHashTree s) = GetFileSize o)
  (Hload : if b then s1 = s else load s = (true, s1)) (Htree : m_pHashTree s1 = g)
  (Hr : awaits o' p g r)
  (Hf : file_ok f) (Hpos : GetPosition f <= GetLength f) (Hroom : room f 2400) :
  exists s' f', SetCreatePartRecoveryData load o (q * PARTSIZE) b (s, f) = (inr true, (s', f')) /\ file_ok f' /\
    (forall f2, file_ok f2 -> GetPosition f2 = GetPosition f -> content f2 = content f' ->
     exists t f2', ReadRecoveryData sha1 o' (q * PARTSIZE) (r, f2) = (inr true, (with_tree t r, f2')) /\
       settled sha1 t /\ GetHash t = GetMasterHash r /\
       (forall p', awaits o' p' g (with_tree t r)) /\
       IsPartDataAvailable o' (q * PARTSIZE) (with_tree t r) = (true, with_tree t r)).
Proof.
  pose proof (answer_length o q p g sha1 Hsize Hq Hpart Hp Hg Hs) as Hlen.
  destruct (SetCreatePartRecoveryData_spec sha1 o q p g Hsize Hq Hpart Hp Hg Hs load b s s1)
    with (f := f) as (f' & E & Hf' & C & P & _); try done; [lia|by eapply law_room; [done|exact Hroom|lia]|].
  do 2 eexists. split; [exact E|]. split; [exact Hf'|]. intros f2 Hf2 P2 C2.
  destruct o as [n pf], o' as [n' pf']. simpl in Hsame. subst n'.
  destruct (ReadRecoveryData_spec sha1 (F := F) (mkOwner n pf') q p g Hsize Hq Hpart Hp Hg Hs r Hr)
    as (t & Hrd & St & At & Sh & Eh & Ec).
  destruct (law_content f Hf) as [_ HL]. destruct (law_position f Hf) as [HP _].
  destruct (splice_at (content f) (GetPosition f) (answer (mkOwner n pf) p g) ltac:(lia)) as [rest Erest].
  rewrite <- C, <- C2, <- P2, answer_split, <- app_assoc in Erest.
  pose proof (splice_length (content f) (GetPosition f) (answer (mkOwner n pf) p g) ltac:(lia)) as Hsl.
  destruct (law_content f2 Hf2) as [_ HL2].
  destruct (Hrd f2 _ Hf2 ltac:(rewrite HL2, C2, C, P2; lia) Erest) as (f2' & E2 & _).
  exists t, f2'. split; [exact E2|]. split; [done|]. split; [done|].
  split; [by apply (awaits_settled sha1 _ p g r t)|].
  unfold IsPartDataAvailable. cbn [m_eStatus with_tree m_pHashTree].
  rewrite (hash_part_size_spec (mkOwner n pf') q Hsize Hq Hpart), Ec.
  by destruct Hr as [[-> | ->] _ _ _ _].
Qed.

(** ** Whatever an answer holds *)

Section AnyAnswer.

Context (sha1 : list Z -> list Z).
Context (sha1_ok : forall x, Forall is_byte x -> sha_ok (sha1 x)).
Context {F : Type} {IOF : CFileDataIO F} {laws : FileLaws F}.
Context (sz : Z) (root : list Z) (st : EAICHStatus).

#[local] Open Scope io_scope.
Abbreviation SetIO := (IO (CAICHHashSet * F)) (only parsing).

(** A well-shaped tree with a root hash, and a status. *)
Definition rooted (s : CAICHHashSet) : Prop :=
  shaped true sz (m_pHashTree s) /\ HasValidMasterHash s = true /\ GetMasterHash s = root /\ m_eStatus s = st.

(** From every such set and file, [m] ends in one, with a value of [Q] or at the end of the file. *)
Definition stays {A} (m : SetIO A) (Q : A -> CAICHHashSet -> Prop) (s : CAICHHashSet) : Prop :=
  forall f, file_ok f -> exists res s' f', m (s, f) = (res, (s', f')) /\ file_ok f' /\ rooted s' /\
    match res with inr x => Q x s' | inl e => e = CEOFException end.

Lemma stays_bind {A B} (m : SetIO A) (k : A -> SetIO B) (P : A -> CAICHHashSet -> Prop) Q s :
  stays m P s -> (forall x s1, rooted s1 -> P x s1 -> stays (k x) Q s1) -> stays (let! x := m in k x) Q s.
Proof.
  intros Hm Hk f Hf. unfold io_bind. destruct (Hm f Hf) as (res & s1 & f1 & -> & Hf1 & Hs1 & H).
  destruct res as [e|x]; [by exists (inl e), s1, f1|]. by apply Hk.
Qed.

Lemma stays_ret {A} (x : A) (Q : A -> CAICHHashSet -> Prop) s : rooted s -> Q x s -> stays (io_ret x) Q s.
Proof. intros Hs HQ f Hf. by exists (inr x), s, f. Qed.

Lemma stays_yields {A} (m : IO F A) (P : A -> Prop) s : rooted s -> yields m P eof ->
  stays (on_file m) (fun x _ => P x) s.
Proof.
  intros Hs Hm f Hf. destruct (Hm f Hf) as (f' & Hf' & _ & _ & [(x & E & Hx)|(e & E & He & _)]); unfold on_file; rewrite E.
  - by exists (inr x), s, f'.
  - by exists (inl e), s, f'.
Qed.

Lemma rooted_full s : rooted s -> is_null (m_pHashTree s) = false.
Proof. intros (_ & H & _). unfold HasValidMasterHash in H. by destruct (m_pHashTree s). Qed.

Lemma rooted_kept s t : rooted s -> kept true sz (m_pHashTree s) t -> rooted (with_tree t s).
Proof.
  intros (H1 & H2 & H3 & H4) [K1 K2 K3 K4]. unfold rooted, HasValidMasterHash, GetMasterHash in *.
  split_and!; simpl; first [done|congruence].
Qed.

Lemma stays_tree {A} (g : CAICHHashTree -> A * CAICHHashTree) (Q : A -> CAICHHashSet -> Prop) s : rooted s ->
  kept true sz (m_pHashTree s) (g (m_pHashTree s)).2 ->
  Q (g (m_pHashTree s)).1 (with_tree (g (m_pHashTree s)).2 s) -> stays (on_tree g) Q s.
Proof.
  intros Hs Hk HQ f Hf. unfold on_tree, on_set. destruct (g (m_pHashTree s)) as [x t].
  exists (inr x), (with_tree t s), f. split_and!; try done. by apply rooted_kept.
Qed.

Lemma stays_remaining {A} (k : Z -> SetIO A) Q s : (forall left, stays (k left) Q s) ->
  stays (let! left := remaining in k left) Q s.
Proof. intros Hk f Hf. by apply Hk. Qed.

Lemma stays_mono {A} (m : SetIO A) (P Q : A -> CAICHHashSet -> Prop) s :
  stays m P s -> (forall x s, P x s -> Q x s) -> stays m Q s.
Proof.
  intros Hm H f Hf. destruct (Hm f Hf) as (res & s' & f' & E & H1 & H2 & H3).
  exists res, s', f'. destruct res; auto 6.
Qed.

Definition anything {A} (x : A) (s : CAICHHashSet) : Prop := True.

Lemma VerifyHashTree_kept s : rooted s -> kept true sz (m_pHashTree s) (VerifyHashTree sha1 true (m_pHashTree s)).2.
Proof.
  intros (Hs & _). destruct (VerifyHashTree_shaped sha1 sha1_ok true (height (m_pHashTree s)) true sz _ Hs)
    as (H1 & H2 & H3 & H4). done.
Qed.

Lemma read_hash_stays b32 s : rooted s -> stays (read_hash b32) anything s.
Proof.
  intros Hs. unfold read_hash. eapply (stays_bind _ _ (fun x _ => in_width 32 x)).
  - apply stays_yields; [done|]. destruct b32; [apply yields_UInt32|].
    eapply yields_mono; [apply yields_UInt16| |done]. intros x. by apply in_width_weaken.
  - intros i s1 Hs1 Hi. destruct (Z.eqb_spec i 1) as [|Hne]; [by apply stays_ret|].
    destruct (b32 && (i >? 0x400000)); [by apply stays_ret|]. simpl. intros f Hf. pose proof Hs1 as (Ht & _).
    destruct (SetHash_any true sz (m_pHashTree s1) i f Ht (rooted_full s1 Hs1) Hf Hi Hne)
      as (res & t' & f' & -> & Hf' & Hk & He).
    exists res, (with_tree t' s1), f'. split_and!; try done; [by apply rooted_kept|]. destruct res; auto. done.
Qed.

Lemma read_hashs_stays b32 n s : rooted s -> stays (read_hashs sha1 b32 n) anything s.
Proof.
  revert s. induction n as [|n IH]; intros s Hs; [by apply stays_ret|]. cbn [read_hashs].
  eapply stays_bind; [by apply read_hash_stays|]. intros ok s1 Hs1 _. destruct ok; [by apply IH|].
  eapply (stays_bind _ _ anything); [by apply stays_tree; [|by apply VerifyHashTree_kept|]|].
  intros x s2 Hs2 _. by apply stays_ret.
Qed.

Lemma check_blocks_kept fuel start size pos t : shaped true sz t ->
  let t' := (check_blocks fuel start size pos t).2 in
  kept true sz t t' /\ (verified sha1 t -> verified sha1 t').
Proof.
  revert pos t. induction fuel as [|fuel IH]; intros pos t Ht; [done|]. cbn zeta. cbn [check_blocks].
  destruct (pos <? size); [|done].
  pose proof (FindHash_kept sha1 t (u64 (start + pos)) (Z.min EMBLOCKSIZE (size - pos)) true sz Ht) as [Hk Hv].
  destruct (FindHash t (u64 (start + pos)) (Z.min EMBLOCKSIZE (size - pos))) as [[[p|] lev] t1]; simpl in Hk, Hv; [|done].
  destruct (negb (GetHashValid (node_at p t1))); [done|].
  destruct (IH (pos + EMBLOCKSIZE) t1 ltac:(apply Hk)) as [Hk' Hv']. split; [by eapply kept_trans|auto].
Qed.

Lemma ReadRecoveryData_stays o start s : rooted s ->
  stays (ReadRecoveryData sha1 o start) (fun ok s' => ok = true -> verified sha1 (m_pHashTree s')) s.
Proof.
  intros Hs. unfold ReadRecoveryData. assert (forall s, rooted s -> stays (io_ret false)
    (fun ok s' => ok = true -> verified sha1 (m_pHashTree s')) s) as Hfalse by (intros; by apply stays_ret).
  eapply (stays_bind _ _ (fun x s' => x = s' /\ s' = s)); [intros f Hf; by exists (inr s), s, f|].
  intros _ _ _ [-> ->]. case_match; [by apply Hfalse|].
  eapply (stays_bind _ _ anything).
  { apply stays_tree; [done| |done]. destruct Hs as (Ht & _).
    destruct (FindHash_kept sha1 _ start (hash_part_size o start) true sz Ht) as [Hk _].
    by destruct (FindHash (m_pHashTree s) start (hash_part_size o start)) as [[? ?] ?]. }
  intros lev s1 Hs1 _. eapply stays_bind; [by apply stays_yields, yields_UInt16|].
  intros avail s2 Hs2 _. apply stays_remaining. intros left. case_match; [by apply Hfalse|].
  eapply stays_bind; [by apply read_hashs_stays|]. intros ok s3 Hs3 _. destruct ok; [|by apply Hfalse].
  cbn [negb]. apply stays_remaining. intros left2. eapply (stays_bind _ _ anything).
  { case_match; [|by apply stays_ret]. eapply stays_bind; [by apply stays_yields, yields_UInt16|].
    intros avail2 s4 Hs4 _. apply stays_remaining. intros left3. case_match; [by apply stays_ret|].
    eapply stays_bind; [by apply read_hashs_stays|]. intros ok s5 Hs5 _. by apply stays_ret. }
  intros [n|] s4 Hs4 _; [|by apply Hfalse]. destruct (n =? 0); [by apply Hfalse|].
  eapply (stays_bind _ _ (fun ok s' => ok = true -> verified sha1 (m_pHashTree s'))).
  { apply stays_tree; [done|by apply VerifyHashTree_kept|]. unfold VerifyHashTree. intros Eok.
    destruct (VerifyHashTree_rec sha1 (height (m_pHashTree s4)) true (m_pHashTree s4)) as [ok t] eqn:E.
    simpl in *. subst ok. by eapply VerifyHashTree_sound. }
  intros ok s5 Hs5 Hv. destruct ok; [|by apply Hfalse]. pose proof Hs5 as (Ht5 & _).
  destruct (check_blocks_kept BLOCKS_FUEL start (hash_part_size o start) 0 (m_pHashTree s5) Ht5) as [Hk Hkv].
  apply stays_tree; [done|done|]. intros _. auto.
Qed.

End AnyAnswer.

(** C20: An answer whatever it holds.  Reading it ends, at worst with the exception for the end of
    the file, and keeps the tree well shaped, the status and the root hash.  If it is accepted, a
    hash that is reached from the root through nodes that all have theirs is the one of the
    complete tree with that root hash, or the two trees exhibit a collision of the hash function
    on the way.  Nothing is claimed below a node that has no hash: there an accepted answer may
    leave anything ([forged_answer_accepted]). *)
Theorem aich_accepted_answer_sound (sha1 : list Z -> list Z)
  (sha1_ok : forall x, Forall is_byte x -> sha_ok (sha1 x))
  (F : Type) (IOF : CFileDataIO F) (laws : FileLaws F) (o : CKnownFile) (start : Z) (s : CAICHHashSet) (f : F)
  (Hs : shaped true (GetFileSize o) (m_pHashTree s)) (Hv : HasValidMasterHash s = true) (Hf : file_ok f) :
  exists res s' f', ReadRecoveryData sha1 o start (s, f) = (res, (s', f')) /\
    (forall e, res = inl e -> e = CEOFException) /\
    shaped true (GetFileSize o) (m_pHashTree s') /\ GetMasterHash s' = GetMasterHash s /\
    m_eStatus s' = m_eStatus s /\
    (res = inr true -> verified sha1 (m_pHashTree s') /\
     forall g p, complete sha1 g -> shaped true (GetFileSize o) g -> GetHash g = GetMasterHash s ->
       known_path p (m_pHashTree s') ->
       GetHash (node_at p (m_pHashTree s')) = GetHash (node_at p g) \/
       exists q, q `prefix_of` p /\ pair_of (node_at q (m_pHashTree s')) <> pair_of (node_at q g) /\
         sha1 (pair_of (node_at q (m_pHashTree s'))) = sha1 (pair_of (node_at q g))).
Proof.
  destruct (ReadRecoveryData_stays sha1 sha1_ok (F := F) (GetFileSize o) (GetMasterHash s) (m_eStatus s) o start s)
    with (f := f) as (res & s' & f' & E & _ & (R1 & R2 & R3 & R4) & H); [by split_and!|done|].
  exists res, s', f'. split_and!; try done.
  - intros e ->. exact H.
  - intros ->. specialize (H eq_refl). split; [done|]. intros g p Hg Hsg Eg Hp.
    apply (verified_binding sha1 true (GetFileSize o)); try done. unfold GetMasterHash in *. congruence.
Qed.

(** ** Instances *)

(** A function with 20-byte values, in place of SHA-1. *)
Definition toy_sha (x : list Z) : list Z :=
  poke_le 20 (fold_left (fun a b => (a * 257 + b + 1) mod 2 ^ 160) x 7).

Lemma toy_sha_ok x : Forall is_byte x -> sha_ok (toy_sha x).
Proof. intros _. split; [apply poke_le_bytes|apply poke_le_length]. Qed.

(** A file of two blocks. *)
Definition sample_owner : CKnownFile := mkOwner 184321 false.

Lemma sample_tree : exists g, complete toy_sha g /\ shaped true (GetFileSize sample_owner) g.
Proof.
  assert (Z.of_nat (length (replicate (Z.to_nat 184321) 0)) = 184321) as El by (rewrite length_replicate; lia).
  destruct (genuine_ok toy_sha toy_sha_ok 1 true (replicate (Z.to_nat 184321) 0)) as [Hg Hs].
  - apply Forall_replicate. by split.
  - rewrite El. unfold fits, PARTSIZE, EMBLOCKSIZE. simpl. lia.
  - rewrite El in Hs. eexists. by split.
Qed.

(** A set that knows only the root hash. *)
Definition knows_root (n : Z) (h : list Z) : CAICHHashSet :=
  mkSet AICH_TRUSTED [] (Tree h n (base_size n) true true NULL NULL).

Lemma knows_root_shaped n h : sha_ok h -> shaped true n (m_pHashTree (knows_root n h)).
Proof. intros Hh. simpl. by split_and!. Qed.

Lemma sample_awaits g : complete toy_sha g -> shaped true (GetFileSize sample_owner) g ->
  awaits sample_owner [] g (knows_root 184321 (GetHash g)).
Proof.
  intros Hg Hs. split; try done; first [by left|by split_and!|idtac]. simpl. split_and!; try done.
  by eapply sha_ok_GetHash; [exact Hs|eapply complete_full].
Qed.

(** The owner's answer is accepted by a set that knows only the root hash, which then has the
    block hashes. *)
Lemma aich_recovery_roundtrip_witness :
  let IOF := CMemFile_IO calloc_4096 in
  exists g s' f' t f2, SetCreatePartRecoveryData (fun s => (true, s)) sample_owner 0 true
      (mkSet AICH_HASHSETCOMPLETE [] g, CMemFile_new 1024) = (inr true, (s', f')) /\
    ReadRecoveryData toy_sha sample_owner 0 (knows_root 184321 (GetHash g), set_mem_position 0 f') =
      (inr true, (with_tree t (knows_root 184321 (GetHash g)), f2)) /\
    settled toy_sha t /\ GetHash t = GetHash g.
Proof.
  intros IOF. set (laws := CMemFile_laws calloc_4096 4096 ltac:(done) calloc_ok).
  destruct sample_tree as (g & Hg & Hs).
  destruct (aich_recovery_roundtrip toy_sha CMemFile IOF laws (fun s => (true, s)) sample_owner sample_owner true 0
    [] g (mkSet AICH_HASHSETCOMPLETE [] g) (mkSet AICH_HASHSETCOMPLETE [] g) (knows_root 184321 (GetHash g))
    (CMemFile_new 1024)) as (s' & f' & E & Hf' & H); try done.
  - exact (locates_here true 184321).
  - destruct g as [|h n base lb v l r]; [done|]. exact (proj1 Hs).
  - by apply sample_awaits.
  - split; [reflexivity|right; split; [reflexivity|vm_compute; discriminate]].
  - destruct (H (set_mem_position 0 f') (mem_ok_position _ _ Hf' ltac:(done)) eq_refl eq_refl)
      as (t & f2 & E2 & St & Eh & _).
    exists g, s', f', t, f2. split; [exact E|]. split; [exact E2|]. split; [exact St|exact Eh].
Defined.

(** Recovery data that nothing ties to the trusted root hash: of the part [L/L] of a file of three
    parts all blocks and the part itself are sent, but none of the siblings [L/R] and [R], so
    that no branch below the root can be verified.  Whatever the root hash and the hash
    function, the answer is accepted and the forged hashes stay. *)
Definition forged_hash : list Z := replicate 20 1.

Fixpoint block_paths (k : nat) (lb : bool) (sz : Z) : list (list bool) :=
  match k with
  | O => [[]]
  | S k => if sz <=? EMBLOCKSIZE then [[]]
           else (cons true <$> block_paths k true (lsize sz lb)) ++ (cons false <$> block_paths k false (rsize sz lb))
  end.

Definition forged_answer : list Z :=
  poke_le 2 55 ++
  entries_bytes false false ((fun p => (p, forged_hash)) <$>
    ([true; true] :: [true; true] :: ((fun p => true :: true :: p) <$> block_paths 6 true PARTSIZE))).

Example forged_answer_accepted (sha1 : list Z -> list Z) (root : list Z) :
  let r := @ReadRecoveryData sha1 _ (CMemFile_IO calloc_4096) (mkOwner (3 * PARTSIZE) true) 0
    (knows_root (3 * PARTSIZE) root, CMemFile_attach_const forged_answer) in
  r.1 = inr true /\ GetHash (node_at [true; true; true; true; true; true; true; true] (m_pHashTree r.2.1)) = forged_hash /\
  (IsPartDataAvailable (mkOwner (3 * PARTSIZE) true) 0 r.2.1).1 = true.
Proof. vm_compute. by split_and!. Qed.

(** Asking whether part 1 is available leaves a node with one child below [L]; the genuine answer
    about part 0 is then refused, because the hash of [L] cannot be calculated. *)
Definition four_parts : CKnownFile := mkOwner (4 * PARTSIZE) false.

Definition four_parts_tree : CAICHHashTree :=
  (ReCalculateHash toy_sha false
    (@LoadLowestLevelHashs _ (CMemFile_IO calloc_4096) (CAICHHashTree_new (4 * PARTSIZE) true PARTSIZE)
      (CMemFile_attach_const (concat (replicate 212 forged_hash)))).1.2).2.

Definition four_parts_answer : CMemFile :=
  Reset (@SetCreatePartRecoveryData _ (CMemFile_IO calloc_4096) (fun s => (true, s)) four_parts 0 true
    (mkSet AICH_HASHSETCOMPLETE [] four_parts_tree, CMemFile_new 1024)).2.2.

Example stale_nodes_refuse_answer :
  let read s := (@ReadRecoveryData toy_sha _ (CMemFile_IO calloc_4096) four_parts 0 (s, four_parts_answer)).1 in
  let s := knows_root (4 * PARTSIZE) (GetHash four_parts_tree) in
  read s = inr true /\ read (IsPartDataAvailable four_parts 0 s).2 = inr true /\
  read (IsPartDataAvailable four_parts PARTSIZE s).2 = inr false.
Proof. vm_compute. by split_and!. Qed.

(** A file of three blocks, a set of hashes for it, and the owner's answer about its only part. *)
Definition three_blocks : CKnownFile := mkOwner (2 * EMBLOCKSIZE + 1) false.

Definition three_blocks_tree : CAICHHashTree :=
  (ReCalculateHash toy_sha false
    (@LoadLowestLevelHashs _ (CMemFile_IO calloc_4096) (CAICHHashTree_new (2 * EMBLOCKSIZE + 1) true EMBLOCKSIZE)
      (CMemFile_attach_const (concat [replicate 20 1; replicate 20 2; replicate 20 3]))).1.2).2.

Definition three_blocks_answer : CMemFile :=
  Reset (@SetCreatePartRecoveryData _ (CMemFile_IO calloc_4096) (fun s => (true, s)) three_blocks 0 true
    (mkSet AICH_HASHSETCOMPLETE [] three_blocks_tree, CMemFile_new 1024)).2.2.

Lemma three_blocks_complete :
  complete toy_sha three_blocks_tree /\ shaped true (GetFileSize three_blocks) three_blocks_tree.
Proof.
  split; [vm_compute; by split_and!|]. vm_compute.
  repeat match goal with
  | |- _ /\ _ => split
  | |- Forall _ _ => constructor
  | |- _ -> _ => intros ?
  end; done.
Qed.

Lemma three_blocks_answer_ok : mem_ok three_blocks_answer.
Proof. split; vm_compute; try done; repeat constructor; done. Qed.

(** The genuine answer is accepted by a set that knows only the root hash, and the hash of the first
    block is then known by a path through nodes with their hashes. *)
Lemma aich_accepted_answer_sound_witness :
  let IOF := CMemFile_IO calloc_4096 in
  let s := knows_root (2 * EMBLOCKSIZE + 1) (GetHash three_blocks_tree) in
  let p := [true; true] in
  exists s' f', ReadRecoveryData toy_sha three_blocks 0 (s, three_blocks_answer) = (inr true, (s', f')) /\
    known_path p (m_pHashTree s') /\
    (GetHash (node_at p (m_pHashTree s')) = GetHash (node_at p three_blocks_tree) \/
     exists q, q `prefix_of` p /\ pair_of (node_at q (m_pHashTree s')) <> pair_of (node_at q three_blocks_tree) /\
       toy_sha (pair_of (node_at q (m_pHashTree s'))) = toy_sha (pair_of (node_at q three_blocks_tree))).
Proof.
  intros IOF s p. set (laws := CMemFile_laws calloc_4096 4096 ltac:(done) calloc_ok).
  assert ((ReadRecoveryData toy_sha three_blocks 0 (s, three_blocks_answer)).1 = inr true) as Eok by (vm_compute; reflexivity).
  assert (known_path p (m_pHashTree (ReadRecoveryData toy_sha three_blocks 0 (s, three_blocks_answer)).2.1)) as Hp
    by (vm_compute; by split_and!).
  pose proof three_blocks_complete as [Hg Hsg].
  destruct (aich_accepted_answer_sound toy_sha toy_sha_ok CMemFile IOF laws three_blocks 0 s three_blocks_answer)
    as (res & s' & f' & E & _ & _ & _ & _ & H).
  - apply knows_root_shaped. exact (sha_ok_GetHash _ _ _ Hsg (complete_full _ _ Hg)).
  - reflexivity.
  - apply three_blocks_answer_ok.
  - rewrite E in Eok, Hp. cbn [fst snd] in Eok, Hp. destruct (H Eok) as [_ Hb]. rewrite Eok in E.
    exists s', f'. split; [exact E|]. split; [exact Hp|]. exact (Hb three_blocks_tree p Hg Hsg eq_refl Hp).
Defined.
