(* ===== verification/HashTrust.v ===== *)
(** * When an AICH root hash is trusted ([SHAHashSet.cpp], [UntrustedHashReceived])

    Clients report root hashes; the set counts the networks that reported each one.  What it
    decides is compared with a count over the whole history of reports. *)
From S2P Require Import Prelude StdMap UInt128 DataIO MemFile HashTree HashSet.

(** ** The votes of a history of reports: hash and address of each *)

Abbreviation report := (list Z * Z)%type (only parsing).

Definition network (ip : Z) : Z := Z.land ip 0x00F0FFFF.

(** The distinct networks that reported [h]. *)
Definition voters (h : list Z) (es : list report) : list Z :=
  remove_dups ((fun e : report => network e.2) <$> filter (fun e : report => e.1 = h) es).

Definition votes (h : list Z) (es : list report) : Z := Z.of_nat (length (voters h es)).

(** Networks that reported several hashes count for each of them. *)
Definition all_votes (es : list report) : Z :=
  sumZ ((fun h => votes h es) <$> remove_dups (fst <$> es)).

Definition receive (s : CAICHHashSet) (e : report) : CAICHHashSet := UntrustedHashReceived false e.1 e.2 s.

(** ** The counters *)

Definition signed (u : CAICHUntrustedHash) (ip : Z) : Prop := is_Some (mfind ip (m_adwIpsSigning u)).

(** The record of [u] in the history [es]. *)
Record counts (es : list report) (u : CAICHUntrustedHash) : Prop := {
  counts_sorted : msorted (m_adwIpsSigning u);
  counts_signed ip : signed u ip <-> ip ∈ voters (u_Hash u) es
}.

Definition signatures (us : list CAICHUntrustedHash) : Z :=
  sumZ ((fun u => Z.of_nat (length (m_adwIpsSigning u))) <$> us).

Record tallies (es : list report) (us : list CAICHUntrustedHash) : Prop := {
  tallies_nodup : NoDup (u_Hash <$> us);
  tallies_hashes h : h ∈ u_Hash <$> us <-> h ∈ fst <$> es;
  tallies_counts : Forall (counts es) us;
  tallies_total : signatures us <= Z.of_nat (length es)
}.

Lemma elem_of_voters ip h es : ip ∈ voters h es <-> exists e, e ∈ es /\ e.1 = h /\ network e.2 = ip.
Proof.
  unfold voters. rewrite elem_of_remove_dups, list_elem_of_fmap. split.
  - intros (e & -> & He). apply list_elem_of_filter in He as [H1 H2]. by exists e.
  - intros (e & He & H1 & <-). exists e. split; [done|]. by apply list_elem_of_filter.
Qed.

Lemma voters_snoc ip h es e : ip ∈ voters h (es ++ [e]) <-> ip ∈ voters h es \/ (e.1 = h /\ network e.2 = ip).
Proof.
  rewrite !elem_of_voters. setoid_rewrite elem_of_app. setoid_rewrite list_elem_of_singleton. split.
  - intros (e' & [He| ->] & H); [left; by exists e'|by right].
  - intros [(e' & He & H)|H]; [exists e'; tauto|exists e; tauto].
Qed.

Lemma msorted_keys {V} (m : list (Z * V)) : msorted m -> NoDup (fst <$> m).
Proof.
  induction m as [|[k v] m IH]; [by constructor|]. intros Hm. apply msorted_cons in Hm as [Hm Hf].
  rewrite fmap_cons. constructor; [|auto]. intros Hk. apply list_elem_of_fmap in Hk as ([k' v'] & E & Hin).
  simpl in E. subst k'. rewrite Forall_forall in Hf. specialize (Hf _ Hin). unfold klt in Hf. simpl in Hf.
  by rewrite Z.ltb_irrefl in Hf.
Qed.

Lemma signed_key u ip : msorted (m_adwIpsSigning u) -> signed u ip <-> ip ∈ fst <$> m_adwIpsSigning u.
Proof.
  intros Hm. unfold signed, is_Some. setoid_rewrite mfind_In; [|done]. rewrite list_elem_of_fmap. split.
  - intros [v Hv]. by exists (ip, v).
  - intros ([k v] & -> & Hv). by exists v.
Qed.

(** The counter of a hash is the number of its voters. *)
Lemma counts_length es u : counts es u -> Z.of_nat (length (m_adwIpsSigning u)) = votes (u_Hash u) es.
Proof.
  intros [Hs Hc]. unfold votes. f_equal. rewrite <- (length_fmap fst). apply Permutation_length, NoDup_Permutation.
  - by apply msorted_keys.
  - apply NoDup_remove_dups.
  - intros ip. by rewrite <- (signed_key u ip Hs), Hc.
Qed.

Lemma voters_other h es e : e.1 <> h -> voters h (es ++ [e]) = voters h es.
Proof.
  intros Hne. unfold voters. rewrite filter_app. simpl.
  by rewrite list.filter_cons, decide_False, filter_nil, app_nil_r by done.
Qed.

Lemma counts_other es e u : e.1 <> u_Hash u -> counts es u -> counts (es ++ [e]) u.
Proof. intros Hne [H1 H2]. split; [done|]. intros ip. by rewrite voters_other. Qed.

Lemma counts_add es e u : e.1 = u_Hash u -> counts es u -> counts (es ++ [e]) (AddSigningIP e.2 u).
Proof.
  intros E [H1 H2]. split; [by apply msorted_set|]. intros ip. unfold signed, AddSigningIP in *. simpl.
  rewrite voters_snoc. fold (network e.2). destruct (decide (ip = network e.2)) as [->|Hne].
  - rewrite mfind_set_eq. split; [tauto|done].
  - rewrite mfind_set_ne by done. rewrite H2. split; [tauto|]. intros [H|[_ H]]; [done|congruence].
Qed.

Lemma add_signature_hashes h ip us :
  u_Hash <$> add_signature h ip us = if decide (h ∈ u_Hash <$> us) then u_Hash <$> us else (u_Hash <$> us) ++ [h].
Proof.
  induction us as [|u us IH]; [done|]. simpl add_signature. case_bool_decide as E.
  - subst h. rewrite decide_True by (rewrite fmap_cons; left). done.
  - rewrite !fmap_cons, IH. destruct (decide (h ∈ u_Hash <$> us)) as [Hin|Hin].
    + by rewrite decide_True by (by right).
    + rewrite decide_False; [done|]. intros Hc. apply elem_of_cons in Hc as [Hc|Hc]; [congruence|done].
Qed.

Lemma add_signature_counts es e us : NoDup (u_Hash <$> us) ->
  (e.1 ∉ u_Hash <$> us -> e.1 ∉ fst <$> es) -> Forall (counts es) us ->
  Forall (counts (es ++ [e])) (add_signature e.1 e.2 us).
Proof.
  induction us as [|u us IH]; intros Hnd Hfresh Hc; simpl.
  - constructor; [|done]. apply (counts_add es e (mkUntrusted e.1 [])); [done|]. split; [by constructor|].
    intros ip. simpl. rewrite elem_of_voters. split; [by intros []|]. intros (e' & He & E & _).
    destruct Hfresh; [by apply not_elem_of_nil|]. apply list_elem_of_fmap. by exists e'.
  - rewrite fmap_cons in Hnd. apply NoDup_cons in Hnd as [Hu Hnd]. apply Forall_cons in Hc as [Hc Hcs].
    case_bool_decide as E.
    + constructor; [by apply counts_add|]. eapply Forall_impl; [apply Forall_and; split; [exact Hcs|]|].
      * apply Forall_forall. intros v Hv. exact (fun E' => Hu (proj2 (list_elem_of_fmap _ _ _)
          (ex_intro _ v (conj (eq_trans E E') Hv)))).
      * simpl. intros v [Hv Hne]. by apply counts_other.
    + constructor; [by apply counts_other|]. apply IH; [done| |done]. intros Hn. apply Hfresh. intros Hin.
      apply elem_of_cons in Hin as [Hin|Hin]; [by destruct E|by apply Hn].
Qed.

Lemma length_mset_le {V} k (v : V) (m : list (Z * V)) : (length (mset k v m) <= S (length m))%nat.
Proof.
  induction m as [|[k' v'] m IH]; [done|]. cbn [mset].
  destruct (kltb k k'); [simpl; lia|]. destruct (kltb k' k); cbn [length] in *; lia.
Qed.

Lemma signatures_cons u us :
  signatures (u :: us) = Z.of_nat (length (m_adwIpsSigning u)) + signatures us.
Proof. done. Qed.

Lemma signatures_pos us : 0 <= signatures us.
Proof. induction us; rewrite ?signatures_cons; [done|lia]. Qed.

Lemma signatures_mem u us : u ∈ us -> Z.of_nat (length (m_adwIpsSigning u)) <= signatures us.
Proof.
  induction us as [|v us IH]; intros Hu; [by apply not_elem_of_nil in Hu|]. rewrite signatures_cons.
  pose proof (signatures_pos us). apply elem_of_cons in Hu as [->|Hu]; [lia|]. specialize (IH Hu). lia.
Qed.

Lemma add_signature_total h ip us : signatures (add_signature h ip us) <= signatures us + 1.
Proof.
  induction us as [|u us IH]; [done|]. cbn [add_signature]. case_bool_decide; rewrite !signatures_cons; [|lia].
  unfold AddSigningIP. cbn [m_adwIpsSigning].
  pose proof (length_mset_le (Z.land ip 0x00F0FFFF) tt (m_adwIpsSigning u)). lia.
Qed.

Lemma add_signature_tallies es e us : tallies es us -> tallies (es ++ [e]) (add_signature e.1 e.2 us).
Proof.
  intros [H1 H2 H3 H4]. split.
  - rewrite add_signature_hashes. case_decide as Hin; [done|]. apply NoDup_app. split; [done|].
    split; [|apply NoDup_singleton]. intros h Hh ->%list_elem_of_singleton. done.
  - intros h. rewrite add_signature_hashes, fmap_app, elem_of_app. simpl. rewrite list_elem_of_singleton, <- H2.
    case_decide as Hin; [|by rewrite elem_of_app, list_elem_of_singleton]. split; [tauto|]. intros [Hh| ->]; done.
  - apply add_signature_counts; [done| |done]. intros Hn Hin. by apply Hn, H2.
  - pose proof (add_signature_total e.1 e.2 us). rewrite length_app. simpl. lia.
Qed.

(** ** The decision *)

(** The loop finds the total and a hash with the most signatures. *)
Lemma most_trusted_spec us : forall total most best, 0 <= total -> 0 <= most ->
  total + signatures us < 2 ^ 32 ->
  exists m b, most_trusted us total most best = (total + signatures us, m, b) /\
    Forall (fun u => Z.of_nat (length (m_adwIpsSigning u)) <= m) us /\
    (m = most /\ b = best \/
     exists u, u ∈ us /\ b = Some (u_Hash u) /\ m = Z.of_nat (length (m_adwIpsSigning u)) /\ most < m).
Proof.
  induction us as [|u us IH]; intros total most best Ht Hm Hlt.
  - exists most, best. unfold signatures. simpl. rewrite Z.add_0_r. split_and!; [done..|by left].
  - assert (0 <= signatures us) as Hpos.
    { apply signatures_pos. }
    rewrite signatures_cons in *. cbn [most_trusted]. unfold signers.
    set (n := Z.of_nat (length (m_adwIpsSigning u))) in *. assert (0 <= n) as Hn0 by lia.
    rewrite (wrap_small 32 n) by (unfold in_width; lia).
    rewrite (wrap_small 32 (total + n)) by (unfold in_width; lia).
    destruct (Z.gtb_spec n most) as [Hgt|Hle].
    + destruct (IH (total + n) n (Some (u_Hash u))) as (m & b & E & Hall & H); [lia..|].
      exists m, b. rewrite E, Z.add_assoc. split; [done|].
      destruct H as [[-> ->]|(v & Hv & -> & -> & Hlt')].
      * split; [constructor; [lia|done]|]. right. exists u. split_and!; first [by left|done|lia].
      * split; [constructor; [lia|done]|]. right. exists v. split_and!; first [by right|done|lia].
    + destruct (IH (total + n) most best) as (m & b & E & Hall & H); [lia..|].
      exists m, b. rewrite E, Z.add_assoc. split; [done|].
      destruct H as [[-> ->]|(v & Hv & -> & -> & Hlt')].
      * split; [constructor; [lia|done]|]. by left.
      * split; [constructor; [lia|done]|]. right. exists v. split_and!; first [by right|done|lia].
Qed.

Lemma sumZ_Permutation l l' : l ≡ₚ l' -> sumZ l = sumZ l'.
Proof. induction 1; simpl; lia. Qed.

Lemma tallies_signatures es us : tallies es us -> signatures us = all_votes es.
Proof.
  intros [H1 H2 H3 _]. unfold signatures, all_votes. transitivity (sumZ ((fun h => votes h es) <$> (u_Hash <$> us))).
  - f_equal. clear H1 H2. induction H3 as [|u us Hu _ IH]; [done|]. rewrite !fmap_cons, IH. f_equal.
    by apply counts_length.
  - apply sumZ_Permutation, fmap_Permutation, NoDup_Permutation; [done|apply NoDup_remove_dups|].
    intros h. by rewrite elem_of_remove_dups.
Qed.

(** The state of a set after a history of reports. *)
Definition decided (es : list report) (s : CAICHHashSet) : Prop :=
  let h := GetMasterHash s in
  HasValidMasterHash s = true /\ h ∈ fst <$> es /\ (forall h', votes h' es <= votes h es) /\
  m_eStatus s = (if (10 <=? votes h es) && (92 * all_votes es <=? 100 * votes h es)
                 then AICH_TRUSTED else AICH_UNTRUSTED).

Lemma votes_absent h es : h ∉ fst <$> es -> votes h es = 0.
Proof.
  intros Hn. unfold votes. destruct (voters h es) as [|ip l] eqn:E; [done|].
  assert (ip ∈ voters h es) as Hin by (rewrite E; left). apply elem_of_voters in Hin as (e & He & <- & _).
  destruct Hn. apply list_elem_of_fmap. by exists e.
Qed.

Lemma adopt_spec h st s : is_null (m_pHashTree s) = false ->
  GetMasterHash (adopt h st s) = h /\ HasValidMasterHash (adopt h st s) = true /\ m_eStatus (adopt h st s) = st /\
  m_aUntrustedHashs (adopt h st s) = m_aUntrustedHashs s /\ is_null (m_pHashTree (adopt h st s)) = false.
Proof.
  intros Hn. destruct s as [st0 us t]. simpl in Hn. destruct t as [|h0 n base lb v l r]; [done|].
  unfold adopt, GetMasterHash, HasValidMasterHash. simpl. destruct v; simpl; [|done].
  case_bool_decide; simpl; [by subst|done].
Qed.

Lemma receive_spec es e s : tallies es (m_aUntrustedHashs s) -> is_null (m_pHashTree s) = false ->
  (m_eStatus s = AICH_EMPTY \/ m_eStatus s = AICH_UNTRUSTED \/ m_eStatus s = AICH_TRUSTED) ->
  Z.of_nat (length (es ++ [e])) < 2 ^ 25 ->
  let s' := receive s e in
  tallies (es ++ [e]) (m_aUntrustedHashs s') /\ is_null (m_pHashTree s') = false /\
  (m_eStatus s' = AICH_UNTRUSTED \/ m_eStatus s' = AICH_TRUSTED) /\ decided (es ++ [e]) s'.
Proof.
  intros Ht Hn Hst Hlt. pose proof (add_signature_tallies es e _ Ht) as Ht'. cbn zeta. unfold receive, UntrustedHashReceived.
  set (us := add_signature e.1 e.2 (m_aUntrustedHashs s)) in *. set (es' := es ++ [e]) in *.
  set (s1 := mkSet (m_eStatus s) us (m_pHashTree s)).
  pose proof (tallies_signatures _ _ Ht') as Etot. pose proof Ht' as [Hnd Hh Hc Htot].
  destruct (most_trusted_spec us 0 0 None) as (m & b & -> & Hall & Hb); [lia..|]. rewrite Z.add_0_l.
  assert (e.1 ∈ u_Hash <$> us) as Hin.
  { apply Hh. unfold es'. rewrite fmap_app. apply elem_of_app. right. by left. }
  apply list_elem_of_fmap in Hin as (u0 & Eu0 & Hu0). rewrite Forall_forall in Hall, Hc.
  assert (0 < votes (u_Hash u0) es') as Hpos.
  { unfold votes. assert (network e.2 ∈ voters (u_Hash u0) es') as Hv.
    { apply elem_of_voters. exists e. split_and!; try done. apply elem_of_app. right. by left. }
    destruct (voters (u_Hash u0) es'); [by apply not_elem_of_nil in Hv|simpl; lia]. }
  pose proof (Hall u0 Hu0) as Hm0. rewrite (counts_length es' u0) in Hm0 by auto.
  destruct Hb as [[-> _]|(u & Hu & -> & Em & _)]; [lia|]. rewrite (counts_length es' u) in Em by auto.
  assert (0 < signatures us /\ m <= signatures us) as [Hsig Hmsig].
  { rewrite Em, <- (counts_length es' u) by auto. assert (0 < Z.of_nat (length (m_adwIpsSigning u))) as Hp.
    { rewrite (counts_length es' u) by auto. lia. }
    pose proof (signatures_mem u us Hu). lia. }
  rewrite (proj2 (Z.eqb_neq (signatures us) 0)) by lia.
  assert (forall st, (st = AICH_UNTRUSTED \/ st = AICH_TRUSTED) ->
    st = (if (10 <=? m) && (92 * all_votes es' <=? 100 * m) then AICH_TRUSTED else AICH_UNTRUSTED) ->
    let s' := adopt (u_Hash u) st s1 in
    tallies es' (m_aUntrustedHashs s') /\ is_null (m_pHashTree s') = false /\
    (m_eStatus s' = AICH_UNTRUSTED \/ m_eStatus s' = AICH_TRUSTED) /\ decided es' s') as Hfin.
  { intros st Hst' Est. cbn zeta. destruct (adopt_spec (u_Hash u) st s1 Hn) as (A1 & A2 & A3 & A4 & A5).
    rewrite A3, A4. split_and!; try done. unfold decided. rewrite A1, A2, A3. split; [done|].
    split; [apply Hh, list_elem_of_fmap; by exists u|]. split; [|by rewrite <- Em].
    intros h'. destruct (decide (h' ∈ fst <$> es')) as [Hi|Hi]; [|rewrite (votes_absent h'); [lia|done]].
    apply Hh, list_elem_of_fmap in Hi as (u' & -> & Hu'). rewrite <- (counts_length es' u'), <- Em by auto. auto. }
  assert (((m >=? MINUNIQUEIPS_TOTRUST) && (u32 (100 * m) / signatures us >=? MINPERCENTAGE_TOTRUST))
    = (10 <=? m) && (92 * all_votes es' <=? 100 * m)) as Econd.
  { rewrite !Z.geb_leb. unfold MINUNIQUEIPS_TOTRUST, MINPERCENTAGE_TOTRUST.
    rewrite wrap_small, <- Etot by (unfold in_width; change (2 ^ 25) with 33554432 in *; lia). f_equal.
    apply Bool.eq_iff_eq_true. rewrite !Z.leb_le.
    split; intros H; [|apply Z.div_le_lower_bound; lia].
    pose proof (Z.mul_div_le (100 * m) (signatures us) Hsig). nia. }
  rewrite orb_false_l, Econd.
  destruct Hst as [-> | [-> | ->]]; destruct ((10 <=? m) && (92 * all_votes es' <=? 100 * m)) eqn:Ec;
    apply Hfin; auto; by rewrite Ec.
Qed.

(** Trust in a root hash received from clients, with [IsTrustingEveryHash] off.  After any reports,
    the hash adopted is one reported by the most networks ([network], as [AddSigningIP] masks the
    addresses), and the set trusts it exactly when at least [MINUNIQUEIPS_TOTRUST] of them reported it
    and these are at least [MINPERCENTAGE_TOTRUST] percent of all the votes. *)
Theorem aich_trust_decision (sz : Z) (es : list (list Z * Z)) (Hne : es <> [])
  (Hlt : Z.of_nat (length es) < 2 ^ 25) :
  decided es (fold_left (fun s e => UntrustedHashReceived false e.1 e.2 s) es (SetFileSize sz CAICHHashSet_new)).
Proof.
  set (s0 := SetFileSize sz CAICHHashSet_new). fold receive.
  assert (forall es, Z.of_nat (length es) < 2 ^ 25 -> let s := fold_left receive es s0 in
    tallies es (m_aUntrustedHashs s) /\ is_null (m_pHashTree s) = false /\
    (m_eStatus s = AICH_EMPTY \/ m_eStatus s = AICH_UNTRUSTED \/ m_eStatus s = AICH_TRUSTED) /\
    (es <> [] -> decided es s)) as H.
  { clear. intros es. induction es as [|e es IH] using rev_ind; intros Hlt.
    - simpl. split_and!; try done; [|by left]. split; simpl; [by constructor|done|done|done].
    - rewrite fold_left_app. simpl. rewrite length_app in Hlt. simpl in Hlt.
      destruct IH as (H1 & H2 & H3 & _); [lia|].
      destruct (receive_spec es e (fold_left receive es s0) H1 H2 H3) as (R1 & R2 & R3 & R4);
        [rewrite length_app; simpl; lia|]. split_and!; auto. }
  by apply H.
Qed.

(** Ten networks report one hash. *)
Definition sample_reports : list report := (fun i => ([7], i)) <$> [1; 2; 3; 4; 5; 6; 7; 8; 9; 10].

Lemma aich_trust_decision_witness : exists s, m_eStatus s = AICH_TRUSTED /\ decided sample_reports s.
Proof.
  assert (sample_reports <> []) as Hne by done.
  assert (Z.of_nat (length sample_reports) < 2 ^ 25) as Hlt by (vm_compute; reflexivity).
  exists (fold_left (fun s e => UntrustedHashReceived false e.1 e.2 s) sample_reports
    (SetFileSize 1000 CAICHHashSet_new)).
  split; [vm_compute; reflexivity|]. exact (aich_trust_decision 1000 sample_reports Hne Hlt).
Defined.
