(* ===== verification/GapList.v ===== *)
(** * The gap list of a part file ([GapList.h], [GapList.cpp])

    A part file records the byte ranges it still lacks in a [std::map] from the end of each
    gap to its start, with two caches beside it: the completeness of every part and the total
    gap size.  A write past the end of [m_partsComplete] is undefined behaviour in the code
    and [None] here, so totality theorems are also memory-safety theorems. *)
From S2P Require Import Prelude StdMap.

(** ** State *)

Inductive ePartComplete := complete | incomplete | unknown.

#[export] Instance ePartComplete_eq_dec : EqDecision ePartComplete.
Proof. solve_decision. Defined.

#[export] Instance ePartComplete_inhabited : Inhabited ePartComplete := populate complete.

(** A gap is a map entry: the key is the end, the value the start. *)
Record CGapList := mkGapList {
  m_gaplist : list (Z * Z);
  m_filesize : Z;
  m_iPartCount : Z;
  m_sizeLastPart : Z;
  m_totalGapSize : Z;
  m_totalGapSizeValid : bool;
  m_partsComplete : list ePartComplete
}.

Definition with_gaps (g : CGapList) (l : list (Z * Z)) : CGapList :=
  mkGapList l (m_filesize g) (m_iPartCount g) (m_sizeLastPart g)
            (m_totalGapSize g) (m_totalGapSizeValid g) (m_partsComplete g).

Definition with_parts (g : CGapList) (p : list ePartComplete) : CGapList :=
  mkGapList (m_gaplist g) (m_filesize g) (m_iPartCount g) (m_sizeLastPart g)
            (m_totalGapSize g) (m_totalGapSizeValid g) p.

Definition with_total (g : CGapList) (t : Z) (valid : bool) : CGapList :=
  mkGapList (m_gaplist g) (m_filesize g) (m_iPartCount g) (m_sizeLastPart g)
            t valid (m_partsComplete g).

(** ** Operations *)

Definition GetPartSize (g : CGapList) (part : Z) : Z :=
  if part =? m_iPartCount g - 1 then m_sizeLastPart g else PARTSIZE.

(** Checks the arguments and clips the end: [None] when the range is inverted. *)
Definition ArgCheck (g : CGapList) (gapstart gapend : Z) : option Z :=
  if gapend <? gapstart then None
  else Some (if gapend >=? m_filesize g then wrap 64 (m_filesize g - 1) else gapend).

(** [m_partsComplete[part] = st]; [None] is a write out of bounds. *)
Definition set_part (l : list ePartComplete) (part : Z) (st : ePartComplete) :
  option (list ePartComplete) :=
  if part <? Z.of_nat (length l) then Some (<[Z.to_nat part := st]> l) else None.

(** The loop [for (uint16 part = first; part <= partlast; part++)], [n] rounds of it. *)
Fixpoint mark_parts (l : list ePartComplete) (part : Z) (st : ePartComplete) (n : nat) :
  option (list ePartComplete) :=
  match n with
  | O => Some l
  | S n' => l' ← set_part l part st; mark_parts l' (wrap 16 (part + 1)) st n'
  end.

Definition mark_range (l : list ePartComplete) (first last : Z) (st : ePartComplete) :
  option (list ePartComplete) :=
  let part := wrap 16 (first / PARTSIZE) in
  let partlast := wrap 16 (last / PARTSIZE) in
  mark_parts l part st (Z.to_nat (partlast - part + 1)).

(** The loop of [AddGap] over the entries from the iterator on; [pre] holds those before it.
    The result is the map it leaves and, unless the loop returned from the function, the gap
    to insert. *)
Fixpoint addgap_loop (gapstart gapend : Z) (pre rest : list (Z * Z)) :
  list (Z * Z) * option (Z * Z) :=
  match rest with
  | [] => (pre, Some (gapstart, gapend))
  | (curGapEnd, curGapStart) :: it =>
      if (curGapStart >=? gapstart) && (curGapEnd <=? gapend) then
        addgap_loop gapstart gapend pre it
      else if (curGapStart >=? gapstart) && (curGapStart <=? wrap 64 (gapend + 1)) then
        addgap_loop gapstart curGapEnd pre it
      else if (curGapEnd <=? gapend) && (curGapEnd >=? wrap 64 (gapstart - 1)) then
        addgap_loop curGapStart gapend pre it
      else if (curGapStart <=? gapstart) && (curGapEnd >=? gapend) then
        (pre ++ rest, None)
      else if curGapStart >? gapstart then
        (pre ++ rest, Some (gapstart, gapend))
      else addgap_loop gapstart gapend (pre ++ [(curGapEnd, curGapStart)]) it
  end.

(** The insertion that follows the loop. *)
Definition insert_gap (ins : option (Z * Z)) (l : list (Z * Z)) : list (Z * Z) :=
  match ins with Some (s, e) => minsert e s l | None => l end.

Definition AddGap (g : CGapList) (gapstart gapend : Z) : option CGapList :=
  match ArgCheck g gapstart gapend with
  | None => Some g
  | Some gapend =>
      parts ← mark_range (m_partsComplete g) gapstart gapend incomplete;
      let '(pre, rest) :=
        lower_bound (if gapstart >? 0 then gapstart - 1 else 0) (m_gaplist g) in
      let '(l, ins) := addgap_loop gapstart gapend pre rest in
      Some (with_gaps (with_parts (with_total g (m_totalGapSize g) false) parts)
                      (insert_gap ins l))
  end.

Definition AddGapPart (g : CGapList) (part : Z) : option CGapList :=
  if part >=? m_iPartCount g then Some g
  else
    let gapstart := wrap 64 (part * PARTSIZE) in
    let gapend := wrap 64 (gapstart + GetPartSize g part - 1) in
    g' ← AddGap g gapstart gapend;
    parts ← set_part (m_partsComplete g') part incomplete;
    Some (with_parts g' parts).

(** The loop of [FillGap]. *)
Fixpoint fillgap_loop (partstart partend : Z) (pre rest : list (Z * Z)) : list (Z * Z) :=
  match rest with
  | [] => pre
  | (curGapEnd, curGapStart) :: it =>
      if curGapStart >=? partstart then
        if curGapEnd <=? partend then fillgap_loop partstart partend pre it
        else if curGapStart <=? partend then pre ++ (curGapEnd, wrap 64 (partend + 1)) :: it
        else pre ++ rest
      else
        if curGapEnd >? partend then
          minsert (wrap 64 (partstart - 1)) curGapStart
                  (pre ++ (curGapEnd, wrap 64 (partend + 1)) :: it)
        else if curGapEnd >=? partstart then
          fillgap_loop partstart partend (minsert (wrap 64 (partstart - 1)) curGapStart pre) it
        else fillgap_loop partstart partend (pre ++ [(curGapEnd, curGapStart)]) it
  end.

Definition FillGap (g : CGapList) (partstart partend : Z) : option CGapList :=
  match ArgCheck g partstart partend with
  | None => Some g
  | Some partend =>
      parts ← mark_range (m_partsComplete g) partstart partend unknown;
      let '(pre, rest) := lower_bound partstart (m_gaplist g) in
      Some (with_gaps (with_parts (with_total g (m_totalGapSize g) false) parts)
                      (fillgap_loop partstart partend pre rest))
  end.

Definition FillGapPart (g : CGapList) (part : Z) : option CGapList :=
  if part >=? m_iPartCount g then Some g
  else
    let gapstart := wrap 64 (part * PARTSIZE) in
    let gapend := wrap 64 (gapstart + GetPartSize g part - 1) in
    g' ← FillGap g gapstart gapend;
    parts ← set_part (m_partsComplete g') part complete;
    Some (with_parts g' parts).

Definition Init (fileSize : Z) (isEmpty : bool) : option CGapList :=
  let count := wrap 16 (fileSize / PARTSIZE + 1) in
  let last := wrap 32 (fileSize mod PARTSIZE) in
  let '(count, last) :=
    if (last =? 0) && negb (fileSize =? 0) then (wrap 16 (count - 1), PARTSIZE)
    else (count, last) in
  let g := mkGapList [] fileSize count last 0 false [] in
  if isEmpty then
    g' ← AddGap (with_parts g (replicate (Z.to_nat count) incomplete)) 0 (wrap 64 (fileSize - 1));
    Some (with_total g' fileSize true)
  else Some (with_total (with_parts g (replicate (Z.to_nat count) complete)) 0 true).

(** [GetGapSize()]: the total, recomputed when the cache is stale. *)
Definition GetGapSizeTotal (g : CGapList) : Z * CGapList :=
  if m_totalGapSizeValid g then (m_totalGapSize g, g)
  else
    let t := fold_left (fun acc e => wrap 64 (acc + (e.1 - e.2 + 1))) (m_gaplist g) 0 in
    (t, with_total g t true).

(** The [uint64] sum is reduced once, where the function returns it. *)
Fixpoint gapsize_loop (uRangeStart uRangeEnd total : Z) (l : list (Z * Z)) : Z :=
  match l with
  | [] => total
  | (curGapEnd, curGapStart) :: it =>
      if (curGapStart <=? uRangeStart) && (curGapEnd >=? uRangeEnd) then
        total + (uRangeEnd - uRangeStart + 1)
      else if curGapStart >=? uRangeStart then
        if curGapStart <=? uRangeEnd then
          gapsize_loop uRangeStart uRangeEnd
            (total + (Z.min curGapEnd uRangeEnd - curGapStart + 1)) it
        else total
      else if (curGapEnd >=? uRangeStart) && (curGapEnd <=? uRangeEnd) then
        gapsize_loop uRangeStart uRangeEnd (total + (curGapEnd - uRangeStart + 1)) it
      else gapsize_loop uRangeStart uRangeEnd total it
  end.

Definition GetGapSizePart (g : CGapList) (part : Z) : Z :=
  let uRangeStart := wrap 64 (part * PARTSIZE) in
  let uRangeEnd := wrap 64 (uRangeStart + GetPartSize g part - 1) in
  wrap 32 (wrap 64 (gapsize_loop uRangeStart uRangeEnd 0
                      (lower_bound uRangeStart (m_gaplist g)).2)).

Fixpoint iscomplete_loop (gapstart gapend : Z) (l : list (Z * Z)) : bool :=
  match l with
  | [] => true
  | (curGapEnd, curGapStart) :: it =>
      if ((curGapStart >=? gapstart) && (curGapEnd <=? gapend)) ||
         ((curGapStart >=? gapstart) && (curGapStart <=? gapend)) ||
         ((curGapEnd <=? gapend) && (curGapEnd >=? gapstart)) ||
         ((gapstart >=? curGapStart) && (gapend <=? curGapEnd))
      then false
      else if curGapStart >? gapend then true
      else iscomplete_loop gapstart gapend it
  end.

Definition IsCompleteRange (g : CGapList) (gapstart gapend : Z) : bool :=
  match ArgCheck g gapstart gapend with
  | None => false
  | Some gapend => iscomplete_loop gapstart gapend (lower_bound gapstart (m_gaplist g)).2
  end.

(** [IsComplete(uint16 part)]: reads the cache and fills it. *)
Definition IsCompletePart (g : CGapList) (part : Z) : bool * CGapList :=
  if (part =? m_iPartCount g) && (m_sizeLastPart g =? PARTSIZE) then (true, g)
  else if part >=? m_iPartCount g then (false, g)
  else
    let status := m_partsComplete g !!! Z.to_nat part in
    match status with
    | unknown =>
        let partstart := wrap 64 (part * PARTSIZE) in
        let partend := wrap 64 (partstart + GetPartSize g part - 1) in
        let status := if IsCompleteRange g partstart partend then complete else incomplete in
        (bool_decide (status = complete),
         with_parts g (<[Z.to_nat part := status]> (m_partsComplete g)))
    | _ => (bool_decide (status = complete), g)
    end.

Definition IsCompleteFile (g : CGapList) : bool :=
  match m_gaplist g with [] => true | _ => false end.

(** ** What the list means *)

(** Byte [x] is in some gap. *)
Definition covered (l : list (Z * Z)) (x : Z) : Prop := Exists (fun e => e.2 <= x <= e.1) l.

(** The gaps are in order, non-empty, apart from each other by at least one byte, and end
    inside the file. *)
Definition apart (a b : Z * Z) : Prop := a.1 + 1 < b.2.

Definition gap_ok (fs : Z) (e : Z * Z) : Prop := 0 <= e.2 <= e.1 /\ e.1 < fs.

Definition wf_gaps (fs : Z) (l : list (Z * Z)) : Prop :=
  StronglySorted apart l /\ Forall (gap_ok fs) l.

Definition part_start (part : Z) : Z := part * PARTSIZE.
Definition part_end (fs part : Z) : Z := Z.min fs ((part + 1) * PARTSIZE) - 1.

(** The cached completeness of a part agrees with the gaps. *)
Definition status_ok (fs : Z) (l : list (Z * Z)) (part : Z) (st : ePartComplete) : Prop :=
  match st with
  | complete => forall x, part_start part <= x <= part_end fs part -> ~ covered l x
  | incomplete => exists x, part_start part <= x <= part_end fs part /\ covered l x
  | unknown => True
  end.

Definition gap_total (l : list (Z * Z)) : Z := sumZ ((fun e => e.1 - e.2 + 1) <$> l).

Record wf_gaplist (g : CGapList) : Prop := {
  wf_size : 0 < m_filesize g;
  wf_count : 1 <= m_iPartCount g <= 65535;
  wf_last : 1 <= m_sizeLastPart g <= PARTSIZE;
  wf_filesize : m_filesize g = (m_iPartCount g - 1) * PARTSIZE + m_sizeLastPart g;
  wf_len : Z.of_nat (length (m_partsComplete g)) = m_iPartCount g;
  wf_gl : wf_gaps (m_filesize g) (m_gaplist g);
  wf_cache : forall part st, m_partsComplete g !! part = Some st ->
    status_ok (m_filesize g) (m_gaplist g) (Z.of_nat part) st;
  wf_total : m_totalGapSizeValid g = true -> m_totalGapSize g = gap_total (m_gaplist g)
}.

(** ** Lemmas: lists of gaps *)

Lemma covered_app l1 l2 x : covered (l1 ++ l2) x <-> covered l1 x \/ covered l2 x.
Proof. apply Exists_app. Qed.

Lemma covered_cons e l x : covered (e :: l) x <-> e.2 <= x <= e.1 \/ covered l x.
Proof. apply Exists_cons. Qed.

Lemma covered_nil x : ~ covered [] x.
Proof. by intros ?%Exists_nil. Qed.

Lemma wf_gaps_app fs l1 l2 :
  wf_gaps fs (l1 ++ l2) <->
  wf_gaps fs l1 /\ wf_gaps fs l2 /\ Forall (fun a => Forall (apart a) l2) l1.
Proof.
  unfold wf_gaps. rewrite StronglySorted_app_iff, Forall_app. tauto.
Qed.

Lemma wf_gaps_cons fs e l :
  wf_gaps fs (e :: l) <-> wf_gaps fs l /\ Forall (apart e) l /\ gap_ok fs e.
Proof.
  unfold wf_gaps. rewrite Forall_cons. split.
  - intros [Hs [? ?]]. inversion Hs; subst. tauto.
  - intros ([? ?] & ? & ?). split; [by constructor|done].
Qed.

Lemma wf_gaps_nil fs : wf_gaps fs [].
Proof. split; constructor. Qed.

(** Gaps that are apart have increasing ends: the list is a well-formed [std::map]. *)
Lemma wf_gaps_msorted fs l : wf_gaps fs l -> msorted l.
Proof.
  intros [Hs Hok]. induction Hs as [|e l Hs IH Hap]; [constructor|].
  inversion Hok as [|? ? _ Hok']; subst. constructor; [by apply IH|].
  rewrite Forall_forall in *. intros e' He'. unfold klt. simpl. apply Z.ltb_lt.
  specialize (Hap _ He'). specialize (Hok' _ He'). unfold apart, gap_ok in *. lia.
Qed.

Lemma Forall_apart_weaken e e' l :
  e'.1 <= e.1 -> Forall (apart e) l -> Forall (apart e') l.
Proof.
  intros Hle Hl. eapply Forall_impl; [exact Hl|]. intros x. unfold apart. lia.
Qed.

Ltac gap_lia := unfold apart, gap_ok in *; simpl in *; lia.

(** *** [AddGap] *)

Section AddGapLoop.
Variable fs : Z.
Hypothesis Hfs : fs < 2 ^ 64.

(** The map [l] a loop leaves and the gap it inserts describe the old gaps and the new one. *)
Lemma addgap_loop_spec rest : forall gs ge pre l ins,
  0 <= gs <= ge -> ge < fs ->
  wf_gaps fs (pre ++ rest) ->
  Forall (fun e => e.1 + 1 < gs) pre -> Forall (fun e => gs - 1 <= e.1) rest ->
  addgap_loop gs ge pre rest = (l, ins) ->
  wf_gaps fs (insert_gap ins l) /\
  forall x, covered (insert_gap ins l) x <-> covered (pre ++ rest) x \/ gs <= x <= ge.
Proof.
  induction rest as [|[ce cs] rest IH]; intros gs ge pre l ins Hgs Hge Hwf Hpre Hrest Heq;
    simpl in Heq.
  - injection Heq as <- <-. rewrite app_nil_r in *. unfold insert_gap.
    rewrite minsert_last by (eapply Forall_impl; [exact Hpre|intros; gap_lia]). split.
    + apply wf_gaps_app. split; [done|]. split.
      * apply wf_gaps_cons. repeat split; [constructor..|gap_lia|gap_lia|done].
      * eapply Forall_impl; [exact Hpre|]. intros e He. constructor; [gap_lia|constructor].
    + intros x. rewrite covered_app, covered_cons. simpl. pose proof (covered_nil x). tauto.
  - pose proof Hwf as (Hwp & Hwr & Hcross)%wf_gaps_app.
    pose proof Hwr as (Hwr' & Hap & Hok)%wf_gaps_cons. unfold gap_ok in Hok; simpl in Hok.
    inversion Hrest as [|? ? Hce Hrest']; subst; simpl in Hce.
    assert (wf_gaps fs (pre ++ rest)) as Hwf'.
    { apply wf_gaps_app. repeat split; [apply Hwp..|apply Hwr'|apply Hwr'|].
      eapply Forall_impl; [exact Hcross|]. intros e He. by inversion He. }
    assert (Forall (fun e => ce < e.2) rest) as Hnext.
    { eapply Forall_impl; [exact Hap|]. intros. gap_lia. }
    assert (wrap 64 (ge + 1) = ge + 1) as Hwge by (apply wrap_small; width_lia).
    rewrite Hwge in Heq.
    assert (gs = 0 \/ wrap 64 (gs - 1) = gs - 1) as Hwgs.
    { destruct (Z.eq_dec gs 0); [by left|right]. apply wrap_small. width_lia. }
    repeat case_match; bool_facts.
    + (* inside the new gap *)
      destruct (IH gs ge pre l ins) as [Hl Hc]; [done..|]. split; [done|]. intros x.
      rewrite Hc, !covered_app, covered_cons. simpl. split; [tauto|].
      intros [[?|[?|?]]|?]; [tauto|right; lia|tauto..].
    + (* overlaps the end of the new gap or follows it directly *)
      destruct (IH gs ce pre l ins) as [Hl Hc]; [lia..|done|done|done|done|]. split; [done|].
      intros x. rewrite Hc, !covered_app, covered_cons. simpl. split.
      * intros [[?|?]|?]; [tauto..|]. destruct (Z.leb_spec x ge); [right; lia|left; right; left; lia].
      * intros [[?|[?|?]]|?]; [tauto|right; lia|tauto|right; lia].
    + (* overlaps the start of the new gap or precedes it directly *)
      assert (cs < gs) by lia.
      assert (Forall (fun e => e.1 + 1 < cs) pre).
      { eapply Forall_impl; [exact Hcross|]. intros e He. inversion He; subst. done. }
      destruct (IH cs ge pre l ins) as [Hl Hc]; [lia|lia|done|done| |done|].
      { eapply Forall_impl; [exact Hrest'|]. simpl. intros. lia. }
      split; [done|].
      intros x. rewrite Hc, !covered_app, covered_cons. simpl. split.
      * intros [[?|?]|?]; [tauto..|]. destruct (Z.leb_spec gs x); [right; lia|left; right; left; lia].
      * intros [[?|[?|?]]|?]; [tauto|right; lia|tauto|right; lia].
    + (* the new gap is inside this one *)
      injection Heq as <- <-. unfold insert_gap. split; [done|]. intros x.
      rewrite !covered_app, covered_cons. simpl.
      split; [tauto|]. intros [?|?]; [tauto|]. right; left; lia.
    + (* this gap is the first behind the new one *)
      injection Heq as <- <-. unfold insert_gap.
      assert (Forall (fun e : Z * Z => e.1 < ge) pre) by
        (eapply Forall_impl; [exact Hpre|intros; gap_lia]).
      assert (ge + 1 < cs) by lia.
      assert (Forall (fun e : Z * Z => ge < e.1) rest).
      { pose proof Hwr' as [_ Hok']. rewrite Forall_forall in *. intros e He.
        specialize (Hnext e He). specialize (Hok' e He). gap_lia. }
      rewrite minsert_between by first [done | constructor; [gap_lia|done]]. split.
      * apply wf_gaps_app. split; [done|]. split.
        -- apply wf_gaps_cons. split; [done|]. split; [|gap_lia].
           constructor; [gap_lia|].
           eapply Forall_apart_weaken; [|exact Hap]. simpl. lia.
        -- rewrite Forall_forall in *. intros e He. constructor; [|by apply Hcross].
           specialize (Hpre e He). gap_lia.
      * intros x. rewrite !covered_app, !covered_cons. simpl. tauto.
    + (* before the new gap: ruled out by the starting point *)
      exfalso. lia.
Qed.
End AddGapLoop.

(** *** [FillGap] *)

Section FillGapLoop.
Variable fs : Z.
Hypothesis Hfs : fs < 2 ^ 64.

Lemma covered_after e l x : Forall (apart e) l -> covered l x -> e.1 + 1 < x.
Proof.
  intros Hl Hc. unfold covered in Hc. rewrite Exists_exists in Hc.
  destruct Hc as (y & Hy & ?). rewrite Forall_forall in Hl. specialize (Hl y Hy). gap_lia.
Qed.

Lemma covered_before e l x : Forall (fun a => apart a e) l -> covered l x -> x + 1 < e.2.
Proof.
  intros Hl Hc. unfold covered in Hc. rewrite Exists_exists in Hc.
  destruct Hc as (y & Hy & ?). rewrite Forall_forall in Hl. specialize (Hl y Hy). gap_lia.
Qed.

Lemma wf_gaps_snoc pre e :
  wf_gaps fs pre -> Forall (fun a => apart a e) pre -> gap_ok fs e -> wf_gaps fs (pre ++ [e]).
Proof.
  intros Hp Ha Ho. apply wf_gaps_app. split; [done|]. split.
  - apply wf_gaps_cons. repeat split; try constructor; apply Ho.
  - eapply Forall_impl; [exact Ha|]. intros. by repeat constructor.
Qed.

Lemma Forall_apart_head pre e rest :
  Forall (fun a => Forall (apart a) (e :: rest)) pre -> Forall (fun a => apart a e) pre.
Proof. intros H. eapply Forall_impl; [exact H|]. intros a Ha. by inversion Ha. Qed.

(** Shrinking the head gap of a well-formed list keeps it well formed. *)
Lemma wf_gaps_shrink pre e s' rest :
  wf_gaps fs (pre ++ e :: rest) -> e.2 <= s' <= e.1 -> wf_gaps fs (pre ++ (e.1, s') :: rest).
Proof.
  intros (Hp & (Hr & Ha & Ho)%wf_gaps_cons & Hc)%wf_gaps_app Hs.
  apply wf_gaps_app. split; [done|]. split.
  - apply wf_gaps_cons. split; [done|]. split; [|gap_lia].
    eapply Forall_apart_weaken; [|exact Ha]. simpl. lia.
  - eapply Forall_impl; [exact Hc|]. intros a Hall. inversion Hall; subst.
    constructor; [gap_lia|done].
Qed.

Lemma wf_gaps_drop_head pre e rest : wf_gaps fs (pre ++ e :: rest) -> wf_gaps fs (pre ++ rest).
Proof.
  intros (Hp & (Hr & Ha & Ho)%wf_gaps_cons & Hc)%wf_gaps_app.
  apply wf_gaps_app. split; [done|]. split; [done|].
  eapply Forall_impl; [exact Hc|]. intros a Hall. by inversion Hall.
Qed.

(** Cutting [ps..pe] out of the middle of the head gap. *)
Lemma wf_gaps_split pre ce cs rest ps pe :
  wf_gaps fs (pre ++ (ce, cs) :: rest) -> cs < ps -> ps <= pe -> pe < ce ->
  wf_gaps fs (pre ++ (ps - 1, cs) :: (ce, pe + 1) :: rest).
Proof.
  intros Hwf H1 H2 H3.
  pose proof (wf_gaps_shrink pre (ce, cs) (pe + 1) rest Hwf ltac:(simpl; lia)) as Hsh.
  pose proof Hwf as (Hp & (Hr & Ha & Ho)%wf_gaps_cons & Hc)%wf_gaps_app.
  apply wf_gaps_app in Hsh as (_ & Hsh & _). simpl in Hsh.
  apply wf_gaps_app. split; [done|]. split.
  - apply wf_gaps_cons. split; [done|]. split; [|gap_lia].
    constructor; [gap_lia|]. eapply Forall_apart_weaken; [|exact Ha]. simpl. lia.
  - eapply Forall_impl; [exact Hc|]. intros a Hall. inversion Hall; subst.
    constructor; [gap_lia|]. constructor; [gap_lia|done].
Qed.

(** Compare two descriptions of a byte set point by point. *)
Ltac by_points x :=
  repeat match goal with
  | H : forall y : Z, covered _ y -> _ |- _ => specialize (H x)
  end; intuition lia.

Lemma fillgap_loop_spec rest : forall ps pe pre,
  0 <= ps <= pe -> pe < fs ->
  wf_gaps fs (pre ++ rest) ->
  Forall (fun e => e.1 < ps) pre -> Forall (fun e => ps <= e.1) rest ->
  wf_gaps fs (fillgap_loop ps pe pre rest) /\
  forall x, covered (fillgap_loop ps pe pre rest) x <->
            covered (pre ++ rest) x /\ ~ (ps <= x <= pe).
Proof.
  induction rest as [|[ce cs] rest IH]; intros ps pe pre Hps Hpe Hwf Hpre Hrest; simpl.
  - rewrite app_nil_r in *. split; [done|]. intros x. split; [|tauto]. intros Hc. split; [done|].
    intros Hx. unfold covered in Hc. rewrite Exists_exists in Hc. destruct Hc as (e & He & ?).
    rewrite Forall_forall in Hpre. specialize (Hpre e He). gap_lia.
  - pose proof Hwf as (Hwp & Hwr & Hcross)%wf_gaps_app.
    pose proof Hwr as (Hwr' & Hap & Hok)%wf_gaps_cons. unfold gap_ok in Hok; simpl in Hok.
    inversion Hrest as [|? ? Hce Hrest']; subst; simpl in Hce.
    pose proof (Forall_apart_head _ _ _ Hcross) as Hbef.
    assert (forall x, covered pre x -> x + 1 < cs) as Hb by (intros x; apply (covered_before (ce, cs)); done).
    assert (forall x, covered rest x -> ce + 1 < x) as Ha by (intros x; apply (covered_after (ce, cs)); done).
    assert (forall x, covered pre x -> x < ps) as Hb'.
    { intros x Hc. unfold covered in Hc. rewrite Exists_exists in Hc. destruct Hc as (e & He & ?).
      rewrite Forall_forall in Hpre. specialize (Hpre e He). gap_lia. }
    assert (wrap 64 (pe + 1) = pe + 1) as Hwpe by (apply wrap_small; width_lia).
    rewrite Hwpe, !Z.geb_leb, Z.gtb_ltb.
    destruct (Z.leb_spec ps cs);
      [destruct (Z.leb_spec ce pe); [|destruct (Z.leb_spec cs pe)]
      |destruct (Z.ltb_spec pe ce); [|destruct (Z.leb_spec ps ce)]].
    + destruct (IH ps pe pre) as [Hl Hc]; [done..|by eapply wf_gaps_drop_head|done|done|].
      split; [done|]. intros x. rewrite Hc, !covered_app, covered_cons. simpl. by_points x.
    + split; [apply (wf_gaps_shrink pre (ce, cs) (pe + 1)); [done|simpl; lia]|].
      intros x. rewrite !covered_app, !covered_cons. simpl. by_points x.
    + split; [done|]. intros x. rewrite covered_app, covered_cons. simpl. by_points x.
    + rewrite (wrap_small 64 (ps - 1)) by width_lia.
      rewrite minsert_between; cycle 1.
      { eapply Forall_impl; [exact Hbef|]. intros. gap_lia. }
      { constructor; [simpl; lia|]. pose proof Hwr' as [_ Hok'].
        rewrite Forall_forall in *. intros e He. specialize (Hap e He). specialize (Hok' e He). gap_lia. }
      split; [apply wf_gaps_split; [done|lia..]|].
      intros x. rewrite !covered_app, !covered_cons. simpl. by_points x.
    + rewrite (wrap_small 64 (ps - 1)) by width_lia.
      rewrite minsert_last; cycle 1.
      { eapply Forall_impl; [exact Hbef|]. intros. gap_lia. }
      destruct (IH ps pe (pre ++ [(ps - 1, cs)])) as [Hl Hc]; [done..| | |done|].
      { apply wf_gaps_app. split; [apply wf_gaps_snoc; [done|done|gap_lia]|]. split; [done|].
        apply Forall_app. split.
        - eapply Forall_impl; [exact Hcross|]. intros a Hall. by inversion Hall.
        - constructor; [|constructor]. eapply Forall_apart_weaken; [|exact Hap]. simpl. lia. }
      { apply Forall_app. split; [done|]. constructor; [simpl; lia|constructor]. }
      split; [done|]. intros x. rewrite Hc, !covered_app, !covered_cons. simpl.
      pose proof (covered_nil x). by_points x.
    + exfalso. lia.
Qed.
End FillGapLoop.

(** ** Lemmas: the part cache *)

Lemma set_part_spec l part st :
  0 <= part < Z.of_nat (length l) -> set_part l part st = Some (<[Z.to_nat part := st]> l).
Proof. intros. unfold set_part. by rewrite (proj2 (Z.ltb_lt _ _)) by lia. Qed.

(** The marking loop is in bounds and writes exactly the parts of its range. *)
Lemma mark_parts_spec n : forall l part st,
  0 <= part -> part + Z.of_nat n <= Z.of_nat (length l) -> Z.of_nat (length l) <= 65535 ->
  exists l', mark_parts l part st n = Some l' /\ length l' = length l /\
  forall i, l' !! i =
    if (part <=? Z.of_nat i) && (Z.of_nat i <? part + Z.of_nat n) then Some st else l !! i.
Proof.
  induction n as [|n IH]; intros l part st Hp Hn Hl; simpl.
  - exists l. split; [done|]. split; [done|]. intros i.
    change (Z.of_nat 0) with 0. repeat (case_cmp; simpl); done || lia.
  - rewrite set_part_spec by lia. simpl. rewrite (wrap_small 16) by width_lia.
    destruct (IH (<[Z.to_nat part:=st]> l) (part + 1) st) as (l' & -> & Hlen & Hlk);
      [lia|rewrite length_insert; lia..|].
    exists l'. split; [done|]. split; [by rewrite Hlen, length_insert|]. intros i. rewrite Hlk.
    destruct (decide (i = Z.to_nat part)) as [->|Hne].
    + rewrite list_lookup_insert_eq by lia.
      repeat (case_cmp; simpl); done || lia.
    + rewrite list_lookup_insert_ne by done.
      repeat (case_cmp; simpl); done || lia.
Qed.

Lemma mark_range_spec g a b st :
  wf_gaplist g -> 0 <= a <= b -> b < m_filesize g ->
  exists l', mark_range (m_partsComplete g) a b st = Some l' /\
  length l' = length (m_partsComplete g) /\
  forall i, l' !! i =
    if (a / PARTSIZE <=? Z.of_nat i) && (Z.of_nat i <=? b / PARTSIZE) then Some st
    else m_partsComplete g !! i.
Proof.
  intros [] Hab Hb. unfold mark_range, PARTSIZE in *.
  assert (b / 9728000 < m_iPartCount g) by lia.
  rewrite !(wrap_small 16) by width_lia.
  destruct (mark_parts_spec (Z.to_nat (b / 9728000 - a / 9728000 + 1)) (m_partsComplete g)
    (a / 9728000) st) as (l' & -> & Hlen & Hlk); [lia..|].
  exists l'. split; [done|]. split; [done|]. intros i. rewrite Hlk.
  repeat (case_cmp; simpl); done || lia.
Qed.

Lemma part_bounds g part :
  wf_gaplist g -> 0 <= part < m_iPartCount g ->
  wrap 64 (part * PARTSIZE) = part_start part /\
  wrap 64 (wrap 64 (part * PARTSIZE) + GetPartSize g part - 1) = part_end (m_filesize g) part /\
  part_start part <= part_end (m_filesize g) part < m_filesize g.
Proof.
  intros [] Hp. unfold part_start, part_end, GetPartSize, PARTSIZE in *.
  rewrite (wrap_small 64 (part * _)) by width_lia.
  case_cmp; rewrite (wrap_small 64) by width_lia; lia.
Qed.

Lemma wf_filesize_64 g : wf_gaplist g -> m_filesize g < 2 ^ 64.
Proof. intros []. unfold PARTSIZE in *. norm_pow. lia. Qed.

(** [AddGap] on a range that starts inside the file. *)
Lemma AddGap_spec g a b :
  wf_gaplist g -> 0 <= a <= b -> a < m_filesize g ->
  exists g', AddGap g a b = Some g' /\ wf_gaplist g' /\ m_filesize g' = m_filesize g /\
    m_iPartCount g' = m_iPartCount g /\ m_sizeLastPart g' = m_sizeLastPart g /\
    forall x, covered (m_gaplist g') x <->
              covered (m_gaplist g) x \/ a <= x <= Z.min b (m_filesize g - 1).
Proof.
  intros Hwf Hab Ha. pose proof (wf_filesize_64 g Hwf) as H64. pose proof Hwf as [].
  unfold AddGap, ArgCheck. rewrite (proj2 (Z.ltb_ge b a)) by lia.
  rewrite (wrap_small 64 (m_filesize g - 1)) by width_lia.
  assert ((if b >=? m_filesize g then m_filesize g - 1 else b) = Z.min b (m_filesize g - 1)) as ->
    by (case_cmp; lia).
  set (b' := Z.min b (m_filesize g - 1)). assert (a <= b' < m_filesize g) by lia. cbn zeta.
  destruct (mark_range_spec g a b' incomplete) as (l' & -> & Hlen & Hlk); [done|lia..|].
  simpl. destruct (lower_bound _ _) as [pre rest] eqn:Hlb.
  apply lower_bound_sorted in Hlb as (Hgl & Hpre & Hrest); [|by eapply wf_gaps_msorted].
  destruct (addgap_loop a b' pre rest) as [l ins] eqn:Hloop.
  apply (addgap_loop_spec (m_filesize g)) in Hloop as [Hl Hc]; [|lia|lia|lia|by rewrite <- Hgl|..].
  2: { pose proof wf_gl0 as [_ Hok]. rewrite Hgl in Hok. apply Forall_app in Hok as [Hok _].
       rewrite Forall_forall in *. intros e He. specialize (Hpre e He). specialize (Hok e He).
       unfold gap_ok in Hok. simpl in Hpre. apply Z.ltb_lt in Hpre. revert Hpre. case_cmp; lia. }
  2: { eapply Forall_impl; [exact Hrest|]. intros e He. simpl in He. apply Z.ltb_ge in He.
       revert He. case_cmp; lia. }
  rewrite <- Hgl in Hc. eexists. split; [done|]. split; [|by repeat (split; [done|])].
  constructor; simpl; try done; [by rewrite Hlen|].
  intros part st. rewrite Hlk. unfold part_start, part_end, PARTSIZE in *.
  repeat case_cmp; simpl.
  - intros [= <-]. exists (Z.max a (Z.of_nat part * 9728000)).
    split; [|apply Hc]; unfold part_start, part_end, PARTSIZE; [|right]; lia.
  - intros Hst. specialize (wf_cache0 _ _ Hst). destruct st; simpl in *; [|destruct wf_cache0 as (x & ? & ?)|done].
    + intros x Hx [Hcx|Hcx]%Hc; [by apply (wf_cache0 x)|].
      unfold part_start, part_end, PARTSIZE in *. lia.
    + exists x. split; [done|]. apply Hc. by left.
  - intros Hst. specialize (wf_cache0 _ _ Hst). destruct st; simpl in *; [|destruct wf_cache0 as (x & ? & ?)|done].
    + intros x Hx [Hcx|Hcx]%Hc; [by apply (wf_cache0 x)|].
      unfold part_start, part_end, PARTSIZE in *. lia.
    + exists x. split; [done|]. apply Hc. by left.
  - lia.
Qed.

Lemma FillGap_spec g a b :
  wf_gaplist g -> 0 <= a <= b -> a < m_filesize g ->
  exists g', FillGap g a b = Some g' /\ wf_gaplist g' /\ m_filesize g' = m_filesize g /\
    m_iPartCount g' = m_iPartCount g /\ m_sizeLastPart g' = m_sizeLastPart g /\
    forall x, covered (m_gaplist g') x <->
              covered (m_gaplist g) x /\ ~ (a <= x <= Z.min b (m_filesize g - 1)).
Proof.
  intros Hwf Hab Ha. pose proof (wf_filesize_64 g Hwf) as H64. pose proof Hwf as [].
  unfold FillGap, ArgCheck. rewrite (proj2 (Z.ltb_ge b a)) by lia.
  rewrite (wrap_small 64 (m_filesize g - 1)) by width_lia.
  assert ((if b >=? m_filesize g then m_filesize g - 1 else b) = Z.min b (m_filesize g - 1)) as ->
    by (case_cmp; lia).
  set (b' := Z.min b (m_filesize g - 1)). assert (a <= b' < m_filesize g) by lia. cbn zeta.
  destruct (mark_range_spec g a b' unknown) as (l' & -> & Hlen & Hlk); [done|lia..|].
  simpl. destruct (lower_bound _ _) as [pre rest] eqn:Hlb.
  apply lower_bound_sorted in Hlb as (Hgl & Hpre & Hrest); [|by eapply wf_gaps_msorted].
  destruct (fillgap_loop_spec (m_filesize g) H64 rest a b' pre) as [Hl Hc];
    [lia|lia|by rewrite <- Hgl| | |].
  { eapply Forall_impl; [exact Hpre|]. intros e He. simpl in He. by apply Z.ltb_lt in He. }
  { eapply Forall_impl; [exact Hrest|]. intros e He. simpl in He. by apply Z.ltb_ge in He. }
  rewrite <- Hgl in Hc. eexists. split; [done|]. split; [|by repeat (split; [done|])].
  constructor; simpl; try done; [by rewrite Hlen|].
  intros part st. rewrite Hlk.
  destruct ((a / PARTSIZE <=? Z.of_nat part) && (Z.of_nat part <=? b' / PARTSIZE)) eqn:Hin;
    [by intros [= <-]|].
  intros Hst. specialize (wf_cache0 _ _ Hst).
  destruct st; simpl in *; [|destruct wf_cache0 as (x & ? & ?)|done].
  - intros x Hx [Hcx _]%Hc. by apply (wf_cache0 x).
  - exists x. split; [done|]. apply Hc. split; [done|].
    unfold part_start, part_end, PARTSIZE in *. apply andb_false_iff in Hin as [Hin|Hin];
      apply Z.leb_gt in Hin; lia.
Qed.

(** The per-part variants. *)
Lemma set_part_wf g part st :
  wf_gaplist g -> 0 <= part < m_iPartCount g ->
  status_ok (m_filesize g) (m_gaplist g) part st ->
  exists p, set_part (m_partsComplete g) part st = Some p /\ wf_gaplist (with_parts g p).
Proof.
  intros Hwf Hp Hst. pose proof Hwf as []. rewrite set_part_spec by lia.
  eexists. split; [done|]. constructor; simpl; try done; [by rewrite length_insert|].
  intros i st'. destruct (decide (i = Z.to_nat part)) as [->|Hne].
  - rewrite list_lookup_insert_eq by lia. intros [= <-]. by rewrite Z2Nat.id by lia.
  - rewrite list_lookup_insert_ne by done. apply wf_cache0.
Qed.

Lemma AddGapPart_spec g part :
  wf_gaplist g -> 0 <= part < m_iPartCount g ->
  exists g', AddGapPart g part = Some g' /\ wf_gaplist g' /\
    forall x, covered (m_gaplist g') x <->
              covered (m_gaplist g) x \/ part_start part <= x <= part_end (m_filesize g) part.
Proof.
  intros Hwf Hp. destruct (part_bounds g part Hwf Hp) as (Hs & He & Hse).
  unfold AddGapPart. rewrite Z.geb_leb, (proj2 (Z.leb_gt _ _)) by lia.
  cbn zeta. rewrite He, Hs.
  destruct (AddGap_spec g (part_start part) (part_end (m_filesize g) part))
    as (g1 & -> & Hwf1 & Hfs & Hcnt & _ & Hc);
    [done|unfold part_start, PARTSIZE in *; lia|lia|].
  simpl. destruct (set_part_wf g1 part incomplete) as (p & -> & Hwf2); [done|lia| |].
  - simpl. exists (part_start part). rewrite Hfs. split; [lia|]. apply Hc. right. lia.
  - simpl. eexists. split; [done|]. split; [done|]. intros x. simpl. rewrite Hc.
    by rewrite Z.min_l by lia.
Qed.

Lemma FillGapPart_spec g part :
  wf_gaplist g -> 0 <= part < m_iPartCount g ->
  exists g', FillGapPart g part = Some g' /\ wf_gaplist g' /\
    forall x, covered (m_gaplist g') x <->
              covered (m_gaplist g) x /\ ~ (part_start part <= x <= part_end (m_filesize g) part).
Proof.
  intros Hwf Hp. destruct (part_bounds g part Hwf Hp) as (Hs & He & Hse).
  unfold FillGapPart. rewrite Z.geb_leb, (proj2 (Z.leb_gt _ _)) by lia.
  cbn zeta. rewrite He, Hs.
  destruct (FillGap_spec g (part_start part) (part_end (m_filesize g) part))
    as (g1 & -> & Hwf1 & Hfs & Hcnt & _ & Hc);
    [done|unfold part_start, PARTSIZE in *; lia|lia|].
  rewrite Z.min_l in Hc by lia.
  simpl. destruct (set_part_wf g1 part complete) as (p & -> & Hwf2); [done|lia| |].
  - simpl. rewrite Hfs. intros x Hx Hcx. apply Hc in Hcx. tauto.
  - simpl. eexists. split; [done|]. split; [done|]. intros x. simpl. by rewrite Hc.
Qed.

(** *** Queries *)

(** Gaps before the starting point of [lower_bound] do not cover what lies behind it. *)
Lemma covered_lower_bound fs l k pre rest x :
  wf_gaps fs l -> lower_bound k l = (pre, rest) -> k <= x -> (covered l x <-> covered rest x).
Proof.
  intros Hwf Hlb Hx. apply lower_bound_sorted in Hlb as (-> & Hpre & _);
    [|by eapply wf_gaps_msorted].
  rewrite covered_app. split; [|tauto]. intros [Hc|]; [|done]. exfalso.
  unfold covered in Hc. rewrite Exists_exists in Hc. destruct Hc as (e & He & ?).
  rewrite Forall_forall in Hpre. specialize (Hpre e He). simpl in Hpre.
  apply Z.ltb_lt in Hpre. lia.
Qed.

Lemma iscomplete_loop_spec fs l a b :
  wf_gaps fs l -> a <= b ->
  iscomplete_loop a b l = true <-> forall x, a <= x <= b -> ~ covered l x.
Proof.
  intros Hwf Hab. induction l as [|[ce cs] l IH]; simpl.
  - split; [|done]. intros _ x _. apply covered_nil.
  - apply wf_gaps_cons in Hwf as (Hwf & Hap & Hok). unfold gap_ok in Hok; simpl in Hok.
    specialize (IH Hwf). case_match eqn:Hov.
    + split; [done|]. intros Hnone. exfalso.
      destruct (Hnone (Z.max a cs)); [bool_facts; intuition (bool_facts; lia)|].
      apply covered_cons. left. simpl. bool_facts; intuition (bool_facts; lia).
    + assert (forall x, a <= x <= b -> ~ cs <= x <= ce) as Hdis.
      { bool_facts. intros x Hx Hc. intuition (bool_facts; lia). }
      rewrite Z.gtb_ltb. destruct (Z.ltb_spec b cs).
      * split; [|done]. intros _ x Hx [Hc|Hc]%covered_cons; [simpl in Hc; lia|].
        pose proof (covered_after (ce, cs) l x Hap Hc). simpl in *. lia.
      * rewrite IH. split; intros Hn x Hx; rewrite ?covered_cons; simpl.
        -- intros [Hc|Hc]; [by apply (Hdis x)|by apply (Hn x)].
        -- intros Hc. apply (Hn x Hx). apply covered_cons. by right.
Qed.

Lemma IsCompleteRange_spec g a b :
  wf_gaplist g -> 0 <= a <= b -> a < m_filesize g ->
  IsCompleteRange g a b = true <->
  forall x, a <= x <= Z.min b (m_filesize g - 1) -> ~ covered (m_gaplist g) x.
Proof.
  intros Hwf Hab Ha. pose proof (wf_filesize_64 g Hwf) as H64. pose proof Hwf as [].
  unfold IsCompleteRange, ArgCheck. rewrite (proj2 (Z.ltb_ge b a)) by lia.
  rewrite (wrap_small 64 (m_filesize g - 1)) by width_lia.
  assert ((if b >=? m_filesize g then m_filesize g - 1 else b) = Z.min b (m_filesize g - 1)) as ->
    by (case_cmp; lia).
  destruct (lower_bound a (m_gaplist g)) as [pre rest] eqn:Hlb. simpl.
  rewrite (iscomplete_loop_spec (m_filesize g)); [|..|lia]; cycle 1.
  { pose proof Hlb as (Hgl & _ & _)%lower_bound_sorted; [|by eapply wf_gaps_msorted].
    rewrite Hgl in wf_gl0. by apply wf_gaps_app in wf_gl0 as (_ & ? & _). }
  pose proof (fun x => covered_lower_bound _ _ _ _ _ x wf_gl0 Hlb) as Hc.
  split; intros Hn x Hx ?; apply (Hn x Hx); apply Hc; done || lia.
Qed.

Lemma IsCompletePart_spec g part :
  wf_gaplist g -> 0 <= part < m_iPartCount g ->
  wf_gaplist (IsCompletePart g part).2 /\
  m_gaplist (IsCompletePart g part).2 = m_gaplist g /\
  ((IsCompletePart g part).1 = true <->
   forall x, part_start part <= x <= part_end (m_filesize g) part -> ~ covered (m_gaplist g) x).
Proof.
  intros Hwf Hp. destruct (part_bounds g part Hwf Hp) as (Hs & He & Hse).
  pose proof (wf_cache g Hwf (Z.to_nat part)) as Hst. pose proof (wf_len g Hwf) as Hlen.
  unfold IsCompletePart. rewrite (proj2 (Z.eqb_neq _ _)) by lia. cbn [andb].
  rewrite Z.geb_leb, (proj2 (Z.leb_gt _ _)) by lia. cbn zeta. rewrite He, Hs.
  destruct (lookup_lt_is_Some_2 (m_partsComplete g) (Z.to_nat part)) as [st Hlk]; [lia|].
  rewrite (list_lookup_total_correct _ _ _ Hlk).
  specialize (Hst _ Hlk). rewrite Z2Nat.id in Hst by lia. destruct st; simpl.
  - split; [done|]. split; [done|]. done.
  - split; [done|]. split; [done|]. simpl in Hst.
    split; [done|]. intros Hn. destruct Hst as (x & Hx & Hc). by destruct (Hn x Hx).
  - assert (0 <= part_start part) by (unfold part_start, PARTSIZE; lia).
    pose proof (IsCompleteRange_spec g (part_start part) (part_end (m_filesize g) part) Hwf
      ltac:(lia) ltac:(lia)) as Hr. rewrite Z.min_l in Hr by lia.
    split; [|split; [done|]].
    + edestruct (set_part_wf g part) as (p & Hset & Hwf'); [done..| |].
      2: { rewrite set_part_spec in Hset by lia. injection Hset as <-. exact Hwf'. }
      destruct IsCompleteRange; simpl; [by apply Hr|].
      destruct (decide (Exists (fun e => e.2 <= part_end (m_filesize g) part /\
                                         part_start part <= e.1) (m_gaplist g))) as [Hex|Hno].
      * apply Exists_exists in Hex as (e & He' & ? & ?).
        assert (gap_ok (m_filesize g) e).
        { destruct (wf_gl g Hwf) as [_ Hok]. rewrite Forall_forall in Hok. by apply Hok. }
        exists (Z.max e.2 (part_start part)). split; [unfold gap_ok in *; lia|].
        apply Exists_exists. exists e. split; [done|]. unfold gap_ok in *. lia.
      * exfalso. cut (false = true); [done|]. apply Hr. intros x Hx Hc. apply Hno.
        apply Exists_exists in Hc as (e & He' & ?). apply Exists_exists. exists e.
        split; [done|]. lia.
    + rewrite bool_decide_eq_true. rewrite <- Hr. by destruct IsCompleteRange.
Qed.

(** Number of bytes of [lo..hi] inside gaps. *)
Definition overlap (lo hi : Z) (l : list (Z * Z)) : Z :=
  sumZ ((fun e => Z.max 0 (Z.min e.1 hi - Z.max e.2 lo + 1)) <$> l).

Lemma overlap_nonneg lo hi l : 0 <= overlap lo hi l.
Proof. unfold overlap. induction l; csimpl; lia. Qed.

Lemma overlap_bound fs lo hi l s0 :
  wf_gaps fs l -> Forall (fun e => s0 <= e.2) l ->
  overlap lo hi l <= Z.max 0 (hi - Z.max lo s0 + 1).
Proof.
  unfold overlap. revert s0. induction l as [|e l IH]; intros s0 Hwf Hs; csimpl; [lia|].
  apply wf_gaps_cons in Hwf as (Hwf & Hap & Hok). inversion Hs as [|? ? Hs1 Hs2]; subst.
  specialize (IH (e.1 + 1) Hwf ltac:(eapply Forall_impl; [exact Hap|]; intros; gap_lia)).
  unfold gap_ok in Hok. lia.
Qed.

Lemma overlap_all fs l : wf_gaps fs l -> overlap 0 (fs - 1) l = gap_total l.
Proof.
  unfold overlap, gap_total. induction l as [|e l IH]; intros Hwf; csimpl; [done|].
  apply wf_gaps_cons in Hwf as (Hwf & _ & Hok). rewrite IH by done. unfold gap_ok in Hok. lia.
Qed.

Lemma overlap_split fs lo mid hi l :
  wf_gaps fs l -> lo <= mid + 1 -> mid <= hi ->
  overlap lo mid l + overlap (mid + 1) hi l = overlap lo hi l.
Proof.
  unfold overlap. intros Hwf H1 H2. induction l as [|e l IH]; csimpl; [done|].
  apply wf_gaps_cons in Hwf as (Hwf & _ & Hok). specialize (IH Hwf). unfold gap_ok in Hok. lia.
Qed.

Lemma overlap_after lo hi l e : Forall (apart e) l -> hi <= e.1 + 1 -> overlap lo hi l = 0.
Proof.
  unfold overlap. intros Hl Hhi. induction Hl as [|x l Hx _ IH]; csimpl; [done|].
  rewrite IH. gap_lia.
Qed.

Lemma gapsize_loop_spec fs lo hi l total :
  wf_gaps fs l -> Forall (fun e => lo <= e.1) l -> lo <= hi ->
  gapsize_loop lo hi total l = total + overlap lo hi l.
Proof.
  intros Hwf Hlo Hhi. revert total. induction l as [|[ce cs] l IH]; intros total; simpl;
    [unfold overlap; simpl; lia|].
  apply wf_gaps_cons in Hwf as (Hwf & Hap & Hok). inversion Hlo as [|? ? Hlo1 Hlo2]; subst.
  unfold gap_ok in Hok. simpl in *.
  assert (overlap lo hi ((ce, cs) :: l) =
          Z.max 0 (Z.min ce hi - Z.max cs lo + 1) + overlap lo hi l) as -> by done.
  assert (hi <= ce + 1 -> overlap lo hi l = 0) as Hz by (intros; by eapply overlap_after).
  repeat case_match; bool_facts; rewrite ?IH by done; try lia.
Qed.

Lemma fold_wrap_total l acc :
  wrap 64 acc = acc ->
  fold_left (fun acc (e : Z * Z) => wrap 64 (acc + (e.1 - e.2 + 1))) l acc = wrap 64 (acc + gap_total l).
Proof.
  unfold gap_total. revert acc. induction l as [|e l IH]; intros acc Hacc; csimpl.
  - by rewrite Z.add_0_r.
  - rewrite IH by (by apply wrap_wrap). unfold wrap. rewrite Zplus_mod_idemp_l. f_equal. lia.
Qed.

Lemma GetGapSizeTotal_spec g :
  wf_gaplist g ->
  (GetGapSizeTotal g).1 = gap_total (m_gaplist g) /\
  wf_gaplist (GetGapSizeTotal g).2 /\ m_gaplist (GetGapSizeTotal g).2 = m_gaplist g.
Proof.
  intros Hwf. pose proof (wf_filesize_64 g Hwf) as H64. pose proof Hwf as [].
  unfold GetGapSizeTotal. destruct (m_totalGapSizeValid g) eqn:Hv.
  - simpl. by rewrite wf_total0 by done.
  - rewrite fold_wrap_total by done. rewrite Z.add_0_l.
    assert (wrap 64 (gap_total (m_gaplist g)) = gap_total (m_gaplist g)) as ->.
    { apply wrap_small. rewrite <- (overlap_all (m_filesize g)) by done.
      pose proof (overlap_nonneg 0 (m_filesize g - 1) (m_gaplist g)).
      pose proof (overlap_bound (m_filesize g) 0 (m_filesize g - 1) (m_gaplist g) 0 wf_gl0) as Hb.
      assert (Forall (fun e : Z * Z => 0 <= e.2) (m_gaplist g)) as Hnn.
      { destruct wf_gl0 as [_ Hok]. eapply Forall_impl; [exact Hok|]. intros; gap_lia. }
      specialize (Hb Hnn). width_lia. }
    split; [done|]. split; [|done]. by constructor.
Qed.

Lemma GetGapSizePart_spec g part :
  wf_gaplist g -> 0 <= part < m_iPartCount g ->
  GetGapSizePart g part =
  overlap (part_start part) (part_end (m_filesize g) part) (m_gaplist g).
Proof.
  intros Hwf Hp. destruct (part_bounds g part Hwf Hp) as (Hs & He & Hse). pose proof Hwf as [].
  unfold GetGapSizePart. cbn zeta. rewrite He, Hs.
  destruct (lower_bound (part_start part) (m_gaplist g)) as [pre rest] eqn:Hlb.
  apply lower_bound_sorted in Hlb as (Hgl & Hpre & Hrest); [|by eapply wf_gaps_msorted].
  simpl. set (lo := part_start part) in *. set (hi := part_end (m_filesize g) part) in *.
  pose proof wf_gl0 as Hwl. rewrite Hgl in Hwl. apply wf_gaps_app in Hwl as (_ & Hwr & _).
  rewrite (gapsize_loop_spec (m_filesize g)); [|done| |lia]; cycle 1.
  { eapply Forall_impl; [exact Hrest|]. intros e H. simpl in H. by apply Z.ltb_ge in H. }
  assert (overlap lo hi (m_gaplist g) = overlap lo hi rest) as Hov.
  { rewrite Hgl. unfold overlap. rewrite fmap_app, sumZ_app.
    cut (sumZ ((λ e : Z * Z, 0 `max` (e.1 `min` hi - e.2 `max` lo + 1)) <$> pre) = 0); [lia|].
    clear Hgl. induction Hpre as [|e pre Hpe _ IH]; csimpl in *; [done|].
    apply Z.ltb_lt in Hpe. simpl in Hpe. lia. }
  rewrite Z.add_0_l, <- Hov.
  pose proof (overlap_nonneg lo hi (m_gaplist g)).
  pose proof (overlap_bound (m_filesize g) lo hi (m_gaplist g) lo wf_gl0).
  assert (overlap lo hi (m_gaplist g) <= PARTSIZE) as Hle.
  { rewrite Hov. assert (Forall (fun e => 0 <= e.2) rest).
    { destruct Hwr as [_ Hok]. eapply Forall_impl; [exact Hok|]. intros; gap_lia. }
    pose proof (overlap_bound (m_filesize g) lo hi rest 0 Hwr ltac:(done)).
    subst lo hi. unfold part_start, part_end, PARTSIZE in *. lia. }
  unfold PARTSIZE in *. rewrite !wrap_small; width_lia.
Qed.

(** *** Initialisation *)

(** Files of up to 65535 parts: the part count is a [uint16]. *)
Definition file_ok (fs : Z) : Prop := 0 < fs <= 65535 * PARTSIZE.

Definition init_parts (fs : Z) : Z * Z :=
  if fs mod PARTSIZE =? 0 then (fs / PARTSIZE, PARTSIZE) else (fs / PARTSIZE + 1, fs mod PARTSIZE).

Lemma init_parts_ok fs :
  file_ok fs ->
  1 <= (init_parts fs).1 <= 65535 /\ 1 <= (init_parts fs).2 <= PARTSIZE /\
  fs = ((init_parts fs).1 - 1) * PARTSIZE + (init_parts fs).2.
Proof. unfold file_ok, init_parts, PARTSIZE. intros. case_cmp; simpl; lia. Qed.

Definition init_state (fs : Z) (st : ePartComplete) : CGapList :=
  mkGapList [] fs (init_parts fs).1 (init_parts fs).2 0 false
            (replicate (Z.to_nat (init_parts fs).1) st).

Lemma init_state_wf fs st : file_ok fs -> st <> incomplete -> wf_gaplist (init_state fs st).
Proof.
  intros Hf Hst. pose proof (init_parts_ok fs Hf) as (H1 & H2 & H3). unfold file_ok in Hf.
  constructor; simpl; try done; [lia|rewrite length_replicate; lia|apply wf_gaps_nil|].
  intros part st' [-> _]%lookup_replicate. destruct st; simpl; [|done|done].
  intros x _. apply covered_nil.
Qed.

Lemma Init_unfold fs e :
  file_ok fs ->
  Init fs e =
    if e then g' ← AddGap (init_state fs incomplete) 0 (fs - 1); Some (with_total g' fs true)
    else Some (with_total (init_state fs complete) 0 true).
Proof.
  intros Hf. unfold Init. unfold file_ok, PARTSIZE in *.
  assert ((if (wrap 32 (fs mod 9728000) =? 0) && negb (fs =? 0)
           then (wrap 16 (wrap 16 (fs / 9728000 + 1) - 1), 9728000)
           else (wrap 16 (fs / 9728000 + 1), wrap 32 (fs mod 9728000)))
          = init_parts fs) as ->.
  { unfold init_parts, PARTSIZE. rewrite (wrap_small 32) by width_lia.
    rewrite (proj2 (Z.eqb_neq fs 0)) by lia. rewrite andb_true_r.
    case_cmp; f_equal; [|rewrite wrap_small; width_lia].
    unfold wrap. rewrite Zminus_mod_idemp_l. rewrite Z.mod_small; norm_pow; lia. }
  destruct (init_parts fs) as [count last] eqn:Hip.
  rewrite (wrap_small 64) by width_lia. unfold init_state. rewrite Hip. by destruct e.
Qed.

(** Marking every part forgets what the parts were. *)
Lemma mark_all_parts (l1 l2 : list ePartComplete) st :
  length l1 = length l2 -> Z.of_nat (length l1) <= 65535 ->
  mark_parts l1 0 st (length l1) = mark_parts l2 0 st (length l2).
Proof.
  intros Hl Hb.
  destruct (mark_parts_spec (length l1) l1 0 st) as (r1 & -> & Hl1 & Hk1); [lia..|].
  destruct (mark_parts_spec (length l2) l2 0 st) as (r2 & -> & Hl2 & Hk2); [lia..|].
  f_equal. apply list_eq. intros i. rewrite Hk1, Hk2.
  rewrite <- Hl. case_match eqn:Hin; [done|].
  apply andb_false_iff in Hin as [Hin|Hin]; [apply Z.leb_gt in Hin|apply Z.ltb_ge in Hin]; [lia|].
  rewrite !lookup_ge_None_2 by lia. done.
Qed.

Lemma AddGap_init_cache fs st1 st2 :
  file_ok fs ->
  AddGap (init_state fs st1) 0 (fs - 1) = AddGap (init_state fs st2) 0 (fs - 1).
Proof.
  intros Hf. pose proof (init_parts_ok fs Hf) as (H1 & H2 & H3). unfold file_ok in Hf.
  unfold AddGap, ArgCheck. rewrite (proj2 (Z.ltb_ge (fs - 1) 0)) by lia. simpl.
  rewrite Z.geb_leb, (proj2 (Z.leb_gt fs (fs - 1))) by lia.
  unfold mark_range. change (0 / PARTSIZE) with 0. change (wrap 16 0) with 0.
  assert (Z.to_nat (wrap 16 ((fs - 1) / PARTSIZE) - 0 + 1) = Z.to_nat (init_parts fs).1) as ->.
  { unfold init_parts, PARTSIZE in *. rewrite wrap_small by width_lia. case_cmp; simpl; lia. }
  set (n := Z.to_nat (init_parts fs).1).
  pose proof (mark_all_parts (replicate n st1) (replicate n st2) incomplete) as Hm.
  rewrite !length_replicate in Hm. rewrite Hm by lia. done.
Qed.

Lemma Init_spec fs e :
  file_ok fs ->
  exists g, Init fs e = Some g /\ wf_gaplist g /\ m_filesize g = fs /\
    m_iPartCount g = (init_parts fs).1 /\ m_sizeLastPart g = (init_parts fs).2 /\
    forall x, covered (m_gaplist g) x <-> e = true /\ 0 <= x < fs.
Proof.
  intros Hf. rewrite Init_unfold by done. destruct e.
  - rewrite (AddGap_init_cache fs incomplete unknown) by done.
    pose proof (init_state_wf fs unknown Hf ltac:(done)) as Hwf. unfold file_ok in Hf.
    destruct (AddGap_spec (init_state fs unknown) 0 (fs - 1)) as (g & -> & Hwf' & Hs & Hc & Hl & Hx);
      [done|lia|simpl; lia|].
    simpl in *. eexists. split; [done|]. rewrite Z.min_id in Hx.
    assert (forall x, covered (m_gaplist g) x <-> true = true /\ 0 <= x < fs) as Hcov.
    { intros x. rewrite Hx. pose proof (covered_nil x). intuition lia. }
    split; [|by repeat (split; [done|])].
    destruct Hwf'. constructor; simpl; try done. intros _.
    rewrite <- (overlap_all (m_filesize g)) by done.
    destruct (m_gaplist g) as [|[ge gs] [|[ge2 gs2] l]] eqn:Hg.
    + exfalso. apply (covered_nil 0), Hcov. lia.
    + assert (gs = 0 /\ ge = fs - 1) as [-> ->]; [|rewrite Hs; unfold overlap; simpl; lia].
      destruct wf_gl0 as [_ Hok]. inversion Hok as [|? ? Hok1 _]; subst. unfold gap_ok in Hok1.
      simpl in *.
      assert (covered [(ge, gs)] 0) as H0 by (apply Hcov; lia).
      assert (covered [(ge, gs)] (m_filesize g - 1)) as H9 by (apply Hcov; lia).
      apply covered_cons in H0 as [H0|?%covered_nil]; [|done].
      apply covered_cons in H9 as [H9|?%covered_nil]; [|done]. simpl in *. lia.
    + exfalso. pose proof wf_gl0 as (_ & Hap & Hok)%wf_gaps_cons.
      assert (~ covered ((ge, gs) :: (ge2, gs2) :: l) (ge + 1)) as Hn.
      { intros [Hc1|Hc1]%covered_cons; [simpl in Hc1; lia|].
        pose proof (covered_after _ _ _ Hap Hc1). simpl in *. lia. }
      apply Hn, Hcov. inversion Hap; subst. pose proof wf_gl0 as [_ Hoks].
      inversion Hoks as [|? ? Hok1 Hoks']; subst. inversion Hoks'; subst. gap_lia.
  - pose proof (init_state_wf fs complete Hf ltac:(done)) as Hwf. eexists. split; [done|].
    split; [by destruct Hwf; constructor|]. repeat (split; [done|]). intros x. simpl.
    split; [intros []%covered_nil|intros [? _]; done].
Qed.

(** The per-part sizes add up to the total. *)
Lemma parts_overlap_sum g n :
  wf_gaplist g -> 1 <= Z.of_nat n <= m_iPartCount g ->
  sumZ ((fun p => GetGapSizePart g (Z.of_nat p)) <$> seq 0 n) =
  overlap 0 (part_end (m_filesize g) (Z.of_nat n - 1)) (m_gaplist g).
Proof.
  intros Hwf. pose proof Hwf as []. unfold PARTSIZE in *.
  induction n as [|n IH]; intros Hn; [lia|].
  rewrite seq_S, fmap_app, sumZ_app. csimpl. rewrite Z.add_0_r, GetGapSizePart_spec by (done || lia).
  replace (Z.of_nat (S n) - 1) with (Z.of_nat n) by lia.
  destruct (Z.eq_dec (Z.of_nat n) 0) as [Hz|Hnz].
  - assert (n = 0%nat) as -> by lia. done.
  - rewrite IH by lia.
    rewrite <- (overlap_split (m_filesize g) 0 (part_end (m_filesize g) (Z.of_nat n - 1))
      (part_end (m_filesize g) (Z.of_nat n)))
      by (done || (unfold part_end, PARTSIZE; lia)).
    f_equal. f_equal. unfold part_start, part_end, PARTSIZE. lia.
Qed.

Lemma parts_sum_total g :
  wf_gaplist g ->
  sumZ ((fun p => GetGapSizePart g (Z.of_nat p)) <$> seq 0 (Z.to_nat (m_iPartCount g))) =
  (GetGapSizeTotal g).1.
Proof.
  intros Hwf. pose proof Hwf as []. destruct (GetGapSizeTotal_spec g Hwf) as [-> _].
  rewrite parts_overlap_sum by (done || lia). rewrite <- (overlap_all (m_filesize g)) by done.
  f_equal. unfold part_end, PARTSIZE in *. lia.
Qed.

Lemma covered_none fs l : wf_gaps fs l -> (forall x, ~ covered l x) -> l = [].
Proof.
  destruct l as [|e l]; [done|]. intros (_ & _ & Hok)%wf_gaps_cons Hn. exfalso.
  apply (Hn e.2), covered_cons. left. unfold gap_ok in Hok. lia.
Qed.

(** ** The abstract file: the set of missing bytes *)

Inductive gap_op :=
| OpAdd (a b : Z) | OpFill (a b : Z) | OpAddPart (p : Z) | OpFillPart (p : Z)
| OpQueryPart (p : Z) | OpQueryTotal.

Definition gap_exec (g : CGapList) (op : gap_op) : option CGapList :=
  match op with
  | OpAdd a b => AddGap g a b
  | OpFill a b => FillGap g a b
  | OpAddPart p => AddGapPart g p
  | OpFillPart p => FillGapPart g p
  | OpQueryPart p => Some (IsCompletePart g p).2
  | OpQueryTotal => Some (GetGapSizeTotal g).2
  end.

Fixpoint gap_run (g : CGapList) (ops : list gap_op) : option CGapList :=
  match ops with [] => Some g | op :: ops => g' ← gap_exec g op; gap_run g' ops end.

(** Arguments the callers pass: ranges that start inside the file, existing parts. *)
Definition gap_op_ok (fs : Z) (op : gap_op) : Prop :=
  match op with
  | OpAdd a b | OpFill a b => 0 <= a <= b /\ a < fs
  | OpAddPart p | OpFillPart p | OpQueryPart p => 0 <= p < (init_parts fs).1
  | OpQueryTotal => True
  end.

(** Whether byte [x] is missing after [op], given whether it was before. *)
Definition missing_after (fs : Z) (op : gap_op) (missing : Prop) (x : Z) : Prop :=
  match op with
  | OpAdd a b => missing \/ a <= x <= Z.min b (fs - 1)
  | OpFill a b => missing /\ ~ (a <= x <= Z.min b (fs - 1))
  | OpAddPart p => missing \/ part_start p <= x <= part_end fs p
  | OpFillPart p => missing /\ ~ (part_start p <= x <= part_end fs p)
  | OpQueryPart _ | OpQueryTotal => missing
  end.

Fixpoint missing_run (fs : Z) (ops : list gap_op) (missing : Prop) (x : Z) : Prop :=
  match ops with
  | [] => missing
  | op :: ops => missing_run fs ops (missing_after fs op missing x) x
  end.

#[export] Instance missing_after_proper fs op :
  Proper (iff ==> eq ==> iff) (missing_after fs op).
Proof. intros P Q HPQ x ? <-. destruct op; simpl; tauto. Qed.

#[export] Instance missing_run_proper fs ops :
  Proper (iff ==> eq ==> iff) (missing_run fs ops).
Proof.
  induction ops as [|op ops IH]; intros P Q HPQ x ? <-; simpl; [done|].
  apply IH; [|done]. by rewrite HPQ.
Qed.

(** The file the list describes does not change under the operations. *)
Definition same_file (fs : Z) (g : CGapList) : Prop :=
  wf_gaplist g /\ m_filesize g = fs /\ m_iPartCount g = (init_parts fs).1.

Lemma wf_count_init g : wf_gaplist g -> m_iPartCount g = (init_parts (m_filesize g)).1.
Proof. intros []. unfold init_parts, PARTSIZE in *. case_cmp; simpl; lia. Qed.

Lemma AddGapPart_size g p g' : AddGapPart g p = Some g' -> m_filesize g' = m_filesize g.
Proof.
  unfold AddGapPart, AddGap. repeat case_match; intros H'; simplify_option_eq;
    repeat case_match; simplify_eq; by simplify_option_eq.
Qed.

Lemma FillGapPart_size g p g' : FillGapPart g p = Some g' -> m_filesize g' = m_filesize g.
Proof.
  unfold FillGapPart, FillGap. repeat case_match; intros H'; simplify_option_eq;
    repeat case_match; simplify_eq; by simplify_option_eq.
Qed.

Lemma gap_exec_spec fs g op :
  wf_gaplist g -> m_filesize g = fs -> gap_op_ok fs op ->
  exists g', gap_exec g op = Some g' /\ wf_gaplist g' /\ m_filesize g' = fs /\
    forall x, covered (m_gaplist g') x <-> missing_after fs op (covered (m_gaplist g) x) x.
Proof.
  intros Hwf <- Hok. pose proof (wf_count_init g Hwf) as Hcnt.
  destruct op; simpl in *; try rewrite <- Hcnt in Hok.
  - destruct (AddGap_spec g a b) as (g' & ? & ? & ? & _ & _ & ?); [tauto..|]. by exists g'.
  - destruct (FillGap_spec g a b) as (g' & ? & ? & ? & _ & _ & ?); [tauto..|]. by exists g'.
  - destruct (AddGapPart_spec g p Hwf Hok) as (g' & Heq & ? & ?).
    exists g'. by rewrite (AddGapPart_size _ _ _ Heq).
  - destruct (FillGapPart_spec g p Hwf Hok) as (g' & Heq & ? & ?).
    exists g'. by rewrite (FillGapPart_size _ _ _ Heq).
  - destruct (IsCompletePart_spec g p Hwf Hok) as (? & Hl & _).
    eexists. split; [done|]. split; [done|]. split; [|intros x; by rewrite Hl].
    unfold IsCompletePart. by repeat case_match.
  - destruct (GetGapSizeTotal_spec g Hwf) as (_ & ? & Hl).
    eexists. split; [done|]. split; [done|]. split; [|intros x; by rewrite Hl].
    unfold GetGapSizeTotal. by case_match.
Qed.

Lemma gap_run_spec fs ops : forall g,
  wf_gaplist g -> m_filesize g = fs -> Forall (gap_op_ok fs) ops ->
  exists g', gap_run g ops = Some g' /\ wf_gaplist g' /\ m_filesize g' = fs /\
    forall x, covered (m_gaplist g') x <-> missing_run fs ops (covered (m_gaplist g) x) x.
Proof.
  induction ops as [|op ops IH]; intros g Hwf Hfs Hops; simpl; [by exists g|].
  inversion Hops as [|? ? Hop Hops']; subst.
  destruct (gap_exec_spec _ g op Hwf eq_refl Hop) as (g1 & -> & Hwf1 & Hfs1 & Hx1). simpl.
  destruct (IH g1 Hwf1 Hfs1 Hops') as (g2 & -> & Hwf2 & Hfs2 & Hx2).
  exists g2. repeat (split; [done|]). intros x. by rewrite Hx2, Hx1.
Qed.

(** ** Properties *)

(** C14: refinement of the abstract file.  From [Init], any sequence of gap operations with
    in-file arguments runs to the end without writing outside the part cache, leaves a well
    formed list (sorted, apart, inside the file, caches truthful), and the bytes its gaps
    cover are exactly the set of missing bytes that the same operations give on plain sets. *)
Theorem gaplist_refines_byte_set (fs : Z) (isEmpty : bool) (ops : list gap_op)
  (Hfs : file_ok fs) (Hops : Forall (gap_op_ok fs) ops) :
  exists g0 g, Init fs isEmpty = Some g0 /\ gap_run g0 ops = Some g /\
    wf_gaplist g /\ m_filesize g = fs /\
    forall x, covered (m_gaplist g) x <->
              missing_run fs ops (isEmpty = true /\ 0 <= x < fs) x.
Proof.
  destruct (Init_spec fs isEmpty Hfs) as (g0 & HI & Hwf & Hf & _ & _ & Hx).
  destruct (gap_run_spec fs ops g0 Hwf Hf Hops) as (g & Hr & Hwf' & Hf' & Hx').
  exists g0, g. repeat (split; [done|]). intros x. by rewrite Hx', Hx.
Qed.

Lemma gaplist_refines_witness :
  file_ok 20000000 /\ exists g0 g, Init 20000000 true = Some g0 /\
    gap_run g0 [OpFill 100 9999999; OpAdd 500 600; OpQueryPart 0; OpFillPart 2] = Some g /\
    wf_gaplist g /\ m_filesize g = 20000000 /\
    forall x, covered (m_gaplist g) x <->
      missing_run 20000000 [OpFill 100 9999999; OpAdd 500 600; OpQueryPart 0; OpFillPart 2]
        (true = true /\ 0 <= x < 20000000) x.
Proof.
  split; [unfold file_ok, PARTSIZE; lia|].
  apply gaplist_refines_byte_set; [unfold file_ok, PARTSIZE; lia|].
  repeat (constructor; [vm_compute; intuition congruence|]). constructor.
Defined.

(** C15: the queries tell the truth.  On every well-formed list the file is complete iff no
    byte is missing, a range (a part) is complete iff none of its bytes is missing, the cached
    or recomputed total is the number of missing bytes, and the per-part sizes add up to it. *)
Theorem gaplist_queries_truthful (g : CGapList) (Hwf : wf_gaplist g) :
  (IsCompleteFile g = true <-> forall x, ~ covered (m_gaplist g) x) /\
  (forall a b, 0 <= a <= b -> b < m_filesize g ->
     IsCompleteRange g a b = true <-> forall x, a <= x <= b -> ~ covered (m_gaplist g) x) /\
  (forall p, 0 <= p < m_iPartCount g ->
     (IsCompletePart g p).1 = true <->
     forall x, part_start p <= x <= part_end (m_filesize g) p -> ~ covered (m_gaplist g) x) /\
  (GetGapSizeTotal g).1 = gap_total (m_gaplist g) /\
  (forall p, 0 <= p < m_iPartCount g ->
     GetGapSizePart g p = overlap (part_start p) (part_end (m_filesize g) p) (m_gaplist g)) /\
  sumZ ((fun p => GetGapSizePart g (Z.of_nat p)) <$> seq 0 (Z.to_nat (m_iPartCount g))) =
  (GetGapSizeTotal g).1.
Proof.
  split.
  { unfold IsCompleteFile. destruct (m_gaplist g) eqn:Hg.
    - split; [|done]. intros _ x. apply covered_nil.
    - split; [done|]. intros Hn. cut (m_gaplist g = []); [by rewrite Hg|].
      apply (covered_none (m_filesize g)); [apply wf_gl, Hwf|]. by rewrite Hg. }
  split.
  { intros a b Hab Hb. rewrite IsCompleteRange_spec by (done || lia). by rewrite Z.min_l by lia. }
  split; [intros p Hp; by apply IsCompletePart_spec|].
  split; [by apply GetGapSizeTotal_spec|].
  split; [intros p Hp; by apply GetGapSizePart_spec|by apply parts_sum_total].
Qed.

Definition sample_gaplist : CGapList :=
  mkGapList [(99, 0); (9999999, 9000000)] 20000000 3 544000 0 false [unknown; incomplete; complete].

Lemma gaplist_queries_witness :
  (GetGapSizeTotal sample_gaplist).1 = 1000100 /\
  sumZ ((fun p => GetGapSizePart sample_gaplist (Z.of_nat p)) <$> seq 0 3) =
  (GetGapSizeTotal sample_gaplist).1.
Proof.
  split; [reflexivity|]. apply (gaplist_queries_truthful sample_gaplist). constructor; simpl.
  1-5: unfold PARTSIZE; lia.
  - split; repeat (constructor; unfold apart, gap_ok; simpl; try lia).
  - intros [|[|[|p]]] st Hst; simplify_eq/=; [done| | ].
    + exists 9728000. split; [vm_compute; intuition congruence|]. right. left. simpl. lia.
    + intros x Hx Hc. unfold part_start, part_end, PARTSIZE in Hx.
      repeat (apply Exists_cons in Hc as [Hc|Hc]; [simpl in Hc; lia|]). by apply Exists_nil in Hc.
  - done.
Defined.
