(* ===== verification/RangeMap.v ===== *)
(** * Maps of disjoint ranges ([RangeMap.h])

    [CRangeMap<VALUE, KEYTYPE>] keeps non-overlapping inclusive key ranges in a [std::map] from
    the start of a range to its end and value.  The model is generic in the value, its equality
    operator and the width of the unsigned key. *)
From S2P Require Import Prelude StdMap.

Section RangeMap.
Context {V : Type} (veqb : V -> V -> bool) (dflt : V) (w : Z).

(** An entry: start key, then the [HELPER] with the end key [first] and the value [second]. *)
#[local] Abbreviation range := (Z * (Z * V))%type.

(** ** Operations *)

(** [resize]: erases the current entry and inserts it with other bounds, followed by the entries
    behind it. *)
Definition resize (startPos endPos : Z) (cur : range) (it : list range) : list range :=
  minsert startPos (endPos, cur.2.2) it.

(** Position of the iterator: the entries before it and those from it on. *)
Definition get_insert_it (start : Z) (l : list range) : list range * list range :=
  match last l with
  | None => (l, [])
  | Some (k, _) =>
      let '(pre, rest) :=
        if start <=? k then
          if negb (start =? k) then lower_bound start l
          else (removelast l, drop (length l - 1) l)
        else (removelast l, drop (length l - 1) l) in
      if start <=? k then
        match last pre with
        | Some e => (removelast pre, e :: rest)
        | None => (pre, rest)
        end
      else (pre, rest)
  end.

(** The loop of [do_insert] and the insertion after it.  [pre] holds the entries before the
    iterator; the result is the map and the start key of the entry the returned iterator is at. *)
Fixpoint do_insert_loop (merge : bool) (v : V) (start efirst : Z) (pre rest : list range) :
  list range * Z :=
  match rest with
  | [] => (minsert start (efirst, v) pre, start)
  | (cs, (ce, cv)) :: it =>
      if start <=? cs then
        if (efirst <? wrap w (cs - 1)) && negb (cs =? 0) then
          (minsert start (efirst, v) (pre ++ rest), start)
        else if (efirst =? wrap w (cs - 1)) && negb (cs =? 0) then
          if merge && veqb v cv
          then (minsert start (ce, v) (pre ++ it), start)
          else (minsert start (efirst, v) (pre ++ rest), start)
        else if efirst <? ce then
          if merge && veqb v cv
          then (minsert start (ce, v) (pre ++ it), start)
          else (minsert start (efirst, v)
                  (pre ++ resize (wrap w (efirst + 1)) ce (cs, (ce, cv)) it), start)
        else do_insert_loop merge v start efirst pre it
      else if start <=? ce then
        if efirst <? ce then
          if merge && veqb v cv then (pre ++ rest, cs)
          else (minsert start (efirst, v)
                  (pre ++ (cs, (wrap w (start - 1), cv)) :: minsert (wrap w (efirst + 1)) (ce, cv) it),
                start)
        else if merge && veqb v cv then do_insert_loop merge v cs efirst pre it
        else do_insert_loop merge v start efirst
               (pre ++ resize cs (wrap w (start - 1)) (cs, (ce, cv)) []) it
      else if start =? wrap w (ce + 1) then
        if merge && veqb v cv then do_insert_loop merge v cs efirst pre it
        else do_insert_loop merge v start efirst (pre ++ [(cs, (ce, cv))]) it
      else do_insert_loop merge v start efirst (pre ++ [(cs, (ce, cv))]) it
  end.

(** [None] is the assertion failure on an inverted range. *)
Definition do_insert (start efirst : Z) (v : V) (merge : bool) (l : list range) :
  option (list range * Z) :=
  if start <=? efirst then
    let '(pre, rest) := get_insert_it start l in
    Some (do_insert_loop merge v start efirst pre rest)
  else None.

Definition insert (startPos endPos : Z) (v : V) (l : list range) : option (list range * Z) :=
  do_insert startPos endPos v true l.

Definition erase_range (startPos endPos : Z) (l : list range) : option (list range) :=
  '(l', k) ← do_insert startPos endPos dflt false l; Some (merase k l').

Definition find_range (key : Z) (l : list range) : option range :=
  match l with
  | [] => None
  | _ =>
      match last (upper_bound key l).1 with
      | Some it => if key <=? it.2.1 then Some it else None
      | None => None
      end
  end.

(** [std::map]'s [==] on pairs of the key and a [HELPER], whose [==] compares only [second]. *)
Fixpoint ranges_eqb (l1 l2 : list range) : bool :=
  match l1, l2 with
  | [], [] => true
  | (k1, (_, v1)) :: t1, (k2, (_, v2)) :: t2 => (k1 =? k2) && veqb v1 v2 && ranges_eqb t1 t2
  | _, _ => false
  end.

Definition rangemap_eqb (l1 l2 : list range) : bool :=
  if negb (Nat.eqb (length l1) (length l2)) then false else ranges_eqb l1 l2.

(** ** What the map means *)

(** Key [x] lies in a range with value [u]. *)
Definition has (l : list range) (x : Z) (u : V) : Prop :=
  Exists (fun e => e.1 <= x <= e.2.1 /\ e.2.2 = u) l.

Definition before (a b : range) : Prop := a.2.1 < b.1.

Definition range_ok (e : range) : Prop := 0 <= e.1 <= e.2.1 /\ e.2.1 < 2 ^ w.

Definition wf_ranges (l : list range) : Prop := StronglySorted before l /\ Forall range_ok l.

(** ** Lemmas *)

Lemma has_app l1 l2 x u : has (l1 ++ l2) x u <-> has l1 x u \/ has l2 x u.
Proof. apply Exists_app. Qed.

Lemma has_cons e l x u : has (e :: l) x u <-> (e.1 <= x <= e.2.1 /\ e.2.2 = u) \/ has l x u.
Proof. apply Exists_cons. Qed.

Lemma has_nil x u : ~ has [] x u.
Proof. by intros ?%Exists_nil. Qed.

Lemma has_nil_iff x u : has [] x u <-> False.
Proof. split; [apply has_nil|done]. Qed.

Lemma wf_ranges_app l1 l2 :
  wf_ranges (l1 ++ l2) <->
  wf_ranges l1 /\ wf_ranges l2 /\ Forall (fun a => Forall (before a) l2) l1.
Proof. unfold wf_ranges. rewrite StronglySorted_app_iff, Forall_app. tauto. Qed.

Lemma wf_ranges_cons e l :
  wf_ranges (e :: l) <-> wf_ranges l /\ Forall (before e) l /\ range_ok e.
Proof.
  unfold wf_ranges. rewrite Forall_cons. split.
  - intros [Hs [? ?]]. inversion Hs; subst. tauto.
  - intros ([? ?] & ? & ?). split; [by constructor|done].
Qed.

Lemma wf_ranges_nil : wf_ranges [].
Proof. split; constructor. Qed.

Ltac rng := unfold before, range_ok in *; simpl in *; try lia.

Lemma wf_ranges_msorted l : wf_ranges l -> msorted l.
Proof.
  intros [Hs Hok]. induction Hs as [|e l Hs IH Hb]; [constructor|].
  inversion Hok as [|? ? Hok1 Hok']; subst. constructor; [by apply IH|].
  rewrite Forall_forall in *. intros e' He'. unfold klt. simpl. apply Z.ltb_lt.
  specialize (Hb _ He'). rng.
Qed.

Lemma has_before e l x u : Forall (fun a => before a e) l -> has l x u -> x < e.1.
Proof.
  intros Hl Hh. apply Exists_exists in Hh as (a & Ha & ? & _). rewrite Forall_forall in Hl.
  specialize (Hl _ Ha). rng.
Qed.

Lemma has_after e l x u : Forall (before e) l -> has l x u -> e.2.1 < x.
Proof.
  intros Hl Hh. apply Exists_exists in Hh as (a & Ha & ? & _). rewrite Forall_forall in Hl.
  specialize (Hl _ Ha). rng.
Qed.

(** The final insertion, between the entries that end before it and those that start behind. *)
Lemma place_spec s e v pre tail :
  wf_ranges (pre ++ tail) -> 0 <= s <= e -> e < 2 ^ w ->
  Forall (fun a => a.2.1 < s) pre -> Forall (fun a => e < a.1) tail ->
  minsert s (e, v) (pre ++ tail) = pre ++ (s, (e, v)) :: tail /\
  wf_ranges (pre ++ (s, (e, v)) :: tail).
Proof.
  intros (Hwp & Hwt & Hc)%wf_ranges_app Hse He Hpre Htail. split.
  - apply minsert_between.
    + destruct Hwp as [_ Hok]. rewrite Forall_forall in *. intros a Ha.
      specialize (Hpre a Ha). specialize (Hok a Ha). rng.
    + eapply Forall_impl; [exact Htail|]. intros a Ha. rng.
  - apply wf_ranges_app. split; [done|]. split.
    + apply wf_ranges_cons. split; [done|]. split; [|rng].
      eapply Forall_impl; [exact Htail|]. intros a Ha. rng.
    + rewrite Forall_forall in *. intros a Ha. constructor; [|by apply Hc].
      specialize (Hpre a Ha). rng.
Qed.

Lemma wf_drop_head pre e it : wf_ranges (pre ++ e :: it) -> wf_ranges (pre ++ it).
Proof.
  intros (Hp & (Hr & _ & _)%wf_ranges_cons & Hc)%wf_ranges_app.
  apply wf_ranges_app. split; [done|]. split; [done|].
  eapply Forall_impl; [exact Hc|]. intros a Hall. by inversion Hall.
Qed.

(** Replacing the entry at the iterator by a sub-range keeps the map well formed. *)
Lemma wf_shrink pre e e' it :
  wf_ranges (pre ++ e :: it) -> e.1 <= e'.1 -> e'.1 <= e'.2.1 -> e'.2.1 <= e.2.1 ->
  wf_ranges (pre ++ e' :: it).
Proof.
  intros (Hp & (Hr & Ha & Ho)%wf_ranges_cons & Hc)%wf_ranges_app H1 H2 H3.
  apply wf_ranges_app. split; [done|]. split.
  - apply wf_ranges_cons. split; [done|]. split; [|rng].
    eapply Forall_impl; [exact Ha|]. intros a Hb. rng.
  - eapply Forall_impl; [exact Hc|]. intros a Hall. inversion Hall; subst.
    constructor; [rng|done].
Qed.

(** Two disjoint sub-ranges in its place. *)
Lemma wf_split pre e e1 e2 it :
  wf_ranges (pre ++ e :: it) -> e.1 <= e1.1 -> e1.1 <= e1.2.1 -> e1.2.1 < e2.1 ->
  e2.1 <= e2.2.1 -> e2.2.1 <= e.2.1 -> wf_ranges (pre ++ e1 :: e2 :: it).
Proof.
  intros Hwf H1 H2 H3 H4 H5.
  pose proof (wf_shrink pre e e2 it Hwf ltac:(lia) H4 H5) as Hw2.
  pose proof (wf_shrink pre e e1 it Hwf H1 H2 ltac:(lia)) as Hw1.
  apply wf_ranges_app in Hw2 as (Hp & Hw2 & Hc2). apply wf_ranges_app in Hw1 as (_ & Hw1 & Hc1).
  apply wf_ranges_app. split; [done|]. split.
  - apply wf_ranges_cons. split; [done|]. apply wf_ranges_cons in Hw1 as (_ & Ha & Ho).
    split; [|done]. constructor; [rng|done].
  - rewrite Forall_forall in *. intros a Ha. specialize (Hc1 a Ha). specialize (Hc2 a Ha).
    inversion Hc1; subst. by constructor.
Qed.

(** What an insertion promises: the new map covers the range with the value and everything else
    as before, and the returned iterator is at an entry that covers the range. *)
Definition inserted (merge : bool) (l : list range) (s e : Z) (v : V) (r : list range * Z) : Prop :=
  wf_ranges r.1 /\
  (forall x u, has r.1 x u <-> (s <= x <= e /\ v = u) \/ (~ (s <= x <= e) /\ has l x u)) /\
  exists k2, In (r.2, (k2, v)) r.1 /\ r.2 <= s /\ e <= k2 /\
             (merge = false -> r.2 = s /\ k2 = e).

Lemma In_middle (a : range) l1 l2 : In a (l1 ++ a :: l2).
Proof. apply in_or_app. right. by left. Qed.

Hypothesis Hw : 0 < w.
Hypothesis Heqb : forall a b, veqb a b = true <-> a = b.

Lemma ends_before_has s pre x u : Forall (fun a : range => a.2.1 < s) pre -> has pre x u -> x < s.
Proof.
  intros Hp Hh. apply Exists_exists in Hh as (a & Ha & ? & _). rewrite Forall_forall in Hp.
  specialize (Hp _ Ha). rng.
Qed.

Lemma starts_after_has e tail x u : Forall (fun a : range => e < a.1) tail -> has tail x u -> e < x.
Proof.
  intros Hp Hh. apply Exists_exists in Hh as (a & Ha & ? & _). rewrite Forall_forall in Hp.
  specialize (Hp _ Ha). rng.
Qed.

(** A final insertion between entries that lie on the two sides of the range. *)
Lemma inserted_place merge l s e s0 e0 v pre tail :
  wf_ranges (pre ++ tail) -> 0 <= s <= e -> e < 2 ^ w -> s <= s0 -> e0 <= e ->
  (merge = false -> s = s0 /\ e = e0) ->
  Forall (fun a => a.2.1 < s) pre -> Forall (fun a => e < a.1) tail ->
  (forall x u, has l x u ->
     has pre x u \/ has tail x u \/ (s <= x <= e /\ (v = u \/ s0 <= x <= e0))) ->
  (forall x u, has pre x u \/ has tail x u -> has l x u) ->
  (forall x, s <= x <= e -> s0 <= x <= e0 \/ has l x v) ->
  inserted merge l s0 e0 v (minsert s (e, v) (pre ++ tail), s).
Proof.
  intros Hwf Hse He Hs0 He0 Hm Hpre Htail Hfrom Hto Hfill.
  pose proof (fun x u => ends_before_has s pre x u Hpre) as Hlp.
  pose proof (fun x u => starts_after_has e tail x u Htail) as Hlt.
  destruct (place_spec s e v pre tail) as [-> Hwf']; [done..|].
  split; [done|]. split.
  - intros x u. simpl. rewrite has_app, has_cons. simpl. split.
    + intros [Hp|[[Hx <-]|Ht]].
      * right. split; [specialize (Hlp _ _ Hp); lia|]. apply Hto. by left.
      * destruct (decide (s0 <= x <= e0)); [by left|right]. split; [done|].
        destruct (Hfill x Hx); [done|done].
      * right. split; [specialize (Hlt _ _ Ht); lia|]. apply Hto. by right.
    + intros [[Hx <-]|[Hx Hl]]; [right; left; split; [lia|done]|].
      destruct (Hfrom _ _ Hl) as [?|[?|[? [->|?]]]]; [tauto|tauto| |done].
      right. left. split; [done|done].
  - exists e. split; [apply In_middle|]. split; [done|]. split; [done|]. intros Hmf.
    by destruct (Hm Hmf) as [-> ->].
Qed.

(** Prepend to the loop's result what an erased equal neighbour contributed. *)
Lemma inserted_extend l l0 s e s0 e0 v r merge :
  inserted merge l s e v r -> s <= s0 -> e0 <= e ->
  (merge = false -> s = s0 /\ e = e0) ->
  (forall x u, ~ (s0 <= x <= e0) ->
     (has l0 x u <-> (s <= x <= e /\ v = u) \/ (~ (s <= x <= e) /\ has l x u))) ->
  inserted merge l0 s0 e0 v r.
Proof.
  intros (Hwf & Hh & k2 & Hin & Hk1 & Hk2 & Hm') Hs He Hm Heq.
  split; [done|]. split.
  - intros x u. rewrite Hh. destruct (decide (s0 <= x <= e0)) as [Hx|Hx].
    + intuition lia.
    + rewrite (Heq x u Hx). tauto.
  - exists k2. split; [done|]. split; [lia|]. split; [lia|]. intros Hmf.
    destruct (Hm Hmf) as [-> ->]. by apply Hm'.
Qed.

Lemma wrap_succ z : 0 <= z -> z + 1 < 2 ^ w -> wrap w (z + 1) = z + 1.
Proof. intros. apply wrap_small. unfold in_width. lia. Qed.

Lemma wrap_pred z : 1 <= z -> z < 2 ^ w -> wrap w (z - 1) = z - 1.
Proof. intros. apply wrap_small. unfold in_width. lia. Qed.

Ltac points :=
  repeat match goal with
  | H : Forall _ _ |- _ => clear H
  | H : wf_ranges _ |- _ => clear H
  | H : _ -> _ = _ :> list _ |- _ => clear H
  | H : forall (s e : Z) (pre : list range), _ |- _ => clear H
  end;
  intros; simpl in *; rewrite ?has_app, ?has_cons, ?has_nil_iff in *; simpl in *;
  repeat match goal with
  | H : forall (x : Z) (u : V), has _ _ _ -> _, x : Z |- _ =>
      match goal with u : V |- _ => pose proof (H x u); clear H end
  end; intuition (subst; lia || tauto || auto).

Ltac place :=
  solve [ done | lia | by constructor
        | constructor; [rng | eapply Forall_impl; [eassumption|]; intros; rng]
        | eapply Forall_impl; [eassumption|]; intros; rng
        | points
        | match goal with
          | Hse : 0 <= ?s <= ?e |- forall x u, _ =>
              let x := fresh "x" in let u := fresh "u" in
              intros x u; destruct (Z_le_gt_dec x e), (Z_le_gt_dec s x); points
          end
        | match goal with
          | |- forall x, _ -> (?a <= x <= ?b) \/ has _ x _ =>
              intros x ?; destruct (decide (a <= x <= b)); [by left|right];
              rewrite !has_app, !has_cons; simpl; right; left; split; [lia|done]
          end ].

Lemma do_insert_loop_spec merge v rest : forall s e pre,
  0 <= s <= e -> e < 2 ^ w -> wf_ranges (pre ++ rest) ->
  Forall (fun a => a.2.1 < s) pre ->
  inserted merge (pre ++ rest) s e v (do_insert_loop merge v s e pre rest).
Proof.
  induction rest as [|[cs [ce cv]] it IH]; intros s e pre Hse He Hwf Hpre; simpl.
  - rewrite <- (app_nil_r pre) at 2. apply inserted_place; solve [done | by constructor | points].
  - pose proof Hwf as (Hwp & Hwr & Hcross)%wf_ranges_app.
    pose proof Hwr as (Hwr' & Haft & Hok)%wf_ranges_cons.
    assert (Forall (fun a => before a (cs, (ce, cv))) pre) as Hbef.
    { eapply Forall_impl; [exact Hcross|]. intros a Ha. by inversion Ha. }
    pose proof (fun x u => has_before _ _ x u Hbef) as Hb.
    pose proof (fun x u => has_after _ _ x u Haft) as Ha.
    pose proof (fun x u => ends_before_has s _ x u Hpre) as Hb'.
    pose proof (wf_drop_head _ _ _ Hwf) as Hwf'.
    assert (Forall (fun a : range => ce < a.1) it) as Hnext.
    { eapply Forall_impl; [exact Haft|]. intros. rng. }
    unfold range_ok in Hok. simpl in Hok. simpl in Hb, Ha.
    assert (cs <> 0 -> wrap w (cs - 1) = cs - 1) as Hpred by (intros; apply wrap_pred; lia).
    assert (e < ce -> minsert (e + 1) (ce, cv) it = (e + 1, (ce, cv)) :: it) as Hmi.
    { intros. apply (minsert_between []); [constructor|].
      eapply Forall_impl; [exact Hnext|]. intros; rng. }
    destruct (Z.leb_spec s cs) as [Hs|Hs].
    + destruct ((e <? wrap w (cs - 1)) && negb (cs =? 0)) eqn:H1;
        [|destruct ((e =? wrap w (cs - 1)) && negb (cs =? 0)) eqn:H2;
          [|destruct (Z.ltb_spec e ce) as [H3|H3]]].
      * apply andb_prop in H1 as [H1 H0]. apply negb_true_iff, Z.eqb_neq in H0.
        rewrite Hpred in H1 by done. apply Z.ltb_lt in H1.
        apply inserted_place; place.
      * apply andb_prop in H2 as [H2 H0]. apply negb_true_iff, Z.eqb_neq in H0.
        rewrite Hpred in H2 by done. apply Z.eqb_eq in H2.
        destruct (merge && veqb v cv) eqn:Hm.
        -- apply andb_prop in Hm as [-> <-%Heqb].
           apply inserted_place; place.
        -- apply inserted_place; place.
      * assert (cs <= e).
        { apply andb_false_iff in H1, H2. destruct (Z.eq_dec cs 0); [lia|].
          rewrite Hpred in H1, H2 by done. rewrite negb_false_iff, Z.eqb_eq in H1, H2.
          rewrite Z.ltb_ge in H1. rewrite Z.eqb_neq in H2. lia. }
        clear H1 H2. destruct (merge && veqb v cv) eqn:Hm.
        -- apply andb_prop in Hm as [-> <-%Heqb].
           apply inserted_place; place.
        -- unfold resize. simpl. rewrite wrap_succ by lia.
           rewrite Hmi by done.
           apply inserted_place; try place.
           apply (wf_shrink pre (cs, (ce, cv))); simpl; done || lia.
      * assert (cs <= e).
        { apply andb_false_iff in H1, H2. destruct (Z.eq_dec cs 0); [lia|].
          rewrite Hpred in H1, H2 by done. rewrite negb_false_iff, Z.eqb_eq in H1, H2.
          rewrite Z.ltb_ge in H1. rewrite Z.eqb_neq in H2. lia. }
        clear H1 H2. eapply inserted_extend; [by apply IH|lia|lia|done|]. place.
    + destruct (Z.leb_spec s ce) as [H1|H1].
      * destruct (Z.ltb_spec e ce) as [H2|H2]; [destruct (merge && veqb v cv) eqn:Hm|
          destruct (merge && veqb v cv) eqn:Hm].
        -- apply andb_prop in Hm as [-> <-%Heqb]. split; [done|]. split.
           ++ intros x u. clear Hmi Hpred.
              destruct (Z_le_gt_dec s x), (Z_le_gt_dec x e), (Z_le_gt_dec cs x), (Z_le_gt_dec x ce);
                points.
           ++ exists ce. split; [apply In_middle|]. split; [simpl; lia|]. split; [lia|done].
        -- rewrite wrap_succ, wrap_pred by lia.
           rewrite Hmi by done.
           replace (pre ++ (cs, (s - 1, cv)) :: (e + 1, (ce, cv)) :: it) with
             ((pre ++ [(cs, (s - 1, cv))]) ++ (e + 1, (ce, cv)) :: it)
             by (by rewrite <- app_assoc).
           apply inserted_place; try place.
           ++ rewrite <- app_assoc. apply (wf_split pre (cs, (ce, cv))); simpl; done || lia.
           ++ apply Forall_app. split; [done|]. constructor; [rng|constructor].
        -- apply andb_prop in Hm as [-> <-%Heqb].
           eapply inserted_extend; [apply IH; [lia|lia|done|] |lia|lia|done|].
           ++ eapply Forall_impl; [exact Hbef|]. intros; rng.
           ++ place.
        -- rewrite wrap_pred by lia. unfold resize. simpl.
           eapply inserted_extend; [apply IH; [done|done| |]|lia|lia|done|].
           ++ rewrite <- app_assoc. apply (wf_shrink pre (cs, (ce, cv))); simpl; done || lia.
           ++ apply Forall_app. split; [done|]. constructor; [rng|constructor].
           ++ place.
      * assert (Forall (fun a => a.2.1 < s) (pre ++ [(cs, (ce, cv))])) as Hpre'.
        { apply Forall_app. split; [done|]. constructor; [rng|constructor]. }
        assert (inserted merge (pre ++ (cs, (ce, cv)) :: it) s e v
                  (do_insert_loop merge v s e (pre ++ [(cs, (ce, cv))]) it)) as Hskip.
        { pose proof (IH s e (pre ++ [(cs, (ce, cv))])) as H. rewrite <- app_assoc in H.
          by apply H. }
        destruct (Z.eqb_spec s (wrap w (ce + 1))) as [H2|H2]; [|done].
        destruct (merge && veqb v cv) eqn:Hm; [|done].
        apply andb_prop in Hm as [-> <-%Heqb]. rewrite wrap_succ in H2 by lia.
        eapply inserted_extend; [apply IH; [lia|lia|done|]|lia|lia|done|].
        ++ eapply Forall_impl; [exact Hbef|]. intros; rng.
        ++ place.
Qed.

(** The search starts behind entries that end before the range. *)
Lemma get_insert_it_spec s l pre rest :
  wf_ranges l -> get_insert_it s l = (pre, rest) ->
  l = pre ++ rest /\ Forall (fun a => a.2.1 < s) pre.
Proof.
  intros Hwf. unfold get_insert_it.
  destruct (last l) as [[k h]|] eqn:Hl; cycle 1.
  { apply last_None in Hl as ->. intros [= <- <-]. by split. }
  apply last_Some in Hl as [l' ->]. rewrite removelast_last, length_app. simpl.
  replace (length l' + 1 - 1)%nat with (length l') by lia. rewrite drop_app_length.
  assert (forall a p r, l' ++ [(k, h)] = (p ++ [a]) ++ r -> Forall (fun b => b.2.1 < a.1) p) as Hends.
  { intros a p r Heq. rewrite Heq in Hwf. rewrite <- app_assoc in Hwf.
    apply wf_ranges_app in Hwf as (_ & _ & Hc). eapply Forall_impl; [exact Hc|].
    intros b Hb. simpl in Hb. by inversion Hb. }
  assert (forall p r, l' ++ [(k, h)] = p ++ r -> Forall (fun a : range => a.1 < s) p ->
    match last p with Some e => (removelast p, e :: r) | None => (p, r) end = (pre, rest) ->
    l' ++ [(k, h)] = pre ++ rest /\ Forall (fun a => a.2.1 < s) pre) as Hback.
  { intros p r Heq Hlt. destruct (last p) as [e|] eqn:Hlp.
    - apply last_Some in Hlp as [p' ->]. rewrite removelast_last. intros [= <- <-].
      split; [by rewrite Heq, <- app_assoc|].
      apply Hends in Heq. apply Forall_app in Hlt as [_ Hlt]. inversion Hlt; subst.
      eapply Forall_impl; [exact Heq|]. simpl. intros. lia.
    - apply last_None in Hlp as ->. by intros [= <- <-]. }
  destruct (Z.leb_spec s k) as [Hs|Hs].
  - destruct (Z.eqb_spec s k) as [->|Hne]; simpl.
    + apply Hback; [done|]. pose proof (Hends (k, h) l' [] ltac:(by rewrite app_nil_r)) as He.
      apply wf_ranges_app in Hwf as ([_ Hok] & _ & _). rewrite Forall_forall in *.
      intros a Ha. specialize (He a Ha). specialize (Hok a Ha). rng.
    + destruct (lower_bound s (l' ++ [(k, h)])) as [p r] eqn:Hlb.
      apply lower_bound_sorted in Hlb as (Heq & Hp & _); [|by apply wf_ranges_msorted].
      apply Hback; [done|]. eapply Forall_impl; [exact Hp|]. intros a Ha. simpl in Ha.
      by apply Z.ltb_lt in Ha.
  - intros [= <- <-]. split; [done|].
    pose proof (Hends (k, h) l' [] ltac:(by rewrite app_nil_r)) as He.
    eapply Forall_impl; [exact He|]. simpl. intros. lia.
Qed.

Lemma do_insert_spec merge v s e l :
  wf_ranges l -> 0 <= s <= e -> e < 2 ^ w ->
  exists r, do_insert s e v merge l = Some r /\ inserted merge l s e v r.
Proof.
  intros Hwf Hse He. unfold do_insert. rewrite (proj2 (Z.leb_le s e)) by lia.
  destruct (get_insert_it s l) as [pre rest] eqn:Hg.
  apply get_insert_it_spec in Hg as [-> Hpre]; [|done].
  eexists. split; [done|]. by apply do_insert_loop_spec.
Qed.

Lemma wf_merase k l : wf_ranges l -> wf_ranges (merase k l).
Proof.
  induction l as [|[k' h] l IH]; simpl; [done|]. intros (Hwf & Hb & Hok)%wf_ranges_cons.
  repeat case_match; try done; apply wf_ranges_cons; try done.
  split; [by apply IH|]. split; [|done]. rewrite Forall_forall in *. intros a Ha. apply Hb.
  by eapply merase_sub.
Qed.

Lemma has_unique l x u1 u2 : wf_ranges l -> has l x u1 -> has l x u2 -> u1 = u2.
Proof.
  induction l as [|e l IH]; intros Hwf; [by intros []%has_nil|].
  apply wf_ranges_cons in Hwf as (Hwf & Hb & _). rewrite !has_cons.
  intros [[H1 <-]|H1] [[H2 <-]|H2]; [done| | |by apply IH].
  - pose proof (has_after _ _ _ _ Hb H2). lia.
  - pose proof (has_after _ _ _ _ Hb H1). lia.
Qed.

(** [find_range] finds the covering range, or there is none. *)
Lemma find_range_spec key l :
  wf_ranges l ->
  match find_range key l with
  | Some e => In e l /\ e.1 <= key <= e.2.1
  | None => forall u, ~ has l key u
  end.
Proof.
  intros Hwf. unfold find_range. destruct l as [|e0 l0]; [intros u; apply has_nil|].
  remember (e0 :: l0) as l eqn:El. clear El e0 l0. destruct (upper_bound key l) as [pre rest] eqn:Hub.
  apply upper_bound_spec in Hub as (Heq & Hpre & Hrest); [|by apply wf_ranges_msorted].
  simpl. assert (forall u, has rest key u -> False) as Hr.
  { intros u Hh. apply Exists_exists in Hh as (a & Ha & Hx & _). rewrite Forall_forall in Hrest.
    specialize (Hrest a Ha). simpl in Hrest. apply Z.ltb_lt in Hrest. lia. }
  destruct (last pre) as [e|] eqn:Hl.
  - apply last_Some in Hl as [p ->]. apply Forall_app in Hpre as [_ Hpre].
    inversion Hpre as [|? ? He _]; subst. simpl in He. apply Z.ltb_ge in He.
    destruct (Z.leb_spec key e.2.1) as [Hk|Hk].
    + split; [|lia]. rewrite <- app_assoc. apply In_middle.
    + intros u. rewrite <- app_assoc in *. rewrite has_app, has_app.
      apply wf_ranges_app in Hwf as (_ & _ & Hc). simpl in Hc.
      intros [Hh|[Hh|Hh]]; [| |by apply (Hr u)].
      * apply Exists_exists in Hh as (a & Ha & Hx & _). rewrite Forall_forall in Hc.
        specialize (Hc a Ha). inversion Hc; subst. rng.
      * apply has_cons in Hh as [[Hx _]|[]%has_nil]. lia.
  - apply last_None in Hl as ->. simpl in *. subst l. exact Hr.
Qed.

(** The value at a key. *)
Definition value_at (l : list range) (x : Z) : option V := (fun e => e.2.2) <$> find_range x l.

Lemma value_at_has l x u : wf_ranges l -> value_at l x = Some u <-> has l x u.
Proof.
  intros Hwf. unfold value_at. pose proof (find_range_spec x l Hwf) as Hf.
  destruct (find_range x l) as [e|]; simpl.
  - destruct Hf as [Hin Hx]. assert (has l x e.2.2) as Hh.
    { apply Exists_exists. exists e. by rewrite list_elem_of_In. }
    split; [by intros [= <-]|]. intros Hh'. f_equal. by eapply has_unique.
  - split; [done|]. intros Hh. by destruct (Hf u).
Qed.

(** ** The abstract partial map *)

Inductive range_op := RInsert (s e : Z) (v : V) | RErase (s e : Z).

Definition range_exec (l : list range) (op : range_op) : option (list range) :=
  match op with
  | RInsert s e v => fst <$> insert s e v l
  | RErase s e => erase_range s e l
  end.

Fixpoint range_run (l : list range) (ops : list range_op) : option (list range) :=
  match ops with [] => Some l | op :: ops => l' ← range_exec l op; range_run l' ops end.

Definition range_op_ok (op : range_op) : Prop :=
  match op with RInsert s e _ | RErase s e => 0 <= s <= e /\ e < 2 ^ w end.

Definition value_after (op : range_op) (old : option V) (x : Z) : option V :=
  match op with
  | RInsert s e v => if (s <=? x) && (x <=? e) then Some v else old
  | RErase s e => if (s <=? x) && (x <=? e) then None else old
  end.

Fixpoint value_run (ops : list range_op) (old : option V) (x : Z) : option V :=
  match ops with [] => old | op :: ops => value_run ops (value_after op old x) x end.

Lemma value_at_option l x o :
  wf_ranges l -> (forall u, has l x u <-> o = Some u) -> value_at l x = o.
Proof.
  intros Hwf Ho. destruct o as [u|].
  - by apply value_at_has, Ho.
  - destruct (value_at l x) as [u|] eqn:Hv; [|done]. apply value_at_has, Ho in Hv; done.
Qed.

Lemma in_range_dec s e x :
  (s <=? x) && (x <=? e) = true /\ s <= x <= e \/ (s <=? x) && (x <=? e) = false /\ ~ (s <= x <= e).
Proof. destruct (Z.leb_spec s x), (Z.leb_spec x e); simpl; lia. Qed.

Lemma range_exec_spec l op :
  wf_ranges l -> range_op_ok op ->
  exists l', range_exec l op = Some l' /\ wf_ranges l' /\
    forall x, value_at l' x = value_after op (value_at l x) x.
Proof.
  intros Hwf Hok. destruct op as [s e v|s e]; simpl in *; destruct Hok as [Hse He].
  - destruct (do_insert_spec true v s e l Hwf Hse He) as ([l' k] & Hr & Hwf' & Hh & _).
    unfold insert. rewrite Hr. exists l'. split; [done|]. split; [done|]. intros x.
    apply value_at_option; [done|]. intros u. simpl in Hh. rewrite Hh, <- value_at_has by done.
    destruct (in_range_dec s e x) as [[-> ?]|[-> ?]]; intuition congruence.
  - destruct (do_insert_spec false dflt s e l Hwf Hse He)
      as ([l' k] & Hr & Hwf' & Hh & k2 & Hin & Hk1 & Hk2 & Hm).
    unfold erase_range. rewrite Hr. simpl in *. destruct (Hm eq_refl) as [-> ->].
    eexists. split; [done|]. split; [by apply wf_merase|]. intros x.
    apply value_at_option; [by apply wf_merase|]. intros u.
    assert (has (merase s l') x u <-> has l' x u /\ ~ (s <= x <= e)) as ->.
    { apply list_elem_of_In, list_elem_of_split in Hin as (p & r & Hl'). rewrite Hl' in Hwf' |- *.
      pose proof (wf_ranges_msorted _ Hwf') as Hms.
      apply wf_ranges_app in Hwf' as (_ & (_ & Ha & Ho)%wf_ranges_cons & Hc).
      assert (merase s (p ++ (s, (e, dflt)) :: r) = p ++ r) as ->.
      { clear -Hms. induction p as [|[k h] p IH]; simpl in *.
        - by rewrite Z.ltb_irrefl.
        - inversion Hms as [|? ? Hs Hf]; subst. apply Forall_app in Hf as [_ Hf].
          inversion Hf as [|? ? Hlt _]; subst. unfold klt in Hlt. simpl in Hlt.
          apply Z.ltb_lt in Hlt. rewrite (proj2 (Z.ltb_ge s k)), (proj2 (Z.ltb_lt k s)) by lia.
          by rewrite IH. }
      rewrite !has_app, has_cons. simpl.
      assert (has p x u -> x < s).
      { apply (has_before (s, (e, dflt))). eapply Forall_impl; [exact Hc|]. intros a Hall.
        by inversion Hall. }
      pose proof (has_after _ _ x u Ha). simpl in *. intuition lia. }
    rewrite Hh, <- value_at_has by done.
    destruct (in_range_dec s e x) as [[-> ?]|[-> ?]]; intuition congruence.
Qed.

Lemma range_run_spec ops : forall l,
  wf_ranges l -> Forall range_op_ok ops ->
  exists l', range_run l ops = Some l' /\ wf_ranges l' /\
    forall x, value_at l' x = value_run ops (value_at l x) x.
Proof.
  induction ops as [|op ops IH]; intros l Hwf Hops; simpl; [by exists l|].
  inversion Hops as [|? ? Hop Hops']; subst.
  destruct (range_exec_spec l op Hwf Hop) as (l1 & -> & Hwf1 & Hv1). simpl.
  destruct (IH l1 Hwf1 Hops') as (l2 & -> & Hwf2 & Hv2).
  exists l2. repeat (split; [done|]). intros x. by rewrite Hv2, Hv1.
Qed.
End RangeMap.

(** ** Properties *)

(** C21: Refinement of a partial map.  From the empty map, any sequence of insertions and range
    erasures of non-inverted ranges succeeds, keeps the stored ranges sorted and disjoint, and
    [find_range] at any key finds a range that covers the key with the value of the last
    operation that touched the key, or nothing if that was an erasure or there was none. *)
Theorem rangemap_refines_partial_map {V : Type} (veqb : V -> V -> bool) (dflt : V) (w : Z)
  (ops : list (range_op (V := V))) (Hw : 0 < w) (Heqb : forall a b, veqb a b = true <-> a = b)
  (Hops : Forall (range_op_ok w) ops) :
  exists l, range_run veqb dflt w [] ops = Some l /\ wf_ranges w l /\
    (forall x, value_at l x = value_run ops None x) /\
    (forall x e, find_range x l = Some e -> e.1 <= x <= e.2.1).
Proof.
  destruct (range_run_spec veqb dflt w Hw Heqb ops [] (wf_ranges_nil w) Hops)
    as (l & Hr & Hwf & Hv).
  exists l. split; [done|]. split; [done|]. split; [done|]. intros x e He.
  pose proof (find_range_spec veqb dflt w x l Hwf) as Hf. rewrite He in Hf. tauto.
Qed.

Lemma rangemap_refines_witness :
  exists l, range_run Z.eqb 0 64 [] [RInsert 0 99 1; RInsert 50 60 2; RErase 10 20; RInsert 61 70 2]
    = Some l /\ wf_ranges 64 l /\
    (forall x, value_at l x =
       value_run [RInsert 0 99 1; RInsert 50 60 2; RErase 10 20; RInsert 61 70 2] None x) /\
    (forall x e, find_range x l = Some e -> e.1 <= x <= e.2.1).
Proof.
  apply rangemap_refines_partial_map; [lia|apply Z.eqb_eq|].
  repeat (constructor; [vm_compute; intuition congruence|]). constructor.
Defined.

(** [operator==] of two maps compares the starts and the values but not the ends of the
    ranges, so maps that answer differently can compare equal. *)
Lemma rangemap_eqb_ignores_ends :
  rangemap_eqb Z.eqb [(0, (9, 7))] [(0, (99, 7))] = true /\
  value_at [(0, (9, 7))] 50 = None /\ value_at [(0, (99, 7))] 50 = Some 7.
Proof. done. Qed.
