(* ===== verification/IPFilter.v ===== *)
(** * The IP filter ([IPFilter.{h,cpp}])

    A worker thread reads the ranges of the filter's files into a range map ([RangeMap.v]), keeps those
    below the access level, and packs them into two vectors, starts and lengths of 16 bits, that are
    searched by bisection for every address.  The networks wait for the first load to finish.

    What the scanner reads of a file is a list of ranges with their level; [None] is a file that is
    missing, empty, of unknown format or cannot be opened. *)
From S2P Require Import Prelude StdMap UInt128 RangeMap.

Abbreviation IPMap := (list (Z * (Z * Z))) (only parsing).

(** What the scanner answers for a line: start, end and level. *)
Record IPRange := mkIPRange { r_start : Z; r_end : Z; r_level : Z }.

(** ** Loading *)

Definition AddIPRange (IPStart IPEnd AccessLevel : Z) (m_result : IPMap) : bool * IPMap :=
  if AccessLevel <? 256 then
    if IPStart <=? IPEnd then
      match insert Z.eqb 32 IPStart IPEnd AccessLevel m_result with
      | Some (m, _) => (true, m)
      | None => (true, m_result)
      end
    else (false, m_result)
  else (false, m_result).

(** The loop over the lines; the level is passed as 16 bits. *)
Fixpoint load_lines (lines : list IPRange) (filtercount : Z) (m_result : IPMap) : Z * IPMap :=
  match lines with
  | [] => (filtercount, m_result)
  | l :: lines =>
      let '(_, m_result) := AddIPRange (r_start l) (r_end l) (u16 (r_level l)) m_result in
      load_lines lines (filtercount + 1) m_result
  end.

Definition LoadFromFile (file : option (list IPRange)) (m_result : IPMap) : Z * IPMap :=
  match file with
  | None => (0, m_result)
  | Some lines => load_lines lines 0 m_result
  end.

(** ** Packing *)

(** The length that is pushed, and the addresses it stands for. *)
Definition pack_length (realLength : Z) : Z * Z :=
  if realLength <=? 0x8000 then (u16 (realLength - 1), realLength)
  else
    let curLength := if realLength >=? 0x08000000 then 0x08000000 else Z.land realLength 0x07FFF000 in
    (u16 (Z.lor (Z.shiftr (u32 (curLength - 1)) 12) 0x8000), curLength).

(** [while (realLength)] *)
Fixpoint pack_loop (fuel : nat) (startIP realLength : Z) : list (Z * Z) :=
  match fuel with
  | O => []
  | S fuel =>
      if realLength =? 0 then []
      else
        let '(pushLength, curLength) := pack_length realLength in
        (startIP, pushLength) :: pack_loop fuel (u32 (startIP + curLength)) (u32 (realLength - curLength))
  end.

(** At most 32 parts of 2^27 addresses, one of blocks of 4096, and the rest. *)
Definition PACK_FUEL : nat := 40.

Definition pack_range (keyStart keyEnd : Z) : list (Z * Z) := pack_loop PACK_FUEL keyStart (u32 (keyEnd - keyStart + 1)).

(** The loop over the map: starts and lengths. *)
Fixpoint build_table (accessLevel : Z) (m_result : IPMap) : list (Z * Z) :=
  match m_result with
  | [] => []
  | (keyStart, (keyEnd, level)) :: m_result =>
      (if level <? accessLevel then pack_range keyStart keyEnd else []) ++ build_table accessLevel m_result
  end.

(** [CIPFilterTask::Entry]: the user's file, or the system's if that gives nothing, then the static one. *)
Definition load_files (useSystem : bool) (dat system static : option (list IPRange)) : IPMap :=
  let '(n, m_result) := LoadFromFile dat [] in
  let m_result := if (n =? 0) && useSystem then (LoadFromFile system m_result).2 else m_result in
  (LoadFromFile static m_result).2.

Definition Entry (useSystem : bool) (accessLevel : Z) (dat system static : option (list IPRange)) : list Z * list Z :=
  let table := build_table accessLevel (load_files useSystem dat system static) in
  (map fst table, map snd table).

(** ** The filter *)

Record CIPFilter := mkIPFilter {
  m_rangeIPs : list Z;
  m_rangeLengths : list Z;
  m_ready : bool;
  m_startKADWhenReady : bool;
  m_connectToAnyServerWhenReady : bool;
  m_updateAfterLoading : bool;
  m_URL : list Z
}.

(** What the filter asks of the rest of the program, in order. *)
Inductive Action :=
| ATask
| ARememberURL (url : list Z)
| ADownload (url : list Z)
| AFilterQueues
| AFilterServers
| AConnectToAnyServer
| AStartKad
| AShowConnectionState
| ALoadSourceSeeds.

Definition CIPFilter_new (autoLoad : bool) (url : list Z) : CIPFilter * list Action :=
  (mkIPFilter [] [] false false false (autoLoad && match url with [] => false | _ => true end) [], [ATask]).

Definition BanCount (f : CIPFilter) : Z := u32 (Z.of_nat (length (m_rangeIPs f))).

Definition unpack_length (curLength : Z) : Z :=
  if curLength >=? 0x8000 then u32 (Z.shiftl (Z.land curLength 0x7fff) 12) + 0xfff else curLength.

(** The bisection; [None] is an access outside a vector, or a sum of two indexes that does not fit an
    [int]. *)
Fixpoint filter_loop (fuel : nat) (ips lengths : list Z) (ip imin imax : Z) : option bool :=
  if imin <=? imax then
    match fuel with
    | O => None
    | S fuel =>
        if imin + imax >=? 2 ^ 31 then None
        else
          let i := (imin + imax) / 2 in
          match ips !! Z.to_nat i, lengths !! Z.to_nat i with
          | Some curIP, Some curLength =>
              if (curIP <=? ip) && (u32 (curIP + unpack_length curLength) >=? ip) then Some true
              else if curIP >? ip then filter_loop fuel ips lengths ip imin (i - 1)
              else filter_loop fuel ips lengths ip (i + 1) imax
          | _, _ => None
          end
    end
  else Some false.

(** The preferences are arguments; an address is in anti-host order. *)
Definition IsFiltered (filteringClients filteringServers : bool) (IPTest : Z) (isServer : bool) (f : CIPFilter) : option bool :=
  if (negb filteringClients && negb isServer) || (negb filteringServers && isServer) then Some false
  else if negb (m_ready f) then Some true
  else filter_loop (length (m_rangeIPs f)) (m_rangeIPs f) (m_rangeLengths f) (swap32 IPTest) 0 (Z.of_nat (length (m_rangeIPs f)) - 1).

Definition Reload (f : CIPFilter) : CIPFilter * list Action := (f, [ATask]).

Definition set_URL (url : list Z) (f : CIPFilter) : CIPFilter :=
  mkIPFilter (m_rangeIPs f) (m_rangeLengths f) (m_ready f) (m_startKADWhenReady f) (m_connectToAnyServerWhenReady f) (m_updateAfterLoading f) url.

Definition Update (strURL : list Z) (f : CIPFilter) : CIPFilter * list Action :=
  match strURL with
  | [] => (f, [])
  | _ => (set_URL strURL f, [ARememberURL strURL; ADownload strURL])
  end.

(** [removed] and [renamed] are the answers of the file system; [None] when there is no old file. *)
Definition DownloadFinished (success : bool) (removed : option bool) (renamed : bool) (f : CIPFilter) : CIPFilter * list Action :=
  let success := success && match removed with Some false => false | _ => renamed end in
  if success then Reload f else (f, []).

Definition StartKADWhenReady (f : CIPFilter) : CIPFilter :=
  mkIPFilter (m_rangeIPs f) (m_rangeLengths f) (m_ready f) true (m_connectToAnyServerWhenReady f) (m_updateAfterLoading f) (m_URL f).

Definition ConnectToAnyServerWhenReady (f : CIPFilter) : CIPFilter :=
  mkIPFilter (m_rangeIPs f) (m_rangeLengths f) (m_ready f) (m_startKADWhenReady f) true (m_updateAfterLoading f) (m_URL f).

Definition StartPendingNetworks (f : CIPFilter) : CIPFilter * list Action :=
  if negb (m_ready f) then (f, [])
  else if negb (m_connectToAnyServerWhenReady f) && negb (m_startKADWhenReady f) then (f, [])
  else
    (mkIPFilter (m_rangeIPs f) (m_rangeLengths f) (m_ready f) false false (m_updateAfterLoading f) (m_URL f),
     (if m_connectToAnyServerWhenReady f then [AConnectToAnyServer] else []) ++
     (if m_startKADWhenReady f then [AStartKad] else []) ++ [AShowConnectionState]).

(** The preferences the handler reads. *)
Record Prefs := mkPrefs { p_clients : bool; p_servers : bool; p_seeds : bool; p_url : list Z }.

Definition OnIPFilterEvent (p : Prefs) (shutDown : bool) (table : list Z * list Z) (f : CIPFilter) : CIPFilter * list Action :=
  let f := mkIPFilter table.1 table.2 true (m_startKADWhenReady f) (m_connectToAnyServerWhenReady f) (m_updateAfterLoading f) (m_URL f) in
  if shutDown then (f, [])
  else
    let '(f, started) := StartPendingNetworks f in
    let acts := (if p_clients p then [AFilterQueues] else []) ++ (if p_servers p then [AFilterServers] else []) ++ started ++
      [AShowConnectionState] ++ (if p_seeds p then [ALoadSourceSeeds] else []) in
    if m_updateAfterLoading f then
      let f := mkIPFilter (m_rangeIPs f) (m_rangeLengths f) (m_ready f) (m_startKADWhenReady f) (m_connectToAnyServerWhenReady f) false (m_URL f) in
      let '(f, updated) := Update (p_url p) f in (f, acts ++ updated)
    else (f, acts).

(** ** The table as ranges *)

(** An entry of the table stands for a range of addresses. *)
Definition as_range (e : Z * Z) : Z * (Z * unit) := (e.1, (e.1 + unpack_length e.2, tt)).

Lemma unpack_small n : 0 <= n < 0x8000 -> unpack_length n = n.
Proof. intros H. unfold unpack_length. destruct (Z.geb_spec n 0x8000); [lia|done]. Qed.

(** The blocks of 4096 addresses. *)
Lemma unpack_blocks k : 0 < k <= 32768 -> unpack_length (Z.lor (Z.shiftr (u32 (k * 4096 - 1)) 12) 0x8000) = k * 4096 - 1.
Proof.
  intros Hk. rewrite (wrap_small 32) by width_lia. rewrite Z.shiftr_div_pow2 by done. change (2 ^ 12) with 4096.
  replace ((k * 4096 - 1) / 4096) with (k - 1) by (norm_pow; lia).
  assert (Z.lor (k - 1) 0x8000 = k - 1 + 32768) as ->.
  { change (Z.lor (k - 1) 0x8000) with (Z.lor (k - 1) (Z.shiftl 1 15)). rewrite lor_shiftl_add by (done || (unfold in_width; change (2 ^ 15) with 32768; lia)). change (2 ^ 15) with 32768. lia. }
  unfold unpack_length. norm_pow. destruct (Z.geb_spec (k - 1 + 32768) 32768); [|lia].
  assert (Z.land (k - 1 + 32768) 0x7fff = k - 1) as ->.
  { change 0x7fff with (Z.ones 15). rewrite Z.land_ones by done. change (2 ^ 15) with 32768. lia. }
  rewrite Z.shiftl_mul_pow2 by done. change (2 ^ 12) with 4096. rewrite wrap_small by width_lia. lia.
Qed.

Lemma land_blocks n : 0 <= n < 134217728 -> Z.land n 0x07FFF000 = n / 4096 * 4096.
Proof.
  intros Hn. change 0x07FFF000 with (Z.shiftl (Z.ones 15) 12). change 4096 with (2 ^ 12). rewrite <- Z.shiftl_mul_pow2, <- Z.shiftr_div_pow2 by done.
  apply Z.bits_inj'. intros i Hi. rewrite Z.land_spec, !Z.shiftl_spec by done. destruct (Z.ltb_spec i 12).
  - rewrite !(Z.testbit_neg_r _ (i - 12)) by lia. by rewrite andb_false_r.
  - rewrite Z.shiftr_spec by lia. replace (i - 12 + 12) with i by lia. rewrite Z.testbit_ones by lia.
    destruct (Z.ltb_spec (i - 12) 15); [rewrite (proj2 (Z.leb_le 0 (i - 12))) by lia; by rewrite andb_true_r|].
    rewrite (Z.bits_above_log2 n i); [done|lia|]. destruct (decide (n = 0)) as [->|]; [simpl; lia|].
    apply Z.log2_lt_pow2; [lia|]. eapply Z.lt_le_trans; [apply Hn|]. change 134217728 with (2 ^ 27). apply Z.pow_le_mono_r; lia.
Qed.

(** What one part stands for, and what is left. *)
Lemma pack_length_spec n : 0 < n < 2 ^ 32 ->
  let '(p, cur) := pack_length n in
  in_width 16 p /\ 0 < cur <= n /\ unpack_length p = cur - 1 /\
  (n >= 134217728 -> cur = 134217728) /\ (n < 134217728 -> n - cur < 4096) /\ (n <= 32768 -> cur = n).
Proof.
  intros Hn. unfold pack_length. norm_pow. destruct (Z.leb_spec n 0x8000) as [H|H].
  - rewrite wrap_small by width_lia. rewrite unpack_small by lia. split; [width_lia|]. lia.
  - assert (exists k, 0 < k <= 32768 /\ (if n >=? 0x08000000 then 0x08000000 else Z.land n 0x07FFF000) = k * 4096 /\
      k * 4096 <= n /\ (n >= 134217728 -> k * 4096 = 134217728) /\ (n < 134217728 -> n - k * 4096 < 4096)) as (k & K1 & -> & K2 & K3 & K4).
    { destruct (Z.geb_spec n 0x08000000) as [Hb|Hb].
      - exists (32768). norm_pow. lia.
      - rewrite land_blocks by (norm_pow; lia). exists (n / 4096). norm_pow. lia. }
    pose proof (unpack_blocks k K1) as HU.
    assert (in_width 16 (Z.lor (Z.shiftr (u32 (k * 4096 - 1)) 12) 0x8000)) as HW.
    { apply lor_in_width; [lia| |done]. rewrite (wrap_small 32) by width_lia. rewrite Z.shiftr_div_pow2 by done. change (2 ^ 12) with 4096. width_lia. }
    rewrite (wrap_small 16) by done. split; [done|]. rewrite HU. norm_pow. lia.
Qed.

(** The lemmas on ranges at the two kinds of values used here. *)
#[local] Abbreviation cons_table := (wf_ranges_cons (fun _ _ : unit => true) tt 32) (only parsing).
#[local] Abbreviation app_table := (wf_ranges_app (fun _ _ : unit => true) tt 32) (only parsing).
#[local] Abbreviation cons_map := (wf_ranges_cons Z.eqb 0 32) (only parsing).

(** A list of parts that stands for the addresses from [a] to before [b]. *)
Fixpoint chain (l : list (Z * Z)) (a b : Z) : Prop :=
  match l with
  | [] => a = b
  | (s, p) :: l => s = a /\ in_width 16 p /\ chain l (a + unpack_length p + 1) b
  end.

Lemma unpack_nonneg p : in_width 16 p -> 0 <= unpack_length p.
Proof.
  intros Hp. unfold unpack_length. destruct (_ >=? _); [|apply Hp]. unfold wrap. pose proof (Z.mod_pos_bound (Z.shiftl (Z.land p 0x7fff) 12) (2 ^ 32) ltac:(done)). lia.
Qed.

Lemma pack_loop_chain fuel : forall k start n, 0 <= start -> 0 <= n -> start + n <= 2 ^ 32 -> n < 2 ^ 32 ->
  n < 134217728 * (k + 1) -> 0 <= k -> Z.of_nat fuel >= k + 3 -> chain (pack_loop fuel start n) start (start + n).
Proof.
  induction fuel as [|fuel IH]; intros k start n Hs Hn Hsum Hlt Hk Hk0 Hf; [lia|]. simpl.
  destruct (Z.eqb_spec n 0) as [->|Hz]; [simpl; lia|].
  pose proof (pack_length_spec n ltac:(lia)) as HP. destruct (pack_length n) as [p cur]. destruct HP as (P1 & P2 & P3 & P4 & P5 & P6).
  simpl. split; [done|]. split; [done|]. rewrite P3. replace (start + (cur - 1) + 1) with (start + cur) by lia.
  rewrite (wrap_small 32 (n - cur)) by width_lia. destruct (decide (start + cur = 2 ^ 32)) as [E|E].
  { assert (n - cur = 0) as -> by lia. destruct fuel; simpl; lia. }
  rewrite (wrap_small 32 (start + cur)) by width_lia. replace (start + n) with (start + cur + (n - cur)) by lia.
  destruct (Z_lt_ge_dec n 134217728) as [Hb|Hb].
  - destruct fuel as [|fuel']; [lia|]. destruct (decide (n - cur = 0)) as [->|Hr]; [simpl; lia|].
    assert (n - cur < 4096) as Hr2 by lia. clear IH. simpl. rewrite (proj2 (Z.eqb_neq _ _)) by done.
    pose proof (pack_length_spec (n - cur) ltac:(lia)) as HP. destruct (pack_length (n - cur)) as [p2 cur2]. destruct HP as (Q1 & Q2 & Q3 & Q4 & Q5 & Q6).
    simpl. split; [done|]. split; [done|]. rewrite Q3. specialize (Q6 ltac:(lia)). subst cur2. rewrite Z.sub_diag.
    destruct fuel'; simpl; lia.
  - apply (IH (k - 1)); lia.
Qed.

Lemma chain_ranges l : forall a b, chain l a b -> 0 <= a -> b <= 2 ^ 32 ->
  a <= b /\ wf_ranges 32 (map as_range l) /\ (forall x, has (map as_range l) x tt <-> a <= x < b) /\
  Forall (fun e => a <= e.1 /\ e.2.1 < b) (map as_range l).
Proof.
  induction l as [|[s p] l IH]; simpl; intros a b.
  - intros -> Ha Hb. split; [lia|]. split; [apply wf_ranges_nil|]. split; [|constructor]. intros x. rewrite has_nil_iff. lia.
  - intros (-> & Hp & Hc) Ha Hb. pose proof (unpack_nonneg p Hp) as Hu. destruct (IH _ _ Hc ltac:(lia) Hb) as (I1 & I2 & I3 & I4).
    split; [lia|]. split; [|split].
    + rewrite cons_table. split; [done|]. split.
      * eapply Forall_impl; [exact I4|]. intros e [He _]. unfold before, as_range. simpl. lia.
      * unfold range_ok, as_range. simpl. lia.
    + intros x. rewrite has_cons, I3. unfold as_range. simpl. split; [|destruct (Z_le_gt_dec x (a + unpack_length p)); [left; split; [lia|done]|right; lia]]. lia.
    + constructor; [simpl; lia|]. eapply Forall_impl; [exact I4|]. simpl. lia.
Qed.

(** A range of the map, packed; only the range of all addresses has no length. *)
Lemma pack_range_spec s e : 0 <= s <= e -> e < 2 ^ 32 -> e - s + 1 < 2 ^ 32 -> chain (pack_range s e) s (e + 1).
Proof.
  intros Hs He Hlt. unfold pack_range. rewrite wrap_small by width_lia. replace (e + 1) with (s + (e - s + 1)) by lia.
  apply (pack_loop_chain _ 31); unfold PACK_FUEL; norm_pow; lia.
Qed.

Definition not_everything (e : Z * (Z * Z)) : Prop := e.2.1 - e.1 + 1 < 2 ^ 32.

(** The addresses of the table are those of the ranges below the level. *)
Lemma build_table_spec level m : wf_ranges 32 m -> Forall not_everything m ->
  let t := map as_range (build_table level m) in
  wf_ranges 32 t /\ (forall x, has t x tt <-> exists v, v < level /\ has m x v) /\
  (forall a, Forall (fun e => a < e.1) m -> Forall (fun e => a < e.1) t).
Proof.
  induction m as [|[s [e v]] m IH]; simpl; intros Hwf Hne.
  - split; [apply wf_ranges_nil|]. split; [|done]. intros x. rewrite has_nil_iff. split; [done|]. intros (v & _ & H). by apply has_nil in H.
  - rewrite cons_map in Hwf. destruct Hwf as (Hwf & Hb & Hok). apply Forall_cons in Hne as [Hn Hne].
    destruct (IH Hwf Hne) as (I1 & I2 & I3). unfold range_ok, not_everything in *. simpl in Hok, Hn. rewrite map_app.
    assert (Forall (fun e0 => e < e0.1) (map as_range (build_table level m))) as Hbehind
      by (apply I3; eapply Forall_impl; [exact Hb|]; intros r Hr; exact Hr).
    destruct (Z.ltb_spec v level) as [Hv|Hv].
    + destruct (chain_ranges _ _ _ (pack_range_spec s e ltac:(lia) ltac:(lia) ltac:(lia)) ltac:(lia) ltac:(lia)) as (_ & C2 & C3 & C4).
      split; [|split].
      * rewrite app_table. split; [done|]. split; [done|]. eapply Forall_impl; [exact C4|]. intros a [_ Ha].
        eapply Forall_impl; [exact Hbehind|]. intros r Hr. unfold before. simpl in *. lia.
      * intros x. rewrite has_app, C3, I2. split.
        -- intros [H|(u & Hu & H)]; [exists v; split; [done|]; rewrite has_cons; left; simpl; lia|]. exists u. split; [done|]. rewrite has_cons. by right.
        -- intros (u & Hu & H). rewrite has_cons in H. simpl in H. destruct H as [[H _]|H]; [left; lia|right; by exists u].
      * intros a [Ha1 Ha]%Forall_cons. simpl in Ha1. apply Forall_app. split; [|by apply I3]. eapply Forall_impl; [exact C4|]. simpl. lia.
    + simpl. split; [done|]. split; [|intros a [_ Ha]%Forall_cons; by apply I3]. intros x. rewrite I2. split.
      * intros (u & Hu & H). exists u. split; [done|]. rewrite has_cons. by right.
      * intros (u & Hu & H). rewrite has_cons in H. simpl in H. destruct H as [[_ ->]|H]; [lia|by exists u].
Qed.

(** ** The bisection *)

Definition covers (ip : Z) (e : Z * Z) : Prop := e.1 <= ip <= e.1 + unpack_length e.2.

Lemma has_covers t ip : has (map as_range t) ip tt <-> Exists (covers ip) t.
Proof.
  unfold has. rewrite Exists_exists, Exists_exists. split.
  - intros (r & Hr & Hx & _). apply list_elem_of_fmap in Hr as (e & -> & He). by exists e.
  - intros (e & He & Hx). exists (as_range e). split; [by apply list_elem_of_fmap_2|]. by split.
Qed.

Lemma sorted_lookup {A} (R : A -> A -> Prop) l i j a b : StronglySorted R l -> l !! i = Some a -> l !! j = Some b -> (i < j)%nat -> R a b.
Proof.
  intros Hs. revert i j. induction Hs as [|x l Hs IH Hx]; intros i j Hi Hj Hij; [done|]. destruct j as [|j]; [lia|]. destruct i as [|i]; simpl in *.
  - injection Hi as ->. by apply (Forall_lookup_1 _ _ _ _ Hx Hj).
  - apply (IH i j); [done|done|lia].
Qed.

Lemma wf_lookup t i j a b : wf_ranges 32 (map as_range t) -> t !! i = Some a -> t !! j = Some b -> (i < j)%nat ->
  a.1 + unpack_length a.2 < b.1.
Proof.
  intros [Hs _] Hi Hj Hij. assert (before (as_range a) (as_range b)) as H; [|exact H].
  apply (sorted_lookup _ _ i j _ _ Hs); [by rewrite list_lookup_fmap, Hi|by rewrite list_lookup_fmap, Hj|done].
Qed.

Lemma wf_entry t i a : wf_ranges 32 (map as_range t) -> t !! i = Some a -> 0 <= a.1 <= a.1 + unpack_length a.2 /\ a.1 + unpack_length a.2 < 2 ^ 32.
Proof.
  intros [_ Hok] Hi. assert (range_ok 32 (as_range a)) as H; [|exact H].
  apply (Forall_lookup_1 _ _ i _ Hok). by rewrite list_lookup_fmap, Hi.
Qed.

(** Between [imin] and [imax] the bisection finds whether an entry covers the address. *)
Lemma filter_loop_spec t ip fuel : wf_ranges 32 (map as_range t) -> Z.of_nat (length t) <= 2 ^ 30 ->
  forall imin imax, 0 <= imin -> imax < Z.of_nat (length t) -> imax - imin + 1 <= Z.of_nat fuel ->
  exists b, filter_loop fuel (map fst t) (map snd t) ip imin imax = Some b /\
    (b = true <-> exists i e, imin <= Z.of_nat i <= imax /\ t !! i = Some e /\ covers ip e).
Proof.
  intros Hwf Hlen. induction fuel as [|fuel IH]; intros imin imax Hmin Hmax Hfuel; simpl; destruct (Z.leb_spec imin imax) as [Hle|Hle];
    [lia|exists false; split; [done|]; split; [done|intros (i & e & Hi & _); lia]| |exists false; split; [done|]; split; [done|intros (i & e & Hi & _); lia]].
  rewrite Z.geb_leb, (proj2 (Z.leb_gt _ _)) by lia. set (i := (imin + imax) / 2). assert (imin <= i <= imax) as Hi by lia.
  destruct (lookup_lt_is_Some_2 t (Z.to_nat i) ltac:(lia)) as [[s p] Ht]. rewrite !list_lookup_fmap, Ht. simpl.
  destruct (wf_entry t _ _ Hwf Ht) as [H1 H2]. simpl in H1, H2. rewrite (wrap_small 32) by width_lia.
  rewrite Z.geb_leb. destruct (Z.leb_spec s ip) as [Hs|Hs]; destruct (Z.leb_spec ip (s + unpack_length p)) as [He|He]; simpl.
  - exists true. split; [done|]. split; [|done]. intros _. exists (Z.to_nat i), (s, p). split; [lia|]. split; [done|]. split; simpl; lia.
  - rewrite Z.gtb_ltb, (proj2 (Z.ltb_ge _ _)) by lia. destruct (IH (i + 1) imax ltac:(lia) ltac:(lia) ltac:(lia)) as (b & Hb & Hbt).
    exists b. split; [done|]. rewrite Hbt. split; intros (j & e & Hj & Hte & Hc); exists j, e; (split; [|done]); [lia|].
    destruct (decide (Z.of_nat j <= i)) as [Hji|Hji]; [exfalso|lia]. destruct Hc as [Hc1 Hc2]. destruct (decide (j = Z.to_nat i)) as [->|Hne].
    + rewrite Ht in Hte. injection Hte as <-. simpl in *. lia.
    + pose proof (wf_lookup t j (Z.to_nat i) _ _ Hwf Hte Ht ltac:(lia)) as Hbf. simpl in *. lia.
  - rewrite Z.gtb_ltb, (proj2 (Z.ltb_lt _ _)) by lia. destruct (IH imin (i - 1) ltac:(lia) ltac:(lia) ltac:(lia)) as (b & Hb & Hbt).
    exists b. split; [done|]. rewrite Hbt. split; intros (j & e & Hj & Hte & Hc); exists j, e; (split; [|done]); [lia|].
    destruct (decide (i <= Z.of_nat j)) as [Hji|Hji]; [exfalso|lia]. destruct Hc as [Hc1 Hc2]. destruct (decide (j = Z.to_nat i)) as [->|Hne].
    + rewrite Ht in Hte. injection Hte as <-. simpl in *. lia.
    + pose proof (wf_lookup t (Z.to_nat i) j _ _ Hwf Ht Hte ltac:(lia)) as Hbf. simpl in *. lia.
  - lia.
Qed.

(** ** Loading, as the last valid line that covers an address *)

Definition line_ok (l : IPRange) : Prop := 0 <= r_start l /\ r_end l < 2 ^ 32 /\ 0 <= r_level l.

(** The level of an address after some lines; invalid lines say nothing. *)
Fixpoint last_level (lines : list IPRange) (old : option Z) (ip : Z) : option Z :=
  match lines with
  | [] => old
  | l :: lines =>
      last_level lines (if (u16 (r_level l) <? 256) && (r_start l <=? ip) && (ip <=? r_end l) then Some (u16 (r_level l)) else old) ip
  end.

Lemma last_level_app a b old ip : last_level (a ++ b) old ip = last_level b (last_level a old ip) ip.
Proof. revert old. induction a as [|l a IH]; intros old; [done|]. apply IH. Qed.

Lemma AddIPRange_spec l m : line_ok l -> wf_ranges 32 m ->
  let m' := (AddIPRange (r_start l) (r_end l) (u16 (r_level l)) m).2 in
  wf_ranges 32 m' /\ forall x, value_at m' x = last_level [l] (value_at m x) x.
Proof.
  intros (H1 & H2 & H3) Hwf. unfold AddIPRange. simpl. destruct (Z.ltb_spec (u16 (r_level l)) 256); [|done]. simpl.
  destruct (Z.leb_spec (r_start l) (r_end l)) as [Hse|Hse]; simpl.
  - destruct (range_exec_spec Z.eqb 0 32 ltac:(lia) Z.eqb_eq m (RInsert (r_start l) (r_end l) (u16 (r_level l))) Hwf) as (m1 & E & W & V); [simpl; lia|].
    simpl in E. destruct (insert Z.eqb 32 _ _ _ m) as [[m2 k]|]; [|done]. injection E as ->. simpl. split; [done|]. exact V.
  - split; [done|]. intros x. destruct (Z.leb_spec (r_start l) x), (Z.leb_spec x (r_end l)); simpl; try done. lia.
Qed.

Lemma load_lines_spec lines : Forall line_ok lines -> forall n m, wf_ranges 32 m ->
  let r := load_lines lines n m in
  r.1 = n + Z.of_nat (length lines) /\ wf_ranges 32 r.2 /\ forall x, value_at r.2 x = last_level lines (value_at m x) x.
Proof.
  induction 1 as [|l lines Hl _ IH]; intros n m Hwf; simpl; [split; [lia|done]|].
  destruct (AddIPRange_spec l m Hl Hwf) as [W V]. destruct (AddIPRange _ _ _ m) as [b m1]. simpl in W, V.
  destruct (IH (n + 1) m1 W) as (I1 & I2 & I3). split; [rewrite I1; lia|]. split; [done|]. intros x. by rewrite I3, V.
Qed.

(** The lines that are read, in order. *)
Definition effective_lines (useSystem : bool) (dat system static : option (list IPRange)) : list IPRange :=
  default [] dat ++ (match default [] dat with [] => if useSystem then default [] system else [] | _ => [] end) ++ default [] static.

Definition file_ok (file : option (list IPRange)) : Prop := Forall line_ok (default [] file).

Lemma LoadFromFile_spec file m : file_ok file -> wf_ranges 32 m ->
  let r := LoadFromFile file m in
  r.1 = Z.of_nat (length (default [] file)) /\ wf_ranges 32 r.2 /\ forall x, value_at r.2 x = last_level (default [] file) (value_at m x) x.
Proof. intros Hf Hwf. destruct file as [lines|]; [|done]. by apply load_lines_spec. Qed.

Lemma load_files_spec useSystem dat system static : file_ok dat -> file_ok system -> file_ok static ->
  let m := load_files useSystem dat system static in
  wf_ranges 32 m /\ forall x, value_at m x = last_level (effective_lines useSystem dat system static) None x.
Proof.
  intros Hd Hy Ht. unfold load_files, effective_lines.
  destruct (LoadFromFile_spec dat [] Hd (wf_ranges_nil 32)) as (D1 & D2 & D3). destruct (LoadFromFile dat []) as [n m]. simpl in *. subst n.
  assert (exists m', (if (Z.of_nat (length (default [] dat)) =? 0) && useSystem then (LoadFromFile system m).2 else m) = m' /\ wf_ranges 32 m' /\
    forall x, value_at m' x = last_level (match default [] dat with [] => if useSystem then default [] system else [] | _ => [] end) (value_at m x) x)
    as (m' & -> & M1 & M2).
  { destruct (default [] dat) as [|l lines]; simpl; [|by exists m]. destruct useSystem; [|by exists m].
    destruct (LoadFromFile_spec system m Hy D2) as (_ & Y2 & Y3). by eexists. }
  destruct (LoadFromFile_spec static m' Ht M1) as (_ & T2 & T3). split; [done|]. intros x. by rewrite T3, M2, D3, !last_level_app.
Qed.

(** An address is blocked when its level is below the user's. *)
Definition blocked (level : Z) (lines : list IPRange) (ip : Z) : bool :=
  match last_level lines None ip with Some v => v <? level | None => false end.

(** Some address has no level, or not the level of another. *)
Definition distinguishes (lines : list IPRange) : Prop :=
  ~ exists v, forall ip, in_width 32 ip -> last_level lines None ip = Some v.

Lemma distinguishes_ranges m lines : wf_ranges 32 m -> (forall x, value_at m x = last_level lines None x) -> distinguishes lines ->
  Forall not_everything m.
Proof.
  intros Hwf Hv Hd. apply Forall_forall. intros [s [e v]] Hin. unfold not_everything. simpl.
  pose proof (proj1 (Forall_forall _ _) (proj2 Hwf) _ Hin) as Hok. unfold range_ok in Hok. simpl in Hok.
  destruct (decide (e - s + 1 < 2 ^ 32)); [done|]. exfalso. apply Hd. exists v. intros ip Hip. rewrite <- Hv.
  apply (value_at_has Z.eqb 0 32); [done|]. apply Exists_exists. exists (s, (e, v)). split; [done|]. simpl. unfold in_width in Hip. lia.
Qed.

(** ** The networks that wait *)

(** What happens to the filter while the program runs. *)
Inductive Event :=
| EWantKad
| EWantServer
| EPending
| ELoaded (p : Prefs) (table : list Z * list Z)
| EUpdate (url : list Z)
| EDownloaded (success : bool) (removed : option bool) (renamed : bool).

Definition handle (f : CIPFilter) (ev : Event) : CIPFilter * list Action :=
  match ev with
  | EWantKad => (StartKADWhenReady f, [])
  | EWantServer => (ConnectToAnyServerWhenReady f, [])
  | EPending => StartPendingNetworks f
  | ELoaded p table => OnIPFilterEvent p false table f
  | EUpdate url => Update url f
  | EDownloaded success removed renamed => DownloadFinished success removed renamed f
  end.

Fixpoint run (f : CIPFilter) (evs : list Event) : CIPFilter * list Action :=
  match evs with
  | [] => (f, [])
  | ev :: evs => let '(f, a) := handle f ev in let '(f, b) := run f evs in (f, a ++ b)
  end.

#[global] Instance Action_eq_dec : EqDecision Action.
Proof. solve_decision. Defined.

Definition count (a : Action) (l : list Action) : nat := length (filter (fun x => x = a) l).

Lemma count_app a l1 l2 : count a (l1 ++ l2) = (count a l1 + count a l2)%nat.
Proof. unfold count. by rewrite filter_app, length_app. Qed.

Definition loaded (ev : Event) : bool := match ev with ELoaded _ _ => true | _ => false end.
Definition starts (ev : Event) : bool := match ev with ELoaded _ _ | EPending => true | _ => false end.
Definition wants_kad (ev : Event) : bool := match ev with EWantKad => true | _ => false end.

Lemma handle_ready f ev : m_ready (handle f ev).1 = m_ready f || loaded ev.
Proof.
  destruct f as [ips lengths ready kad server update url], ev as [| | |[c s sd [|u us]] table|[|u us]|[|] [[|]|] [|]]; simpl; rewrite ?orb_false_r; try done;
    unfold StartPendingNetworks, OnIPFilterEvent; destruct ready, kad, server, update; done.
Qed.

(** A request for Kad is pending or served: what an event does to it. *)
Lemma handle_kad f ev : let '(f', acts) := handle f ev in
  count AStartKad acts = (if m_ready f' && starts ev && m_startKADWhenReady f then 1 else 0)%nat /\
  m_startKADWhenReady f' = (if m_ready f' && starts ev then false else m_startKADWhenReady f || wants_kad ev).
Proof.
  destruct f as [ips lengths ready kad server update url], ev as [| | |[c s sd [|u us]] table|[|u us]|[|] [[|]|] [|]]; simpl;
    try (rewrite ?orb_false_r, ?orb_true_r, ?andb_false_r; done);
    unfold StartPendingNetworks, OnIPFilterEvent; destruct ready, kad, server, update; try done; destruct c, s, sd; done.
Qed.

Lemma run_kad evs : forall f, let '(f', acts) := run f evs in
  m_ready f' = m_ready f || existsb loaded evs /\
  (m_ready f' = false -> count AStartKad acts = 0%nat) /\
  (count AStartKad acts + Nat.b2n (m_startKADWhenReady f') <= Nat.b2n (m_startKADWhenReady f) + length (filter (fun ev => wants_kad ev = true) evs))%nat /\
  (m_startKADWhenReady f || existsb wants_kad evs = true -> 0 < count AStartKad acts + Nat.b2n (m_startKADWhenReady f'))%nat.
Proof.
  induction evs as [|ev evs IH]; intros f; simpl.
  - rewrite !orb_false_r. split; [done|]. split; [done|]. split; [unfold count; simpl; lia|]. intros ->. simpl. lia.
  - pose proof (handle_ready f ev) as HR. pose proof (handle_kad f ev) as HK. destruct (handle f ev) as [f1 a1]. simpl in HR. destruct HK as [K1 K2].
    specialize (IH f1). destruct (run f1 evs) as [f2 a2]. destruct IH as (I1 & I2 & I3 & I4).
    split; [by rewrite I1, HR, orb_assoc|]. rewrite count_app, K1. rewrite K2 in I3, I4. clear K1 K2 HR.
    rewrite filter_cons. destruct (wants_kad ev) eqn:Ew.
    + assert (starts ev = false) as Es by (by destruct ev). rewrite Es, !andb_false_r in *. rewrite decide_True by done. rewrite !orb_true_r in *. simpl in *.
      specialize (I4 eq_refl). split; [done|]. lia.
    + rewrite decide_False by done. rewrite orb_false_r in *. destruct (m_ready f1 && starts ev) eqn:E; simpl in *.
      * apply andb_true_iff in E as [E _]. rewrite E in I1. simpl in I1. split; [congruence|]. split; destruct (m_startKADWhenReady f); simpl in *; [lia|lia|lia|].
        intros H. specialize (I4 H). lia.
      * split; [done|]. split; [done|]. intros H. by specialize (I4 H).
Qed.

(** ** Properties *)

(** C16: The filter answers as its files say: whatever the files hold, and however the ranges overlap, are
    merged, split and packed, an address is filtered exactly when the last valid line that covers it has a
    level below the user's; the bisection stays inside the two vectors and ends.  (The one exception is a
    list that gives all 2^32 addresses the same level.) *)
Theorem ipfilter_exact (useSystem : bool) (level : Z) (dat system static : option (list IPRange)) (clients servers isServer : bool)
  (IPTest : Z) (f : CIPFilter) :
  file_ok dat -> file_ok system -> file_ok static ->
  let lines := effective_lines useSystem dat system static in
  distinguishes lines ->
  (m_rangeIPs f, m_rangeLengths f) = Entry useSystem level dat system static -> Z.of_nat (length (m_rangeIPs f)) <= 2 ^ 30 ->
  m_ready f = true -> (if isServer then servers else clients) = true ->
  IsFiltered clients servers IPTest isServer f = Some (blocked level lines (swap32 IPTest)).
Proof.
  intros Hd Hy Ht lines Hdist HE Hlen Hready Hon.
  destruct (load_files_spec useSystem dat system static Hd Hy Ht) as [Hwf Hv]. fold lines in Hv.
  destruct (build_table_spec level _ Hwf (distinguishes_ranges _ _ Hwf Hv Hdist)) as (T1 & T2 & _).
  unfold Entry in HE. set (t := build_table level _) in *. injection HE as E1 E2. rewrite E1, length_map in Hlen.
  unfold IsFiltered. rewrite Hready, E1, E2, length_map.
  assert ((negb clients && negb isServer) || (negb servers && isServer) = false) as -> by (destruct isServer, clients, servers; done). simpl.
  destruct (filter_loop_spec t (swap32 IPTest) (length t) T1 Hlen 0 (Z.of_nat (length t) - 1)) as (b & -> & Hb); [lia|lia|lia|].
  f_equal. apply eq_true_iff_eq. rewrite Hb. unfold blocked. rewrite <- Hv.
  assert ((exists i e, 0 <= Z.of_nat i <= Z.of_nat (length t) - 1 /\ t !! i = Some e /\ covers (swap32 IPTest) e) <->
    has (map as_range t) (swap32 IPTest) tt) as ->.
  { rewrite has_covers, Exists_exists. split.
    - intros (i & e & _ & Hi & Hc). exists e. split; [by eapply list_elem_of_lookup_2|done].
    - intros (e & He & Hc). apply list_elem_of_lookup_1 in He as [i Hi]. exists i, e. split; [|done]. apply lookup_lt_Some in Hi. lia. }
  rewrite T2. split.
  - intros (v & Hlt & Hh). apply (value_at_has Z.eqb 0 32) in Hh; [|done]. rewrite Hh. lia.
  - destruct (value_at _ _) as [v|] eqn:E; [|done]. intros Hlt. exists v. split; [lia|]. by apply (value_at_has Z.eqb 0 32).
Qed.

Definition sample_dat : list IPRange := [mkIPRange 167772160 184549375 100; mkIPRange 167837696 167903231 200; mkIPRange 5 3 0].

Lemma ipfilter_exact_witness :
  let f := mkIPFilter (Entry false 127 (Some sample_dat) None None).1 (Entry false 127 (Some sample_dat) None None).2 true false false false [] in
  IsFiltered true true (swap32 167772161) false f = Some true /\ IsFiltered true true (swap32 167837697) true f = Some false.
Proof.
  assert (file_ok (Some sample_dat)) as H1 by (repeat constructor; simpl; lia).
  assert (distinguishes (effective_lines false (Some sample_dat) None None)) as Hd.
  { intros (v & Hv). specialize (Hv 0 ltac:(done)). done. }
  split.
  - rewrite (ipfilter_exact false 127 (Some sample_dat) None None true true false); [vm_compute; reflexivity|done|constructor|constructor|exact Hd|done| |done|done].
    vm_compute. congruence.
  - rewrite (ipfilter_exact false 127 (Some sample_dat) None None true true true); [vm_compute; reflexivity|done|constructor|constructor|exact Hd|done| |done|done].
    vm_compute. congruence.
Defined.

(** A range of all addresses has 2^32 of them, which is 0 in 32 bits: nothing is blocked. *)
Lemma everything_is_not_blocked : Entry false 127 (Some [mkIPRange 0 4294967295 0]) None None = ([], []) /\
  blocked 127 [mkIPRange 0 4294967295 0] 1 = true.
Proof. done. Qed.

(** The networks wait for the filter and for nothing else: in any order of requests, loads, updates and
    downloads Kad is not started before a filter is loaded, is started at most once for each request, and
    a request is served or still pending; an event that may start networks leaves none pending once a
    filter is loaded. *)
Theorem ipfilter_pending (autoLoad : bool) (url : list Z) (evs : list Event) :
  let '(f, acts) := run (CIPFilter_new autoLoad url).1 evs in
  m_ready f = existsb loaded evs /\
  (m_ready f = false -> count AStartKad acts = 0%nat) /\
  (count AStartKad acts + Nat.b2n (m_startKADWhenReady f) <= length (filter (fun ev => wants_kad ev = true) evs))%nat /\
  (existsb wants_kad evs = true -> 0 < count AStartKad acts + Nat.b2n (m_startKADWhenReady f))%nat /\
  forall ev, starts ev = true -> m_ready (handle f ev).1 = true -> m_startKADWhenReady (handle f ev).1 = false.
Proof.
  pose proof (run_kad evs (CIPFilter_new autoLoad url).1) as H. destruct (run _ evs) as [f acts]. simpl in H. destruct H as (H1 & H2 & H3 & H4).
  split_and!; try done. intros ev Hs Hr. pose proof (handle_kad f ev) as HK. destruct (handle f ev) as [f1 a1]. simpl in *.
  destruct HK as [_ ->]. by rewrite Hs, Hr.
Qed.
