(* ===== verification/RLE.v ===== *)
(** * Run-length coded differences ([RLE.h], [RLE.cpp])

    The daemon sends part and gap lists to its remote GUIs as run-length coded differences
    against the state it sent last.  [RLE_Data] is the state kept on either side: the encoder
    stores what it sent, the decoder what it reconstructed.  Buffers are lists of byte values. *)
From S2P Require Import Prelude.

Record RLE_Data := mkRLE { m_buff : list Z; m_len : Z; m_use_diff : bool }.

(** ** Operations *)

Definition setup (len : Z) (use_diff : bool) (content : option (list Z)) : RLE_Data :=
  if len =? 0 then mkRLE [] len use_diff
  else match content with
       | Some c => mkRLE (take (Z.to_nat len) c) len use_diff
       | None => mkRLE (replicate (Z.to_nat len) 0) len use_diff
       end.

Definition ResetEncoder (r : RLE_Data) : RLE_Data := mkRLE [] 0 (m_use_diff r).

(** True if the size changed. *)
Definition Realloc (r : RLE_Data) (size : Z) : bool * RLE_Data :=
  if size =? m_len r then (false, r)
  else if size =? 0 then (true, mkRLE [] 0 (m_use_diff r))
  else
    let buff :=
      if m_len r =? 0 then replicate (Z.to_nat size) 0
      else if size >? m_len r
      then take (Z.to_nat (m_len r)) (m_buff r) ++ replicate (Z.to_nat (size - m_len r)) 0
      else take (Z.to_nat size) (m_buff r) in
    (true, mkRLE buff size (m_use_diff r)).

Definition memset_at (l : list Z) (j v n : Z) : list Z :=
  take (Z.to_nat j) l ++ replicate (Z.to_nat n) v ++ drop (Z.to_nat (j + n)) l.

(** One pass of the decoder over the encoded bytes.  [dec] is [decBuf], [None] the null pointer;
    what does not fit in [mlen] bytes is only counted. *)
Fixpoint decode_pass (mlen : Z) (dec : option (list Z)) (j : Z) (buff : list Z) :
  option (list Z) * Z :=
  match buff with
  | [] => (dec, j)
  | a :: t =>
      match t with
      | b :: seqLen :: rest =>
          if b =? a then
            let dec' := match dec with
                        | Some d => if j + seqLen <=? mlen then Some (memset_at d j a seqLen) else dec
                        | None => None
                        end in
            decode_pass mlen dec' (j + seqLen) rest
          else
            decode_pass mlen
              (if j <? mlen then (fun d => <[Z.to_nat j := a]> d) <$> dec else dec) (j + 1) t
      | _ =>
          decode_pass mlen
            (if j <? mlen then (fun d => <[Z.to_nat j := a]> d) <$> dec else dec) (j + 1) t
      end
  end.

(** The [for (overrun)] loop: it ends after at most two passes; [None] is out of fuel. *)
Fixpoint decode_loop (fuel : nat) (r : RLE_Data) (dec : option (list Z)) (buff : list Z) :
  option (RLE_Data * option (list Z)) :=
  match fuel with
  | O => None
  | S fuel' =>
      let '(dec', j) := decode_pass (m_len r) dec 0 buff in
      if j =? m_len r then Some (r, dec')
      else
        let r' := (Realloc r j).2 in
        if j >? m_len r
        then decode_loop fuel' r' (Some (replicate (Z.to_nat j) 0)) buff
        else Some (r', dec')
  end.

Definition Decode (r : RLE_Data) (buff : list Z) : option RLE_Data :=
  let decBuf := if m_len r =? 0 then None else Some (replicate (Z.to_nat (m_len r)) 0) in
  '(r', dec) ← decode_loop 2 r decBuf buff;
  Some (match dec with
        | None => r'
        | Some d =>
            let d := take (Z.to_nat (m_len r')) d in
            mkRLE (if m_use_diff r' then zip_with Z.lxor (m_buff r') d else d)
                  (m_len r') (m_use_diff r')
        end).

(** Length of the run of [v], at most [budget]. *)
Fixpoint run_len (v : Z) (l : list Z) (budget : nat) : nat :=
  match budget, l with
  | S b, x :: t => if v =? x then S (run_len v t b) else O
  | _, _ => O
  end.

(** The encoding loop; each round takes at least one byte, so the length is enough fuel. *)
Fixpoint rle_loop (fuel : nat) (l : list Z) : list Z :=
  match fuel, l with
  | S fuel', curr_val :: _ =>
      let n := run_len curr_val l 255 in
      (if (1 <? n)%nat then [curr_val; curr_val; Z.of_nat n] else [curr_val])
        ++ rle_loop fuel' (drop n l)
  | _, _ => []
  end.

(** Encoded bytes, whether the state changed, and the new state. *)
Definition Encode (r : RLE_Data) (data : list Z) : list Z * bool * RLE_Data :=
  let '(changed, r) := Realloc r (Z.of_nat (length data)) in
  if m_len r <=? 0 then ([], changed, r)
  else
    let '(buff, changed) :=
      if m_use_diff r then
        let d := zip_with Z.lxor (m_buff r) data in
        (d, changed || existsb (fun b => negb (b =? 0)) d)
      else (data, true) in
    let enc := rle_loop (length buff) buff in
    (enc, changed, mkRLE (if m_use_diff r then data else buff) (m_len r) (m_use_diff r)).

Definition EncodeUInt16 (r : RLE_Data) (data : list Z) : list Z * bool * RLE_Data :=
  Encode r ((fun ui => if ui >? 255 then 255 else wrap 8 ui) <$> data).

(** Byte [j] of a word, then all the low bytes, all the second bytes and so on. *)
Definition byte_of (j : nat) (u : Z) : Z := Z.land (Z.shiftr u (8 * Z.of_nat j)) 255.

Fixpoint columns (data : list Z) (js : list nat) : list Z :=
  match js with [] => [] | j :: js => (byte_of j <$> data) ++ columns data js end.

Definition transpose64 (data : list Z) : list Z := columns data (seq 0 8).

Definition EncodeUInt64 (r : RLE_Data) (data : list Z) : list Z * bool * RLE_Data :=
  Encode r (transpose64 data).

Definition untranspose64 (decoded : list Z) (size : nat) : list Z :=
  (fun i => fold_right (fun j u => Z.lor (wrap 64 (Z.shiftl u 8)) (decoded !!! (i + j * size)%nat))
                       0 (seq 0 8)) <$> seq 0 size.

Definition DecodeUInt64 (r : RLE_Data) (data : list Z) : option (list Z * RLE_Data) :=
  r' ← Decode r data;
  Some (untranspose64 (m_buff r') (Z.to_nat (m_len r' / 8)), r').

(** [DecodeParts]: the decoded bytes as 16-bit counts. *)
Definition DecodeParts (r : RLE_Data) (data : list Z) : option (list Z * RLE_Data) :=
  r' ← Decode r data; Some (take (Z.to_nat (m_len r')) (m_buff r'), r').

(** ** The code as functions on lists *)

(** What an encoded stream stands for. *)
Fixpoint expand (buff : list Z) : list Z :=
  match buff with
  | [] => []
  | a :: t =>
      match t with
      | b :: seqLen :: rest =>
          if b =? a then replicate (Z.to_nat seqLen) a ++ expand rest else a :: expand t
      | _ => a :: expand t
      end
  end.

(** Cut or zero-extend a buffer. *)
Definition resized (l : list Z) (n : nat) : list Z := take n l ++ replicate (n - length l) 0.

Definition wf_rle (r : RLE_Data) : Prop := m_len r = Z.of_nat (length (m_buff r)).

Definition is_byte_list (l : list Z) : Prop := Forall (in_width 8) l.

(** ** Lemmas: the decoder *)

Lemma length_resized l n : length (resized l n) = n.
Proof. unfold resized. rewrite length_app, length_take, length_replicate. lia. Qed.

Lemma Realloc_spec r size :
  wf_rle r -> 0 <= size ->
  Realloc r size =
    (negb (size =? m_len r), mkRLE (resized (m_buff r) (Z.to_nat size)) size (m_use_diff r)).
Proof.
  unfold wf_rle. intros Hwf Hs. destruct r as [b len ud]. unfold Realloc, resized. simpl in *.
  destruct (Z.eqb_spec size len) as [->|Hne]; simpl.
  - rewrite take_ge by lia. replace (Z.to_nat len - length b)%nat with 0%nat by lia.
    simpl. by rewrite app_nil_r.
  - destruct (Z.eqb_spec size 0) as [->|H0]; [done|].
    destruct (Z.eqb_spec len 0) as [->|Hl].
    { destruct b; [|simpl in Hwf; lia]. rewrite take_nil. simpl. by rewrite Nat.sub_0_r. }
    rewrite Z.gtb_ltb. destruct (Z.ltb_spec len size).
    + rewrite (take_ge b (Z.to_nat len)), (take_ge b (Z.to_nat size)) by lia.
      do 4 f_equal. lia.
    + replace (Z.to_nat size - length b)%nat with 0%nat by lia. simpl. by rewrite app_nil_r.
Qed.

(** Two-step induction along the decoder's recursion. *)
Lemma rle_ind (P : list Z -> Prop) :
  P [] -> (forall a, P [a]) -> (forall a b, P [b] -> P [a; b]) ->
  (forall a b n rest, P rest -> P (b :: n :: rest) -> P (a :: b :: n :: rest)) ->
  forall l, P l.
Proof.
  intros H0 H1 H2 H3 l. remember (length l) as k eqn:Hk. revert l Hk.
  induction (lt_wf k) as [k _ IH]. intros [|a [|b [|n rest]]] ->; auto.
  apply H3; eapply IH; try reflexivity; simpl; lia.
Qed.

Definition put_byte (mlen : Z) (dec : option (list Z)) (j a : Z) : option (list Z) :=
  if j <? mlen then (fun d => <[Z.to_nat j := a]> d) <$> dec else dec.

Definition put_run (mlen : Z) (dec : option (list Z)) (j a n : Z) : option (list Z) :=
  match dec with
  | Some d => if j + n <=? mlen then Some (memset_at d j a n) else dec
  | None => None
  end.

Lemma decode_pass_3 mlen dec j a b n rest :
  decode_pass mlen dec j (a :: b :: n :: rest) =
  if b =? a then decode_pass mlen (put_run mlen dec j a n) (j + n) rest
  else decode_pass mlen (put_byte mlen dec j a) (j + 1) (b :: n :: rest).
Proof. done. Qed.

Lemma expand_3 a b n rest :
  expand (a :: b :: n :: rest) =
  if b =? a then replicate (Z.to_nat n) a ++ expand rest else a :: expand (b :: n :: rest).
Proof. done. Qed.

Lemma decode_pass_count mlen dec buff : forall j,
  is_byte_list buff ->
  (decode_pass mlen dec j buff).2 = j + Z.of_nat (length (expand buff)).
Proof.
  revert dec. induction buff as [|a|a b IH|a b n rest IH1 IH2] using rle_ind; intros dec j Hb.
  - simpl. lia.
  - simpl. lia.
  - simpl. lia.
  - rewrite decode_pass_3, expand_3.
    inversion Hb as [|? ? _ Hb1]; subst. inversion Hb1 as [|? ? _ Hb2]; subst.
    inversion Hb2 as [|? ? Hn Hb3]; subst. unfold in_width in Hn.
    destruct (b =? a).
    + rewrite IH1 by done. rewrite length_app, length_replicate. lia.
    + rewrite IH2 by done. simpl length. lia.
Qed.

Lemma insert_middle (l1 l2 : list Z) x y :
  <[length l1 := x]> (l1 ++ y :: l2) = l1 ++ x :: l2.
Proof. induction l1; simpl; [done|by f_equal]. Qed.

(** A pass over a stream that fits writes its expansion behind what was there. *)
Lemma decode_pass_fits buff : forall d1 d2 j mlen,
  is_byte_list buff -> j = Z.of_nat (length d1) ->
  mlen <= Z.of_nat (length d1 + length d2) ->
  j + Z.of_nat (length (expand buff)) <= mlen ->
  (decode_pass mlen (Some (d1 ++ d2)) j buff).1 =
  Some (d1 ++ expand buff ++ drop (length (expand buff)) d2).
Proof.
  assert (forall a (d1 d2 : list Z), (0 < length d2)%nat ->
    <[Z.to_nat (Z.of_nat (length d1)) := a]> (d1 ++ d2) = (d1 ++ [a]) ++ drop 1 d2) as Hins.
  { intros a d1 [|y d2] Hl; simpl in *; [lia|]. rewrite Nat2Z.id, insert_middle.
    by rewrite drop_0, <- app_assoc. }
  induction buff as [|a|a b IH|a b n rest IH1 IH2] using rle_ind; intros d1 d2 j mlen Hb -> Hm Hf.
  - done.
  - simpl in *. rewrite (proj2 (Z.ltb_lt _ _)) by lia. simpl.
    rewrite Hins by lia. by rewrite <- app_assoc.
  - simpl in *. rewrite !(proj2 (Z.ltb_lt _ _)) by lia. simpl. rewrite Hins by lia.
    replace (Z.of_nat (length d1) + 1) with (Z.of_nat (length (d1 ++ [a])))
      by (rewrite length_app; simpl; lia).
    rewrite Hins by (rewrite length_drop; lia). by rewrite drop_drop, <- !app_assoc.
  - inversion Hb as [|? ? _ Hb1]; subst. inversion Hb1 as [|? ? _ Hb2]; subst.
    inversion Hb2 as [|? ? Hn Hb3]; subst. unfold in_width in Hn.
    rewrite decode_pass_3. rewrite expand_3 in *. destruct (b =? a).
    + rewrite length_app, length_replicate in *. unfold put_run. rewrite (proj2 (Z.leb_le _ _)) by lia.
      assert (memset_at (d1 ++ d2) (Z.of_nat (length d1)) a n =
              (d1 ++ replicate (Z.to_nat n) a) ++ drop (Z.to_nat n) d2) as ->.
      { unfold memset_at. rewrite Nat2Z.id, take_app_length.
        rewrite Z2Nat.inj_add by lia. rewrite Nat2Z.id, drop_app_add. by rewrite app_assoc. }
      rewrite IH1; [|done|rewrite length_app, length_replicate; lia| |].
      * rewrite drop_drop, <- !app_assoc. done.
      * rewrite length_app, length_replicate, length_drop. lia.
      * lia.
    + unfold put_byte. simpl length in Hf. rewrite (proj2 (Z.ltb_lt _ _)) by lia.
      cbn [fmap option_fmap option_map]. rewrite Hins by lia. rewrite IH2; [|done|rewrite length_app; simpl; lia| |].
      * by rewrite drop_drop, <- !app_assoc.
      * rewrite length_app, length_drop. simpl length in *. lia.
      * simpl length in *. lia.
Qed.

Lemma decode_pass_none mlen buff : forall j, (decode_pass mlen None j buff).1 = None.
Proof.
  induction buff as [|a|a b IH|a b n rest IH1 IH2] using rle_ind; intros j.
  - done.
  - simpl. by case_match.
  - simpl. by repeat case_match.
  - rewrite decode_pass_3. simpl put_run. unfold put_byte. repeat case_match; done.
Qed.

(** Decoding with a fresh buffer of the right size, or a larger one. *)
Lemma decode_pass_fresh n buff :
  is_byte_list buff -> (length (expand buff) <= n)%nat ->
  decode_pass (Z.of_nat n) (Some (replicate n 0)) 0 buff =
  (Some (expand buff ++ replicate (n - length (expand buff)) 0), Z.of_nat (length (expand buff))).
Proof.
  intros Hb Hn.
  pose proof (decode_pass_fits buff [] (replicate n 0) 0 (Z.of_nat n) Hb eq_refl) as H1.
  rewrite length_replicate in H1. simpl in H1. specialize (H1 ltac:(lia) ltac:(lia)).
  rewrite drop_replicate in H1.
  pose proof (decode_pass_count (Z.of_nat n) (Some (replicate n 0)) buff 0 Hb) as H2.
  destruct (decode_pass _ _ _ _) as [d j]. simpl in *. by subst.
Qed.

(** The decoder as a function: expand the stream, resize the state, combine. *)
Definition decode_spec (r : RLE_Data) (buff : list Z) : RLE_Data :=
  let e := expand buff in
  let old := resized (m_buff r) (length e) in
  mkRLE (if m_use_diff r then zip_with Z.lxor old e else e) (Z.of_nat (length e)) (m_use_diff r).

Lemma Decode_spec r buff :
  wf_rle r -> is_byte_list buff -> Decode r buff = Some (decode_spec r buff).
Proof.
  intros Hwf Hb. unfold Decode, decode_spec. pose proof Hwf as Hlen. unfold wf_rle in Hlen.
  set (e := expand buff) in *. set (k := length e) in *.
  assert (forall r' d, m_len r' = Z.of_nat k -> m_use_diff r' = m_use_diff r ->
    m_buff r' = resized (m_buff r) k -> take k d = e ->
    mkRLE (if m_use_diff r' then zip_with Z.lxor (m_buff r') (take (Z.to_nat (m_len r')) d)
           else take (Z.to_nat (m_len r')) d) (m_len r') (m_use_diff r') =
    mkRLE (if m_use_diff r then zip_with Z.lxor (resized (m_buff r) k) e else e)
      (Z.of_nat k) (m_use_diff r)) as Hfin.
  { intros r' d -> -> -> Ht. by rewrite Nat2Z.id, Ht. }
  assert (forall m, (k <= m)%nat ->
    take k (e ++ replicate (m - k) 0) = e) as Htake.
  { intros m _. unfold k. apply take_app_length. }
  assert (forall j, j = Z.of_nat k -> Realloc r j = (negb (j =? m_len r),
    mkRLE (resized (m_buff r) k) j (m_use_diff r))) as Hre.
  { intros j ->. rewrite Realloc_spec by (done || lia). by rewrite Nat2Z.id. }
  cbn [decode_loop].
  destruct (Z.eqb_spec (m_len r) 0) as [H0|H0].
  - pose proof (decode_pass_none (m_len r) buff 0) as Hn.
    pose proof (decode_pass_count (m_len r) None buff 0 Hb) as Hc. fold e k in Hc.
    destruct (decode_pass (m_len r) None 0 buff) as [d j]. simpl in Hn, Hc. subst d.
    assert (m_buff r = []) as Hnil by (apply length_zero_iff_nil; lia).
    destruct (Z.eqb_spec j (m_len r)) as [Hj|Hj].
    + simpl. assert (k = 0%nat) as Hk by lia. assert (e = []) as -> by (by apply length_zero_iff_nil).
      rewrite Hk. destruct r as [b len ud]. simpl in *. subst. simpl. by destruct ud.
    + rewrite Hre by lia. simpl snd. rewrite Z.gtb_ltb, (proj2 (Z.ltb_lt (m_len r) j)) by lia.
      simpl m_len. replace j with (Z.of_nat k) by lia. rewrite Nat2Z.id.
      rewrite decode_pass_fresh by done. fold e k. rewrite Z.eqb_refl. simpl.
      by rewrite Nat2Z.id, Htake by lia.
  - assert (Z.of_nat (Z.to_nat (m_len r)) = m_len r) as Hn by lia.
    destruct (decode_pass (m_len r) (Some (replicate (Z.to_nat (m_len r)) 0)) 0 buff)
      as [d j] eqn:Hp.
    pose proof (decode_pass_count (m_len r) (Some (replicate (Z.to_nat (m_len r)) 0)) buff 0 Hb) as Hc.
    rewrite Hp in Hc. simpl in Hc. fold e k in Hc.
    destruct (Z_le_gt_dec j (m_len r)) as [Hle|Hgt].
    + rewrite <- Hn in Hp at 1. rewrite decode_pass_fresh in Hp by (done || (fold e k; lia)).
      fold e k in Hp. injection Hp as <- _.
      destruct (Z.eqb_spec j (m_len r)) as [Hj|Hj].
      * simpl mbind. f_equal. apply Hfin; [lia|done| |apply Htake; lia].
        unfold resized. rewrite take_ge by lia.
        replace (k - length (m_buff r))%nat with 0%nat by lia. simpl. by rewrite app_nil_r.
      * rewrite Hre by lia. simpl snd. rewrite Z.gtb_ltb, (proj2 (Z.ltb_ge (m_len r) j)) by lia.
        simpl mbind. subst j. simpl.
        by rewrite ?Z.add_0_l, Nat2Z.id, Htake by lia.
    + rewrite (proj2 (Z.eqb_neq j (m_len r))) by lia.
      rewrite Hre by lia. simpl snd. rewrite Z.gtb_ltb, (proj2 (Z.ltb_lt (m_len r) j)) by lia.
      simpl m_len. replace j with (Z.of_nat k) by lia. rewrite Nat2Z.id.
      rewrite decode_pass_fresh by done. fold e k. rewrite Z.eqb_refl. simpl.
      by rewrite Nat2Z.id, Htake by lia.
Qed.

(** ** Lemmas: the encoder *)

Lemma run_len_le v l b : (run_len v l b <= b)%nat /\ (run_len v l b <= length l)%nat.
Proof.
  revert l. induction b as [|b IH]; intros [|x l]; simpl; try lia.
  destruct (v =? x); simpl; [|lia]. specialize (IH l). lia.
Qed.

Lemma run_len_take v l b : l = replicate (run_len v l b) v ++ drop (run_len v l b) l.
Proof.
  revert l. induction b as [|b IH]; intros [|x l]; simpl; try done.
  destruct (Z.eqb_spec v x) as [->|]; simpl; [|done]. by rewrite <- IH.
Qed.

(** A run shorter than the limit is maximal. *)
Lemma run_len_stop v l b :
  (run_len v l b < b)%nat ->
  match drop (run_len v l b) l with [] => True | x :: _ => x <> v end.
Proof.
  revert l. induction b as [|b IH]; intros [|x l]; simpl; try done; try lia.
  destruct (Z.eqb_spec v x) as [->|Hne]; simpl; [|congruence]. intros. apply IH. lia.
Qed.

Lemma rle_loop_head fuel l :
  (length l <= fuel)%nat ->
  match rle_loop fuel l, l with
  | [], [] => True
  | x :: _, y :: _ => x = y
  | _, _ => False
  end.
Proof.
  destruct fuel as [|fuel], l as [|c l]; intros Hl; cbn [rle_loop]; try done; [simpl in Hl; lia|].
  by destruct (1 <? _)%nat.
Qed.

Lemma expand_rle_loop fuel : forall l, (length l <= fuel)%nat -> expand (rle_loop fuel l) = l.
Proof.
  induction fuel as [|fuel IH]; intros [|c l] Hl; cbn [rle_loop]; try done; [simpl in Hl; lia|].
  set (n := run_len c (c :: l) 255).
  assert (1 <= n)%nat as Hn1 by (unfold n; simpl; rewrite Z.eqb_refl; lia).
  assert (length (drop n (c :: l)) <= fuel)%nat as Hlen by (rewrite length_drop; simpl in *; lia).
  destruct (Nat.ltb_spec 1 n) as [Hn|Hn].
  - cbn [app]. rewrite expand_3, Z.eqb_refl, Nat2Z.id, IH by done.
    symmetry. apply run_len_take.
  - pose proof (run_len_stop c (c :: l) 255) as Hst. fold n in Hst. specialize (Hst ltac:(lia)).
    assert (n = 1%nat) as Hn' by lia. rewrite Hn' in *. cbn [drop] in *. rewrite drop_0 in *.
    pose proof (rle_loop_head fuel l Hlen) as Hh. specialize (IH l Hlen).
    simpl app. destruct (rle_loop fuel l) as [|b [|m rest]] eqn:Hr.
    + simpl in *. by rewrite <- IH.
    + simpl in *. by rewrite <- IH.
    + destruct l as [|y l]; [done|]. subst b. rewrite expand_3.
      rewrite (proj2 (Z.eqb_neq y c)) by done. by rewrite IH.
Qed.

Lemma rle_loop_length fuel : forall l,
  (length l <= fuel)%nat -> (2 * length (rle_loop fuel l) <= 3 * length l)%nat.
Proof.
  induction fuel as [|fuel IH]; intros [|c l] Hl; cbn [rle_loop]; try (simpl; lia).
  set (n := run_len c (c :: l) 255).
  assert (1 <= n)%nat as Hn1 by (unfold n; simpl; rewrite Z.eqb_refl; lia).
  assert (n <= length (c :: l))%nat as Hn2 by (apply run_len_le).
  specialize (IH (drop n (c :: l))). rewrite length_drop in IH. specialize (IH ltac:(simpl in *; lia)).
  rewrite length_app. destruct (Nat.ltb_spec 1 n); simpl length in *; lia.
Qed.

Lemma rle_loop_bytes fuel : forall l, is_byte_list l -> is_byte_list (rle_loop fuel l).
Proof.
  induction fuel as [|fuel IH]; intros [|c l] Hb; cbn [rle_loop]; try constructor.
  set (n := run_len c (c :: l) 255). inversion Hb as [|? ? Hc _]; subst.
  pose proof (run_len_le c (c :: l) 255) as [Hn _]. fold n in Hn.
  apply Forall_app. split; [|apply IH; by apply Forall_drop].
  destruct (1 <? n)%nat; repeat constructor; try done; try apply Hc; width_lia.
Qed.

Lemma lxor_twice (l d : list Z) :
  length l = length d -> zip_with Z.lxor l (zip_with Z.lxor l d) = d.
Proof.
  revert d. induction l as [|x l IH]; intros [|y d]; simpl; try done. intros [= Hl].
  rewrite IH by done. by rewrite <- Z.lxor_assoc, Z.lxor_nilpotent, Z.lxor_0_l.
Qed.

Lemma zip_lxor_bytes l d : is_byte_list l -> is_byte_list d -> is_byte_list (zip_with Z.lxor l d).
Proof.
  intros Hl. revert d. induction Hl as [|x l Hx _ IH]; intros d Hd; [constructor|].
  destruct Hd as [|y d Hy Hd]; simpl; constructor; [apply lxor_in_width; done|by apply IH].
Qed.

Lemma resized_bytes l n : is_byte_list l -> is_byte_list (resized l n).
Proof.
  intros Hl. apply Forall_app. split; [by apply Forall_take|].
  apply Forall_replicate. width_lia.
Qed.

Lemma resized_0 l : resized l 0 = [].
Proof. done. Qed.

Definition ok_rle (r : RLE_Data) : Prop := wf_rle r /\ is_byte_list (m_buff r).

(** The state after sending [data]. *)
Definition sent (r : RLE_Data) (data : list Z) : RLE_Data :=
  mkRLE data (Z.of_nat (length data)) (m_use_diff r).

Lemma sent_ok r data : is_byte_list data -> ok_rle (sent r data).
Proof. by split. Qed.

Lemma Encode_spec r data :
  ok_rle r -> is_byte_list data ->
  exists enc changed, Encode r data = (enc, changed, sent r data) /\
    is_byte_list enc /\ (2 * length enc <= 3 * length data)%nat /\
    expand enc = (if m_use_diff r then zip_with Z.lxor (resized (m_buff r) (length data)) data
                  else data) /\
    (changed = false -> data = m_buff r).
Proof.
  intros [Hwf Hbb] Hb. unfold Encode. rewrite Realloc_spec by (done || lia).
  rewrite Nat2Z.id. unfold sent. simpl.
  assert (length (resized (m_buff r) (length data)) = length data) as Hlr by apply length_resized.
  destruct data as [|x0 data0].
  { simpl. eexists _, _. split; [done|]. split; [constructor|]. split; [simpl; lia|].
    split; [by destruct (m_use_diff r)|].
    unfold wf_rle in Hwf. destruct (m_buff r); [done|]. rewrite Hwf. done. }
  remember (x0 :: data0) as data eqn:Hd.
  rewrite (proj2 (Z.leb_gt _ _)) by (subst; simpl; lia). clear x0 data0 Hd.
  destruct (m_use_diff r); simpl.
  - set (d := zip_with Z.lxor (resized (m_buff r) (length data)) data).
    assert (length d = length data) as Hld.
    { unfold d. rewrite length_zip_with, Hlr. apply Nat.min_id. }
    eexists _, _. split; [done|]. split.
    { apply rle_loop_bytes, zip_lxor_bytes; [by apply resized_bytes|done]. }
    split; [rewrite <- Hld; by apply rle_loop_length|].
    split; [by apply expand_rle_loop|].
    intros [Hsz Hz]%orb_false_elim. apply negb_false_iff, Z.eqb_eq in Hsz. unfold wf_rle in Hwf.
    assert (resized (m_buff r) (length data) = m_buff r) as Hrs.
    { unfold resized. rewrite take_ge by lia.
      replace (length data - length (m_buff r))%nat with 0%nat by lia. apply app_nil_r. }
    rewrite <- (lxor_twice (m_buff r) data) by lia. unfold d in Hz. rewrite Hrs in Hz.
    assert (length (zip_with Z.lxor (m_buff r) data) = length (m_buff r)) as Hlz
      by (rewrite length_zip_with; lia).
    revert Hz Hlz. generalize (zip_with Z.lxor (m_buff r) data) as z. generalize (m_buff r) as b.
    clear. induction b as [|y b IH]; intros [|c z]; simpl; try done.
    intros [Hc Hz]%orb_false_elim [= Hl]. apply negb_false_iff, Z.eqb_eq in Hc as ->.
    rewrite Z.lxor_0_r. f_equal. by apply IH.
  - eexists _, _. split; [done|]. split; [by apply rle_loop_bytes|].
    split; [by apply rle_loop_length|]. split; [by apply expand_rle_loop|done].
Qed.

(** A decoder in the encoder's state ends in the encoder's new state. *)
Lemma Encode_Decode r data enc changed r' :
  ok_rle r -> is_byte_list data -> Encode r data = (enc, changed, r') ->
  Decode r enc = Some r' /\ r' = sent r data.
Proof.
  intros Hok Hb He. destruct (Encode_spec r data Hok Hb) as (enc' & ch' & He' & Hbe & _ & Hx & _).
  rewrite He' in He. injection He as -> -> <-. split; [|done].
  rewrite Decode_spec by (apply Hok || done). unfold decode_spec, sent. rewrite Hx. f_equal.
  destruct (m_use_diff r).
  - assert (length (zip_with Z.lxor (resized (m_buff r) (length data)) data) = length data) as Hl
      by (rewrite length_zip_with, length_resized; lia).
    rewrite !Hl. by rewrite lxor_twice by apply length_resized.
  - done.
Qed.

(** ** Lemmas: 64-bit words *)

Lemma byte_of_range j u : in_width 8 (byte_of j u).
Proof.
  unfold byte_of. change 255 with (Z.ones 8). rewrite Z.land_ones by lia.
  by apply (wrap_range 8).
Qed.

Lemma columns_bytes data js : is_byte_list (columns data js).
Proof.
  induction js as [|j js IH]; [constructor|]. apply Forall_app. split; [|done].
  apply Forall_fmap, Forall_true. intros. apply byte_of_range.
Qed.

Lemma transpose64_bytes data : is_byte_list (transpose64 data).
Proof. apply columns_bytes. Qed.

Lemma length_columns data js : length (columns data js) = (length js * length data)%nat.
Proof. induction js; simpl; [done|]. rewrite length_app, length_fmap. lia. Qed.

Lemma length_transpose64 data : length (transpose64 data) = (8 * length data)%nat.
Proof. apply length_columns. Qed.

Lemma lookup_columns data i : forall n m j,
  (j < n)%nat -> (i < length data)%nat ->
  columns data (seq m n) !!! (i + j * length data)%nat = byte_of (m + j) (data !!! i).
Proof.
  intros n. induction n as [|n IH]; intros m j Hj Hi; [lia|]. cbn [seq columns].
  destruct j as [|j].
  - rewrite lookup_total_app_l by (rewrite length_fmap; lia).
    rewrite Nat.mul_0_l, !Nat.add_0_r. by apply list_lookup_total_fmap.
  - rewrite lookup_total_app_r by (rewrite length_fmap; lia). rewrite length_fmap.
    replace (i + S j * length data - length data)%nat with (i + j * length data)%nat by lia.
    rewrite IH by lia. by rewrite <- Nat.add_succ_comm.
Qed.

Lemma lookup_transpose64 data i j :
  (i < length data)%nat -> (j < 8)%nat ->
  transpose64 data !!! (i + j * length data)%nat = byte_of j (data !!! i).
Proof.
  intros Hi Hj. by apply (lookup_columns data i 8 0 j).
Qed.

(** The bytes of a word put together again. *)
Lemma join_bytes u :
  in_width 64 u ->
  fold_right (fun j x => Z.lor (wrap 64 (Z.shiftl x 8)) (byte_of j u)) 0 (seq 0 8) = u.
Proof.
  intros Hu.
  assert (forall n m, (m + n = 8)%nat ->
    fold_right (fun j x => Z.lor (wrap 64 (Z.shiftl x 8)) (byte_of j u)) 0 (seq m n) =
    Z.shiftr u (8 * Z.of_nat m)) as H; [|by rewrite (H 8%nat 0%nat) by lia].
  induction n as [|n IH]; intros m Hm; cbn [seq fold_right].
  - replace (8 * Z.of_nat m) with 64 by lia. rewrite Z.shiftr_div_pow2 by lia.
    symmetry. by apply Z.div_small.
  - rewrite IH by lia. apply Z.bits_inj'. intros k Hk.
    rewrite Z.lor_spec. unfold byte_of. rewrite Z.land_spec, !Z.shiftr_spec by lia.
    change 255 with (Z.ones 8).
    destruct (Z.ltb_spec k 8) as [Hlt|Hge].
    + rewrite Z.ones_spec_low by lia. unfold wrap. rewrite Z.mod_pow2_bits_low by lia.
      rewrite Z.shiftl_spec_low by lia. by rewrite andb_true_r.
    + rewrite Z.ones_spec_high by lia. rewrite andb_false_r, orb_false_r.
      destruct (Z.ltb_spec k 64) as [Hlt|Hge'].
      * unfold wrap. rewrite Z.mod_pow2_bits_low, Z.shiftl_spec, Z.shiftr_spec by lia.
        f_equal. lia.
      * unfold wrap. rewrite Z.mod_pow2_bits_high by lia.
        symmetry. apply (testbit_in_width 64); [done|lia].
Qed.

Lemma untranspose_transpose data :
  Forall (in_width 64) data -> untranspose64 (transpose64 data) (length data) = data.
Proof.
  intros Hd. unfold untranspose64. apply list_eq. intros i. rewrite list_lookup_fmap.
  destruct (Nat.ltb_spec i (length data)) as [Hi|Hi].
  - rewrite lookup_seq_lt by done.
    destruct (lookup_lt_is_Some_2 data i Hi) as [u Hu]. rewrite Hu.
    cbn [fmap option_fmap option_map]. f_equal.
    transitivity (fold_right (fun j x => Z.lor (wrap 64 (Z.shiftl x 8)) (byte_of j u)) 0 (seq 0 8)).
    + assert (forall js, Forall (fun j => j < 8)%nat js ->
        fold_right (fun j x => Z.lor (wrap 64 (Z.shiftl x 8))
          (transpose64 data !!! (i + j * length data)%nat)) 0 js =
        fold_right (fun j x => Z.lor (wrap 64 (Z.shiftl x 8)) (byte_of j u)) 0 js) as H.
      { induction 1 as [|j js Hj _ IH]; [done|]. cbn [fold_right]. rewrite IH.
        rewrite lookup_transpose64 by done. by rewrite (list_lookup_total_correct _ _ _ Hu). }
      apply H. apply Forall_seq. lia.
    + apply join_bytes. rewrite Forall_forall in Hd. apply Hd. by eapply list_elem_of_lookup_2.
  - rewrite lookup_ge_None_2 by (rewrite length_seq; lia). by rewrite lookup_ge_None_2.
Qed.

(** ** A connection: a sequence of lists coded by one side and decoded by the other *)

Inductive rle_message := Parts (l : list Z) | Words (l : list Z).

Definition rle_message_ok (m : rle_message) : Prop :=
  match m with Parts l => Forall (in_width 16) l | Words l => Forall (in_width 64) l end.

(** What the other side gets: part counts saturate at 255. *)
Definition received (m : rle_message) : list Z :=
  match m with Parts l => (fun c => Z.min c 255) <$> l | Words l => l end.

Definition transmit (s : RLE_Data * RLE_Data) (m : rle_message) :
  option (list Z * (RLE_Data * RLE_Data)) :=
  let '(e, d) := s in
  match m with
  | Parts l =>
      let '(enc, _, e') := EncodeUInt16 e l in
      '(out, d') ← DecodeParts d enc; Some (out, (e', d'))
  | Words l =>
      let '(enc, _, e') := EncodeUInt64 e l in
      '(out, d') ← DecodeUInt64 d enc; Some (out, (e', d'))
  end.

Fixpoint transmit_all (s : RLE_Data * RLE_Data) (ms : list rle_message) : option (list (list Z)) :=
  match ms with
  | [] => Some []
  | m :: ms =>
      '(out, s') ← transmit s m; outs ← transmit_all s' ms; Some (out :: outs)
  end.

Lemma transmit_spec r m :
  ok_rle r -> rle_message_ok m ->
  exists r', transmit (r, r) m = Some (received m, (r', r')) /\ ok_rle r'.
Proof.
  intros Hok Hm. destruct m as [l|l]; simpl in *.
  - unfold EncodeUInt16, DecodeParts.
    set (data := (fun ui => if ui >? 255 then 255 else wrap 8 ui) <$> l).
    assert (data = (fun c => Z.min c 255) <$> l) as Hdata.
    { apply list_fmap_ext. intros i x Hx. rewrite Forall_forall in Hm.
      pose proof (Hm x ltac:(by eapply list_elem_of_lookup_2)). case_cmp; width_lia. }
    assert (is_byte_list data) as Hb.
    { rewrite Hdata. apply Forall_fmap. eapply Forall_impl; [exact Hm|]. intros x Hx. simpl.
      width_lia. }
    destruct (Encode r data) as [[enc ch] r'] eqn:He.
    destruct (Encode_Decode r data enc ch r' Hok Hb He) as [-> ->].
    exists (sent r data). simpl. split; [|by apply sent_ok].
    rewrite Nat2Z.id, take_ge by lia. by rewrite Hdata.
  - unfold EncodeUInt64, DecodeUInt64. pose proof (transpose64_bytes l) as Hb.
    destruct (Encode r (transpose64 l)) as [[enc ch] r'] eqn:He.
    destruct (Encode_Decode r (transpose64 l) enc ch r' Hok Hb He) as [-> ->].
    exists (sent r (transpose64 l)). cbn -[untranspose64 transpose64]. split; [|by apply sent_ok].
    rewrite length_transpose64.
    replace (Z.to_nat (Z.of_nat (8 * length l) / 8)) with (length l) by lia.
    by rewrite untranspose_transpose.
Qed.

Lemma transmit_all_spec ms : forall r,
  ok_rle r -> Forall rle_message_ok ms -> transmit_all (r, r) ms = Some (received <$> ms).
Proof.
  induction ms as [|m ms IH]; intros r Hok Hms; [done|].
  inversion Hms as [|? ? Hm Hms']; subst. cbn [transmit_all].
  destruct (transmit_spec r m Hok Hm) as (r' & -> & Hok'). simpl.
  by rewrite IH.
Qed.

Lemma setup_ok len use_diff : 0 <= len -> ok_rle (setup len use_diff None).
Proof.
  intros Hl. unfold setup. case_cmp; simpl.
  - subst. split; [done|constructor].
  - split; [unfold wf_rle; simpl; rewrite length_replicate; lia|].
    apply Forall_replicate. width_lia.
Qed.

(** ** Properties *)

(** Round trip over a connection.  An encoder and a decoder that start in the same fresh
    state stay in step: whatever part-count and 64-bit lists are sent, in whatever order and of
    whatever changing lengths, every decoding succeeds and gives the list that was sent (part
    counts saturated at 255). *)
Theorem rle_connection_roundtrip (len : Z) (use_diff : bool) (ms : list rle_message)
  (Hlen : 0 <= len) (Hms : Forall rle_message_ok ms) :
  transmit_all (setup len use_diff None, setup len use_diff None) ms = Some (received <$> ms).
Proof. apply transmit_all_spec; [by apply setup_ok|done]. Qed.

Lemma rle_connection_roundtrip_witness :
  transmit_all (setup 0 true None, setup 0 true None)
    [Parts [1; 1; 1; 300; 2]; Words [3318106762; 3319229067]; Words []; Parts [7]] =
  Some [[1; 1; 1; 255; 2]; [3318106762; 3319229067]; []; [7]].
Proof.
  apply (rle_connection_roundtrip 0 true
    [Parts [1; 1; 1; 300; 2]; Words [3318106762; 3319229067]; Words []; Parts [7]]); [lia|].
  repeat constructor; vm_compute; intuition congruence.
Defined.

(** Bounds of the buffers.  In every state the encoded form of a block fits the
    [len * 3 / 2 + 1] bytes allocated for it and is made of bytes, and an unchanged block is
    reported as unchanged only if the state already held it; decoding any byte string at all,
    well formed or truncated, terminates after at most two passes with a buffer whose length is
    the expanded length. *)
Theorem rle_buffers_bounded (r : RLE_Data) (data wire : list Z)
  (Hr : ok_rle r) (Hdata : is_byte_list data) (Hwire : is_byte_list wire) :
  (exists enc changed r', Encode r data = (enc, changed, r') /\ is_byte_list enc /\
     Z.of_nat (length enc) <= Z.of_nat (length data) * 3 / 2 + 1 /\
     (changed = false -> data = m_buff r)) /\
  (exists r', Decode r wire = Some r' /\ wf_rle r' /\ m_len r' = Z.of_nat (length (expand wire))).
Proof.
  split.
  - destruct (Encode_spec r data Hr Hdata) as (enc & ch & He & Hb & Hl & _ & Hc).
    exists enc, ch, (sent r data). split; [done|]. split; [done|]. split; [lia|done].
  - rewrite Decode_spec by (apply Hr || done). eexists. split; [done|].
    unfold wf_rle, decode_spec. simpl. split; [|done].
    destruct (m_use_diff r); [|done]. by rewrite length_zip_with, length_resized, Nat.min_id.
Qed.

Lemma rle_buffers_bounded_witness :
  exists r', Decode (setup 3 true None) [5; 5] = Some r' /\ wf_rle r' /\ m_len r' = 2.
Proof.
  apply (rle_buffers_bounded (setup 3 true None) [] [5; 5]);
    [by apply setup_ok|constructor|repeat constructor; vm_compute; congruence].
Defined.
