(* ===== verification/BitVector.v ===== *)
(** * Packed bit vectors ([BitVector.h])

    The part status of a source: a byte array with a cached answer to "are all bits set?"
    ([m_allTrue]: 0 no, 1 yes, 2 unknown). *)
From S2P Require Import Prelude.

Record BitVector := mkBitVector {
  m_bits : Z;
  m_bytes : Z;
  m_vector : list Z;
  m_allTrue : Z
}.

Definition s_posMask : list Z := [1; 2; 4; 8; 16; 32; 64; 128].
Definition s_negMask : list Z := [254; 253; 251; 247; 239; 223; 191; 127].

Definition bv_empty : BitVector := mkBitVector 0 0 [] 0.

Definition get (v : BitVector) (idx : Z) : bool :=
  if idx >=? m_bits v then false
  else negb (Z.land (m_vector v !!! Z.to_nat (idx / 8)) (s_posMask !!! Z.to_nat (Z.land idx 7)) =? 0).

Definition set (v : BitVector) (idx : Z) (value : bool) : BitVector :=
  if idx >=? m_bits v then v
  else
    let bidx := Z.to_nat (idx / 8) in
    if value then
      mkBitVector (m_bits v) (m_bytes v)
        (<[bidx := Z.lor (m_vector v !!! bidx) (s_posMask !!! Z.to_nat (Z.land idx 7))]> (m_vector v))
        (if m_allTrue v =? 0 then 2 else m_allTrue v)
    else
      mkBitVector (m_bits v) (m_bytes v)
        (<[bidx := Z.land (m_vector v !!! bidx) (s_negMask !!! Z.to_nat (Z.land idx 7))]> (m_vector v))
        0.

Definition clear (v : BitVector) : BitVector := bv_empty.

Definition setsize (v : BitVector) (newsize : Z) (value : bool) : BitVector :=
  if newsize =? 0 then clear v
  else
    let bytes := newsize / 8 + (if Z.land newsize 7 =? 0 then 0 else 1) in
    mkBitVector newsize bytes (replicate (Z.to_nat bytes) (if value then 255 else 0))
      (if value then 1 else 0).

(** The loop over the bits of an uneven last byte, [n] rounds: did it find a clear bit? *)
Fixpoint last_bits_loop (v : BitVector) (i : Z) (n : nat) : bool :=
  match n with
  | O => false
  | S n' => if negb (get v i) then true else last_bits_loop v (i + 1) n'
  end.

(** [AllTrue] answers and updates the mutable cache. *)
Definition AllTrue (v : BitVector) : bool * BitVector :=
  if m_allTrue v =? 2 then
    let uneven := negb (Z.land (m_bits v) 7 =? 0) in
    let lastByte := if uneven then m_bytes v - 1 else m_bytes v in
    let start := Z.land (m_bits v) 4294967288 in
    let foundFalse :=
      (uneven && last_bits_loop v start (Z.to_nat (m_bits v - start)))
      || existsb (fun b => negb (b =? 255)) (take (Z.to_nat lastByte) (m_vector v)) in
    let c := if foundFalse then 0 else 1 in
    (c =? 1, mkBitVector (m_bits v) (m_bytes v) (m_vector v) c)
  else (m_allTrue v =? 1, v).

Definition SetAllTrue (v : BitVector) : BitVector :=
  if m_bytes v =? 0 then v
  else mkBitVector (m_bits v) (m_bytes v) (replicate (Z.to_nat (m_bytes v)) 255) (m_allTrue v).

Definition SetBuffer (v : BitVector) (src : list Z) : BitVector :=
  mkBitVector (m_bits v) (m_bytes v)
    (if m_bytes v =? 0 then m_vector v else take (Z.to_nat (m_bytes v)) src) 2.

(** ** Meaning *)

(** All the bits of the vector. *)
Definition bits (v : BitVector) : list bool :=
  (fun i => get v (Z.of_nat i)) <$> seq 0 (Z.to_nat (m_bits v)).

Definition all_bits_set (v : BitVector) : Prop := forall i, 0 <= i < m_bits v -> get v i = true.

Record wf_bitvector (v : BitVector) : Prop := {
  wf_bits : 0 <= m_bits v < 2 ^ 32;
  wf_bytes : m_bytes v = (m_bits v + 7) / 8;
  wf_vector : Z.of_nat (length (m_vector v)) = m_bytes v;
  wf_vec_bytes : Forall (in_width 8) (m_vector v)
}.

(** The cache is not contradicted by the bits. *)
Definition cache_ok (v : BitVector) : Prop :=
  (m_allTrue v = 1 -> all_bits_set v) /\
  (m_allTrue v = 0 -> 0 < m_bits v -> ~ all_bits_set v) /\
  (m_allTrue v = 0 \/ m_allTrue v = 1 \/ m_allTrue v = 2).

(** ** Lemmas *)

Lemma land7 z : 0 <= z -> Z.land z 7 = z mod 8.
Proof. intros. change 7 with (Z.ones 3). by rewrite Z.land_ones by lia. Qed.

Lemma posMask_pow k : 0 <= k < 8 -> s_posMask !!! Z.to_nat k = 2 ^ k.
Proof.
  intros. assert (k = 0 \/ k = 1 \/ k = 2 \/ k = 3 \/ k = 4 \/ k = 5 \/ k = 6 \/ k = 7) by lia.
  intuition subst; done.
Qed.

Lemma negMask_pow k : 0 <= k < 8 -> s_negMask !!! Z.to_nat k = Z.ldiff 255 (2 ^ k).
Proof.
  intros. assert (k = 0 \/ k = 1 \/ k = 2 \/ k = 3 \/ k = 4 \/ k = 5 \/ k = 6 \/ k = 7) by lia.
  intuition subst; done.
Qed.

Lemma land_pow2_testbit z k : 0 <= k -> negb (Z.land z (2 ^ k) =? 0) = Z.testbit z k.
Proof.
  intros Hk. destruct (Z.testbit z k) eqn:Ht.
  - apply negb_true_iff, Z.eqb_neq. intros H0.
    assert (Z.testbit (Z.land z (2 ^ k)) k = true) as Hc
      by (by rewrite Z.land_spec, Ht, Z.pow2_bits_true by lia).
    by rewrite H0, Z.bits_0 in Hc.
  - apply negb_false_iff, Z.eqb_eq, Z.bits_inj'. intros i Hi.
    rewrite Z.land_spec, Z.bits_0, Z.pow2_bits_eqb by lia.
    destruct (Z.eqb_spec k i) as [<-|]; [by rewrite Ht|by rewrite andb_false_r].
Qed.

Lemma get_testbit v i :
  0 <= i < m_bits v -> get v i = Z.testbit (m_vector v !!! Z.to_nat (i / 8)) (i mod 8).
Proof.
  intros Hi. unfold get. rewrite Z.geb_leb, (proj2 (Z.leb_gt _ _)) by lia.
  rewrite land7, posMask_pow by lia. apply land_pow2_testbit. lia.
Qed.

Lemma byte_255 b : in_width 8 b -> (b = 255 <-> forall k, 0 <= k < 8 -> Z.testbit b k = true).
Proof.
  intros Hb. change 255 with (Z.ones 8). split.
  - intros -> k Hk. by rewrite Z.ones_spec_low by lia.
  - intros H. apply Z.bits_inj'. intros k Hk. destruct (Z.ltb_spec k 8).
    + rewrite H, Z.ones_spec_low by lia. done.
    + rewrite (testbit_in_width 8), Z.ones_spec_high by (done || lia). done.
Qed.

Lemma vector_byte v i :
  wf_bitvector v -> (i < length (m_vector v))%nat -> in_width 8 (m_vector v !!! i).
Proof.
  intros [] Hi. rewrite Forall_forall in *. apply wf_vec_bytes0.
  apply list_elem_of_lookup_2 with i. by apply list_lookup_lookup_total_lt.
Qed.

Lemma land_mask_8 z : in_width 32 z -> Z.land z 4294967288 = 8 * (z / 8).
Proof.
  intros Hz. change 4294967288 with (Z.ldiff (Z.ones 32) (Z.ones 3)).
  replace (8 * (z / 8)) with (Z.shiftl (Z.shiftr z 3) 3)
    by (rewrite Z.shiftl_mul_pow2, Z.shiftr_div_pow2 by lia; change (2 ^ 3) with 8; lia).
  rewrite <- Z.ldiff_ones_r by lia. apply Z.bits_inj'. intros i Hi.
  rewrite Z.land_spec, !Z.ldiff_spec. destruct (Z.ltb_spec i 32).
  - rewrite Z.ones_spec_low by lia. by rewrite andb_true_l.
  - by rewrite (testbit_in_width 32 z) by (done || lia).
Qed.

Lemma last_bits_loop_spec v n : forall i,
  last_bits_loop v i n = true <-> exists k, i <= k < i + Z.of_nat n /\ get v k = false.
Proof.
  induction n as [|n IH]; intros i; simpl.
  - split; [done|]. intros (k & ? & _). lia.
  - destruct (get v i) eqn:Hg; simpl.
    + rewrite IH. split; intros (k & ? & Hk); exists k; (split; [|done]); [lia|].
      destruct (Z.eq_dec k i); [congruence|lia].
    + split; [|done]. intros _. exists i. split; [lia|done].
Qed.

Lemma existsb_not_255 l :
  existsb (fun b => negb (b =? 255)) l = true <-> exists i, (i < length l)%nat /\ l !!! i <> 255.
Proof.
  rewrite existsb_exists. split.
  - intros (b & Hb & Hne). apply list_elem_of_In, list_elem_of_lookup in Hb as [i Hi].
    exists i. split; [by eapply lookup_lt_Some|]. rewrite (list_lookup_total_correct _ _ _ Hi).
    by apply negb_true_iff, Z.eqb_neq in Hne.
  - intros (i & Hi & Hne). exists (l !!! i). split; [|by apply negb_true_iff, Z.eqb_neq].
    apply list_elem_of_In, list_elem_of_lookup_2 with i. by apply list_lookup_lookup_total_lt.
Qed.

(** The check of the unknown case finds a clear bit exactly if there is one. *)
Lemma AllTrue_unknown v :
  wf_bitvector v -> m_allTrue v = 2 -> ((AllTrue v).1 = true <-> all_bits_set v).
Proof.
  intros Hwf Hc. pose proof Hwf as []. unfold AllTrue. rewrite Hc, Z.eqb_refl.
  rewrite land7, land_mask_8 by (done || lia).
  set (uneven := negb (m_bits v mod 8 =? 0)).
  set (lastByte := if uneven then m_bytes v - 1 else m_bytes v).
  assert (lastByte = m_bits v / 8) as Hlast.
  { unfold lastByte, uneven. destruct (Z.eqb_spec (m_bits v mod 8) 0); simpl; lia. }
  rewrite Hlast. set (found := _ || _).
  assert (found = true <-> exists k, 0 <= k < m_bits v /\ get v k = false) as Hf.
  { unfold found. rewrite orb_true_iff, andb_true_iff, last_bits_loop_spec, existsb_not_255.
    rewrite length_take. split.
    - intros [[_ (k & Hk & Hg)]|(i & Hi & Hne)]; [exists k; split; [lia|done]|].
      rewrite lookup_total_take_lt in Hne by lia.
      pose proof (vector_byte v i Hwf ltac:(lia)) as Hb.
      destruct (decide (Exists (fun k => Z.testbit (m_vector v !!! i) k = false) (seqZ 0 8)))
        as [Hex|Hno].
      + apply Exists_exists in Hex as (k & Hk & Ht). apply elem_of_seqZ in Hk.
        exists (8 * Z.of_nat i + k). split; [lia|]. rewrite get_testbit by lia.
        replace ((8 * Z.of_nat i + k) / 8) with (Z.of_nat i) by lia.
        replace ((8 * Z.of_nat i + k) mod 8) with k by lia. by rewrite Nat2Z.id.
      + exfalso. apply Hne, byte_255; [done|]. intros k Hk.
        destruct (Z.testbit _ k) eqn:Ht; [done|]. exfalso. apply Hno, Exists_exists.
        exists k. split; [|done]. apply elem_of_seqZ. lia.
    - intros (k & Hk & Hg). destruct (Z.ltb_spec k (8 * (m_bits v / 8))) as [Hlt|Hge].
      + right. exists (Z.to_nat (k / 8)). split; [lia|]. rewrite lookup_total_take_lt by lia.
        intros H255. rewrite get_testbit in Hg by lia. rewrite H255 in Hg.
        change 255 with (Z.ones 8) in Hg. by rewrite Z.ones_spec_low in Hg by lia.
      + left. split; [|exists k; split; [lia|done]].
        unfold uneven. apply negb_true_iff, Z.eqb_neq. lia. }
  cbn [fst]. destruct found.
  - split; [done|]. intros Hall. destruct (proj1 Hf eq_refl) as (k & Hk & Hg).
    by rewrite Hall in Hg.
  - split; [|done]. intros _ k Hk. destruct (get v k) eqn:Hg; [done|].
    exfalso. assert (false = true); [|done]. apply Hf. by exists k.
Qed.

Lemma AllTrue_spec v :
  wf_bitvector v -> cache_ok v -> 0 < m_bits v ->
  ((AllTrue v).1 = true <-> all_bits_set v) /\ cache_ok (AllTrue v).2 /\
  wf_bitvector (AllTrue v).2 /\ forall i, get (AllTrue v).2 i = get v i.
Proof.
  intros Hwf (H1 & H0 & Hv) Hb.
  assert ((AllTrue v).1 = true <-> all_bits_set v) as Ha.
  { destruct (Z.eq_dec (m_allTrue v) 2) as [H2|H2]; [by apply AllTrue_unknown|].
    unfold AllTrue. rewrite (proj2 (Z.eqb_neq _ _)) by done. simpl.
    destruct Hv as [Hv|[Hv|Hv]]; [| |congruence]; rewrite Hv; simpl; split; try done.
    - intros Hall. by destruct (H0 Hv Hb).
    - intros _. by apply H1. }
  split; [done|]. pose proof Ha as Ha'. unfold AllTrue in Ha' |- *.
  destruct (Z.eqb_spec (m_allTrue v) 2) as [H2|H2]; [|by repeat (split; [done|])].
  simpl in *. set (found := _ || _) in *. split; [|split; [by destruct Hwf; constructor|done]].
  unfold cache_ok. simpl. destruct found; simpl in *.
  - split; [done|]. split; [|lia]. intros _ _ Hall. by apply Ha' in Hall.
  - split; [|split; [done|lia]]. intros _. by apply Ha'.
Qed.

(** Writing one bit. *)
Lemma set_spec v idx value :
  wf_bitvector v -> 0 <= idx ->
  wf_bitvector (set v idx value) /\ m_bits (set v idx value) = m_bits v /\
  (forall i, 0 <= i < m_bits v ->
     get (set v idx value) i = if (i =? idx) then value else get v i) /\
  (cache_ok v -> cache_ok (set v idx value)).
Proof.
  intros Hwf Hi. pose proof Hwf as []. unfold set.
  rewrite Z.geb_leb. destruct (Z.leb_spec (m_bits v) idx) as [Hge|Hlt].
  { split; [done|]. split; [done|]. split; [|done]. intros i Hi'.
    by rewrite (proj2 (Z.eqb_neq i idx)) by lia. }
  rewrite land7 by lia. rewrite posMask_pow, negMask_pow by lia.
  set (bidx := Z.to_nat (idx / 8)). set (k := idx mod 8).
  assert (bidx < length (m_vector v))%nat as Hlen by lia.
  pose proof (vector_byte v bidx Hwf Hlen) as Hb.
  assert (in_width 8 (2 ^ k)) as Hk.
  { split; [apply Z.pow_nonneg; lia|]. apply Z.pow_lt_mono_r; lia. }
  set (nb := if value then Z.lor (m_vector v !!! bidx) (2 ^ k)
             else Z.land (m_vector v !!! bidx) (Z.ldiff 255 (2 ^ k))).
  assert (in_width 8 nb) as Hnb.
  { unfold nb. destruct value; [by apply lor_in_width|].
    apply land_in_width_l; [done|done|]. apply Z.ldiff_nonneg. lia. }
  assert (forall j, 0 <= j < 8 -> Z.testbit nb j =
    if j =? k then value else Z.testbit (m_vector v !!! bidx) j) as Hbits.
  { intros j Hj. unfold nb. change 255 with (Z.ones 8). destruct value.
    - rewrite Z.lor_spec, Z.pow2_bits_eqb by lia. rewrite (Z.eqb_sym k j).
      destruct (j =? k); [by rewrite orb_true_r|by rewrite orb_false_r].
    - rewrite Z.land_spec, Z.ldiff_spec, Z.ones_spec_low, Z.pow2_bits_eqb by lia.
      rewrite (Z.eqb_sym k j). destruct (j =? k); simpl; [by rewrite andb_false_r|by rewrite andb_true_r]. }
  set (v' := mkBitVector (m_bits v) (m_bytes v) (<[bidx:=nb]> (m_vector v))
               (if value then if m_allTrue v =? 0 then 2 else m_allTrue v else 0)).
  assert ((if value then mkBitVector (m_bits v) (m_bytes v)
      (<[bidx:=Z.lor (m_vector v !!! bidx) (2 ^ k)]> (m_vector v))
      (if m_allTrue v =? 0 then 2 else m_allTrue v)
    else mkBitVector (m_bits v) (m_bytes v)
      (<[bidx:=Z.land (m_vector v !!! bidx) (Z.ldiff 255 (2 ^ k))]> (m_vector v)) 0) = v') as ->.
  { unfold v', nb. by destruct value. }
  assert (forall i, 0 <= i < m_bits v -> get v' i = if i =? idx then value else get v i) as Hget.
  { intros i Hi'. rewrite !get_testbit by done. simpl. fold bidx.
    destruct (decide (Z.to_nat (i / 8) = bidx)) as [He|Hne].
    - rewrite He, list_lookup_total_insert_eq by done. rewrite Hbits by lia.
      unfold bidx, k in *. destruct (Z.eqb_spec (i mod 8) (idx mod 8)), (Z.eqb_spec i idx);
        done || lia.
    - rewrite list_lookup_total_insert_ne by done.
      destruct (Z.eqb_spec i idx) as [->|]; [by destruct Hne|done]. }
  split; [|split; [done|split; [done|]]].
  - constructor; simpl; [done|done|by rewrite length_insert|].
    by apply Forall_insert.
  - intros (H1 & H0 & Hv). unfold cache_ok, all_bits_set. simpl. destruct value.
    + split; [|split].
      * intros Ha. destruct (Z.eqb_spec (m_allTrue v) 0); [done|]. intros i Hi'.
        rewrite Hget by done. destruct (i =? idx); [done|by apply H1].
      * destruct (Z.eqb_spec (m_allTrue v) 0); [done|]. intros Ha. by rewrite Ha in *.
      * destruct (Z.eqb_spec (m_allTrue v) 0); lia.
    + split; [done|]. split; [|lia]. intros _ _ Hall. specialize (Hall idx).
      rewrite Hget, Z.eqb_refl in Hall by lia. discriminate Hall. lia.
Qed.

Lemma get_replicate nb na n b i :
  in_width 8 b -> (b = 0 \/ b = 255) -> 0 <= i < nb -> nb <= 8 * Z.of_nat n ->
  get (mkBitVector nb na (replicate n b) 0) i = (b =? 255).
Proof.
  intros Hb Hv Hi Hn. rewrite get_testbit by done. simpl.
  rewrite lookup_total_replicate_2 by lia.
  destruct Hv as [-> | ->]; [by rewrite Z.bits_0|]. change 255 with (Z.ones 8).
  by rewrite Z.ones_spec_low by lia.
Qed.

Lemma get_ignores_cache nb na l c c' i :
  get (mkBitVector nb na l c) i = get (mkBitVector nb na l c') i.
Proof. done. Qed.

Lemma land7_bytes n : in_width 32 n -> n / 8 + (if Z.land n 7 =? 0 then 0 else 1) = (n + 7) / 8.
Proof. intros Hn. unfold in_width in Hn. rewrite land7 by lia. case_cmp; lia. Qed.

Lemma setsize_spec v n b :
  in_width 32 n ->
  wf_bitvector (setsize v n b) /\ m_bits (setsize v n b) = n /\ cache_ok (setsize v n b) /\
  forall i, 0 <= i < n -> get (setsize v n b) i = b.
Proof.
  intros Hn. unfold setsize. destruct (Z.eqb_spec n 0) as [->|H0].
  - split; [constructor; simpl; done || lia || constructor|]. split; [done|].
    split; [|lia]. split; [done|]. split; simpl; lia.
  - rewrite land7_bytes by done. unfold in_width in Hn.
    set (g := mkBitVector _ _ _ _).
    assert (forall i, 0 <= i < n -> get g i = b) as Hg.
    { intros i Hi. unfold g.
      rewrite (get_ignores_cache _ _ _ _ 0), get_replicate; destruct b; simpl; auto; width_lia. }
    split; [|split; [done|split; [|done]]].
    + constructor; simpl; [done|done|rewrite length_replicate; lia|].
      apply Forall_replicate. destruct b; width_lia.
    + unfold cache_ok, all_bits_set. simpl. destruct b; [by repeat split; try lia|].
      split; [done|]. split; [|lia]. intros _ _ Hall. specialize (Hall 0 ltac:(lia)).
      by rewrite Hg in Hall by lia.
Qed.

(** [SetAllTrue] sets the bits; the cache is only right if it did not say "no" before. *)
Lemma SetAllTrue_spec v :
  wf_bitvector v ->
  wf_bitvector (SetAllTrue v) /\ m_bits (SetAllTrue v) = m_bits v /\ all_bits_set (SetAllTrue v) /\
  (m_allTrue v = 1 \/ m_allTrue v = 2 -> cache_ok (SetAllTrue v)).
Proof.
  intros Hwf. pose proof Hwf as []. unfold SetAllTrue.
  destruct (Z.eqb_spec (m_bytes v) 0) as [H0|H0].
  - split; [done|]. split; [done|]. assert (all_bits_set v) as Hall by (intros i Hi; lia).
    split; [done|]. intros Hc. split; [done|]. split; [intros; lia|lia].
  - set (g := mkBitVector _ _ _ _). assert (all_bits_set g) as Hall.
    { intros i Hi. unfold g in *. simpl in Hi. rewrite (get_ignores_cache _ _ _ _ 0).
      rewrite get_replicate; [done|width_lia|by right|lia|lia]. }
    split; [|split; [done|split; [done|]]].
    + constructor; simpl; [done|done|rewrite length_replicate; lia|].
      apply Forall_replicate. width_lia.
    + intros Hc. split; [done|]. simpl. split; [intros; lia|lia].
Qed.

Lemma SetBuffer_spec v src :
  wf_bitvector v -> m_bytes v <= Z.of_nat (length src) -> Forall (in_width 8) src ->
  wf_bitvector (SetBuffer v src) /\ m_bits (SetBuffer v src) = m_bits v /\
  cache_ok (SetBuffer v src) /\
  forall i, 0 <= i < m_bits v ->
    get (SetBuffer v src) i = Z.testbit (src !!! Z.to_nat (i / 8)) (i mod 8).
Proof.
  intros Hwf Hl Hb. pose proof Hwf as []. unfold SetBuffer.
  split; [|split; [done|split]].
  - constructor; simpl; [done|done| |]; case_cmp; try done.
    + rewrite length_take. lia.
    + by apply Forall_take.
  - split; [done|]. simpl. split; lia.
  - intros i Hi. rewrite get_testbit by done. simpl. case_cmp; [lia|].
    by rewrite lookup_total_take_lt by lia.
Qed.

(** ** Histories of a vector *)

Inductive bv_op :=
| BvSet (idx : Z) (value : bool) | BvSetsize (n : Z) (value : bool) | BvClear
| BvAllTrue | BvSetBuffer (src : list Z).

Definition bv_exec (v : BitVector) (op : bv_op) : BitVector :=
  match op with
  | BvSet idx value => set v idx value
  | BvSetsize n value => setsize v n value
  | BvClear => clear v
  | BvAllTrue => (AllTrue v).2
  | BvSetBuffer src => SetBuffer v src
  end.

(** The index and size arguments are [uint32], a buffer is as long as the vector. *)
Definition bv_op_ok (v : BitVector) (op : bv_op) : Prop :=
  match op with
  | BvSet idx _ => in_width 32 idx
  | BvSetsize n _ => in_width 32 n
  | BvClear | BvAllTrue => True
  | BvSetBuffer src => m_bytes v <= Z.of_nat (length src) /\ Forall (in_width 8) src
  end.

Inductive bv_reachable : BitVector -> Prop :=
| bv_init : bv_reachable bv_empty
| bv_step v op : bv_reachable v -> bv_op_ok v op -> bv_reachable (bv_exec v op).

Lemma bv_reachable_ok v : bv_reachable v -> wf_bitvector v /\ cache_ok v.
Proof.
  assert (wf_bitvector bv_empty /\ cache_ok bv_empty) as Hempty.
  { split; [constructor; simpl; done || lia || constructor|].
    split; [done|]. simpl. split; [lia|by left]. }
  induction 1 as [|v op _ [Hwf Hc] Hop]; [done|].
  destruct op as [idx b|n b| | |src]; simpl in *.
  - destruct Hop as [Hi _]. destruct (set_spec v idx b Hwf Hi) as (? & _ & _ & ?). auto.
  - destruct (setsize_spec v n b Hop) as (? & _ & ? & _). auto.
  - done.
  - destruct (Z.eq_dec (m_bits v) 0) as [H0|H0].
    + unfold AllTrue. destruct (Z.eqb_spec (m_allTrue v) 2) as [H2|H2]; [|done]. simpl.
      split; [by destruct Hwf; constructor|]. pose proof Hwf as [].
      split; simpl; [intros _ i Hi; simpl in Hi; lia|]. split; [intros; lia|].
      case_match; simpl; lia.
    + destruct Hwf. destruct (AllTrue_spec v) as (_ & ? & ? & _); [by constructor|done|lia|auto].
  - destruct Hop as [Hl Hb]. destruct (SetBuffer_spec v src Hwf Hl Hb) as (? & _ & ? & _). auto.
Qed.

(** ** Properties *)

(** A packed vector is a vector of booleans.  In every state reached from the empty vector
    by [set], [setsize], [clear], [SetBuffer] and [AllTrue], writing a bit changes that bit and
    no other (out of range: nothing), and [AllTrue] on a non-empty vector answers whether every
    bit is set, leaving the bits alone. *)
Theorem bitvector_refines_bools (v : BitVector) (idx : Z) (value : bool)
  (Hv : bv_reachable v) (Hidx : in_width 32 idx) :
  (forall i, 0 <= i < m_bits v ->
     get (set v idx value) i = if i =? idx then value else get v i) /\
  (0 < m_bits v -> (AllTrue v).1 = true <-> all_bits_set v) /\
  (0 < m_bits v -> forall i, get (AllTrue v).2 i = get v i) /\
  Z.of_nat (length (m_vector v)) = (m_bits v + 7) / 8.
Proof.
  destruct (bv_reachable_ok v Hv) as [Hwf Hc]. pose proof Hwf as [].
  split; [apply set_spec; [done|apply Hidx]|]. split; [intros; by apply AllTrue_spec|].
  split; [intros; by apply AllTrue_spec|]. lia.
Qed.

Lemma bitvector_refines_witness :
  let v := bv_exec (bv_exec bv_empty (BvSetsize 11 false)) (BvSet 9 true) in
  bv_reachable v /\ get v 9 = true /\ ((AllTrue v).1 = true <-> all_bits_set v).
Proof.
  intros v. assert (bv_reachable v) as Hr.
  { apply bv_step; [apply bv_step; [constructor|]|]; vm_compute; intuition congruence. }
  split; [exact Hr|]. split; [reflexivity|].
  apply (bitvector_refines_bools v 0 true Hr); [vm_compute; intuition congruence|reflexivity].
Defined.

(** [SetAllTrue] leaves the cached "no" of a vector that had a clear bit: [AllTrue] keeps
    answering false on a vector whose bits are all set. *)
Lemma SetAllTrue_stale_cache :
  let v := SetAllTrue (setsize bv_empty 8 false) in
  (AllTrue v).1 = false /\ bits v = replicate 8 true.
Proof. done. Qed.
