(* ===== verification/BanRecord.v ===== *)
(** * The record of banned addresses ([BanRecord.h])

    A [std::map] from address to the tick its ban started.  The operations report whether they
    changed the record, because the caller keeps a counter beside it. *)
From S2P Require Import Prelude StdMap.

(** [CLIENTBANTIME = HR2MS(2)]. *)
Definition BAN_DURATION_MS : Z := 2 * 60 * 60 * 1000.

Abbreviation CBanRecord := (list (Z * Z)) (only parsing).

Definition Ban (ip nowMs : Z) (r : CBanRecord) : bool * CBanRecord :=
  if ip =? 0 then (false, r)
  else
    let isNew := match mfind ip r with None => true | Some _ => false end in
    (isNew, mset ip nowMs r).

Definition Unban (ip : Z) (r : CBanRecord) : bool * CBanRecord :=
  (match mfind ip r with None => false | Some _ => true end, merase ip r).

(** The answer, whether a lapsed entry was dropped, and the record. *)
Definition IsBanned (ip nowMs : Z) (r : CBanRecord) : bool * bool * CBanRecord :=
  if ip =? 0 then (false, false, r)
  else
    match mfind ip r with
    | None => (false, false, r)
    | Some start =>
        if wrap 64 (start + BAN_DURATION_MS) >? nowMs then (true, false, r)
        else (false, true, merase ip r)
    end.

(** The loop over the record; the count of the entries removed. *)
Fixpoint DropLapsed (nowMs : Z) (r : CBanRecord) : nat * CBanRecord :=
  match r with
  | [] => (O, [])
  | (ip, start) :: it =>
      let '(removed, r') := DropLapsed nowMs it in
      if wrap 64 (start + BAN_DURATION_MS) <=? nowMs then (S removed, r')
      else (removed, (ip, start) :: r')
  end.

Definition Size (r : CBanRecord) : Z := Z.of_nat (length r).

(** ** Histories: the record and the caller's counter *)

Inductive ban_event :=
| EvBan (ip now : Z) | EvUnban (ip : Z) | EvQuery (ip now : Z) | EvSweep (now : Z).

Definition ban_exec (s : CBanRecord * Z) (e : ban_event) : CBanRecord * Z :=
  let '(r, counter) := s in
  match e with
  | EvBan ip now => let '(new, r') := Ban ip now r in (r', if new then counter + 1 else counter)
  | EvUnban ip => let '(lifted, r') := Unban ip r in (r', if lifted then counter - 1 else counter)
  | EvQuery ip now =>
      let '(_, dropped, r') := IsBanned ip now r in (r', if dropped then counter - 1 else counter)
  | EvSweep now => let '(n, r') := DropLapsed now r in (r', counter - Z.of_nat n)
  end.

(** When the last ban of the address still standing started, from the events alone. *)
Definition ban_start_after (ip : Z) (start : option Z) (e : ban_event) : option Z :=
  match e with
  | EvBan ip' now => if (ip' =? ip) && negb (ip =? 0) then Some now else start
  | EvUnban ip' => if ip' =? ip then None else start
  | _ => start
  end.

(** Events carry ticks that do not go back, and leave room for the duration in 64 bits. *)
Definition event_time (e : ban_event) (now : Z) : Z :=
  match e with EvBan _ t | EvQuery _ t | EvSweep t => t | EvUnban _ => now end.

Fixpoint times_ok (now : Z) (es : list ban_event) : Prop :=
  match es with
  | [] => True
  | e :: es =>
      now <= event_time e now /\ event_time e now + BAN_DURATION_MS < 2 ^ 64 /\
      times_ok (event_time e now) es
  end.

Fixpoint last_time (now : Z) (es : list ban_event) : Z :=
  match es with [] => now | e :: es => last_time (event_time e now) es end.

(** ** Lemmas *)

Lemma DropLapsed_spec now r :
  Z.of_nat (DropLapsed now r).1 + Size (DropLapsed now r).2 = Size r /\
  (DropLapsed now r).2 =
    filter (fun e => negb (wrap 64 (e.2 + BAN_DURATION_MS) <=? now) = true) r.
Proof.
  unfold Size. induction r as [|[ip start] r [IH1 IH2]]; [done|]. cbn [DropLapsed].
  destruct (DropLapsed now r) as [n r']. cbn [fst snd] in *. rewrite list.filter_cons, <- IH2.
  cbn [fst snd length]. destruct (wrap 64 (start + BAN_DURATION_MS) <=? now); simpl; (split; [lia|done]).
Qed.

(** The record agrees with the history: it may have dropped bans that have lapsed, and no more. *)
Record ban_inv (now : Z) (spec : Z -> option Z) (s : CBanRecord * Z) : Prop := {
  ban_sorted : msorted s.1;
  ban_zero : spec 0 = None;
  ban_counter : s.2 = Size s.1;
  ban_agree : forall ip,
    mfind ip s.1 = spec ip \/
    (mfind ip s.1 = None /\ exists start, spec ip = Some start /\ start + BAN_DURATION_MS <= now);
  ban_bound : forall ip start, spec ip = Some start -> 0 <= start + BAN_DURATION_MS < 2 ^ 64
}.

Lemma wrap_start now spec s ip start :
  ban_inv now spec s -> mfind ip s.1 = Some start ->
  spec ip = Some start /\ wrap 64 (start + BAN_DURATION_MS) = start + BAN_DURATION_MS.
Proof.
  intros [] Hf. assert (spec ip = Some start) as Hs.
  { destruct (ban_agree0 ip) as [He|[He _]]; congruence. }
  split; [done|]. apply wrap_small. apply (ban_bound0 _ _ Hs).
Qed.

Lemma ban_step now spec s e :
  0 <= now -> ban_inv now spec s -> now <= event_time e now ->
  event_time e now + BAN_DURATION_MS < 2 ^ 64 ->
  ban_inv (event_time e now) (fun ip => ban_start_after ip (spec ip) e) (ban_exec s e).
Proof.
  intros Hnow Hinv Ht Hb. pose proof Hinv as [Hs Hz Hc Ha Hbd]. destruct s as [r c]. simpl in *.
  assert (forall ip t, now <= t ->
    mfind ip r = spec ip \/
    (mfind ip r = None /\ exists start, spec ip = Some start /\ start + BAN_DURATION_MS <= t)) as Ha'.
  { intros ip t Hle. destruct (Ha ip) as [?|(? & st & ? & ?)]; [by left|right].
    split; [done|]. exists st. split; [done|lia]. }
  unfold Size in *. destruct e as [ip t|ip|ip t|t]; simpl in *.
  - unfold Ban. destruct (Z.eqb_spec ip 0) as [->|H0]; simpl.
    + assert (forall ip', (if (0 =? ip') && negb (ip' =? 0) then Some t else spec ip') = spec ip')
        as Hsame.
      { intros ip'. by destruct (Z.eqb_spec 0 ip') as [<-|]. }
      constructor; simpl; [done|done|done| |]; intros ip'; specialize (Hsame ip');
        simpl in Hsame; rewrite Hsame;
        [by apply Ha'|apply Hbd].
    + constructor; simpl.
      * by apply msorted_set.
      * rewrite andb_false_r. done.
      * unfold Size. destruct (mfind ip r) as [st|] eqn:Hf.
        -- by rewrite (length_mset_found ip t st).
        -- rewrite length_mset_fresh by done. lia.
      * intros ip'. destruct (Z.eqb_spec ip ip') as [<-|Hne]; simpl.
        -- rewrite mfind_set_eq, (proj2 (Z.eqb_neq _ _)) by done. by left.
        -- rewrite mfind_set_ne by done. by apply Ha'.
      * intros ip' st. destruct ((ip =? ip') && _); [intros [= <-]; unfold BAN_DURATION_MS in *; lia|apply Hbd].
  - unfold Unban. constructor; simpl.
    + by apply msorted_erase.
    + by case_match.
    + unfold Size. destruct (mfind ip r) as [st|] eqn:Hf.
      * pose proof (length_merase_found ip st r Hf). lia.
      * by rewrite merase_absent.
    + intros ip'. destruct (Z.eqb_spec ip ip') as [<-|Hne].
      * rewrite mfind_erase_eq by done. by left.
      * rewrite mfind_erase_ne by done. apply Ha.
    + intros ip' st. case_match; [done|apply Hbd].
  - unfold IsBanned. destruct (Z.eqb_spec ip 0) as [->|H0]; [constructor; simpl; auto|].
    destruct (mfind ip r) as [st|] eqn:Hf; [|constructor; simpl; auto].
    destruct (wrap_start _ _ _ _ _ Hinv Hf) as [Hsp ->]. rewrite Z.gtb_ltb.
    destruct (Z.ltb_spec t (st + BAN_DURATION_MS)); constructor; simpl; auto.
    + by apply msorted_erase.
    + unfold Size. pose proof (length_merase_found ip st r Hf). lia.
    + intros ip'. destruct (Z.eq_dec ip' ip) as [->|Hne].
      * rewrite mfind_erase_eq by done. right. split; [done|]. by exists st.
      * rewrite mfind_erase_ne by done. by apply Ha'.
  - destruct (DropLapsed_spec t r) as [Hsz Hfl]. destruct (DropLapsed t r) as [n r'].
    simpl in *. subst r'. constructor; simpl; try done.
    + by apply msorted_filter.
    + unfold Size in *. lia.
    + intros ip. rewrite mfind_filter by done. destruct (mfind ip r) as [st|] eqn:Hf; cycle 1.
      { destruct (Ha' ip t Ht) as [He|[_ He]]; [left; congruence|by right]. }
      destruct (wrap_start _ _ _ _ _ Hinv Hf) as [Hsp Hw]. simpl. rewrite Hw.
      destruct (decide _) as [Hk|Hk]; [by left|right]. split; [done|]. exists st.
      split; [done|]. destruct (Z.leb_spec (st + BAN_DURATION_MS) t); [lia|]. by destruct Hk.
Qed.

Definition ban_start (es : list ban_event) (ip : Z) : option Z :=
  fold_left (ban_start_after ip) es None.

Lemma ban_run_inv es : forall now spec s,
  0 <= now -> ban_inv now spec s -> times_ok now es ->
  ban_inv (last_time now es) (fun ip => fold_left (ban_start_after ip) es (spec ip))
          (fold_left ban_exec es s).
Proof.
  induction es as [|e es IH]; intros now spec s Hnow Hinv Ht; [done|].
  destruct Ht as (H1 & H2 & H3). simpl. apply (IH _ (fun ip => ban_start_after ip (spec ip) e));
    [lia|by apply ban_step|done].
Qed.

(** ** Properties *)

(** A ban lasts its duration, and the caller's count is exact.  After any history of bans,
    lifted bans, queries and sweeps with ticks that do not go back, the counter a caller moves
    by the reported changes equals the size of the record, and a query at a later tick answers
    yes exactly when the address (zero excepted) was banned, the ban was not lifted since, and
    less than the ban duration has passed since the last ban. *)
Theorem banrecord_history (es : list ban_event) (ip now : Z)
  (Hes : times_ok 0 es) (Hnow : last_time 0 es <= now) :
  let '(r, counter) := fold_left ban_exec es ([], 0) in
  counter = Size r /\
  ((IsBanned ip now r).1.1 = true <->
   exists start, ban_start es ip = Some start /\ now < start + BAN_DURATION_MS).
Proof.
  pose proof (ban_run_inv es 0 (fun _ => None) ([], 0) ltac:(lia)) as Hinv.
  specialize (Hinv ltac:(constructor; simpl; try done; [constructor|by left]) Hes).
  cbn beta in Hinv. destruct (fold_left ban_exec es ([], 0)) as [r counter].
  pose proof Hinv as [_ Hz Hc Ha _]. simpl in *. split; [done|]. unfold IsBanned, ban_start.
  destruct (Z.eqb_spec ip 0) as [->|H0]; simpl.
  { rewrite Hz. split; [done|by intros (? & ? & ?)]. }
  destruct (mfind ip r) as [st|] eqn:Hf.
  - destruct (wrap_start _ _ _ _ _ Hinv Hf) as [Hsp ->]. simpl in Hsp. rewrite Hsp, Z.gtb_ltb.
    destruct (Z.ltb_spec now (st + BAN_DURATION_MS)); simpl.
    + split; [|done]. intros _. by exists st.
    + split; [done|]. intros (st' & [= <-] & ?). lia.
  - split; [done|]. intros (st & Hsp & Hlt).
    destruct (Ha ip) as [He|(_ & st' & Hsp' & ?)]; simplify_eq; [congruence|]. lia.
Qed.

Lemma banrecord_history_witness :
  let '(r, counter) := fold_left ban_exec
    [EvBan 7 1000; EvBan 8 2000; EvBan 7 3000; EvSweep 4000; EvUnban 8] ([], 0) in
  counter = Size r /\
  ((IsBanned 7 5000 r).1.1 = true <->
   exists start, ban_start [EvBan 7 1000; EvBan 8 2000; EvBan 7 3000; EvSweep 4000; EvUnban 8] 7
     = Some start /\ 5000 < start + BAN_DURATION_MS).
Proof.
  apply (banrecord_history [EvBan 7 1000; EvBan 8 2000; EvBan 7 3000; EvSweep 4000; EvUnban 8] 7 5000);
    [vm_compute; intuition congruence|vm_compute; congruence].
Defined.
