(* ===== verification/Contact.v ===== *)
(** * Kad contacts ([kademlia/routing/Contact.h], [Contact.cpp], [kademlia/utils/KadUDPKey.h])

    A contact is a C++ object that the routing table, the search lists and the caller share by
    pointer, so the live contacts are a heap: a finite map from addresses to contents.  [new]
    takes a fresh address, [delete] removes it.  [time_t] values are integers. *)
From S2P Require Import Prelude UInt128.

Record CKadUDPKey := mkUDPKey { m_key : Z; udp_m_ip : Z }.

Definition CKadUDPKey_zero : CKadUDPKey := mkUDPKey 0 0.

Definition GetKeyValue (k : CKadUDPKey) (myIP : Z) : Z :=
  if myIP =? udp_m_ip k then m_key k else 0.

Definition udpkey_eqb (k1 k2 : CKadUDPKey) : bool :=
  GetKeyValue k1 (udp_m_ip k1) =? GetKeyValue k2 (udp_m_ip k2).

Definition udpkey_IsEmpty (k : CKadUDPKey) : bool := (m_key k =? 0) || (udp_m_ip k =? 0).

Record CContact := mkContact {
  m_clientID : CUInt128;
  m_distance : CUInt128;
  m_ip : Z;
  m_tcpPort : Z;
  m_udpPort : Z;
  m_type : Z;
  m_lastTypeSet : Z;
  m_expires : Z;
  m_created : Z;
  m_inUse : Z;
  m_version : Z;
  m_ipVerified : bool;
  m_receivedHelloPacket : bool;
  m_udpKey : CKadUDPKey
}.

Definition MIN2S (m : Z) : Z := m * 60.
Definition HR2S (h : Z) : Z := h * 3600.

(** The constructor; [target] is our own Kad ID unless given. *)
Definition CContact_new (clientID : CUInt128) (ip udpPort tcpPort version : Z) (key : CKadUDPKey)
  (ipVerified : bool) (target : CUInt128) (now : Z) : CContact :=
  mkContact clientID (XOR target clientID) ip tcpPort udpPort 3 now 0 now 0 version ipVerified
    false key.

(** ** Setters *)

Definition set_types (c : CContact) (type lastTypeSet expires : Z) : CContact :=
  mkContact (m_clientID c) (m_distance c) (m_ip c) (m_tcpPort c) (m_udpPort c) type lastTypeSet
    expires (m_created c) (m_inUse c) (m_version c) (m_ipVerified c) (m_receivedHelloPacket c)
    (m_udpKey c).

Definition SetExpireTime (value : Z) (c : CContact) : CContact :=
  set_types c (m_type c) (m_lastTypeSet c) value.

Definition set_use (inUse : Z) (c : CContact) : CContact :=
  mkContact (m_clientID c) (m_distance c) (m_ip c) (m_tcpPort c) (m_udpPort c) (m_type c)
    (m_lastTypeSet c) (m_expires c) (m_created c) inUse (m_version c) (m_ipVerified c)
    (m_receivedHelloPacket c) (m_udpKey c).

Definition InUse (c : CContact) : bool := m_inUse c >? 0.
Definition IncUse (c : CContact) : CContact := set_use (u32 (m_inUse c + 1)) c.
Definition DecUse (c : CContact) : CContact :=
  if negb (m_inUse c =? 0) then set_use (u32 (m_inUse c - 1)) c else c.

(** Address, ports, version, key and flags; identity, type, times and use count stay. *)
Definition set_peer (c : CContact) (ip tcpPort udpPort version : Z) (verified hello : bool)
  (key : CKadUDPKey) : CContact :=
  mkContact (m_clientID c) (m_distance c) ip tcpPort udpPort (m_type c) (m_lastTypeSet c)
    (m_expires c) (m_created c) (m_inUse c) version verified hello key.

Definition SetIPVerified (v : bool) (c : CContact) : CContact :=
  set_peer c (m_ip c) (m_tcpPort c) (m_udpPort c) (m_version c) v (m_receivedHelloPacket c) (m_udpKey c).
Definition SetIPAddress (ip : Z) (c : CContact) : CContact :=
  if negb (m_ip c =? ip) then
    let c := SetIPVerified false c in
    set_peer c ip (m_tcpPort c) (m_udpPort c) (m_version c) (m_ipVerified c)
      (m_receivedHelloPacket c) (m_udpKey c)
  else c.
Definition SetTCPPort (port : Z) (c : CContact) : CContact :=
  set_peer c (m_ip c) port (m_udpPort c) (m_version c) (m_ipVerified c) (m_receivedHelloPacket c)
    (m_udpKey c).
Definition SetUDPPort (port : Z) (c : CContact) : CContact :=
  set_peer c (m_ip c) (m_tcpPort c) port (m_version c) (m_ipVerified c) (m_receivedHelloPacket c)
    (m_udpKey c).
Definition SetVersion (value : Z) (c : CContact) : CContact :=
  set_peer c (m_ip c) (m_tcpPort c) (m_udpPort c) value (m_ipVerified c) (m_receivedHelloPacket c)
    (m_udpKey c).
Definition SetUDPKey (key : CKadUDPKey) (c : CContact) : CContact :=
  set_peer c (m_ip c) (m_tcpPort c) (m_udpPort c) (m_version c) (m_ipVerified c)
    (m_receivedHelloPacket c) key.
Definition SetReceivedHelloPacket (c : CContact) : CContact :=
  set_peer c (m_ip c) (m_tcpPort c) (m_udpPort c) (m_version c) (m_ipVerified c) true (m_udpKey c).

(** ** Types *)

Definition CheckingType (now : Z) (c : CContact) : CContact :=
  if (now - m_lastTypeSet c <? 10) || (m_type c =? 4) then c
  else set_types c (u8 (m_type c + 1)) now (now + MIN2S 2).

Definition UpdateType (now : Z) (c : CContact) : CContact :=
  let hours := u32 (Z.quot (now - m_created c) (HR2S 1)) in
  if hours =? 0 then set_types c 2 (m_lastTypeSet c) (now + HR2S 1)
  else if hours =? 1 then set_types c 1 (m_lastTypeSet c) (now + MIN2S 90)
  else set_types c 0 (m_lastTypeSet c) (now + HR2S 2).

Definition GetLastSeen (c : CContact) : Z :=
  if negb (m_expires c =? 0) then
    if m_type c =? 2 then m_expires c - HR2S 1
    else if m_type c =? 1 then m_expires c - MIN2S 90
    else if m_type c =? 0 then m_expires c - HR2S 2
    else 0
  else 0.
