(* ===== verification/RoutingBin.v ===== *)
(** * Bins of the Kad routing table ([kademlia/routing/RoutingBin.h], [RoutingBin.cpp])

    A bin is the list of the contacts (addresses in the heap) of a leaf zone.  All bins share two
    maps that count the contacts per address and per /24 network. *)
From S2P Require Import Prelude StdMap UInt128 NetworkFunctions Contact.

Definition K : Z := 10.
Definition MAX_CONTACTS_SUBNET : Z := 10.
Definition MAX_CONTACTS_IP : Z := 1.

(** What the bins share: the live contacts, the next fresh address, the two tracking maps
    ([s_globalContactIPs], [s_globalContactSubnets]) and how often [wxFAIL] was reached. *)
Record KadState := mkKad {
  contacts : gmap Z CContact;
  next_contact : Z;
  s_globalContactIPs : list (Z * Z);
  s_globalContactSubnets : list (Z * Z);
  fails : Z
}.

Record CRoutingBin := mkBin { m_entries : list Z; m_dontDeleteContacts : bool }.

Definition CRoutingBin_new : CRoutingBin := mkBin [] false.

(** ** The heap *)

Definition null_contact : CContact :=
  CContact_new (of_uint32 0) 0 0 0 0 CKadUDPKey_zero false (of_uint32 0) 0.

(** [*contact]; for an address that is not live the result is arbitrary. *)
Definition deref (s : KadState) (p : Z) : CContact := default null_contact (contacts s !! p).

Definition set_contacts (s : KadState) (h : gmap Z CContact) : KadState :=
  mkKad h (next_contact s) (s_globalContactIPs s) (s_globalContactSubnets s) (fails s).

Definition update_contact (p : Z) (f : CContact -> CContact) (s : KadState) : KadState :=
  set_contacts s (alter f p (contacts s)).

Definition new_contact (c : CContact) (s : KadState) : Z * KadState :=
  (next_contact s,
   mkKad (<[next_contact s := c]> (contacts s)) (next_contact s + 1) (s_globalContactIPs s)
     (s_globalContactSubnets s) (fails s)).

Definition delete_contact (p : Z) (s : KadState) : KadState :=
  set_contacts s (delete p (contacts s)).

(** ** Global tracking *)

Definition count_of (k : Z) (m : list (Z * Z)) : Z := default 0 (mfind k m).

Definition store_count (k n : Z) (m : list (Z * Z)) : list (Z * Z) :=
  if negb (n =? 0) then mset k n m else merase k m.

(** [AdjustGlobalTracking(ip, true)] and [AdjustGlobalTracking(ip, false)]. *)
Definition AdjustGlobalTracking (ip : Z) (increase : bool) (s : KadState) : KadState :=
  let sameIPCount := count_of ip (s_globalContactIPs s) in
  let fail1 :=
    if increase then sameIPCount >=? MAX_CONTACTS_IP else sameIPCount =? 0 in
  let sameIPCount := u32 (if increase then sameIPCount + 1 else sameIPCount - 1) in
  let ips := store_count ip sameIPCount (s_globalContactIPs s) in
  let sameSubnetCount := count_of (subnet24 ip) (s_globalContactSubnets s) in
  let fail2 :=
    if increase
    then (sameSubnetCount >=? MAX_CONTACTS_SUBNET) && negb (IsLanIP (swap32 ip))
    else sameSubnetCount =? 0 in
  let sameSubnetCount := u32 (if increase then sameSubnetCount + 1 else sameSubnetCount - 1) in
  let subnets := store_count (subnet24 ip) sameSubnetCount (s_globalContactSubnets s) in
  mkKad (contacts s) (next_contact s) ips subnets
    (fails s + (if fail1 then 1 else 0) + (if fail2 then 1 else 0)).

Definition CheckGlobalIPLimits (ip port : Z) (s : KadState) : bool :=
  if count_of ip (s_globalContactIPs s) >=? MAX_CONTACTS_IP then false
  else if (count_of (subnet24 ip) (s_globalContactSubnets s) >=? MAX_CONTACTS_SUBNET) &&
          negb (IsLanIP (swap32 ip))
  then false
  else true.

(** ** Look-up *)

(** [GetContact(id)]. *)
Fixpoint find_id (s : KadState) (id : CUInt128) (l : list Z) : option Z :=
  match l with
  | [] => None
  | it :: l => if op_eq (m_clientID (deref s it)) id then Some it else find_id s id l
  end.

Definition GetContact (b : CRoutingBin) (id : CUInt128) (s : KadState) : option Z :=
  find_id s id (m_entries b).

(** [GetContact(ip, port, tcpPort)]. *)
Definition matches_ip (ip port : Z) (tcpPort : bool) (contact : CContact) : bool :=
  (m_ip contact =? ip) &&
  ((negb tcpPort && (port =? m_udpPort contact)) || (tcpPort && (port =? m_tcpPort contact)) ||
   (port =? 0)).

Definition GetContactByIP (b : CRoutingBin) (ip port : Z) (tcpPort : bool) (s : KadState) : option Z :=
  List.find (fun it => matches_ip ip port tcpPort (deref s it)) (m_entries b).

Definition GetOldest (b : CRoutingBin) : option Z := head (m_entries b).

Definition GetSize (b : CRoutingBin) : Z := u32 (Z.of_nat (length (m_entries b))).

(** Unsigned: more than [K] entries would wrap around. *)
Definition GetRemaining (b : CRoutingBin) : Z := u32 (K - Z.of_nat (length (m_entries b))).

Fixpoint count_versions (s : KadState) (minVersion : Z) (l : list Z) (n filtered : Z) : Z * Z :=
  match l with
  | [] => (n, filtered)
  | it :: l =>
      if m_version (deref s it) >=? minVersion
      then count_versions s minVersion l (u32 (n + 1)) filtered
      else count_versions s minVersion l n (u32 (filtered + 1))
  end.

Definition GetNumContactsBin (b : CRoutingBin) (minVersion n filtered : Z) (s : KadState) : Z * Z :=
  count_versions s minVersion (m_entries b) n filtered.

Definition GetEntries (b : CRoutingBin) (result : list Z) (emptyFirst : bool) : list Z :=
  (if emptyFirst then [] else result) ++ m_entries b.

Definition HasOnlyLANNodesBin (b : CRoutingBin) (s : KadState) : bool :=
  forallb (fun it => IsLanIP (swap32 (m_ip (deref s it)))) (m_entries b).

(** ** Changes *)

(** The loop of [AddContact]: [None] when the identity is known, else [sameSubnets]. *)
Fixpoint scan_entries (s : KadState) (contact : CContact) (l : list Z) (sameSubnets : Z) : option Z :=
  match l with
  | [] => Some sameSubnets
  | it :: l =>
      if op_eq (m_clientID contact) (m_clientID (deref s it)) then None
      else if subnet24 (m_ip contact) =? subnet24 (m_ip (deref s it))
      then scan_entries s contact l (sameSubnets + 1)
      else scan_entries s contact l sameSubnets
  end.

Definition AddContact (b : CRoutingBin) (contact : Z) (s : KadState) : bool * CRoutingBin * KadState :=
  let c := deref s contact in
  match scan_entries s c (m_entries b) 0 with
  | None => (false, b, s)
  | Some sameSubnets =>
      if negb (CheckGlobalIPLimits (m_ip c) (m_udpPort c) s) then (false, b, s)
      else if (sameSubnets >=? 2) && negb (IsLanIP (swap32 (m_ip c))) then (false, b, s)
      else if Z.of_nat (length (m_entries b)) <? K then
        (true, mkBin (m_entries b ++ [contact]) (m_dontDeleteContacts b),
         AdjustGlobalTracking (m_ip c) true s)
      else (false, b, s)
  end.

(** [m_entries.remove(contact)] drops every occurrence. *)
Definition RemoveContact (b : CRoutingBin) (contact : Z) (noTrackingAdjust : bool) (s : KadState) :
  CRoutingBin * KadState :=
  (mkBin (filter (fun p => p <> contact) (m_entries b)) (m_dontDeleteContacts b),
   if negb noTrackingAdjust then AdjustGlobalTracking (m_ip (deref s contact)) false s else s).

Definition PushToBottom (b : CRoutingBin) (contact : Z) (s : KadState) : CRoutingBin * KadState :=
  let '(b, s) := RemoveContact b contact true s in
  (mkBin (m_entries b ++ [contact]) (m_dontDeleteContacts b), s).

Definition SetAlive (now : Z) (b : CRoutingBin) (contact : Z) (s : KadState) : CRoutingBin * KadState :=
  match GetContact b (m_clientID (deref s contact)) s with
  | Some test => PushToBottom b test (update_contact test (UpdateType now) s)
  | None => (b, s)
  end.

Definition SetTCPPortBin (now : Z) (b : CRoutingBin) (ip port tcpPort : Z) (s : KadState) :
  CRoutingBin * KadState :=
  match List.find (fun it => (ip =? m_ip (deref s it)) && (port =? m_udpPort (deref s it)))
          (m_entries b) with
  | Some c => PushToBottom b c (update_contact c (UpdateType now) (update_contact c (SetTCPPort tcpPort) s))
  | None => (b, s)
  end.

Fixpoint count_subnet (s : KadState) (newIP : Z) (l : list Z) (sameSubnets : Z) : Z :=
  match l with
  | [] => sameSubnets
  | it :: l =>
      count_subnet s newIP l
        (if subnet24 newIP =? subnet24 (m_ip (deref s it)) then sameSubnets + 1 else sameSubnets)
  end.

Definition ChangeContactIPAddress (b : CRoutingBin) (contact newIP : Z) (s : KadState) : bool * KadState :=
  let ip := m_ip (deref s contact) in
  if ip =? newIP then (true, s)
  else if count_of newIP (s_globalContactIPs s) >=? MAX_CONTACTS_IP then (false, s)
  else if negb (subnet24 ip =? subnet24 newIP) &&
          (((count_of (subnet24 newIP) (s_globalContactSubnets s) >=? MAX_CONTACTS_SUBNET) &&
            negb (IsLanIP (swap32 newIP))) ||
           ((count_subnet s newIP (m_entries b) 0 >=? 2) && negb (IsLanIP (swap32 newIP))))
  then (false, s)
  else
    let s := AdjustGlobalTracking ip false s in
    let s := update_contact contact (SetIPAddress newIP) s in
    (true, AdjustGlobalTracking (m_ip (deref s contact)) true s).

Definition SetAllContactsVerifiedBin (b : CRoutingBin) (s : KadState) : KadState :=
  fold_left (fun s it => update_contact it (SetIPVerified true) s) (m_entries b) s.

(** The destructor: untracks every entry, and frees it unless told not to. *)
Definition CRoutingBin_delete (b : CRoutingBin) (s : KadState) : KadState :=
  fold_left (fun s it =>
    let s := AdjustGlobalTracking (m_ip (deref s it)) false s in
    if negb (m_dontDeleteContacts b) then delete_contact it s else s) (m_entries b) s.

(** ** Closest contacts *)

Definition ContactMap_insert (maxType : Z) (target : CUInt128) (inUse : bool)
  (acc : list (CUInt128 * Z) * KadState) (it : Z) : list (CUInt128 * Z) * KadState :=
  let '(result, s) := acc in
  let c := deref s it in
  if (m_type c <=? maxType) && m_ipVerified c
  then (mset (XOR (m_clientID c) target) it result,
        if inUse then update_contact it IncUse s else s)
  else (result, s).

(** [while (result->size() > maxRequired)]: one entry leaves per round. *)
Fixpoint drop_farthest (fuel : nat) (maxRequired : Z) (inUse : bool)
  (result : list (CUInt128 * Z)) (s : KadState) : list (CUInt128 * Z) * KadState :=
  match fuel with
  | O => (result, s)
  | S fuel =>
      if Z.of_nat (length result) >? maxRequired then
        let s := if inUse
          then match last result with
               | Some (_, it) => update_contact it DecUse s
               | None => s
               end
          else s in
        drop_farthest fuel maxRequired inUse (removelast result) s
      else (result, s)
  end.

Definition GetClosestToBin (b : CRoutingBin) (maxType : Z) (target : CUInt128) (maxRequired : Z)
  (result : list (CUInt128 * Z)) (emptyFirst inUse : bool) (s : KadState) :
  list (CUInt128 * Z) * KadState :=
  let result := if emptyFirst then [] else result in
  match m_entries b with
  | [] => (result, s)
  | _ =>
      let '(result, s) :=
        fold_left (ContactMap_insert maxType target inUse) (m_entries b) (result, s) in
      drop_farthest (length result) maxRequired inUse result s
  end.

(** ** A random contact; [rnd] is the next [GetRandomUint16()]. *)

Fixpoint random_scan (s : KadState) (maxType minKadVersion randomStartPos : Z) (l : list Z)
  (index : Z) (lastFit : option Z) : option Z :=
  match l with
  | [] => lastFit
  | it :: l =>
      if (m_type (deref s it) <=? maxType) && (m_version (deref s it) >=? minKadVersion) then
        if index >=? randomStartPos then Some it
        else random_scan s maxType minKadVersion randomStartPos l (index + 1) (Some it)
      else random_scan s maxType minKadVersion randomStartPos l (index + 1) lastFit
  end.

Definition GetRandomContactBin (b : CRoutingBin) (maxType minKadVersion rnd : Z) (s : KadState) : option Z :=
  match m_entries b with
  | [] => None
  | _ =>
      random_scan s maxType minKadVersion (rnd mod Z.of_nat (length (m_entries b))) (m_entries b) 0 None
  end.

#[global] Opaque subnet24 IsLanIP swap32.

(** ** Multiplicities *)

Fixpoint cnt (k : Z) (l : list Z) : Z :=
  match l with [] => 0 | x :: l => (if x =? k then 1 else 0) + cnt k l end.

Lemma cnt_nonneg k l : 0 <= cnt k l.
Proof. induction l; simpl; [lia|]. case_cmp; lia. Qed.

Lemma cnt_app k l1 l2 : cnt k (l1 ++ l2) = cnt k l1 + cnt k l2.
Proof. induction l1; simpl; lia. Qed.

#[export] Instance cnt_perm k : Proper (Permutation ==> eq) (cnt k).
Proof. induction 1; simpl; lia. Qed.

Lemma cnt_length k l : cnt k l <= Z.of_nat (length l).
Proof. induction l; simpl; [lia|]. case_cmp; lia. Qed.

Lemma cnt_pos k l : 0 < cnt k l <-> k ∈ l.
Proof.
  induction l as [|x l IH]; simpl; [split; [lia|inversion 1]|].
  rewrite elem_of_cons, <- IH. pose proof (cnt_nonneg k l).
  destruct (Z.eqb_spec x k) as [->|Hne].
  - split; [by left|lia].
  - split; [right; lia|intros [E|E]; [congruence|lia]].
Qed.

Lemma cnt_zero k l : k ∉ l -> cnt k l = 0.
Proof. rewrite <- cnt_pos. pose proof (cnt_nonneg k l). lia. Qed.

Lemma cnt_le1_NoDup l : (forall k, cnt k l <= 1) -> NoDup l.
Proof.
  induction l as [|x l IH]; intros H; [constructor|]. constructor.
  - specialize (H x). simpl in H. rewrite Z.eqb_refl in H. rewrite <- cnt_pos. lia.
  - apply IH. intros k. specialize (H k). simpl in H. revert H. case_cmp; lia.
Qed.

Lemma cnt_map_filter (f : Z -> Z) k l : cnt k (map f l) = Z.of_nat (length (filter (fun x => f x = k) l)).
Proof.
  induction l as [|x l IH]; simpl; [done|]. rewrite list.filter_cons.
  destruct (Z.eqb_spec (f x) k); [rewrite decide_True by done | rewrite decide_False by done]; simpl; lia.
Qed.

(** Distinct addresses share a /24 network at most 256 times. *)
Lemma cnt_subnet_256 l k :
  (forall ip, cnt ip l <= 1) -> Forall (in_width 32) l -> cnt k (map subnet24 l) <= 256.
Proof.
  intros H1 Hw. rewrite cnt_map_filter.
  assert (length (filter (fun x => subnet24 x = k) l) <= length (seqZ k 256))%nat as Hl.
  { apply submseteq_length, NoDup_submseteq; [by apply NoDup_filter, cnt_le1_NoDup|].
    intros x Hx. apply list_elem_of_filter in Hx as [Hs Hx]. rewrite Forall_forall in Hw.
    apply elem_of_seqZ. rewrite <- Hs. rewrite subnet24_eq by auto. lia. }
  rewrite length_seqZ in Hl. lia.
Qed.

(** ** Tracking maps *)

(** The map holds the multiplicities of the list, without zeros. *)
Definition counts (m : list (Z * Z)) (l : list Z) : Prop :=
  msorted m /\ forall k, mfind k m = if cnt k l =? 0 then None else Some (cnt k l).

Lemma counts_count_of m l k : counts m l -> count_of k m = cnt k l.
Proof. intros [_ H]. unfold count_of. rewrite H. case_cmp; simpl; lia. Qed.

Lemma counts_ext m l l' : (forall k, cnt k l = cnt k l') -> counts m l -> counts m l'.
Proof. intros He [Hs H]. split; [done|]. intros k. by rewrite <- He. Qed.

Lemma counts_store m l l' k n :
  counts m l -> n = cnt k l' -> (forall k', k' <> k -> cnt k' l' = cnt k' l) ->
  counts (store_count k n m) l'.
Proof.
  intros [Hs H] -> He. unfold store_count.
  destruct (Z.eqb_spec (cnt k l') 0) as [H0|H0]; simpl; (split; [auto with amule|]); intros k'.
  - destruct (decide (k' = k)) as [->|Hne].
    + rewrite mfind_erase_eq by done. by rewrite H0.
    + rewrite mfind_erase_ne by done. by rewrite H, He.
  - destruct (decide (k' = k)) as [->|Hne].
    + rewrite mfind_set_eq. by destruct (Z.eqb_spec (cnt k l') 0).
    + rewrite mfind_set_ne by done. by rewrite H, He.
Qed.

Lemma counts_inc m l k :
  counts m l -> cnt k l + 1 < 2 ^ 32 -> counts (store_count k (u32 (count_of k m + 1)) m) (k :: l).
Proof.
  intros Hc Hb. rewrite (counts_count_of m l) by done. pose proof (cnt_nonneg k l).
  apply (counts_store m l); [done| |]; simpl.
  - rewrite Z.eqb_refl, wrap_small by width_lia. lia.
  - intros k' Hne. by destruct (Z.eqb_spec k k'); [congruence|].
Qed.

Lemma counts_dec m l k :
  counts m (k :: l) -> cnt k l + 1 < 2 ^ 32 -> counts (store_count k (u32 (count_of k m - 1)) m) l.
Proof.
  intros Hc Hb. rewrite (counts_count_of m (k :: l)) by done. pose proof (cnt_nonneg k l).
  apply (counts_store m (k :: l)); [done| |]; simpl.
  - rewrite Z.eqb_refl, wrap_small by width_lia. lia.
  - intros k' Hne. by destruct (Z.eqb_spec k k'); [congruence|].
Qed.

(** Of any /24 in the list there are at most [lim], LAN networks aside. *)
Definition limits (lim : Z) (l : list Z) : Prop :=
  forall ip, ip ∈ l -> cnt (subnet24 ip) (map subnet24 l) <= lim \/ IsLanIP (swap32 ip) = true.

Lemma limits_ext lim l l' : Permutation l l' -> limits lim l -> limits lim l'.
Proof. intros Hp H ip Hip. rewrite <- Hp. apply H. by rewrite Hp. Qed.

#[export] Instance limits_perm lim : Proper (Permutation ==> iff) (limits lim).
Proof. intros l l' Hp. split; apply limits_ext; [done|by symmetry]. Qed.

Lemma limits_sub lim l l' : limits lim (l ++ l') -> limits lim l.
Proof.
  intros H ip Hip. destruct (H ip) as [Hc|Hl]; [set_solver| |by right]. left.
  rewrite map_app, cnt_app in Hc. pose proof (cnt_nonneg (subnet24 ip) (map subnet24 l')). lia.
Qed.

Lemma limits_room lim x l : limits lim (x :: l) ->
  cnt (subnet24 x) (map subnet24 l) < lim \/ IsLanIP (swap32 x) = true.
Proof.
  intros H. destruct (H x) as [Hc|Hl]; [set_solver| |by right]. left.
  simpl in Hc. rewrite Z.eqb_refl in Hc. lia.
Qed.

Lemma limits_cons lim x l :
  Forall (in_width 32) (x :: l) -> limits lim l ->
  cnt (subnet24 x) (map subnet24 l) < lim \/ IsLanIP (swap32 x) = true -> limits lim (x :: l).
Proof.
  intros Hw Hl Hx ip Hip. simpl. inversion Hw as [|? ? Hwx Hwl]; subst.
  destruct (Z.eqb_spec (subnet24 x) (subnet24 ip)) as [E|E].
  - rewrite <- E. destruct Hx as [Hx|Hx]; [left; lia|right].
    rewrite <- (IsLanIP_subnet24 x ip); [done|done| |done].
    rewrite Forall_forall in Hw. by apply Hw.
  - apply elem_of_cons in Hip as [-> | Hip]; [done|]. destruct (Hl ip Hip); [left; lia|by right].
Qed.

(** The two maps track exactly the addresses [l], which respect the limits. *)
Record tracked_ips (s : KadState) (l : list Z) : Prop := {
  tr_ips : counts (s_globalContactIPs s) l;
  tr_subnets : counts (s_globalContactSubnets s) (map subnet24 l);
  tr_width : Forall (in_width 32) l;
  tr_one : forall ip, cnt ip l <= MAX_CONTACTS_IP;
  tr_limits : limits MAX_CONTACTS_SUBNET l
}.

#[export] Instance tracked_ips_perm s : Proper (Permutation ==> iff) (tracked_ips s).
Proof.
  assert (forall l l', Permutation l l' -> tracked_ips s l -> tracked_ips s l') as H.
  { intros l l' Hp [H1 H2 H3 H4 H5]. split.
    - apply (counts_ext _ l); [|done]. intros. by rewrite Hp.
    - apply (counts_ext _ (map subnet24 l)); [|done]. intros. by rewrite Hp.
    - by rewrite <- Hp.
    - intros. by rewrite <- Hp.
    - by apply (limits_ext _ l). }
  intros l l' Hp. split; apply H; [done|by symmetry].
Qed.

Lemma tracked_bounds s l ip : tracked_ips s l ->
  cnt ip l <= 1 /\ cnt (subnet24 ip) (map subnet24 l) <= 256.
Proof. intros H. split; [apply H|]. apply cnt_subnet_256; apply H. Qed.

Lemma adjust_ips ip inc s : s_globalContactIPs (AdjustGlobalTracking ip inc s) =
  store_count ip (u32 (if inc then count_of ip (s_globalContactIPs s) + 1
                       else count_of ip (s_globalContactIPs s) - 1)) (s_globalContactIPs s).
Proof. by destruct inc. Qed.

Lemma adjust_subnets ip inc s : s_globalContactSubnets (AdjustGlobalTracking ip inc s) =
  store_count (subnet24 ip)
    (u32 (if inc then count_of (subnet24 ip) (s_globalContactSubnets s) + 1
          else count_of (subnet24 ip) (s_globalContactSubnets s) - 1)) (s_globalContactSubnets s).
Proof. by destruct inc. Qed.

Lemma adjust_fails ip inc s : fails (AdjustGlobalTracking ip inc s) =
  fails s +
  (if (if inc then count_of ip (s_globalContactIPs s) >=? MAX_CONTACTS_IP
       else count_of ip (s_globalContactIPs s) =? 0) then 1 else 0) +
  (if (if inc
       then (count_of (subnet24 ip) (s_globalContactSubnets s) >=? MAX_CONTACTS_SUBNET) &&
            negb (IsLanIP (swap32 ip))
       else count_of (subnet24 ip) (s_globalContactSubnets s) =? 0) then 1 else 0).
Proof. reflexivity. Qed.

Lemma adjust_heap ip inc s : contacts (AdjustGlobalTracking ip inc s) = contacts s /\
  next_contact (AdjustGlobalTracking ip inc s) = next_contact s.
Proof. done. Qed.

#[global] Opaque AdjustGlobalTracking.

Lemma tracked_increase s l ip :
  tracked_ips s l -> in_width 32 ip -> cnt ip l < MAX_CONTACTS_IP ->
  cnt (subnet24 ip) (map subnet24 l) < MAX_CONTACTS_SUBNET \/ IsLanIP (swap32 ip) = true ->
  tracked_ips (AdjustGlobalTracking ip true s) (ip :: l) /\
  fails (AdjustGlobalTracking ip true s) = fails s.
Proof.
  intros H Hip H1 H2. pose proof (tracked_bounds s l ip H) as [Hb1 Hb2].
  split.
  - destruct H as [Hi Hs Hw Ho Hl]. split; rewrite ?adjust_ips, ?adjust_subnets.
    + apply counts_inc; [done|]. unfold MAX_CONTACTS_IP in *. lia.
    + simpl. apply counts_inc; [done|]. lia.
    + by constructor.
    + intros ip'. simpl. specialize (Ho ip'). destruct (Z.eqb_spec ip ip'); [subst|]; lia.
    + apply limits_cons; [by constructor|done|done].
  - destruct H as [Hi Hs _ _ _]. rewrite adjust_fails.
    rewrite (counts_count_of _ _ _ Hi), (counts_count_of _ _ _ Hs).
    rewrite !Z.geb_leb. destruct (Z.leb_spec MAX_CONTACTS_IP (cnt ip l)); [lia|].
    destruct (Z.leb_spec MAX_CONTACTS_SUBNET (cnt (subnet24 ip) (map subnet24 l))); simpl; [|lia].
    destruct H2 as [H2| ->]; simpl; lia.
Qed.

Lemma tracked_decrease s l ip :
  tracked_ips s (ip :: l) ->
  tracked_ips (AdjustGlobalTracking ip false s) l /\
  fails (AdjustGlobalTracking ip false s) = fails s.
Proof.
  intros H. pose proof (tracked_bounds s _ ip H) as [Hb1 Hb2].
  simpl in Hb1, Hb2. rewrite Z.eqb_refl in Hb1, Hb2.
  pose proof (cnt_nonneg ip l). pose proof (cnt_nonneg (subnet24 ip) (map subnet24 l)).
  split.
  - destruct H as [Hi Hs Hw Ho Hl]. split; rewrite ?adjust_ips, ?adjust_subnets.
    + apply counts_dec; [done|lia].
    + apply counts_dec; [done|lia].
    + by inversion Hw.
    + intros ip'. specialize (Ho ip'). simpl in Ho. revert Ho. case_cmp; lia.
    + apply (limits_sub _ l [ip]). eapply limits_ext; [|exact Hl]. by rewrite (Permutation_app_comm l [ip]).
  - destruct H as [Hi Hs _ _ _]. rewrite adjust_fails.
    rewrite (counts_count_of _ _ _ Hi), (counts_count_of _ _ _ Hs).
    simpl. rewrite !Z.eqb_refl.
    destruct (Z.eqb_spec (1 + cnt ip l) 0), (Z.eqb_spec (1 + cnt (subnet24 ip) (map subnet24 l)) 0); lia.
Qed.

Lemma CheckGlobalIPLimits_spec s l ip port : tracked_ips s l ->
  CheckGlobalIPLimits ip port s = true <->
  cnt ip l < MAX_CONTACTS_IP /\
  (cnt (subnet24 ip) (map subnet24 l) < MAX_CONTACTS_SUBNET \/ IsLanIP (swap32 ip) = true).
Proof.
  intros [Hi Hs _ _ _]. unfold CheckGlobalIPLimits.
  rewrite (counts_count_of _ _ _ Hi), (counts_count_of _ _ _ Hs). rewrite !Z.geb_leb.
  destruct (Z.leb_spec MAX_CONTACTS_IP (cnt ip l)); [split; [done|lia]|].
  destruct (Z.leb_spec MAX_CONTACTS_SUBNET (cnt (subnet24 ip) (map subnet24 l)));
    destruct (IsLanIP (swap32 ip)); simpl; split; try done; auto; lia.
Qed.

Lemma CheckGlobalIPLimits_false s l ip port : tracked_ips s l ->
  CheckGlobalIPLimits ip port s = false <->
  ~ (cnt ip l < MAX_CONTACTS_IP /\
     (cnt (subnet24 ip) (map subnet24 l) < MAX_CONTACTS_SUBNET \/ IsLanIP (swap32 ip) = true)).
Proof.
  intros H. rewrite <- (CheckGlobalIPLimits_spec s l ip port H).
  by destruct (CheckGlobalIPLimits ip port s).
Qed.

(** ** Well-formed bins *)

Definition id_of (s : KadState) (p : Z) : CUInt128 := m_clientID (deref s p).
Definition ip_of (s : KadState) (p : Z) : Z := m_ip (deref s p).
Definition ips (s : KadState) (l : list Z) : list Z := map (ip_of s) l.
Definition ids (s : KadState) (l : list Z) : list CUInt128 := map (id_of s) l.

(** The contacts [l] are exactly those the tracking maps count. *)
Definition tracked (s : KadState) (l : list Z) : Prop := tracked_ips s (ips s l).

#[export] Instance tracked_perm s : Proper (Permutation ==> iff) (tracked s).
Proof. intros l l' Hp. unfold tracked, ips. by rewrite Hp. Qed.

#[export] Instance ids_perm s : Proper (Permutation ==> Permutation) (ids s).
Proof. intros l l' Hp. unfold ids. by rewrite Hp. Qed.

#[export] Instance ips_perm s : Proper (Permutation ==> Permutation) (ips s).
Proof. intros l l' Hp. unfold ips. by rewrite Hp. Qed.

(** States with the same contents at the addresses [l]. *)
Definition agree (l : list Z) (s s' : KadState) : Prop :=
  forall p, p ∈ l -> contacts s' !! p = contacts s !! p.

Lemma agree_deref l s s' p : agree l s s' -> p ∈ l -> deref s' p = deref s p.
Proof. intros H Hp. unfold deref. by rewrite H. Qed.

Lemma agree_map {A} (f : CContact -> A) l s s' : agree l s s' ->
  map (fun p => f (deref s' p)) l = map (fun p => f (deref s p)) l.
Proof.
  intros H. apply map_ext_in. intros p Hp. apply list_elem_of_In in Hp.
  by rewrite (agree_deref l s s').
Qed.

Lemma agree_ips l s s' : agree l s s' -> ips s' l = ips s l.
Proof. apply (agree_map m_ip). Qed.

Lemma agree_ids l s s' : agree l s s' -> ids s' l = ids s l.
Proof. apply (agree_map m_clientID). Qed.

Lemma agree_sub l l' s s' : agree l s s' -> l' ⊆ l -> agree l' s s'.
Proof. intros H Hs p Hp. apply H. set_solver. Qed.

Lemma agree_same_heap l s s' : contacts s' = contacts s -> agree l s s'.
Proof. intros E p _. by rewrite E. Qed.

Section Bin.

Context (me : CUInt128).

(** A contact whose distance is its identity's distance from ours. *)
Record contact_ok (c : CContact) : Prop := {
  ok_id : wf_uint128 (m_clientID c);
  ok_ip : in_width 32 (m_ip c);
  ok_distance : m_distance c = XOR me (m_clientID c)
}.

Definition live (s : KadState) (p : Z) : Prop := exists c, contacts s !! p = Some c /\ contact_ok c.

Record bin_ok (s : KadState) (b : CRoutingBin) : Prop := {
  bin_size : Z.of_nat (length (m_entries b)) <= K;
  bin_owns : m_dontDeleteContacts b = false;
  bin_live : Forall (live s) (m_entries b);
  bin_ids : NoDup (ids s (m_entries b));
  bin_limits : limits 2 (ips s (m_entries b))
}.

Lemma live_deref s p : live s p -> contacts s !! p = Some (deref s p) /\ contact_ok (deref s p).
Proof. intros (c & Hc & Hok). unfold deref. by rewrite Hc. Qed.

Lemma live_agree s s' l : agree l s s' -> Forall (live s) l -> Forall (live s') l.
Proof.
  intros H. rewrite !Forall_forall. intros Hl p Hp. destruct (Hl p Hp) as (c & Hc & Hok).
  exists c. by rewrite H.
Qed.

Lemma bin_ok_agree s s' b : agree (m_entries b) s s' -> bin_ok s b -> bin_ok s' b.
Proof.
  intros H [H1 H2 H3 H4 H5]. split; [done|done|by apply (live_agree s)| |].
  - by rewrite (agree_ids _ _ _ H).
  - by rewrite (agree_ips _ _ _ H).
Qed.

Lemma bin_ok_new s : bin_ok s CRoutingBin_new.
Proof. split; simpl; [done|done|constructor|constructor|]. intros ip H. inversion H. Qed.

Lemma op_eq_spec x y : wf_uint128 x -> wf_uint128 y -> op_eq x y = bool_decide (x = y).
Proof.
  intros Hx Hy. unfold op_eq. rewrite CompareTo_spec by done. apply eq_bool_prop_intro.
  rewrite !Is_true_true, bool_decide_eq_true, Z.eqb_eq. split.
  - intros H. apply value_inj; [done|done|lia].
  - intros ->. lia.
Qed.

Lemma live_id s p : live s p -> wf_uint128 (id_of s p).
Proof. intros H. apply live_deref in H as [_ [Hok _ _]]. done. Qed.

Lemma live_ip s p : live s p -> in_width 32 (ip_of s p).
Proof. intros H. apply live_deref in H as [_ [_ Hok _]]. done. Qed.

Lemma find_id_spec s id l : wf_uint128 id -> Forall (live s) l ->
  match find_id s id l with
  | Some p => p ∈ l /\ id_of s p = id
  | None => id ∉ ids s l
  end.
Proof.
  intros Hid. induction 1 as [|p l Hp Hl IH]; simpl; [by intros H; inversion H|].
  rewrite op_eq_spec by (done || by apply live_id). destruct (bool_decide_reflect (m_clientID (deref s p) = id)).
  - split; [by left|done].
  - destruct (find_id s id l) as [q|]; [destruct IH; split; [by right|done]|].
    rewrite not_elem_of_cons. split; [|done]. unfold id_of. congruence.
Qed.

Lemma find_id_unique s p l : Forall (live s) l -> NoDup (ids s l) -> p ∈ l ->
  find_id s (id_of s p) l = Some p.
Proof.
  intros Hl Hn Hp. pose proof (find_id_spec s (id_of s p) l) as H.
  rewrite Forall_forall in Hl. specialize (H (live_id s p (Hl p Hp))). rewrite <- Forall_forall in Hl.
  specialize (H Hl). destruct (find_id _ _ _) as [q|].
  - destruct H as [Hq E]. f_equal.
    clear Hl. induction l as [|x l IH]; [inversion Hp|]. simpl in Hn. inversion Hn as [|? ? Hnx Hn']; subst.
    assert (forall y, y ∈ l -> id_of s y ∈ ids s l) as Hin by (intros y Hy; by apply list_elem_of_fmap_2).
    apply elem_of_cons in Hp as [-> | Hp], Hq as [-> | Hq]; [done| | |by apply IH].
    + exfalso. apply Hnx. rewrite <- E. by apply Hin.
    + exfalso. apply Hnx. rewrite E. by apply Hin.
  - exfalso. apply H. by apply list_elem_of_fmap_2.
Qed.

Lemma scan_entries_spec s c l n : wf_uint128 (m_clientID c) -> Forall (live s) l ->
  scan_entries s c l n =
  if bool_decide (m_clientID c ∈ ids s l) then None
  else Some (n + cnt (subnet24 (m_ip c)) (map subnet24 (ips s l))).
Proof.
  intros Hid Hl. revert n. induction Hl as [|p l Hp Hl IH]; intros n; simpl.
  - f_equal. lia.
  - rewrite op_eq_spec by (done || by apply live_id).
    destruct (bool_decide_reflect (m_clientID c = m_clientID (deref s p))) as [E|E].
    + rewrite bool_decide_true; [done|]. rewrite E. by left.
    + rewrite Z.eqb_sym. change (m_ip (deref s p)) with (ip_of s p).
      assert (bool_decide (m_clientID c ∈ id_of s p :: ids s l) = bool_decide (m_clientID c ∈ ids s l)) as ->.
      { apply bool_decide_ext. rewrite elem_of_cons. split; [|by right]. by intros [?|?]. }
      destruct (Z.eqb_spec (subnet24 (ip_of s p)) (subnet24 (m_ip c))); rewrite IH;
        destruct (bool_decide _); f_equal; lia.
Qed.

(** ** Adding *)

(** When a bin accepts a contact, given the addresses [L] of the whole table. *)
Definition addable (s : KadState) (b : CRoutingBin) (L : list Z) (p : Z) : Prop :=
  (id_of s p ∉ ids s (m_entries b)) /\
  cnt (ip_of s p) L < MAX_CONTACTS_IP /\
  (cnt (subnet24 (ip_of s p)) (map subnet24 L) < MAX_CONTACTS_SUBNET \/
   IsLanIP (swap32 (ip_of s p)) = true) /\
  (cnt (subnet24 (ip_of s p)) (map subnet24 (ips s (m_entries b))) < 2 \/
   IsLanIP (swap32 (ip_of s p)) = true) /\
  Z.of_nat (length (m_entries b)) < K.

Lemma AddContact_spec s b L p :
  tracked_ips s L -> bin_ok s b -> live s p ->
  (addable s b L p /\
   AddContact b p s = (true, mkBin (m_entries b ++ [p]) false, AdjustGlobalTracking (ip_of s p) true s)) \/
  (~ addable s b L p /\ AddContact b p s = (false, b, s)).
Proof.
  intros Ht Hb Hp. unfold AddContact, addable.
  rewrite scan_entries_spec by (by apply live_id || apply Hb).
  fold (id_of s p) (ip_of s p). rewrite (bin_owns s b Hb).
  destruct (bool_decide_reflect (id_of s p ∈ ids s (m_entries b))) as [Hin|Hin]; [right; tauto|].
  destruct (CheckGlobalIPLimits (ip_of s p) (m_udpPort (deref s p)) s) eqn:Hg; simpl.
  - apply (CheckGlobalIPLimits_spec s L) in Hg; [|done]. destruct Hg as [Hg1 Hg2].
    rewrite Z.add_0_l, Z.geb_leb.
    destruct (Z.leb_spec 2 (cnt (subnet24 (ip_of s p)) (map subnet24 (ips s (m_entries b)))));
      destruct (IsLanIP (swap32 (ip_of s p))) eqn:El; simpl;
      try (right; split; [|done]; intros (_ & _ & _ & [?|?] & _); [lia|done]);
      destruct (Z.ltb_spec (Z.of_nat (length (m_entries b))) K);
      try (left; split; [|done]; split_and!; auto; lia);
      try (right; split; [|done]; intros (_ & _ & _ & _ & ?); lia).
  - apply (CheckGlobalIPLimits_false s L) in Hg; [|done]. right. split; [|done]. tauto.
Qed.

Lemma add_bin_ok s s' b L p :
  contacts s' = contacts s -> bin_ok s b -> live s p -> addable s b L p ->
  bin_ok s' (mkBin (m_entries b ++ [p]) false).
Proof.
  intros Hh Hb Hp (Hid & _ & _ & Hs & Hsz). apply (bin_ok_agree s); [by apply agree_same_heap|].
  destruct Hb as [H1 H2 H3 H4 H5]. split; simpl.
  - rewrite length_app. simpl. lia.
  - done.
  - apply Forall_app. split; [done|by constructor].
  - unfold ids. rewrite map_app. apply NoDup_app. split_and!; [done| |apply NoDup_singleton].
    intros x Hx Hx'. apply list_elem_of_singleton in Hx' as ->. done.
  - unfold ips. rewrite map_app. eapply limits_ext; [apply Permutation_app_comm|].
    apply limits_cons; [|done|done]. constructor; [by apply live_ip|].
    apply Forall_fmap, Forall_forall. intros q Hq. rewrite Forall_forall in H3. by apply live_ip, H3.
Qed.

Lemma tracked_add s s' b L l p :
  s' = AdjustGlobalTracking (ip_of s p) true s -> live s p -> addable s b L p ->
  L = ips s l -> tracked s l -> tracked s' (p :: l) /\ fails s' = fails s.
Proof.
  intros -> Hp (_ & H1 & H2 & _) -> Ht. apply tracked_increase; [done|by apply live_ip|done|done].
Qed.

(** ** Contacts changed in place *)

(** A change that leaves identity, address and distance alone. *)
Definition keeps (f : CContact -> CContact) : Prop :=
  forall c, m_clientID (f c) = m_clientID c /\ m_ip (f c) = m_ip c /\ m_distance (f c) = m_distance c.

Lemma contacts_update p f s q : contacts (update_contact p f s) !! q =
  if decide (q = p) then f <$> contacts s !! p else contacts s !! q.
Proof.
  simpl. destruct (decide (q = p)) as [->|Hne]; [apply lookup_alter_eq|by apply lookup_alter_ne].
Qed.

Lemma deref_update_eq p f s : live s p -> deref (update_contact p f s) p = f (deref s p).
Proof.
  intros H. apply live_deref in H as [H _]. unfold deref at 1. rewrite contacts_update, decide_True by done.
  by rewrite H.
Qed.

Lemma deref_update_ne p f s q : q <> p -> deref (update_contact p f s) q = deref s q.
Proof. intros H. unfold deref. by rewrite contacts_update, decide_False. Qed.

Lemma keeps_deref p f s q : keeps f ->
  id_of (update_contact p f s) q = id_of s q /\ ip_of (update_contact p f s) q = ip_of s q /\
  m_distance (deref (update_contact p f s) q) = m_distance (deref s q).
Proof.
  intros Hf. unfold id_of, ip_of, deref. rewrite contacts_update.
  destruct (decide (q = p)) as [->|]; [|done]. destruct (contacts s !! p); simpl; [apply Hf|done].
Qed.

Lemma keeps_live p f s q : keeps f -> live s q -> live (update_contact p f s) q.
Proof.
  intros Hf (c & Hc & [H1 H2 H3]). unfold live. rewrite contacts_update.
  destruct (decide (q = p)) as [->|].
  - rewrite Hc. exists (f c). split; [done|]. destruct (Hf c) as (E1 & E2 & E3). split; congruence.
  - exists c. by split.
Qed.

Lemma keeps_ips p f s l : keeps f -> ips (update_contact p f s) l = ips s l.
Proof. intros Hf. apply map_ext. intros q. by apply keeps_deref. Qed.

Lemma keeps_ids p f s l : keeps f -> ids (update_contact p f s) l = ids s l.
Proof. intros Hf. apply map_ext. intros q. by apply keeps_deref. Qed.

Lemma keeps_bin_ok p f s b : keeps f -> bin_ok s b -> bin_ok (update_contact p f s) b.
Proof.
  intros Hf [H1 H2 H3 H4 H5]. split; [done|done| | |].
  - eapply Forall_impl; [exact H3|]. intros q. by apply keeps_live.
  - by rewrite keeps_ids.
  - by rewrite keeps_ips.
Qed.

Lemma keeps_tracked p f s l : keeps f -> tracked s l -> tracked (update_contact p f s) l.
Proof.
  intros Hf [H1 H2 H3 H4 H5]. unfold tracked in *. rewrite keeps_ips by done. by split.
Qed.

Lemma keeps_compose f g : keeps f -> keeps g -> keeps (fun c => f (g c)).
Proof. intros Hf Hg c. destruct (Hf (g c)) as (-> & -> & ->). apply Hg. Qed.

Lemma keeps_set_types t l e : keeps (fun c => set_types c (t c) (l c) (e c)).
Proof. by intros c. Qed.

Lemma keeps_UpdateType now : keeps (UpdateType now).
Proof. intros c. unfold UpdateType. by repeat case_cmp. Qed.

Lemma keeps_CheckingType now : keeps (CheckingType now).
Proof. intros c. unfold CheckingType. by destruct (_ || _). Qed.

Lemma keeps_verified v : keeps (SetIPVerified v).
Proof. by intros c. Qed.

Lemma keeps_expire v : keeps (SetExpireTime v).
Proof. by intros c. Qed.

Lemma keeps_hello : keeps SetReceivedHelloPacket.
Proof. by intros c. Qed.

Lemma keeps_inc : keeps IncUse.
Proof. by intros c. Qed.

Lemma keeps_dec : keeps DecUse.
Proof. intros c. unfold DecUse. by destruct (negb _). Qed.

Lemma keeps_tcp port : keeps (SetTCPPort port).
Proof. by intros c. Qed.

(** ** Reordering and removing *)

Lemma bin_NoDup s b : bin_ok s b -> NoDup (m_entries b).
Proof. intros H. apply (NoDup_fmap_1 (id_of s)), H. Qed.

Lemma filter_ne_perm (l : list Z) p : NoDup l -> p ∈ l ->
  Permutation (p :: filter (fun q => q <> p) l) l.
Proof.
  intros Hn Hp. induction Hn as [|x l Hx Hn IH]; [inversion Hp|].
  rewrite list.filter_cons. destruct (decide (x <> p)) as [Hne|Heq].
  - rewrite Permutation_swap. constructor. apply IH. apply elem_of_cons in Hp as [?|?]; [congruence|done].
  - assert (x = p) as -> by (destruct (Z.eq_dec x p); tauto). constructor.
    apply reflexive_eq, filter_all. apply Forall_forall. intros q Hq ->. done.
Qed.

Lemma bin_ok_perm s b l : bin_ok s b -> Permutation l (m_entries b) -> bin_ok s (mkBin l false).
Proof.
  intros [H1 H2 H3 H4 H5] Hp. split; simpl; [|done| | |].
  - by rewrite Hp.
  - by rewrite Hp.
  - by rewrite Hp.
  - eapply limits_ext; [|exact H5]. by rewrite Hp.
Qed.

Lemma PushToBottom_spec s b p : bin_ok s b -> p ∈ m_entries b ->
  exists b', PushToBottom b p s = (b', s) /\ bin_ok s b' /\ Permutation (m_entries b') (m_entries b).
Proof.
  intros Hb Hp. unfold PushToBottom, RemoveContact. simpl. eexists. split; [done|]. simpl.
  assert (Permutation (filter (fun q => q <> p) (m_entries b) ++ [p]) (m_entries b)) as HP.
  { rewrite Permutation_app_comm. apply filter_ne_perm; [by apply (bin_NoDup s)|done]. }
  split; [|done]. rewrite (bin_owns s b Hb). by eapply bin_ok_perm.
Qed.

Lemma SetAlive_spec now s b p : bin_ok s b -> p ∈ m_entries b ->
  exists b', SetAlive now b p s = (b', update_contact p (UpdateType now) s) /\
    bin_ok (update_contact p (UpdateType now) s) b' /\ Permutation (m_entries b') (m_entries b).
Proof.
  intros Hb Hp. unfold SetAlive, GetContact. fold (id_of s p).
  rewrite find_id_unique by (done || apply Hb).
  apply PushToBottom_spec; [|done]. apply keeps_bin_ok; [apply keeps_UpdateType|done].
Qed.

Lemma RemoveContact_spec s b p rest :
  bin_ok s b -> p ∈ m_entries b -> tracked s (m_entries b ++ rest) ->
  exists b' s', RemoveContact b p false s = (b', s') /\
    m_entries b' = filter (fun q => q <> p) (m_entries b) /\
    bin_ok s' b' /\ tracked s' (m_entries b' ++ rest) /\ fails s' = fails s /\
    contacts s' = contacts s /\ next_contact s' = next_contact s.
Proof.
  intros Hb Hp Ht. unfold RemoveContact. simpl. do 2 eexists. split; [done|]. simpl.
  pose proof (filter_ne_perm _ p (bin_NoDup s b Hb) Hp) as HP.
  unfold tracked in Ht. rewrite <- HP in Ht. simpl in Ht. apply tracked_decrease in Ht as [Ht Hf].
  split_and!; [done| |exact Ht|done|done|done].
  apply (bin_ok_agree s); [by apply agree_same_heap|]. destruct Hb as [H1 H2 H3 H4 H5].
  rewrite <- HP in H1, H3, H4, H5. simpl in *. split; simpl.
  - lia.
  - done.
  - by inversion H3.
  - by inversion H4.
  - apply (limits_sub _ _ [ip_of s p]). eapply limits_ext; [|exact H5]. apply Permutation_cons_append.
Qed.

(** ** Changing the address of a contact *)

Lemma SetIPAddress_spec newIP c :
  m_clientID (SetIPAddress newIP c) = m_clientID c /\ m_distance (SetIPAddress newIP c) = m_distance c /\
  m_ip (SetIPAddress newIP c) = newIP.
Proof. unfold SetIPAddress. destruct (Z.eqb_spec (m_ip c) newIP); done. Qed.

Lemma count_subnet_spec s newIP l n :
  count_subnet s newIP l n = n + cnt (subnet24 newIP) (map subnet24 (ips s l)).
Proof.
  revert n. induction l as [|p l IH]; intros n; simpl; [lia|]. rewrite IH.
  rewrite (Z.eqb_sym (subnet24 newIP)). change (m_ip (deref s p)) with (ip_of s p).
  case_cmp; lia.
Qed.

(** The conditions of [ChangeContactIPAddress], for a bin with the addresses [E] in a table with
    the addresses [L] (the contact itself aside). *)
Lemma change_room s ip newIP E L :
  tracked_ips s (ip :: E ++ L) -> limits 2 (ip :: E) -> in_width 32 newIP ->
  (count_of newIP (s_globalContactIPs s) >=? MAX_CONTACTS_IP) = false ->
  negb (subnet24 ip =? subnet24 newIP) &&
    (((count_of (subnet24 newIP) (s_globalContactSubnets s) >=? MAX_CONTACTS_SUBNET) &&
      negb (IsLanIP (swap32 newIP))) ||
     ((cnt (subnet24 newIP) (map subnet24 (ip :: E)) >=? 2) && negb (IsLanIP (swap32 newIP)))) = false ->
  cnt newIP (E ++ L) < MAX_CONTACTS_IP /\
  (cnt (subnet24 newIP) (map subnet24 (E ++ L)) < MAX_CONTACTS_SUBNET \/ IsLanIP (swap32 newIP) = true) /\
  (cnt (subnet24 newIP) (map subnet24 E) < 2 \/ IsLanIP (swap32 newIP) = true).
Proof.
  intros Ht Hl Hw H1 H2. pose proof Ht as [Hi Hs Hwid _ Hlim].
  rewrite (counts_count_of _ _ _ Hi) in H1. rewrite (counts_count_of _ _ _ Hs) in H2.
  rewrite !Z.geb_leb in *. apply Z.leb_gt in H1.
  assert (cnt newIP (E ++ L) < MAX_CONTACTS_IP) as H1'
    by (simpl in H1; revert H1; case_cmp; lia).
  split; [done|]. apply andb_false_iff in H2 as [H2|H2].
  - apply negb_false_iff, Z.eqb_eq in H2. rewrite <- H2.
    rewrite <- (IsLanIP_subnet24 ip newIP) by (done || by inversion Hwid).
    split; by apply limits_room.
  - destruct (IsLanIP (swap32 newIP)); [split; by right|]. simpl in H2.
    rewrite !andb_true_r in H2. apply orb_false_elim in H2 as [H2 H3].
    apply Z.leb_gt in H2, H3. split; left; [revert H2|revert H3]; case_cmp; lia.
Qed.

Lemma ChangeContactIPAddress_spec s b p newIP rest :
  bin_ok s b -> p ∈ m_entries b -> NoDup (m_entries b ++ rest) ->
  tracked s (m_entries b ++ rest) -> in_width 32 newIP ->
  exists r s', ChangeContactIPAddress b p newIP s = (r, s') /\
    bin_ok s' b /\ tracked s' (m_entries b ++ rest) /\ fails s' = fails s /\
    next_contact s' = next_contact s /\ (forall q, q <> p -> contacts s' !! q = contacts s !! q) /\
    contacts s' !! p = Some (if r : bool then SetIPAddress newIP (deref s p) else deref s p).
Proof.
  intros Hb Hp Hn Ht Hw. unfold ChangeContactIPAddress. fold (ip_of s p).
  assert (live s p) as Hlive by (pose proof (bin_live s b Hb) as Hl; rewrite Forall_forall in Hl; auto).
  pose proof (live_deref s p Hlive) as [Hsome Hok].
  destruct (Z.eqb_spec (ip_of s p) newIP) as [E|E].
  { do 2 eexists. split; [done|]. split_and!; try done. rewrite Hsome. f_equal.
    unfold SetIPAddress. fold (ip_of s p). by rewrite E, Z.eqb_refl. }
  destruct (_ >=? _) eqn:H1; [by do 2 eexists; split; [done|]; split_and!|].
  destruct (_ && _) eqn:H2; [by do 2 eexists; split; [done|]; split_and!|].
  rewrite count_subnet_spec, Z.add_0_l in H2.
  set (es := filter (fun q => q <> p) (m_entries b)).
  assert (Permutation (p :: es) (m_entries b)) as HP by (apply filter_ne_perm; [by apply (bin_NoDup s)|done]).
  unfold tracked in Ht. rewrite <- HP in Ht, Hn. pose proof (bin_limits s b Hb) as Hlim. rewrite <- HP in Hlim.
  unfold ips in Ht. rewrite <- app_comm_cons in Ht. simpl in Ht. rewrite map_app in Ht.
  destruct (change_room s (ip_of s p) newIP (ips s es) (ips s rest)) as (R1 & R2 & R3); try done.
  { rewrite <- H2. f_equal. f_equal. f_equal. f_equal. change (ip_of s p :: ips s es) with (ips s (p :: es)).
    by rewrite HP. }
  apply tracked_decrease in Ht as [Ht1 Hf1].
  set (s1 := AdjustGlobalTracking (ip_of s p) false s) in *.
  assert (contacts s1 = contacts s) as Hc1 by apply adjust_heap.
  assert (deref s1 p = deref s p) as Hd1 by (unfold deref; by rewrite Hc1).
  assert (live s1 p) as Hlive1 by (unfold live; by rewrite Hc1).
  set (s2 := update_contact p (SetIPAddress newIP) s1).
  assert (deref s2 p = SetIPAddress newIP (deref s p)) as Hd2
    by (unfold s2; by rewrite deref_update_eq, Hd1).
  assert (m_ip (deref s2 p) = newIP) as Hip2 by (rewrite Hd2; apply SetIPAddress_spec).
  rewrite Hip2.
  assert (agree (es ++ rest) s s2) as Hag.
  { intros q Hq. unfold s2. rewrite contacts_update, decide_False; [by rewrite Hc1|].
    simpl in Hn. inversion Hn as [|? ? Hnp _]. congruence. }
  do 2 eexists. split; [done|].
  destruct (tracked_increase s2 (ips s es ++ ips s rest) newIP) as [Ht3 Hf3]; [|done|done|done|].
  { by destruct Ht1. }
  split_and!.
  - apply (bin_ok_agree s2); [by apply agree_same_heap|]. destruct Hb as [B1 B2 B3 B4 B5].
    rewrite <- HP in B3, B4. assert (agree es s s2) as Hag' by (intros q Hq; apply Hag, elem_of_app; by left).
    assert (id_of s2 p = id_of s p) as Hid by (unfold id_of; rewrite Hd2; apply SetIPAddress_spec).
    assert (live s2 p) as Hl2.
    { exists (SetIPAddress newIP (deref s p)). split.
      - unfold s2. rewrite contacts_update, decide_True, Hc1 by done.
        by rewrite Hsome.
      - destruct Hok as [O1 O2 O3]. destruct (SetIPAddress_spec newIP (deref s p)) as (E1 & E2 & E3).
        split; congruence. }
    split; [done|done|..]; rewrite <- HP.
    + constructor; [done|]. apply (live_agree s); [done|by inversion B3].
    + unfold ids in *. simpl in *. rewrite Hid. fold (ids s2 es). by rewrite (agree_ids es s s2).
    + simpl. fold (ip_of s2 p). unfold ip_of. rewrite Hip2. fold (ips s2 es).
      rewrite (agree_ips es s s2) by done. apply limits_cons; [|apply (limits_sub 2 _ [ip_of s p])|done].
      * constructor; [done|]. pose proof (tr_width _ _ Ht3) as HW. apply Forall_cons_1 in HW as [_ HW].
        by apply Forall_app in HW as [? _].
      * eapply limits_ext; [|exact Hlim]. simpl. apply Permutation_cons_append.
  - unfold tracked. rewrite <- HP. simpl.
    match goal with |- tracked_ips ?s3 (?x :: _) => change (tracked_ips s3 (m_ip (deref s2 p) :: ips s2 (es ++ rest))) end.
    rewrite Hip2, (agree_ips _ s s2) by done. unfold ips. by rewrite map_app.
  - rewrite Hf3. exact Hf1.
  - done.
  - intros q Hq. change (contacts s2 !! q = contacts s !! q). unfold s2.
    by rewrite contacts_update, decide_False, Hc1.
  - change (contacts s2 !! p = Some (SetIPAddress newIP (deref s p))). unfold s2.
    rewrite contacts_update, decide_True, Hc1 by done. by rewrite Hsome.
Qed.

(** ** The destructor of a bin whose contacts live on *)

Lemma bin_delete_keep l s rest :
  tracked s (l ++ rest) ->
  let s' := CRoutingBin_delete (mkBin l true) s in
  tracked s' rest /\ fails s' = fails s /\ contacts s' = contacts s /\ next_contact s' = next_contact s.
Proof.
  unfold CRoutingBin_delete. simpl. revert s. induction l as [|p l IH]; intros s Ht; simpl; [done|].
  apply tracked_decrease in Ht as [Ht Hf].
  set (s1 := AdjustGlobalTracking (m_ip (deref s p)) false s) in *.
  destruct (IH s1) as (I1 & I2 & I3 & I4); [done|]. split_and!; [done| |done|done].
  rewrite I2. exact Hf.
Qed.

End Bin.
