(* ===== verification/AgedMap.v ===== *)
(** * Bounded maps with eviction by age ([CKadAgedMap] of [kademlia/net/SafeKad.h])

    A [std::map] from key to entry with a [std::set] of (last reference, key) beside it that
    orders the entries by age.  The entry type promises a last-reference time ([Aged]). *)
From S2P Require Import Prelude StdMap.

(** The member [m_lastReferenced] of an entry. *)
Class Aged (E : Type) := m_lastReferenced : E -> Z.

Record CKadAgedMap (K E : Type) := mkAged {
  m_map : list (K * E);
  m_age : sset (Z * K)
}.
Arguments mkAged {K E}.
Arguments m_map {K E}.
Arguments m_age {K E}.

Section AgedMap.
Context {K E : Type} {Ko : KeyOrder K} {Ag : Aged E}.
Implicit Types (k : K) (e : E) (a : CKadAgedMap K E).

(** ** Operations *)

Definition aged_empty : CKadAgedMap K E := mkAged [] [].

Definition Find k a : option E := mfind k (m_map a).

Definition Size a : Z := Z.of_nat (length (m_map a)).

Definition Empty a : bool := match m_map a with [] => true | _ => false end.

Definition Set_ k e a : CKadAgedMap K E :=
  match mfind k (m_map a) with
  | Some old =>
      mkAged (mset k e (m_map a))
             (minsert (m_lastReferenced e, k) tt (merase (m_lastReferenced old, k) (m_age a)))
  | None => mkAged (minsert k e (m_map a)) (minsert (m_lastReferenced e, k) tt (m_age a))
  end.

Definition Erase k a : CKadAgedMap K E :=
  match mfind k (m_map a) with
  | None => a
  | Some old => mkAged (merase k (m_map a)) (merase (m_lastReferenced old, k) (m_age a))
  end.

(** [m_age.begin()]; only valid on a map that is not empty. *)
Definition Oldest a : option (Z * K) := fst <$> head (m_age a).

Definition EraseOldest a : CKadAgedMap K E :=
  match Oldest a with Some (_, k) => Erase k a | None => a end.

(** The loops of [CSafeKad::Cleanup]: the size is enough fuel. *)
Fixpoint age_out_loop (fuel : nat) (now horizon : Z) a : CKadAgedMap K E :=
  match fuel with
  | O => a
  | S fuel' =>
      match Oldest a with
      | Some (t, _) =>
          if negb (Empty a) && (now - t >? horizon)
          then age_out_loop fuel' now horizon (EraseOldest a) else a
      | None => a
      end
  end.

Definition age_out (now horizon : Z) a : CKadAgedMap K E :=
  age_out_loop (length (m_map a)) now horizon a.

(** ** Invariant: the age index holds exactly the entries of the map *)

Record aged_ok a : Prop := {
  ok_map : msorted (m_map a);
  ok_age : msorted (m_age a);
  ok_index : forall t k, mfind (t, k) (m_age a) = Some tt <->
                         exists e, mfind k (m_map a) = Some e /\ m_lastReferenced e = t
}.

Lemma aged_empty_ok : aged_ok aged_empty.
Proof. constructor; [constructor..|]. intros t k. simpl. split; [done|by intros (? & ? & _)]. Qed.

Lemma Find_Set_eq k e a : aged_ok a -> Find k (Set_ k e a) = Some e.
Proof.
  intros []. unfold Find, Set_. destruct (mfind k (m_map a)) eqn:Hf; simpl.
  - apply mfind_set_eq.
  - rewrite minsert_fresh by done. apply mfind_set_eq.
Qed.

Lemma Find_Set_ne k k' e a : aged_ok a -> k' <> k -> Find k' (Set_ k e a) = Find k' a.
Proof.
  intros [] Hne. unfold Find, Set_. destruct (mfind k (m_map a)) eqn:Hf; simpl.
  - by apply mfind_set_ne.
  - rewrite minsert_fresh by done. by apply mfind_set_ne.
Qed.

Lemma Find_Erase_eq k a : aged_ok a -> Find k (Erase k a) = None.
Proof.
  intros []. unfold Find, Erase. destruct (mfind k (m_map a)) eqn:Hf; simpl; [|done].
  by apply mfind_erase_eq.
Qed.

Lemma Find_Erase_ne k k' a : aged_ok a -> k' <> k -> Find k' (Erase k a) = Find k' a.
Proof.
  intros [] Hne. unfold Find, Erase. destruct (mfind k (m_map a)) eqn:Hf; simpl; [|done].
  by apply mfind_erase_ne.
Qed.

Lemma msorted_insert {K' V'} {Ko' : KeyOrder K'} (k : K') (v : V') m :
  msorted m -> msorted (minsert k v m).
Proof.
  intros Hs. destruct (mfind k m) as [v0|] eqn:Hf.
  - by rewrite (minsert_found k v v0).
  - rewrite minsert_fresh by done. by apply msorted_set.
Qed.

Lemma mfind_insert_unit {K'} {Ko' : KeyOrder K'} (k k' : K') (m : sset K') :
  msorted m -> mfind k' (minsert k tt m) = Some tt <-> k' = k \/ mfind k' m = Some tt.
Proof.
  intros Hs. destruct (mfind k m) as [[]|] eqn:Hf.
  - rewrite (minsert_found k tt tt) by done. split; [by right|]. by intros [->|?].
  - rewrite minsert_fresh by done. destruct (key_eq_or_ne k' k) as [->|Hne].
    + rewrite mfind_set_eq. split; [by left|done].
    + rewrite mfind_set_ne by done. split; [by right|by intros [?|?]].
Qed.

Lemma mfind_erase_unit {K' V'} {Ko' : KeyOrder K'} (k k' : K') (v : V') m :
  msorted m -> mfind k' (merase k m) = Some v <-> k' <> k /\ mfind k' m = Some v.
Proof.
  intros Hs. destruct (key_eq_or_ne k' k) as [->|Hne].
  - rewrite mfind_erase_eq by done. split; [done|by intros [? _]].
  - rewrite mfind_erase_ne by done. split; [done|by intros [_ ?]].
Qed.

Lemma Set_ok k e a : aged_ok a -> aged_ok (Set_ k e a).
Proof.
  intros Hok. pose proof (Find_Set_eq k e a Hok) as Heq.
  pose proof (fun k' => Find_Set_ne k k' e a Hok) as Hne. unfold Find in Heq, Hne.
  pose proof Hok as [Hm Ha Hi]. unfold Set_ in *.
  destruct (mfind k (m_map a)) as [old|] eqn:Hf; simpl in *; constructor; simpl.
  - by apply msorted_set.
  - by apply msorted_insert, msorted_erase.
  - intros t k'. rewrite mfind_insert_unit, mfind_erase_unit, Hi by (done || by apply msorted_erase).
    destruct (key_eq_or_ne k' k) as [->|Hk].
    + rewrite Heq. split.
      * intros [[= ->]|[Hk (e' & Hf' & <-)]]; [by exists e|]. simplify_eq.
      * intros (e' & [= <-] & <-). by left.
    + rewrite Hne by done. split; [intros [[= -> ->]|[_ ?]]; done|]. intros ?. right.
      split; [congruence|done].
  - by apply msorted_insert.
  - by apply msorted_insert.
  - intros t k'. rewrite mfind_insert_unit, Hi by done.
    destruct (key_eq_or_ne k' k) as [->|Hk].
    + rewrite Heq. split.
      * intros [[= ->]|(e' & Hf' & <-)]; [by exists e|]. simplify_eq.
      * intros (e' & [= <-] & <-). by left.
    + rewrite Hne by done. split; [intros [[= -> ->]|?]; done|by right].
Qed.

Lemma Erase_ok k a : aged_ok a -> aged_ok (Erase k a).
Proof.
  intros Hok. pose proof Hok as [Hm Ha Hi]. unfold Erase.
  destruct (mfind k (m_map a)) as [old|] eqn:Hf; [|done]. constructor; simpl.
  - by apply msorted_erase.
  - by apply msorted_erase.
  - intros t k'. rewrite mfind_erase_unit, Hi by done.
    destruct (key_eq_or_ne k' k) as [->|Hk].
    + rewrite mfind_erase_eq by done. split; [|by intros (? & ? & _)].
      intros [Hne (e & Hf' & <-)]. simplify_eq.
    + rewrite mfind_erase_ne by done. split; [by intros [_ ?]|]. intros ?. split; [congruence|done].
Qed.

Lemma Size_Set_found k e e0 a : Find k a = Some e0 -> Size (Set_ k e a) = Size a.
Proof.
  unfold Find, Size, Set_. intros Hf. rewrite Hf. simpl. by rewrite (length_mset_found k e e0).
Qed.

Lemma Size_Set_fresh k e a : aged_ok a -> Find k a = None -> Size (Set_ k e a) = Size a + 1.
Proof.
  unfold Find, Size, Set_. intros [] Hf. rewrite Hf. simpl. rewrite minsert_fresh by done.
  rewrite length_mset_fresh by done. lia.
Qed.

Lemma Size_Erase_found k e a : Find k a = Some e -> Size (Erase k a) = Size a - 1.
Proof.
  unfold Find, Size, Erase. intros Hf. rewrite Hf. simpl.
  pose proof (length_merase_found k e _ Hf). lia.
Qed.

Lemma Size_Erase_le k a : Size (Erase k a) <= Size a.
Proof.
  unfold Size, Erase. destruct (mfind k (m_map a)); [|lia]. simpl.
  pose proof (length_merase_le k (m_map a)). lia.
Qed.

Lemma Size_nonneg a : 0 <= Size a.
Proof. unfold Size. lia. Qed.

(** The head of the age index is an entry, and no entry is older. *)
Lemma Oldest_spec a :
  aged_ok a ->
  match Oldest a with
  | Some (t, k) =>
      (exists e, Find k a = Some e /\ m_lastReferenced e = t) /\
      forall k' e', Find k' a = Some e' -> t <= m_lastReferenced e'
  | None => m_map a = []
  end.
Proof.
  intros [Hm Ha Hi]. unfold Oldest, Find. destruct (m_age a) as [|[[t k] []] age] eqn:Hage; simpl.
  - destruct (m_map a) as [|[k e] m] eqn:Hmap; [done|].
    assert (mfind (m_lastReferenced e, k) [] = Some tt) as Hc; [|done].
    apply Hi. exists e. split; [|done]. simpl. by rewrite kltb_irrefl.
  - split.
    + apply Hi. cbn [mfind]. by rewrite !kltb_irrefl.
    + intros k' e' Hf.
      assert (mfind (m_lastReferenced e', k') (((t, k), tt) :: age) = Some tt) as Hin
        by (apply Hi; by exists e').
      apply mfind_In in Hin; [|done]. apply elem_of_cons in Hin as [Hin|Hin].
      * injection Hin as <- <-. lia.
      * apply msorted_cons in Ha as [_ Hall]. rewrite Forall_forall in Hall.
        specialize (Hall _ Hin). simpl in Hall. unfold pair_ltb in Hall. simpl in Hall.
        apply orb_prop in Hall as [Hlt|[Hlt _]%andb_prop].
        -- apply Z.ltb_lt in Hlt. lia.
        -- apply negb_true_iff, Z.ltb_ge in Hlt. lia.
Qed.

Lemma EraseOldest_ok a : aged_ok a -> aged_ok (EraseOldest a).
Proof. intros. unfold EraseOldest. destruct (Oldest a) as [[t k]|]; [by apply Erase_ok|done]. Qed.

(** Making room takes one entry out of a map that is not empty. *)
Lemma Size_EraseOldest a : aged_ok a -> 0 < Size a -> Size (EraseOldest a) = Size a - 1.
Proof.
  intros Hok Hs. pose proof (Oldest_spec a Hok) as Ho. unfold EraseOldest.
  destruct (Oldest a) as [[t k]|].
  - destruct Ho as [(e & Hf & _) _]. by apply Size_Erase_found with e.
  - unfold Size in Hs. rewrite Ho in Hs. simpl in Hs. lia.
Qed.

(** Removal only. *)
Definition submap (a' a : CKadAgedMap K E) : Prop :=
  forall k e, Find k a' = Some e -> Find k a = Some e.

Lemma submap_Erase k a : aged_ok a -> submap (Erase k a) a.
Proof.
  intros Hok k' e. destruct (key_eq_or_ne k' k) as [->|Hne].
  - by rewrite Find_Erase_eq.
  - by rewrite Find_Erase_ne.
Qed.

Lemma submap_EraseOldest a : aged_ok a -> submap (EraseOldest a) a.
Proof.
  intros. unfold EraseOldest. destruct (Oldest a) as [[t k]|]; [by apply submap_Erase|by intros k e].
Qed.

(** Ageing out keeps exactly the entries referenced within the horizon. *)
Lemma age_out_loop_spec now horizon fuel : forall a,
  aged_ok a -> (length (m_map a) <= fuel)%nat ->
  aged_ok (age_out_loop fuel now horizon a) /\
  Size (age_out_loop fuel now horizon a) <= Size a /\
  forall k e, Find k (age_out_loop fuel now horizon a) = Some e <->
              Find k a = Some e /\ now - m_lastReferenced e <= horizon.
Proof.
  induction fuel as [|fuel IH]; intros a Hok Hlen.
  - simpl. split; [done|]. split; [lia|]. intros k e. unfold Find.
    assert (m_map a = []) as -> by (apply length_zero_iff_nil; lia).
    split; [done|by intros [? _]].
  - cbn [age_out_loop]. pose proof (Oldest_spec a Hok) as Ho.
    assert (Oldest a = None -> forall k e, Find k a = Some e <->
              Find k a = Some e /\ now - m_lastReferenced e <= horizon) as Hnone.
    { intros Hn. rewrite Hn in Ho. intros k e. unfold Find. rewrite Ho.
      split; [done|by intros [? _]]. }
    destruct (Oldest a) as [[t k0]|] eqn:Hold; [|split; [done|]; split; [lia|by apply Hnone]].
    destruct Ho as [(e0 & Hf0 & Ht0) Hmin].
    assert (Empty a = false) as ->.
    { revert Hf0. unfold Empty, Find. by destruct (m_map a). }
    cbn [negb andb]. rewrite Z.gtb_ltb. destruct (Z.ltb_spec horizon (now - t)) as [Hlt|Hge].
    + assert (EraseOldest a = Erase k0 a) as -> by (unfold EraseOldest; by rewrite Hold).
      pose proof (Size_Erase_found _ _ _ Hf0) as Hsz.
      destruct (IH (Erase k0 a)) as (H1 & H2 & H3); [by apply Erase_ok|unfold Size in *; lia|].
      split; [done|]. split; [lia|]. intros k e. rewrite H3.
      destruct (key_eq_or_ne k k0) as [->|Hne].
      * rewrite Find_Erase_eq by done. split; [by intros [? _]|]. intros [Hf Hle].
        simplify_eq. lia.
      * by rewrite Find_Erase_ne.
    + split; [done|]. split; [lia|]. intros k e. split; [|by intros [? _]].
      intros Hf. split; [done|]. specialize (Hmin _ _ Hf). lia.
Qed.

Lemma age_out_spec now horizon a :
  aged_ok a ->
  aged_ok (age_out now horizon a) /\ Size (age_out now horizon a) <= Size a /\
  forall k e, Find k (age_out now horizon a) = Some e <->
              Find k a = Some e /\ now - m_lastReferenced e <= horizon.
Proof. intros. by apply age_out_loop_spec. Qed.

(** A submap that lacks an entry is smaller. *)
Lemma submap_size_lt a a' k e :
  aged_ok a -> aged_ok a' -> submap a' a -> Find k a = Some e -> Find k a' = None ->
  Size a' + 1 <= Size a.
Proof.
  intros Hok Hok' Hsub Hf Hn. unfold Size.
  assert (forall m : list (K * E), msorted m -> NoDup m) as Hnd.
  { intros m Hs. induction Hs as [|x m Hs IH Hx]; constructor; [|done].
    intros Hin. rewrite Forall_forall in Hx. specialize (Hx _ Hin). unfold klt in Hx.
    by rewrite kltb_irrefl in Hx. }
  assert ((k, e) :: m_map a' ⊆+ m_map a) as Hm.
  { apply NoDup_submseteq.
    - constructor; [|by apply Hnd, ok_map]. intros Hin.
      apply mfind_In in Hin; [|by apply ok_map]. unfold Find in Hn. congruence.
    - intros [k' e'] [Heq|Hin]%elem_of_cons.
      + injection Heq as -> ->. apply mfind_In; [by apply ok_map|done].
      + apply mfind_In; [by apply ok_map|]. apply Hsub. apply mfind_In; [by apply ok_map|done]. }
  apply submseteq_length in Hm. simpl in Hm. lia.
Qed.

Lemma submap_refl a : submap a a.
Proof. by intros k e. Qed.

Lemma submap_trans a b c : submap a b -> submap b c -> submap a c.
Proof. intros H1 H2 k e Hf. by apply H2, H1. Qed.
End AgedMap.

#[export] Hint Resolve Set_ok Erase_ok EraseOldest_ok submap_Erase submap_EraseOldest submap_refl : amule.
