(* ===== verification/SafeKad.v ===== *)
(** * Identity protection of the Kad routing table ([kademlia/net/SafeKad.h], [SafeKad.cpp])

    Three bounded tables: the identity each node address last showed, the addresses that
    misbehaved, and the banned ones.  Every operation takes the current time and, as queries
    refresh and expire entries, returns the new state. *)
From S2P Require Import Prelude StdMap UInt128 AgedMap.

(** [SKadNodeAddress]: IPv4 address and port, ordered lexicographically. *)
Abbreviation SKadNodeAddress := (Z * Z)%type (only parsing).

Record sTracked := mkTracked {
  m_lastID : CUInt128;
  m_lastIDChange : Z;
  tracked_ref : Z;
  m_idVerified : bool
}.

Record sProblematic := mkProblematic { m_failed : Z; problematic_ref : Z }.

Record sBanned := mkBanned { m_banned : Z; banned_ref : Z }.

#[export] Instance sTracked_aged : Aged sTracked := tracked_ref.
#[export] Instance sProblematic_aged : Aged sProblematic := problematic_ref.
#[export] Instance sBanned_aged : Aged sBanned := banned_ref.

Record CSafeKad := mkSafeKad {
  m_trackedNodes : CKadAgedMap (Z * Z) sTracked;
  m_problematicNodes : CKadAgedMap (Z * Z) sProblematic;
  m_bannedAddresses : CKadAgedMap Z sBanned;
  m_lastCleanup : Z
}.

Definition MAX_TRACKED_NODES : Z := 10000.
Definition MAX_PROBLEMATIC_NODES : Z := 10000.
Definition MAX_BANNED_ADDRESSES : Z := 1000.
Definition MIN_ID_CHANGE_INTERVAL : Z := 3600.
Definition MAX_BAN_TIME : Z := 4 * 3600.
Definition MAX_PROBLEMATIC_TIME : Z := 300.
Definition MIN_PORT_VERIFIABLE_VERSION : Z := 8.
Definition NODE_MAX_REFERENCE_AGE : Z := 3600.
Definition BAN_MAX_REFERENCE_AGE : Z := MAX_BAN_TIME.
Definition PROBLEMATIC_MAX_REFERENCE_AGE : Z := 300.
Definition CLEANUP_INTERVAL : Z := 600.

Definition with_tracked (s : CSafeKad) t :=
  mkSafeKad t (m_problematicNodes s) (m_bannedAddresses s) (m_lastCleanup s).
Definition with_problematic (s : CSafeKad) p :=
  mkSafeKad (m_trackedNodes s) p (m_bannedAddresses s) (m_lastCleanup s).
Definition with_banned (s : CSafeKad) b :=
  mkSafeKad (m_trackedNodes s) (m_problematicNodes s) b (m_lastCleanup s).

(** ** Operations *)

Definition CSafeKad_init : CSafeKad := mkSafeKad aged_empty aged_empty aged_empty 0.

Definition Clear (s : CSafeKad) : CSafeKad := CSafeKad_init.

Definition Cleanup (now : Z) (s : CSafeKad) : CSafeKad :=
  mkSafeKad (age_out now NODE_MAX_REFERENCE_AGE (m_trackedNodes s))
            (age_out now PROBLEMATIC_MAX_REFERENCE_AGE (m_problematicNodes s))
            (age_out now BAN_MAX_REFERENCE_AGE (m_bannedAddresses s)) now.

Definition IsBanned (ip now : Z) (s : CSafeKad) : bool * CSafeKad :=
  match Find ip (m_bannedAddresses s) with
  | None => (false, s)
  | Some b =>
      if now - m_banned b >? MAX_BAN_TIME
      then (false, with_banned s (Erase ip (m_bannedAddresses s)))
      else (true, with_banned s (Set_ ip (mkBanned (m_banned b) now) (m_bannedAddresses s)))
  end.

Definition IsProblematic (ip port now : Z) (s : CSafeKad) : bool * CSafeKad :=
  match Find (ip, port) (m_problematicNodes s) with
  | Some p =>
      if now - m_failed p >? MAX_PROBLEMATIC_TIME
      then IsBanned ip now (with_problematic s (Erase (ip, port) (m_problematicNodes s)))
      else (true, with_problematic s
                    (Set_ (ip, port) (mkProblematic (m_failed p) now) (m_problematicNodes s)))
  | None => IsBanned ip now s
  end.

(** The loop over the entries of an address, from [lower_bound] on. *)
Fixpoint ports_of {E} (ip : Z) (l : list ((Z * Z) * E)) : list Z :=
  match l with
  | ((ip', port), _) :: it => if ip' =? ip then port :: ports_of ip it else []
  | [] => []
  end.

Definition drop_ports {E} `{Aged E} (ip : Z) (a : CKadAgedMap (Z * Z) E) : CKadAgedMap (Z * Z) E :=
  fold_left (fun a port => Erase (ip, port) a) (ports_of ip (lower_bound (ip, 0) (m_map a)).2) a.

Definition DropAllPortsOf (ip : Z) (s : CSafeKad) : CSafeKad :=
  mkSafeKad (drop_ports ip (m_trackedNodes s)) (drop_ports ip (m_problematicNodes s))
            (m_bannedAddresses s) (m_lastCleanup s).

Definition BanAddress (ip now : Z) (s : CSafeKad) : bool * CSafeKad :=
  let s := Cleanup now s in
  let b := m_bannedAddresses s in
  let isNew := match Find ip b with None => true | Some _ => false end in
  let b := if isNew && (Size b >=? MAX_BANNED_ADDRESSES) then EraseOldest b else b in
  (isNew, DropAllPortsOf ip (with_banned s (Set_ ip (mkBanned now now) b))).

Definition TrackProblematicNode (ip port now : Z) (s : CSafeKad) : CSafeKad :=
  let '(banned, s) := IsBanned ip now s in
  if banned then s
  else
    match Find (ip, port) (m_problematicNodes s) with
    | None =>
        let s := Cleanup now s in
        let p := m_problematicNodes s in
        let p := if Size p >=? MAX_PROBLEMATIC_NODES then EraseOldest p else p in
        with_problematic s (Set_ (ip, port) (mkProblematic now now) p)
    | Some p =>
        with_problematic s (Set_ (ip, port) (mkProblematic (m_failed p) now) (m_problematicNodes s))
    end.

Definition Escalate (ip port now : Z) (s : CSafeKad) : bool * CSafeKad :=
  let '(problematic, s) := IsProblematic ip port now s in
  if problematic then BanAddress ip now s else (false, TrackProblematicNode ip port now s).

(** The decision of [TrackNode] on a known address: whether the identity is accepted, whether
    the address was newly banned, and the entry so far. *)
Definition track_decision (ip port : Z) (id : CUInt128) (idVerified : bool) (now : Z)
  (tracked : sTracked) (s : CSafeKad) : bool * bool * sTracked * CSafeKad :=
  if op_ne id (m_lastID tracked) then
    if m_idVerified tracked && negb idVerified then (false, false, tracked, s)
    else if now - m_lastIDChange tracked <? MIN_ID_CHANGE_INTERVAL then
      if idVerified then
        let '(banned, s) := Escalate ip port now s in (false, banned, tracked, s)
      else (false, false, tracked, s)
    else (true, false, mkTracked id now (tracked_ref tracked) (m_idVerified tracked), s)
  else (true, false, tracked, s).

(** Whether the identity was accepted, and the value left in [*newlyBanned]. *)
Definition TrackNode (ip port : Z) (id : CUInt128) (idVerified : bool) (now : Z) (s : CSafeKad) :
  bool * bool * CSafeKad :=
  let '(banned, s) := IsBanned ip now s in
  if banned then (false, false, s)
  else
    match Find (ip, port) (m_trackedNodes s) with
    | None =>
        let s := Cleanup now s in
        let t := m_trackedNodes s in
        let t := if Size t >=? MAX_TRACKED_NODES then EraseOldest t else t in
        (true, false, with_tracked s (Set_ (ip, port) (mkTracked id now now idVerified) t))
    | Some tracked =>
        let '(accepted, newlyBanned, tracked, s) :=
          track_decision ip port id idVerified now tracked s in
        let tracked :=
          if accepted || m_idVerified tracked
          then mkTracked (m_lastID tracked) (m_lastIDChange tracked) now (m_idVerified tracked)
          else tracked in
        let tracked :=
          if accepted && negb (m_idVerified tracked)
          then mkTracked (m_lastID tracked) (m_lastIDChange tracked) (tracked_ref tracked) idVerified
          else tracked in
        let '(banned, s) := IsBanned ip now s in
        (accepted, newlyBanned,
         if negb banned
         then with_tracked s (Set_ (ip, port) tracked (m_trackedNodes s))
         else with_tracked s (Erase (ip, port) (m_trackedNodes s)))
    end.

Fixpoint other_port {E} (ip port : Z) (l : list ((Z * Z) * E)) : bool :=
  match l with
  | ((ip', port'), _) :: it =>
      if ip' =? ip then (if negb (port' =? port) then true else other_port ip port it) else false
  | [] => false
  end.

Definition HasOtherTrackedPort (ip port : Z) (s : CSafeKad) : bool :=
  other_port ip port (lower_bound (ip, 0) (m_map (m_trackedNodes s))).2.

Definition IsBadNode (ip port : Z) (id : CUInt128) (kadVersion : Z)
  (idVerified onlyOneNodePerIP : bool) (now : Z) (s : CSafeKad) : bool * CSafeKad :=
  let s := if now - m_lastCleanup s >? CLEANUP_INTERVAL then Cleanup now s else s in
  let '(banned, s) := IsBanned ip now s in
  if banned then (true, with_tracked s (Erase (ip, port) (m_trackedNodes s)))
  else
    match Find (ip, port) (m_trackedNodes s) with
    | Some tracked =>
        if op_eq (m_lastID tracked) id then
          let verified := if negb (m_idVerified tracked) then idVerified else m_idVerified tracked in
          (false, with_tracked s (Set_ (ip, port)
             (mkTracked (m_lastID tracked) (m_lastIDChange tracked) now verified)
             (m_trackedNodes s)))
        else if (m_idVerified tracked || (kadVersion <? MIN_PORT_VERIFIABLE_VERSION))
                && negb idVerified
        then (true, s)
        else
          let '(accepted, _, s) := TrackNode ip port id idVerified now s in
          if negb accepted then (true, s) else IsBanned ip now s
    | None =>
        if onlyOneNodePerIP && HasOtherTrackedPort ip port s then (true, s)
        else (false, (TrackNode ip port id idVerified now s).2)
    end.

(** ** Invariant *)

(** At a time [T] not before any operation so far: every age index matches its table, the
    tables are within their bounds, and a ban has been referenced since it started. *)
Record safekad_inv (T : Z) (s : CSafeKad) : Prop := {
  inv_tracked : aged_ok (m_trackedNodes s);
  inv_problematic : aged_ok (m_problematicNodes s);
  inv_banned : aged_ok (m_bannedAddresses s);
  inv_tracked_size : Size (m_trackedNodes s) <= MAX_TRACKED_NODES;
  inv_problematic_size : Size (m_problematicNodes s) <= MAX_PROBLEMATIC_NODES;
  inv_banned_size : Size (m_bannedAddresses s) <= MAX_BANNED_ADDRESSES;
  inv_ban_times : forall ip b, Find ip (m_bannedAddresses s) = Some b ->
                               m_banned b <= banned_ref b <= T
}.

(** The address is banned at [now]. *)
Definition live_ban (now : Z) (s : CSafeKad) (ip : Z) : Prop :=
  exists b, Find ip (m_bannedAddresses s) = Some b /\ now - m_banned b <= MAX_BAN_TIME.

Lemma inv_init : safekad_inv 0 CSafeKad_init.
Proof.
  constructor; simpl; try apply aged_empty_ok; try (vm_compute; congruence).
Qed.

Lemma inv_mono T T' s : T <= T' -> safekad_inv T s -> safekad_inv T' s.
Proof.
  intros HT []. constructor; try done. intros ip b Hf. specialize (inv_ban_times0 ip b Hf). lia.
Qed.

(** *** Expiry *)

Lemma Cleanup_inv now s : safekad_inv now s -> safekad_inv now (Cleanup now s).
Proof.
  intros [].
  destruct (age_out_spec now NODE_MAX_REFERENCE_AGE (m_trackedNodes s)) as (? & ? & _); [done|].
  destruct (age_out_spec now PROBLEMATIC_MAX_REFERENCE_AGE (m_problematicNodes s)) as (? & ? & _); [done|].
  destruct (age_out_spec now BAN_MAX_REFERENCE_AGE (m_bannedAddresses s)) as (? & ? & Hb); [done|].
  constructor; simpl; try done; try lia. intros ip b [Hf _]%Hb. by apply (inv_ban_times0 ip).
Qed.

(** [Cleanup] never ends a ban early: its horizon is the ban time and a ban is referenced when
    it starts. *)
Lemma Cleanup_live_ban now s ip :
  safekad_inv now s -> live_ban now (Cleanup now s) ip <-> live_ban now s ip.
Proof.
  intros []. unfold live_ban, Cleanup. simpl.
  destruct (age_out_spec now BAN_MAX_REFERENCE_AGE (m_bannedAddresses s)) as (_ & _ & Hb); [done|].
  split; intros (b & Hf & Ht); exists b; (split; [|done]).
  - by apply Hb in Hf as [? _].
  - apply Hb. split; [done|]. specialize (inv_ban_times0 ip b Hf).
    unfold BAN_MAX_REFERENCE_AGE. change (m_lastReferenced b) with (banned_ref b). lia.
Qed.

Lemma IsBanned_spec ip now s :
  safekad_inv now s ->
  safekad_inv now (IsBanned ip now s).2 /\
  ((IsBanned ip now s).1 = true <-> live_ban now s ip) /\
  (forall ip', live_ban now (IsBanned ip now s).2 ip' <-> live_ban now s ip') /\
  m_trackedNodes (IsBanned ip now s).2 = m_trackedNodes s /\
  m_problematicNodes (IsBanned ip now s).2 = m_problematicNodes s.
Proof.
  intros Hinv. pose proof Hinv as []. unfold IsBanned, live_ban.
  destruct (Find ip (m_bannedAddresses s)) as [b|] eqn:Hf; cycle 1.
  { split; [done|]. split; [|done]. split; [done|by intros (? & ? & _)]. }
  pose proof (inv_ban_times0 ip b Hf) as Ht. rewrite Z.gtb_ltb.
  destruct (Z.ltb_spec MAX_BAN_TIME (now - m_banned b)) as [Hl|Hl]; simpl.
  - split; [|split; [|split; [|done]]].
    + constructor; simpl; auto with amule.
      * pose proof (Size_Erase_le ip (m_bannedAddresses s)). lia.
      * intros ip' b' Hf'. apply submap_Erase in Hf'; [|done]. by apply (inv_ban_times0 ip').
    + split; [done|]. intros (b' & ? & ?). simplify_eq. lia.
    + intros ip'. destruct (Z.eq_dec ip' ip) as [->|Hne].
      * rewrite Find_Erase_eq by done. split; [by intros (? & ? & _)|].
        intros (b' & ? & ?). simplify_eq. lia.
      * by rewrite Find_Erase_ne.
  - split; [|split; [|split; [|done]]].
    + constructor; simpl; auto with amule.
      * by rewrite (Size_Set_found ip _ b).
      * intros ip' b'. destruct (Z.eq_dec ip' ip) as [->|Hne].
        -- rewrite Find_Set_eq by done. intros [= <-]. simpl. lia.
        -- rewrite Find_Set_ne by done. apply inv_ban_times0.
    + split; [|done]. intros _. by exists b.
    + intros ip'. destruct (Z.eq_dec ip' ip) as [->|Hne].
      * rewrite Find_Set_eq by done. split; intros _; [by exists b|].
        eexists. split; [done|]. simpl. lia.
      * by rewrite Find_Set_ne.
Qed.

Lemma with_problematic_inv now s p :
  safekad_inv now s -> aged_ok p -> Size p <= MAX_PROBLEMATIC_NODES ->
  safekad_inv now (with_problematic s p).
Proof. intros [] ? ?. by constructor. Qed.

Lemma with_tracked_inv now s t :
  safekad_inv now s -> aged_ok t -> Size t <= MAX_TRACKED_NODES ->
  safekad_inv now (with_tracked s t).
Proof. intros [] ? ?. by constructor. Qed.

(** Insertion of a fresh key after making room keeps the bound. *)
Lemma make_room_size {K E} `{KeyOrder K} `{Aged E} (k : K) (e : E) (a : CKadAgedMap K E) max :
  aged_ok a -> Size a <= max -> 0 < max ->
  aged_ok (Set_ k e (if Size a >=? max then EraseOldest a else a)) /\
  Size (Set_ k e (if Size a >=? max then EraseOldest a else a)) <= max.
Proof.
  intros Hok Hs Hm. set (a' := if Size a >=? max then EraseOldest a else a).
  assert (aged_ok a') as Hok' by (unfold a'; case_match; auto with amule).
  assert (Size a' <= max - 1) as Hs'.
  { unfold a'. rewrite Z.geb_leb. destruct (Z.leb_spec max (Size a)); [|lia].
    rewrite Size_EraseOldest by (done || lia). lia. }
  split; [by apply Set_ok|]. destruct (Find k a') as [e0|] eqn:Hf.
  - rewrite (Size_Set_found k e e0) by done. lia.
  - rewrite Size_Set_fresh by done. lia.
Qed.

Lemma make_room_find {K E} `{KeyOrder K} `{Aged E} (k k' : K) (e e' : E) (a : CKadAgedMap K E) max :
  aged_ok a -> k' <> k ->
  Find k' (Set_ k e (if Size a >=? max then EraseOldest a else a)) = Some e' -> Find k' a = Some e'.
Proof.
  intros Hok Hne. rewrite Find_Set_ne by (done || (case_match; auto with amule)).
  case_match; [|done]. by apply submap_EraseOldest.
Qed.

(** *** Quiet steps: no ban starts or ends and no identity is learnt *)

Record quiet (now : Z) (s s' : CSafeKad) : Prop := {
  quiet_inv : safekad_inv now s';
  quiet_bans : forall ip, live_ban now s' ip <-> live_ban now s ip;
  quiet_tracked : submap (m_trackedNodes s') (m_trackedNodes s)
}.

Lemma quiet_refl now s : safekad_inv now s -> quiet now s s.
Proof. intros. by constructor; [| |apply submap_refl]. Qed.

Lemma quiet_trans now s1 s2 s3 : quiet now s1 s2 -> quiet now s2 s3 -> quiet now s1 s3.
Proof.
  intros [] []. constructor; [done| |by eapply submap_trans].
  intros ip. by rewrite quiet_bans1.
Qed.

Lemma Cleanup_quiet now s : safekad_inv now s -> quiet now s (Cleanup now s).
Proof.
  intros Hinv. constructor; [by apply Cleanup_inv|intros; by apply Cleanup_live_ban|].
  intros k e. simpl. destruct (age_out_spec now NODE_MAX_REFERENCE_AGE (m_trackedNodes s))
    as (_ & _ & Hf); [apply Hinv|]. by intros [? _]%Hf.
Qed.

Lemma IsBanned_quiet ip now s : safekad_inv now s -> quiet now s (IsBanned ip now s).2.
Proof.
  intros Hinv. destruct (IsBanned_spec ip now s Hinv) as (? & _ & ? & Ht & _).
  constructor; [done|done|]. rewrite Ht. apply submap_refl.
Qed.

Lemma with_problematic_quiet now s p :
  safekad_inv now s -> aged_ok p -> Size p <= MAX_PROBLEMATIC_NODES ->
  quiet now s (with_problematic s p).
Proof. intros. constructor; [by apply with_problematic_inv|done|apply submap_refl]. Qed.

Lemma IsProblematic_quiet ip port now s :
  safekad_inv now s -> quiet now s (IsProblematic ip port now s).2.
Proof.
  intros Hinv. pose proof Hinv as []. unfold IsProblematic.
  destruct (Find (ip, port) (m_problematicNodes s)) as [p|] eqn:Hf; [|by apply IsBanned_quiet].
  case_match; simpl.
  - pose proof (Size_Erase_le (ip, port) (m_problematicNodes s)).
    assert (quiet now s (with_problematic s (Erase (ip, port) (m_problematicNodes s)))) as Hq
      by (apply with_problematic_quiet; auto with amule; lia).
    eapply quiet_trans; [exact Hq|]. apply IsBanned_quiet, Hq.
  - apply with_problematic_quiet; auto with amule. by rewrite (Size_Set_found (ip, port) _ p).
Qed.

Lemma TrackProblematicNode_quiet ip port now s :
  safekad_inv now s -> quiet now s (TrackProblematicNode ip port now s).
Proof.
  intros Hinv. pose proof (IsBanned_quiet ip now s Hinv) as Hq. unfold TrackProblematicNode.
  destruct (IsBanned ip now s) as [banned s1]. simpl in Hq. destruct banned; [done|].
  eapply quiet_trans; [exact Hq|]. destruct Hq as [Hinv1 _ _].
  destruct (Find (ip, port) (m_problematicNodes s1)) as [p|] eqn:Hf.
  - pose proof Hinv1 as []. apply with_problematic_quiet; auto with amule.
    by rewrite (Size_Set_found (ip, port) _ p).
  - pose proof (Cleanup_quiet now s1 Hinv1) as Hc. eapply quiet_trans; [exact Hc|].
    destruct Hc as [Hinv2 _ _]. pose proof Hinv2 as [].
    destruct (make_room_size (ip, port) (mkProblematic now now)
      (m_problematicNodes (Cleanup now s1)) MAX_PROBLEMATIC_NODES) as [? ?];
      [done|done|by vm_compute|].
    by apply with_problematic_quiet.
Qed.

(** *** Dropping every port of an address *)

Lemma ports_of_complete {E} ip (l : list ((Z * Z) * E)) p e :
  msorted l -> Forall (fun x => kltb x.1 (ip, 0) = false) l -> ((ip, p), e) ∈ l ->
  p ∈ ports_of ip l.
Proof.
  induction l as [|[[ip' port] e'] l IH]; intros Hs Hlb Hin; [by apply not_elem_of_nil in Hin|].
  pose proof Hs as [Hs' Hall]%msorted_cons. inversion Hlb as [|? ? Hb Hlb']; subst.
  simpl. apply elem_of_cons in Hin as [[= <- <- <-]|Hin].
  - rewrite Z.eqb_refl. by left.
  - destruct (Z.eqb_spec ip' ip) as [->|Hne]; [right; by apply IH|]. exfalso.
    rewrite Forall_forall in Hall. specialize (Hall _ Hin).
    unfold pair_ltb, kltb in *. simpl in *.
    apply orb_false_elim in Hb as [Hb _]. apply Z.ltb_ge in Hb.
    apply orb_prop in Hall as [Hlt|[Hlt _]%andb_prop].
    + apply Z.ltb_lt in Hlt. simpl in *. lia.
    + apply negb_true_iff, Z.ltb_ge in Hlt. simpl in *. lia.
Qed.

Lemma drop_ports_spec {E} `{Aged E} ip (a : CKadAgedMap (Z * Z) E) :
  aged_ok a ->
  aged_ok (drop_ports ip a) /\ Size (drop_ports ip a) <= Size a /\
  submap (drop_ports ip a) a /\ forall p, 0 <= p -> Find (ip, p) (drop_ports ip a) = None.
Proof.
  intros Hok. unfold drop_ports. set (ps := ports_of _ _).
  assert (forall p e, 0 <= p -> Find (ip, p) a = Some e -> p ∈ ps) as Hps.
  { intros p e Hp Hf. pose proof Hok as [Hm _ _]. apply mfind_In in Hf; [|done].
    subst ps. destruct (lower_bound (ip, 0) (m_map a)) as [pre suf] eqn:Hlb.
    apply lower_bound_sorted in Hlb as (Heq & Hpre & Hsuf); [|done]. simpl.
    rewrite Heq in Hm, Hf. apply msorted_app in Hm as (_ & Hm & _).
    apply elem_of_app in Hf as [Hf|Hf]; [|by apply ports_of_complete with e].
    exfalso. rewrite Forall_forall in Hpre. specialize (Hpre _ Hf).
    apply orb_prop in Hpre as [Hpre|[_ Hpre]%andb_prop]; apply Z.ltb_lt in Hpre;
      simpl in Hpre; lia. }
  assert (forall (l : list Z) (b : CKadAgedMap (Z * Z) E), aged_ok b ->
    aged_ok (fold_left (fun a port => Erase (ip, port) a) l b) /\
    Size (fold_left (fun a port => Erase (ip, port) a) l b) <= Size b /\
    submap (fold_left (fun a port => Erase (ip, port) a) l b) b /\
    forall p, p ∈ l \/ Find (ip, p) b = None ->
      Find (ip, p) (fold_left (fun a port => Erase (ip, port) a) l b) = None) as Hfold.
  { induction l as [|q l IH]; intros b Hb; simpl.
    - split; [done|]. split; [lia|]. split; [apply submap_refl|].
      by intros p [?%not_elem_of_nil|?].
    - destruct (IH (Erase (ip, q) b)) as (H1 & H2 & H3 & H4); [by apply Erase_ok|].
      split; [done|]. pose proof (Size_Erase_le (ip, q) b). split; [lia|].
      split; [eapply submap_trans; [exact H3|by apply submap_Erase]|].
      intros p Hp. apply H4. destruct (Z.eq_dec p q) as [->|Hne].
      + right. by apply Find_Erase_eq.
      + rewrite Find_Erase_ne by (done || congruence). destruct Hp as [Hp|Hp]; [|by right].
        apply elem_of_cons in Hp as [?|?]; [done|by left]. }
  destruct (Hfold ps a Hok) as (H1 & H2 & H3 & H4). split; [done|]. split; [done|].
  split; [done|]. intros p Hp. apply H4. destruct (Find (ip, p) a) as [e|] eqn:Hf; [|by right].
  left. by apply Hps with e.
Qed.

(** *** Banning *)

Lemma BanAddress_spec ip now s :
  safekad_inv now s ->
  safekad_inv now (BanAddress ip now s).2 /\
  live_ban now (BanAddress ip now s).2 ip /\
  (forall ip', live_ban now (BanAddress ip now s).2 ip' -> ip' = ip \/ live_ban now s ip') /\
  submap (m_trackedNodes (BanAddress ip now s).2) (m_trackedNodes s) /\
  (forall p, 0 <= p -> Find (ip, p) (m_trackedNodes (BanAddress ip now s).2) = None /\
                       Find (ip, p) (m_problematicNodes (BanAddress ip now s).2) = None).
Proof.
  intros Hinv. pose proof (Cleanup_quiet now s Hinv) as [Hinv1 Hb1 Ht1].
  unfold BanAddress. set (s1 := Cleanup now s) in *. clearbody s1.
  set (b := if _ && _ then _ else _). cbn zeta. simpl snd.
  pose proof Hinv1 as [Hk Hp Hb Hks Hps Hbs Htm].
  assert (aged_ok b /\ submap b (m_bannedAddresses s1) /\
          Size (Set_ ip (mkBanned now now) b) <= MAX_BANNED_ADDRESSES) as (Hbo & Hbsub & Hbsz).
  { subst b. destruct (Find ip (m_bannedAddresses s1)) as [b0|] eqn:Hf; cbn [andb].
    - split; [done|]. split; [apply submap_refl|]. by rewrite (Size_Set_found ip _ b0).
    - destruct (make_room_size ip (mkBanned now now) (m_bannedAddresses s1) MAX_BANNED_ADDRESSES)
        as [_ Hsz]; [done|done|by vm_compute|].
      split; [case_match; auto with amule|]. split; [case_match; auto with amule|done]. }
  destruct (drop_ports_spec ip (m_trackedNodes s1) Hk) as (D1 & D2 & D3 & D4).
  destruct (drop_ports_spec ip (m_problematicNodes s1) Hp) as (E1 & E2 & E3 & E4).
  split; [|split; [|split; [|split]]].
  - constructor; simpl; try done; try lia; [by apply Set_ok|].
    intros ip' b'. destruct (Z.eq_dec ip' ip) as [->|Hne].
    + rewrite Find_Set_eq by done. intros [= <-]. simpl. lia.
    + rewrite Find_Set_ne by done. intros Hf. by apply (Htm ip'), Hbsub.
  - exists (mkBanned now now). simpl. rewrite Find_Set_eq by done. split; [done|].
    unfold MAX_BAN_TIME. simpl. lia.
  - intros ip' (b' & Hf & Ht). simpl in Hf. destruct (Z.eq_dec ip' ip) as [->|Hne]; [by left|right].
    rewrite Find_Set_ne in Hf by done. apply Hb1. exists b'. split; [by apply Hbsub|done].
  - simpl. eapply submap_trans; [exact D3|exact Ht1].
  - intros p Hp0. simpl. split; [by apply D4|by apply E4].
Qed.

Lemma Escalate_spec ip port now s :
  safekad_inv now s ->
  safekad_inv now (Escalate ip port now s).2 /\
  (forall ip', live_ban now (Escalate ip port now s).2 ip' -> ip' = ip \/ live_ban now s ip') /\
  submap (m_trackedNodes (Escalate ip port now s).2) (m_trackedNodes s).
Proof.
  intros Hinv. pose proof (IsProblematic_quiet ip port now s Hinv) as [Hi Hb Ht].
  unfold Escalate. destruct (IsProblematic ip port now s) as [pr s1]. simpl in *. destruct pr.
  - destruct (BanAddress_spec ip now s1 Hi) as (H1 & _ & H2 & H3 & _).
    split; [done|]. split; [|by eapply submap_trans].
    intros ip' [?|Hl]%H2; [by left|right; by apply Hb].
  - destruct (TrackProblematicNode_quiet ip port now s1 Hi) as [H1 H2 H3]. simpl.
    split; [done|]. split; [|by eapply submap_trans].
    intros ip' Hl. right. by apply Hb, H2.
Qed.

(** *** Tracking *)

Lemma op_eq_iff x y : op_eq x y = true <-> x = y.
Proof.
  destruct x as [a b c d], y as [a' b' c' d']. unfold op_eq, CompareTo, chunks. simpl.
  rewrite !Z.gtb_ltb. split; [|intros [= -> -> -> ->]; by rewrite !Z.ltb_irrefl].
  repeat case_cmp; try done. intros _. f_equal; lia.
Qed.

Lemma op_ne_iff x y : op_ne x y = true <-> x <> y.
Proof.
  rewrite <- op_eq_iff. unfold op_ne, op_eq. destruct (_ =? 0); split; done || congruence.
Qed.

(** What an operation on the address [k] with identity [id] may do to an entry [tr] known for it:
    the identity changes only after the minimum interval, and a verified one only to a verified
    claim; verification is sticky and comes from a verified claim. *)
Definition change_allowed (now : Z) (id : CUInt128) (idVerified : bool) (tr tr' : sTracked) : Prop :=
  (m_lastID tr' = m_lastID tr \/
   (m_lastID tr' = id /\ MIN_ID_CHANGE_INTERVAL <= now - m_lastIDChange tr /\
    (m_idVerified tr = true -> idVerified = true))) /\
  (m_idVerified tr = true -> m_idVerified tr' = true) /\
  (m_idVerified tr' = true -> m_idVerified tr = true \/ idVerified = true).

Lemma with_tracked_bans now s t ip : live_ban now (with_tracked s t) ip <-> live_ban now s ip.
Proof. done. Qed.

(** Writing back an entry of an address that was tracked when the operation began. *)
Lemma write_back_size (t0 t : CKadAgedMap (Z * Z) sTracked) k tr tr' :
  aged_ok t0 -> aged_ok t -> submap t t0 -> Find k t0 = Some tr -> Size t0 <= MAX_TRACKED_NODES ->
  Size (Set_ k tr' t) <= MAX_TRACKED_NODES.
Proof.
  intros H0 H1 Hsub Hf Hs. destruct (Find k t) as [e|] eqn:Hk.
  - rewrite (Size_Set_found k tr' e) by done.
    destruct (decide (Size t <= Size t0)); [lia|]. exfalso.
    assert (m_map t ⊆+ m_map t0) as Hm.
    { apply NoDup_submseteq.
      - destruct H1 as [Hs1 _ _]. induction Hs1 as [|x m Hs1 IH Hx]; constructor; [|done].
        intros Hin. rewrite Forall_forall in Hx. specialize (Hx _ Hin). unfold klt in Hx.
        by rewrite kltb_irrefl in Hx.
      - intros [k' e'] Hin. apply mfind_In; [apply H0|]. apply Hsub.
        apply mfind_In; [apply H1|done]. }
    apply submseteq_length in Hm. unfold Size in *. lia.
  - rewrite Size_Set_fresh by done. pose proof (submap_size_lt t0 t k tr H0 H1 Hsub Hf Hk). lia.
Qed.

Record track_post (ip port : Z) (id : CUInt128) (idVerified : bool) (now : Z) (s s' : CSafeKad) :
  Prop := {
  post_inv : safekad_inv now s';
  post_new_ban : forall ip', live_ban now s' ip' ->
                   live_ban now s ip' \/ (ip' = ip /\ idVerified = true);
  post_unverified : idVerified = false -> forall ip', live_ban now s ip' -> live_ban now s' ip';
  post_others : forall k tr', k <> (ip, port) -> Find k (m_trackedNodes s') = Some tr' ->
                  Find k (m_trackedNodes s) = Some tr';
  post_change : forall tr tr', Find (ip, port) (m_trackedNodes s) = Some tr ->
                  Find (ip, port) (m_trackedNodes s') = Some tr' ->
                  change_allowed now id idVerified tr tr'
}.

Ltac by_parts := repeat (split; [first [done|tauto]|]); first [done|tauto].

Lemma track_decision_spec ip port id idVerified now tr s :
  safekad_inv now s ->
  let '(accepted, _, tr1, s1) := track_decision ip port id idVerified now tr s in
  safekad_inv now s1 /\ submap (m_trackedNodes s1) (m_trackedNodes s) /\
  (forall ip', live_ban now s1 ip' -> live_ban now s ip' \/ (ip' = ip /\ idVerified = true)) /\
  (idVerified = false -> s1 = s) /\
  m_idVerified tr1 = m_idVerified tr /\
  (accepted = true -> m_lastID tr1 = id) /\
  (m_lastID tr1 = m_lastID tr \/
   (m_lastID tr1 = id /\ MIN_ID_CHANGE_INTERVAL <= now - m_lastIDChange tr /\
    (m_idVerified tr = true -> idVerified = true))).
Proof.
  intros Hinv. unfold track_decision.
  assert (forall ip' : Z, live_ban now s ip' -> live_ban now s ip' \/ ip' = ip /\ idVerified = true)
    as Hid by tauto.
  pose proof (submap_refl (m_trackedNodes s)) as Hsub.
  destruct (op_ne id (m_lastID tr)) eqn:Hne; cycle 1.
  { assert (id = m_lastID tr) as ->.
    { apply op_eq_iff. unfold op_eq. unfold op_ne in Hne. by apply negb_false_iff in Hne. }
    tauto. }
  destruct (m_idVerified tr && negb idVerified) eqn:Hv; [by_parts|].
  destruct (Z.ltb_spec (now - m_lastIDChange tr) MIN_ID_CHANGE_INTERVAL) as [Hlt|Hge].
  - destruct idVerified; [|by_parts].
    destruct (Escalate_spec ip port now s Hinv) as (H1 & H2 & H3).
    destruct (Escalate ip port now s) as [b s1]. simpl in *.
    split; [done|]. split; [done|]. split; [|by_parts].
    intros ip' [?|?]%H2; tauto.
  - simpl. split; [done|]. split; [done|]. split; [done|]. split; [done|]. split; [done|].
    split; [done|]. right. split; [done|]. split; [done|].
    intros Hvt. rewrite Hvt in Hv. by destruct idVerified.
Qed.

Lemma quiet_post ip port id idVerified now s s' :
  quiet now s s' -> track_post ip port id idVerified now s s'.
Proof.
  intros [H1 H2 H3]. constructor; [done| | | |].
  - intros ip' Hl. left. by apply H2.
  - intros _ ip' Hl. by apply H2.
  - intros k tr' _ Hf. by apply H3.
  - intros tr tr' Hf Hf'. apply H3 in Hf'. simplify_eq. split; [by left|]. by split; [|left].
Qed.

(** Learning an address that had no entry. *)
Lemma learn_post ip port id idVerified now s :
  safekad_inv now s -> Find (ip, port) (m_trackedNodes s) = None ->
  let s1 := Cleanup now s in
  let t := m_trackedNodes s1 in
  let t := if Size t >=? MAX_TRACKED_NODES then EraseOldest t else t in
  track_post ip port id idVerified now s
    (with_tracked s1 (Set_ (ip, port) (mkTracked id now now idVerified) t)).
Proof.
  intros Hinv Hnone s1 t0 t. pose proof (Cleanup_quiet now s Hinv) as [Hi Hb Hs].
  fold s1 in Hi, Hb, Hs. pose proof Hi as []. clearbody s1.
  destruct (make_room_size (ip, port) (mkTracked id now now idVerified) t0 MAX_TRACKED_NODES)
    as [Hok Hsz]; [done|done|by vm_compute|]. fold t in Hok, Hsz.
  constructor.
  - by apply with_tracked_inv.
  - intros ip' Hl. left. by apply Hb.
  - intros _ ip' Hl. by apply Hb.
  - intros k tr' Hne Hf. simpl in Hf. apply Hs. by apply make_room_find in Hf.
  - intros tr tr' Hf. congruence.
Qed.

Lemma TrackNode_spec ip port id idVerified now s :
  safekad_inv now s -> track_post ip port id idVerified now s (TrackNode ip port id idVerified now s).2.
Proof.
  intros Hinv. pose proof (IsBanned_spec ip now s Hinv) as (_ & _ & _ & Ht0 & _).
  pose proof (IsBanned_quiet ip now s Hinv) as Hq.
  unfold TrackNode. destruct (IsBanned ip now s) as [banned s0]. simpl in Hq, Ht0.
  destruct banned; [by apply quiet_post|]. destruct Hq as [Hi0 Hb0 _].
  destruct (Find (ip, port) (m_trackedNodes s0)) as [tr|] eqn:Hf; cycle 1.
  { destruct (learn_post ip port id idVerified now s0 Hi0 Hf) as [P1 P2 P3 P4 P5].
    simpl snd. constructor; [done| | | |].
    - intros ip' [Hl|?]%P2; [left; by apply Hb0|by right].
    - intros Hu ip' Hl. by apply P3; [|apply Hb0].
    - rewrite <- Ht0. exact P4.
    - rewrite <- Ht0. exact P5. }
  pose proof (track_decision_spec ip port id idVerified now tr s0 Hi0) as Hd.
  destruct (track_decision ip port id idVerified now tr s0) as [[[accepted nb] tr1] s1].
  destruct Hd as (Hi1 & Hs1 & Hb1 & Hu1 & Hv1 & _ & Hid1).
  set (tr2 := if accepted || _ then _ else tr1).
  set (tr3 := if accepted && _ then _ else tr2).
  assert (change_allowed now id idVerified tr tr3) as Hch.
  { assert (m_lastID tr3 = m_lastID tr1) as Hid3 by (unfold tr3, tr2; by repeat case_match).
    assert (m_idVerified tr2 = m_idVerified tr) as Hv2 by (unfold tr2; by case_match).
    split; [rewrite Hid3; exact Hid1|]. unfold tr3. rewrite Hv2.
    destruct accepted, (m_idVerified tr) eqn:Hv; simpl; rewrite ?Hv2; (split; [done|first [done|auto]]). }
  pose proof (IsBanned_spec ip now s1 Hi1) as (Hi2 & _ & Hb2 & Ht2 & _).
  destruct (IsBanned ip now s1) as [banned2 s2]. simpl in Hi2, Hb2, Ht2.
  pose proof Hi1 as []. pose proof Hi0 as [].
  set (s3 := if negb banned2 then _ else _). simpl snd.
  assert (safekad_inv now s3 /\ (forall ip', live_ban now s3 ip' <-> live_ban now s2 ip') /\
    (forall k tr', k <> (ip, port) -> Find k (m_trackedNodes s3) = Some tr' ->
       Find k (m_trackedNodes s1) = Some tr') /\
    (forall tr', Find (ip, port) (m_trackedNodes s3) = Some tr' -> tr' = tr3)) as (F1 & F2 & F3 & F4).
  { unfold s3. rewrite Ht2. destruct banned2; simpl.
    - pose proof (Size_Erase_le (ip, port) (m_trackedNodes s1)).
      split; [apply with_tracked_inv; auto with amule; lia|]. split; [done|]. split.
      + intros k tr' Hne. by rewrite Find_Erase_ne.
      + intros tr'. by rewrite Find_Erase_eq.
    - split.
      { apply with_tracked_inv; auto with amule.
        eapply (write_back_size (m_trackedNodes s0)); done. }
      split; [done|]. split.
      + intros k tr' Hne. by rewrite Find_Set_ne.
      + intros tr'. rewrite Find_Set_eq by done. by intros [= <-]. }
  constructor; [done| | | |].
  - intros ip' Hl%F2%Hb2. destruct (Hb1 _ Hl); [left; by apply Hb0|by right].
  - intros Hu ip' Hl. apply F2, Hb2. rewrite (Hu1 Hu). by apply Hb0.
  - intros k tr' Hne Hf'. rewrite <- Ht0. by apply Hs1, (F3 k).
  - rewrite <- Ht0. intros tr0 tr' Hf0 Hf'. apply F4 in Hf' as ->. by simplify_eq.
Qed.

Lemma IsBadNode_spec ip port id kadVersion idVerified one now s :
  safekad_inv now s ->
  let s0 := if now - m_lastCleanup s >? CLEANUP_INTERVAL then Cleanup now s else s in
  quiet now s s0 /\
  track_post ip port id idVerified now s0 (IsBadNode ip port id kadVersion idVerified one now s).2.
Proof.
  intros Hinv s0. assert (quiet now s s0) as Hq0.
  { unfold s0. case_match; [by apply Cleanup_quiet|by apply quiet_refl]. }
  split; [done|]. destruct Hq0 as [Hi0 _ _]. unfold IsBadNode. fold s0.
  pose proof (IsBanned_spec ip now s0 Hi0) as (_ & _ & _ & Ht1 & _).
  pose proof (IsBanned_quiet ip now s0 Hi0) as Hq1.
  destruct (IsBanned ip now s0) as [banned s1]. simpl in Ht1, Hq1.
  pose proof Hq1 as [Hi1 Hb1 Hs1]. pose proof Hi1 as []. destruct banned.
  { simpl. pose proof (Size_Erase_le (ip, port) (m_trackedNodes s1)). apply quiet_post.
    eapply quiet_trans; [exact Hq1|]. constructor; [|done|simpl; auto with amule].
    apply with_tracked_inv; auto with amule; lia. }
  destruct (Find (ip, port) (m_trackedNodes s1)) as [tr|] eqn:Hf; cycle 1.
  { destruct (one && _); [by apply quiet_post|]. simpl.
    destruct (TrackNode_spec ip port id idVerified now s1 Hi1) as [P1 P2 P3 P4 P5].
    constructor; [done| | | |].
    - intros ip' [Hl|?]%P2; [left; by apply Hb1|by right].
    - intros Hu ip' Hl. by apply P3; [|apply Hb1].
    - rewrite <- Ht1. exact P4.
    - rewrite <- Ht1. exact P5. }
  destruct (op_eq (m_lastID tr) id) eqn:He.
  { simpl. constructor.
    - apply with_tracked_inv; auto with amule. by rewrite (Size_Set_found _ _ tr).
    - intros ip' Hl. left. by apply Hb1.
    - intros _ ip' Hl. by apply Hb1.
    - intros k tr' Hne. simpl. by rewrite Find_Set_ne, Ht1.
    - intros tr0 tr'. rewrite <- Ht1. simpl. rewrite Find_Set_eq by done. intros Hf0 [= <-].
      simplify_eq. split; [by left|]. simpl. by destruct (m_idVerified _); simpl; (split; [done|auto]). }
  destruct (_ && negb idVerified); [by apply quiet_post|].
  destruct (TrackNode_spec ip port id idVerified now s1 Hi1) as [P1 P2 P3 P4 P5].
  destruct (TrackNode ip port id idVerified now s1) as [[accepted nb] s2]. simpl in *.
  assert (track_post ip port id idVerified now s0 s2) as Hp.
  { constructor; [done| | | |].
    - intros ip' [Hl|?]%P2; [left; by apply Hb1|by right].
    - intros Hu ip' Hl. by apply P3; [|apply Hb1].
    - rewrite <- Ht1. exact P4.
    - rewrite <- Ht1. exact P5. }
  destruct accepted; simpl; [|done]. clear P1 P2 P3 P4 P5. destruct Hp as [P1 P2 P3 P4 P5].
  destruct (IsBanned_spec ip now s2 P1) as (Hi3 & _ & Hb3 & Ht3 & _). constructor; [done| | | |].
  - intros ip' Hl%Hb3. by apply P2.
  - intros Hu ip' Hl. by apply Hb3, P3.
  - rewrite Ht3. exact P4.
  - rewrite Ht3. exact P5.
Qed.

(** ** Calls and reachable states *)

Inductive sk_call :=
| CallTrack (ip port : Z) (id : CUInt128) (idVerified : bool)
| CallBad (ip port : Z) (id : CUInt128) (kadVersion : Z) (idVerified one : bool)
| CallProblematic (ip port : Z)
| CallBan (ip : Z)
| CallIsBanned (ip : Z)
| CallIsProblematic (ip port : Z)
| CallCleanup.

Definition sk_exec (now : Z) (c : sk_call) (s : CSafeKad) : CSafeKad :=
  match c with
  | CallTrack ip port id v => (TrackNode ip port id v now s).2
  | CallBad ip port id ver v one => (IsBadNode ip port id ver v one now s).2
  | CallProblematic ip port => TrackProblematicNode ip port now s
  | CallBan ip => (BanAddress ip now s).2
  | CallIsBanned ip => (IsBanned ip now s).2
  | CallIsProblematic ip port => (IsProblematic ip port now s).2
  | CallCleanup => Cleanup now s
  end.

(** States reached from the empty tables by calls whose times do not go back. *)
Inductive sk_reach : Z -> CSafeKad -> Prop :=
| sk_reach_init : sk_reach 0 CSafeKad_init
| sk_reach_step T now c s : sk_reach T s -> T <= now -> sk_reach now (sk_exec now c s).

(** The address, identity and verification a call vouches for. *)
Definition claim (c : sk_call) : option (Z * Z * CUInt128 * bool) :=
  match c with
  | CallTrack ip port id v | CallBad ip port id _ v _ => Some (ip, port, id, v)
  | _ => None
  end.

(** Nobody proved anything: a packet whose identity is not verified, a report, a query. *)
Definition unverified (c : sk_call) : Prop :=
  match c with
  | CallTrack _ _ _ v | CallBad _ _ _ _ v _ => v = false
  | CallBan _ => False
  | _ => True
  end.

Lemma sk_exec_inv now c s : safekad_inv now s -> safekad_inv now (sk_exec now c s).
Proof.
  intros Hinv. destruct c; simpl.
  - by apply TrackNode_spec.
  - by apply IsBadNode_spec.
  - by apply TrackProblematicNode_quiet.
  - by apply BanAddress_spec.
  - by apply IsBanned_quiet.
  - by apply IsProblematic_quiet.
  - by apply Cleanup_quiet.
Qed.

Lemma sk_reach_inv T s : sk_reach T s -> safekad_inv T s.
Proof.
  induction 1 as [|T now c s _ IH Hle]; [apply inv_init|].
  apply sk_exec_inv. by eapply inv_mono.
Qed.

Lemma sk_exec_unverified now c s ip :
  safekad_inv now s -> unverified c -> live_ban now (sk_exec now c s) ip <-> live_ban now s ip.
Proof.
  intros Hinv Hu. destruct c as [ip' p id v|ip' p id ver v one|ip' p|ip'|ip'|ip' p|]; simpl in *.
  - subst v. destruct (TrackNode_spec ip' p id false now s Hinv) as [_ P2 P3 _ _].
    split; [intros [?|[_ ?]]%P2; done|by apply P3].
  - subst v. destruct (IsBadNode_spec ip' p id ver false one now s Hinv) as [[_ Hb _] [_ P2 P3 _ _]].
    rewrite <- Hb. split; [intros [?|[_ ?]]%P2; done|by apply P3].
  - by apply TrackProblematicNode_quiet.
  - done.
  - by apply IsBanned_quiet.
  - by apply IsProblematic_quiet.
  - by apply Cleanup_quiet.
Qed.

(** An entry referenced within the horizon survives [Cleanup]. *)
Lemma Cleanup_keeps now s k tr :
  safekad_inv now s -> Find k (m_trackedNodes s) = Some tr ->
  now - tracked_ref tr <= NODE_MAX_REFERENCE_AGE ->
  Find k (m_trackedNodes (Cleanup now s)) = Some tr.
Proof.
  intros Hinv Hf Ht. simpl.
  destruct (age_out_spec now NODE_MAX_REFERENCE_AGE (m_trackedNodes s)) as (_ & _ & Hb);
    [apply Hinv|]. by apply Hb.
Qed.

Definition allowed_by (now : Z) (c : sk_call) (k : Z * Z) (tr tr' : sTracked) : Prop :=
  (m_lastID tr' = m_lastID tr \/
   exists v, claim c = Some (k, m_lastID tr', v) /\
     MIN_ID_CHANGE_INTERVAL <= now - m_lastIDChange tr /\ (m_idVerified tr = true -> v = true)) /\
  (m_idVerified tr = true -> m_idVerified tr' = true).

Lemma track_post_allowed ip port id v now s s' c k tr tr' :
  track_post ip port id v now s s' -> claim c = Some (ip, port, id, v) ->
  Find k (m_trackedNodes s) = Some tr -> Find k (m_trackedNodes s') = Some tr' ->
  allowed_by now c k tr tr'.
Proof.
  intros [_ _ _ P4 P5] Hc Hf Hf'. destruct (decide (k = (ip, port))) as [->|Hne].
  - destruct (P5 _ _ Hf Hf') as ([Hid|(Hid & Ht & Hv)] & Hs & _); split; [by left|done| |done].
    right. exists v. by rewrite Hid.
  - apply P4 in Hf'; [|done]. simplify_eq. split; [by left|done].
Qed.

Lemma submap_allowed (s s' : CSafeKad) now c k tr tr' :
  submap (m_trackedNodes s') (m_trackedNodes s) ->
  Find k (m_trackedNodes s) = Some tr -> Find k (m_trackedNodes s') = Some tr' ->
  allowed_by now c k tr tr'.
Proof. intros Hsub Hf Hf'. apply Hsub in Hf'. simplify_eq. split; [by left|done]. Qed.

(** A query on an address that is not banned. *)
Lemma IsBanned_no ip now s :
  safekad_inv now s -> ~ live_ban now s ip ->
  exists s', IsBanned ip now s = (false, s') /\ safekad_inv now s' /\ ~ live_ban now s' ip /\
    Find ip (m_bannedAddresses s') = None /\ m_trackedNodes s' = m_trackedNodes s /\
    m_problematicNodes s' = m_problematicNodes s.
Proof.
  intros Hinv Hn. destruct (IsBanned_spec ip now s Hinv) as (H1 & H2 & H3 & H4 & H5).
  exists (IsBanned ip now s).2.
  assert (Find ip (m_bannedAddresses (IsBanned ip now s).2) = None) as Hf.
  { unfold IsBanned in *. destruct (Find ip (m_bannedAddresses s)) as [b|] eqn:Hf; [|done].
    case_match; simpl in *; [apply Find_Erase_eq, Hinv|]. destruct Hn. by apply H2. }
  destruct (IsBanned ip now s) as [[] s']; simpl in *; [destruct Hn; by apply H2|].
  split; [done|]. split; [done|]. split; [by rewrite H3|done].
Qed.

(** A query on a banned address. *)
Lemma IsBanned_yes ip now s b :
  Find ip (m_bannedAddresses s) = Some b -> now - m_banned b <= MAX_BAN_TIME ->
  aged_ok (m_bannedAddresses s) ->
  exists s', IsBanned ip now s = (true, s') /\
    Find ip (m_bannedAddresses s') = Some (mkBanned (m_banned b) now) /\
    m_trackedNodes s' = m_trackedNodes s.
Proof.
  intros Hf Ht Hok. unfold IsBanned. rewrite Hf, Z.gtb_ltb, (proj2 (Z.ltb_ge _ _)) by lia.
  eexists. split; [done|]. simpl. by rewrite Find_Set_eq.
Qed.

(** A verified rotation within the hour, on an address that is problematic. *)
Lemma ladder_ban ip port id now s tr p :
  safekad_inv now s -> ~ live_ban now s ip -> Find (ip, port) (m_trackedNodes s) = Some tr ->
  id <> m_lastID tr -> now - m_lastIDChange tr < MIN_ID_CHANGE_INTERVAL ->
  Find (ip, port) (m_problematicNodes s) = Some p -> now - m_failed p <= MAX_PROBLEMATIC_TIME ->
  exists s', TrackNode ip port id true now s = (false, true, s') /\
    exists b, Find ip (m_bannedAddresses s') = Some b /\ m_banned b = now.
Proof.
  intros Hinv Hnb Hf Hid Ht Hp Htp.
  destruct (IsBanned_no ip now s Hinv Hnb) as (s0 & Heq0 & Hi0 & _ & Hn0 & Ht0 & Hp0).
  unfold TrackNode. rewrite Heq0, Ht0, Hf. unfold track_decision.
  rewrite (proj2 (op_ne_iff _ _) Hid), andb_false_r, (proj2 (Z.ltb_lt _ _) Ht).
  unfold Escalate, IsProblematic. rewrite Hp0, Hp, Z.gtb_ltb, (proj2 (Z.ltb_ge _ _)) by lia.
  set (s1 := with_problematic s0 _).
  assert (safekad_inv now s1) as Hi1.
  { pose proof Hi0 as []. rewrite Hp0 in *. apply with_problematic_inv; auto with amule.
    by rewrite (Size_Set_found (ip, port) _ p). }
  assert (exists s2 b, BanAddress ip now s1 = (true, s2) /\ safekad_inv now s2 /\
    Find ip (m_bannedAddresses s2) = Some b /\ m_banned b = now) as (s2 & b & -> & Hi2 & Hb2 & Hbn).
  { destruct (BanAddress_spec ip now s1 Hi1) as (H1 & _). unfold BanAddress in *.
    assert (Find ip (m_bannedAddresses (Cleanup now s1)) = None) as Hnone.
    { destruct (Find ip (m_bannedAddresses (Cleanup now s1))) as [b|] eqn:Hb; [|done].
      simpl in Hb. destruct (age_out_spec now BAN_MAX_REFERENCE_AGE (m_bannedAddresses s0))
        as (_ & _ & Hs); [apply Hi0|]. apply Hs in Hb as [Hb _]. congruence. }
    rewrite Hnone in *. simpl in H1 |- *. do 2 eexists. split; [done|]. split; [exact H1|].
    simpl. destruct (age_out_spec now BAN_MAX_REFERENCE_AGE (m_bannedAddresses s0))
      as (Hok & _); [apply Hi0|].
    rewrite Find_Set_eq by (case_match; auto with amule). done. }
  cbn [negb andb orb]. destruct (IsBanned_yes ip now s2 b Hb2) as (s3 & -> & Hb3 & _).
  { unfold MAX_BAN_TIME. lia. }
  { apply Hi2. }
  cbn [negb]. eexists. split; [done|]. exists (mkBanned (m_banned b) now). by split.
Qed.

(** The first such rotation. *)
Lemma ladder_mark ip port id now s tr :
  safekad_inv now s -> ~ live_ban now s ip -> Find (ip, port) (m_trackedNodes s) = Some tr ->
  id <> m_lastID tr -> now - m_lastIDChange tr < MIN_ID_CHANGE_INTERVAL ->
  (forall p, Find (ip, port) (m_problematicNodes s) = Some p ->
             MAX_PROBLEMATIC_TIME < now - m_failed p) ->
  exists s', TrackNode ip port id true now s = (false, false, s') /\ ~ live_ban now s' ip /\
    exists p, Find (ip, port) (m_problematicNodes s') = Some p /\ m_failed p = now.
Proof.
  intros Hinv Hnb Hf Hid Ht Hp.
  destruct (IsBanned_no ip now s Hinv Hnb) as (s0 & Heq0 & Hi0 & Hl0 & Hn0 & Ht0 & Hp0).
  unfold TrackNode. rewrite Heq0, Ht0, Hf. unfold track_decision.
  rewrite (proj2 (op_ne_iff _ _) Hid), andb_false_r, (proj2 (Z.ltb_lt _ _) Ht).
  unfold Escalate.
  assert (exists s1, IsProblematic ip port now s0 = (false, s1) /\ safekad_inv now s1 /\
    ~ live_ban now s1 ip /\ Find (ip, port) (m_problematicNodes s1) = None)
    as (s1 & -> & Hi1 & Hl1 & Hp1).
  { unfold IsProblematic. rewrite Hp0.
    destruct (Find (ip, port) (m_problematicNodes s)) as [p|] eqn:Hfp.
    - specialize (Hp p eq_refl). rewrite Z.gtb_ltb, (proj2 (Z.ltb_lt _ _)) by done.
      set (sx := with_problematic s0 _).
      assert (safekad_inv now sx) as Hix.
      { pose proof Hinv as []. pose proof (Size_Erase_le (ip, port) (m_problematicNodes s)).
        apply with_problematic_inv; auto with amule; lia. }
      destruct (IsBanned_no ip now sx Hix Hl0) as (s1 & -> & ? & ? & _ & _ & Hpx).
      exists s1. repeat (split; [done|]). rewrite Hpx. simpl. apply Find_Erase_eq, Hinv.
    - destruct (IsBanned_no ip now s0 Hi0 Hl0) as (s1 & -> & ? & ? & _ & _ & Hpx).
      exists s1. repeat (split; [done|]). by rewrite Hpx, Hp0. }
  pose proof (TrackProblematicNode_quiet ip port now s1 Hi1) as [Hi2 Hb2 _].
  assert (exists p, Find (ip, port) (m_problematicNodes (TrackProblematicNode ip port now s1)) = Some p
          /\ m_failed p = now) as (p & Hp2 & Hpn).
  { unfold TrackProblematicNode.
    destruct (IsBanned_no ip now s1 Hi1 Hl1) as (sy & -> & Hiy & _ & _ & _ & Hpy).
    rewrite Hpy, Hp1. simpl. eexists. rewrite Find_Set_eq; [done|].
    destruct (age_out_spec now PROBLEMATIC_MAX_REFERENCE_AGE (m_problematicNodes sy)) as (? & _);
      [apply Hiy|]. case_match; auto with amule. }
  cbn [negb andb orb]. set (s2 := TrackProblematicNode ip port now s1) in *. clearbody s2.
  destruct (IsBanned_no ip now s2 Hi2) as (s3 & -> & Hi3 & Hl3 & _ & _ & Hp3); [by rewrite Hb2|].
  cbn [negb]. eexists. split; [done|]. split; [done|]. exists p. simpl. by rewrite Hp3.
Qed.

(** ** Properties *)

(** The tables stay bounded and indexed.  After any sequence of calls at times that do not
    go back, each of the three tables is within its maximum size and its age index lists
    exactly its entries under their last-reference times, and every stored ban has been
    referenced at or after its start and not after the last call. *)
Theorem safekad_tables_bounded (T : Z) (s : CSafeKad) (Hs : sk_reach T s) :
  Size (m_trackedNodes s) <= MAX_TRACKED_NODES /\
  Size (m_problematicNodes s) <= MAX_PROBLEMATIC_NODES /\
  Size (m_bannedAddresses s) <= MAX_BANNED_ADDRESSES /\
  aged_ok (m_trackedNodes s) /\ aged_ok (m_problematicNodes s) /\ aged_ok (m_bannedAddresses s) /\
  (forall ip b, Find ip (m_bannedAddresses s) = Some b -> m_banned b <= banned_ref b <= T).
Proof. destruct (sk_reach_inv T s Hs). tauto. Qed.

Definition sample_id (n : Z) : CUInt128 := of_uint32 n.

Definition sample_safekad : CSafeKad :=
  sk_exec 1300 (CallTrack 7 4672 (sample_id 3) true)
    (sk_exec 1200 (CallTrack 7 4672 (sample_id 2) true)
      (sk_exec 1000 (CallTrack 7 4672 (sample_id 1) true) CSafeKad_init)).

Lemma sample_safekad_reach : sk_reach 1300 sample_safekad.
Proof.
  apply (sk_reach_step 1200); [|lia]. apply (sk_reach_step 1000); [|lia].
  apply (sk_reach_step 0); [apply sk_reach_init|lia].
Qed.

Lemma safekad_tables_bounded_witness :
  Size (m_bannedAddresses sample_safekad) = 1 /\ Size (m_trackedNodes sample_safekad) = 0 /\
  aged_ok (m_bannedAddresses sample_safekad).
Proof.
  split; [vm_compute; reflexivity|]. split; [vm_compute; reflexivity|].
  apply (safekad_tables_bounded 1300 sample_safekad sample_safekad_reach).
Defined.

(** C22: identities do not rotate.  Whatever call is made in a reachable state, if an address
    whose entry was referenced within the last hour still has an entry afterwards, that entry
    has the same identity, unless the call itself claimed the new identity for that address, at
    least an hour after the last change, and with a verified identity if the old one was
    verified.  A verified entry stays verified. *)
Theorem safekad_identity_change (T now : Z) (s : CSafeKad) (c : sk_call) (k : Z * Z)
  (tr tr' : sTracked) (Hs : sk_reach T s) (Hnow : T <= now)
  (Hf : Find k (m_trackedNodes s) = Some tr) (Hrec : now - tracked_ref tr <= NODE_MAX_REFERENCE_AGE)
  (Hf' : Find k (m_trackedNodes (sk_exec now c s)) = Some tr') :
  allowed_by now c k tr tr'.
Proof.
  pose proof (inv_mono T now s Hnow (sk_reach_inv T s Hs)) as Hinv.
  destruct c as [ip p id v|ip p id ver v one|ip p|ip|ip|ip p|]; simpl in Hf'.
  - eapply track_post_allowed; [by apply TrackNode_spec|done..].
  - destruct (IsBadNode_spec ip p id ver v one now s Hinv) as [_ Hp].
    eapply track_post_allowed; [exact Hp|done| |done].
    case_match; [by apply Cleanup_keeps|done].
  - eapply submap_allowed; [by apply TrackProblematicNode_quiet|done..].
  - destruct (BanAddress_spec ip now s Hinv) as (_ & _ & _ & Hsub & _).
    by eapply submap_allowed.
  - eapply submap_allowed; [by apply IsBanned_quiet|done..].
  - eapply submap_allowed; [by apply IsProblematic_quiet|done..].
  - eapply submap_allowed; [by apply Cleanup_quiet|done..].
Qed.

Lemma safekad_identity_change_witness :
  let s := sk_exec 1000 (CallTrack 7 4672 (sample_id 1) true) CSafeKad_init in
  let tr := mkTracked (sample_id 1) 1000 1000 true in
  allowed_by 4600 (CallTrack 7 4672 (sample_id 9) true) (7, 4672) tr
    (mkTracked (sample_id 9) 4600 4600 true).
Proof.
  intros s tr. apply (safekad_identity_change 1000 4600 s); [|lia|vm_compute; reflexivity|vm_compute; congruence|vm_compute; reflexivity].
  eapply sk_reach_step; [apply sk_reach_init|lia].
Defined.

(** C23: hearsay never bans, and queries never end a ban early.  A call in which nobody proved an
    identity (an unverified packet, a misbehaviour report, a query, the clean-up) leaves the
    set of banned addresses exactly as it was at that time: no address becomes banned and no
    ban ends before its four hours.  A verified packet can ban only the address it came from. *)
Theorem safekad_unverified_never_bans (T now : Z) (s : CSafeKad) (c : sk_call)
  (Hs : sk_reach T s) (Hnow : T <= now) :
  (unverified c -> forall ip, live_ban now (sk_exec now c s) ip <-> live_ban now s ip) /\
  (forall ip p id v, claim c = Some (ip, p, id, v) ->
     forall ip', live_ban now (sk_exec now c s) ip' -> ip' = ip \/ live_ban now s ip') /\
  (forall ip, (IsBanned ip now s).1 = true <-> live_ban now s ip).
Proof.
  pose proof (inv_mono T now s Hnow (sk_reach_inv T s Hs)) as Hinv.
  split; [intros Hu ip; by apply sk_exec_unverified|]. split; [|intros ip; by apply IsBanned_spec].
  intros ip p id v Hc ip' Hl. destruct c as [i q d w|i q d ver w one|i q|i|i|i q|]; simplify_eq/=.
  - destruct (TrackNode_spec ip p id v now s Hinv) as [_ P2 _ _ _].
    apply P2 in Hl as [?|[? _]]; [by right|by left].
  - destruct (IsBadNode_spec ip p id ver v one now s Hinv) as [[_ Hb _] [_ P2 _ _ _]].
    apply P2 in Hl as [?|[? _]]; [right; by apply Hb|by left].
Qed.

Lemma safekad_unverified_never_bans_witness :
  live_ban 1400 sample_safekad 7 /\
  (live_ban 1400 (sk_exec 1400 (CallBad 7 4672 (sample_id 4) 9 false true) sample_safekad) 7 <->
   live_ban 1400 sample_safekad 7).
Proof.
  split; [exists (mkBanned 1300 1300); split; vm_compute; congruence|].
  apply (safekad_unverified_never_bans 1300 1400 sample_safekad
           (CallBad 7 4672 (sample_id 4) 9 false true));
    [exact sample_safekad_reach|lia|reflexivity].
Defined.

(** The escalation ladder.  A verified claim of another identity within an hour of the last
    change, from an address that is not banned, is always refused.  If the address has no
    problematic mark of the last 300 seconds it gets one and no ban; if it has one it is banned
    from now on for the whole ban time, and the caller is told that the ban is new. *)
Theorem safekad_escalation (T now : Z) (s : CSafeKad) (ip port : Z) (id : CUInt128) (tr : sTracked)
  (Hs : sk_reach T s) (Hnow : T <= now) (Hnb : ~ live_ban now s ip)
  (Hf : Find (ip, port) (m_trackedNodes s) = Some tr) (Hid : id <> m_lastID tr)
  (Ht : now - m_lastIDChange tr < MIN_ID_CHANGE_INTERVAL) :
  ((forall p, Find (ip, port) (m_problematicNodes s) = Some p ->
              MAX_PROBLEMATIC_TIME < now - m_failed p) ->
   exists s', TrackNode ip port id true now s = (false, false, s') /\ ~ live_ban now s' ip /\
     exists p, Find (ip, port) (m_problematicNodes s') = Some p /\ m_failed p = now) /\
  (forall p, Find (ip, port) (m_problematicNodes s) = Some p ->
     now - m_failed p <= MAX_PROBLEMATIC_TIME ->
     exists s', TrackNode ip port id true now s = (false, true, s') /\
       forall t, now <= t <= now + MAX_BAN_TIME -> live_ban t s' ip).
Proof.
  pose proof (inv_mono T now s Hnow (sk_reach_inv T s Hs)) as Hinv. split.
  - intros Hp. by eapply ladder_mark.
  - intros p Hp Htp. destruct (ladder_ban ip port id now s tr p) as (s' & Heq & b & Hb & Hbn);
      [done..|].
    exists s'. split; [done|]. intros t Ht'. exists b. split; [done|lia].
Qed.

Lemma safekad_escalation_witness :
  let s := sk_exec 1200 (CallTrack 7 4672 (sample_id 2) true)
             (sk_exec 1000 (CallTrack 7 4672 (sample_id 1) true) CSafeKad_init) in
  exists s', TrackNode 7 4672 (sample_id 3) true 1300 s = (false, true, s') /\
    forall t, 1300 <= t <= 1300 + MAX_BAN_TIME -> live_ban t s' 7.
Proof.
  intros s.
  refine (proj2 (safekad_escalation 1200 1300 s 7 4672 (sample_id 3)
    (mkTracked (sample_id 1) 1000 1200 true) _ _ _ _ _ _) (mkProblematic 1200 1200) _ _).
  - apply (sk_reach_step 1000); [|lia]. apply (sk_reach_step 0); [apply sk_reach_init|lia].
  - lia.
  - intros (b & Hb & _). vm_compute in Hb. discriminate Hb.
  - vm_compute. reflexivity.
  - discriminate.
  - vm_compute. reflexivity.
  - vm_compute. reflexivity.
  - vm_compute. congruence.
Defined.
