(* ===== verification/RoutingZone.v ===== *)
(** * The Kad routing table ([kademlia/routing/RoutingZone.h], [RoutingZone.cpp])

    A zone is a binary tree: a leaf holds a bin of contacts, an inner node two zones one level
    deeper.  A zone is registered for timer events ([CKademlia::AddEvent]) or not; the flag
    [m_registered] records it.  Our Kad ID, our public address, the IP filter and the compile
    switch of the identity protection are parameters. *)
From S2P Require Import Prelude StdMap UInt128 NetworkFunctions Contact AgedMap SafeKad RoutingBin.

Definition KBASE : Z := 4.
Definition KK : Z := 5.
Definition LOG_BASE_EXPONENT : Z := 5.

Record ZoneData := mkZone {
  m_level : Z;
  m_zoneIndex : CUInt128;
  m_nextBigTimer : Z;
  m_nextSmallTimer : Z;
  m_registered : bool
}.

Inductive CRoutingZone :=
  | ZLeaf (zd : ZoneData) (m_bin : CRoutingBin)
  | ZNode (zd : ZoneData) (sub0 sub1 : CRoutingZone).

Definition zone_data (z : CRoutingZone) : ZoneData :=
  match z with ZLeaf zd _ => zd | ZNode zd _ _ => zd end.

Definition IsLeaf (z : CRoutingZone) : bool := match z with ZLeaf _ _ => true | _ => false end.

Definition option_list {A} (o : option A) : list A := match o with Some x => [x] | None => [] end.

(** ** Creation *)

Definition StartTimer (now : Z) (zd : ZoneData) : ZoneData :=
  mkZone (m_level zd) (m_zoneIndex zd) (now + 10) (m_nextSmallTimer zd) true.

Definition StopTimer (zd : ZoneData) : ZoneData :=
  mkZone (m_level zd) (m_zoneIndex zd) (m_nextBigTimer zd) (m_nextSmallTimer zd) false.

(** [Init], the reading of [nodes.dat] by the root aside. *)
Definition Init (level : Z) (zone_index : CUInt128) (now : Z) : CRoutingZone :=
  ZLeaf (StartTimer now (mkZone level zone_index 0 (now + Get32BitChunk zone_index 3) false))
    CRoutingBin_new.

Definition CRoutingZone_new (now : Z) : CRoutingZone := Init 0 (of_uint32 0) now.

Definition GenSubZone (zd : ZoneData) (side : Z) (now : Z) : CRoutingZone :=
  Init (m_level zd + 1) (Add32 (ShiftLeft (m_zoneIndex zd) 1) side) now.

(** ** Queries *)

Fixpoint GetAllEntries (z : CRoutingZone) (result : list Z) (emptyFirst : bool) : list Z :=
  match z with
  | ZLeaf _ b => GetEntries b result emptyFirst
  | ZNode _ z0 z1 => GetAllEntries z1 (GetAllEntries z0 result emptyFirst) false
  end.

Fixpoint GetNumContacts (z : CRoutingZone) : Z :=
  match z with
  | ZLeaf _ b => GetSize b
  | ZNode _ z0 z1 => u32 (GetNumContacts z0 + GetNumContacts z1)
  end.

Fixpoint GetNumContactsVersion (z : CRoutingZone) (minVersion n filtered : Z) (s : KadState) : Z * Z :=
  match z with
  | ZLeaf _ b => GetNumContactsBin b minVersion n filtered s
  | ZNode _ z0 z1 =>
      let '(n, filtered) := GetNumContactsVersion z0 minVersion n filtered s in
      GetNumContactsVersion z1 minVersion n filtered s
  end.

Fixpoint GetMaxDepth (z : CRoutingZone) : Z :=
  match z with
  | ZLeaf _ _ => 0
  | ZNode _ z0 z1 => 1 + Z.max (GetMaxDepth z0) (GetMaxDepth z1)
  end.

Fixpoint HasOnlyLANNodes (z : CRoutingZone) (s : KadState) : bool :=
  match z with
  | ZLeaf _ b => HasOnlyLANNodesBin b s
  | ZNode _ z0 z1 => HasOnlyLANNodes z0 s && HasOnlyLANNodes z1 s
  end.

Fixpoint GetContactByAddress (z : CRoutingZone) (ip port : Z) (tcpPort : bool) (s : KadState) : option Z :=
  match z with
  | ZLeaf _ b => GetContactByIP b ip port tcpPort s
  | ZNode _ z0 z1 =>
      match GetContactByAddress z0 ip port tcpPort s with
      | Some contact => Some contact
      | None => GetContactByAddress z1 ip port tcpPort s
      end
  end.

Fixpoint GetClosestTo (z : CRoutingZone) (maxType : Z) (target distance : CUInt128) (maxRequired : Z)
  (result : list (CUInt128 * Z)) (emptyFirst inUse : bool) (s : KadState) :
  list (CUInt128 * Z) * KadState :=
  match z with
  | ZLeaf _ b => GetClosestToBin b maxType target maxRequired result emptyFirst inUse s
  | ZNode zd z0 z1 =>
      let closer := GetBitNumber distance (m_level zd) in
      let '(result, s) :=
        if closer =? 0
        then GetClosestTo z0 maxType target distance maxRequired result emptyFirst inUse s
        else GetClosestTo z1 maxType target distance maxRequired result emptyFirst inUse s in
      if Z.of_nat (length result) <? maxRequired then
        if closer =? 0
        then GetClosestTo z1 maxType target distance maxRequired result false inUse s
        else GetClosestTo z0 maxType target distance maxRequired result false inUse s
      else (result, s)
  end.

Fixpoint SetAllContactsVerified (z : CRoutingZone) (s : KadState) : KadState :=
  match z with
  | ZLeaf _ b => SetAllContactsVerifiedBin b s
  | ZNode _ z0 z1 => SetAllContactsVerified z1 (SetAllContactsVerified z0 s)
  end.

(** The random choices are the stream [rnd]; the result counts the numbers drawn. *)
Section Random.

Context (rnd : nat -> Z).

Fixpoint GetRandomContact (z : CRoutingZone) (maxType minKadVersion : Z) (s : KadState) (drawn : nat) :
  option Z * nat :=
  match z with
  | ZLeaf _ b =>
      (GetRandomContactBin b maxType minKadVersion (rnd drawn) s,
       match m_entries b with [] => drawn | _ => S drawn end)
  | ZNode _ z0 z1 =>
      if Z.land (rnd drawn) 1 =? 0 then
        match GetRandomContact z0 maxType minKadVersion s (S drawn) with
        | (Some contact, drawn) => (Some contact, drawn)
        | (None, drawn) => GetRandomContact z1 maxType minKadVersion s drawn
        end
      else
        match GetRandomContact z1 maxType minKadVersion s (S drawn) with
        | (Some contact, drawn) => (Some contact, drawn)
        | (None, drawn) => GetRandomContact z0 maxType minKadVersion s drawn
        end
  end.

Fixpoint RandomBin (z : CRoutingZone) (result : list Z) (emptyFirst : bool) (drawn : nat) : list Z * nat :=
  match z with
  | ZLeaf _ b => (GetEntries b result emptyFirst, drawn)
  | ZNode _ z0 z1 =>
      if Z.land (rnd drawn) 1 =? 0 then RandomBin z0 result emptyFirst (S drawn)
      else RandomBin z1 result emptyFirst (S drawn)
  end.

Fixpoint TopDepth (z : CRoutingZone) (depth : Z) (result : list Z) (emptyFirst : bool) (drawn : nat) :
  list Z * nat :=
  match z with
  | ZLeaf _ b => (GetEntries b result emptyFirst, drawn)
  | ZNode _ z0 z1 =>
      if depth <=? 0 then RandomBin z result emptyFirst drawn
      else
        let '(result, drawn) := TopDepth z0 (depth - 1) result emptyFirst drawn in
        TopDepth z1 (depth - 1) result false drawn
  end.

(** The loop stops when [count == maxRequired]. *)
Fixpoint copy_required (top : list Z) (count maxRequired : Z) (results : list Z) : Z * list Z :=
  match top with
  | [] => (count, results)
  | it :: top =>
      let results := results ++ [it] in
      let count := count + 1 in
      if count =? maxRequired then (count, results) else copy_required top count maxRequired results
  end.

Definition GetBootstrapContacts (z : CRoutingZone) (maxRequired : Z) (drawn : nat) : Z * list Z * nat :=
  let '(top, drawn) := TopDepth z LOG_BASE_EXPONENT [] true drawn in
  (copy_required top 0 maxRequired [], drawn).

End Random.

(** ** Splitting and merging *)

Definition CanSplit (zd : ZoneData) (b : CRoutingBin) : bool :=
  if m_level zd >=? 127 then false
  else (op_lt32 (m_zoneIndex zd) KK || (m_level zd <? KBASE)) && (GetSize b =? K).

(** [m_bin] of a leaf, and putting it back. *)
Definition bin_of (z : CRoutingZone) : CRoutingBin :=
  match z with ZLeaf _ b => b | ZNode _ _ _ => CRoutingBin_new end.

Definition with_bin (z : CRoutingZone) (b : CRoutingBin) : CRoutingZone :=
  match z with ZLeaf zd _ => ZLeaf zd b | ZNode _ _ _ => z end.

(** One round of the loop of [Split]. *)
Definition split_entry (level : Z) (acc : CRoutingZone * CRoutingZone * KadState) (it : Z) :
  CRoutingZone * CRoutingZone * KadState :=
  let '(z0, z1, s) := acc in
  if GetBitNumber (m_distance (deref s it)) level =? 0 then
    let '(ok, b, s) := AddContact (bin_of z0) it s in
    (with_bin z0 b, z1, if ok then s else delete_contact it s)
  else
    let '(ok, b, s) := AddContact (bin_of z1) it s in
    (z0, with_bin z1 b, if ok then s else delete_contact it s).

Definition Split (now : Z) (zd : ZoneData) (b : CRoutingBin) (s : KadState) : CRoutingZone * KadState :=
  let zd := StopTimer zd in
  let z0 := GenSubZone zd 0 now in
  let z1 := GenSubZone zd 1 now in
  let entries := GetEntries b [] true in
  let s := CRoutingBin_delete (mkBin (m_entries b) true) s in
  let '(z0, z1, s) := fold_left (split_entry (m_level zd)) entries (z0, z1, s) in
  (ZNode zd z0 z1, s).

(** The loops of [Consolidate]; a contact that the bin refuses is dropped. *)
Definition add_ignoring (acc : CRoutingBin * KadState) (it : Z) : CRoutingBin * KadState :=
  let '(b, s) := acc in let '(_, b, s) := AddContact b it s in (b, s).

(** Two leaves with few contacts become one. *)
Definition merge_leaves (now : Z) (zd : ZoneData) (b0 b1 : CRoutingBin) (s : KadState) :
  CRoutingZone * KadState :=
  let list0 := GetEntries b0 [] true in
  let list1 := GetEntries b1 [] true in
  let s := CRoutingBin_delete (mkBin (m_entries b0) true) s in
  let s := CRoutingBin_delete (mkBin (m_entries b1) true) s in
  let '(b, s) := fold_left add_ignoring list0 (CRoutingBin_new, s) in
  let '(b, s) := fold_left add_ignoring list1 (b, s) in
  (ZLeaf (StartTimer now zd) b, s).

Fixpoint Consolidate (now : Z) (z : CRoutingZone) (s : KadState) : Z * CRoutingZone * KadState :=
  match z with
  | ZLeaf _ _ => (0, z, s)
  | ZNode zd z0 z1 =>
      let '(n0, z0, s) := if negb (IsLeaf z0) then Consolidate now z0 s else (0, z0, s) in
      let '(n1, z1, s) := if negb (IsLeaf z1) then Consolidate now z1 s else (0, z1, s) in
      match z0, z1 with
      | ZLeaf _ b0, ZLeaf _ b1 =>
          if GetNumContacts (ZNode zd z0 z1) <? K / 2 then
            let '(z, s) := merge_leaves now zd b0 b1 s in (n0 + n1 + 1, z, s)
          else (n0 + n1, ZNode zd z0 z1, s)
      | _, _ => (n0 + n1, ZNode zd z0 z1, s)
      end
  end.

(** [~CRoutingZone], the writing of [nodes.dat] by the root aside. *)
Fixpoint CRoutingZone_delete (z : CRoutingZone) (s : KadState) : KadState :=
  match z with
  | ZLeaf _ b => CRoutingBin_delete b s
  | ZNode _ z0 z1 => CRoutingZone_delete z1 (CRoutingZone_delete z0 s)
  end.

(** ** Contacts coming in *)

(** [HELLO_REQ] sent by the timer: address, port, version, key, and the identity if given. *)
Record HelloReq := mkHello {
  hello_ip : Z;
  hello_port : Z;
  hello_version : Z;
  hello_key : CKadUDPKey;
  hello_id : option CUInt128
}.

(** Enough for the descent from the root: zones have levels 0 to 127. *)
Definition ADD_FUEL : nat := 128.

Section Table.

Context (me : CUInt128) (PublicIP : Z) (IsFiltered : Z -> bool) (node_protection : bool).

Fixpoint GetContactById (z : CRoutingZone) (id : CUInt128) (s : KadState) : option Z :=
  match z with
  | ZLeaf _ b => GetContact b id s
  | ZNode zd z0 z1 =>
      if GetBitNumber (XOR me id) (m_level zd) =? 0
      then GetContactById z0 id s else GetContactById z1 id s
  end.

(** The sender key stored with [c], as seen from our public address. *)
Definition sender_key (c : CContact) : Z := GetKeyValue (m_udpKey c) PublicIP.

(** The fields a full update takes over from the packet. *)
Definition overwrite (c cu : CContact) : CContact :=
  let cu := SetUDPKey (m_udpKey c)
              (SetVersion (m_version c) (SetTCPPort (m_tcpPort c) (SetUDPPort (m_udpPort c) cu))) in
  if negb (m_ipVerified cu) then SetIPVerified (m_ipVerified c) cu else cu.

(** The branch of [Add] for a contact whose identity is known: the new [update] and
    [outIpVerified], the bin and the state. *)
Definition update_entry (now : Z) (b : CRoutingBin) (contactUpdate contact : Z)
  (update outIpVerified : bool) (s : KadState) : bool * bool * CRoutingBin * KadState :=
  let cu := deref s contactUpdate in
  let c := deref s contact in
  if negb update then (update, outIpVerified, b, s)
  else if negb (sender_key cu =? 0) && negb (sender_key cu =? sender_key c)
  then (false, outIpVerified, b, s)
  else if (m_version cu >=? 1) && (m_version cu <? 6) && m_receivedHelloPacket cu then
    if (m_ip cu =? m_ip c) && (m_tcpPort cu =? m_tcpPort c) && (m_version cu =? m_version c) &&
       (m_udpPort cu =? m_udpPort c)
    then
      let outIpVerified := m_ipVerified cu in
      let '(b, s) := SetAlive now b contactUpdate s in
      (update, outIpVerified, b, s)
    else (false, outIpVerified, b, s)
  else
    let '(changed, s) := ChangeContactIPAddress b contactUpdate (m_ip c) s in
    if changed && (m_version c >=? m_version cu) then
      let s := update_contact contactUpdate (overwrite c) s in
      let outIpVerified := m_ipVerified (deref s contactUpdate) in
      let '(b, s) := SetAlive now b contactUpdate s in
      let s := if m_receivedHelloPacket c
               then update_contact contactUpdate SetReceivedHelloPacket s else s in
      (update, outIpVerified, b, s)
    else (false, outIpVerified, b, s).

(** [Add(contact, update, outIpVerified)]: the result, the two references, the zone and the
    state; [None] when the fuel is used up. *)
Fixpoint ZoneAdd (fuel : nat) (now : Z) (z : CRoutingZone) (contact : Z) (update outIpVerified : bool)
  (s : KadState) : option (bool * bool * bool * CRoutingZone * KadState) :=
  match fuel with
  | O => None
  | S fuel =>
      let add_sub zd z0 z1 s :=
        if GetBitNumber (m_distance (deref s contact)) (m_level zd) =? 0 then
          '(r, u, o, z0, s) ← ZoneAdd fuel now z0 contact update outIpVerified s;
          Some (r, u, o, ZNode zd z0 z1, s)
        else
          '(r, u, o, z1, s) ← ZoneAdd fuel now z1 contact update outIpVerified s;
          Some (r, u, o, ZNode zd z0 z1, s) in
      match z with
      | ZNode zd z0 z1 => add_sub zd z0 z1 s
      | ZLeaf zd b =>
          match GetContact b (m_clientID (deref s contact)) s with
          | Some contactUpdate =>
              let '(u, o, b, s) := update_entry now b contactUpdate contact update outIpVerified s in
              Some (false, u, o, ZLeaf zd b, s)
          | None =>
              if negb (GetRemaining b =? 0) then
                let '(r, b, s) := AddContact b contact s in
                Some (r, false, outIpVerified, ZLeaf zd b, s)
              else if CanSplit zd b then
                match Split now zd b s with
                | (ZNode zd z0 z1, s) => add_sub zd z0 z1 s
                | (ZLeaf _ _, _) => None
                end
              else Some (false, false, outIpVerified, z, s)
          end
      end
  end.

Definition AddUnfiltered (now : Z) (z : CRoutingZone) (id : CUInt128) (ip port tport version : Z)
  (key : CKadUDPKey) (ipVerified update fromHello : bool) (s : KadState) (sk : CSafeKad) :
  option (bool * bool * CRoutingZone * KadState * CSafeKad) :=
  if op_ne id me then
    let '(bad, sk) :=
      if node_protection then IsBadNode ip port id version ipVerified false now sk
      else (false, sk) in
    if bad then Some (false, ipVerified, z, s, sk)
    else
      let '(contact, s) :=
        new_contact (CContact_new id ip port tport version key ipVerified me now) s in
      let s := if fromHello then update_contact contact SetReceivedHelloPacket s else s in
      '(added, update, ipVerified, z, s) ← ZoneAdd ADD_FUEL now z contact update ipVerified s;
      if added : bool then Some (true, ipVerified, z, s, sk)
      else Some (update, ipVerified, z, delete_contact contact s, sk)
  else Some (false, ipVerified, z, s, sk).

(** [Add(id, ip, ...)]. *)
Definition AddFiltered (now : Z) (z : CRoutingZone) (id : CUInt128) (ip port tport version : Z)
  (key : CKadUDPKey) (ipVerified update fromHello : bool) (s : KadState) (sk : CSafeKad) :
  option (bool * bool * CRoutingZone * KadState * CSafeKad) :=
  if IsGoodIPPort (swap32 ip) port then
    if negb (IsFiltered (swap32 ip)) && negb ((port =? 53) && (version <=? 5))
    then AddUnfiltered now z id ip port tport version key ipVerified update fromHello s sk
    else Some (false, ipVerified, z, s, sk)
  else Some (false, ipVerified, z, s, sk).

Definition VerifyContact (now : Z) (z : CRoutingZone) (id : CUInt128) (ip : Z) (s : KadState)
  (sk : CSafeKad) : bool * KadState * CSafeKad :=
  match GetContactById z id s with
  | None => (false, s, sk)
  | Some contact =>
      if negb (ip =? m_ip (deref s contact)) then (false, s, sk)
      else
        let s := if m_ipVerified (deref s contact) then s
                 else update_contact contact (SetIPVerified true) s in
        let sk := if node_protection
                  then let '(_, _, sk) := TrackNode ip (m_udpPort (deref s contact)) id true now sk in sk
                  else sk in
        (true, s, sk)
  end.

Definition IsAcceptableContact (z : CRoutingZone) (toCheck : CContact) (s : KadState) : bool :=
  if m_version toCheck <=? 1 then false
  else
    match GetContactById z (m_clientID toCheck) s with
    | Some duplicate =>
        negb ((m_ipVerified (deref s duplicate) && negb (m_ip (deref s duplicate) =? m_ip toCheck)) ||
              negb (m_udpPort (deref s duplicate) =? m_udpPort toCheck))
    | None => CheckGlobalIPLimits (m_ip toCheck) (m_udpPort toCheck) s
    end.

(** ** Timers *)

(** One round of the sweep of [OnSmallTimer]. *)
Definition sweep_entry (now : Z) (acc : CRoutingBin * KadState * CSafeKad) (c : Z) :
  CRoutingBin * KadState * CSafeKad :=
  let '(b, s, sk) := acc in
  let remove (sk : CSafeKad) :=
    if negb (InUse (deref s c)) then
      let '(b, s) := RemoveContact b c false s in (b, delete_contact c s, sk)
    else (b, s, sk) in
  let '(banned, sk) := if node_protection then IsBanned (m_ip (deref s c)) now sk else (false, sk) in
  if banned then remove sk
  else if (m_type (deref s c) =? 4) && (m_expires (deref s c) >? 0) && (m_expires (deref s c) <=? now)
  then remove sk
  else if m_expires (deref s c) =? 0 then (b, update_contact c (SetExpireTime now) s, sk)
  else (b, s, sk).

(** The [HELLO] to the oldest contact, and whether the firewall statistics are counted. *)
Definition hello_of (c : CContact) : option HelloReq * bool :=
  if m_version c >=? 6 then
    (Some (mkHello (m_ip c) (m_udpPort c) (m_version c) (m_udpKey c) (Some (m_clientID c))),
     m_version c >=? 8)
  else if m_version c >=? 2 then
    (Some (mkHello (m_ip c) (m_udpPort c) (m_version c) CKadUDPKey_zero None), false)
  else (None, false).

Definition OnSmallTimer (now : Z) (z : CRoutingZone) (s : KadState) (sk : CSafeKad) :
  option HelloReq * bool * CRoutingZone * KadState * CSafeKad :=
  match z with
  | ZNode _ _ _ => (None, false, z, s, sk)
  | ZLeaf zd b =>
      let '(b, s, sk) := fold_left (sweep_entry now) (GetEntries b [] true) (b, s, sk) in
      match GetOldest b with
      | None => (None, false, ZLeaf zd b, s, sk)
      | Some c =>
          if (m_expires (deref s c) >=? now) || (m_type (deref s c) =? 4) then
            let '(b, s) := PushToBottom b c s in (None, false, ZLeaf zd b, s, sk)
          else
            let s := update_contact c (CheckingType now) s in
            let '(hello, stats) := hello_of (deref s c) in
            (hello, stats, ZLeaf zd b, s, sk)
      end
  end.

(** [m_bin->GetRemaining() >= (K * 0.8)] compares with 8.0. *)
Definition OnBigTimer (z : CRoutingZone) : bool :=
  match z with
  | ZLeaf zd b =>
      op_lt32 (m_zoneIndex zd) KK || (m_level zd <? KBASE) || (GetRemaining b >=? 8)
  | ZNode _ _ _ => false
  end.

(** ** One round of [CKademlia::Process] over the zones

    The zones are served from left to right (the event map is ordered by their addresses), the
    estimation of the network size aside. *)

Definition KADEMLIADISCONNECTDELAY : Z := MIN2S 20.

(** [m_bigTimer], the messages sent, how many of them count for the firewall statistics, and the
    zones whose random look-up was started. *)
Record ProcessState := mkProcess {
  m_bigTimer : Z;
  hellos : list HelloReq;
  hello_stats : Z;
  lookups : list ZoneData
}.

Definition set_timers (big small : Z) (z : CRoutingZone) : CRoutingZone :=
  let f zd := mkZone (m_level zd) (m_zoneIndex zd) big small (m_registered zd) in
  match z with ZLeaf zd b => ZLeaf (f zd) b | ZNode zd z0 z1 => ZNode (f zd) z0 z1 end.

Definition ProcessZone (now lastContact : Z) (z : CRoutingZone) (t : ProcessState) (s : KadState)
  (sk : CSafeKad) : CRoutingZone * ProcessState * KadState * CSafeKad :=
  let zd := zone_data z in
  let '(z, t) :=
    if (m_bigTimer t <=? now) &&
       ((m_nextBigTimer zd <=? now) ||
        (negb (lastContact =? 0) && (now - lastContact >? KADEMLIADISCONNECTDELAY - MIN2S 5))) &&
       OnBigTimer z
    then (set_timers (HR2S 1 + now) (m_nextSmallTimer zd) z,
          mkProcess (10 + now) (hellos t) (hello_stats t) (lookups t ++ [zd]))
    else (z, t) in
  if m_nextSmallTimer zd <=? now then
    let '(hello, stats, z, s, sk) := OnSmallTimer now z s sk in
    (set_timers (m_nextBigTimer (zone_data z)) (MIN2S 1 + now) z,
     mkProcess (m_bigTimer t) (hellos t ++ option_list hello)
       (hello_stats t + if stats : bool then 1 else 0) (lookups t), s, sk)
  else (z, t, s, sk).

Fixpoint ProcessZones (now lastContact : Z) (z : CRoutingZone) (t : ProcessState) (s : KadState)
  (sk : CSafeKad) : CRoutingZone * ProcessState * KadState * CSafeKad :=
  match z with
  | ZLeaf zd b => ProcessZone now lastContact z t s sk
  | ZNode zd z0 z1 =>
      let '(z0, t, s, sk) := ProcessZones now lastContact z0 t s sk in
      let '(z1, t, s, sk) := ProcessZones now lastContact z1 t s sk in
      (ZNode zd z0 z1, t, s, sk)
  end.

(** The target of [RandomLookup]: a random identity in the zone ([rnd], [junk] as for the
    constructor of [CUInt128]). *)
Definition RandomLookup (rnd : nat -> Z) (junk : CUInt128) (zd : ZoneData) : CUInt128 :=
  let prefix := ShiftLeft (m_zoneIndex zd) (128 - m_level zd) in
  XOR (CUInt128_prefix rnd junk prefix (m_level zd)) me.

End Table.
