(* ===== verification/RoutingTable.v ===== *)
(** * Correctness of the Kad routing table

    The invariant of the tree of zones with its heap and tracking maps, its preservation by
    every operation of [RoutingZone], and what the queries answer. *)
From S2P Require Import Prelude StdMap UInt128 NetworkFunctions Contact AgedMap SafeKad RoutingBin RoutingZone.

(** All contacts of a zone, from left to right. *)
Fixpoint entries (z : CRoutingZone) : list Z :=
  match z with
  | ZLeaf _ b => m_entries b
  | ZNode _ z0 z1 => entries z0 ++ entries z1
  end.

Section Table.

Context (me : CUInt128) (Hme : wf_uint128 me).

(** The zone of level [lvl] with index [i]: the contacts whose distance starts with the [lvl]
    bits of [i]. *)
Definition in_zone (s : KadState) (lvl i : Z) (p : Z) : Prop :=
  Z.shiftr (value (m_distance (deref s p))) (128 - lvl) = i.

Definition zone_data_ok (lvl i : Z) (registered : bool) (zd : ZoneData) : Prop :=
  m_level zd = lvl /\ wf_uint128 (m_zoneIndex zd) /\ value (m_zoneIndex zd) = i /\
  m_registered zd = registered.

Fixpoint zone_ok (s : KadState) (lvl i : Z) (z : CRoutingZone) : Prop :=
  match z with
  | ZLeaf zd b =>
      zone_data_ok lvl i true zd /\ bin_ok me s b /\ Forall (in_zone s lvl i) (m_entries b)
  | ZNode zd z0 z1 =>
      zone_data_ok lvl i false zd /\ lvl < 127 /\
      zone_ok s (lvl + 1) (2 * i) z0 /\ zone_ok s (lvl + 1) (2 * i + 1) z1
  end.

Definition zone_bounds (lvl i : Z) : Prop := 0 <= lvl <= 127 /\ 0 <= i < 2 ^ lvl.

(** ** Paths *)

Lemma zone_bounds_sub lvl i j :
  zone_bounds lvl i -> lvl < 127 -> j = 2 * i \/ j = 2 * i + 1 -> zone_bounds (lvl + 1) j.
Proof.
  intros [Hl Hi] H Hj. unfold zone_bounds. rewrite Z.pow_add_r by lia. lia.
Qed.

Lemma live_distance s p : live me s p ->
  wf_uint128 (m_distance (deref s p)) /\ m_distance (deref s p) = XOR me (id_of s p).
Proof.
  intros H. apply live_deref in H as [_ [Hid _ Hd]]. rewrite Hd. split; [|done]. by apply wf_XOR.
Qed.

Lemma in_zone_bit s lvl i p : 0 <= lvl < 128 -> live me s p -> in_zone s lvl i p ->
  in_zone s (lvl + 1) (2 * i + (if GetBitNumber (m_distance (deref s p)) lvl =? 0 then 0 else 1)) p.
Proof.
  unfold in_zone. intros Hl Hp <-.
  rewrite GetBitNumber_testbit by (lia || apply (live_distance s p Hp)).
  set (v := value (m_distance (deref s p))).
  replace (128 - (lvl + 1)) with (127 - lvl) by lia.
  replace (128 - lvl) with (127 - lvl + 1) by lia.
  rewrite <- Z.shiftr_shiftr by lia. set (w := Z.shiftr v (127 - lvl)).
  assert (Z.testbit v (127 - lvl) = Z.odd w) as ->.
  { rewrite <- Z.bit0_odd. unfold w. rewrite Z.shiftr_spec by lia. f_equal. }
  rewrite (Z.shiftr_div_pow2 w 1) by lia. change (2 ^ 1) with 2.
  pose proof (Z.mod_eq w 2). pose proof (Zmod_odd w). destruct (Z.odd w); simpl; lia.
Qed.

Lemma in_zone_up s lvl i j p : 0 <= lvl < 128 -> in_zone s (lvl + 1) j p -> i = j / 2 -> in_zone s lvl i p.
Proof.
  unfold in_zone. intros Hl <- ->.
  replace (128 - lvl) with (128 - (lvl + 1) + 1) by lia.
  rewrite <- Z.shiftr_shiftr by lia. by rewrite (Z.shiftr_div_pow2 _ 1) by lia.
Qed.

Lemma zone_entries s z : forall lvl i, 0 <= lvl -> zone_ok s lvl i z ->
  Forall (fun p => live me s p /\ in_zone s lvl i p) (entries z).
Proof.
  induction z as [zd b|zd z0 IH0 z1 IH1]; intros lvl i Hl; simpl.
  - intros (_ & Hb & Hz). apply Forall_and. split; [apply Hb|done].
  - intros (_ & Hlt & H0 & H1). apply Forall_app. split.
    + eapply Forall_impl; [apply (IH0 (lvl + 1) (2 * i)); done || lia|]. intros p [Hp Hz].
      split; [done|]. eapply in_zone_up; [lia|exact Hz|lia].
    + eapply Forall_impl; [apply (IH1 (lvl + 1) (2 * i + 1)); done || lia|]. intros p [Hp Hz].
      split; [done|]. eapply in_zone_up; [lia|exact Hz|lia].
Qed.

Lemma in_zone_agree s s' l lvl i : agree l s s' -> Forall (in_zone s lvl i) l -> Forall (in_zone s' lvl i) l.
Proof.
  intros Ha. rewrite !Forall_forall. intros H p Hp. unfold in_zone. rewrite (agree_deref l s s') by done.
  by apply H.
Qed.

(** The invariant of a zone only depends on its own contacts. *)
Lemma zone_ok_agree s s' z : forall lvl i, agree (entries z) s s' -> zone_ok s lvl i z -> zone_ok s' lvl i z.
Proof.
  induction z as [zd b|zd z0 IH0 z1 IH1]; intros lvl i Ha; simpl in *.
  - intros (Hd & Hb & Hz). split_and!; [done|by apply (bin_ok_agree me s)|by apply (in_zone_agree s)].
  - intros (Hd & Hlt & H0 & H1). split_and!; [done|done|apply IH0; [|done]|apply IH1; [|done]];
      intros p Hp; apply Ha, elem_of_app; tauto.
Qed.

Lemma live_bit s p lvl : live me s p -> GetBitNumber (m_distance (deref s p)) lvl = GetBitNumber (XOR me (id_of s p)) lvl.
Proof. intros H. apply live_deref in H as [_ [_ _ ->]]. done. Qed.

(** The two halves of a zone have different distances. *)
Lemma zones_disjoint s lvl i p q : 0 <= lvl < 128 ->
  in_zone s (lvl + 1) (2 * i) p -> in_zone s (lvl + 1) (2 * i + 1) q ->
  live me s p -> live me s q -> id_of s p <> id_of s q.
Proof.
  unfold in_zone. intros Hl H0 H1 Hp Hq E. apply live_deref in Hp as [_ [_ _ Dp]], Hq as [_ [_ _ Dq]].
  fold (id_of s p) in Dp. fold (id_of s q) in Dq. rewrite Dp in H0. rewrite Dq, <- E in H1. lia.
Qed.

(** Identities are unique in a zone. *)
Lemma zone_ids_NoDup s z : forall lvl i, 0 <= lvl -> zone_ok s lvl i z -> NoDup (ids s (entries z)).
Proof.
  induction z as [zd b|zd z0 IH0 z1 IH1]; intros lvl i Hl; simpl.
  - intros (_ & Hb & _). apply Hb.
  - intros (_ & Hlt & H0 & H1). unfold ids. rewrite map_app. apply NoDup_app. split_and!.
    + by apply (IH0 (lvl + 1) (2 * i)); [lia|].
    + intros x Hx Hy. apply list_elem_of_fmap in Hx as (p & -> & Hp), Hy as (q & E & Hq).
      apply zone_entries in H0, H1; [|lia..]. rewrite Forall_forall in H0, H1.
      destruct (H0 p Hp), (H1 q Hq). by eapply (zones_disjoint s lvl i p q); [lia|..].
    + by apply (IH1 (lvl + 1) (2 * i + 1)); [lia|].
Qed.

Lemma zone_NoDup s z lvl i : 0 <= lvl -> zone_ok s lvl i z -> NoDup (entries z).
Proof. intros Hl Hz. apply (NoDup_fmap_1 (id_of s)). by eapply zone_ids_NoDup. Qed.

Lemma GetAllEntries_spec z : forall result emptyFirst,
  GetAllEntries z result emptyFirst = (if emptyFirst then [] else result) ++ entries z.
Proof.
  induction z as [zd b|zd z0 IH0 z1 IH1]; intros result e; simpl; [done|].
  by rewrite IH1, IH0, app_assoc.
Qed.

(** ** Splitting *)

Lemma sub_index zd lvl i r side now :
  zone_bounds lvl i -> lvl < 127 -> side = 0 \/ side = 1 -> zone_data_ok lvl i r zd ->
  exists zd', GenSubZone zd side now = ZLeaf zd' CRoutingBin_new /\
    zone_data_ok (lvl + 1) (2 * i + side) true zd'.
Proof.
  intros [Hl Hi] Hlt Hside (E1 & Hwf & E2 & E3).
  eexists. split; [reflexivity|]. simpl. unfold zone_data_ok. simpl.
  pose proof (ShiftLeft_spec (m_zoneIndex zd) 1 Hwf) as Hs.
  destruct Hs as [Hsv Hswf]; [lia|].
  destruct (Add32_spec (ShiftLeft (m_zoneIndex zd) 1) side) as [Hav Hawf];
    [done|unfold in_width; norm_pow; lia|].
  split_and!; [lia|done| |done].
  rewrite Hav, Hsv, E2.
  assert (2 ^ lvl <= 2 ^ 126) by (apply Z.pow_le_mono_r; lia).
  change (2 ^ 126) with 85070591730234615865843651857942052864 in *.
  change (2 ^ 128) with 340282366920938463463374607431768211456. change (2 ^ 1) with 2. lia.
Qed.

(** The halves while the contacts [done] of a full leaf have been distributed, [todo] not yet. *)
Record split_inv (lvl i : Z) (s0 : KadState) (all rest : list Z) (todo : list Z)
  (z0 z1 : CRoutingZone) (s : KadState) : Prop := {
  sp_z0 : exists zd b, z0 = ZLeaf zd b /\ zone_ok s (lvl + 1) (2 * i) z0;
  sp_z1 : exists zd b, z1 = ZLeaf zd b /\ zone_ok s (lvl + 1) (2 * i + 1) z1;
  sp_perm : Permutation (entries z0 ++ entries z1 ++ todo) all;
  sp_tracked : tracked s (entries z0 ++ entries z1 ++ rest);
  sp_heap : contacts s = contacts s0;
  sp_next : next_contact s = next_contact s0;
  sp_fails : fails s = fails s0
}.

(** A contact of a bin fits into a part of the bin. *)
Lemma addable_part s0 s b part it rest L :
  bin_ok me s0 b -> tracked s0 (m_entries b ++ rest) -> contacts s = contacts s0 ->
  it ∈ m_entries b ->
  (exists others, Permutation (it :: m_entries part ++ others) (m_entries b)) ->
  (exists others, Permutation (it :: L ++ others) (m_entries b ++ rest)) ->
  addable s part (ips s L) it.
Proof.
  intros Hb Ht Hh Hit [o1 P1] [o2 P2].
  assert (forall l, ips s l = ips s0 l) as Eips by (intros; by apply agree_ips, agree_same_heap).
  assert (forall l, ids s l = ids s0 l) as Eids by (intros; by apply agree_ids, agree_same_heap).
  assert (ip_of s it = ip_of s0 it) as Eip by (unfold ip_of, deref; by rewrite Hh).
  assert (id_of s it = id_of s0 it) as Eid by (unfold id_of, deref; by rewrite Hh).
  unfold addable. rewrite !Eips, !Eids, Eip, Eid.
  destruct Hb as [B1 B2 B3 B4 B5]. rewrite <- P1 in B1, B4, B5.
  unfold tracked in Ht. rewrite <- P2 in Ht. destruct Ht as [_ _ _ T4 T5].
  unfold ips in T4, T5, B5. simpl in T4, T5, B5. rewrite map_app in T4, T5, B5.
  change (map (ip_of s0) L) with (ips s0 L) in T4, T5.
  change (map (ip_of s0) (m_entries part)) with (ips s0 (m_entries part)) in B5.
  split_and!.
  - unfold ids in B4. simpl in B4. apply NoDup_cons in B4 as [B4 _]. rewrite map_app in B4.
    intros Hin. apply B4, elem_of_app. by left.
  - specialize (T4 (ip_of s0 it)). simpl in T4. rewrite Z.eqb_refl, cnt_app in T4.
    pose proof (cnt_nonneg (ip_of s0 it) (map (ip_of s0) o2)). lia.
  - apply limits_room. apply (limits_sub _ _ (map (ip_of s0) o2)). exact T5.
  - apply limits_room. apply (limits_sub _ _ (map (ip_of s0) o1)). exact B5.
  - simpl in B1. rewrite length_app in B1. lia.
Qed.

Lemma split_entry_inv lvl i s0 b rest it todo z0 z1 s :
  zone_bounds lvl i -> lvl < 127 -> bin_ok me s0 b -> Forall (in_zone s0 lvl i) (m_entries b) ->
  tracked s0 (m_entries b ++ rest) ->
  split_inv lvl i s0 (m_entries b) rest (it :: todo) z0 z1 s ->
  exists z0' z1' s', split_entry lvl (z0, z1, s) it = (z0', z1', s') /\
    split_inv lvl i s0 (m_entries b) rest todo z0' z1' s'.
Proof.
  intros [Hl Hi] Hlt Hb Hz Ht0 [(zd0 & b0 & -> & H0) (zd1 & b1 & -> & H1) HP Ht Hh Hn Hf].
  simpl in H0, H1, HP, Ht.
  assert (it ∈ m_entries b) as Hit by (rewrite <- HP; rewrite !elem_of_app, elem_of_cons; tauto).
  assert (live me s0 it) as Hlive0
    by (pose proof (bin_live me s0 b Hb) as Hb'; rewrite Forall_forall in Hb'; auto).
  assert (live me s it) as Hlive by (unfold live; by rewrite Hh).
  assert (in_zone s lvl i it) as Hiz.
  { unfold in_zone, deref. rewrite Hh. rewrite Forall_forall in Hz. by apply Hz. }
  apply in_zone_bit in Hiz; [|lia|done].
  set (L := m_entries b0 ++ m_entries b1 ++ rest) in *.
  assert (exists others, Permutation (it :: L ++ others) (m_entries b ++ rest)) as HL.
  { exists todo. rewrite <- HP. unfold L. solve_Permutation. }
  unfold split_entry. simpl bin_of.
  destruct (Z.eqb_spec (GetBitNumber (m_distance (deref s it)) lvl) 0) as [Hbit|Hbit].
  - destruct H0 as (Hd0 & Hb0 & Hz0).
    assert (addable s b0 (ips s L) it) as Hadd.
    { apply (addable_part s0 s b b0 it rest L); try done. exists (m_entries b1 ++ todo). rewrite <- HP. solve_Permutation. }
    destruct (AddContact_spec me s b0 (ips s L) it) as [[_ E]|[E _]]; [done|done|done| |done].
    rewrite E. do 3 eexists. split; [reflexivity|].
    destruct (tracked_add me s _ b0 _ L it eq_refl Hlive Hadd eq_refl Ht) as [Ht' Hf'].
    destruct (adjust_heap (ip_of s it) true s) as [Eh En].
    split; simpl.
    + do 2 eexists. split; [reflexivity|]. simpl. split_and!; [done|by eapply add_bin_ok|].
      apply Forall_app. split; [by apply (in_zone_agree s); [apply agree_same_heap|]|].
      constructor; [|done]. unfold in_zone, deref. rewrite Eh. by rewrite Z.add_0_r in Hiz.
    + do 2 eexists. split; [reflexivity|]. simpl.
      eapply (zone_ok_agree s _ (ZLeaf zd1 b1)); [by apply agree_same_heap|done].
    + rewrite <- HP. solve_Permutation.
    + eapply tracked_perm; [|exact Ht']. unfold L. solve_Permutation.
    + by rewrite Eh.
    + by rewrite En.
    + by rewrite Hf'.
  - destruct H1 as (Hd1 & Hb1 & Hz1).
    assert (addable s b1 (ips s L) it) as Hadd.
    { apply (addable_part s0 s b b1 it rest L); try done. exists (m_entries b0 ++ todo). rewrite <- HP. solve_Permutation. }
    destruct (AddContact_spec me s b1 (ips s L) it) as [[_ E]|[E _]]; [done|done|done| |done].
    rewrite E. do 3 eexists. split; [reflexivity|].
    destruct (tracked_add me s _ b1 _ L it eq_refl Hlive Hadd eq_refl Ht) as [Ht' Hf'].
    destruct (adjust_heap (ip_of s it) true s) as [Eh En].
    split; simpl.
    + do 2 eexists. split; [reflexivity|]. simpl.
      eapply (zone_ok_agree s _ (ZLeaf zd0 b0)); [by apply agree_same_heap|done].
    + do 2 eexists. split; [reflexivity|]. simpl. split_and!; [done|by eapply add_bin_ok|].
      apply Forall_app. split; [by apply (in_zone_agree s); [apply agree_same_heap|]|].
      constructor; [|done]. unfold in_zone, deref. rewrite Eh. done.
    + rewrite <- HP. solve_Permutation.
    + eapply tracked_perm; [|exact Ht']. unfold L. solve_Permutation.
    + by rewrite Eh.
    + by rewrite En.
    + by rewrite Hf'.
Qed.

Lemma split_loop lvl i s0 b rest todo : forall z0 z1 s,
  zone_bounds lvl i -> lvl < 127 -> bin_ok me s0 b -> Forall (in_zone s0 lvl i) (m_entries b) ->
  tracked s0 (m_entries b ++ rest) ->
  split_inv lvl i s0 (m_entries b) rest todo z0 z1 s ->
  exists z0' z1' s', fold_left (split_entry lvl) todo (z0, z1, s) = (z0', z1', s') /\
    split_inv lvl i s0 (m_entries b) rest [] z0' z1' s'.
Proof.
  induction todo as [|it todo IH]; intros z0 z1 s Hb Hlt Hbin Hz Ht H; [by do 3 eexists|].
  cbn [fold_left].
  destruct (split_entry_inv lvl i s0 b rest it todo z0 z1 s) as (z0' & z1' & s' & -> & H'); [done..|].
  by apply IH.
Qed.

(** The same contacts, heap and counters; only the tracking maps were rebuilt. *)
Record same_heap (s s' : KadState) : Prop := {
  sh_contacts : contacts s' = contacts s;
  sh_next : next_contact s' = next_contact s;
  sh_fails : fails s' = fails s
}.

Lemma Split_leaves now lvl i zd b s rest :
  zone_bounds lvl i -> lvl < 127 -> zone_ok s lvl i (ZLeaf zd b) -> tracked s (m_entries b ++ rest) ->
  exists zd0 b0 zd1 b1 s', Split now zd b s = (ZNode (StopTimer zd) (ZLeaf zd0 b0) (ZLeaf zd1 b1), s') /\
    Permutation (m_entries b0 ++ m_entries b1) (m_entries b) /\
    zone_ok s' (lvl + 1) (2 * i) (ZLeaf zd0 b0) /\ zone_ok s' (lvl + 1) (2 * i + 1) (ZLeaf zd1 b1) /\
    tracked s' (m_entries b0 ++ m_entries b1 ++ rest) /\ same_heap s s'.
Proof.
  intros Hzb Hlt (Hd & Hb & Hz) Ht. unfold Split.
  assert (zone_data_ok lvl i false (StopTimer zd)) as Hd'.
  { destruct Hd as (E1 & E2 & E3 & _). by split_and!. }
  destruct (sub_index (StopTimer zd) lvl i false 0 now) as (zd0 & -> & Hz0); [done|done|by left|done|].
  destruct (sub_index (StopTimer zd) lvl i false 1 now) as (zd1 & -> & Hz1); [done|done|by right|done|].
  rewrite Z.add_0_r in Hz0. change (GetEntries b [] true) with (m_entries b).
  destruct (bin_delete_keep (m_entries b) s rest Ht) as (T1 & T2 & T3 & T4).
  set (s1 := CRoutingBin_delete (mkBin (m_entries b) true) s) in *.
  destruct (split_loop lvl i s b rest (m_entries b) (ZLeaf zd0 CRoutingBin_new) (ZLeaf zd1 CRoutingBin_new) s1)
    as (z0 & z1 & s' & E & H); [done..| |].
  { split; simpl; try done.
    - do 2 eexists. split; [reflexivity|]. simpl. split_and!; [done|apply bin_ok_new|constructor].
    - do 2 eexists. split; [reflexivity|]. simpl. split_and!; [done|apply bin_ok_new|constructor]. }
  assert (m_level (StopTimer zd) = lvl) as -> by apply Hd'.
  rewrite E. destruct H as [(zd0' & b0 & -> & H0) (zd1' & b1 & -> & H1) HP HT Hh Hn Hf].
  exists zd0', b0, zd1', b1, s'. rewrite app_nil_r in HP. by split_and!.
Qed.

Lemma Split_spec now lvl i zd b s rest :
  zone_bounds lvl i -> lvl < 127 -> zone_ok s lvl i (ZLeaf zd b) -> tracked s (m_entries b ++ rest) ->
  exists z0 z1 s', Split now zd b s = (ZNode (StopTimer zd) z0 z1, s') /\
    zone_ok s' lvl i (ZNode (StopTimer zd) z0 z1) /\
    Permutation (entries z0 ++ entries z1) (m_entries b) /\
    tracked s' (entries z0 ++ entries z1 ++ rest) /\ same_heap s s'.
Proof.
  intros Hzb Hlt Hz Ht.
  destruct (Split_leaves now lvl i zd b s rest Hzb Hlt Hz Ht)
    as (zd0 & b0 & zd1 & b1 & s' & -> & HP & H0 & H1 & HT & Hh).
  do 3 eexists. split; [reflexivity|]. destruct Hz as ((E1 & E2 & E3 & _) & _).
  split; [|by split_and!]. split; [by split_and!|]. by split_and!.
Qed.

(** ** Known contacts *)

(** What a change of a zone leaves alone: everything outside it, the counters, which contacts
    are live and who they are. *)
Record within (l : list Z) (s s' : KadState) : Prop := {
  wi_agree : forall q, q ∉ l -> contacts s' !! q = contacts s !! q;
  wi_next : next_contact s' = next_contact s;
  wi_fails : fails s' = fails s;
  wi_live : forall q, is_Some (contacts s' !! q) <-> is_Some (contacts s !! q);
  wi_ids : forall q, id_of s' q = id_of s q /\ m_distance (deref s' q) = m_distance (deref s q)
}.

Lemma within_refl l s : within l s s.
Proof. by split. Qed.

Lemma within_trans l s1 s2 s3 : within l s1 s2 -> within l s2 s3 -> within l s1 s3.
Proof.
  intros [A1 A2 A3 A4 A5] [B1 B2 B3 B4 B5]. split.
  - intros q Hq. by rewrite B1, A1.
  - by rewrite B2.
  - by rewrite B3.
  - intros q. by rewrite B4, A4.
  - intros q. destruct (A5 q), (B5 q). split; congruence.
Qed.

Lemma within_sub l l' s s' : within l s s' -> l ⊆ l' -> within l' s s'.
Proof. intros [A1 A2 A3 A4 A5] Hs. split; try done. intros q Hq. apply A1. intros H. by apply Hq, Hs. Qed.

Lemma within_same_heap l s s' : same_heap s s' -> within l s s'.
Proof.
  intros [H1 H2 H3]. split; [by rewrite H1|done|done|by rewrite H1|].
  intros q. unfold id_of, deref. by rewrite H1.
Qed.

Lemma within_keeps l p f s : keeps f -> p ∈ l -> within l s (update_contact p f s).
Proof.
  intros Hf Hp. split.
  - intros q Hq. rewrite contacts_update, decide_False; [done|]. congruence.
  - done.
  - done.
  - intros q. rewrite contacts_update. destruct (decide (q = p)) as [->|]; [|done]. by rewrite fmap_is_Some.
  - intros q. destruct (keeps_deref p f s q Hf) as (E1 & _ & E2). done.
Qed.

Lemma keeps_in_zone p f s lvl i l : keeps f ->
  Forall (in_zone s lvl i) l -> Forall (in_zone (update_contact p f s) lvl i) l.
Proof.
  intros Hf H. eapply Forall_impl; [exact H|]. intros q. unfold in_zone.
  destruct (keeps_deref p f s q Hf) as (_ & _ & ->). done.
Qed.

Lemma keeps_overwrite c : keeps (overwrite c).
Proof. intros cu. unfold overwrite. by destruct (negb _). Qed.

Lemma within_in_zone l s s' lvl i ps : within l s s' ->
  Forall (in_zone s lvl i) ps -> Forall (in_zone s' lvl i) ps.
Proof.
  intros [_ _ _ _ W] H. eapply Forall_impl; [exact H|]. intros q. unfold in_zone.
  by destruct (W q) as [_ ->].
Qed.

(** One step of an update of a bin: the same contacts, in some order, all invariants kept. *)
Definition bin_step (cu : Z) (rest : list Z) (b : CRoutingBin) (s : KadState) (b' : CRoutingBin)
  (s' : KadState) : Prop :=
  bin_ok me s' b' /\ Permutation (m_entries b') (m_entries b) /\
  tracked s' (m_entries b' ++ rest) /\ within [cu] s s'.

Lemma bin_step_trans cu rest b1 s1 b2 s2 b3 s3 :
  bin_step cu rest b1 s1 b2 s2 -> bin_step cu rest b2 s2 b3 s3 -> bin_step cu rest b1 s1 b3 s3.
Proof.
  intros (A1 & A2 & A3 & A4) (B1 & B2 & B3 & B4). split_and!; [done|by rewrite B2|done|].
  by eapply within_trans.
Qed.

Lemma bin_step_keeps cu rest b s f : keeps f ->
  bin_ok me s b -> tracked s (m_entries b ++ rest) -> bin_step cu rest b s b (update_contact cu f s).
Proof.
  intros Hf Hb Ht. split_and!; [by apply keeps_bin_ok|done|by apply keeps_tracked|].
  apply within_keeps; [done|by left].
Qed.

Lemma bin_step_alive now cu rest b s :
  bin_ok me s b -> cu ∈ m_entries b -> tracked s (m_entries b ++ rest) ->
  exists b', SetAlive now b cu s = (b', update_contact cu (UpdateType now) s) /\
    bin_step cu rest b s b' (update_contact cu (UpdateType now) s).
Proof.
  intros Hb Hcu Ht. destruct (SetAlive_spec me now s b cu) as (b' & E & Hb' & HP); [done..|].
  exists b'. split; [done|]. split_and!; [done|done| |].
  - rewrite HP. apply keeps_tracked; [apply keeps_UpdateType|done].
  - apply within_keeps; [apply keeps_UpdateType|by left].
Qed.

Lemma bin_step_change cu rest b s newIP r s' :
  bin_ok me s b -> cu ∈ m_entries b -> NoDup (m_entries b ++ rest) -> in_width 32 newIP ->
  tracked s (m_entries b ++ rest) -> ChangeContactIPAddress b cu newIP s = (r, s') ->
  bin_step cu rest b s b s'.
Proof.
  intros Hb Hcu Hn Hw Ht E.
  destruct (ChangeContactIPAddress_spec me s b cu newIP rest Hb Hcu Hn Ht Hw)
    as (r0 & s0 & E0 & H1 & H2 & H3 & H4 & H5 & H6).
  rewrite E in E0. injection E0 as <- <-.
  assert (live me s cu) as Hlive
    by (pose proof (bin_live me s b Hb) as Hb'; rewrite Forall_forall in Hb'; auto).
  pose proof (live_deref me s cu Hlive) as [Hsome _].
  split_and!; [done|done|done|]. split; [|done|done| |].
  - intros q Hq. apply H5. intros ->. apply Hq. by left.
  - intros q. destruct (Z.eq_dec q cu) as [->|Hne]; [|by rewrite H5]. rewrite H6, Hsome. by split; eauto.
  - intros q. destruct (Z.eq_dec q cu) as [->|Hne].
    + unfold id_of, deref at 1 3. rewrite H6. simpl. destruct r; [|done].
      destruct (SetIPAddress_spec newIP (deref s cu)) as (-> & -> & _). done.
    + unfold id_of, deref. by rewrite H5.
Qed.

Lemma update_entry_step PublicIP now b cu contact update out s rest :
  bin_ok me s b -> cu ∈ m_entries b -> NoDup (m_entries b ++ rest) -> live me s contact ->
  tracked s (m_entries b ++ rest) ->
  exists u o b' s', update_entry PublicIP now b cu contact update out s = (u, o, b', s') /\
    bin_step cu rest b s b' s'.
Proof.
  intros Hb Hcu Hn Hc Ht. unfold update_entry.
  assert (bin_step cu rest b s b s) as Hrefl by (by split_and!; [| | |apply within_refl]).
  destruct (negb update); [by do 4 eexists|].
  destruct (negb _ && negb _); [by do 4 eexists|].
  destruct (_ && m_receivedHelloPacket _).
  { destruct (_ && _); [|by do 4 eexists].
    destruct (bin_step_alive now cu rest b s) as (b' & -> & H); [done..|]. by do 4 eexists. }
  destruct (ChangeContactIPAddress b cu (m_ip (deref s contact)) s) as [r s1] eqn:E.
  apply (bin_step_change cu rest) in E; [|done..|by apply (live_ip me)|done].
  destruct (r && _); [|by do 4 eexists].
  pose proof E as (B1 & B2 & B3 & _).
  pose proof (bin_step_keeps cu rest b s1 (overwrite (deref s contact)) (keeps_overwrite _) B1 B3) as E2.
  pose proof E2 as (C1 & C2 & C3 & _). set (s2 := update_contact cu _ s1) in *.
  destruct (bin_step_alive now cu rest b s2) as (b3 & -> & E3); [done..|].
  set (s3 := update_contact cu (UpdateType now) s2) in *.
  pose proof E3 as (D1 & _ & D3 & _).
  do 4 eexists. split; [reflexivity|].
  eapply bin_step_trans; [exact E|]. eapply bin_step_trans; [exact E2|]. eapply bin_step_trans; [exact E3|].
  destruct (m_receivedHelloPacket _); [apply bin_step_keeps; [apply keeps_hello|done|done]|].
  by split_and!; [| | |apply within_refl].
Qed.

(** An accepted update was asked for. *)
Lemma update_entry_asked PublicIP now b cu contact update out s u o b' s' :
  update_entry PublicIP now b cu contact update out s = (u, o, b', s') -> u = true -> update = true.
Proof. unfold update_entry. destruct update; [done|]. by intros [= <- _ _ _]. Qed.

(** ** Adding a contact *)

Section Add.

Context (PublicIP now contact : Z) (update outIpVerified : bool).

(** The outcome of an addition to a zone, [rest] being the contacts elsewhere. *)
Record added_ok (lvl i : Z) (rest : list Z) (z : CRoutingZone) (s : KadState)
  (r u : bool) (z' : CRoutingZone) (s' : KadState) : Prop := {
  ad_zone : zone_ok s' lvl i z';
  ad_perm : Permutation (entries z') (if r then contact :: entries z else entries z);
  ad_tracked : tracked s' (entries z' ++ rest);
  ad_within : within (entries z) s s';
  ad_new : r = true -> u = false /\ contacts s' = contacts s;
  ad_known : id_of s contact ∈ ids s (entries z) -> r = false;
  ad_update : u = true -> update = true /\ id_of s contact ∈ ids s (entries z)
}.

Definition add_goal (fuel : nat) : Prop := forall z lvl i rest s,
  zone_bounds lvl i -> zone_ok s lvl i z -> NoDup (entries z ++ rest) -> tracked s (entries z ++ rest) ->
  live me s contact -> in_zone s lvl i contact -> 128 - lvl <= Z.of_nat fuel ->
  exists r u o z' s', ZoneAdd PublicIP fuel now z contact update outIpVerified s = Some (r, u, o, z', s') /\
    added_ok lvl i rest z s r u z' s'.

Lemma added_left lvl i rest zd z0 z1 s r u z0' s' :
  0 <= lvl <= 127 -> zone_ok s lvl i (ZNode zd z0 z1) -> NoDup (entries z0 ++ entries z1 ++ rest) ->
  live me s contact -> in_zone s (lvl + 1) (2 * i) contact ->
  added_ok (lvl + 1) (2 * i) (entries z1 ++ rest) z0 s r u z0' s' ->
  added_ok lvl i rest (ZNode zd z0 z1) s r u (ZNode zd z0' z1) s'.
Proof.
  intros Hl (Hd & Hlt & H0 & H1) Hn Hc Hz [A1 A2 A3 A4 A5 A6 A7]. split; simpl.
  - split_and!; [done|done|done|]. apply (zone_ok_agree s); [|done]. intros p Hp. apply (wi_agree _ _ _ A4).
    intros Hp0. apply NoDup_app in Hn as (_ & Hn & _). apply (Hn p Hp0), elem_of_app. by left.
  - rewrite A2. by destruct r.
  - by rewrite <- app_assoc.
  - eapply within_sub; [exact A4|]. intros p Hp. apply elem_of_app. by left.
  - done.
  - unfold ids. rewrite map_app, elem_of_app. intros [Hin|Hin]; [by apply A6|].
    apply list_elem_of_fmap in Hin as (q & E & Hq). apply zone_entries in H1; [|lia].
    rewrite Forall_forall in H1. destruct (H1 q Hq).
    destruct (zones_disjoint s lvl i contact q); done || lia.
  - intros Hu. destruct (A7 Hu) as [Ha Hin]. split; [done|]. unfold ids. rewrite map_app. apply elem_of_app. by left.
Qed.

Lemma added_right lvl i rest zd z0 z1 s r u z1' s' :
  0 <= lvl <= 127 -> zone_ok s lvl i (ZNode zd z0 z1) -> NoDup (entries z0 ++ entries z1 ++ rest) ->
  live me s contact -> in_zone s (lvl + 1) (2 * i + 1) contact ->
  added_ok (lvl + 1) (2 * i + 1) (entries z0 ++ rest) z1 s r u z1' s' ->
  added_ok lvl i rest (ZNode zd z0 z1) s r u (ZNode zd z0 z1') s'.
Proof.
  intros Hl (Hd & Hlt & H0 & H1) Hn Hc Hz [A1 A2 A3 A4 A5 A6 A7]. split; simpl.
  - split_and!; [done|done| |done]. apply (zone_ok_agree s); [|done]. intros p Hp. apply (wi_agree _ _ _ A4).
    intros Hp0. apply NoDup_app in Hn as (_ & Hn & _). apply (Hn p Hp), elem_of_app. by left.
  - rewrite A2. destruct r; [solve_Permutation|done].
  - eapply tracked_perm; [|exact A3]. solve_Permutation.
  - eapply within_sub; [exact A4|]. intros p Hp. apply elem_of_app. by right.
  - done.
  - unfold ids. rewrite map_app, elem_of_app. intros [Hin|Hin]; [|by apply A6].
    apply list_elem_of_fmap in Hin as (q & E & Hq). apply zone_entries in H0; [|lia].
    rewrite Forall_forall in H0. destruct (H0 q Hq).
    destruct (zones_disjoint s lvl i q contact); done || lia.
  - intros Hu. destruct (A7 Hu) as [Ha Hin]. split; [done|]. unfold ids. rewrite map_app. apply elem_of_app. by right.
Qed.

Lemma add_node fuel zd z0 z1 lvl i rest s :
  add_goal fuel -> zone_bounds lvl i -> zone_ok s lvl i (ZNode zd z0 z1) ->
  NoDup (entries z0 ++ entries z1 ++ rest) -> tracked s (entries z0 ++ entries z1 ++ rest) ->
  live me s contact -> in_zone s lvl i contact -> 127 - lvl <= Z.of_nat fuel ->
  exists r u o z' s',
    ZoneAdd PublicIP (S fuel) now (ZNode zd z0 z1) contact update outIpVerified s = Some (r, u, o, z', s') /\
    added_ok lvl i rest (ZNode zd z0 z1) s r u z' s'.
Proof.
  intros IH Hb Hz Hn Ht Hc Hiz Hf. pose proof Hb as [Hl Hi]. pose proof Hz as (Hd & Hlt & H0 & H1).
  apply in_zone_bit in Hiz; [|lia|done]. simpl. assert (m_level zd = lvl) as -> by apply Hd.
  destruct (Z.eqb_spec (GetBitNumber (m_distance (deref s contact)) lvl) 0) as [_|_].
  - rewrite Z.add_0_r in Hiz.
    destruct (IH z0 (lvl + 1) (2 * i) (entries z1 ++ rest) s) as (r & u & o & z0' & s' & -> & HA);
      [by eapply zone_bounds_sub; eauto|done..|lia|].
    simpl. do 5 eexists. split; [reflexivity|]. by apply added_left.
  - destruct (IH z1 (lvl + 1) (2 * i + 1) (entries z0 ++ rest) s) as (r & u & o & z1' & s' & -> & HA).
    + by eapply zone_bounds_sub; eauto.
    + done.
    + eapply NoDup_Permutation_proper; [|exact Hn]. solve_Permutation.
    + eapply tracked_perm; [|exact Ht]. solve_Permutation.
    + done.
    + done.
    + lia.
    + simpl. do 5 eexists. split; [reflexivity|]. by apply added_right.
Qed.

Lemma GetRemaining_zero s b : bin_ok me s b -> (GetRemaining b =? 0) = (Z.of_nat (length (m_entries b)) =? K).
Proof.
  intros [H _ _ _ _]. unfold GetRemaining, K in *. rewrite wrap_small by width_lia.
  repeat case_cmp; lia.
Qed.

Lemma bin_step_added lvl i rest zd cu b s b' s' u :
  zone_ok s lvl i (ZLeaf zd b) -> id_of s contact = id_of s cu -> cu ∈ m_entries b ->
  (u = true -> update = true) -> bin_step cu rest b s b' s' ->
  added_ok lvl i rest (ZLeaf zd b) s false u (ZLeaf zd b') s'.
Proof.
  intros (Hd & _ & Hz) Hid Hcu Hu (B1 & B2 & B3 & B4). split; simpl; try done.
  - split_and!; [done|done|]. rewrite B2. by eapply within_in_zone.
  - eapply within_sub; [exact B4|]. intros p Hp. apply list_elem_of_singleton in Hp as ->. done.
  - intros E. split; [by apply Hu|]. rewrite Hid. by apply list_elem_of_fmap_2.
Qed.

(** A new contact goes into a leaf with room, or is refused. *)
Lemma leaf_added lvl i rest zd b s :
  zone_ok s lvl i (ZLeaf zd b) -> tracked s (m_entries b ++ rest) -> live me s contact ->
  in_zone s lvl i contact -> id_of s contact ∉ ids s (m_entries b) ->
  exists r b' s', AddContact b contact s = (r, b', s') /\
    added_ok lvl i rest (ZLeaf zd b) s r false (ZLeaf zd b') s'.
Proof.
  intros (Hd & Hb & Hz) Ht Hc Hiz Hid.
  destruct (AddContact_spec me s b (ips s (m_entries b ++ rest)) contact) as [[HA ->]|[HA ->]]; [done..| |].
  - do 3 eexists. split; [reflexivity|].
    destruct (tracked_add me s _ b _ _ contact eq_refl Hc HA eq_refl Ht) as [Ht' Hf'].
    destruct (adjust_heap (ip_of s contact) true s) as [Eh En]. split; simpl.
    + split_and!; [done|by eapply add_bin_ok|]. apply Forall_app. split.
      * apply (in_zone_agree s); [by apply agree_same_heap|done].
      * constructor; [|done]. unfold in_zone, deref. by rewrite Eh.
    + by rewrite <- Permutation_cons_append.
    + eapply tracked_perm; [|exact Ht']. solve_Permutation.
    + by apply within_same_heap.
    + done.
    + done.
    + done.
  - do 3 eexists. split; [reflexivity|]. split; simpl; done || apply within_refl.
Qed.

Lemma CanSplit_level lvl i r zd b : zone_data_ok lvl i r zd -> CanSplit zd b = true -> lvl < 127.
Proof. intros (<- & _) H. unfold CanSplit in H. destruct (Z.geb_spec (m_level zd) 127); [done|lia]. Qed.

Lemma ZoneAdd_spec fuel : add_goal fuel.
Proof.
  induction fuel as [|fuel IH]; intros z lvl i rest s Hb Hz Hn Ht Hc Hiz Hf;
    [destruct Hb; lia|].
  destruct z as [zd b|zd z0 z1].
  2: { simpl in Hn, Ht. rewrite <- app_assoc in Hn, Ht. apply add_node; try done. lia. }
  pose proof Hz as (Hd & Hbin & Hzs). simpl in Hn, Ht. simpl ZoneAdd. unfold GetContact.
  pose proof (find_id_spec me s (id_of s contact) (m_entries b) (live_id me s contact Hc)
    (bin_live me s b Hbin)) as Hfind.
  fold (id_of s contact). destruct (find_id s (id_of s contact) (m_entries b)) as [cu|].
  - destruct Hfind as [Hcu Hid].
    destruct (update_entry_step PublicIP now b cu contact update outIpVerified s rest)
      as (u & o & b' & s' & E & HB); [done..|]. rewrite E.
    do 5 eexists. split; [reflexivity|]. eapply bin_step_added; try done. by eapply update_entry_asked.
  - rewrite (GetRemaining_zero s b Hbin).
    destruct (Z.eqb_spec (Z.of_nat (length (m_entries b))) K) as [Hfull|Hroom]; simpl.
    2: { destruct (leaf_added lvl i rest zd b s) as (r & b' & s' & -> & HA); [done..|].
         do 5 eexists. by split; [reflexivity|]. }
    destruct (CanSplit zd b) eqn:Hsplit.
    2: { do 5 eexists. split; [reflexivity|]. split; simpl; done || apply within_refl. }
    apply (CanSplit_level lvl i true) in Hsplit; [|done].
    destruct (Split_spec now lvl i zd b s rest) as (z0 & z1 & s1 & -> & Hz1 & HP & Ht1 & Hsame); [done..|].
    pose proof Hsame as [Hh _ _].
    assert (live me s1 contact) as Hc1 by (unfold live; by rewrite Hh).
    assert (in_zone s1 lvl i contact) as Hiz1 by (unfold in_zone, deref; by rewrite Hh).
    destruct (add_node fuel (StopTimer zd) z0 z1 lvl i rest s1) as (r & u & o & z' & s' & E & [A1 A2 A3 A4 A5 A6 A7]);
      try done; [by rewrite app_assoc, HP|lia|].
    exists r, u, o, z', s'. split; [exact E|]. simpl in A2, A4. split.
    + done.
    + rewrite A2. destruct r; simpl; by rewrite HP.
    + done.
    + eapply within_trans; [by apply within_same_heap|]. eapply within_sub; [exact A4|].
      intros p. by rewrite HP.
    + intros Hr. destruct (A5 Hr) as [-> ->]. done.
    + intros Hin. done.
    + intros Hu. destruct (A7 Hu) as [Ha Hin]. split; [done|]. apply list_elem_of_fmap in Hin as (q & Eq & Hq).
      simpl in Hq |- *. rewrite HP in Hq. apply list_elem_of_fmap. exists q. split; [|done].
      unfold id_of, deref in *. by rewrite Hh in Eq.
Qed.

End Add.

(** ** The small timer *)

(** A change that may also free contacts of [l], those that are not in [l']. *)
Record shrinks (l l' : list Z) (s s' : KadState) : Prop := {
  sk_agree : forall q, q ∉ l -> contacts s' !! q = contacts s !! q;
  sk_next : next_contact s' = next_contact s;
  sk_fails : fails s' = fails s;
  sk_live : forall q, is_Some (contacts s' !! q) <-> is_Some (contacts s !! q) /\ (q ∈ l -> q ∈ l');
  sk_ids : forall q, q ∈ l' ->
    id_of s' q = id_of s q /\ m_distance (deref s' q) = m_distance (deref s q)
}.

Lemma shrinks_within l s s' : within l s s' -> shrinks l l s s'.
Proof. intros [A1 A2 A3 A4 A5]. split; try done. intros q. rewrite A4. tauto. Qed.

Lemma shrinks_trans l l1 l2 s s1 s2 : l1 ⊆ l -> l2 ⊆ l1 ->
  shrinks l l1 s s1 -> shrinks l1 l2 s1 s2 -> shrinks l l2 s s2.
Proof.
  intros H1 H2 [A1 A2 A3 A4 A5] [B1 B2 B3 B4 B5]. split; [|congruence|congruence| |].
  - intros q Hq. rewrite B1, A1; auto.
  - intros q. rewrite B4, A4. specialize (H1 q). specialize (H2 q).
    destruct (decide (q ∈ l1)), (decide (q ∈ l2)), (decide (q ∈ l)); tauto.
  - intros q Hq. destruct (A5 q), (B5 q); auto. split; congruence.
Qed.

Context (node_protection : bool).

(** The contacts the sweep removes: not in use, and banned or past their last chance. *)
Definition sweepable (now : Z) (s : KadState) (sk : CSafeKad) (p : Z) : Prop :=
  InUse (deref s p) = false /\
  ((node_protection = true /\ live_ban now sk (ip_of s p)) \/
   (m_type (deref s p) = 4 /\ 0 < m_expires (deref s p) <= now)).

(** What the sweep does with one contact. *)
Definition sweep_outcome (now : Z) (b : CRoutingBin) (rest : list Z) (s : KadState) (sk : CSafeKad)
  (c : Z) (b' : CRoutingBin) (s' : KadState) (sk' : CSafeKad) : Prop :=
  bin_ok me s' b' /\ tracked s' (m_entries b' ++ rest) /\
  shrinks (m_entries b) (m_entries b') s s' /\
  (forall p, p <> c -> contacts s' !! p = contacts s !! p) /\
  (sweepable now s sk c /\ m_entries b' = filter (fun q => q <> c) (m_entries b) \/
   ~ sweepable now s sk c /\ m_entries b' = m_entries b) /\
  safekad_inv now sk' /\ (forall ip, live_ban now sk' ip <-> live_ban now sk ip).

Lemma remove_outcome now b rest s sk sk' c :
  bin_ok me s b -> c ∈ m_entries b -> NoDup (m_entries b ++ rest) -> tracked s (m_entries b ++ rest) ->
  safekad_inv now sk' -> (forall ip, live_ban now sk' ip <-> live_ban now sk ip) ->
  sweepable now s sk c ->
  exists b' s', RemoveContact b c false s = (b', s') /\
    sweep_outcome now b rest s sk c b' (delete_contact c s') sk'.
Proof.
  intros Hb Hc Hn Ht Hi Hl Hsw.
  destruct (RemoveContact_spec me s b c rest) as (b' & s' & -> & Eb & Hb' & Ht' & Hf & Hh & Hx); [done..|].
  do 2 eexists. split; [reflexivity|].
  assert (c ∉ m_entries b' ++ rest) as Hnc.
  { rewrite elem_of_app, Eb, list_elem_of_filter. intros [[? _]|Hr]; [done|].
    apply NoDup_app in Hn as (_ & Hn & _). by apply (Hn c). }
  assert (agree (m_entries b' ++ rest) s' (delete_contact c s')) as Hag.
  { intros q Hq. simpl. apply lookup_delete_ne. congruence. }
  split_and!; try done.
  - apply (bin_ok_agree me s'); [|done]. intros q Hq. apply Hag, elem_of_app. by left.
  - unfold tracked in *. rewrite (agree_ips _ _ _ Hag). by destruct Ht'; split.
  - split; simpl; [|done|done| |].
    + intros q Hq. rewrite lookup_delete_ne by congruence. by rewrite Hh.
    + intros q. rewrite Eb, list_elem_of_filter. destruct (Z.eq_dec q c) as [->|Hne].
      * rewrite lookup_delete_eq. split; [intros [x Hx']; discriminate|]. intros [_ H]. by destruct (H Hc).
      * rewrite lookup_delete_ne, Hh by done. tauto.
    + intros q Hq. unfold id_of, deref. simpl. rewrite lookup_delete_ne, Hh; [done|].
      rewrite Eb, list_elem_of_filter in Hq. by destruct Hq.
  - intros p Hp. simpl. rewrite lookup_delete_ne by done. by rewrite Hh.
  - by left.
Qed.

Lemma keep_outcome now b rest s sk sk' c f : keeps f ->
  bin_ok me s b -> c ∈ m_entries b -> tracked s (m_entries b ++ rest) ->
  safekad_inv now sk' -> (forall ip, live_ban now sk' ip <-> live_ban now sk ip) ->
  ~ sweepable now s sk c -> sweep_outcome now b rest s sk c b (update_contact c f s) sk'.
Proof.
  intros Hf Hb Hc Ht Hi Hl Hsw. split_and!; try done.
  - by apply keeps_bin_ok.
  - by apply keeps_tracked.
  - apply shrinks_within. by apply within_keeps.
  - intros p Hp. rewrite contacts_update. by rewrite decide_False.
  - by right.
Qed.

Lemma stay_outcome now b rest s sk sk' c :
  bin_ok me s b -> tracked s (m_entries b ++ rest) ->
  safekad_inv now sk' -> (forall ip, live_ban now sk' ip <-> live_ban now sk ip) ->
  ~ sweepable now s sk c -> sweep_outcome now b rest s sk c b s sk'.
Proof.
  intros Hb Ht Hi Hl Hsw. split_and!; try done; [|by right].
  apply shrinks_within, within_refl.
Qed.

Lemma sweep_entry_spec now b rest s sk c :
  bin_ok me s b -> c ∈ m_entries b -> NoDup (m_entries b ++ rest) -> tracked s (m_entries b ++ rest) ->
  safekad_inv now sk ->
  exists b' s' sk', sweep_entry node_protection now (b, s, sk) c = (b', s', sk') /\
    sweep_outcome now b rest s sk c b' s' sk'.
Proof.
  intros Hb Hc Hn Ht Hi. unfold sweep_entry. fold (ip_of s c).
  destruct (if node_protection then IsBanned (ip_of s c) now sk else (false, sk)) as [banned sk1] eqn:E.
  assert (safekad_inv now sk1 /\ (forall ip, live_ban now sk1 ip <-> live_ban now sk ip) /\
          (banned = true <-> node_protection = true /\ live_ban now sk (ip_of s c))) as (Hi1 & Hl1 & Hban).
  { destruct node_protection; [|injection E as <- <-; split_and!; [done|done|by split; [|intros [? _]]]].
    destruct (IsBanned_spec (ip_of s c) now sk Hi) as (H1 & H2 & H3 & _). rewrite E in *. simpl in *.
    split_and!; [done|done|]. rewrite H2. tauto. }
  assert (forall P : Prop, (sweepable now s sk c <-> P) ->
    (if negb (InUse (deref s c)) then P else ~ P) ->
    exists b' s' sk', (if negb (InUse (deref s c)) then
      let '(b, s) := RemoveContact b c false s in (b, delete_contact c s, sk1) else (b, s, sk1)) =
      (b', s', sk') /\ sweep_outcome now b rest s sk c b' s' sk') as Hrem.
  { intros P HP Hcond. destruct (negb (InUse (deref s c))).
    - destruct (remove_outcome now b rest s sk sk1 c) as (b' & s' & -> & HO); [done..|by apply HP|].
      by do 3 eexists.
    - do 3 eexists. split; [reflexivity|]. apply stay_outcome; try done. by rewrite HP. }
  destruct banned.
  - apply (Hrem (InUse (deref s c) = false)); [|by destruct (InUse (deref s c))].
    unfold sweepable. split; [by intros [? _]|]. intros ?. split; [done|]. left. by apply Hban.
  - assert (~ (node_protection = true /\ live_ban now sk (ip_of s c))) as Hnb by (rewrite <- Hban; done).
    destruct (_ && _) eqn:Hexp.
    + apply andb_prop in Hexp as [Hexp H6]. apply andb_prop in Hexp as [H4 H5].
      apply Z.eqb_eq in H4. apply Z.leb_le in H6. rewrite Z.gtb_ltb in H5. apply Z.ltb_lt in H5.
      apply (Hrem (InUse (deref s c) = false)); [|by destruct (InUse (deref s c))].
      unfold sweepable. split; [by intros [? _]|]. intros ?. split; [done|]. right. lia.
    + assert (~ sweepable now s sk c) as Hns.
      { unfold sweepable. intros (_ & [?|(H4 & H5 & H6)]); [tauto|].
        apply Z.eqb_eq in H4. apply Z.leb_le in H6. rewrite H4, H6, Z.gtb_ltb in Hexp. simpl in Hexp.
        by rewrite andb_true_r, (proj2 (Z.ltb_lt _ _)) in Hexp. }
      destruct (_ =? 0); do 3 eexists; (split; [reflexivity|]).
      * apply keep_outcome; done || apply keeps_expire.
      * by apply stay_outcome.
Qed.

Lemma sweepable_dec now s sk p : safekad_inv now sk -> sweepable now s sk p \/ ~ sweepable now s sk p.
Proof.
  intros Hi. destruct (IsBanned_spec (ip_of s p) now sk Hi) as (_ & H & _). unfold sweepable. rewrite <- H.
  destruct (InUse (deref s p)), node_protection, (IsBanned (ip_of s p) now sk) as [[] sk']; simpl; lia || tauto.
Qed.

Lemma sweepable_same now s sk s' sk' p :
  contacts s' !! p = contacts s !! p -> (forall ip, live_ban now sk' ip <-> live_ban now sk ip) ->
  sweepable now s' sk' p <-> sweepable now s sk p.
Proof. intros Hp Hl. unfold sweepable, ip_of, deref. by rewrite Hp, Hl. Qed.

(** The outcome of the sweep of the contacts [todo]. *)
Definition swept (now : Z) (rest todo : list Z) (b : CRoutingBin) (s : KadState) (sk : CSafeKad)
  (b' : CRoutingBin) (s' : KadState) (sk' : CSafeKad) : Prop :=
  bin_ok me s' b' /\ NoDup (m_entries b' ++ rest) /\ tracked s' (m_entries b' ++ rest) /\
  shrinks (m_entries b) (m_entries b') s s' /\ m_entries b' ⊆ m_entries b /\
  (forall p, p ∈ m_entries b' <-> p ∈ m_entries b /\ ~ (p ∈ todo /\ sweepable now s sk p)) /\
  safekad_inv now sk' /\ (forall ip, live_ban now sk' ip <-> live_ban now sk ip).

Lemma sweep_loop now rest todo : forall b s sk,
  bin_ok me s b -> NoDup (m_entries b ++ rest) -> tracked s (m_entries b ++ rest) ->
  safekad_inv now sk -> NoDup todo -> todo ⊆ m_entries b ->
  exists b' s' sk', fold_left (sweep_entry node_protection now) todo (b, s, sk) = (b', s', sk') /\
    swept now rest todo b s sk b' s' sk'.
Proof.
  induction todo as [|c todo IH]; intros b s sk Hb Hn Ht Hi Hnt Hsub.
  - do 3 eexists. split; [reflexivity|]. split_and!; try done; [apply shrinks_within, within_refl|].
    intros p. split; [|tauto]. intros Hp. split; [done|]. intros [Hnil _]. inversion Hnil.
  - apply NoDup_cons in Hnt as [Hc Hnt]. cbn [fold_left].
    destruct (sweep_entry_spec now b rest s sk c) as (b1 & s1 & sk1 & -> & B1 & T1 & S1 & A1 & E1 & I1 & L1);
      [done|apply Hsub; by left|done..|].
    assert (m_entries b1 ⊆ m_entries b) as Hsub1.
    { intros p. destruct E1 as [[_ ->]|[_ ->]]; [|done]. rewrite list_elem_of_filter. tauto. }
    assert (NoDup (m_entries b1 ++ rest)) as Hn1.
    { apply NoDup_app in Hn as (N1 & N2 & N3). apply NoDup_app. split_and!; [|by auto|done].
      destruct E1 as [[_ ->]|[_ ->]]; [by apply NoDup_filter|done]. }
    destruct (IH b1 s1 sk1) as (b' & s' & sk' & -> & B' & N' & T' & S' & Sub' & E' & I' & L'); [done..| |].
    { intros p Hp. assert (p <> c) by congruence. assert (p ∈ m_entries b) by (apply Hsub; by right).
      destruct E1 as [[_ ->]|[_ ->]]; [by apply list_elem_of_filter|done]. }
    do 3 eexists. split; [reflexivity|]. split_and!; try done.
    + by apply (shrinks_trans _ (m_entries b1) _ _ s1).
    + intros p Hp. by apply Hsub1, Sub'.
    + intros p. rewrite E', elem_of_cons. destruct (Z.eq_dec p c) as [->|Hpc].
      * destruct E1 as [[Hs ->]|[Hs ->]]; [rewrite list_elem_of_filter|]; tauto.
      * rewrite (sweepable_same now s sk s1 sk1) by auto.
        destruct E1 as [[Hs ->]|[Hs ->]]; [rewrite list_elem_of_filter|]; tauto.
    + intros ip. by rewrite L', L1.
Qed.

(** The outcome of the timers of a zone. *)
Record timer_ok (now lvl i : Z) (rest : list Z) (z : CRoutingZone) (s : KadState) (sk : CSafeKad)
  (z' : CRoutingZone) (s' : KadState) (sk' : CSafeKad) : Prop := {
  ti_zone : zone_ok s' lvl i z';
  ti_tracked : tracked s' (entries z' ++ rest);
  ti_shrinks : shrinks (entries z) (entries z') s s';
  ti_sub : entries z' ⊆ entries z;
  ti_removed : forall p, p ∈ entries z -> p ∉ entries z' -> sweepable now s sk p;
  ti_inv : safekad_inv now sk';
  ti_bans : forall ip, live_ban now sk' ip <-> live_ban now sk ip
}.

Lemma swept_timer now lvl i rest zd b s sk b' s' sk' :
  safekad_inv now sk -> zone_ok s lvl i (ZLeaf zd b) -> swept now rest (m_entries b) b s sk b' s' sk' ->
  timer_ok now lvl i rest (ZLeaf zd b) s sk (ZLeaf zd b') s' sk'.
Proof.
  intros Hi (Hd & Hb & Hz) (B & N & T & S & Sub & E & I & L). split; simpl; try done.
  - split_and!; [done|done|]. apply Forall_forall. intros p Hp. unfold in_zone.
    destruct (sk_ids _ _ _ _ S p Hp) as [_ ->]. rewrite Forall_forall in Hz. by apply Hz, Sub.
  - intros p Hp Hp'. destruct (sweepable_dec now s sk p Hi) as [H|H]; [done|].
    exfalso. apply Hp', E. tauto.
Qed.

Lemma timer_within now lvl i rest z s sk z1 s1 sk1 z2 s2 :
  timer_ok now lvl i rest z s sk z1 s1 sk1 -> zone_ok s2 lvl i z2 ->
  Permutation (entries z2) (entries z1) -> tracked s2 (entries z2 ++ rest) -> within (entries z1) s1 s2 ->
  timer_ok now lvl i rest z s sk z2 s2 sk1.
Proof.
  intros [A1 A2 A3 A4 A5 A6 A7] Hz HP Ht Hw. split; try done.
  - apply (shrinks_trans _ (entries z1) _ _ s1); [done|by rewrite HP|done|].
    apply shrinks_within in Hw as [W1 W2 W3 W4 W5]. split; try done.
    + intros q. rewrite W4, HP. done.
    + intros q Hq. apply W5. by rewrite <- HP.
  - by rewrite HP.
  - intros p Hp Hp'. apply A5; [done|]. by rewrite <- HP.
Qed.

Lemma OnSmallTimer_spec now lvl i rest z s sk :
  zone_ok s lvl i z -> NoDup (entries z ++ rest) -> tracked s (entries z ++ rest) -> safekad_inv now sk ->
  exists hello stats z' s' sk', OnSmallTimer node_protection now z s sk = (hello, stats, z', s', sk') /\
    timer_ok now lvl i rest z s sk z' s' sk' /\
    (IsLeaf z = true -> forall p, p ∈ entries z' -> ~ sweepable now s sk p).
Proof.
  intros Hz Hn Ht Hi. destruct z as [zd b|zd z0 z1].
  2: { do 5 eexists. split; [reflexivity|]. split; [|done]. split; try done. apply shrinks_within, within_refl. }
  pose proof Hz as (Hd & Hb & Hzs). simpl in Hn, Ht. unfold OnSmallTimer.
  change (GetEntries b [] true) with (m_entries b).
  destruct (sweep_loop now rest (m_entries b) b s sk) as (b1 & s1 & sk1 & -> & Hsw);
    [done..|by apply (bin_NoDup me s)|done|].
  pose proof (swept_timer now lvl i rest zd b s sk b1 s1 sk1 Hi Hz Hsw) as Hti.
  pose proof Hti as [Hz1 Ht1 _ _ _ _ _]. pose proof Hz1 as (_ & Hb1 & _). simpl in Ht1.
  assert (forall p, p ∈ m_entries b1 -> ~ sweepable now s sk p) as Hclean.
  { destruct Hsw as (_ & _ & _ & _ & _ & E & _). intros p Hp. apply E in Hp. tauto. }
  destruct (GetOldest b1) as [c|] eqn:Hold; [|by do 5 eexists].
  assert (c ∈ m_entries b1) as Hc by (unfold GetOldest in Hold; destruct (m_entries b1); [done|]; injection Hold as ->; by left).
  destruct (_ || _).
  - destruct (PushToBottom_spec me s1 b1 c) as (b2 & -> & Hb2 & HP); [done..|].
    do 5 eexists. split; [reflexivity|]. split; [|intros _ p; simpl; rewrite HP; apply Hclean].
    eapply timer_within; [exact Hti| |done| |apply within_refl]; simpl.
    + destruct Hz1 as (? & ? & ?). split_and!; [done|done|by rewrite HP].
    + by rewrite HP.
  - destruct (hello_of _) as [hello stats]. do 5 eexists. split; [reflexivity|].
    split; [|done]. pose proof (keeps_CheckingType now) as Hk.
    eapply timer_within; [exact Hti| |done|by apply keeps_tracked|by apply within_keeps].
    destruct Hz1 as (? & ? & ?). split_and!; [done|by apply keeps_bin_ok|by apply keeps_in_zone].
Qed.

Lemma set_timers_ok big small s lvl i z : zone_ok s lvl i z -> zone_ok s lvl i (set_timers big small z).
Proof. by destruct z. Qed.

Lemma set_timers_entries big small z : entries (set_timers big small z) = entries z.
Proof. by destruct z. Qed.

Lemma timer_set_timers now lvl i rest z s sk z' s' sk' big small :
  timer_ok now lvl i rest z s sk z' s' sk' ->
  timer_ok now lvl i rest z s sk (set_timers big small z') s' sk'.
Proof.
  intros [A1 A2 A3 A4 A5 A6 A7]. split; rewrite ?set_timers_entries; try done. by apply set_timers_ok.
Qed.

Lemma ProcessZone_spec now last lvl i rest z t s sk :
  zone_ok s lvl i z -> NoDup (entries z ++ rest) -> tracked s (entries z ++ rest) -> safekad_inv now sk ->
  exists z' t' s' sk', ProcessZone node_protection now last z t s sk = (z', t', s', sk') /\
    timer_ok now lvl i rest z s sk z' s' sk'.
Proof.
  intros Hz Hn Ht Hi. unfold ProcessZone.
  set (big := if _ : bool then _ else (z, t)).
  assert (exists z1 t1, big = (z1, t1) /\ zone_ok s lvl i z1 /\ entries z1 = entries z) as (z1 & t1 & -> & Hz1 & E).
  { unfold big. destruct (_ && OnBigTimer z); do 2 eexists; (split; [reflexivity|]); [|done].
    split; [by apply set_timers_ok|apply set_timers_entries]. }
  rewrite <- E in Hn, Ht.
  assert (forall z' s' sk', timer_ok now lvl i rest z1 s sk z' s' sk' -> timer_ok now lvl i rest z s sk z' s' sk') as Hconv.
  { intros z' s' sk' [A1 A2 A3 A4 A5 A6 A7]. rewrite E in *. by split. }
  destruct (_ <=? now).
  - destruct (OnSmallTimer_spec now lvl i rest z1 s sk) as (h & st & z' & s' & sk' & -> & H & _); [done..|].
    do 4 eexists. split; [reflexivity|]. apply Hconv. by apply timer_set_timers.
  - do 4 eexists. split; [reflexivity|]. apply Hconv. split; try done. apply shrinks_within, within_refl.
Qed.

Lemma timer_node now lvl i rest zd z0 z1 s sk z0' s1 sk1 z1' s2 sk2 :
  zone_ok s lvl i (ZNode zd z0 z1) -> NoDup (entries z0 ++ entries z1 ++ rest) ->
  timer_ok now (lvl + 1) (2 * i) (entries z1 ++ rest) z0 s sk z0' s1 sk1 ->
  timer_ok now (lvl + 1) (2 * i + 1) (entries z0' ++ rest) z1 s1 sk1 z1' s2 sk2 ->
  timer_ok now lvl i rest (ZNode zd z0 z1) s sk (ZNode zd z0' z1') s2 sk2.
Proof.
  intros (Hd & Hlt & H0 & H1) Hn [A1 A2 A3 A4 A5 A6 A7] [B1 B2 B3 B4 B5 B6 B7].
  apply NoDup_app in Hn as (N1 & N2 & N3). apply NoDup_app in N3 as (N3 & N4 & _).
  assert (forall p, p ∈ entries z0 -> p ∉ entries z1) as Hdis
    by (intros p Hp Hp'; apply (N2 p Hp), elem_of_app; by left).
  assert (forall p, p ∉ entries z0 -> contacts s1 !! p = contacts s !! p) as G1 by apply A3.
  assert (forall p, p ∉ entries z1 -> contacts s2 !! p = contacts s1 !! p) as G2 by apply B3.
  split; simpl.
  - split_and!; [done|done| |done]. apply (zone_ok_agree s1); [|done]. intros p Hp. apply G2. auto.
  - eapply tracked_perm; [|exact B2]. solve_Permutation.
  - destruct A3 as [S1 S2 S3 S4 S5], B3 as [U1 U2 U3 U4 U5]. split; [|congruence|congruence| |].
    + intros p. rewrite elem_of_app. intros Hp. rewrite U1, S1; tauto.
    + intros p. rewrite U4, S4, !elem_of_app. specialize (Hdis p). specialize (A4 p). specialize (B4 p).
      destruct (decide (p ∈ entries z0)), (decide (p ∈ entries z1)); tauto.
    + intros p Hp. apply elem_of_app in Hp as [Hp|Hp].
      * rewrite <- (proj1 (S5 p Hp)), <- (proj2 (S5 p Hp)). unfold id_of, deref.
        rewrite U1; [done|]. auto.
      * rewrite (proj1 (U5 p Hp)), (proj2 (U5 p Hp)). unfold id_of, deref.
        rewrite S1; [done|]. intros Hp'. apply (Hdis p Hp'). auto.
  - intros p. rewrite !elem_of_app. intros [Hp|Hp]; auto.
  - intros p. rewrite !elem_of_app. intros [Hp|Hp] Hp'; [apply A5; tauto|].
    apply (sweepable_same now s sk s1 sk1); [|exact A7|apply B5; tauto]. apply G1. intros Hp0. by apply (Hdis p).
  - done.
  - intros ip. by rewrite B7, A7.
Qed.

Lemma ProcessZones_spec now last z : forall lvl i rest t s sk, 0 <= lvl ->
  zone_ok s lvl i z -> NoDup (entries z ++ rest) -> tracked s (entries z ++ rest) -> safekad_inv now sk ->
  exists z' t' s' sk', ProcessZones node_protection now last z t s sk = (z', t', s', sk') /\
    timer_ok now lvl i rest z s sk z' s' sk'.
Proof.
  induction z as [zd b|zd z0 IH0 z1 IH1]; intros lvl i rest t s sk Hl Hz Hn Ht Hi; [by apply ProcessZone_spec|].
  pose proof Hz as (Hd & Hlt & H0 & H1). simpl in Hn, Ht. rewrite <- app_assoc in Hn, Ht.
  cbn [ProcessZones].
  destruct (IH0 (lvl + 1) (2 * i) (entries z1 ++ rest) t s sk) as (z0' & t1 & s1 & sk1 & -> & HA); [lia|done..|].
  pose proof HA as [A1 A2 A3 A4 A5 A6 A7]. pose proof Hn as Hn'.
  apply NoDup_app in Hn' as (N1 & N2 & N3). apply NoDup_app in N3 as (N3 & N4 & N5).
  assert (NoDup (entries z0')) as N0 by (apply (zone_NoDup s1 _ (lvl + 1) (2 * i)); [lia|done]).
  destruct (IH1 (lvl + 1) (2 * i + 1) (entries z0' ++ rest) t1 s1 sk1) as (z1' & t2 & s2 & sk2 & -> & HB).
  - lia.
  - apply (zone_ok_agree s); [|done]. intros p Hp. apply A3. intros Hp0. apply (N2 p Hp0), elem_of_app. by left.
  - apply NoDup_app. split_and!; [done| |].
    + intros p Hp. rewrite elem_of_app. intros [Hp0|Hp0]; [|by apply (N4 p)].
      apply (N2 p); [by apply A4|]. apply elem_of_app. by left.
    + apply NoDup_app. split_and!; [done| |done]. intros p Hp Hp'. apply (N2 p); [by apply A4|].
      apply elem_of_app. by right.
  - eapply tracked_perm; [|exact A2]. solve_Permutation.
  - done.
  - do 4 eexists. split; [reflexivity|]. by eapply timer_node.
Qed.

(** ** Merging *)

(** Two contacts of the network of [p] are among [l], and it is not a LAN network. *)
Definition crowded (s : KadState) (l : list Z) (p : Z) : Prop :=
  2 <= cnt (subnet24 (ip_of s p)) (map subnet24 (ips s l)) /\ IsLanIP (swap32 (ip_of s p)) = false.

Record merged_ok (lvl i : Z) (rest : list Z) (z : CRoutingZone) (s : KadState)
  (z' : CRoutingZone) (s' : KadState) : Prop := {
  mg_zone : zone_ok s' lvl i z';
  mg_tracked : tracked s' (entries z' ++ rest);
  mg_heap : same_heap s s';
  mg_lost : exists lost, Permutation (entries z' ++ lost) (entries z) /\
            Forall (crowded s (entries z')) lost
}.

(** The bin under construction, [todo] still to add, the contacts [lost] refused. *)
Record merging (s0 : KadState) (all rest todo : list Z) (b : CRoutingBin) (s : KadState) : Prop := {
  me_bin : bin_ok me s b;
  me_tracked : tracked s (m_entries b ++ rest);
  me_heap : same_heap s0 s;
  me_lost : exists lost, Permutation (m_entries b ++ lost ++ todo) all /\
            Forall (crowded s0 (m_entries b)) lost
}.

Lemma add_ignoring_spec s0 all rest it todo b s :
  Forall (live me s0) all -> NoDup (ids s0 all) -> Z.of_nat (length all) <= K ->
  tracked s0 (all ++ rest) -> merging s0 all rest (it :: todo) b s ->
  exists b' s', add_ignoring (b, s) it = (b', s') /\ merging s0 all rest todo b' s'.
Proof.
  intros Hlive Hids Hlen Ht0 [Hb Ht Hh (lost & HP & Hlost)]. pose proof Hh as [Hc Hn Hf].
  assert (forall l, ips s l = ips s0 l) as Eips by (intros; by apply agree_ips, agree_same_heap).
  assert (forall l, ids s l = ids s0 l) as Eids by (intros; by apply agree_ids, agree_same_heap).
  assert (ip_of s it = ip_of s0 it) as Eip by (unfold ip_of, deref; by rewrite Hc).
  assert (id_of s it = id_of s0 it) as Eid by (unfold id_of, deref; by rewrite Hc).
  assert (live me s it) as Hl.
  { unfold live. rewrite Hc. rewrite Forall_forall in Hlive. apply Hlive. rewrite <- HP.
    rewrite !elem_of_app, elem_of_cons. tauto. }
  unfold add_ignoring.
  destruct (AddContact_spec me s b (ips s (m_entries b ++ rest)) it) as [[HA ->]|[HA ->]]; [done..| |].
  - do 2 eexists. split; [reflexivity|].
    destruct (tracked_add me s _ b _ _ it eq_refl Hl HA eq_refl Ht) as [Ht' Hf'].
    destruct (adjust_heap (ip_of s it) true s) as [Eh En]. split; simpl.
    + by eapply add_bin_ok.
    + eapply tracked_perm; [|exact Ht']. solve_Permutation.
    + split; congruence.
    + exists lost. split; [rewrite <- HP; solve_Permutation|].
      eapply Forall_impl; [exact Hlost|]. intros p [Hp1 Hp2]. split; [|done].
      unfold ips. rewrite !map_app, cnt_app. fold (ips s0 (m_entries b)).
      pose proof (cnt_nonneg (subnet24 (ip_of s0 p)) (map subnet24 (map (ip_of s0) [it]))). lia.
  - do 2 eexists. split; [reflexivity|]. split; [done|done|done|].
    exists (it :: lost). split; [rewrite <- HP; solve_Permutation|]. constructor; [|done].
    unfold crowded. rewrite <- Eip, <- Eips.
    destruct (decide (cnt (subnet24 (ip_of s it)) (map subnet24 (ips s (m_entries b))) < 2 \/
      IsLanIP (swap32 (ip_of s it)) = true)) as [Hroom|Hroom].
    + exfalso. apply HA. unfold addable.
      assert (Permutation (it :: m_entries b ++ (lost ++ todo)) all) as HP2 by (rewrite <- HP; solve_Permutation).
      unfold tracked in Ht0. rewrite <- HP2 in Ht0, Hids, Hlen.
      assert (Permutation (ips s0 ((it :: m_entries b ++ lost ++ todo) ++ rest))
        (ip_of s0 it :: ips s0 (m_entries b ++ rest) ++ ips s0 (lost ++ todo))) as HP3.
      { unfold ips. rewrite <- map_app. apply (Permutation_map (ip_of s0) (l' := it :: (m_entries b ++ rest) ++ lost ++ todo)).
        solve_Permutation. }
      rewrite HP3 in Ht0. destruct Ht0 as [_ _ _ T4 T5]. rewrite !Eips, !Eids, Eip, Eid in *.
      split_and!.
      * unfold ids in Hids. simpl in Hids. apply NoDup_cons in Hids as [Hids _].
        rewrite map_app in Hids. intros Hin. apply Hids, elem_of_app. by left.
      * specialize (T4 (ip_of s0 it)). simpl in T4. rewrite Z.eqb_refl, cnt_app in T4.
        pose proof (cnt_nonneg (ip_of s0 it) (ips s0 (lost ++ todo))). lia.
      * apply limits_room. by apply (limits_sub _ _ (ips s0 (lost ++ todo))).
      * done.
      * simpl in Hlen. rewrite length_app in Hlen. lia.
    + apply Decidable.not_or in Hroom as [Hr1 Hr2]. split; [lia|by apply not_true_is_false].
Qed.

Lemma merging_loop s0 all rest todo1 : forall todo2 b s,
  Forall (live me s0) all -> NoDup (ids s0 all) -> Z.of_nat (length all) <= K ->
  tracked s0 (all ++ rest) -> merging s0 all rest (todo1 ++ todo2) b s ->
  exists b' s', fold_left add_ignoring todo1 (b, s) = (b', s') /\ merging s0 all rest todo2 b' s'.
Proof.
  induction todo1 as [|it todo1 IH]; intros todo2 b s Hl Hi Hn Ht H; [by do 2 eexists|].
  cbn [fold_left]. destruct (add_ignoring_spec s0 all rest it (todo1 ++ todo2) b s) as (b' & s' & -> & H');
    [done..|]. by apply IH.
Qed.

Lemma merge_leaves_spec now lvl i rest zd zd0 b0 zd1 b1 s :
  0 <= lvl -> zone_ok s lvl i (ZNode zd (ZLeaf zd0 b0) (ZLeaf zd1 b1)) ->
  tracked s ((m_entries b0 ++ m_entries b1) ++ rest) ->
  Z.of_nat (length (m_entries b0 ++ m_entries b1)) <= K ->
  exists b s', merge_leaves now zd b0 b1 s = (ZLeaf (StartTimer now zd) b, s') /\
    merged_ok lvl i rest (ZNode zd (ZLeaf zd0 b0) (ZLeaf zd1 b1)) s (ZLeaf (StartTimer now zd) b) s'.
Proof.
  intros Hl Hz Ht Hlen. unfold merge_leaves.
  change (GetEntries b0 [] true) with (m_entries b0). change (GetEntries b1 [] true) with (m_entries b1).
  set (all := m_entries b0 ++ m_entries b1) in *.
  pose proof (zone_entries s _ lvl i Hl Hz) as Hall. simpl in Hall. fold all in Hall.
  apply Forall_and in Hall as [Hlive Hin]. pose proof (zone_ids_NoDup s _ lvl i Hl Hz) as Hids.
  simpl in Hids. fold all in Hids. pose proof Ht as Ht0. unfold all in Ht. rewrite <- app_assoc in Ht.
  destruct (bin_delete_keep (m_entries b0) s _ Ht) as (T1 & F1 & C1 & N1).
  set (s1 := CRoutingBin_delete (mkBin (m_entries b0) true) s) in *.
  destruct (bin_delete_keep (m_entries b1) s1 _ T1) as (T2 & F2 & C2 & N2).
  set (s2 := CRoutingBin_delete (mkBin (m_entries b1) true) s1) in *.
  assert (merging s all rest (m_entries b0 ++ m_entries b1) CRoutingBin_new s2) as Hm0.
  { split; simpl; [apply bin_ok_new|done|split; congruence|]. exists []. by split. }
  destruct (merging_loop s all rest (m_entries b0) (m_entries b1) _ _ Hlive Hids Hlen Ht0 Hm0)
    as (b3 & s3 & -> & Hm3).
  rewrite <- (app_nil_r (m_entries b1)) in Hm3.
  destruct (merging_loop s all rest (m_entries b1) [] _ _ Hlive Hids Hlen Ht0 Hm3)
    as (b4 & s4 & -> & [M1 M2 M3 (lost & M4 & M5)]).
  do 2 eexists. split; [reflexivity|]. rewrite app_nil_r in M4. split; simpl; [|done|done|by exists lost].
  destruct Hz as ((D1 & D2 & D3 & _) & _). split_and!; [by split_and!|done|].
  apply (in_zone_agree s); [by apply agree_same_heap; apply M3|]. rewrite <- M4 in Hin.
  by apply Forall_app in Hin as [? _].
Qed.

Lemma same_heap_trans s1 s2 s3 : same_heap s1 s2 -> same_heap s2 s3 -> same_heap s1 s3.
Proof. intros [A1 A2 A3] [B1 B2 B3]. split; congruence. Qed.

Lemma crowded_heap s s' l p : same_heap s s' -> crowded s' l p <-> crowded s l p.
Proof.
  intros [H _ _]. unfold crowded. rewrite (agree_ips l s s') by by apply agree_same_heap.
  unfold ip_of, deref. by rewrite H.
Qed.

(** A refused contact stays crowded while contacts of its network are only refused when two
    others are kept. *)
Lemma crowded_shrink s l l' lost p :
  Permutation (l' ++ lost) l -> Forall (crowded s l') lost -> crowded s l p -> crowded s l' p.
Proof.
  intros HP Hlost [Hc Hl]. split; [|done]. unfold ips in Hc. rewrite <- HP in Hc.
  rewrite !map_app, cnt_app in Hc.
  destruct (Z.eq_dec (cnt (subnet24 (ip_of s p)) (map subnet24 (map (ip_of s) lost))) 0) as [E|E];
    [unfold ips; lia|].
  assert (subnet24 (ip_of s p) ∈ map subnet24 (map (ip_of s) lost)) as Hin.
  { apply cnt_pos. pose proof (cnt_nonneg (subnet24 (ip_of s p)) (map subnet24 (map (ip_of s) lost))). lia. }
  apply list_elem_of_fmap in Hin as (ip & Eip & Hip). apply list_elem_of_fmap in Hip as (q & -> & Hq).
  rewrite Forall_forall in Hlost. destruct (Hlost q Hq) as [Hc' _]. by rewrite Eip.
Qed.

Lemma merged_refl lvl i rest z s : zone_ok s lvl i z -> tracked s (entries z ++ rest) ->
  merged_ok lvl i rest z s z s.
Proof. intros Hz Ht. split; [done|done|done|]. exists []. by rewrite app_nil_r. Qed.

Lemma merged_trans lvl i rest z1 s1 z2 s2 z3 s3 :
  merged_ok lvl i rest z1 s1 z2 s2 -> merged_ok lvl i rest z2 s2 z3 s3 -> merged_ok lvl i rest z1 s1 z3 s3.
Proof.
  intros [A1 A2 A3 (la & A4 & A5)] [B1 B2 B3 (lb & B4 & B5)].
  split; [done|done|by eapply same_heap_trans|].
  assert (Forall (crowded s1 (entries z3)) lb) as B5'.
  { eapply Forall_impl; [exact B5|]. intros p. by rewrite (crowded_heap s1 s2). }
  exists (lb ++ la). split; [by rewrite app_assoc, B4|]. apply Forall_app. split; [done|].
  eapply Forall_impl; [exact A5|]. intros p. by apply (crowded_shrink s1 _ _ lb).
Qed.

Lemma crowded_more s l l' p : crowded s l p -> l ⊆+ l' -> crowded s l' p.
Proof.
  intros [Hc Hl] [l2 HP]%submseteq_Permutation. split; [|done]. unfold ips. rewrite HP, !map_app, cnt_app.
  unfold ips in Hc. pose proof (cnt_nonneg (subnet24 (ip_of s p)) (map subnet24 (map (ip_of s) l2))). lia.
Qed.

Lemma merged_left lvl i rest zd z0 z1 s z0' s' :
  zone_ok s lvl i (ZNode zd z0 z1) -> merged_ok (lvl + 1) (2 * i) (entries z1 ++ rest) z0 s z0' s' ->
  merged_ok lvl i rest (ZNode zd z0 z1) s (ZNode zd z0' z1) s'.
Proof.
  intros (Hd & Hlt & H0 & H1) [A1 A2 A3 (lost & A4 & A5)]. split; simpl; [|by rewrite <- app_assoc|done|].
  - split_and!; [done..|]. apply (zone_ok_agree s); [|done]. apply agree_same_heap, A3.
  - exists lost. split; [rewrite <- A4; solve_Permutation|].
    eapply Forall_impl; [exact A5|]. intros p Hp. eapply crowded_more; [exact Hp|]. apply submseteq_inserts_r. done.
Qed.

Lemma merged_right lvl i rest zd z0 z1 s z1' s' :
  zone_ok s lvl i (ZNode zd z0 z1) -> merged_ok (lvl + 1) (2 * i + 1) (entries z0 ++ rest) z1 s z1' s' ->
  merged_ok lvl i rest (ZNode zd z0 z1) s (ZNode zd z0 z1') s'.
Proof.
  intros (Hd & Hlt & H0 & H1) [A1 A2 A3 (lost & A4 & A5)].
  split; simpl; [|eapply tracked_perm; [|exact A2]; solve_Permutation|done|].
  - split_and!; [done|done| |done]. apply (zone_ok_agree s); [|done]. apply agree_same_heap, A3.
  - exists lost. split; [rewrite <- A4; solve_Permutation|].
    eapply Forall_impl; [exact A5|]. intros p Hp. eapply crowded_more; [exact Hp|]. apply submseteq_inserts_l. done.
Qed.

Lemma Consolidate_spec now z : forall lvl i rest s, 0 <= lvl ->
  zone_ok s lvl i z -> tracked s (entries z ++ rest) ->
  exists n z' s', Consolidate now z s = (n, z', s') /\ 0 <= n /\ merged_ok lvl i rest z s z' s'.
Proof.
  induction z as [zd b|zd z0 IH0 z1 IH1]; intros lvl i rest s Hl Hz Ht.
  { do 3 eexists. split; [reflexivity|]. split; [lia|]. by apply merged_refl. }
  pose proof Hz as (Hd & Hlt & H0 & H1). cbn [Consolidate].
  assert (exists n0 z0' s1, (if negb (IsLeaf z0) then Consolidate now z0 s else (0, z0, s)) = (n0, z0', s1) /\
    0 <= n0 /\ merged_ok lvl i rest (ZNode zd z0 z1) s (ZNode zd z0' z1) s1) as (n0 & z0' & s1 & -> & Hn0 & HA).
  { destruct (negb (IsLeaf z0)).
    - destruct (IH0 (lvl + 1) (2 * i) (entries z1 ++ rest) s) as (n & z' & s' & -> & Hn & HM);
        [lia|done|by simpl in Ht; rewrite <- app_assoc in Ht|].
      do 3 eexists. split; [reflexivity|]. split; [done|]. by apply merged_left.
    - do 3 eexists. split; [reflexivity|]. split; [lia|]. by apply merged_refl. }
  pose proof HA as [Hz1 Ht1 _ _]. pose proof Hz1 as (_ & _ & G0 & G1).
  assert (exists n1 z1' s2, (if negb (IsLeaf z1) then Consolidate now z1 s1 else (0, z1, s1)) = (n1, z1', s2) /\
    0 <= n1 /\ merged_ok lvl i rest (ZNode zd z0' z1) s1 (ZNode zd z0' z1') s2) as (n1 & z1' & s2 & -> & Hn1 & HB).
  { destruct (negb (IsLeaf z1)).
    - destruct (IH1 (lvl + 1) (2 * i + 1) (entries z0' ++ rest) s1) as (n & z' & s' & -> & Hn & HM);
        [lia|done|eapply tracked_perm; [|exact Ht1]; simpl; solve_Permutation|].
      do 3 eexists. split; [reflexivity|]. split; [done|]. by apply merged_right.
    - do 3 eexists. split; [reflexivity|]. split; [lia|]. by apply merged_refl. }
  pose proof (merged_trans _ _ _ _ _ _ _ _ _ HA HB) as HM. pose proof HM as [Hz2 Ht2 _ _].
  assert (exists n z' s', (n0 + n1, ZNode zd z0' z1', s2) = (n, z', s') /\ 0 <= n /\
    merged_ok lvl i rest (ZNode zd z0 z1) s z' s') as Hstay by (do 3 eexists; split; [reflexivity|]; split; [lia|done]).
  destruct z0' as [zd0 b0|]; [|done]. destruct z1' as [zd1 b1|]; [|done].
  case_cmp_as Hfew; [|done].
  destruct (merge_leaves_spec now lvl i rest zd zd0 b0 zd1 b1 s2) as (b & s3 & -> & HC); [done..| |].
  { pose proof Hz2 as (_ & _ & (_ & B0 & _) & (_ & B1 & _)). apply bin_size in B0, B1.
    simpl in Hfew. unfold GetSize, K in *. rewrite !wrap_small in Hfew by width_lia.
    change (10 / 2) with 5 in Hfew. rewrite length_app. lia. }
  do 3 eexists. split; [reflexivity|]. split; [lia|]. by eapply merged_trans.
Qed.

(** ** The table *)

Record table_ok (s : KadState) (z : CRoutingZone) : Prop := {
  tb_zone : zone_ok s 0 0 z;
  tb_tracked : tracked s (entries z);
  tb_fresh : forall p, is_Some (contacts s !! p) -> p < next_contact s
}.

Lemma table_NoDup s z : table_ok s z -> NoDup (entries z).
Proof. intros [Hz _ _]. by eapply zone_NoDup; [|exact Hz]. Qed.

Lemma table_live s z p : table_ok s z -> p ∈ entries z -> live me s p.
Proof.
  intros [Hz _ _] Hp. apply zone_entries in Hz; [|lia]. rewrite Forall_forall in Hz. by apply Hz.
Qed.

(** Changes of other fields of contacts. *)
Record tweaks (s s' : KadState) : Prop := {
  tw_maps : s_globalContactIPs s' = s_globalContactIPs s /\
            s_globalContactSubnets s' = s_globalContactSubnets s;
  tw_next : next_contact s' = next_contact s;
  tw_fails : fails s' = fails s;
  tw_contacts : forall q, match contacts s !! q, contacts s' !! q with
    | Some c, Some c' => m_clientID c' = m_clientID c /\ m_ip c' = m_ip c /\ m_distance c' = m_distance c
    | None, None => True
    | _, _ => False
    end
}.

Lemma tweaks_refl s : tweaks s s.
Proof. split; try done. intros q. by destruct (contacts s !! q). Qed.

Lemma tweaks_trans s1 s2 s3 : tweaks s1 s2 -> tweaks s2 s3 -> tweaks s1 s3.
Proof.
  intros [A1 A2 A3 A4] [B1 B2 B3 B4]. split; [|congruence|congruence|].
  - destruct A1, B1. split; congruence.
  - intros q. specialize (A4 q). specialize (B4 q).
    destruct (contacts s1 !! q), (contacts s2 !! q), (contacts s3 !! q); try done.
    destruct A4 as (? & ? & ?), B4 as (? & ? & ?). split_and!; congruence.
Qed.

Lemma tweaks_update p f s : keeps f -> tweaks s (update_contact p f s).
Proof.
  intros Hf. split; try done. intros q. rewrite contacts_update.
  destruct (decide (q = p)) as [->|]; [destruct (contacts s !! p); simpl; [apply Hf|done]|].
  by destruct (contacts s !! q).
Qed.

Lemma tweaks_deref s s' q : tweaks s s' ->
  id_of s' q = id_of s q /\ ip_of s' q = ip_of s q /\ m_distance (deref s' q) = m_distance (deref s q).
Proof.
  intros [_ _ _ H]. specialize (H q). unfold id_of, ip_of, deref.
  destruct (contacts s !! q), (contacts s' !! q); done.
Qed.

Lemma tweaks_live s s' p : tweaks s s' -> live me s p -> live me s' p.
Proof.
  intros [_ _ _ H] (c & Hc & [H1 H2 H3]). specialize (H p). rewrite Hc in H.
  destruct (contacts s' !! p) as [c'|] eqn:Hc'; [|done]. exists c'. split; [done|].
  destruct H as (E1 & E2 & E3). split; congruence.
Qed.

Lemma tweaks_zone s s' z : tweaks s s' -> forall lvl i, zone_ok s lvl i z -> zone_ok s' lvl i z.
Proof.
  intros Ht. assert (forall l, ips s' l = ips s l) as Ei by (intros l; apply map_ext; intros q; by apply tweaks_deref).
  assert (forall l, ids s' l = ids s l) as Ed by (intros l; apply map_ext; intros q; by apply tweaks_deref).
  induction z as [zd b|zd z0 IH0 z1 IH1]; intros lvl i; simpl.
  - intros (Hd & [H1 H2 H3 H4 H5] & Hz). split_and!; [done| |].
    + split; [done|done| |by rewrite Ed|by rewrite Ei]. eapply Forall_impl; [exact H3|].
      intros q. by apply tweaks_live.
    + eapply Forall_impl; [exact Hz|]. intros q. unfold in_zone. by destruct (tweaks_deref s s' q Ht) as (_ & _ & ->).
  - intros (Hd & Hlt & H0 & H1). split_and!; auto.
Qed.

Lemma tweaks_tracked s s' l : tweaks s s' -> tracked s l -> tracked s' l.
Proof.
  intros Ht [H1 H2 H3 H4 H5]. unfold tracked.
  assert (ips s' l = ips s l) as -> by (apply map_ext; intros q; by apply tweaks_deref).
  destruct Ht as [[E1 E2] _ _ _]. split; by rewrite ?E1, ?E2.
Qed.

Lemma tweaks_table s s' z : tweaks s s' -> table_ok s z -> table_ok s' z.
Proof.
  intros Ht [H1 H2 H3]. split; [by eapply tweaks_zone|by eapply tweaks_tracked|].
  intros p. destruct Ht as [_ -> _ H]. intros Hp. apply H3. specialize (H p).
  destruct (contacts s !! p); [done|]. destruct Hp as [c Hc]. by rewrite Hc in H.
Qed.

Lemma tweaks_fold {A} (f : A -> Z) (g : CContact -> CContact) (l : list A) s : keeps g ->
  tweaks s (fold_left (fun s x => update_contact (f x) g s) l s).
Proof.
  intros Hg. revert s. induction l as [|x l IH]; intros s; simpl; [apply tweaks_refl|].
  eapply tweaks_trans; [by apply (tweaks_update (f x) g)|apply IH].
Qed.

Lemma SetAllContactsVerified_tweaks z : forall s, tweaks s (SetAllContactsVerified z s).
Proof.
  induction z as [zd b|zd z0 IH0 z1 IH1]; intros s; simpl.
  - apply (tweaks_fold (fun p => p)), keeps_verified.
  - eapply tweaks_trans; [apply IH0|apply IH1].
Qed.

Lemma GetClosestToBin_tweaks b maxType target n result e inUse s :
  tweaks s (GetClosestToBin b maxType target n result e inUse s).2.
Proof.
  unfold GetClosestToBin. destruct (m_entries b) as [|p l]; [apply tweaks_refl|].
  generalize (p :: l) as ps. intros ps.
  set (acc := if e then [] else result). clearbody acc.
  assert (forall ps acc s, tweaks s (fold_left (ContactMap_insert maxType target inUse) ps (acc, s)).2) as Hfold.
  { clear. induction ps as [|p ps IH]; intros acc s; simpl; [apply tweaks_refl|].
    destruct (_ && _); [|apply IH]. destruct inUse; [|apply IH].
    eapply tweaks_trans; [apply (tweaks_update p IncUse), keeps_inc|apply IH]. }
  specialize (Hfold ps acc s). destruct (fold_left _ ps (acc, s)) as [r s1]. simpl in Hfold.
  eapply tweaks_trans; [exact Hfold|]. generalize (length r) as fuel. intros fuel. clear Hfold.
  revert r s1. induction fuel as [|fuel IH]; intros r s1; simpl; [apply tweaks_refl|].
  destruct (_ >? _); [|apply tweaks_refl]. eapply tweaks_trans; [|apply IH].
  destruct inUse; [|apply tweaks_refl]. destruct (last r) as [[k p']|]; [|apply tweaks_refl].
  apply tweaks_update, keeps_dec.
Qed.

Lemma GetClosestTo_tweaks z maxType target distance n inUse : forall result e s,
  tweaks s (GetClosestTo z maxType target distance n result e inUse s).2.
Proof.
  induction z as [zd b|zd z0 IH0 z1 IH1]; intros result e s; simpl; [apply GetClosestToBin_tweaks|].
  destruct (_ =? 0).
  - specialize (IH0 result e s). destruct (GetClosestTo z0 _ _ _ _ _ _ _ s) as [r s1]. simpl in IH0.
    destruct (_ <? _); [|done]. eapply tweaks_trans; [exact IH0|apply IH1].
  - specialize (IH1 result e s). destruct (GetClosestTo z1 _ _ _ _ _ _ _ s) as [r s1]. simpl in IH1.
    destruct (_ <? _); [|done]. eapply tweaks_trans; [exact IH1|apply IH0].
Qed.

(** ** Contacts offered to the table *)

(** Every live contact is in the table. *)
Definition owned (s : KadState) (z : CRoutingZone) : Prop :=
  forall p, is_Some (contacts s !! p) -> p ∈ entries z.

(** The outcome of an offer: the contact was added under the next address, or the contacts of
    the table are those of before and nothing was left allocated. *)
Record offered (now : Z) (z : CRoutingZone) (s : KadState) (r : bool) (z' : CRoutingZone)
  (s' : KadState) (sk' : CSafeKad) : Prop := {
  of_table : table_ok s' z';
  of_fails : fails s' = fails s;
  of_entries : Permutation (entries z') (entries z) \/
               r = true /\ Permutation (entries z') (next_contact s :: entries z);
  of_live : forall p, is_Some (contacts s' !! p) <->
              is_Some (contacts s !! p) \/ (p = next_contact s /\ p ∈ entries z');
  of_ids : forall p, p ∈ entries z -> id_of s' p = id_of s p;
  of_safekad : safekad_inv now sk'
}.

Lemma offered_refl now z s sk : table_ok s z -> safekad_inv now sk -> offered now z s false z s sk.
Proof.
  intros Ht Hi. split; try done; [by left|]. intros p. split; [by left|]. intros [?|[-> Hp]]; [done|].
  apply (table_live s z) in Hp as (c & Hc & _); [by eauto|done].
Qed.

Lemma new_contact_state s c p s1 : new_contact c s = (p, s1) ->
  (forall q, is_Some (contacts s !! q) -> q < next_contact s) ->
  p = next_contact s /\ contacts s !! p = None /\ contacts s1 !! p = Some c /\
  (forall q, q <> p -> contacts s1 !! q = contacts s !! q) /\
  next_contact s1 = next_contact s + 1 /\ fails s1 = fails s /\
  (forall l, (forall q, q ∈ l -> q <> p) -> tracked s l -> tracked s1 l).
Proof.
  intros E Hf. unfold new_contact in E. injection E as <- <-. simpl.
  assert (contacts s !! next_contact s = None) as Hnone.
  { destruct (contacts s !! next_contact s) as [c0|] eqn:E; [|done].
    assert (next_contact s < next_contact s) by (apply Hf; eauto). lia. }
  split_and!; try done; [apply lookup_insert_eq|intros q Hq; by apply lookup_insert_ne|].
  intros l Hl [H1 H2 H3 H4 H5]. unfold tracked.
  rewrite (agree_ips l s); [by split|]. intros q Hq. simpl. apply lookup_insert_ne.
  intros E. by apply (Hl q Hq).
Qed.

(** The contact an offer creates. *)
Definition offered_contact (id : CUInt128) (ip port tport version : Z) (key : CKadUDPKey)
  (ipVerified fromHello : bool) (now : Z) : CContact :=
  let c := CContact_new id ip port tport version key ipVerified me now in
  if fromHello then SetReceivedHelloPacket c else c.

Lemma offered_contact_keeps id ip port tport version key v fromHello now :
  let c := offered_contact id ip port tport version key v fromHello now in
  m_clientID c = id /\ m_ip c = ip /\ m_distance c = XOR me id.
Proof. unfold offered_contact. by destruct fromHello. Qed.

(** The state [s2] with the contact [c] of an offer at [p], not yet in the table. *)
Record offer_start (z : CRoutingZone) (s : KadState) (c : CContact) (p : Z) (s2 : KadState) : Prop := {
  os_addr : p = next_contact s;
  os_free : contacts s !! p = None;
  os_new : contacts s2 !! p = Some c;
  os_other : forall q, q <> p -> contacts s2 !! q = contacts s !! q;
  os_next : next_contact s2 = next_contact s + 1;
  os_fails : fails s2 = fails s;
  os_outside : forall q, q ∈ entries z -> q <> p;
  os_live : live me s2 p;
  os_zone : zone_ok s2 0 0 z;
  os_tracked : tracked s2 (entries z);
  os_in : in_zone s2 0 0 p
}.

Lemma os_agree z s c p s2 : offer_start z s c p s2 -> agree (entries z) s s2.
Proof. intros H q Hq. by apply (os_other _ _ _ _ _ H), (os_outside _ _ _ _ _ H). Qed.

Lemma live_in_root s p : live me s p -> in_zone s 0 0 p.
Proof.
  intros H. unfold in_zone. rewrite Z.shiftr_div_pow2 by lia. destruct (live_distance s p H) as [Hw _].
  pose proof (value_range _ Hw) as Hv. apply Z.div_small. exact Hv.
Qed.

(** Every offer that gets past the first checks starts so. *)
Lemma AddUnfiltered_start now z id ip port tport version key v (fromHello : bool) s :
  table_ok s z -> wf_uint128 id -> in_width 32 ip ->
  exists p s1, new_contact (CContact_new id ip port tport version key v me now) s = (p, s1) /\
    offer_start z s (offered_contact id ip port tport version key v fromHello now) p
      (if fromHello then update_contact p SetReceivedHelloPacket s1 else s1).
Proof.
  intros Ht Hid Hip. set (c := CContact_new id ip port tport version key v me now).
  destruct (new_contact c s) as [p s1] eqn:Enew. pose proof Ht as [Hz Htr Hfr]. do 2 eexists. split; [reflexivity|].
  destruct (new_contact_state s c p s1 Enew Hfr) as (Ep & Hnone & Hsome & Hother & Hnext & Hfl & Htr1).
  assert (forall q, q ∈ entries z -> q <> p) as Hnp.
  { intros q Hq ->. apply (table_live s z) in Hq as (c' & Hc' & _); [congruence|done]. }
  assert (live me s1 p) as Hl1 by (exists c; by split).
  set (s2 := if fromHello then update_contact p SetReceivedHelloPacket s1 else s1).
  assert (tweaks s1 s2) as Htw by (unfold s2; destruct fromHello; [apply tweaks_update, keeps_hello|apply tweaks_refl]).
  assert (agree (entries z) s s1) as Hag by (intros q Hq; by apply Hother, Hnp).
  pose proof (tweaks_live s1 s2 p Htw Hl1) as Hlive. split; try done.
  - unfold s2, offered_contact. destruct fromHello; [|done]. rewrite contacts_update, decide_True by done. by rewrite Hsome.
  - intros q Hq. unfold s2. destruct fromHello; [rewrite contacts_update, decide_False by done|]; by apply Hother.
  - by rewrite (tw_next _ _ Htw).
  - by rewrite (tw_fails _ _ Htw).
  - apply (tweaks_zone s1 s2 z Htw). by apply (zone_ok_agree s).
  - apply (tweaks_tracked s1 s2 _ Htw). by apply Htr1.
  - by apply live_in_root.
Qed.

Lemma root_bounds : zone_bounds 0 0.
Proof. split; [lia|]. change (2 ^ 0) with 1. lia. Qed.

Lemma AddUnfiltered_spec PublicIP now z id ip port tport version key ipVerified update fromHello s sk :
  table_ok s z -> safekad_inv now sk -> wf_uint128 id -> in_width 32 ip ->
  exists r v z' s' sk',
    AddUnfiltered me PublicIP node_protection now z id ip port tport version key ipVerified update
      fromHello s sk = Some (r, v, z', s', sk') /\ offered now z s r z' s' sk'.
Proof.
  intros Ht Hi Hid Hip. unfold AddUnfiltered.
  destruct (op_ne id me); [|do 5 eexists; split; [reflexivity|by apply offered_refl]].
  assert (exists bad sk1, (if node_protection then IsBadNode ip port id version ipVerified false now sk
    else (false, sk)) = (bad, sk1) /\ safekad_inv now sk1) as (bad & sk1 & -> & Hi1).
  { destruct node_protection; [|by do 2 eexists].
    pose proof (sk_exec_inv now (CallBad ip port id version ipVerified false) sk Hi) as H. simpl in H.
    destruct (IsBadNode _ _ _ _ _ _ _ _) as [bad sk1]. by do 2 eexists. }
  destruct bad; [do 5 eexists; split; [reflexivity|by apply offered_refl]|].
  destruct (AddUnfiltered_start now z id ip port tport version key ipVerified fromHello s Ht Hid Hip)
    as (p & s1 & -> & HS). pose proof HS as [Ep Hnone Hsome Hother Hnext Hfl Hnp Hlive Hz2 Ht2 Hin2].
  cbn match. set (s2 := if fromHello then update_contact p SetReceivedHelloPacket s1 else s1) in *.
  pose proof Ht as [Hz Htr Hfr]. pose proof (zone_NoDup s z 0 0 ltac:(lia) Hz) as Hnd.
  destruct (ZoneAdd_spec PublicIP now p update ipVerified ADD_FUEL z 0 0 [] s2)
    as (r & u & o & z' & s3 & -> & [A1 A2 A3 A4 A5 A6 A7]); rewrite ?app_nil_r;
    [apply root_bounds|done..|unfold ADD_FUEL; lia|].
  rewrite app_nil_r in A3. simpl.
  assert (next_contact s3 = next_contact s + 1) as En3 by by rewrite (wi_next _ _ _ A4).
  assert (forall q, is_Some (contacts s3 !! q) <-> is_Some (contacts s !! q) \/ q = p) as Hdom.
  { intros q. rewrite (wi_live _ _ _ A4). destruct (Z.eq_dec q p) as [->|Hne].
    - rewrite Hsome. split; [by right|by eauto].
    - rewrite (Hother q Hne). split; [by left|intros [?| ->]; done]. }
  assert (forall q, q ∈ entries z -> id_of s3 q = id_of s q) as Hids3.
  { intros q Hq. rewrite (proj1 (wi_ids _ _ _ A4 q)). unfold id_of, deref. by rewrite Hother by auto. }
  destruct r; do 5 eexists; (split; [reflexivity|]).
  - split; try done.
    + split; [done|done|]. intros q Hq. apply Hdom in Hq as [Hq| ->]; [apply Hfr in Hq|]; lia.
    + by rewrite (wi_fails _ _ _ A4).
    + right. split; [done|]. by rewrite <- Ep.
    + intros q. rewrite Hdom, <- Ep, A2, elem_of_cons. tauto.
  - assert (forall q, q <> p -> contacts (delete_contact p s3) !! q = contacts s3 !! q) as Hdel
      by (intros q Hq; simpl; by apply lookup_delete_ne).
    assert (agree (entries z') s3 (delete_contact p s3)) as Hag3.
    { intros q Hq. apply Hdel, Hnp. by rewrite <- A2. }
    split; try done.
    + split.
      * by apply (zone_ok_agree s3).
      * unfold tracked in *. rewrite (agree_ips _ _ _ Hag3). by destruct A3; split.
      * intros q Hq. simpl in Hq |- *. destruct (Z.eq_dec q p) as [->|Hne];
          [rewrite lookup_delete_eq in Hq; by destruct Hq|]. rewrite lookup_delete_ne in Hq by done.
        apply Hdom in Hq as [Hq| ->]; [apply Hfr in Hq; lia|done].
    + simpl. by rewrite (wi_fails _ _ _ A4).
    + by left.
    + intros q. simpl. rewrite <- Ep, A2. destruct (Z.eq_dec q p) as [->|Hne].
      * rewrite lookup_delete_eq, Hnone. split; [intros [x Hx]; discriminate|].
        intros [[x Hx]|[_ Hx]]; [discriminate|]. by destruct (Hnp p Hx).
      * rewrite lookup_delete_ne, Hdom by done. tauto.
    + intros q Hq. rewrite <- Hids3 by done. unfold id_of, deref. rewrite Hdel; [done|]. by apply Hnp.
Qed.

(** ** What an offer is answered *)

(** The bin an identity belongs to: where its distance leads. *)
Fixpoint bin_for (z : CRoutingZone) (distance : CUInt128) : CRoutingBin :=
  match z with
  | ZLeaf _ b => b
  | ZNode zd z0 z1 => bin_for (if GetBitNumber distance (m_level zd) =? 0 then z0 else z1) distance
  end.

(** The limits allow one more contact at [ip] in the bin [b] of the table [z]: the address is new, and its
    /24 is not used up in the table or in the bin (LAN aside). *)
Definition limits_allow (s : KadState) (z : CRoutingZone) (b : CRoutingBin) (ip : Z) : Prop :=
  ip ∉ ips s (entries z) /\
  (cnt (subnet24 ip) (map subnet24 (ips s (entries z))) < MAX_CONTACTS_SUBNET \/ IsLanIP (swap32 ip) = true) /\
  (cnt (subnet24 ip) (map subnet24 (ips s (m_entries b))) < 2 \/ IsLanIP (swap32 ip) = true).

(** The node protection turns the offer down. *)
Definition turned_down (ip port : Z) (id : CUInt128) (version : Z) (ipVerified : bool) (now : Z)
  (sk : CSafeKad) : bool :=
  node_protection && (IsBadNode ip port id version ipVerified false now sk).1.

Lemma bin_for_entries z d : m_entries (bin_for z d) ⊆ entries z.
Proof. induction z as [zd b|zd z0 IH0 z1 IH1]; simpl; [done|]. case_match; set_solver. Qed.

(** An unknown contact whose bin has room is added exactly when the limits allow it. *)
Lemma ZoneAdd_room PublicIP now contact update v s L : tracked_ips s L -> live me s contact ->
  forall z fuel lvl i, zone_bounds lvl i -> zone_ok s lvl i z -> 128 - lvl <= Z.of_nat fuel ->
  id_of s contact ∉ ids s (entries z) ->
  let b := bin_for z (m_distance (deref s contact)) in
  Z.of_nat (length (m_entries b)) < K ->
  exists r z' s', ZoneAdd PublicIP fuel now z contact update v s = Some (r, false, v, z', s') /\
    (r = true <-> addable s b L contact).
Proof.
  intros HL Hc. induction z as [zd b|zd z0 IH0 z1 IH1]; intros fuel lvl i Hb Hz Hf Hid; simpl bin_for; cbv zeta;
    intros Hroom; (destruct fuel as [|fuel]; [destruct Hb; lia|]); simpl ZoneAdd.
  - destruct Hz as (_ & Hbin & _). unfold GetContact.
    pose proof (find_id_spec me s (id_of s contact) (m_entries b) (live_id me s contact Hc) (bin_live me s b Hbin)) as Hfind.
    fold (id_of s contact). destruct (find_id s (id_of s contact) (m_entries b)) as [cu|].
    { destruct Hfind as [Hcu E]. destruct Hid. rewrite <- E. by apply list_elem_of_fmap_2. }
    rewrite (GetRemaining_zero s b Hbin). destruct (Z.eqb_spec (Z.of_nat (length (m_entries b))) K); [lia|]. simpl.
    destruct (AddContact_spec me s b L contact HL Hbin Hc) as [[HA ->]|[HA ->]]; do 3 eexists; by split.
  - pose proof Hz as ((Hd & _) & Hlt & H0 & H1). pose proof Hb as [Hl _].
    unfold ids in Hid. simpl in Hid. rewrite map_app, elem_of_app in Hid.
    destruct (GetBitNumber _ _ =? 0).
    + destruct (IH0 fuel (lvl + 1) (2 * i)) as (r & z' & s' & -> & Hr); [eapply zone_bounds_sub; eauto|done|lia|tauto|done|].
      do 3 eexists. by split.
    + destruct (IH1 fuel (lvl + 1) (2 * i + 1)) as (r & z' & s' & -> & Hr); [eapply zone_bounds_sub; eauto|done|lia|tauto|done|].
      do 3 eexists. by split.
Qed.

Lemma addable_limits s b z p : id_of s p ∉ ids s (m_entries b) -> Z.of_nat (length (m_entries b)) < K ->
  addable s b (ips s (entries z)) p <-> limits_allow s z b (ip_of s p).
Proof.
  intros Hid Hroom. unfold addable, limits_allow, MAX_CONTACTS_IP. rewrite <- cnt_pos.
  pose proof (cnt_nonneg (ip_of s p) (ips s (entries z))). intuition lia.
Qed.

(** The answer to an offer tells what became of it. *)
Lemma AddUnfiltered_answer PublicIP now z id ip port tport version key v update fromHello s sk r v' z' s' sk' :
  table_ok s z -> wf_uint128 id -> in_width 32 ip ->
  AddUnfiltered me PublicIP node_protection now z id ip port tport version key v update fromHello s sk =
    Some (r, v', z', s', sk') ->
  (r = true ->
    Permutation (entries z') (next_contact s :: entries z) /\ id ∉ ids s (entries z) /\
      deref s' (next_contact s) = offered_contact id ip port tport version key v fromHello now \/
    Permutation (entries z') (entries z) /\ update = true /\ id ∈ ids s (entries z)) /\
  (r = false -> Permutation (entries z') (entries z)) /\
  (let b := bin_for z (XOR me id) in
   id <> me -> turned_down ip port id version v now sk = false -> id ∉ ids s (entries z) ->
   Z.of_nat (length (m_entries b)) < K -> (r = true <-> limits_allow s z b ip)).
Proof.
  intros Ht Hid Hip. pose proof (op_ne_iff id me) as Hne. unfold AddUnfiltered, turned_down.
  destruct (op_ne id me); [|intros [= <- _ <- _ _]; split_and!; try done; intros H; by apply Hne in H].
  destruct (if node_protection then _ else _) as [bad sk1] eqn:Ebad.
  assert (node_protection && (IsBadNode ip port id version v false now sk).1 = bad) as ->.
  { destruct node_protection; [by rewrite Ebad|by injection Ebad]. }
  destruct bad; [intros [= <- _ <- _ _]; by split_and!|].
  destruct (AddUnfiltered_start now z id ip port tport version key v fromHello s Ht Hid Hip)
    as (p & s1 & -> & HS). pose proof (os_agree _ _ _ _ _ HS) as Hag. pose proof HS as [Ep _ Hsome _ _ _ _ Hlive Hz2 Ht2 Hin2].
  cbn match. set (s2 := if fromHello then update_contact p SetReceivedHelloPacket s1 else s1) in *.
  set (c := offered_contact id ip port tport version key v fromHello now) in *.
  destruct (offered_contact_keeps id ip port tport version key v fromHello now) as (Kid & Kip & Kd).
  assert (deref s2 p = c) as Dp by (unfold deref; by rewrite Hsome).
  assert (id_of s2 p = id /\ ip_of s2 p = ip /\ m_distance (deref s2 p) = XOR me id) as (Iid & Iip & Id)
    by (unfold id_of, ip_of; by rewrite Dp).
  pose proof Ht as [Hz _ _]. pose proof (zone_NoDup s z 0 0 ltac:(lia) Hz) as Hnd.
  destruct (ZoneAdd_spec PublicIP now p update v ADD_FUEL z 0 0 [] s2)
    as (r2 & u & o & z2 & s3 & E & [_ A2 _ _ A5 A6 A7]); rewrite ?app_nil_r;
    [apply root_bounds|done..|unfold ADD_FUEL; lia|].
  rewrite Iid, (agree_ids _ _ _ Hag) in A6, A7.
  pose proof (ZoneAdd_room PublicIP now p update v s2 _ Ht2 Hlive z ADD_FUEL 0 0 root_bounds Hz2 ltac:(unfold ADD_FUEL; lia)) as HR.
  rewrite Iid, Id, (agree_ids _ _ _ Hag) in HR. cbv zeta in HR.
  rewrite E. simpl. intros Eq.
  split_and!.
  - intros ->. destruct r2.
    + injection Eq as _ <- <- _. left. rewrite <- Ep. split; [done|]. split; [intros H; by apply A6 in H|].
      destruct (A5 eq_refl) as [_ Ec]. unfold deref. rewrite Ec. done.
    + injection Eq as -> _ <- _ _. right. split; [done|]. by apply A7.
  - intros ->. destruct r2; [done|]. by injection Eq as _ _ <- _ _.
  - intros _ _ Hnew Hroom. set (b := bin_for z (XOR me id)) in *. destruct (HR Hnew Hroom) as (r3 & z3 & s4 & E3 & Hr3). rewrite E in E3.
    injection E3 as <- -> <- _ _.
    assert (r = r2) as -> by (by destruct r2; injection Eq).
    rewrite Hr3, addable_limits; rewrite ?Iid, ?Iip; try done.
    2: { pose proof (bin_for_entries z (XOR me id)) as Hsub. rewrite (agree_ids (m_entries b) s); [|by eapply agree_sub].
         intros Hin. apply Hnew. apply list_elem_of_fmap in Hin as (q & -> & Hq). apply list_elem_of_fmap_2. by apply Hsub. }
    unfold limits_allow. rewrite (agree_ips _ _ _ Hag), (agree_ips (m_entries b) s); [done|].
    eapply agree_sub; [exact Hag|]. apply bin_for_entries.
Qed.

(** ** Look-up by identity *)

Lemma GetContactById_spec s z id : forall lvl i, zone_bounds lvl i -> zone_ok s lvl i z ->
  wf_uint128 id -> Z.shiftr (value (XOR me id)) (128 - lvl) = i ->
  match GetContactById me z id s with
  | Some p => p ∈ entries z /\ id_of s p = id
  | None => id ∉ ids s (entries z)
  end.
Proof.
  induction z as [zd b|zd z0 IH0 z1 IH1]; intros lvl i Hb Hz Hid Hpath.
  - destruct Hz as (_ & Hbin & _). apply (find_id_spec me); [done|apply Hbin].
  - pose proof Hz as ((Hd & _) & Hlt & H0 & H1). pose proof Hb as [Hl Hi]. simpl. rewrite Hd.
    pose proof (wf_XOR me id Hme Hid) as Hw.
    assert (Z.shiftr (value (XOR me id)) (128 - (lvl + 1)) =
            2 * i + (if GetBitNumber (XOR me id) lvl =? 0 then 0 else 1)) as Hbit.
    { set (c := CContact_new id 0 0 0 0 CKadUDPKey_zero false me 0).
      set (s1 := mkKad {[ 0 := c ]} 1 [] [] 0).
      assert (deref s1 0 = c) as Hdr by (unfold deref; simpl; by rewrite lookup_singleton_eq).
      assert (live me s1 0) as Hlive.
      { exists c. split; [apply lookup_singleton_eq|]. split; [done|done|reflexivity]. }
      pose proof (in_zone_bit s1 lvl i 0 ltac:(lia) Hlive) as H. unfold in_zone in H. rewrite Hdr in H.
      by apply H. }
    assert (forall j z', j = 2 * i \/ j = 2 * i + 1 -> zone_ok s (lvl + 1) j z' ->
      (forall p, p ∈ entries z' -> id_of s p = id -> j = Z.shiftr (value (XOR me id)) (128 - (lvl + 1)))) as Hin.
    { intros j z' _ Hz' p Hp E. apply zone_entries in Hz'; [|lia]. rewrite Forall_forall in Hz'.
      destruct (Hz' p Hp) as [Hlp Hzp]. unfold in_zone in Hzp. rewrite <- Hzp.
      destruct (live_distance s p Hlp) as [_ ->]. by rewrite E. }
    destruct (_ =? 0) eqn:E0; rewrite ?E0 in Hbit.
    + rewrite Z.add_0_r in Hbit. specialize (IH0 (lvl + 1) (2 * i)).
      destruct (GetContactById me z0 id s) as [p|];
        [destruct IH0 as [Hp E]; [by eapply zone_bounds_sub; eauto|done..|]; split; [apply elem_of_app; by left|done]|].
      unfold ids. rewrite map_app, elem_of_app. intros [Hin0|Hin1];
        [by apply IH0; [eapply zone_bounds_sub; eauto|..]|].
      apply list_elem_of_fmap in Hin1 as (q & -> & Hq).
      pose proof (Hin (2 * i + 1) z1 ltac:(lia) H1 q Hq eq_refl). lia.
    + specialize (IH1 (lvl + 1) (2 * i + 1)).
      destruct (GetContactById me z1 id s) as [p|];
        [destruct IH1 as [Hp E]; [by eapply zone_bounds_sub; eauto|done..|]; split; [apply elem_of_app; by right|done]|].
      unfold ids. rewrite map_app, elem_of_app. intros [Hin0|Hin1];
        [|by apply IH1; [eapply zone_bounds_sub; eauto|..]].
      apply list_elem_of_fmap in Hin0 as (q & -> & Hq).
      pose proof (Hin (2 * i) z0 ltac:(lia) H0 q Hq eq_refl). lia.
Qed.

Lemma table_lookup s z id : table_ok s z -> wf_uint128 id ->
  match GetContactById me z id s with
  | Some p => p ∈ entries z /\ id_of s p = id
  | None => id ∉ ids s (entries z)
  end.
Proof.
  intros [Hz _ _] Hid. apply (GetContactById_spec s z id 0 0); [|done|done|].
  - split; [lia|]. change (2 ^ 0) with 1. lia.
  - rewrite Z.shiftr_div_pow2 by lia. apply Z.div_small. apply (value_range (XOR me id)). by apply wf_XOR.
Qed.

Lemma VerifyContact_spec now z id ip s sk :
  table_ok s z -> safekad_inv now sk -> wf_uint128 id ->
  exists r s' sk', VerifyContact me node_protection now z id ip s sk = (r, s', sk') /\
    tweaks s s' /\ safekad_inv now sk'.
Proof.
  intros Ht Hi Hid. unfold VerifyContact.
  destruct (GetContactById me z id s) as [p|]; [|do 3 eexists; split; [reflexivity|]; split; [apply tweaks_refl|done]].
  destruct (negb _); [do 3 eexists; split; [reflexivity|]; split; [apply tweaks_refl|done]|].
  do 3 eexists. split; [reflexivity|]. split.
  - destruct (m_ipVerified _); [apply tweaks_refl|apply tweaks_update, keeps_verified].
  - destruct node_protection; [|done].
    match goal with |- context [TrackNode ip ?po id true now sk] =>
      pose proof (sk_exec_inv now (CallTrack ip po id true) sk Hi) as H; simpl in H;
      by destruct (TrackNode ip po id true now sk) as [[? ?] sk'] end.
Qed.

(** ** Leaves *)

Fixpoint leaves (z : CRoutingZone) : list (ZoneData * CRoutingBin) :=
  match z with
  | ZLeaf zd b => [(zd, b)]
  | ZNode _ z0 z1 => leaves z0 ++ leaves z1
  end.

Record leaf_ok (s : KadState) (l : ZoneData * CRoutingBin) : Prop := {
  lf_level : 0 <= m_level l.1 <= 127;
  lf_index : 0 <= value (m_zoneIndex l.1) < 2 ^ m_level l.1;
  lf_timer : m_registered l.1 = true;
  lf_size : Z.of_nat (length (m_entries l.2)) <= K;
  lf_limits : limits 2 (ips s (m_entries l.2));
  lf_prefix : Forall (fun p => Z.shiftr (value (XOR me (id_of s p))) (128 - m_level l.1) =
                               value (m_zoneIndex l.1)) (m_entries l.2)
}.

Lemma zone_leaves s z : forall lvl i, zone_bounds lvl i -> zone_ok s lvl i z -> Forall (leaf_ok s) (leaves z).
Proof.
  induction z as [zd b|zd z0 IH0 z1 IH1]; intros lvl i Hb; simpl.
  - intros ((E1 & E2 & E3 & E4) & Hbin & Hz). constructor; [|constructor]. destruct Hb as [Hl Hi].
    split; simpl; rewrite ?E1, ?E3; try done; try apply Hbin.
    apply Forall_forall. intros p Hp. rewrite Forall_forall in Hz. specialize (Hz p Hp). unfold in_zone in Hz.
    pose proof (bin_live me s b Hbin) as Hlive. rewrite Forall_forall in Hlive.
    by rewrite <- (proj2 (live_distance s p (Hlive p Hp))).
  - intros (_ & Hlt & H0 & H1). apply Forall_app. split.
    + apply (IH0 (lvl + 1) (2 * i)); [by eapply zone_bounds_sub; eauto|done].
    + apply (IH1 (lvl + 1) (2 * i + 1)); [by eapply zone_bounds_sub; eauto|done].
Qed.

Lemma table_leaves s z : table_ok s z -> Forall (leaf_ok s) (leaves z).
Proof.
  intros [Hz _ _]. apply (zone_leaves s z 0 0); [|done]. split; [lia|]. change (2 ^ 0) with 1. lia.
Qed.

Lemma zone_leaves_data s z : forall lvl i, zone_bounds lvl i -> zone_ok s lvl i z ->
  Forall (fun l => 0 <= m_level l.1 <= 127 /\ wf_uint128 (m_zoneIndex l.1) /\
                   0 <= value (m_zoneIndex l.1) < 2 ^ m_level l.1) (leaves z).
Proof.
  induction z as [zd b|zd z0 IH0 z1 IH1]; intros lvl i Hb; simpl.
  - intros ((E1 & E2 & E3 & _) & _). destruct Hb. constructor; [|constructor]. simpl. by rewrite E1, E3.
  - intros (_ & Hlt & H0 & H1). apply Forall_app. split.
    + apply (IH0 (lvl + 1) (2 * i)); [by eapply zone_bounds_sub; eauto|done].
    + apply (IH1 (lvl + 1) (2 * i + 1)); [by eapply zone_bounds_sub; eauto|done].
Qed.

Lemma table_leaves_data s z : table_ok s z ->
  Forall (fun l => 0 <= m_level l.1 <= 127 /\ wf_uint128 (m_zoneIndex l.1) /\
                   0 <= value (m_zoneIndex l.1) < 2 ^ m_level l.1) (leaves z).
Proof.
  intros [Hz _ _]. apply (zone_leaves_data s z 0 0); [|done]. split; [lia|]. change (2 ^ 0) with 1. lia.
Qed.

(** ** Calls *)

Context (PublicIP : Z) (IsFiltered : Z -> bool).

Inductive kad_call :=
| CallAdd (id : CUInt128) (ip port tport version : Z) (key : CKadUDPKey)
    (ipVerified update fromHello : bool)
| CallAddUnfiltered (id : CUInt128) (ip port tport version : Z) (key : CKadUDPKey)
    (ipVerified update fromHello : bool)
| CallVerify (id : CUInt128) (ip : Z)
| CallSetAllVerified
| CallClosest (maxType : Z) (target distance : CUInt128) (maxRequired : Z) (inUse : bool)
| CallRelease (p : Z)
| CallProcess (lastContact : Z) (t : ProcessState)
| CallConsolidate.

(** The table, its contacts and the identity protection. *)
Definition KadTable : Type := CRoutingZone * KadState * CSafeKad.

Definition kad_exec (now : Z) (c : kad_call) (w : KadTable) : option KadTable :=
  let '(z, s, sk) := w in
  match c with
  | CallAdd id ip port tport version key v u h =>
      '(_, _, z, s, sk) ← AddFiltered me PublicIP IsFiltered node_protection now z id ip port tport
        version key v u h s sk; Some (z, s, sk)
  | CallAddUnfiltered id ip port tport version key v u h =>
      '(_, _, z, s, sk) ← AddUnfiltered me PublicIP node_protection now z id ip port tport
        version key v u h s sk; Some (z, s, sk)
  | CallVerify id ip =>
      let '(_, s, sk) := VerifyContact me node_protection now z id ip s sk in Some (z, s, sk)
  | CallSetAllVerified => Some (z, SetAllContactsVerified z s, sk)
  | CallClosest maxType target distance n inUse =>
      Some (z, (GetClosestTo z maxType target distance n [] true inUse s).2, sk)
  | CallRelease p => Some (z, update_contact p DecUse s, sk)
  | CallProcess last t =>
      let '(z, _, s, sk) := ProcessZones node_protection now last z t s sk in Some (z, s, sk)
  | CallConsolidate => let '(_, z, s) := Consolidate now z s in Some (z, s, sk)
  end.

(** The arguments are of their C++ types. *)
Definition call_ok (c : kad_call) : Prop :=
  match c with
  | CallAdd id ip _ _ _ _ _ _ _ | CallAddUnfiltered id ip _ _ _ _ _ _ _ =>
      wf_uint128 id /\ in_width 32 ip
  | CallVerify id _ => wf_uint128 id
  | _ => True
  end.

Definition kad_init (now : Z) : KadTable :=
  (CRoutingZone_new now, mkKad ∅ 0 [] [] 0, CSafeKad_init).

(** States reached from the empty table by calls whose times do not go back. *)
Inductive kad_reach : Z -> KadTable -> Prop :=
| kad_reach_init now : 0 <= now -> kad_reach now (kad_init now)
| kad_reach_step T now c w w' :
    kad_reach T w -> T <= now -> call_ok c -> kad_exec now c w = Some w' -> kad_reach now w'.

Definition world_ok (T : Z) (w : KadTable) : Prop :=
  let '(z, s, sk) := w in table_ok s z /\ fails s = 0 /\ safekad_inv T sk.

Lemma init_ok now : 0 <= now -> world_ok now (kad_init now).
Proof.
  intros Hn. split_and!; [|done|eapply inv_mono; [exact Hn|apply inv_init]]. split.
  - split_and!; [|apply bin_ok_new|constructor].
    split_and!; try done. apply wf_of_uint32. split; done.
  - split; try done.
    + split; [constructor|done].
    + split; [constructor|done].
    + intros ip H. inversion H.
  - intros p [c Hc]. simpl in Hc. by rewrite lookup_empty in Hc.
Qed.

Lemma offered_world now z s r z' s' sk' : fails s = 0 -> offered now z s r z' s' sk' ->
  world_ok now (z', s', sk').
Proof. intros Hf [H1 H2 _ _ _ H3]. split_and!; [done|congruence|done]. Qed.

Lemma tweaks_world now z s s' sk : table_ok s z -> fails s = 0 -> safekad_inv now sk -> tweaks s s' ->
  world_ok now (z, s', sk).
Proof.
  intros Ht Hf Hi Hw. split_and!; [by eapply tweaks_table| |done]. by rewrite (tw_fails _ _ Hw).
Qed.

Lemma table_shrinks s s' z z' : table_ok s z -> zone_ok s' 0 0 z' -> tracked s' (entries z') ->
  shrinks (entries z) (entries z') s s' -> table_ok s' z'.
Proof.
  intros Ht Hz Htr [_ Hn _ Hl _]. split; [done|done|]. intros p Hp. apply Hl in Hp as [Hp _].
  rewrite Hn. by apply Ht.
Qed.

Lemma kad_exec_ok T now c w : world_ok T w -> T <= now -> call_ok c ->
  exists w', kad_exec now c w = Some w' /\ world_ok now w'.
Proof.
  destruct w as [[z s] sk]. intros (Ht & Hf & Hi) HT Hc. apply (inv_mono T now) in Hi; [|done].
  assert (world_ok now (z, s, sk)) as Hsame by done.
  assert (forall id ip port tport version key v u h, wf_uint128 id /\ in_width 32 ip -> exists w',
    ('(_, _, z, s, sk) ← AddUnfiltered me PublicIP node_protection now z id ip port tport
        version key v u h s sk; Some (z, s, sk)) = Some w' /\ world_ok now w') as Hadd.
  { intros id ip port tport version key v u h [Hid Hip].
    destruct (AddUnfiltered_spec PublicIP now z id ip port tport version key v u h s sk)
      as (r & v' & z' & s' & sk' & -> & HO); [done..|]. simpl. eexists. split; [reflexivity|].
    by eapply offered_world. }
  destruct c; simpl in Hc |- *.
  - unfold AddFiltered. destruct (IsGoodIPPort _ _); [|by eexists].
    destruct (_ && _); [by apply Hadd|by eexists].
  - by apply Hadd.
  - destruct (VerifyContact_spec now z id ip s sk) as (r & s' & sk' & -> & Hw & Hi'); [done..|].
    eexists. split; [reflexivity|]. by eapply tweaks_world.
  - eexists. split; [reflexivity|]. eapply tweaks_world; try done. apply SetAllContactsVerified_tweaks.
  - eexists. split; [reflexivity|]. eapply tweaks_world; try done. apply GetClosestTo_tweaks.
  - eexists. split; [reflexivity|]. eapply tweaks_world; try done. apply tweaks_update, keeps_dec.
  - pose proof (table_NoDup s z Ht) as Hnd. pose proof Ht as [Hz Htr _].
    destruct (ProcessZones_spec now lastContact z 0 0 [] t s sk) as (z' & t' & s' & sk' & -> & [A1 A2 A3 A4 A5 A6 A7]);
      rewrite ?app_nil_r; try done.
    rewrite app_nil_r in A2. eexists. split; [reflexivity|]. split_and!; [by eapply table_shrinks| |done].
    by rewrite (sk_fails _ _ _ _ A3).
  - pose proof Ht as [Hz Htr _].
    destruct (Consolidate_spec now z 0 0 [] s) as (n & z' & s' & -> & _ & [A1 A2 A3 _]);
      rewrite ?app_nil_r; try done.
    rewrite app_nil_r in A2. eexists. split; [reflexivity|]. split_and!; [|by rewrite (sh_fails _ _ A3)|done].
    split; [done|done|]. rewrite (sh_contacts _ _ A3), (sh_next _ _ A3). apply Ht.
Qed.

Lemma kad_reach_ok T w : kad_reach T w -> world_ok T w.
Proof.
  induction 1 as [now Hn|T now c w w' _ IH HT Hc E]; [by apply init_ok|].
  destruct (kad_exec_ok T now c w IH HT Hc) as (w2 & E2 & H2). congruence.
Qed.

Fixpoint kad_run (now : Z) (l : list kad_call) (w : KadTable) : option KadTable :=
  match l with
  | [] => Some w
  | c :: l => match kad_exec now c w with Some w => kad_run now l w | None => None end
  end.

Lemma kad_run_reach now l : forall T w w', kad_reach T w -> T <= now -> Forall call_ok l ->
  kad_run now l w = Some w' -> exists T', T' <= now /\ kad_reach T' w'.
Proof.
  induction l as [|c l IH]; intros T w w' Hr HT Hl E; simpl in E; [injection E as <-; eauto|].
  apply Forall_cons_1 in Hl as [Hc Hl]. destruct (kad_exec now c w) as [w1|] eqn:E1; [|done].
  eapply (IH now); [|lia|done|exact E]. by eapply kad_reach_step.
Qed.

End Table.

(** ** A sample table: eleven contacts, the root split once *)

Definition sample_contact (n : Z) : kad_call :=
  CallAddUnfiltered (mkUInt128 n 0 0 (n * 2 ^ 28)) (16777216 * (n + 20) + 7) 4672 4662 8
    CKadUDPKey_zero true false true.

Definition sample_me : CUInt128 := of_uint32 0.

Definition sample_table : KadTable :=
  default (kad_init 1000)
    (kad_run sample_me false 0 (fun _ => false) 1000 (map sample_contact (seqZ 1 11)) (kad_init 1000)).

Lemma sample_call_ok n : In n (seqZ 1 11) -> call_ok (sample_contact n).
Proof.
  intros Hn. apply list_elem_of_In, elem_of_seqZ in Hn. simpl.
  split; [apply wf_mk; unfold in_width; norm_pow; lia|unfold in_width; norm_pow; lia].
Qed.

Lemma sample_reach : exists T, T <= 1000 /\ kad_reach sample_me false 0 (fun _ => false) T sample_table.
Proof.
  apply (kad_run_reach sample_me false 0 (fun _ => false) 1000
    (map sample_contact (seqZ 1 11)) 1000 (kad_init 1000)).
  - by apply kad_reach_init.
  - lia.
  - apply Forall_fmap, Forall_forall. intros n Hn. by apply sample_call_ok, list_elem_of_In.
  - unfold sample_table. destruct (kad_run _ _ _ _ _ _ _) as [w|] eqn:E; [done|].
    assert (is_Some (kad_run sample_me false 0 (fun _ => false) 1000 (map sample_contact (seqZ 1 11)) (kad_init 1000)))
      as [w Hw] by (vm_compute; eauto). congruence.
Qed.

(** ** Properties *)

(** C1: In every reachable state of the Kad routing table the tracking maps hold exactly the
    addresses and /24 networks of its contacts and no inconsistency was ever hit; every address
    and identity occurs once, no /24 more than ten times (LAN aside); and every leaf is
    registered for its timer, holds at most ten contacts, at most two of a /24 (LAN aside), all
    live and all in the leaf's part of the identifier space. *)
Theorem kad_table_invariant (me : CUInt128) (node_protection : bool) (PublicIP : Z)
  (IsFiltered : Z -> bool) (T : Z) (z : CRoutingZone) (s : KadState) (sk : CSafeKad)
  (Hme : wf_uint128 me)
  (Hr : kad_reach me node_protection PublicIP IsFiltered T (z, s, sk)) :
  fails s = 0 /\
  NoDup (ids s (entries z)) /\ NoDup (ips s (entries z)) /\
  (forall ip, count_of ip (s_globalContactIPs s) = cnt ip (ips s (entries z))) /\
  (forall net, count_of net (s_globalContactSubnets s) = cnt net (map subnet24 (ips s (entries z)))) /\
  limits MAX_CONTACTS_SUBNET (ips s (entries z)) /\
  Forall (live me s) (entries z) /\ Forall (leaf_ok me s) (leaves z) /\
  (forall p, is_Some (contacts s !! p) -> p < next_contact s).
Proof.
  pose proof (kad_reach_ok me Hme _ _ _ _ _ Hr) as (Ht & Hf & _). pose proof Ht as [Hz Htr Hfr].
  destruct Htr as [T1 T2 T3 T4 T5]. split_and!; try done.
  - by eapply (zone_ids_NoDup me s z 0 0).
  - by apply cnt_le1_NoDup.
  - intros ip. by apply counts_count_of.
  - intros net. by apply counts_count_of.
  - apply Forall_forall. intros p. by apply (table_live me s z).
  - by apply table_leaves.
Qed.

Lemma kad_table_invariant_witness :
  length (leaves sample_table.1.1) = 2%nat /\ fails sample_table.1.2 = 0.
Proof.
  split; [by vm_compute|]. destruct sample_reach as (T & _ & Hr). destruct sample_table as [[z s] sk].
  exact (proj1 (kad_table_invariant sample_me false 0 (fun _ => false) T z s sk
    (wf_of_uint32 0 ltac:(by split)) Hr)).
Defined.

(** Looking up an identity descends to the leaf of its distance and finds the contact
    exactly when the table holds one with that identity. *)
Theorem kad_lookup (me : CUInt128) (node_protection : bool) (PublicIP : Z)
  (IsFiltered : Z -> bool) (T : Z) (z : CRoutingZone) (s : KadState) (sk : CSafeKad) (id : CUInt128) (p : Z)
  (Hme : wf_uint128 me) (Hid : wf_uint128 id)
  (Hr : kad_reach me node_protection PublicIP IsFiltered T (z, s, sk)) :
  GetContactById me z id s = Some p <-> p ∈ entries z /\ id_of s p = id.
Proof.
  pose proof (kad_reach_ok me Hme _ _ _ _ _ Hr) as (Ht & _ & _).
  pose proof (table_lookup me Hme s z id Ht Hid) as H. split.
  - intros E. by rewrite E in H.
  - intros [Hp E]. destruct (GetContactById me z id s) as [q|].
    + destruct H as [Hq Eq]. f_equal. pose proof Ht as [Hz _ _].
      pose proof (zone_ids_NoDup me s z 0 0 ltac:(lia) Hz) as Hn.
      pose proof (find_id_unique me s) as Hu.
      assert (Forall (live me s) (entries z)) as Hl by (apply Forall_forall; intros x; by apply table_live).
      pose proof (Hu q (entries z) Hl Hn Hq) as H1. pose proof (Hu p (entries z) Hl Hn Hp) as H2.
      rewrite Eq, <- E in H1. congruence.
    + exfalso. apply H. rewrite <- E. by apply list_elem_of_fmap_2.
Qed.

Lemma kad_lookup_witness :
  GetContactById sample_me sample_table.1.1 (mkUInt128 9 0 0 (9 * 2 ^ 28)) sample_table.1.2 = Some 8 /\
  8 ∈ entries sample_table.1.1.
Proof.
  split; [by vm_compute|]. destruct sample_reach as (T & _ & Hr).
  assert (GetContactById sample_me sample_table.1.1 (mkUInt128 9 0 0 (9 * 2 ^ 28)) sample_table.1.2 = Some 8)
    as E by by vm_compute. destruct sample_table as [[z s] sk].
  exact (proj1 (proj1 (kad_lookup sample_me false 0 (fun _ => false) T z s sk (mkUInt128 9 0 0 (9 * 2 ^ 28)) 8
    (wf_of_uint32 0 ltac:(by split)) ltac:(apply wf_mk; unfold in_width; norm_pow; lia) Hr) E)).
Defined.

(** C2: An offered contact always gets an answer (the descent and its splits end), and the answer
    tells what became of it.  Yes means that the table has the contact: either it was unknown and is
    now the one new entry, with exactly the identity, address, ports, version, key and flags of the
    offer, or its identity was in the table before and an update was asked for.  No means that the
    table has the contacts it had.  An unknown contact that node protection does not turn down, and
    whose bin has room, is answered yes exactly when the address and /24 limits allow it.  No entry
    changes its identity, no two share one, no other contact is freed, and nothing stays allocated
    outside the table that was not before. *)
Theorem kad_offer (me : CUInt128) (node_protection : bool) (PublicIP : Z)
  (IsFiltered : Z -> bool) (T now : Z) (z : CRoutingZone) (s : KadState) (sk : CSafeKad)
  (id : CUInt128) (ip port tport version : Z) (key : CKadUDPKey) (ipVerified update fromHello : bool)
  (Hme : wf_uint128 me) (Hid : wf_uint128 id) (Hip : in_width 32 ip) (HT : T <= now)
  (Hr : kad_reach me node_protection PublicIP IsFiltered T (z, s, sk)) :
  exists r v z' s' sk',
    AddUnfiltered me PublicIP node_protection now z id ip port tport version key ipVerified update
      fromHello s sk = Some (r, v, z', s', sk') /\
    (r = true ->
      Permutation (entries z') (next_contact s :: entries z) /\ id ∉ ids s (entries z) /\
        deref s' (next_contact s) = offered_contact me id ip port tport version key ipVerified fromHello now \/
      Permutation (entries z') (entries z) /\ update = true /\ id ∈ ids s (entries z)) /\
    (r = false -> Permutation (entries z') (entries z)) /\
    (id <> me -> turned_down node_protection ip port id version ipVerified now sk = false ->
     id ∉ ids s (entries z) -> Z.of_nat (length (m_entries (bin_for z (XOR me id)))) < K ->
     (r = true <-> limits_allow s z (bin_for z (XOR me id)) ip)) /\
    NoDup (ids s' (entries z')) /\
    (forall p, p ∈ entries z -> id_of s' p = id_of s p) /\
    (forall p, is_Some (contacts s' !! p) <->
       is_Some (contacts s !! p) \/ (p = next_contact s /\ p ∈ entries z')) /\
    (owned s z -> owned s' z').
Proof.
  pose proof (kad_reach_ok me Hme _ _ _ _ _ Hr) as (Ht & _ & Hi).
  destruct (AddUnfiltered_spec me Hme node_protection PublicIP now z id ip port tport version key ipVerified
    update fromHello s sk) as (r & v & z' & s' & sk' & E & [O1 O2 O3 O4 O5 O6]);
    [done|by eapply inv_mono|done|done|].
  destruct (AddUnfiltered_answer me Hme node_protection PublicIP now z id ip port tport version key ipVerified
    update fromHello s sk r v z' s' sk' Ht Hid Hip E) as (A1 & A2 & A3).
  do 5 eexists. split; [exact E|]. split_and!; try done.
  - eapply (zone_ids_NoDup me s' z' 0 0); [done|apply O1].
  - intros Ho p Hp. apply O4 in Hp as [Hp|[_ Hp]]; [|done]. apply Ho in Hp.
    destruct O3 as [O3|[_ O3]]; rewrite O3; [done|by right].
Qed.

(** A twelfth contact is added; a thirteenth with the address of the first is not. *)
Lemma kad_offer_witness :
  let id := mkUInt128 12 0 0 (12 * 2 ^ 28) in
  let offer ip := AddUnfiltered sample_me 0 false 1000 sample_table.1.1 id ip 4672 4662 8
    CKadUDPKey_zero true false true sample_table.1.2 sample_table.2 in
  (exists v z' s' sk', offer (16777216 * 50 + 9) = Some (true, v, z', s', sk') /\
     id_of s' (next_contact sample_table.1.2) = id /\ next_contact sample_table.1.2 ∈ entries z') /\
  (exists v z' s' sk', offer (16777216 * 21 + 7) = Some (false, v, z', s', sk') /\
     Permutation (entries z') (entries sample_table.1.1)).
Proof.
  intros id offer. unfold offer. clear offer. destruct sample_reach as (T & HT & Hr).
  assert (id ∉ ids sample_table.1.2 (entries sample_table.1.1)) as Hnew by (apply (bool_decide_unpack _); vm_compute; exact I).
  assert (Z.of_nat (length (m_entries (bin_for sample_table.1.1 (XOR sample_me id)))) < K) as Hroom by by vm_compute.
  assert (limits_allow sample_table.1.2 sample_table.1.1 (bin_for sample_table.1.1 (XOR sample_me id)) (16777216 * 50 + 9)) as Hyes
    by (split; [|split; left; by vm_compute]; apply (bool_decide_unpack _); vm_compute; exact I).
  assert (16777216 * 21 + 7 ∈ ips sample_table.1.2 (entries sample_table.1.1)) as Hno
    by (apply (bool_decide_unpack _); vm_compute; exact I).
  destruct sample_table as [[z s] sk]. cbn [fst snd] in *.
  assert (wf_uint128 id) as Hid by (apply wf_mk; unfold in_width; norm_pow; lia).
  assert (forall ip, in_width 32 ip -> _) as Hoffer by exact (fun ip Hip => kad_offer sample_me false 0
    (fun _ => false) T 1000 z s sk id ip 4672 4662 8 CKadUDPKey_zero true false true
    (wf_of_uint32 0 ltac:(by split)) Hid Hip HT Hr).
  split.
  - destruct (Hoffer (16777216 * 50 + 9) ltac:(unfold in_width; norm_pow; lia))
      as (r & v & z' & s' & sk' & E & H1 & _ & H3 & _).
    destruct (H3 ltac:(done) eq_refl Hnew Hroom) as [_ H]. specialize (H Hyes). subst r.
    do 4 eexists. split; [exact E|]. destruct (H1 eq_refl) as [(P & _ & D)|(_ & ? & _)]; [|done].
    split; [unfold id_of; by rewrite D|]. rewrite P. by left.
  - destruct (Hoffer (16777216 * 21 + 7) ltac:(unfold in_width; norm_pow; lia))
      as (r & v & z' & s' & sk' & E & _ & H2 & H3 & _).
    destruct r; [|by do 4 eexists; split; [exact E|apply H2]].
    destruct (proj1 (H3 ltac:(done) eq_refl Hnew Hroom) eq_refl) as [H _]. done.
Defined.

(** ** Updates of known contacts *)

(** Address, ports, version, key and flags of two contacts agree. *)
Definition same_peer (c c' : CContact) : Prop :=
  m_ip c' = m_ip c /\ m_tcpPort c' = m_tcpPort c /\ m_udpPort c' = m_udpPort c /\
  m_version c' = m_version c /\ m_udpKey c' = m_udpKey c /\ m_ipVerified c' = m_ipVerified c.

Lemma UpdateType_peer now c : same_peer c (UpdateType now c).
Proof. unfold UpdateType. by repeat case_cmp. Qed.

Definition legacy (c : CContact) : bool :=
  (m_version c >=? 1) && (m_version c <? 6) && m_receivedHelloPacket c.

Definition key_mismatch (PublicIP : Z) (cu c : CContact) : bool :=
  negb (sender_key PublicIP cu =? 0) && negb (sender_key PublicIP cu =? sender_key PublicIP c).

Lemma SetAlive_state me now s b p : bin_ok me s b -> p ∈ m_entries b ->
  exists b', SetAlive now b p s = (b', update_contact p (UpdateType now) s).
Proof. intros Hb Hp. destruct (SetAlive_spec me now s b p Hb Hp) as (b' & E & _). eauto. Qed.

(** The contact after an accepted full update. *)
Lemma full_update now cu c newIP s : m_ip c = newIP ->
  let c' := UpdateType now (overwrite c (SetIPAddress newIP (deref s cu))) in
  m_ip c' = newIP /\ (m_ip (deref s cu) <> newIP -> m_ipVerified c' = m_ipVerified c) /\
  m_version c' = m_version c /\ m_udpKey c' = m_udpKey c.
Proof.
  intros Hip. simpl. set (c1 := SetIPAddress newIP (deref s cu)).
  destruct (UpdateType_peer now (overwrite c c1)) as (-> & _ & _ & -> & -> & ->).
  assert (m_ip c1 = newIP) as Hc1 by apply SetIPAddress_spec.
  unfold overwrite. split_and!; try (by destruct (negb _)).
  intros Hne. assert (m_ipVerified c1 = false) as Hv.
  { unfold c1, SetIPAddress. by destruct (Z.eqb_spec (m_ip (deref s cu)) newIP). }
  simpl. by rewrite Hv.
Qed.

(** The state after an accepted full update. *)
Lemma accept_update me now s s1 b cu c : bin_ok me s1 b -> cu ∈ m_entries b ->
  deref s1 cu = SetIPAddress (m_ip c) (deref s cu) ->
  exists o b' s', (let s := update_contact cu (overwrite c) s1 in
    let o := m_ipVerified (deref s cu) in
    let '(b, s) := SetAlive now b cu s in
    let s := if m_receivedHelloPacket c then update_contact cu SetReceivedHelloPacket s else s in
    (true, o, b, s)) = (true, o, b', s') /\
    m_ip (deref s' cu) = m_ip c /\
    (m_ip (deref s cu) <> m_ip c -> m_ipVerified (deref s' cu) = m_ipVerified c).
Proof.
  intros B1 Hcu D1.
  assert (live me s1 cu) as Hl1 by (pose proof (bin_live me s1 b B1) as H; rewrite Forall_forall in H; auto).
  cbv zeta. set (s2 := update_contact cu (overwrite c) s1).
  assert (bin_ok me s2 b) as B2 by (apply keeps_bin_ok; [apply keeps_overwrite|done]).
  destruct (SetAlive_state me now s2 b cu B2 Hcu) as (b3 & ->).
  assert (live me s2 cu) as Hl2 by (apply keeps_live; [apply keeps_overwrite|done]).
  set (s3 := update_contact cu (UpdateType now) s2).
  assert (live me s3 cu) as Hl3 by (apply keeps_live; [apply keeps_UpdateType|done]).
  assert (deref s3 cu = UpdateType now (overwrite c (SetIPAddress (m_ip c) (deref s cu)))) as D3.
  { unfold s3, s2. by rewrite !(deref_update_eq me), D1. }
  destruct (full_update now cu c (m_ip c) s eq_refl) as (F1 & F2 & _). rewrite <- D3 in F1, F2.
  do 3 eexists. split; [done|].
  destruct (m_receivedHelloPacket c); [rewrite (deref_update_eq me) by done|]; done.
Qed.

(** C3: A packet about a known contact changes at most that contact and never its identity.
    Without a request to update, or when the stored sender key does not match, it changes
    nothing; a legacy contact that has said hello keeps its address, ports, version and key; an
    accepted update has the packet's address and at least the stored version; and a new address
    is verified only if the packet is. *)
Theorem kad_update_guard (me : CUInt128) (PublicIP now : Z) (b b' : CRoutingBin) (cu contact : Z)
  (update out u o : bool) (s s' : KadState) (rest : list Z)
  (Hb : bin_ok me s b) (Hcu : cu ∈ m_entries b) (Hn : NoDup (m_entries b ++ rest))
  (Hc : live me s contact) (Hne : contact <> cu) (Ht : tracked s (m_entries b ++ rest))
  (E : update_entry PublicIP now b cu contact update out s = (u, o, b', s')) :
  Permutation (m_entries b') (m_entries b) /\
  (forall q, q <> cu -> contacts s' !! q = contacts s !! q) /\
  id_of s' cu = id_of s cu /\
  (update = false \/ key_mismatch PublicIP (deref s cu) (deref s contact) = true ->
     u = false /\ s' = s /\ b' = b) /\
  (legacy (deref s cu) = true -> same_peer (deref s cu) (deref s' cu)) /\
  (u = true -> m_ip (deref s' cu) = m_ip (deref s contact) /\
               m_version (deref s cu) <= m_version (deref s contact)) /\
  (ip_of s' cu <> ip_of s cu -> m_ipVerified (deref s' cu) = true ->
     ip_of s' cu = m_ip (deref s contact) /\ m_ipVerified (deref s contact) = true).
Proof.
  destruct (update_entry_step me PublicIP now b cu contact update out s rest) as (u2 & o2 & b2 & s2 & E2 & HB);
    [done..|].
  rewrite E in E2. injection E2 as <- <- <- <-. destruct HB as (_ & HP & _ & [W1 _ _ _ W5]).
  split; [done|]. split; [intros q Hq; apply W1; by intros ->%list_elem_of_singleton|].
  split; [apply W5|]. clear W1 W5 HP. unfold update_entry in E.
  fold (key_mismatch PublicIP (deref s cu) (deref s contact)) (legacy (deref s cu)) in E.
  assert (live me s cu) as Hl by (pose proof (bin_live me s b Hb) as H; rewrite Forall_forall in H; auto).
  destruct update; simpl in E.
  2: { injection E as <- <- <- <-. by split_and!. }
  destruct (key_mismatch _ _ _) eqn:Hk.
  { injection E as <- <- <- <-. by split_and!. }
  split; [by intros [?|?]|]. destruct (legacy (deref s cu)) eqn:Hleg.
  - destruct (_ && _) eqn:Hsame in E.
    + destruct (SetAlive_state me now s b cu Hb Hcu) as (b3 & E3). rewrite E3 in E.
      injection E as <- <- <- <-. rewrite (deref_update_eq me) by done.
      pose proof (UpdateType_peer now (deref s cu)) as Hpeer. pose proof Hpeer as (Pip & _).
      repeat (apply andb_prop in Hsame as [Hsame ?]).
      repeat match goal with H : (_ =? _) = true |- _ => apply Z.eqb_eq in H end.
      split_and!; [done|split; [congruence|lia]|].
      intros Hip _. exfalso. apply Hip. unfold ip_of. by rewrite (deref_update_eq me).
    + injection E as <- <- <- <-. by split_and!.
  - destruct (ChangeContactIPAddress_spec me s b cu (m_ip (deref s contact)) rest)
      as (r & s1 & E1 & B1 & T1 & _ & _ & A1 & C1); [done..|by apply (live_ip me)|].
    rewrite E1 in E. split; [done|].
    assert (deref s1 cu = if r then SetIPAddress (m_ip (deref s contact)) (deref s cu) else deref s cu) as D1
      by (unfold deref at 1; by rewrite C1).
    destruct (r && _) eqn:Hr.
    + apply andb_prop in Hr as [-> Hver]. rewrite Z.geb_leb in Hver. apply Z.leb_le in Hver.
      destruct (accept_update me now s s1 b cu (deref s contact) B1 Hcu D1) as (o3 & b3 & s3 & E3 & F1 & F2).
      cbv zeta in E, E3. rewrite E3 in E. injection E as <- <- <- <-. unfold ip_of. rewrite F1. split; [done|].
      intros Hip Hv. split; [done|]. rewrite <- F2; [done|]. congruence.
    + injection E as <- <- <- <-. split; [done|]. unfold ip_of. rewrite D1. destruct r; [|done].
      intros Hip Hv. exfalso. unfold SetIPAddress in Hip, Hv.
      by destruct (Z.eqb_spec (m_ip (deref s cu)) (m_ip (deref s contact))).
Qed.

(** Splitting a full leaf loses nothing: the two new leaves hold exactly its contacts, each on
    the side of its distance, the same objects, and the tracking maps are as before. *)
Theorem kad_split_lossless (me : CUInt128) (now lvl i : Z) (zd : ZoneData) (b : CRoutingBin)
  (s : KadState) (rest : list Z) (Hme : wf_uint128 me) (Hb : zone_bounds lvl i) (Hlt : lvl < 127)
  (Hz : zone_ok me s lvl i (ZLeaf zd b)) (Ht : tracked s (m_entries b ++ rest)) :
  exists zd0 b0 zd1 b1 s', Split now zd b s = (ZNode (StopTimer zd) (ZLeaf zd0 b0) (ZLeaf zd1 b1), s') /\
    Permutation (m_entries b0 ++ m_entries b1) (m_entries b) /\
    zone_ok me s' (lvl + 1) (2 * i) (ZLeaf zd0 b0) /\ zone_ok me s' (lvl + 1) (2 * i + 1) (ZLeaf zd1 b1) /\
    contacts s' = contacts s /\ fails s' = fails s /\
    (forall ip, count_of ip (s_globalContactIPs s') = count_of ip (s_globalContactIPs s)) /\
    (forall net, count_of net (s_globalContactSubnets s') = count_of net (s_globalContactSubnets s)).
Proof.
  destruct (Split_leaves me Hme now lvl i zd b s rest Hb Hlt Hz Ht)
    as (zd0 & b0 & zd1 & b1 & s' & E & HP & H0 & H1 & Ht' & [Hh Hn Hf]).
  do 5 eexists. split; [exact E|]. split_and!; try done.
  - intros ip. destruct Ht as [T1 _ _ _ _], Ht' as [T1' _ _ _ _].
    rewrite (counts_count_of _ _ _ T1), (counts_count_of _ _ _ T1').
    rewrite (agree_ips _ s s') by by apply agree_same_heap.
    by rewrite app_assoc, HP.
  - intros net. destruct Ht as [_ T2 _ _ _], Ht' as [_ T2' _ _ _].
    rewrite (counts_count_of _ _ _ T2), (counts_count_of _ _ _ T2').
    rewrite (agree_ips _ s s') by by apply agree_same_heap.
    by rewrite app_assoc, HP.
Qed.

(** The sample before its split: ten contacts in the root. *)
Definition sample_full : KadTable :=
  default (kad_init 1000)
    (kad_run sample_me false 0 (fun _ => false) 1000 (map sample_contact (seqZ 1 10)) (kad_init 1000)).

Lemma sample_full_ok : exists zd b s sk, sample_full = (ZLeaf zd b, s, sk) /\
  (length (m_entries b) = 10%nat /\ 0 ∈ m_entries b) /\ table_ok sample_me s (ZLeaf zd b).
Proof.
  assert (exists zd b s sk, sample_full = (ZLeaf zd b, s, sk) /\ length (m_entries b) = 10%nat /\ 0 ∈ m_entries b) as
    (zd & b & s & sk & E & Hl)
    by (do 4 eexists; split; [vm_compute; reflexivity|split; [done|by left]]).
  do 4 eexists. split; [exact E|]. split; [exact Hl|].
  assert (wf_uint128 sample_me) as Hme by (apply wf_of_uint32; by split).
  assert (exists T, T <= 1000 /\ kad_reach sample_me false 0 (fun _ => false) T sample_full) as (T & _ & Hr).
  { apply (kad_run_reach sample_me false 0 (fun _ => false) 1000
      (map sample_contact (seqZ 1 10)) 1000 (kad_init 1000)).
    - by apply kad_reach_init.
    - lia.
    - apply Forall_fmap, Forall_forall. intros n Hn. apply sample_call_ok, list_elem_of_In.
      apply elem_of_seqZ in Hn. apply elem_of_seqZ. lia.
    - unfold sample_full. destruct (kad_run _ _ _ _ _ _ _) as [w|] eqn:E1; [done|].
      assert (is_Some (kad_run sample_me false 0 (fun _ => false) 1000 (map sample_contact (seqZ 1 10)) (kad_init 1000)))
        as [w Hw] by (vm_compute; eauto). congruence. }
  rewrite E in Hr. by apply (kad_reach_ok sample_me Hme) in Hr as (? & _).
Qed.

Lemma kad_split_lossless_witness :
  exists zd b s z s', length (m_entries b) = 10%nat /\ Split 1000 zd b s = (z, s') /\ IsLeaf z = false.
Proof.
  destruct sample_full_ok as (zd & b & s & sk & _ & [Hl _] & [Hz Ht _]).
  destruct (kad_split_lossless sample_me 1000 0 0 zd b s [] (wf_of_uint32 0 ltac:(by split))
    ltac:(split; [lia|change (2 ^ 0) with 1; lia]) ltac:(lia) Hz
    ltac:(rewrite app_nil_r; exact Ht)) as (zd0 & b0 & zd1 & b1 & s' & E & _).
  exists zd, b, s, (ZNode (StopTimer zd) (ZLeaf zd0 b0) (ZLeaf zd1 b1)), s'. split; [exact Hl|]. by split.
Defined.

Lemma kad_update_guard_witness : exists b b' s s' u o,
  update_entry 0 1000 b 0 (next_contact s - 1) true false s = (u, o, b', s') /\
  Permutation (m_entries b') (m_entries b).
Proof.
  destruct sample_full_ok as (zd & b & s & sk & _ & [_ H0] & Htab). pose proof Htab as [(_ & Hb & _) Ht Hf].
  set (c := CContact_new (mkUInt128 1 0 0 (2 ^ 28)) 16777223 4672 4662 8 CKadUDPKey_zero true sample_me 1000).
  destruct (new_contact c s) as [p s1] eqn:E.
  destruct (new_contact_state s c p s1 E Hf) as (Ep & Hnone & Hsome & Hother & Hnext & _ & Htr).
  assert (forall q, q ∈ m_entries b -> q <> p) as Hnp.
  { intros q Hq ->. apply (table_live sample_me s _ p Htab) in Hq as (c' & Hc' & _). congruence. }
  assert (live sample_me s1 p) as Hl.
  { exists c. split; [done|]. split; [apply wf_mk; unfold in_width; norm_pow; lia|by split|reflexivity]. }
  destruct (update_entry 0 1000 b 0 (next_contact s1 - 1) true false s1) as [[[u o] b'] s'] eqn:E1.
  exists b, b', s1, s', u, o. split; [exact E1|].
  assert (next_contact s1 - 1 = p) as Hp by lia. rewrite Hp in E1.
  exact (proj1 (kad_update_guard sample_me 0 1000 b b' 0 p true false u o s1 s' []
    (bin_ok_agree sample_me s s1 b (fun q Hq => Hother q (Hnp q Hq)) Hb) H0
    ltac:(rewrite app_nil_r; exact (bin_NoDup sample_me s b Hb)) Hl (fun e => Hnp 0 H0 (eq_sym e))
    ltac:(rewrite app_nil_r; exact (Htr (m_entries b) Hnp Ht)) E1)).
Defined.

(** C4: The small timer of a leaf removes and frees exactly the contacts that are not in use and
    are banned or past their last chance; a contact in use is never freed, no other contact
    leaves, and nobody's ban starts or ends. *)
Theorem kad_sweep_exact (me : CUInt128) (node_protection : bool) (now lvl i : Z) (zd : ZoneData)
  (b : CRoutingBin) (rest : list Z) (s : KadState) (sk : CSafeKad)
  (Hz : zone_ok me s lvl i (ZLeaf zd b)) (Hn : NoDup (m_entries b ++ rest))
  (Ht : tracked s (m_entries b ++ rest)) (Hi : safekad_inv now sk) :
  exists hello stats z' s' sk', OnSmallTimer node_protection now (ZLeaf zd b) s sk = (hello, stats, z', s', sk') /\
    zone_ok me s' lvl i z' /\ tracked s' (entries z' ++ rest) /\ fails s' = fails s /\
    (forall p, p ∈ entries z' <-> p ∈ m_entries b /\ ~ sweepable node_protection now s sk p) /\
    (forall p, is_Some (contacts s' !! p) <->
       is_Some (contacts s !! p) /\ ~ (p ∈ m_entries b /\ sweepable node_protection now s sk p)) /\
    (forall p, is_Some (contacts s !! p) -> InUse (deref s p) = true -> is_Some (contacts s' !! p)) /\
    (forall ip, live_ban now sk' ip <-> live_ban now sk ip).
Proof.
  destruct (OnSmallTimer_spec me node_protection now lvl i rest (ZLeaf zd b) s sk Hz Hn Ht Hi)
    as (h & st & z' & s' & sk' & E & [A1 A2 A3 A4 A5 A6 A7] & Hclean). simpl in *.
  specialize (Hclean eq_refl).
  assert (forall p, p ∈ m_entries b -> p ∈ entries z' \/ p ∉ entries z') as Hdec
    by (intros p _; destruct (decide (p ∈ entries z')); tauto).
  assert (forall p, is_Some (contacts s' !! p) <->
    is_Some (contacts s !! p) /\ ~ (p ∈ m_entries b /\ sweepable node_protection now s sk p)) as Hlive.
  { intros p. rewrite (sk_live _ _ _ _ A3). specialize (Hdec p). specialize (A5 p). specialize (Hclean p).
    destruct (decide (p ∈ m_entries b)); tauto. }
  do 5 eexists. split; [exact E|]. split_and!; try done.
  - apply A3.
  - intros p. specialize (Hdec p). specialize (A5 p). specialize (Hclean p). specialize (A4 p). tauto.
  - intros p Hp Hu. apply Hlive. split; [done|]. intros (_ & Hs & _). congruence.
Qed.

Lemma kad_sweep_exact_witness : exists zd b s sk h st z' s' sk',
  OnSmallTimer true 1100 (ZLeaf zd b) s sk = (h, st, z', s', sk') /\ fails s' = fails s.
Proof.
  destruct sample_full_ok as (zd & b & s & sk & _ & _ & [Hz Ht _]). pose proof Hz as (_ & Hb & _).
  destruct (kad_sweep_exact sample_me true 1100 0 0 zd b [] s CSafeKad_init Hz
    ltac:(rewrite app_nil_r; exact (bin_NoDup sample_me s b Hb)) ltac:(rewrite app_nil_r; exact Ht)
    (inv_mono 0 1100 _ ltac:(lia) inv_init)) as (h & st & z' & s' & sk' & E & _ & _ & Hf & _).
  exists zd, b, s, CSafeKad_init, h, st, z', s', sk'. split; [exact E|exact Hf].
Defined.

(** A round of the timers over all zones of a reachable table frees only contacts that are not
    in use and are banned or past their last chance, keeps every other contact in the table, and
    leaves nothing allocated outside it that was not before. *)
Theorem kad_process_safe (me : CUInt128) (node_protection : bool) (PublicIP : Z)
  (IsFiltered : Z -> bool) (T now lastContact : Z) (z : CRoutingZone) (s : KadState) (sk : CSafeKad)
  (t : ProcessState) (Hme : wf_uint128 me) (HT : T <= now)
  (Hr : kad_reach me node_protection PublicIP IsFiltered T (z, s, sk)) :
  exists z' t' s' sk', ProcessZones node_protection now lastContact z t s sk = (z', t', s', sk') /\
    entries z' ⊆ entries z /\
    (forall p, p ∈ entries z -> p ∉ entries z' -> sweepable node_protection now s sk p) /\
    (forall p, is_Some (contacts s' !! p) <-> is_Some (contacts s !! p) /\ (p ∈ entries z -> p ∈ entries z')) /\
    (owned s z -> owned s' z') /\ (forall ip, live_ban now sk' ip <-> live_ban now sk ip).
Proof.
  pose proof (kad_reach_ok me Hme _ _ _ _ _ Hr) as (Ht & _ & Hi). pose proof Ht as [Hz Htr _].
  destruct (ProcessZones_spec me node_protection now lastContact z 0 0 [] t s sk)
    as (z' & t' & s' & sk' & E & [A1 A2 A3 A4 A5 A6 A7]); rewrite ?app_nil_r; try done.
  - by apply (table_NoDup me s z).
  - by eapply inv_mono.
  - do 4 eexists. split; [exact E|]. split_and!; try done; [apply A3|].
    intros Ho p Hp. apply A3 in Hp as [Hp Hk]. by apply Hk, Ho.
Qed.

Lemma kad_process_safe_witness : exists w, ProcessZones false 1200 0 sample_table.1.1
  (mkProcess 0 [] 0 []) sample_table.1.2 sample_table.2 = w /\ entries w.1.1.1 ⊆ entries sample_table.1.1.
Proof.
  destruct sample_reach as (T & HT & Hr). destruct sample_table as [[z s] sk].
  destruct (kad_process_safe sample_me false 0 (fun _ => false) T 1200 0 z s sk (mkProcess 0 [] 0 [])
    (wf_of_uint32 0 ltac:(by split)) ltac:(lia) Hr) as (z' & t' & s' & sk' & E & Hsub & _).
  exists (z', t', s', sk'). split; [exact E|exact Hsub].
Defined.

(** Consolidating a reachable table terminates, keeps every invariant and frees no contact;
    a contact can only drop out of the table when two kept contacts share its /24 network, which
    is not a LAN network. *)
Theorem kad_consolidate (me : CUInt128) (node_protection : bool) (PublicIP : Z)
  (IsFiltered : Z -> bool) (T now : Z) (z : CRoutingZone) (s : KadState) (sk : CSafeKad)
  (Hme : wf_uint128 me) (Hr : kad_reach me node_protection PublicIP IsFiltered T (z, s, sk)) :
  exists n z' s', Consolidate now z s = (n, z', s') /\ 0 <= n /\
    table_ok me s' z' /\ contacts s' = contacts s /\ fails s' = fails s /\
    exists lost, Permutation (entries z' ++ lost) (entries z) /\ Forall (crowded s (entries z')) lost.
Proof.
  pose proof (kad_reach_ok me Hme _ _ _ _ _ Hr) as (Ht & _ & _). pose proof Ht as [Hz Htr Hf].
  destruct (Consolidate_spec me now z 0 0 [] s) as (n & z' & s' & E & Hn & [A1 A2 A3 A4]);
    rewrite ?app_nil_r; try done.
  rewrite app_nil_r in A2. do 3 eexists. split; [exact E|].
  split_and!; [done| |apply A3|apply A3|done]. split; [done|done|].
  rewrite (sh_contacts _ _ A3), (sh_next _ _ A3). done.
Qed.

Lemma kad_consolidate_witness : exists n z' s', Consolidate 1200 sample_table.1.1 sample_table.1.2 = (n, z', s') /\
  table_ok sample_me s' z'.
Proof.
  destruct sample_reach as (T & HT & Hr). destruct sample_table as [[z s] sk].
  destruct (kad_consolidate sample_me false 0 (fun _ => false) T 1200 z s sk
    (wf_of_uint32 0 ltac:(by split)) Hr) as (n & z' & s' & E & _ & H & _).
  exists n, z', s'. split; [exact E|exact H].
Defined.

(** ** A contact refused by [Consolidate] is neither in the table nor freed *)

Definition leak_contact (n net : Z) : CContact :=
  CContact_new (mkUInt128 n 0 0 (n * 2 ^ 30)) (0x01020300 + net) 4672 4662 8 CKadUDPKey_zero true sample_me 0.

(** Two leaves with two contacts each, all of 1.2.3.0/24. *)
Definition leak_state : KadState :=
  fold_left (fun s p => AdjustGlobalTracking (m_ip (deref s p)) true s) [0; 1; 2; 3]
    (mkKad (list_to_map [(0, leak_contact 0 1); (1, leak_contact 1 2); (2, leak_contact 2 3);
                         (3, leak_contact 3 4)]) 4 [] [] 0).

Definition leak_zone : CRoutingZone :=
  ZNode (mkZone 0 (of_uint32 0) 0 0 false)
    (ZLeaf (mkZone 1 (of_uint32 0) 0 0 true) (mkBin [0; 1] false))
    (ZLeaf (mkZone 1 (of_uint32 1) 0 0 true) (mkBin [2; 3] false)).

Lemma consolidate_leaks :
  exists z' s', Consolidate 100 leak_zone leak_state = (1, z', s') /\
    entries leak_zone = [0; 1; 2; 3] /\ entries z' = [0; 1] /\
    is_Some (contacts s' !! 2) /\ is_Some (contacts s' !! 3).
Proof. do 2 eexists. split; [vm_compute; reflexivity|]. by vm_compute; split_and!; eauto. Qed.
