(* ===== verification/RoutingQueries.v ===== *)
(** * What the queries of the Kad routing table answer

    [GetClosestTo] returns the closest contacts to a target in order of their XOR distance,
    [GetBootstrapContacts] a bounded sample, [RandomLookup] a target inside its zone. *)
From S2P Require Import Prelude StdMap UInt128 NetworkFunctions Contact AgedMap SafeKad RoutingBin RoutingZone RoutingTable.

(** ** Sorted results *)

Section Map.

Context {V : Type}.
Implicit Types m : list (CUInt128 * V).

(** Every key of [m1] is below every key of [m2]. *)
Definition below m1 m2 : Prop := Forall (fun e1 => Forall (fun e2 => kltb e1.1 e2.1 = true) m2) m1.

Lemma mset_right m1 m2 k v : Forall (fun e => kltb e.1 k = true) m1 -> mset k v (m1 ++ m2) = m1 ++ mset k v m2.
Proof.
  induction 1 as [|[k' v'] m1 Hk Hm IH]; [done|]. cbn [app mset]. cbn [fst] in Hk.
  by rewrite (kltb_asym k' k), Hk, IH.
Qed.

Lemma mset_keys (P : CUInt128 -> Prop) k v m : P k -> Forall (fun e => P e.1) m -> Forall (fun e => P e.1) (mset k v m).
Proof. intros Hk Hm. apply mset_Forall; [done|]. exact Hm. Qed.

Lemma take_app_short n (l1 l2 : list (CUInt128 * V)) : (length (take n l1) < n)%nat -> take n (l1 ++ l2) = l1 ++ take (n - length l1) l2 /\ take n l1 = l1.
Proof.
  intros H. rewrite length_take in H. split; [apply take_app_ge; lia|apply take_ge; lia].
Qed.

End Map.

Section Closest.

Context (s : KadState) (maxType : Z) (target : CUInt128).

Definition eligible (p : Z) : bool := (m_type (deref s p) <=? maxType) && m_ipVerified (deref s p).

(** The distance of a contact from the target. *)
Definition dist (p : Z) : CUInt128 := XOR (id_of s p) target.

(** The eligible contacts of a list, sorted by their distance from the target. *)
Definition sorted_by_distance (l : list Z) : list (CUInt128 * Z) :=
  fold_left (fun m p => mset (dist p) p m) (filter (fun p => eligible p = true) l) [].

Lemma fold_insert l : forall acc,
  fold_left (ContactMap_insert maxType target false) l (acc, s) =
  (fold_left (fun m p => mset (dist p) p m) (filter (fun p => eligible p = true) l) acc, s).
Proof.
  induction l as [|p l IH]; intros acc; [done|]. cbn [fold_left]. rewrite list.filter_cons.
  unfold ContactMap_insert at 2. fold (eligible p) (id_of s p).
  destruct (decide (eligible p = true)) as [E|E]; [by rewrite E, IH|].
  apply not_true_is_false in E. by rewrite E, IH.
Qed.

Lemma fold_mset_right l : forall m1 m2,
  Forall (fun e => Forall (fun p => kltb e.1 (dist p) = true) l) m1 ->
  fold_left (fun m p => mset (dist p) p m) l (m1 ++ m2) =
  m1 ++ fold_left (fun m p => mset (dist p) p m) l m2.
Proof.
  induction l as [|p l IH]; intros m1 m2 H; [done|]. cbn [fold_left].
  rewrite mset_right.
  - apply IH. eapply Forall_impl; [exact H|]. intros e He. by apply Forall_cons_1 in He as [_ He].
  - eapply Forall_impl; [exact H|]. intros e He. by apply Forall_cons_1 in He as [He _].
Qed.

Lemma fold_mset_sorted l : forall m, msorted m -> msorted (fold_left (fun m p => mset (dist p) p m) l m).
Proof. induction l as [|p l IH]; intros m Hm; simpl; [done|]. by apply IH, msorted_set. Qed.

Lemma sorted_sorted l : msorted (sorted_by_distance l).
Proof. apply fold_mset_sorted. constructor. Qed.

Lemma fold_mset_find l : forall m k, NoDup (map dist l) -> 
  mfind k (fold_left (fun m p => mset (dist p) p m) l m) =
  match List.find (fun p => bool_decide (dist p = k)) l with Some p => Some p | None => mfind k m end.
Proof.
  induction l as [|p l IH]; intros m k Hn; [done|]. cbn [fold_left map List.find] in *.
  apply NoDup_cons in Hn as [Hp Hn]. rewrite IH by done.
  destruct (bool_decide_reflect (dist p = k)) as [<-|Hne].
  - destruct (List.find _ l) as [q|] eqn:E; [|by rewrite mfind_set_eq].
    apply List.find_some in E as [Hq E]. apply bool_decide_eq_true in E.
    exfalso. apply Hp. rewrite <- E. apply list_elem_of_fmap_2, list_elem_of_In, Hq.
  - destruct (List.find _ l) as [q|]; [done|]. by rewrite mfind_set_ne by congruence.
Qed.

(** Only the set of contacts matters. *)
Lemma find_perm l l' k : NoDup (map dist l) -> Permutation l l' ->
  List.find (fun p => bool_decide (dist p = k)) l = List.find (fun p => bool_decide (dist p = k)) l'.
Proof.
  intros Hn HP. assert (NoDup (map dist l')) as Hn' by (by rewrite <- HP).
  destruct (List.find _ l) as [p|] eqn:E, (List.find _ l') as [q|] eqn:E'; try done.
  - apply List.find_some in E as [Hp E], E' as [Hq E']. apply bool_decide_eq_true in E, E'.
    apply list_elem_of_In in Hp, Hq. rewrite <- HP in Hq. f_equal.
    clear - Hn Hp Hq E E'. induction l as [|x l IH]; [by apply not_elem_of_nil in Hp|].
    simpl in Hn. apply NoDup_cons in Hn as [Hx Hn].
    apply elem_of_cons in Hp as [-> | Hp], Hq as [-> | Hq]; [done| | |by apply IH].
    + exfalso. apply Hx. rewrite E, <- E'. by apply list_elem_of_fmap_2.
    + exfalso. apply Hx. rewrite E', <- E. by apply list_elem_of_fmap_2.
  - apply List.find_some in E as [Hp E]. apply list_elem_of_In in Hp. rewrite HP in Hp.
    apply list_elem_of_In in Hp. by rewrite (List.find_none _ _ E' _ Hp) in E.
  - apply List.find_some in E' as [Hp E']. apply list_elem_of_In in Hp. rewrite <- HP in Hp.
    apply list_elem_of_In in Hp. by rewrite (List.find_none _ _ E _ Hp) in E'.
Qed.

Lemma NoDup_map_filter (P : Z -> Prop) `{forall x, Decision (P x)} (l : list Z) :
  NoDup (map dist l) -> NoDup (map dist (filter P l)).
Proof.
  induction l as [|x l IH]; [done|]. simpl. rewrite NoDup_cons. intros [Hx Hn].
  rewrite list.filter_cons. destruct (decide (P x)); [|by apply IH]. simpl. apply NoDup_cons. split; [|by apply IH].
  intros Hin. apply Hx. apply list_elem_of_fmap in Hin as (y & -> & Hy). apply list_elem_of_filter in Hy as [_ Hy].
  by apply list_elem_of_fmap_2.
Qed.

Lemma sorted_perm l l' : NoDup (map dist l) -> Permutation l l' -> sorted_by_distance l = sorted_by_distance l'.
Proof.
  intros Hn HP. apply msorted_ext; [apply sorted_sorted..|]. intros k. unfold sorted_by_distance.
  pose proof (NoDup_map_filter (fun p => eligible p = true) l Hn) as Hf.
  assert (Permutation (filter (fun p => eligible p = true) l) (filter (fun p => eligible p = true) l')) as HPf
    by (by rewrite HP).
  assert (NoDup (map dist (filter (fun p => eligible p = true) l'))) as Hf' by (by rewrite <- HPf).
  rewrite !fold_mset_find by done. by rewrite (find_perm _ _ k Hf HPf).
Qed.

(** Farther contacts come after nearer ones. *)
Lemma sorted_app l1 l2 :
  Forall (fun p => Forall (fun q => kltb (dist p) (dist q) = true) l2) l1 ->
  sorted_by_distance (l1 ++ l2) = sorted_by_distance l1 ++ sorted_by_distance l2.
Proof.
  intros H. unfold sorted_by_distance. rewrite filter_app, fold_left_app.
  rewrite <- (app_nil_r (fold_left _ (filter _ l1) [])) at 1. apply fold_mset_right.
  assert (forall l m, Forall (fun p => Forall (fun q => kltb (dist p) (dist q) = true) l2) l ->
    Forall (fun e => Forall (fun q => kltb e.1 (dist q) = true) l2) m ->
    Forall (fun e => Forall (fun q => kltb e.1 (dist q) = true) l2)
      (fold_left (fun m p => mset (dist p) p m) l m)) as Hfold.
  { induction l as [|p l IH]; intros m Hl Hm; simpl; [done|]. apply Forall_cons_1 in Hl as [Hp Hl].
    apply IH; [done|]. by apply (mset_keys (fun k => Forall (fun q => kltb k (dist q) = true) l2)). }
  eapply Forall_impl; [apply (Hfold (filter (fun p => eligible p = true) l1) []); [|constructor]|].
  - apply Forall_forall. intros p Hp. apply list_elem_of_filter in Hp as [_ Hp].
    rewrite Forall_forall in H. by apply H.
  - intros e He. apply Forall_forall. intros q Hq. apply list_elem_of_filter in Hq as [_ Hq].
    rewrite Forall_forall in He. by apply He.
Qed.

Lemma drop_farthest_take n : forall (r : list (CUInt128 * Z)) fuel, 0 <= n -> (length r <= fuel)%nat ->
  drop_farthest fuel n false r s = (take (Z.to_nat n) r, s).
Proof.
  intros r fuel Hn. revert r. induction fuel as [|fuel IH]; intros r Hr; simpl.
  - destruct r; [by rewrite take_nil|simpl in Hr; lia].
  - rewrite Z.gtb_ltb. destruct (Z.ltb_spec n (Z.of_nat (length r))) as [Hlt|Hge].
    + assert (r <> []) as Hne by (intros ->; simpl in Hlt; lia).
      destruct (exists_last Hne) as (r' & e & ->). rewrite removelast_last.
      rewrite length_app in Hr, Hlt. simpl in Hr, Hlt.
      rewrite IH by lia. rewrite take_app_le by lia. done.
    + by rewrite take_ge by lia.
Qed.

Lemma closest_bin b n acc e : 0 <= n -> (e = false -> Z.of_nat (length acc) <= n) ->
  GetClosestToBin b maxType target n acc e false s =
  (take (Z.to_nat n) (fold_left (fun m p => mset (dist p) p m)
     (filter (fun p => eligible p = true) (m_entries b)) (if e then [] else acc)), s).
Proof.
  intros Hn Hacc. unfold GetClosestToBin. destruct (m_entries b) as [|p ps] eqn:E.
  - simpl. rewrite take_ge; [done|]. destruct e; simpl; [lia|]. specialize (Hacc eq_refl). lia.
  - rewrite fold_insert. by rewrite drop_farthest_take.
Qed.

(** ** Nearer zones *)

Lemma lxor_double a b x y : x = 0 \/ x = 1 -> y = 0 \/ y = 1 ->
  Z.lxor (2 * a + x) (2 * b + y) = 2 * Z.lxor a b + (if x =? y then 0 else 1).
Proof.
  intros Hx Hy. apply Z.bits_inj'. intros j Hj. rewrite Z.lxor_spec.
  assert (forall c z, z = 0 \/ z = 1 -> Z.testbit (2 * c + z) j =
    if j =? 0 then z =? 1 else Z.testbit c (j - 1)) as Hbit.
  { intros c z Hz. destruct (Z.eqb_spec j 0) as [->|Hj0].
    - destruct Hz as [-> | ->]; [rewrite Z.add_0_r; by rewrite Z.testbit_even_0|by rewrite Z.testbit_odd_0].
    - replace j with (Z.succ (j - 1)) at 1 by lia.
      destruct Hz as [-> | ->]; [rewrite Z.add_0_r, Z.testbit_even_succ by lia|rewrite Z.testbit_odd_succ by lia]; done. }
  rewrite !Hbit by (done || case_cmp; lia).
  case_cmp; [|by rewrite Z.lxor_spec]. destruct Hx as [-> | ->], Hy as [-> | ->]; done.
Qed.

Lemma shiftr_lxor_bit x n : 0 <= n -> Z.shiftr x n = 2 * Z.shiftr x (n + 1) + Z.b2z (Z.testbit x n).
Proof.
  intros Hn. rewrite <- Z.shiftr_shiftr by lia. rewrite (Z.shiftr_div_pow2 _ 1) by lia. change (2 ^ 1) with 2.
  replace (Z.testbit x n) with (Z.odd (Z.shiftr x n)).
  - rewrite (Z.div_mod (Z.shiftr x n) 2) at 1 by lia. rewrite Zmod_odd. by destruct (Z.odd _).
  - rewrite <- Z.bit0_odd, Z.shiftr_spec by lia. f_equal.
Qed.

Lemma shiftr_lt x y n : 0 <= n -> Z.shiftr x n < Z.shiftr y n -> x < y.
Proof.
  intros Hn H. rewrite !Z.shiftr_div_pow2 in H by done.
  pose proof (Z.div_le_mono y x (2 ^ n)). assert (0 < 2 ^ n) by (apply Z.pow_pos_nonneg; lia). lia.
Qed.

Section Zones.

Context (me : CUInt128) (Hme : wf_uint128 me) (Htarget : wf_uint128 target).

Lemma dist_value p : live me s p ->
  wf_uint128 (dist p) /\
  value (dist p) = Z.lxor (value (m_distance (deref s p))) (value (XOR me target)).
Proof.
  intros Hp. pose proof (live_id me s p Hp) as Hid. split; [by apply wf_XOR|].
  destruct (live_distance me Hme s p Hp) as [_ ->]. unfold dist. rewrite !XOR_value by done.
  apply Z.bits_inj'. intros j _. rewrite !Z.lxor_spec.
  by destruct (Z.testbit (value (id_of s p)) j), (Z.testbit (value target) j), (Z.testbit (value me) j).
Qed.

Lemma nearer lvl i bit p q : 0 <= lvl < 128 -> bit = 0 \/ bit = 1 ->
  GetBitNumber (XOR me target) lvl = bit ->
  live me s p -> live me s q -> in_zone s (lvl + 1) (2 * i + bit) p -> in_zone s (lvl + 1) (2 * i + (1 - bit)) q ->
  kltb (dist p) (dist q) = true.
Proof.
  intros Hl Hbit Hb Hp Hq Zp Zq.
  destruct (dist_value p Hp) as [Wp Vp], (dist_value q Hq) as [Wq Vq].
  apply kltb_value; [done..|]. rewrite Vp, Vq. apply (shiftr_lt _ _ (127 - lvl)); [lia|].
  rewrite !Z.shiftr_lxor. unfold in_zone in Zp, Zq.
  replace (128 - (lvl + 1)) with (127 - lvl) in Zp, Zq by lia. rewrite Zp, Zq.
  rewrite (shiftr_lxor_bit (value (XOR me target)) (127 - lvl)) by lia.
  rewrite GetBitNumber_testbit in Hb by (lia || by apply wf_XOR).
  rewrite !lxor_double by (lia || destruct (Z.testbit _ _); simpl; lia). rewrite Hb.
  destruct Hbit as [-> | ->]; simpl; lia.
Qed.

(** Distances are as distinct as identities. *)
Lemma dist_NoDup z lvl i : 0 <= lvl -> zone_ok me s lvl i z -> NoDup (map dist (entries z)).
Proof.
  intros Hl Hz. pose proof (zone_ids_NoDup me s z lvl i Hl Hz) as Hn.
  pose proof (zone_entries me s z lvl i Hl Hz) as Hlive. clear Hz.
  induction (entries z) as [|p l IH]; [constructor|]. simpl in *.
  apply NoDup_cons in Hn as [Hp Hn]. apply Forall_cons_1 in Hlive as [[Hlp _] Hlive].
  apply NoDup_cons. split; [|by apply IH]. intros Hin. apply Hp.
  apply list_elem_of_fmap in Hin as (q & E & Hq). rewrite Forall_forall in Hlive. destruct (Hlive q Hq) as [Hlq _].
  apply list_elem_of_fmap. exists q. split; [|done].
  pose proof (live_id me s p Hlp) as Wp. pose proof (live_id me s q Hlq) as Wq.
  apply value_inj; [done|done|]. apply (f_equal value) in E. unfold dist in E.
  rewrite !XOR_value in E by done. apply (f_equal (fun v => Z.lxor v (value target))) in E.
  by rewrite !Z.lxor_assoc, !Z.lxor_nilpotent, !Z.lxor_0_r in E.
Qed.

(** Collected contacts are nearer than all the contacts of a list. *)
Definition all_nearer (acc : list (CUInt128 * Z)) (l : list Z) : Prop :=
  Forall (fun e => Forall (fun q => kltb e.1 (dist q) = true) l) acc.

Lemma fold_insert_app acc l : all_nearer acc l ->
  fold_left (fun m p => mset (dist p) p m) (filter (fun p => eligible p = true) l) acc =
  acc ++ sorted_by_distance l.
Proof.
  intros H. unfold sorted_by_distance. rewrite <- fold_mset_right; [by rewrite app_nil_r|].
  eapply Forall_impl; [exact H|]. intros e He. apply Forall_forall. intros q Hq.
  apply list_elem_of_filter in Hq as [_ Hq]. rewrite Forall_forall in He. by apply He.
Qed.

Lemma all_nearer_sorted l1 l2 :
  Forall (fun p => Forall (fun q => kltb (dist p) (dist q) = true) l2) l1 -> all_nearer (sorted_by_distance l1) l2.
Proof.
  intros H. unfold all_nearer, sorted_by_distance.
  assert (forall l m, Forall (fun p => Forall (fun q => kltb (dist p) (dist q) = true) l2) l ->
    all_nearer m l2 -> all_nearer (fold_left (fun m p => mset (dist p) p m) l m) l2) as Hfold.
  { induction l as [|p l IH]; intros m Hl Hm; simpl; [done|]. apply Forall_cons_1 in Hl as [Hp Hl].
    apply IH; [done|]. by apply (mset_keys (fun k => Forall (fun q => kltb k (dist q) = true) l2)). }
  apply Hfold; [|constructor]. apply Forall_forall. intros p Hp. apply list_elem_of_filter in Hp as [_ Hp].
  rewrite Forall_forall in H. by apply H.
Qed.

Lemma all_nearer_app acc l1 l2 : all_nearer acc (l1 ++ l2) <-> all_nearer acc l1 /\ all_nearer acc l2.
Proof. unfold all_nearer. rewrite <- Forall_and. apply Forall_iff. intros e. by rewrite Forall_app. Qed.

Definition closest_goal (n : Z) (z : CRoutingZone) : Prop := forall lvl i acc e,
  zone_bounds lvl i -> zone_ok me s lvl i z -> (e = false -> Z.of_nat (length acc) <= n) ->
  all_nearer (if e then [] else acc) (entries z) ->
  GetClosestTo z maxType target (XOR me target) n acc e false s =
  (take (Z.to_nat n) ((if e then [] else acc) ++ sorted_by_distance (entries z)), s).

(** First the nearer half, then, if that was not enough, the other. *)
Lemma closest_halves n z zc zo (acc : list (CUInt128 * Z)) (e : bool) : 0 <= n ->
  all_nearer (if e then [] else acc) (entries zc ++ entries zo) ->
  Forall (fun p => Forall (fun q => kltb (dist p) (dist q) = true) (entries zo)) (entries zc) ->
  Permutation (entries z) (entries zc ++ entries zo) -> NoDup (map dist (entries z)) ->
  (GetClosestTo zc maxType target (XOR me target) n acc e false s =
    (take (Z.to_nat n) ((if e then [] else acc) ++ sorted_by_distance (entries zc)), s)) ->
  (forall acc', Z.of_nat (length acc') <= n -> all_nearer acc' (entries zo) ->
    GetClosestTo zo maxType target (XOR me target) n acc' false false s =
    (take (Z.to_nat n) (acc' ++ sorted_by_distance (entries zo)), s)) ->
  (let '(result, s') := GetClosestTo zc maxType target (XOR me target) n acc e false s in
   if Z.of_nat (length result) <? n
   then GetClosestTo zo maxType target (XOR me target) n result false false s' else (result, s')) =
  (take (Z.to_nat n) ((if e then [] else acc) ++ sorted_by_distance (entries z)), s).
Proof.
  intros Hn Hacc Hnear HP Hnd -> Ho. rewrite (sorted_perm _ _ Hnd HP), sorted_app by done.
  set (a := if e then [] else acc) in *. set (c := sorted_by_distance (entries zc)).
  rewrite app_assoc. apply all_nearer_app in Hacc as [Hac Hao].
  destruct (Z.ltb_spec (Z.of_nat (length (take (Z.to_nat n) (a ++ c)))) n) as [Hlt|Hge].
  - assert (length (take (Z.to_nat n) (a ++ c)) < Z.to_nat n)%nat as Hshort by lia.
    destruct (take_app_short (Z.to_nat n) (a ++ c) (sorted_by_distance (entries zo)) Hshort) as [E1 E2].
    rewrite E2 in *. apply Ho; [lia|]. apply Forall_app. split; [done|by apply all_nearer_sorted].
  - rewrite length_take in Hge. by rewrite (take_app_le (a ++ c)) by lia.
Qed.

Lemma closest_zone n z : 0 <= n -> closest_goal n z.
Proof.
  intros Hn. induction z as [zd b|zd z0 IH0 z1 IH1]; intros lvl i acc e Hb Hz Hlen Hacc.
  - simpl. rewrite closest_bin by done. by rewrite fold_insert_app.
  - pose proof Hz as ((Hd & _) & Hlt & H0 & H1). pose proof Hb as [Hl Hi]. cbn [GetClosestTo]. rewrite Hd.
    pose proof (dist_NoDup _ lvl i ltac:(lia) Hz) as Hnd.
    pose proof (zone_entries me s z0 (lvl + 1) (2 * i) ltac:(lia) H0) as E0.
    pose proof (zone_entries me s z1 (lvl + 1) (2 * i + 1) ltac:(lia) H1) as E1.
    rewrite Forall_forall in E0, E1.
    assert (zone_bounds (lvl + 1) (2 * i)) as B0 by (by eapply zone_bounds_sub; eauto).
    assert (zone_bounds (lvl + 1) (2 * i + 1)) as B1 by (by eapply zone_bounds_sub; eauto).
    simpl in Hacc. apply all_nearer_app in Hacc as [Hac0 Hac1].
    assert (GetBitNumber (XOR me target) lvl = 0 \/ GetBitNumber (XOR me target) lvl = 1) as Hbit.
    { rewrite GetBitNumber_testbit by (lia || by apply wf_XOR). destruct (Z.testbit _ _); simpl; lia. }
    destruct (Z.eqb_spec (GetBitNumber (XOR me target) lvl) 0) as [E|E].
    + apply closest_halves; try done; [by apply all_nearer_app| |by apply (IH0 (lvl + 1) (2 * i))|].
      * apply Forall_forall. intros p Hp. apply Forall_forall. intros q Hq.
        destruct (E0 p Hp), (E1 q Hq). apply (nearer lvl i 0); try done; [lia|by left|by rewrite Z.add_0_r].
      * intros acc' Ha Hn'. by apply (IH1 (lvl + 1) (2 * i + 1)).
    + destruct Hbit as [?|Hbit]; [done|]. apply closest_halves; try done;
        [by apply all_nearer_app| |apply Permutation_app_comm|by apply (IH1 (lvl + 1) (2 * i + 1))|].
      * apply Forall_forall. intros p Hp. apply Forall_forall. intros q Hq.
        destruct (E1 p Hp), (E0 q Hq). apply (nearer lvl i 1); try done; [lia|by right|].
        by replace (2 * i + (1 - 1)) with (2 * i) by lia.
      * intros acc' Ha Hn'. by apply (IH0 (lvl + 1) (2 * i)).
Qed.

End Zones.

End Closest.

Section Contents.

Context (s : KadState) (maxType : Z) (target : CUInt128).

Lemma sorted_In l d p : NoDup (map (dist s target) l) ->
  (d, p) ∈ sorted_by_distance s maxType target l <->
  p ∈ l /\ eligible s maxType p = true /\ d = dist s target p.
Proof.
  intros Hn. rewrite <- mfind_In by apply sorted_sorted. unfold sorted_by_distance.
  pose proof (NoDup_map_filter s target (fun p => eligible s maxType p = true) l Hn) as Hf.
  rewrite fold_mset_find by done. set (l' := filter _ l) in *.
  assert (forall q, q ∈ l' <-> q ∈ l /\ eligible s maxType q = true) as Hl'
    by (intros q; unfold l'; rewrite list_elem_of_filter; tauto).
  destruct (List.find _ l') as [q|] eqn:E.
  - apply List.find_some in E as [Hq E]. apply bool_decide_eq_true in E. apply list_elem_of_In in Hq.
    split; [intros [= <-]; apply Hl' in Hq as [? ?]; by rewrite <- E|]. intros (Hp & He & ->). f_equal.
    assert (p ∈ l') as Hp' by (by apply Hl'). clearbody l'. clear Hl'. 
    induction l' as [|x l' IH]; [by apply not_elem_of_nil in Hp'|].
    simpl in Hf. apply NoDup_cons in Hf as [Hx Hf].
    apply elem_of_cons in Hp' as [-> | Hp'], Hq as [-> | Hq]; [done| | |by apply IH].
    + exfalso. apply Hx. rewrite <- E. by apply list_elem_of_fmap_2.
    + exfalso. apply Hx. rewrite E. by apply list_elem_of_fmap_2.
  - split; [done|]. intros (Hp & He & ->). exfalso.
    assert (p ∈ l') as Hp' by (by apply Hl'). apply list_elem_of_In in Hp'.
    apply (List.find_none _ _ E) in Hp'. by rewrite bool_decide_eq_false in Hp'.
Qed.

Lemma fold_mset_length l : forall m, msorted m -> NoDup (map (dist s target) l) ->
  Forall (fun p => mfind (dist s target p) m = None) l ->
  length (fold_left (fun m p => mset (dist s target p) p m) l m) = (length l + length m)%nat.
Proof.
  induction l as [|p l IH]; intros m Hm Hn Hf; [done|]. simpl in *.
  apply NoDup_cons in Hn as [Hp Hn]. apply Forall_cons_1 in Hf as [Hfp Hf].
  rewrite IH; [rewrite length_mset_fresh by done; lia|by apply msorted_set|done|].
  apply Forall_forall. intros q Hq. rewrite Forall_forall in Hf. rewrite mfind_set_ne; [by apply Hf|].
  intros E. apply Hp. rewrite <- E. by apply list_elem_of_fmap_2.
Qed.

Lemma sorted_length l : NoDup (map (dist s target) l) ->
  length (sorted_by_distance s maxType target l) = length (filter (fun p => eligible s maxType p = true) l).
Proof.
  intros Hn. unfold sorted_by_distance. rewrite fold_mset_length.
  - simpl. lia.
  - constructor.
  - by apply NoDup_map_filter.
  - by apply Forall_forall.
Qed.

End Contents.

(** C5: The closest contacts: asked for [n] contacts near a target, the table answers in order of
    their XOR distance with verified contacts of an allowed type, as many as there are up to
    [n], and every such contact that is left out is farther than all those given; the search
    leaves the table unchanged. *)
Theorem kad_closest (me : CUInt128) (node_protection : bool) (PublicIP : Z)
  (IsFiltered : Z -> bool) (T : Z) (z : CRoutingZone) (s : KadState) (sk : CSafeKad)
  (maxType n : Z) (target : CUInt128) (Hme : wf_uint128 me) (Ht : wf_uint128 target) (Hn : 0 <= n)
  (Hr : kad_reach me node_protection PublicIP IsFiltered T (z, s, sk)) :
  exists r, GetClosestTo z maxType target (XOR me target) n [] true false s = (r, s) /\
    msorted r /\
    Z.of_nat (length r) =
      Z.min n (Z.of_nat (length (filter (fun p => eligible s maxType p = true) (entries z)))) /\
    (forall d p, (d, p) ∈ r -> p ∈ entries z /\ eligible s maxType p = true /\ d = dist s target p) /\
    (forall p, p ∈ entries z -> eligible s maxType p = true ->
       (dist s target p, p) ∈ r \/ Forall (fun e => kltb e.1 (dist s target p) = true) r).
Proof.
  pose proof (kad_reach_ok me Hme _ _ _ _ _ Hr) as ([Hz _ _] & _).
  pose proof (dist_NoDup s target me Ht z 0 0 ltac:(lia) Hz) as Hnd.
  pose proof (sorted_sorted s maxType target (entries z)) as Hs.
  set (L := sorted_by_distance s maxType target (entries z)) in *.
  assert (forall d p, (d, p) ∈ L <-> p ∈ entries z /\ eligible s maxType p = true /\ d = dist s target p) as HL
    by (intros d p; by apply sorted_In).
  assert (msorted (take (Z.to_nat n) L) /\ msorted (drop (Z.to_nat n) L) /\
    below (take (Z.to_nat n) L) (drop (Z.to_nat n) L)) as (S1 & S2 & S3).
  { apply msorted_app. by rewrite take_drop. }
  exists (take (Z.to_nat n) L). split_and!.
  - apply (closest_zone s maxType target me Hme Ht n z Hn 0 0 [] true); [by split|done|done|constructor].
  - done.
  - rewrite length_take. unfold L. rewrite sorted_length by done. lia.
  - intros d p Hp. apply HL. rewrite <- (take_drop (Z.to_nat n) L). apply elem_of_app. by left.
  - intros p Hp He. assert ((dist s target p, p) ∈ L) as Hin by (by apply HL).
    rewrite <- (take_drop (Z.to_nat n) L) in Hin. apply elem_of_app in Hin as [Hin|Hin]; [by left|right].
    eapply Forall_impl; [exact S3|]. intros e He'. rewrite Forall_forall in He'. by apply (He' (dist s target p, p)).
Qed.

Lemma kad_closest_witness : exists r,
  GetClosestTo sample_table.1.1 3 (of_uint32 77) (XOR sample_me (of_uint32 77)) 4 [] true false sample_table.1.2 =
  (r, sample_table.1.2) /\ msorted r /\ map snd (GetClosestTo sample_table.1.1 3 (of_uint32 77)
    (XOR sample_me (of_uint32 77)) 4 [] true false sample_table.1.2).1 = [0; 1; 2; 3].
Proof.
  assert (map snd (GetClosestTo sample_table.1.1 3 (of_uint32 77)
    (XOR sample_me (of_uint32 77)) 4 [] true false sample_table.1.2).1 = [0; 1; 2; 3]) as E by by vm_compute.
  destruct sample_reach as (T & HT & Hr). destruct sample_table as [[z s] sk].
  destruct (kad_closest sample_me false 0 (fun _ => false) T z s sk 3 4 (of_uint32 77)
    (wf_of_uint32 0 ltac:(by split)) (wf_of_uint32 77 ltac:(by split)) ltac:(lia) Hr) as (r & Er & Hs & _).
  exists r. split; [exact Er|]. split; [exact Hs|exact E].
Defined.

(** ** Bootstrap samples *)

Lemma RandomBin_sub rnd z : forall result e drawn,
  exists l, (RandomBin rnd z result e drawn).1 = (if e then [] else result) ++ l /\ sublist l (entries z).
Proof.
  induction z as [zd b|zd z0 IH0 z1 IH1]; intros result e drawn; simpl.
  - by exists (m_entries b).
  - destruct (_ =? 0).
    + destruct (IH0 result e (S drawn)) as (l & -> & Hl). exists l. split; [done|]. by apply sublist_inserts_r.
    + destruct (IH1 result e (S drawn)) as (l & -> & Hl). exists l. split; [done|]. by apply sublist_inserts_l.
Qed.

Lemma TopDepth_sub rnd z : forall depth result e drawn,
  exists l, (TopDepth rnd z depth result e drawn).1 = (if e then [] else result) ++ l /\ sublist l (entries z).
Proof.
  induction z as [zd b|zd z0 IH0 z1 IH1]; intros depth result e drawn.
  - by exists (m_entries b).
  - cbn [TopDepth]. destruct (depth <=? 0); [by apply (RandomBin_sub rnd (ZNode zd z0 z1))|].
    destruct (IH0 (depth - 1) result e drawn) as (l0 & E0 & H0).
    destruct (TopDepth rnd z0 (depth - 1) result e drawn) as [r drawn1]. simpl in E0. subst r.
    destruct (IH1 (depth - 1) ((if e then [] else result) ++ l0) false drawn1) as (l1 & -> & H1).
    exists (l0 ++ l1). split; [by rewrite app_assoc|]. by apply sublist_app.
Qed.

Lemma copy_required_spec top : forall count maxRequired results,
  count < maxRequired \/ maxRequired <= 0 -> 0 <= count ->
  copy_required top count maxRequired results =
  let k := if maxRequired <=? 0 then length top else Nat.min (length top) (Z.to_nat (maxRequired - count)) in
  (count + Z.of_nat k, results ++ take k top).
Proof.
  induction top as [|it top IH]; intros count n results Hc Hp; simpl.
  - destruct (n <=? 0); simpl; by rewrite Z.add_0_r, app_nil_r.
  - destruct (Z.eqb_spec (count + 1) n) as [E|E].
    + destruct (Z.leb_spec n 0); [lia|]. replace (Z.to_nat (n - count)) with 1%nat by lia.
      rewrite Nat.min_r by (simpl; lia). simpl. by rewrite take_0.
    + rewrite IH by lia. simpl. destruct (Z.leb_spec n 0).
      * rewrite <- app_assoc. f_equal. lia.
      * replace (Z.to_nat (n - count)) with (S (Z.to_nat (n - (count + 1)))) by lia.
        simpl. rewrite <- app_assoc. f_equal; lia.
Qed.

(** A bootstrap sample is a part of the table without repetitions, its size is the count
    returned, and it is at most the number asked for (when that is not zero), whatever the
    random numbers. *)
Theorem kad_bootstrap (me : CUInt128) (node_protection : bool) (PublicIP : Z)
  (IsFiltered : Z -> bool) (T : Z) (z : CRoutingZone) (s : KadState) (sk : CSafeKad)
  (rnd : nat -> Z) (n : Z) (drawn : nat) (Hme : wf_uint128 me) (Hn : 0 < n)
  (Hr : kad_reach me node_protection PublicIP IsFiltered T (z, s, sk)) :
  exists count results drawn', GetBootstrapContacts rnd z n drawn = (count, results, drawn') /\
    count = Z.of_nat (length results) /\ count <= n /\ NoDup results /\ sublist results (entries z).
Proof.
  pose proof (kad_reach_ok me Hme _ _ _ _ _ Hr) as (Ht & _ & _). pose proof (table_NoDup me s z Ht) as Hnd.
  unfold GetBootstrapContacts. destruct (TopDepth_sub rnd z LOG_BASE_EXPONENT [] true drawn) as (l & E & Hl).
  destruct (TopDepth rnd z LOG_BASE_EXPONENT [] true drawn) as [top drawn']. simpl in E. subst top.
  rewrite copy_required_spec by lia. cbn zeta. destruct (Z.leb_spec n 0); [lia|].
  rewrite Z.sub_0_r, Z.add_0_l, app_nil_l.
  assert (sublist (take (Nat.min (length l) (Z.to_nat n)) l) (entries z)) as Hsub
    by (etransitivity; [apply sublist_take|done]).
  do 3 eexists. split; [reflexivity|]. rewrite length_take. split_and!; [lia|lia| |done].
  by eapply sublist_NoDup.
Qed.

Lemma kad_bootstrap_witness : exists count results drawn',
  GetBootstrapContacts (fun _ => 0) sample_table.1.1 5 0 = (count, results, drawn') /\ count <= 5.
Proof.
  destruct sample_reach as (T & HT & Hr). destruct sample_table as [[z s] sk].
  destruct (kad_bootstrap sample_me false 0 (fun _ => false) T z s sk (fun _ => 0) 5 0
    (wf_of_uint32 0 ltac:(by split)) ltac:(lia) Hr) as (count & results & drawn' & E & _ & Hc & _).
  exists count, results, drawn'. split; [exact E|exact Hc].
Defined.

(** ** The target of a random look-up *)

Lemma agree_prefix_shiftr x v n : wf_uint128 x -> wf_uint128 v -> 0 <= n <= 128 -> agree_prefix x v n ->
  Z.shiftr (value x) (128 - n) = Z.shiftr (value v) (128 - n).
Proof.
  intros Hx Hv Hn H. apply Z.bits_inj'. intros j Hj. rewrite !Z.shiftr_spec by lia.
  destruct (Z.ltb_spec (j + (128 - n)) 128) as [Hlt|Hge].
  - specialize (H (127 - (j + (128 - n))) ltac:(lia)).
    by replace (127 - (127 - (j + (128 - n)))) with (j + (128 - n)) in H by lia.
  - rewrite (testbit_in_width 128 (value x)) by (by apply value_range || lia).
    by rewrite (testbit_in_width 128 (value v)) by (by apply value_range || lia).
Qed.

(** The random identity a zone looks up lies in that zone: its distance from us starts with
    the bits of the zone index, whatever the random numbers. *)
Theorem kad_random_lookup (me : CUInt128) (node_protection : bool) (PublicIP : Z)
  (IsFiltered : Z -> bool) (T : Z) (z : CRoutingZone) (s : KadState) (sk : CSafeKad)
  (rnd : nat -> Z) (junk : CUInt128) (zd : ZoneData) (b : CRoutingBin)
  (Hme : wf_uint128 me) (Hj : wf_uint128 junk)
  (Hr : kad_reach me node_protection PublicIP IsFiltered T (z, s, sk)) (Hl : (zd, b) ∈ leaves z) :
  let x := RandomLookup me rnd junk zd in
  wf_uint128 x /\ Z.shiftr (value (XOR me x)) (128 - m_level zd) = value (m_zoneIndex zd).
Proof.
  pose proof (kad_reach_ok me Hme _ _ _ _ _ Hr) as (Ht & _ & _).
  pose proof (table_leaves_data me s z Ht) as Hd. rewrite Forall_forall in Hd.
  destruct (Hd _ Hl) as (Hlev & Hwf & Hidx). simpl in Hlev, Hwf, Hidx.
  unfold RandomLookup. destruct (ShiftLeft_spec (m_zoneIndex zd) (128 - m_level zd) Hwf ltac:(lia)) as [Vp Wp].
  set (prefix := ShiftLeft (m_zoneIndex zd) (128 - m_level zd)) in *.
  destruct (CUInt128_prefix_spec rnd prefix Wp junk (m_level zd) Hj ltac:(lia)) as [Wx Ax].
  set (y := CUInt128_prefix rnd junk prefix (m_level zd)) in *. simpl. split; [by apply wf_XOR|].
  assert (value (XOR me (XOR y me)) = value y) as ->.
  { rewrite !XOR_value by (done || by apply wf_XOR). apply Z.bits_inj'. intros j _. rewrite !Z.lxor_spec.
    by destruct (Z.testbit (value y) j), (Z.testbit (value me) j). }
  rewrite (agree_prefix_shiftr y prefix) by (done || lia). rewrite Vp.
  assert (2 ^ m_level zd * 2 ^ (128 - m_level zd) = 2 ^ 128) as Hpow
    by (rewrite <- Z.pow_add_r by lia; f_equal; lia).
  assert (0 < 2 ^ (128 - m_level zd)) by (apply Z.pow_pos_nonneg; lia).
  rewrite Z.mod_small by nia. rewrite Z.shiftr_div_pow2 by lia. apply Z.div_mul. lia.
Qed.

Lemma kad_random_lookup_witness : exists zd b, (zd, b) ∈ leaves sample_table.1.1 /\ m_level zd = 1 /\
  Z.shiftr (value (XOR sample_me (RandomLookup sample_me (fun _ => 12345) (of_uint32 0) zd))) 127 = value (m_zoneIndex zd).
Proof.
  assert (exists zd b, (zd, b) ∈ leaves sample_table.1.1 /\ m_level zd = 1) as (zd & b & Hin & Hl)
    by (do 2 eexists; split; [vm_compute; by left|done]).
  exists zd, b. split; [exact Hin|]. split; [exact Hl|].
  destruct sample_reach as (T & HT & Hr). destruct sample_table as [[z s] sk].
  pose proof (proj2 (kad_random_lookup sample_me false 0 (fun _ => false) T z s sk (fun _ => 12345) (of_uint32 0)
    zd b (wf_of_uint32 0 ltac:(by split)) (wf_of_uint32 0 ltac:(by split)) Hr Hin)) as H.
  rewrite Hl in H. exact H.
Defined.

(** ** Counting and searching *)

Lemma GetNumContacts_spec z : GetNumContacts z = u32 (Z.of_nat (length (entries z))).
Proof.
  induction z as [zd b|zd z0 IH0 z1 IH1]; simpl; [done|].
  rewrite IH0, IH1, length_app. unfold wrap. rewrite <- Z.add_mod by done. f_equal. lia.
Qed.

Lemma GetMaxDepth_spec me s z : forall lvl i, zone_ok me s lvl i z -> 0 <= lvl <= 127 ->
  0 <= GetMaxDepth z <= 127 - lvl.
Proof.
  induction z as [zd b|zd z0 IH0 z1 IH1]; intros lvl i Hz Hl; simpl; [lia|].
  destruct Hz as (_ & Hlt & H0 & H1). specialize (IH0 _ _ H0). specialize (IH1 _ _ H1). lia.
Qed.

Lemma find_app {A} (f : A -> bool) l1 l2 : List.find f (l1 ++ l2) =
  match List.find f l1 with Some x => Some x | None => List.find f l2 end.
Proof. induction l1 as [|x l1 IH]; simpl; [done|]. by destruct (f x). Qed.

Lemma GetContactByAddress_spec z ip port tcp s :
  GetContactByAddress z ip port tcp s = List.find (fun p => matches_ip ip port tcp (deref s p)) (entries z).
Proof.
  induction z as [zd b|zd z0 IH0 z1 IH1]; simpl; [done|]. rewrite find_app, IH0, IH1.
  by destruct (List.find _ (entries z0)).
Qed.

Lemma HasOnlyLANNodes_spec z s :
  HasOnlyLANNodes z s = forallb (fun p => IsLanIP (swap32 (ip_of s p))) (entries z).
Proof.
  induction z as [zd b|zd z0 IH0 z1 IH1]; simpl; [done|]. by rewrite forallb_app, IH0, IH1.
Qed.

Lemma count_versions_spec s v l : forall n f, in_width 32 n -> in_width 32 f ->
  count_versions s v l n f =
  (u32 (n + Z.of_nat (length (filter (fun p => m_version (deref s p) >= v) l))),
   u32 (f + Z.of_nat (length (filter (fun p => m_version (deref s p) < v) l)))).
Proof.
  induction l as [|p l IH]; intros n f Hn Hf.
  - simpl. by rewrite !Z.add_0_r, !wrap_small.
  - cbn [count_versions]. rewrite !list.filter_cons, Z.geb_leb.
    destruct (Z.leb_spec v (m_version (deref s p))) as [H|H].
    + rewrite (decide_True (P := m_version (deref s p) >= v)), (decide_False (P := m_version (deref s p) < v)) by lia.
      rewrite IH by (done || apply wrap_range; lia). f_equal. cbn [length]. unfold wrap.
      rewrite Z.add_mod_idemp_l by done. f_equal. lia.
    + rewrite (decide_False (P := m_version (deref s p) >= v)), (decide_True (P := m_version (deref s p) < v)) by lia.
      rewrite IH by (done || apply wrap_range; lia). f_equal. cbn [length]. unfold wrap.
      rewrite Z.add_mod_idemp_l by done. f_equal. lia.
Qed.

Lemma GetNumContactsVersion_spec z v s : forall n f, in_width 32 n -> in_width 32 f ->
  GetNumContactsVersion z v n f s =
  (u32 (n + Z.of_nat (length (filter (fun p => m_version (deref s p) >= v) (entries z)))),
   u32 (f + Z.of_nat (length (filter (fun p => m_version (deref s p) < v) (entries z))))).
Proof.
  induction z as [zd b|zd z0 IH0 z1 IH1]; intros n f Hn Hf; simpl; [by apply count_versions_spec|].
  rewrite IH0 by done. rewrite IH1 by (apply wrap_range; lia). unfold wrap.
  rewrite !Z.add_mod_idemp_l by done. rewrite !filter_app, !length_app. by rewrite !Nat2Z.inj_add, !Z.add_assoc.
Qed.

(** The counts and searches of a reachable table are those of the list of its contacts: all
    entries from left to right, their number, how many have at least a given version, the
    first with a given address and port, whether all are LAN nodes; and the tree is at most 127
    deep. *)
Theorem kad_zone_queries (me : CUInt128) (node_protection : bool) (PublicIP : Z)
  (IsFiltered : Z -> bool) (T : Z) (z : CRoutingZone) (s : KadState) (sk : CSafeKad)
  (ip port v : Z) (tcp : bool) (Hme : wf_uint128 me)
  (Hr : kad_reach me node_protection PublicIP IsFiltered T (z, s, sk)) :
  GetAllEntries z [] true = entries z /\
  GetNumContacts z = u32 (Z.of_nat (length (entries z))) /\
  GetNumContactsVersion z v 0 0 s =
    (u32 (Z.of_nat (length (filter (fun p => m_version (deref s p) >= v) (entries z)))),
     u32 (Z.of_nat (length (filter (fun p => m_version (deref s p) < v) (entries z))))) /\
  GetContactByAddress z ip port tcp s = List.find (fun p => matches_ip ip port tcp (deref s p)) (entries z) /\
  HasOnlyLANNodes z s = forallb (fun p => IsLanIP (swap32 (ip_of s p))) (entries z) /\
  0 <= GetMaxDepth z <= 127.
Proof.
  pose proof (kad_reach_ok me Hme _ _ _ _ _ Hr) as ([Hz _ _] & _ & _). split_and!.
  - by rewrite GetAllEntries_spec.
  - apply GetNumContacts_spec.
  - by apply GetNumContactsVersion_spec.
  - apply GetContactByAddress_spec.
  - apply HasOnlyLANNodes_spec.
  - by apply (GetMaxDepth_spec me s z 0 0 Hz).
  - by apply (GetMaxDepth_spec me s z 0 0 Hz).
Qed.

Lemma kad_zone_queries_witness : GetNumContacts sample_table.1.1 = 11 /\
  GetAllEntries sample_table.1.1 [] true = entries sample_table.1.1.
Proof.
  split; [by vm_compute|]. destruct sample_reach as (T & HT & Hr). destruct sample_table as [[z s] sk].
  exact (proj1 (kad_zone_queries sample_me false 0 (fun _ => false) T z s sk 0 0 0 true
    (wf_of_uint32 0 ltac:(by split)) Hr)).
Defined.
