(* ===== verification/NodesFile.v ===== *)
(** * The file of known Kad nodes ([kademlia/routing/RoutingZone.cpp], [kademlia/utils/KadUDPKey.h])

    [WriteFile] stores a sample of the routing table, [ReadFile] offers the contacts of a file
    to the table, and [ReadBootstrapNodesDat] keeps the fifty contacts closest to our own
    identity of a bootstrap-only file.  The functions work on an opened file behind the
    interface of [DataIO]; the name of the file, opening and closing it are left out. *)
From S2P Require Import Prelude StdMap UInt128 NetworkFunctions DataIO MemFile Contact AgedMap SafeKad RoutingBin RoutingZone RoutingTable RoutingQueries.

Definition CONTACT_FILE_LIMIT : Z := 500.

(** The fields of a contact in the file. *)
Record NodeEntry := mkEntry {
  n_id : CUInt128;
  n_ip : Z;
  n_udpPort : Z;
  n_tcpPort : Z;
  n_version : Z;
  n_key : CKadUDPKey;
  n_verified : bool
}.

Definition entry_of (c : CContact) : NodeEntry :=
  mkEntry (m_clientID c) (m_ip c) (m_udpPort c) (m_tcpPort c) (m_version c) (m_udpKey c) (m_ipVerified c).

Section NodesFile.

Context {F : Type} {IOF : CFileDataIO F}.
Context (me : CUInt128) (node_protection : bool) (PublicIP : Z) (IsFiltered : Z -> bool).

#[local] Open Scope io_scope.

(** ** Keys and entries *)

Definition StoreToFile (k : CKadUDPKey) : IO F unit :=
  seq! WriteUInt32 (m_key k) in WriteUInt32 (udp_m_ip k).

Definition ReadFromFile : IO F CKadUDPKey :=
  let! key := ReadUInt32 in let! ip := ReadUInt32 in io_ret (mkUDPKey key ip).

Definition write_entry (c : NodeEntry) : IO F unit :=
  seq! WriteUInt128 (n_id c) in
  seq! WriteUInt32 (n_ip c) in
  seq! WriteUInt16 (n_udpPort c) in
  seq! WriteUInt16 (n_tcpPort c) in
  seq! WriteUInt8 (n_version c) in
  seq! StoreToFile (n_key c) in
  WriteUInt8 (if n_verified c then 1 else 0).

(** Versions 2 and 3 have the key and the flag. *)
Definition read_entry (fileVersion : Z) : IO F NodeEntry :=
  let! id := ReadUInt128 in
  let! ip := ReadUInt32 in
  let! udpPort := ReadUInt16 in
  let! tcpPort := ReadUInt16 in
  let! contactVersion := ReadUInt8 in
  if fileVersion >=? 2 then
    let! kadUDPKey := ReadFromFile in
    let! verified := ReadUInt8 in
    io_ret (mkEntry id ip udpPort tcpPort contactVersion kadUDPKey (negb (verified =? 0)))
  else io_ret (mkEntry id ip udpPort tcpPort contactVersion CKadUDPKey_zero false).

(** ** Writing *)

Fixpoint write_entries (l : list NodeEntry) (count : Z) : IO F unit :=
  match l with
  | [] => io_ret tt
  | c :: l =>
      let count := count + 1 in
      if count >? CONTACT_FILE_LIMIT then io_ret tt
      else seq! write_entry c in write_entries l count
  end.

(** [None] when no file is written; an exception that is not an [CIOFailureException] would
    leave the function. *)
Definition WriteFile (z : CRoutingZone) (s : KadState) (bootstrapList : list CContact)
  (rnd : nat -> Z) (drawn : nat) (file : F) : option ((exn + unit) * F) :=
  if negb (bool_decide (bootstrapList = [])) && (GetNumContacts z =? 0) then None
  else
    let '(_, contacts, _) := GetBootstrapContacts rnd z 200 drawn in
    let numContacts := Z.min (Z.of_nat (length contacts)) CONTACT_FILE_LIMIT in
    if numContacts <? 25 then None
    else
      Some (match (seq! WriteUInt32 0 in
                   seq! WriteUInt32 2 in
                   seq! WriteUInt32 numContacts in
                   write_entries (map (fun p => entry_of (deref s p)) contacts) 0) file with
            | (inl CIOFailureException, f) => (inr tt, f)
            | r => r
            end).

(** ** Reading *)

(** The contact may be offered to the table. *)
Definition usable (c : NodeEntry) : bool :=
  IsGoodIPPort (swap32 (n_ip c)) (n_udpPort c) && negb (IsFiltered (swap32 (n_ip c))) &&
  negb ((n_udpPort c =? 53) && (n_version c <=? 5)) && (n_version c >? 1).

(** The loop of [ReadFile]: the table so far stays when an exception is thrown. *)
Fixpoint read_entries (now fileVersion : Z) (n : nat) (w : KadTable) (doHaveVerifiedContacts : bool)
  (f : F) : option ((exn + unit) * KadTable * bool * F) :=
  match n with
  | O => Some (inr tt, w, doHaveVerifiedContacts, f)
  | S n =>
      match read_entry fileVersion f with
      | (inl e, f) => Some (inl e, w, doHaveVerifiedContacts, f)
      | (inr c, f) =>
          let doHaveVerifiedContacts := doHaveVerifiedContacts || n_verified c in
          if usable c then
            let '(z, s, sk) := w in
            '(_, _, z, s, sk) ← AddUnfiltered me PublicIP node_protection now z (n_id c) (n_ip c)
              (n_udpPort c) (n_tcpPort c) (n_version c) (n_key c) (n_verified c) false false s sk;
            read_entries now fileVersion n (z, s, sk) doHaveVerifiedContacts f
          else read_entries now fileVersion n w doHaveVerifiedContacts f
      end
  end.

(** The place of a contact in the bootstrap list: before the first one farther away. *)
Fixpoint insert_before (contact : CContact) (l : list CContact) : option (list CContact) :=
  match l with
  | [] => None
  | c :: l =>
      if op_gt (m_distance c) (m_distance contact) then Some (contact :: c :: l)
      else l' ← insert_before contact l; Some (c :: l')
  end.

Definition bootstrap_add (l : list CContact) (contact : CContact) : list CContact :=
  if (Z.of_nat (length l) <? 50) ||
     (match last l with Some c => op_gt (m_distance c) (m_distance contact) | None => false end) then
    match insert_before contact l with
    | None => l ++ [contact]
    | Some l => if Z.of_nat (length l) >? 50 then removelast l else l
    end
  else l.

Fixpoint bootstrap_loop (now : Z) (numContacts : nat) (bootstrapList : list CContact) (f : F) :
  (exn + unit) * list CContact * F :=
  match numContacts with
  | O => (inr tt, bootstrapList, f)
  | S n =>
      match read_entry 1 f with
      | (inl e, f) => (inl e, bootstrapList, f)
      | (inr c, f) =>
          let contact := CContact_new (n_id c) (n_ip c) (n_udpPort c) (n_tcpPort c) (n_version c)
                           CKadUDPKey_zero false me now in
          let bootstrapList := if usable c then bootstrap_add bootstrapList contact else bootstrapList in
          bootstrap_loop now n bootstrapList f
      end
  end.

Definition ReadBootstrapNodesDat (now : Z) (bootstrapList : list CContact) (f : F) :
  (exn + unit) * list CContact * F :=
  match bootstrapList with
  | _ :: _ => (inr tt, bootstrapList, f)
  | [] =>
      match ReadUInt32 f with
      | (inl e, f) => (inl e, [], f)
      | (inr numContacts, f) =>
          if negb (numContacts =? 0) && (u32 (numContacts * 25) =? u64 (GetLength f - GetPosition f))
          then bootstrap_loop now (Z.to_nat numContacts) [] f
          else (inr tt, [], f)
      end
  end.

(** The header: whether the file is bootstrap-only, else its version and number of contacts. *)
Definition read_header : IO F (option (Z * Z)) :=
  let! numContacts := ReadUInt32 in
  if numContacts =? 0 then
    fun f =>
      if GetLength f >=? 8 then
        (let! fileVersion := ReadUInt32 in
         let! bootstrapEdition := (if fileVersion =? 3 then ReadUInt32 else io_ret 0) in
         if (fileVersion =? 3) && (bootstrapEdition =? 1) then io_ret None
         else if (fileVersion >=? 1) && (fileVersion <=? 3)
         then let! numContacts := ReadUInt32 in io_ret (Some (fileVersion, numContacts))
         else io_ret (Some (fileVersion, 0))) f
      else io_ret (Some (0, 0)) f
  else io_ret (Some (0, 0)).

(** [catch (const CSafeIOException &)] *)
Definition catch_io (r : exn + unit) : exn + unit :=
  match r with
  | inl CEOFException | inl CIOFailureException => inr tt
  | r => r
  end.

Definition ReadFile (now : Z) (w : KadTable) (bootstrapList : list CContact) (f : F) :
  option ((exn + unit) * KadTable * list CContact * F) :=
  match read_header f with
  | (inl e, f) => Some (catch_io (inl e), w, bootstrapList, f)
  | (inr None, f) =>
      let '(r, bootstrapList, f) := ReadBootstrapNodesDat now bootstrapList f in
      Some (catch_io r, w, bootstrapList, f)
  | (inr (Some (fileVersion, numContacts)), f) =>
      '(r, w, doHaveVerifiedContacts, f) ←
        (if negb (numContacts =? 0) && (u32 (numContacts * 25) <=? u64 (GetLength f - GetPosition f))
         then read_entries now fileVersion (Z.to_nat numContacts) w false f
         else Some (inr tt, w, false, f));
      let w := match r with
               | inr _ => if doHaveVerifiedContacts : bool then w
                          else (w.1.1, SetAllContactsVerified w.1.1 w.1.2, w.2)
               | inl _ => w
               end in
      Some (catch_io r, w, bootstrapList, f)
  end.

End NodesFile.

(** ** Entries as bytes *)

Record entry_ok (c : NodeEntry) : Prop := {
  eo_id : wf_uint128 (n_id c);
  eo_ip : in_width 32 (n_ip c);
  eo_udp : in_width 16 (n_udpPort c);
  eo_tcp : in_width 16 (n_tcpPort c);
  eo_version : in_width 8 (n_version c);
  eo_key : in_width 32 (m_key (n_key c)) /\ in_width 32 (udp_m_ip (n_key c))
}.

Definition bytes_key (k : CKadUDPKey) : list Z := poke_le 4 (m_key k) ++ poke_le 4 (udp_m_ip k).

Definition bytes_entry (c : NodeEntry) : list Z :=
  bytes128 (n_id c) ++ poke_le 4 (n_ip c) ++ poke_le 2 (n_udpPort c) ++ poke_le 2 (n_tcpPort c) ++
  poke_le 1 (n_version c) ++ bytes_key (n_key c) ++ poke_le 1 (if n_verified c then 1 else 0).

Lemma bytes_entry_length c : length (bytes_entry c) = 34%nat.
Proof. unfold bytes_entry, bytes128, bytes_key. by rewrite !length_app, !poke_le_length. Qed.

Section Codec.

Context {F : Type} {IOF : CFileDataIO F} {laws : FileLaws F}.

#[local] Open Scope io_scope.

Lemma writes_entry c : writes (write_entry c) (bytes_entry c) tt.
Proof.
  unfold write_entry, bytes_entry. eapply writes_bind; [apply writes_UInt128|].
  do 4 (eapply writes_bind; [by apply writes_int|]).
  eapply writes_bind; [|by apply writes_int].
  eapply writes_bind; by apply writes_int.
Qed.

Lemma parses_entry ver c : 2 <= ver -> entry_ok c -> parses (read_entry ver) (bytes_entry c) c.
Proof.
  intros Hv [H1 H2 H3 H4 H5 [H6 H7]]. unfold read_entry, bytes_entry. rewrite (proj2 (Z.geb_le ver 2)) by done.
  eapply parses_bind; [by apply parses_UInt128|]. eapply parses_bind; [by apply parses_UInt32|].
  do 2 (eapply parses_bind; [by apply parses_UInt16|]). eapply parses_bind; [by apply parses_UInt8|].
  eapply parses_bind.
  { eapply parses_bind; [by apply parses_UInt32|].
    by apply (parses_map _ (fun ip => mkUDPKey (m_key (n_key c)) ip)), parses_UInt32. }
  rewrite <- (app_nil_r (poke_le 1 _)). eapply parses_bind; [apply parses_UInt8; by destruct (n_verified c)|].
  assert (mkEntry (n_id c) (n_ip c) (n_udpPort c) (n_tcpPort c) (n_version c)
    (mkUDPKey (m_key (n_key c)) (udp_m_ip (n_key c))) (negb ((if n_verified c then 1 else 0) =? 0)) = c) as ->
    by (destruct c as [? ? ? ? ? [] []]; done).
  apply parses_ret.
Qed.

Lemma yields_entry ver : yields (read_entry ver) entry_ok eof.
Proof.
  unfold read_entry. eapply yields_bind; [apply yields_UInt128|]. intros id H1.
  eapply yields_bind; [apply yields_UInt32|]. intros ip H2.
  eapply yields_bind; [apply yields_UInt16|]. intros udp H3.
  eapply yields_bind; [apply yields_UInt16|]. intros tcp H4.
  eapply yields_bind; [apply yields_UInt8|]. intros v H5. destruct (ver >=? 2).
  - eapply (yields_bind _ _ (fun k => in_width 32 (m_key k) /\ in_width 32 (udp_m_ip k))).
    + eapply yields_bind; [apply yields_UInt32|]. intros k H6.
      eapply yields_bind; [apply yields_UInt32|]. intros kip H7. by apply yields_ret.
    + intros k H6. eapply yields_bind; [apply yields_UInt8|]. intros b _. by apply yields_ret.
  - by apply yields_ret.
Qed.

Lemma writes_entries l : forall count, 0 <= count -> count + Z.of_nat (length l) <= CONTACT_FILE_LIMIT ->
  writes (write_entries l count) (concat (map bytes_entry l)) tt.
Proof.
  induction l as [|c l IH]; intros count Hc Hl; [apply writes_ret|].
  cbn [write_entries map concat length] in *. cbv zeta.
  rewrite Z.gtb_ltb, (proj2 (Z.ltb_ge _ _)) by lia.
  eapply writes_bind; [apply writes_entry|]. apply IH; lia.
Qed.

Lemma concat_entries_length l : length (concat (map bytes_entry l)) = (34 * length l)%nat.
Proof.
  induction l as [|c l IH]; [done|]. cbn [map concat length]. rewrite length_app, bytes_entry_length, IH. lia.
Qed.

(** The header of a file with [n] contacts of version 2. *)
Definition bytes_header (n : Z) : list Z := poke_le 4 0 ++ poke_le 4 2 ++ poke_le 4 n.

Lemma parses_header n : in_width 32 n -> parses read_header (bytes_header n) (Some (2, n)).
Proof.
  intros Hn. unfold read_header, bytes_header. eapply parses_bind; [by apply parses_UInt32|].
  change (0 =? 0) with true. cbv iota. intros f rest Hf Hp E.
  destruct (parses_at f _ _ Hf Hp E) as [HL _]. rewrite length_app, !poke_le_length in HL.
  destruct (law_position f Hf) as [HP _]. rewrite (proj2 (Z.geb_le (GetLength f) 8)) by lia.
  set (m := io_bind ReadUInt32 _).
  assert (parses m (poke_le 4 2 ++ poke_le 4 n) (Some (2, n))) as Hm; [|by apply (Hm f rest)].
  clear HL HP Hp Hf E rest f. unfold m. eapply parses_bind; [by apply parses_UInt32|].
  change (2 =? 3) with false. cbv iota. rewrite <- (app_nil_l (poke_le 4 n)).
  eapply parses_bind; [apply parses_ret|]. cbn [andb].
  by apply (parses_map _ (fun n => Some (2, n))), parses_UInt32.
Qed.

Lemma yields_header : yields read_header (fun _ => True) eof.
Proof.
  unfold read_header. eapply yields_bind; [apply yields_UInt32|]. intros n _.
  destruct (n =? 0); [|by apply yields_ret]. intros f Hf. unfold outcome.
  destruct (GetLength f >=? 8); [|by apply yields_ret]. revert f Hf.
  eapply yields_bind; [apply yields_UInt32|]. intros ver _.
  eapply (yields_bind _ _ (fun _ => True)).
  { destruct (ver =? 3); [|by apply yields_ret]. eapply yields_mono; [apply yields_UInt32|done..]. }
  intros ed _. destruct (_ && _); [by apply yields_ret|].
  destruct (_ && _); [|by apply yields_ret].
  eapply yields_bind; [apply yields_UInt32|]. intros m _. by apply yields_ret.
Qed.

End Codec.

(** ** Reading a file is a sequence of offers to the table *)

Section Reading.

Context {F : Type} {IOF : CFileDataIO F} {laws : FileLaws F}.
Context (me : CUInt128) (Hme : wf_uint128 me) (node_protection : bool) (PublicIP : Z) (IsFiltered : Z -> bool).

#[local] Open Scope io_scope.

Abbreviation kadrun := (kad_run me node_protection PublicIP IsFiltered).
Abbreviation kadexec := (kad_exec me node_protection PublicIP IsFiltered).

Definition offer (c : NodeEntry) : kad_call :=
  CallAddUnfiltered (n_id c) (n_ip c) (n_udpPort c) (n_tcpPort c) (n_version c) (n_key c) (n_verified c) false false.

(** The calls that the contacts of a file amount to. *)
Definition offers (l : list NodeEntry) : list kad_call := map offer (List.filter (usable IsFiltered) l).

Lemma offers_ok l : Forall entry_ok l -> Forall call_ok (offers l).
Proof.
  induction 1 as [|c l [H1 H2 _ _ _ _] _ IH]; [constructor|]. unfold offers in *. simpl.
  destruct (usable IsFiltered c); [|done]. by constructor.
Qed.

(** One more contact. *)
Lemma read_entries_step now ver n w hv c f f1 : read_entry ver f = (inr c, f1) ->
  read_entries me node_protection PublicIP IsFiltered now ver (S n) w hv f =
    match kadrun now (offers [c]) w with
    | Some w => read_entries me node_protection PublicIP IsFiltered now ver n w (hv || n_verified c) f1
    | None => None
    end.
Proof.
  intros E. cbn [read_entries]. rewrite E. unfold offers. simpl. destruct (usable IsFiltered c); [|done].
  destruct w as [[z s] sk]. simpl.
  by destruct (AddUnfiltered _ _ _ _ _ _ _ _ _ _ _ _ _ _ _ _) as [[[[[? ?] ?] ?] ?]|].
Qed.

Lemma kad_run_app now l1 l2 w :
  kadrun now (l1 ++ l2) w = match kadrun now l1 w with Some w => kadrun now l2 w | None => None end.
Proof.
  revert w. induction l1 as [|c l1 IH]; intros w; [done|]. simpl. destruct (kadexec now c w); [apply IH|done].
Qed.

Lemma offers_cons c l : offers (c :: l) = offers [c] ++ offers l.
Proof. unfold offers. simpl. by destruct (usable IsFiltered c). Qed.

Lemma kad_run_total T now l w : kad_reach me node_protection PublicIP IsFiltered T w -> T <= now ->
  Forall call_ok l -> exists T' w', kadrun now l w = Some w' /\ T' <= now /\
    kad_reach me node_protection PublicIP IsFiltered T' w'.
Proof.
  intros Hr HT. revert T w Hr HT. induction l as [|c l IH]; intros T w Hr HT Hl; [by exists T, w|].
  apply Forall_cons in Hl as [Hc Hl].
  destruct (kad_exec_ok me Hme node_protection PublicIP IsFiltered T now c w) as (w1 & E & _);
    [by eapply kad_reach_ok|done|done|].
  simpl. rewrite E. apply (IH now); [|lia|done]. by eapply kad_reach_step.
Qed.

(** Entries that are there are offered in their order. *)
Lemma read_entries_parses now l : Forall entry_ok l -> forall w hv f rest,
  file_ok f -> GetPosition f <= GetLength f ->
  drop (Z.to_nat (GetPosition f)) (content f) = concat (map bytes_entry l) ++ rest ->
  exists f', content f' = content f /\
    read_entries me node_protection PublicIP IsFiltered now 2 (length l) w hv f =
      match kadrun now (offers l) w with
      | Some w' => Some (inr tt, w', hv || existsb n_verified l, f')
      | None => None
      end.
Proof.
  induction 1 as [|c l Hc _ IH]; intros w hv f rest Hf Hp E.
  - exists f. split; [done|]. simpl. by rewrite orb_false_r.
  - cbn [map concat] in E. rewrite <- app_assoc in E.
    destruct (parses_entry 2 c ltac:(done) Hc f _ Hf Hp E) as (f1 & E1 & Hf1 & C1 & P1).
    destruct (parses_at f _ _ Hf Hp E) as [HL E'].
    cbn [length existsb]. rewrite (read_entries_step _ _ _ _ _ _ _ _ E1), (offers_cons c l), kad_run_app.
    destruct (kadrun now (offers [c]) w) as [w1|]; [|by exists f; split].
    destruct (IH w1 (hv || n_verified c) f1 rest Hf1) as (f' & C' & E2).
    + rewrite (length_kept f f1 Hf Hf1 C1). lia.
    + by rewrite P1, C1.
    + exists f'. split; [congruence|]. by rewrite E2, orb_assoc.
Qed.

(** Whatever the file holds, what is read of it is offered, up to the end of the file. *)
Lemma read_entries_any T now ver n : forall w hv f,
  kad_reach me node_protection PublicIP IsFiltered T w -> T <= now -> file_ok f ->
  exists r w' hv' f' l T', read_entries me node_protection PublicIP IsFiltered now ver n w hv f =
      Some (r, w', hv', f') /\
    (r = inr tt \/ r = inl CEOFException) /\ file_ok f' /\ content f' = content f /\
    Forall entry_ok l /\ (length l <= n)%nat /\ kadrun now (offers l) w = Some w' /\
    T' <= now /\ kad_reach me node_protection PublicIP IsFiltered T' w'.
Proof.
  revert T. induction n as [|n IH]; intros T w hv f Hr HT Hf.
  - exists (inr tt), w, hv, f, [], T. split_and!; auto.
  - destruct (yields_entry ver f Hf) as (f1 & Hf1 & C1 & _ & [(c & E1 & Hc)|(e & E1 & -> & _)]).
    + rewrite (read_entries_step _ _ _ _ _ _ _ _ E1).
      destruct (kad_run_total T now (offers [c]) w Hr HT) as (T1 & w1 & E0 & HT1 & Hr1);
        [apply offers_ok; by constructor|]. rewrite E0.
      destruct (IH T1 w1 (hv || n_verified c) f1 Hr1 HT1 Hf1)
        as (r & w' & hv' & f' & l & T' & E & H1 & H2 & H3 & H4 & H5 & H6 & H7 & H8).
      exists r, w', hv', f', (c :: l), T'. rewrite (offers_cons c l), kad_run_app.
      rewrite E0. split_and!; try done; [congruence|by constructor|simpl; lia].
    + exists (inl CEOFException), w, hv, f1, [], T. cbn [read_entries]. rewrite E1. split_and!; auto. simpl. lia.
Qed.

End Reading.

(** ** The bootstrap list *)

Section Bootstrap.

Context (me : CUInt128) (Hme : wf_uint128 me) (IsFiltered : Z -> bool).

Definition dist_of (c : CContact) : Z := value (m_distance c).

Definition farther (contact c : CContact) : bool := op_gt (m_distance c) (m_distance contact).

Definition nearer_eq (c c' : CContact) : Prop := dist_of c <= dist_of c'.

Lemma farther_spec c c' : wf_uint128 (m_distance c) -> wf_uint128 (m_distance c') ->
  farther c c' = (dist_of c <? dist_of c').
Proof.
  intros H1 H2. unfold farther, op_gt, dist_of. rewrite CompareTo_spec by done. repeat case_cmp; lia.
Qed.

(** A new contact goes behind the ones that are not farther. *)
Fixpoint sorted_insert (contact : CContact) (l : list CContact) : list CContact :=
  match l with
  | [] => [contact]
  | c :: l => if farther contact c then contact :: c :: l else c :: sorted_insert contact l
  end.

Lemma insert_before_spec c l :
  match insert_before c l with
  | Some l' => l' = sorted_insert c l /\ Exists (fun d => farther c d = true) l
  | None => sorted_insert c l = l ++ [c] /\ Forall (fun d => farther c d = false) l
  end.
Proof.
  induction l as [|d l IH]; simpl; [by split|]. unfold farther in *.
  destruct (op_gt (m_distance d) (m_distance c)) eqn:E; [split; [done|by left]|].
  destruct (insert_before c l) as [l'|]; simpl; destruct IH as [H1 H2].
  - split; [by rewrite H1|by right].
  - split; [by rewrite H1|by constructor].
Qed.

Lemma sorted_insert_take c n l : Exists (fun d => farther c d = true) (take n l) ->
  take n (sorted_insert c l) = take n (sorted_insert c (take n l)).
Proof.
  revert n. induction l as [|d l IH]; intros n He; [by rewrite take_nil|]. destruct n as [|n]; [done|].
  simpl. destruct (farther c d) eqn:E; simpl;
    [|f_equal; apply IH; simpl in He; apply Exists_cons in He as [He|He]; [congruence|done]].
  f_equal. clear. destruct n; [done|]. simpl. f_equal. rewrite take_take. f_equal. lia.
Qed.

Lemma sorted_insert_skip c n l : Forall (fun d => farther c d = false) (take n l) -> (n <= length l)%nat ->
  take n (sorted_insert c l) = take n l.
Proof.
  revert n. induction l as [|d l IH]; intros n Hf Hn; simpl in *; [by replace n with 0%nat by lia|].
  destruct n as [|n]; [done|]. simpl in Hf. apply Forall_cons in Hf as [-> Hf]. simpl. f_equal.
  apply IH; [done|lia].
Qed.

Lemma sorted_insert_length c l : length (sorted_insert c l) = S (length l).
Proof. induction l as [|d l IH]; simpl; [done|]. destruct (farther c d); simpl; lia. Qed.

Lemma sorted_insert_perm c l : Permutation (sorted_insert c l) (c :: l).
Proof.
  induction l as [|d l IH]; simpl; [done|]. destruct (farther c d); [done|].
  rewrite IH. apply Permutation_swap.
Qed.

Definition contact_wf (c : CContact) : Prop := wf_uint128 (m_distance c).

Lemma sorted_insert_sorted c l : contact_wf c -> Forall contact_wf l -> StronglySorted nearer_eq l ->
  StronglySorted nearer_eq (sorted_insert c l).
Proof.
  intros Hc Hl. induction 1 as [|d l Hs IH Hd]; simpl; [by repeat constructor|].
  apply Forall_cons in Hl as [Hwd Hl]. rewrite farther_spec by done. destruct (Z.ltb_spec (dist_of c) (dist_of d)).
  - constructor; [by constructor|]. constructor; [unfold nearer_eq; lia|].
    eapply Forall_impl; [exact Hd|]. unfold nearer_eq. intros x Hx. simpl in Hx. lia.
  - constructor; [by apply IH|]. rewrite sorted_insert_perm. constructor; [unfold nearer_eq; lia|done].
Qed.

(** Keeping fifty contacts is the same as sorting and cutting at the end. *)
Lemma bootstrap_add_take c l : contact_wf c -> Forall contact_wf l -> StronglySorted nearer_eq l ->
  bootstrap_add (take 50 l) c = take 50 (sorted_insert c l).
Proof.
  intros Hc Hl Hs. unfold bootstrap_add.
  pose proof (insert_before_spec c (take 50 l)) as Hi.
  destruct (Nat.lt_ge_cases (length l) 50) as [Hlt|Hge].
  - rewrite (take_ge l) in * by lia. rewrite (proj2 (Z.ltb_lt _ _)) by lia. cbn [orb].
    rewrite (take_ge (sorted_insert c l)) by (rewrite sorted_insert_length; lia).
    destruct (insert_before c l) as [l'|]; destruct Hi as [Hi _]; [|done].
    rewrite Hi, sorted_insert_length, Z.gtb_ltb, (proj2 (Z.ltb_ge _ _)) by lia. done.
  - assert (length (take 50 l) = 50%nat) as Hlen by (rewrite length_take; lia).
    rewrite Hlen. change (Z.of_nat 50 <? 50) with false. cbn [orb].
    destruct (exists_last (l := take 50 l)) as (l0 & d & Ed); [by intros E; rewrite E in Hlen|].
    rewrite Ed, last_snoc, <- Ed. fold (farther c d).
    pose proof (StronglySorted_app_iff nearer_eq l0 [d]) as Happ. rewrite <- Ed in Happ.
    assert (StronglySorted nearer_eq (take 50 l)) as Hs50.
    { rewrite <- (take_drop 50 l) in Hs. by apply StronglySorted_app_iff in Hs as [Hs _]. }
    apply Happ in Hs50 as (_ & _ & Hlast). clear Happ.
    assert (Forall contact_wf (take 50 l)) as Hw50 by by apply Forall_take.
    destruct (farther c d) eqn:Efar.
    + assert (Exists (fun d => farther c d = true) (take 50 l)) as Hex
        by (rewrite Ed; apply Exists_app; right; by left).
      destruct (insert_before c (take 50 l)) as [l'|].
      * destruct Hi as [-> _]. rewrite sorted_insert_length, Hlen. change (Z.of_nat 51 >? 50) with true. cbv iota.
        rewrite (sorted_insert_take c 50 l Hex), removelast_firstn_len, sorted_insert_length, Hlen. done.
      * destruct Hi as [_ Hi]. rewrite Exists_exists in Hex. rewrite Forall_forall in Hi.
        destruct Hex as (x & Hx & Hf). rewrite (Hi x Hx) in Hf. done.
    + symmetry. apply sorted_insert_skip; [|done]. rewrite Ed in *. apply Forall_app in Hw50 as [Hw0 Hwd].
      apply Forall_app. split; [|by constructor]. apply Forall_cons in Hwd as [Hwd _].
      rewrite farther_spec in Efar by done. apply Z.ltb_ge in Efar.
      rewrite Forall_forall in Hw0, Hlast |- *. intros x Hx. rewrite farther_spec by (done || by apply Hw0).
      specialize (Hlast x Hx). apply Forall_cons in Hlast as [Hle _]. unfold nearer_eq in Hle.
      apply Z.ltb_ge. lia.
Qed.

Definition candidate (now : Z) (c : NodeEntry) : CContact :=
  CContact_new (n_id c) (n_ip c) (n_udpPort c) (n_tcpPort c) (n_version c) CKadUDPKey_zero false me now.

Definition candidates (now : Z) (l : list NodeEntry) : list CContact :=
  map (candidate now) (List.filter (usable IsFiltered) l).

Lemma candidates_wf now l : Forall entry_ok l -> Forall contact_wf (candidates now l).
Proof.
  induction 1 as [|c l [H1 _ _ _ _ _] _ IH]; [constructor|]. unfold candidates in *. simpl.
  destruct (usable IsFiltered c); [|done]. constructor; [|done]. unfold contact_wf. simpl. by apply wf_XOR.
Qed.

(** The fifty closest of [cs], in order of their distance. *)
Definition fifty_closest (bl cs : list CContact) : Prop :=
  StronglySorted nearer_eq bl /\ length bl = Nat.min 50 (length cs) /\
  exists rest, Permutation (bl ++ rest) cs /\ Forall (fun c => Forall (nearer_eq c) rest) bl.

Lemma bootstrap_fold cs : Forall contact_wf cs -> fifty_closest (fold_left bootstrap_add cs []) cs.
Proof.
  intros Hcs. assert (exists l, fold_left bootstrap_add cs [] = take 50 l /\ Permutation l cs /\
    StronglySorted nearer_eq l) as (l & -> & Hp & Hs).
  { induction cs as [|c cs IH] using rev_ind; [exists []; split_and!; [done|done|constructor]|].
    apply Forall_app in Hcs as [Hcs Hc]. apply Forall_cons in Hc as [Hc _].
    destruct (IH Hcs) as (l & E & Hp & Hs). rewrite fold_left_app, E. simpl.
    assert (Forall contact_wf l) as Hl by by rewrite Hp.
    exists (sorted_insert c l). split; [by apply bootstrap_add_take|]. split; [|by apply sorted_insert_sorted].
    rewrite sorted_insert_perm, Hp. apply Permutation_cons_append. }
  rewrite <- (take_drop 50 l) in Hs. apply StronglySorted_app_iff in Hs as (H1 & _ & H3).
  split; [done|]. split; [by rewrite length_take, Hp|].
  exists (drop 50 l). by rewrite take_drop.
Qed.

End Bootstrap.

(** ** Files as a whole *)

Lemma file_size {F} {IOF : CFileDataIO F} {laws : FileLaws F} f n es : file_ok f ->
  content f = bytes_header n ++ concat (map bytes_entry es) -> Z.of_nat (length es) = n ->
  GetLength f = 12 + 34 * n.
Proof.
  intros Hf E Hn. destruct (law_content f Hf) as [_ ->].
  rewrite E, length_app, concat_entries_length. unfold bytes_header. rewrite !length_app, !poke_le_length. lia.
Qed.

Lemma bootstrap_loop_any {F} {IOF : CFileDataIO F} {laws : FileLaws F} me IsFiltered now n : forall bl f,
  file_ok f -> exists r l f', bootstrap_loop me IsFiltered now n bl f =
      (r, fold_left bootstrap_add (candidates me IsFiltered now l) bl, f') /\
    (r = inr tt /\ length l = n \/ r = inl CEOFException) /\ file_ok f' /\ content f' = content f /\
    Forall entry_ok l /\ (length l <= n)%nat.
Proof.
  induction n as [|n IH]; intros bl f Hf; [exists (inr tt), [], f; split_and!; auto|].
  cbn [bootstrap_loop]. destruct (yields_entry 1 f Hf) as (f1 & Hf1 & C1 & _ & [(c & -> & Hc)|(e & -> & -> & _)]).
  - destruct (IH (if usable IsFiltered c then bootstrap_add bl (candidate me now c) else bl) f1 Hf1)
      as (r & l & f' & E & Hr & Hf' & C' & Hl & Hlen).
    exists r, (c :: l), f'. fold (candidate me now c). rewrite E. split_and!; try done; [| |congruence|by constructor|simpl; lia].
    + unfold candidates. simpl. by destruct (usable IsFiltered c).
    + destruct Hr as [[-> <-]|Hr]; auto.
  - exists (inl CEOFException), [], f1. split_and!; auto. simpl. lia.
Qed.

Lemma ReadBootstrapNodesDat_spec {F} {IOF : CFileDataIO F} {laws : FileLaws F} me IsFiltered now bl f :
  wf_uint128 me -> file_ok f ->
  exists r bl' f', ReadBootstrapNodesDat me IsFiltered now bl f = (r, bl', f') /\
    content f' = content f /\ (r = inr tt \/ r = inl CEOFException) /\
    (bl <> [] -> bl' = bl) /\
    (bl = [] -> exists l, Forall entry_ok l /\ fifty_closest bl' (candidates me IsFiltered now l)).
Proof.
  intros Hme Hf.
  assert (fifty_closest [] []) as H0 by (split; [constructor|split; [done|by exists []]]).
  destruct bl as [|c bl]; [|exists (inr tt), (c :: bl), f; split_and!; auto; done]. unfold ReadBootstrapNodesDat.
  destruct (yields_UInt32 f Hf) as (f1 & Hf1 & C1 & _ & [(n & -> & Hn)|(e & -> & -> & _)]).
  2: { exists (inl CEOFException), [], f1. split_and!; auto. intros _. by exists []. }
  destruct (_ && _).
  - destruct (bootstrap_loop_any me IsFiltered now (Z.to_nat n) [] f1 Hf1) as (r & l & f' & -> & Hr & _ & C' & Hl & _).
    do 3 eexists. split; [done|]. split; [congruence|]. split; [tauto|]. split; [done|]. intros _.
    exists l. split; [done|]. by apply bootstrap_fold, candidates_wf.
  - exists (inr tt), [], f1. split_and!; auto. intros _. by exists [].
Qed.

(** ** Properties *)

(** A bootstrap-only file, whatever it holds, fills the bootstrap list with the fifty usable
    contacts closest to our identity among those read, in order of their distance; the list is
    left alone when it is not empty. *)
Theorem nodes_bootstrap_closest (F : Type) (IOF : CFileDataIO F) (laws : FileLaws F) (me : CUInt128)
  (IsFiltered : Z -> bool) (now : Z) (bl : list CContact) (f : F) (Hme : wf_uint128 me) (Hf : file_ok f) :
  exists r bl' f', ReadBootstrapNodesDat me IsFiltered now bl f = (r, bl', f') /\
    content f' = content f /\ (r = inr tt \/ r = inl CEOFException) /\
    (bl <> [] -> bl' = bl) /\
    (bl = [] -> exists l, Forall entry_ok l /\ fifty_closest bl' (candidates me IsFiltered now l)).
Proof. by apply ReadBootstrapNodesDat_spec. Qed.

(** C25: Reading a file of nodes into a reachable table always ends, whatever the file holds: no
    exception leaves the function, the file is not changed, and the table is again a reachable
    one, obtained by offering it well-formed contacts in order, so all its invariants hold. *)
Theorem nodes_file_safe (F : Type) (IOF : CFileDataIO F) (laws : FileLaws F) (me : CUInt128)
  (node_protection : bool) (PublicIP : Z) (IsFiltered : Z -> bool) (T now : Z) (w : KadTable)
  (bl : list CContact) (f : F) (Hme : wf_uint128 me) (HT : T <= now) (Hf : file_ok f)
  (Hr : kad_reach me node_protection PublicIP IsFiltered T w) :
  exists w' bl' f' l T', ReadFile me node_protection PublicIP IsFiltered now w bl f = Some (inr tt, w', bl', f') /\
    content f' = content f /\ T' <= now /\ kad_reach me node_protection PublicIP IsFiltered T' w' /\
    Forall entry_ok l /\
    (kad_run me node_protection PublicIP IsFiltered now (offers IsFiltered l) w = Some w' \/
     kad_run me node_protection PublicIP IsFiltered now (offers IsFiltered l ++ [CallSetAllVerified]) w = Some w').
Proof.
  unfold ReadFile.
  destruct (yields_header f Hf) as (f1 & Hf1 & C1 & _ & [(h & -> & _)|(e & -> & -> & _)]).
  2: { exists w, bl, f1, [], T. split_and!; auto. }
  destruct h as [[ver n]|].
  2: { destruct (ReadBootstrapNodesDat_spec me IsFiltered now bl f1 Hme Hf1) as (r & bl' & f' & -> & C' & Hr' & _).
       exists w, bl', f', [], T. split_and!; auto; [by destruct Hr' as [-> | ->]|congruence]. }
  assert (forall T' w', T' <= now -> kad_reach me node_protection PublicIP IsFiltered T' w' ->
    kad_exec me node_protection PublicIP IsFiltered now CallSetAllVerified w' =
      Some (w'.1.1, SetAllContactsVerified w'.1.1 w'.1.2, w'.2) /\
    kad_reach me node_protection PublicIP IsFiltered now (w'.1.1, SetAllContactsVerified w'.1.1 w'.1.2, w'.2)) as Hall.
  { intros T' [[z s] sk] HT' Hw'. split; [done|]. by eapply (kad_reach_step _ _ _ _ T' now CallSetAllVerified). }
  destruct (_ && _).
  - destruct (read_entries_any me Hme node_protection PublicIP IsFiltered T now ver (Z.to_nat n) w false f1 Hr HT Hf1)
      as (r & w' & hv & f' & l & T' & -> & Hr' & Hf' & C' & Hl & _ & Hrun & HT' & Hw').
    destruct (Hall T' w' HT' Hw') as [HE HR]. cbn [mbind option_bind].
    destruct Hr' as [-> | ->]; [|exists w', bl, f', l, T'; split_and!; auto; congruence].
    destruct hv; [exists w', bl, f', l, T'; split_and!; auto; congruence|].
    do 2 eexists. exists f', l, now. split; [done|]. split; [congruence|]. split; [lia|]. split; [done|].
    split; [done|]. right. rewrite kad_run_app, Hrun. cbn [kad_run]. by rewrite HE.
  - destruct (Hall T w HT Hr) as [HE HR]. cbn [mbind option_bind].
    do 2 eexists. exists f1, [], now. split; [done|]. split; [done|]. split; [lia|]. split; [done|].
    split; [done|]. right. change (offers IsFiltered [] ++ [CallSetAllVerified]) with [CallSetAllVerified].
    cbn [kad_run]. by rewrite HE.
Qed.

(** C26: The contacts that [WriteFile] stores are, in the same order and with all their fields,
    those that [ReadFile] offers to the table when it reads the file again; they count as
    verified when none of them was; and a sample of fewer than 25 contacts is not stored. *)
Theorem nodes_file_roundtrip (F : Type) (IOF : CFileDataIO F) (laws : FileLaws F) (me : CUInt128)
  (node_protection : bool) (PublicIP : Z) (IsFiltered : Z -> bool) (T now : Z) (w : KadTable)
  (z : CRoutingZone) (s : KadState) (rnd : nat -> Z) (drawn drawn' : nat) (count : Z) (contacts : list Z)
  (bl : list CContact) (file : F) (Hme : wf_uint128 me) (HT : T <= now)
  (Hr : kad_reach me node_protection PublicIP IsFiltered T w)
  (HB : GetBootstrapContacts rnd z 200 drawn = (count, contacts, drawn'))
  (Hlen : Z.of_nat (length contacts) <= CONTACT_FILE_LIMIT)
  (Hes : Forall entry_ok (map (fun p => entry_of (deref s p)) contacts))
  (Hf : file_ok file) (H0 : content file = [] /\ GetPosition file = 0)
  (Hroom : room file (12 + 34 * Z.of_nat (length contacts))) :
  let es := map (fun p => entry_of (deref s p)) contacts in
  (Z.of_nat (length contacts) < 25 -> WriteFile z s [] rnd drawn file = None) /\
  (25 <= Z.of_nat (length contacts) -> exists f1, WriteFile z s [] rnd drawn file = Some (inr tt, f1) /\
     file_ok f1 /\ content f1 = bytes_header (Z.of_nat (length contacts)) ++ concat (map bytes_entry es) /\
     forall f2, file_ok f2 -> content f2 = content f1 -> GetPosition f2 = 0 ->
       exists w' f3, ReadFile me node_protection PublicIP IsFiltered now w bl f2 = Some (inr tt, w', bl, f3) /\
         kad_run me node_protection PublicIP IsFiltered now
           (offers IsFiltered es ++ if existsb n_verified es then [] else [CallSetAllVerified]) w = Some w').
Proof.
  intros es. unfold CONTACT_FILE_LIMIT in Hlen. assert (length es = length contacts) as Hles by apply length_map.
  unfold WriteFile. rewrite bool_decide_true by done. cbn [negb andb]. rewrite HB.
  change CONTACT_FILE_LIMIT with 500. rewrite Z.min_l by lia.
  split; intros Hn; [by rewrite (proj2 (Z.ltb_lt _ 25))|]. rewrite (proj2 (Z.ltb_ge _ 25)) by lia.
  fold es. set (n := Z.of_nat (length contacts)) in *. destruct H0 as [C0 P0].
  destruct (law_content file Hf) as [_ L0]. rewrite C0 in L0. simpl in L0.
  assert (writes (seq! WriteUInt32 0 in seq! WriteUInt32 2 in seq! WriteUInt32 n in write_entries es 0)%io
    (bytes_header n ++ concat (map bytes_entry es)) tt) as Hw.
  { unfold bytes_header. rewrite <- !app_assoc. do 3 (eapply writes_bind; [by apply writes_int|]).
    apply writes_entries; [done|]. unfold CONTACT_FILE_LIMIT. lia. }
  destruct (Hw file Hf) as (f1 & -> & Hf1 & C1 & _ & _); [lia| |].
  { replace (Z.of_nat (length (bytes_header n ++ concat (map bytes_entry es)))) with (12 + 34 * n); [done|].
    rewrite length_app, concat_entries_length, Hles. unfold bytes_header. rewrite !length_app, !poke_le_length. lia. }
  exists f1. split; [done|]. split; [done|].
  assert (content f1 = bytes_header n ++ concat (map bytes_entry es)) as C2.
  { rewrite C1, C0. unfold splice. rewrite P0, drop_nil. simpl. by rewrite app_nil_r. }
  split; [done|]. intros f2 Hf2 Cf2 Pf2.
  assert (drop (Z.to_nat (GetPosition f2)) (content f2) = bytes_header n ++ concat (map bytes_entry es)) as E2
    by (by rewrite Cf2, C2, Pf2).
  pose proof (file_size f2 n es Hf2 ltac:(congruence) ltac:(lia)) as HL2.
  destruct (parses_header n ltac:(width_lia) f2 _ Hf2 ltac:(lia) E2) as (f3 & E3 & Hf3 & C3 & P3).
  destruct (parses_at f2 _ _ Hf2 ltac:(lia) E2) as [_ E4].
  assert (Z.of_nat (length (bytes_header n)) = 12) as Hh by done. rewrite Hh, Pf2 in *. simpl in P3.
  pose proof (length_kept f2 f3 Hf2 Hf3 C3) as HL3.
  unfold ReadFile. rewrite E3. rewrite (wrap_small 32), (wrap_small 64) by width_lia.
  rewrite (proj2 (Z.eqb_neq n 0)), (proj2 (Z.leb_le _ _)) by lia. cbn [negb andb].
  replace (Z.to_nat n) with (length es) by lia.
  destruct (read_entries_parses me node_protection PublicIP IsFiltered now es Hes w false f3 [] Hf3)
    as (f4 & C4 & ->); [lia|by rewrite app_nil_r, C3, P3|].
  destruct (kad_run_total me Hme node_protection PublicIP IsFiltered T now (offers IsFiltered es) w Hr HT)
    as (T' & w' & E5 & HT' & Hw'); [by apply offers_ok|].
  rewrite kad_run_app, E5. cbn [mbind option_bind orb]. destruct (existsb n_verified es); [by eauto|].
  destruct w' as [[z' s'] sk']. do 2 eexists. split; [done|]. done.
Qed.

(** *** Witnesses *)

Definition sample_node (n : Z) : CContact :=
  CContact_new (of_uint32 (n + 1)) (0x05060701 + 65536 * n) 4672 4662 8 (mkUDPKey 7 9) (n =? 3) (of_uint32 0) 0.

Definition sample_nodes : list (Z * CContact) := map (fun n => (n, sample_node n)) (seqZ 0 25).

(** A tree of three leaves with 25 contacts. *)
Definition sample_nodes_state : KadState := mkKad (list_to_map sample_nodes) 25 [] [] 0.

Definition sample_nodes_zone : CRoutingZone :=
  let zd := mkZone 0 (of_uint32 0) 0 0 false in
  ZNode zd (ZLeaf zd (mkBin (seqZ 0 10) false))
    (ZNode zd (ZLeaf zd (mkBin (seqZ 10 10) false)) (ZLeaf zd (mkBin (seqZ 20 5) false))).

Lemma sample_entries : Forall entry_ok (map (fun p => entry_of (deref sample_nodes_state p)) (seqZ 0 25)).
Proof.
  rewrite <- (map_map (deref sample_nodes_state) entry_of).
  replace (map (deref sample_nodes_state) (seqZ 0 25)) with (map sample_node (seqZ 0 25)) by (vm_compute; reflexivity).
  rewrite map_map. apply Forall_map, Forall_forall. intros n Hn. apply elem_of_seqZ in Hn.
  split; simpl; try done; [apply wf_of_uint32; width_lia|width_lia].
Qed.

Lemma nodes_file_roundtrip_witness :
  let IOF := CMemFile_IO calloc_4096 in
  exists f1 w' f3, WriteFile sample_nodes_zone sample_nodes_state [] (fun _ => 0) 0 (CMemFile_new 1024) = Some (inr tt, f1) /\
    ReadFile (of_uint32 0) false 0 (fun _ => false) 0 (kad_init 0) [] (set_mem_position 0 f1) = Some (inr tt, w', [], f3).
Proof.
  intros IOF. set (laws := CMemFile_laws calloc_4096 4096 ltac:(done) calloc_ok).
  destruct (nodes_file_roundtrip CMemFile IOF laws (of_uint32 0) false 0 (fun _ => false) 0 0 (kad_init 0)
    sample_nodes_zone sample_nodes_state (fun _ => 0) 0 0 25 (seqZ 0 25) [] (CMemFile_new 1024)) as [_ H].
  - by apply wf_of_uint32.
  - done.
  - by apply kad_reach_init.
  - vm_compute. reflexivity.
  - vm_compute. discriminate.
  - apply sample_entries.
  - split; simpl; done || (unfold in_width; lia) || constructor.
  - done.
  - split; [reflexivity|right; split; [reflexivity|vm_compute; discriminate]].
  - destruct H as (f1 & E1 & Hf1 & _ & H); [vm_compute; discriminate|].
    destruct (H (set_mem_position 0 f1) (mem_ok_position 0 f1 Hf1 (conj (Z.le_refl 0) eq_refl)) eq_refl eq_refl)
      as (w' & f3 & E2 & _).
    exists f1, w', f3. split; [exact E1|exact E2].
Defined.

Lemma nodes_file_safe_witness :
  let IOF := CMemFile_IO calloc_4096 in
  exists w' bl' f', ReadFile (of_uint32 0) false 0 (fun _ => false) 5 (kad_init 0) [] sample_file =
    Some (inr tt, w', bl', f').
Proof.
  intros IOF. set (laws := CMemFile_laws calloc_4096 4096 ltac:(done) calloc_ok).
  destruct (nodes_file_safe CMemFile IOF laws (of_uint32 0) false 0 (fun _ => false) 0 5 (kad_init 0) [] sample_file
    (wf_of_uint32 0 ltac:(by split)) ltac:(lia) sample_file_ok) as (w' & bl' & f' & l & T' & E & _).
  - by apply kad_reach_init.
  - exists w', bl', f'. exact E.
Defined.

(** A bootstrap file after its header, with one contact. *)
Definition sample_bootstrap : CMemFile := CMemFile_attach
  (poke_le 4 1 ++ bytes128 (of_uint32 6) ++ poke_le 4 0x05060701 ++ poke_le 2 4672 ++ poke_le 2 4662 ++ poke_le 1 8).

Lemma sample_bootstrap_ok : mem_ok sample_bootstrap.
Proof.
  split; try done. unfold sample_bootstrap, bytes128. cbn [m_buffer CMemFile_attach].
  repeat apply Forall_app_2; apply poke_le_bytes.
Qed.

Lemma nodes_bootstrap_closest_witness :
  let IOF := CMemFile_IO calloc_4096 in
  exists r bl' f' l, ReadBootstrapNodesDat (of_uint32 0) (fun _ => false) 5 [] sample_bootstrap = (r, bl', f') /\
    fifty_closest bl' (candidates (of_uint32 0) (fun _ => false) 5 l).
Proof.
  intros IOF. set (laws := CMemFile_laws calloc_4096 4096 ltac:(done) calloc_ok).
  destruct (nodes_bootstrap_closest CMemFile IOF laws (of_uint32 0) (fun _ => false) 5 [] sample_bootstrap
    (wf_of_uint32 0 ltac:(by split)) sample_bootstrap_ok) as (r & bl' & f' & E & _ & _ & _ & H).
  destruct (H eq_refl) as (l & _ & Hl). exists r, bl', f', l. split; [exact E|exact Hl].
Defined.

Example sample_bootstrap_read :
  (@ReadBootstrapNodesDat _ (CMemFile_IO calloc_4096) (of_uint32 0) (fun _ => false) 5 [] sample_bootstrap).1.2 =
    [CContact_new (of_uint32 6) 0x05060701 4672 4662 8 CKadUDPKey_zero false (of_uint32 0) 5].
Proof. vm_compute. reflexivity. Qed.
