(* ===== verification/PacketTracking.v ===== *)
(** * Request tracking and flood limits of Kad ([kademlia/net/PacketTracking.h], [.cpp])

    Outgoing requests are remembered so that only answers to them are accepted; incoming
    requests are counted per address and opcode, and too frequent ones are dropped or lead to a
    ban; challenges sent to legacy nodes are remembered until they are answered.  The tick of
    [GetTickCount64] is an argument: one call of an operation reads one tick. *)
From S2P Require Import Prelude StdMap UInt128.

Definition KADEMLIA2_BOOTSTRAP_REQ : Z := 1.
Definition KADEMLIA2_HELLO_REQ : Z := 17.
Definition KADEMLIA2_HELLO_RES : Z := 25.
Definition KADEMLIA2_REQ : Z := 33.
Definition KADEMLIA_SEARCH_NOTES_REQ : Z := 50.
Definition KADEMLIA2_SEARCH_KEY_REQ : Z := 51.
Definition KADEMLIA2_SEARCH_SOURCE_REQ : Z := 52.
Definition KADEMLIA2_SEARCH_NOTES_REQ : Z := 53.
Definition KADEMLIA_PUBLISH_REQ : Z := 64.
Definition KADEMLIA2_PUBLISH_KEY_REQ : Z := 67.
Definition KADEMLIA2_PUBLISH_SOURCE_REQ : Z := 68.
Definition KADEMLIA2_PUBLISH_NOTES_REQ : Z := 69.
Definition KADEMLIA_FIREWALLED_REQ : Z := 80.
Definition KADEMLIA_FINDBUDDY_REQ : Z := 81.
Definition KADEMLIA_CALLBACK_REQ : Z := 82.
Definition KADEMLIA_FIREWALLED2_REQ : Z := 83.
Definition KADEMLIA2_PING : Z := 96.

Definition SEC2MS (sec : Z) : Z := sec * 1000.
Definition MIN2MS (min : Z) : Z := SEC2MS (min * 60).

(** ** State *)

Record TrackPackets_Struct := mkTrackPackets { out_ip : Z; out_inserted : Z; out_opcode : Z }.

Record TrackChallenge_Struct := mkTrackChallenge {
  ch_ip : Z;
  ch_inserted : Z;
  ch_opcode : Z;
  contactID : CUInt128;
  challenge : CUInt128
}.

Record TrackedRequestIn_Struct := mkRequestIn {
  m_count : Z;
  m_firstAdded : Z;
  m_opcode : Z;
  m_dbgLogged : bool
}.

Record TrackPacketsIn_Struct := mkPacketsIn {
  m_ip : Z;
  m_lastExpire : Z;
  m_trackedRequests : list TrackedRequestIn_Struct
}.

(** The map owns what its pointers point to, and no pointer is shared. *)
Record CPacketTracking := mkPacketTracking {
  listTrackedRequests : list TrackPackets_Struct;
  listChallengeRequests : list TrackChallenge_Struct;
  m_mapTrackPacketsIn : list (Z * TrackPacketsIn_Struct);
  lastTrackInCleanup : Z
}.

Definition with_out (s : CPacketTracking) l :=
  mkPacketTracking l (listChallengeRequests s) (m_mapTrackPacketsIn s) (lastTrackInCleanup s).
Definition with_challenges (s : CPacketTracking) l :=
  mkPacketTracking (listTrackedRequests s) l (m_mapTrackPacketsIn s) (lastTrackInCleanup s).
Definition with_in (s : CPacketTracking) m :=
  mkPacketTracking (listTrackedRequests s) (listChallengeRequests s) m (lastTrackInCleanup s).

Definition CPacketTracking_init : CPacketTracking := mkPacketTracking [] [] [] 0.

(** ** Outgoing requests *)

Definition IsTrackedOutListRequestPacket (opcode : Z) : bool :=
  existsb (Z.eqb opcode)
    [KADEMLIA2_BOOTSTRAP_REQ; KADEMLIA2_HELLO_REQ; KADEMLIA2_HELLO_RES; KADEMLIA2_REQ;
     KADEMLIA_SEARCH_NOTES_REQ; KADEMLIA2_SEARCH_NOTES_REQ; KADEMLIA_PUBLISH_REQ;
     KADEMLIA2_PUBLISH_KEY_REQ; KADEMLIA2_PUBLISH_SOURCE_REQ; KADEMLIA2_PUBLISH_NOTES_REQ;
     KADEMLIA_FINDBUDDY_REQ; KADEMLIA_CALLBACK_REQ; KADEMLIA2_PING].

(** The [while] loop that pops expired entries off the back of a list. *)
Fixpoint drop_back {A} (expired : A -> bool) (l : list A) : list A :=
  match l with
  | [] => []
  | x :: t =>
      match drop_back expired t with
      | [] => if expired x then [] else [x]
      | t' => x :: t'
      end
  end.

Definition AddTrackedOutPacket (ip opcode now : Z) (s : CPacketTracking) : CPacketTracking :=
  if negb (IsTrackedOutListRequestPacket opcode) then s
  else
    with_out s (drop_back (fun e => wrap 64 (now - out_inserted e) >? SEC2MS 180)
                          (mkTrackPackets ip now opcode :: listTrackedRequests s)).

(** The search loop: the list without the first match, unless there is none. *)
Fixpoint take_first {A} (p : A -> bool) (l : list A) : option (A * list A) :=
  match l with
  | [] => None
  | x :: t =>
      if p x then Some (x, t)
      else match take_first p t with Some (y, t') => Some (y, x :: t') | None => None end
  end.

Definition IsOnOutTrackList (ip opcode now : Z) (dontRemove : bool) (s : CPacketTracking) :
  bool * CPacketTracking :=
  match take_first (fun e => (out_ip e =? ip) && (out_opcode e =? opcode) &&
                             (wrap 64 (now - out_inserted e) <? SEC2MS 180))
                   (listTrackedRequests s) with
  | Some (_, l) => (true, if negb dontRemove then with_out s l else s)
  | None => (false, s)
  end.

(** ** Incoming requests *)

(** The opcode to track and its limit; [None] for answers, which are not limited. *)
Definition request_limit (opcode : Z) : option (Z * Z) :=
  if opcode =? KADEMLIA2_BOOTSTRAP_REQ then Some (opcode, 2)
  else if opcode =? KADEMLIA2_HELLO_REQ then Some (opcode, 3)
  else if opcode =? KADEMLIA2_REQ then Some (opcode, 10)
  else if opcode =? KADEMLIA2_SEARCH_NOTES_REQ then Some (opcode, 3)
  else if opcode =? KADEMLIA2_SEARCH_KEY_REQ then Some (opcode, 3)
  else if opcode =? KADEMLIA2_SEARCH_SOURCE_REQ then Some (opcode, 3)
  else if opcode =? KADEMLIA2_PUBLISH_KEY_REQ then Some (opcode, 3)
  else if opcode =? KADEMLIA2_PUBLISH_SOURCE_REQ then Some (opcode, 2)
  else if opcode =? KADEMLIA2_PUBLISH_NOTES_REQ then Some (opcode, 2)
  else if opcode =? KADEMLIA_FIREWALLED2_REQ then Some (KADEMLIA_FIREWALLED_REQ, 2)
  else if opcode =? KADEMLIA_FIREWALLED_REQ then Some (opcode, 2)
  else if opcode =? KADEMLIA_FINDBUDDY_REQ then Some (opcode, 2)
  else if opcode =? KADEMLIA_CALLBACK_REQ then Some (opcode, 1)
  else if opcode =? KADEMLIA2_PING then Some (opcode, 2)
  else None.

Definition InTrackListCleanup (currentTick : Z) (s : CPacketTracking) : CPacketTracking :=
  mkPacketTracking (listTrackedRequests s) (listChallengeRequests s)
    (filter (fun e => negb (m_lastExpire e.2 <? currentTick) = true) (m_mapTrackPacketsIn s))
    currentTick.

(** Removes the request counts that have expired. *)
Definition expire_request (ms currentTick : Z) (r : TrackedRequestIn_Struct) : TrackedRequestIn_Struct :=
  if (m_count r >? 0) && (wrap 64 (currentTick - m_firstAdded r) >? ms) then
    let removeCount := wrap 32 (wrap 64 (currentTick - m_firstAdded r) / ms) in
    if removeCount >? m_count r
    then mkRequestIn 0 currentTick (m_opcode r) (m_dbgLogged r)
    else mkRequestIn (wrap 32 (m_count r - removeCount))
           (wrap 64 (m_firstAdded r + wrap 64 (ms * removeCount))) (m_opcode r) (m_dbgLogged r)
  else r.

Inductive verdict := Accept | Drop | DropAndBan.

(** A packet of an opcode already tracked: the new count, the new expiry of the entry and the
    decision.  [lan] is [CKademlia::IsRunningInLANMode() && IsLanIP(...)]. *)
Definition count_request (allowed ms currentTick : Z) (lan : bool) (lastExpire : Z)
  (r : TrackedRequestIn_Struct) : TrackedRequestIn_Struct * Z * verdict :=
  let r := expire_request ms currentTick r in
  let r := mkRequestIn (wrap 32 (m_count r + 1)) (m_firstAdded r) (m_opcode r) (m_dbgLogged r) in
  let lastExpire := Z.max lastExpire (wrap 64 (m_firstAdded r + wrap 64 (ms * m_count r))) in
  if lan then (r, lastExpire, Accept)
  else if m_count r >? wrap 32 (allowed * 5) then (r, lastExpire, DropAndBan)
  else if m_count r >? allowed
  then (mkRequestIn (m_count r) (m_firstAdded r) (m_opcode r) true, lastExpire, Drop)
  else (mkRequestIn (m_count r) (m_firstAdded r) (m_opcode r) false, lastExpire, Accept).

(** The search loop over the tracked requests of an address. *)
Fixpoint update_requests (opcode allowed ms currentTick : Z) (lan : bool) (lastExpire : Z)
  (l : list TrackedRequestIn_Struct) : option (list TrackedRequestIn_Struct * Z * verdict) :=
  match l with
  | [] => None
  | r :: t =>
      if m_opcode r =? opcode then
        let '(r', lastExpire', v) := count_request allowed ms currentTick lan lastExpire r in
        Some (r' :: t, lastExpire', v)
      else
        match update_requests opcode allowed ms currentTick lan lastExpire t with
        | Some (t', lastExpire', v) => Some (r :: t', lastExpire', v)
        | None => None
        end
  end.

Definition InTrackListIsAllowedPacket (ip opcode currentTick : Z) (lan : bool)
  (s : CPacketTracking) : verdict * CPacketTracking :=
  match request_limit opcode with
  | None => (Accept, s)
  | Some (opcode, allowedPacketsPerMinute) =>
      let secondsPerPacket := 60 / allowedPacketsPerMinute in
      let ms := SEC2MS secondsPerPacket in
      let s := if wrap 64 (currentTick - lastTrackInCleanup s) >? MIN2MS 12
               then InTrackListCleanup currentTick s else s in
      let trackEntry := match mfind ip (m_mapTrackPacketsIn s) with
                        | Some e => e
                        | None => mkPacketsIn ip 0 []
                        end in
      match update_requests opcode allowedPacketsPerMinute ms currentTick lan
              (m_lastExpire trackEntry) (m_trackedRequests trackEntry) with
      | Some (l, lastExpire, v) =>
          (v, with_in s (mset ip (mkPacketsIn (m_ip trackEntry) lastExpire l) (m_mapTrackPacketsIn s)))
      | None =>
          (Accept, with_in s (mset ip
             (mkPacketsIn (m_ip trackEntry)
                (Z.max (m_lastExpire trackEntry) (wrap 64 (currentTick + ms)))
                (m_trackedRequests trackEntry ++ [mkRequestIn 1 currentTick opcode false]))
             (m_mapTrackPacketsIn s)))
      end
  end.

(** ** Legacy challenges *)

Definition AddLegacyChallenge (contact chal : CUInt128) (ip opcode now : Z) (s : CPacketTracking) :
  CPacketTracking :=
  with_challenges s (drop_back (fun e => wrap 64 (now - ch_inserted e) >? SEC2MS 180)
                       (mkTrackChallenge ip now opcode contact chal :: listChallengeRequests s)).

(** The contact that is verified by the answer, if any. *)
Definition IsLegacyChallenge (chal : CUInt128) (ip opcode now : Z) (s : CPacketTracking) :
  option CUInt128 * CPacketTracking :=
  match take_first (fun e => (ch_ip e =? ip) && (ch_opcode e =? opcode) &&
                             (wrap 64 (now - ch_inserted e) <? SEC2MS 180) &&
                             (op_eq32 (challenge e) 0 || op_eq (challenge e) chal))
                   (listChallengeRequests s) with
  | Some (e, l) => (Some (contactID e), with_challenges s l)
  | None => (None, s)
  end.

Definition HasActiveLegacyChallenge (ip now : Z) (s : CPacketTracking) : bool :=
  existsb (fun e => (ch_ip e =? ip) && (wrap 64 (now - ch_inserted e) <=? SEC2MS 180))
          (listChallengeRequests s).

(** ** Lemmas: the request counters *)

(** Milliseconds per packet of a tracked opcode. *)
Definition req_ms (opcode : Z) : Z :=
  match request_limit opcode with Some (_, a) => SEC2MS (60 / a) | None => 0 end.

Definition limit_of (opcode : Z) : Z :=
  match request_limit opcode with Some (_, a) => a | None => 0 end.

Lemma request_limit_spec opcode op a :
  request_limit opcode = Some (op, a) ->
  request_limit op = Some (op, a) /\ req_ms op = SEC2MS (60 / a) /\ limit_of op = a /\
  1 <= a <= 10 /\ 6000 <= req_ms op <= 60000.
Proof.
  intros H. assert (request_limit op = Some (op, a) /\ 1 <= a <= 10) as [H1 H2].
  { unfold request_limit in H.
    repeat (case_match; [injection H as <- <-; subst; match goal with
      | E : (_ =? _) = true |- _ => apply Z.eqb_eq in E; subst; split; [reflexivity|lia] end|]).
    done. }
  unfold req_ms, limit_of. rewrite H1. unfold SEC2MS. repeat (split; [done|]).
  assert (a = 1 \/ a = 2 \/ a = 3 \/ a = 4 \/ a = 5 \/ a = 6 \/ a = 7 \/ a = 8 \/ a = 9 \/ a = 10)
    as Ha by lia.
  repeat destruct Ha as [-> |Ha]; subst; vm_compute; intuition congruence.
Qed.

(** What the counter of a request owes: it falls with time and rises by one packet's worth of
    milliseconds with every packet. *)
Definition backlog (r : TrackedRequestIn_Struct) : Z := m_firstAdded r + req_ms (m_opcode r) * m_count r.

Record request_ok (t n : Z) (r : TrackedRequestIn_Struct) : Prop := {
  ok_count : 1 <= m_count r <= n;
  ok_first : 0 <= m_firstAdded r <= t;
  ok_opcode : 6000 <= req_ms (m_opcode r) <= 60000
}.

(** Ticks below 2^42 milliseconds (139 years), fewer than 2^31 packets. *)
Definition MAX_TICK : Z := 2 ^ 42.
Definition MAX_PACKETS : Z := 2 ^ 31.

Lemma expire_request_spec t n now r :
  request_ok t n r -> t <= now -> now < MAX_TICK -> n < MAX_PACKETS ->
  let r' := expire_request (req_ms (m_opcode r)) now r in
  m_opcode r' = m_opcode r /\ 0 <= m_count r' <= n /\ 0 <= m_firstAdded r' <= now /\
  backlog r <= backlog r' /\ now - req_ms (m_opcode r) <= backlog r'.
Proof.
  intros [Hc Hf Hm] Ht Hnow Hn r'. unfold r', expire_request, backlog, MAX_TICK, MAX_PACKETS in *.
  set (ms := req_ms (m_opcode r)) in *. change (2 ^ 42) with 4398046511104 in *.
  change (2 ^ 31) with 2147483648 in *.
  rewrite (proj2 (Z.gtb_lt (m_count r) 0)) by lia. cbn [andb].
  rewrite (wrap_small 64 (now - m_firstAdded r)) by (unfold in_width; norm_pow; lia).
  rewrite Z.gtb_ltb. destruct (Z.ltb_spec ms (now - m_firstAdded r)) as [Hex|Hex].
  - set (rc := (now - m_firstAdded r) / ms).
    assert (ms * rc <= now - m_firstAdded r < ms * (rc + 1)) as Hrc.
    { unfold rc. pose proof (Z.div_mod (now - m_firstAdded r) ms ltac:(lia)).
      pose proof (Z.mod_pos_bound (now - m_firstAdded r) ms ltac:(lia)). lia. }
    assert (0 <= rc < 4294967296) as Hrcb.
    { split; [apply Z.div_pos; lia|]. nia. }
    rewrite (wrap_small 32 rc) by (unfold in_width; norm_pow; lia).
    rewrite Z.gtb_ltb. destruct (Z.ltb_spec (m_count r) rc) as [Hbig|Hsmall]; simpl; fold ms.
    + split; [done|]. split; [lia|]. split; [lia|]. split; nia.
    + assert (0 <= ms * rc < 2 ^ 63) by (norm_pow; nia).
      rewrite (wrap_small 32 (m_count r - rc)) by (unfold in_width; norm_pow; lia).
      rewrite (wrap_small 64 (ms * rc)) by (unfold in_width; norm_pow; lia).
      rewrite (wrap_small 64 (m_firstAdded r + ms * rc)) by (unfold in_width; norm_pow; lia).
      split; [done|]. split; [lia|]. split; [lia|]. split; nia.
  - fold ms. split; [done|]. split; [lia|]. split; [lia|]. split; nia.
Qed.

Lemma count_request_spec t n now lan lastExpire r :
  request_ok t n r -> t <= now -> now < MAX_TICK -> n < MAX_PACKETS -> 1 <= limit_of (m_opcode r) <= 10 ->
  let '(r', lastExpire', v) :=
    count_request (limit_of (m_opcode r)) (req_ms (m_opcode r)) now lan lastExpire r in
  m_opcode r' = m_opcode r /\ request_ok now (n + 1) r' /\
  lastExpire <= lastExpire' /\ backlog r' <= lastExpire' /\
  backlog r + req_ms (m_opcode r) <= backlog r' /\ now <= backlog r' /\
  (v = Accept -> lan = false -> m_count r' <= limit_of (m_opcode r)).
Proof.
  intros Hr Ht Hnow Hn Ha.
  pose proof (expire_request_spec t n now r Hr Ht Hnow Hn) as (E1 & E2 & E3 & E4 & E5).
  unfold count_request. set (r1 := expire_request _ _ _) in *.
  destruct Hr as [_ _ Hm]. unfold backlog, MAX_TICK, MAX_PACKETS in *. rewrite E1 in *.
  change (2 ^ 42) with 4398046511104 in *. change (2 ^ 31) with 2147483648 in *.
  set (ms := req_ms (m_opcode r)) in *. cbn [m_count m_firstAdded m_opcode m_dbgLogged].
  rewrite (wrap_small 32 (m_count r1 + 1)) by (unfold in_width; norm_pow; lia).
  assert (0 <= ms * (m_count r1 + 1) < 2 ^ 62) by (change (2 ^ 62) with 4611686018427387904; nia).
  change (2 ^ 62) with 4611686018427387904 in *.
  rewrite (wrap_small 64 (ms * (m_count r1 + 1))) by (unfold in_width; norm_pow; lia).
  rewrite (wrap_small 64 (m_firstAdded r1 + _)) by (unfold in_width; norm_pow; lia).
  assert (forall d, request_ok now (n + 1) (mkRequestIn (m_count r1 + 1) (m_firstAdded r1) (m_opcode r) d))
    as Hok by (intros d; constructor; simpl; lia).
  destruct lan; [simpl; fold ms; repeat (split; [done || lia || apply Hok|]); done|].
  rewrite !Z.gtb_ltb.
  destruct (Z.ltb_spec (wrap 32 (limit_of (m_opcode r) * 5)) (m_count r1 + 1));
    [|destruct (Z.ltb_spec (limit_of (m_opcode r)) (m_count r1 + 1))]; simpl; fold ms;
    repeat (split; [done || lia || apply Hok|]); done || lia.
Qed.

Fixpoint find_req (opcode : Z) (l : list TrackedRequestIn_Struct) : option TrackedRequestIn_Struct :=
  match l with
  | [] => None
  | r :: t => if m_opcode r =? opcode then Some r else find_req opcode t
  end.

Lemma find_req_opcode op l r : find_req op l = Some r -> m_opcode r = op /\ r ∈ l.
Proof.
  induction l as [|r' l IH]; simpl; [done|]. case_cmp.
  - intros [= <-]. split; [done|by left].
  - intros Hf. destruct (IH Hf). split; [done|by right].
Qed.

Lemma update_requests_spec op a ms now lan le l :
  match update_requests op a ms now lan le l with
  | None => find_req op l = None
  | Some (l', le', v) =>
      exists r r', find_req op l = Some r /\ count_request a ms now lan le r = (r', le', v) /\
        (m_opcode r' = m_opcode r -> find_req op l' = Some r' /\
           forall op', op' <> op -> find_req op' l' = find_req op' l) /\
        (forall P : TrackedRequestIn_Struct -> Prop, Forall P l -> P r' -> Forall P l')
  end.
Proof.
  induction l as [|r l IH]; simpl; [done|]. destruct (Z.eqb_spec (m_opcode r) op) as [Ho|Ho].
  - destruct (count_request a ms now lan le r) as [[r' le'] v] eqn:Hc.
    exists r, r'. split; [done|]. split; [done|]. split.
    + intros Hop. simpl. rewrite Hop, Ho, Z.eqb_refl. split; [done|]. intros op' Hne.
      by rewrite (proj2 (Z.eqb_neq op op')) by congruence.
    + intros P HP Hr. inversion HP; subst. by constructor.
  - destruct (update_requests op a ms now lan le l) as [[[l' le'] v]|]; [|done].
    destruct IH as (r0 & r0' & Hf & Hc & Ho' & HP). exists r0, r0'. split; [done|]. split; [done|].
    split.
    + intros Hop. destruct (Ho' Hop) as [H1 H2]. simpl. rewrite (proj2 (Z.eqb_neq _ _) Ho).
      split; [done|]. intros op' Hne. by rewrite H2.
    + intros P HP0 Hr. inversion HP0; subst. constructor; [done|by apply HP].
Qed.

(** The counter of an opcode at an address. *)
Definition tracked_request (s : CPacketTracking) (ip op : Z) : option TrackedRequestIn_Struct :=
  e ← mfind ip (m_mapTrackPacketsIn s); find_req op (m_trackedRequests e).

Definition entry_ok (t n : Z) (e : TrackPacketsIn_Struct) : Prop :=
  Forall (fun r => request_ok t n r /\ backlog r <= m_lastExpire e /\
                   1 <= limit_of (m_opcode r) <= 10) (m_trackedRequests e).

Record flood_inv (t n : Z) (s : CPacketTracking) : Prop := {
  flood_sorted : msorted (m_mapTrackPacketsIn s);
  flood_entries : forall ip e, mfind ip (m_mapTrackPacketsIn s) = Some e -> entry_ok t n e
}.

Lemma request_ok_mono t n t' n' r : t <= t' -> n <= n' -> request_ok t n r -> request_ok t' n' r.
Proof. intros ? ? []. constructor; lia. Qed.

Lemma entry_ok_mono t n t' n' e : t <= t' -> n <= n' -> entry_ok t n e -> entry_ok t' n' e.
Proof.
  intros ? ? He. eapply Forall_impl; [exact He|]. intros r (? & ? & ?).
  split; [by eapply request_ok_mono|done].
Qed.

Lemma flood_inv_mono t n t' n' s : t <= t' -> n <= n' -> flood_inv t n s -> flood_inv t' n' s.
Proof.
  intros ? ? [Hs He]. constructor; [done|]. intros ip e Hf. eapply entry_ok_mono; [..|by eapply He]; done.
Qed.

(** The counter owes at least [B], or it was forgotten when that was already in the past. *)
Definition owes (s : CPacketTracking) (ip op t B : Z) : Prop :=
  match tracked_request s ip op with Some r => B <= backlog r | None => B < t end.

Lemma InTrackListCleanup_spec t n now s :
  flood_inv t n s -> t <= now ->
  flood_inv now n (InTrackListCleanup now s) /\
  forall ip op B, owes s ip op t B -> owes (InTrackListCleanup now s) ip op now B.
Proof.
  intros [Hs He] Ht. unfold InTrackListCleanup.
  pose proof (msorted_filter (fun e : Z * TrackPacketsIn_Struct =>
    negb (m_lastExpire e.2 <? now) = true) _ Hs) as Hs'.
  pose proof (fun k => mfind_filter (fun e : Z * TrackPacketsIn_Struct =>
    negb (m_lastExpire e.2 <? now) = true) _ k Hs) as Hf. split.
  - constructor; simpl; [done|]. intros ip e. rewrite Hf.
    destruct (mfind ip (m_mapTrackPacketsIn s)) as [e0|] eqn:Hm; [|done].
    case_decide; [|done]. intros [= <-]. eapply entry_ok_mono; [done| |by eapply He]. lia.
  - intros ip op B. unfold owes, tracked_request. simpl. rewrite Hf.
    destruct (mfind ip (m_mapTrackPacketsIn s)) as [e|] eqn:Hm; simpl; [|lia].
    case_decide as Hd; simpl.
    + destruct (find_req op (m_trackedRequests e)); lia.
    + destruct (find_req op (m_trackedRequests e)) as [r|] eqn:Hr; [|lia].
      destruct (Z.ltb_spec (m_lastExpire e) now); [|done].
      apply find_req_opcode in Hr as [_ Hin]. specialize (He _ _ Hm). unfold entry_ok in He.
      rewrite Forall_forall in He. destruct (He _ Hin) as (_ & ? & _). lia.
Qed.

Lemma tracked_request_set s ip e ip' op :
  tracked_request (with_in s (mset ip e (m_mapTrackPacketsIn s))) ip' op =
  if ip' =? ip then find_req op (m_trackedRequests e) else tracked_request s ip' op.
Proof.
  unfold tracked_request. simpl. destruct (Z.eqb_spec ip' ip) as [->|Hne].
  - by rewrite mfind_set_eq.
  - by rewrite mfind_set_ne.
Qed.

Lemma find_req_app op l r : 
  find_req op (l ++ [r]) =
  match find_req op l with Some x => Some x | None => if m_opcode r =? op then Some r else None end.
Proof. induction l as [|x l IH]; simpl; [done|]. by case_cmp. Qed.

Lemma flood_inv_set t n s ip e :
  flood_inv t n s -> entry_ok t n e -> flood_inv t n (with_in s (mset ip e (m_mapTrackPacketsIn s))).
Proof.
  intros [Hs He] Hok. constructor; simpl; [by apply msorted_set|]. intros ip' e'.
  destruct (Z.eq_dec ip' ip) as [->|Hne].
  - rewrite mfind_set_eq. by intros [= <-].
  - rewrite mfind_set_ne by done. apply He.
Qed.

(** A packet counts for an address and opcode. *)
Definition counts_for (ip op ip' opcode : Z) : bool :=
  (ip' =? ip) && match request_limit opcode with Some (op', _) => op' =? op | None => false end.

(** The map work of a request packet once the clean-up has run. *)
Lemma count_packet_spec t n now lan s ip op a v s' :
  flood_inv t n s -> t <= now -> 0 <= now < MAX_TICK -> 0 <= n < MAX_PACKETS ->
  request_limit op = Some (op, a) ->
  (let e := match mfind ip (m_mapTrackPacketsIn s) with Some e => e | None => mkPacketsIn ip 0 [] end in
   match update_requests op a (req_ms op) now lan (m_lastExpire e) (m_trackedRequests e) with
   | Some (l, lastExpire, v) =>
       (v, with_in s (mset ip (mkPacketsIn (m_ip e) lastExpire l) (m_mapTrackPacketsIn s)))
   | None =>
       (Accept, with_in s (mset ip
          (mkPacketsIn (m_ip e) (Z.max (m_lastExpire e) (wrap 64 (now + req_ms op)))
             (m_trackedRequests e ++ [mkRequestIn 1 now op false])) (m_mapTrackPacketsIn s)))
   end) = (v, s') ->
  flood_inv now (n + 1) s' /\
  (forall ip0 op0 B, owes s ip0 op0 t B ->
     owes s' ip0 op0 now (if (ip =? ip0) && (op =? op0) then B + req_ms op else B)) /\
  exists r, tracked_request s' ip op = Some r /\ now <= backlog r /\ m_firstAdded r <= now /\
    m_opcode r = op /\ (v = Accept -> lan = false -> m_count r <= limit_of op).
Proof.
  intros Hinv Ht Hnow Hn Hlim Heq. destruct (request_limit_spec op op a Hlim) as (_ & _ & Ha & Hab & Hms).
  cbn zeta in Heq. set (e := match mfind ip (m_mapTrackPacketsIn s) with Some e => e | None => _ end) in Heq.
  assert (entry_ok t n e) as He.
  { unfold e. destruct (mfind ip (m_mapTrackPacketsIn s)) as [e0|] eqn:Hf;
      [by eapply flood_entries|constructor]. }
  assert (forall op', tracked_request s ip op' = find_req op' (m_trackedRequests e)) as Htr.
  { intros op'. unfold tracked_request, e. by destruct (mfind ip (m_mapTrackPacketsIn s)). }
  pose proof (flood_inv_mono t n now (n + 1) s ltac:(lia) ltac:(lia) Hinv) as Hinv'.
  pose proof (update_requests_spec op a (req_ms op) now lan (m_lastExpire e) (m_trackedRequests e)) as Hu.
  destruct (update_requests _ _ _ _ _ _ _) as [[[l le'] v']|].
  - destruct Hu as (r & r' & Hf & Hc & Hop & HP). injection Heq as <- <-.
    pose proof (find_req_opcode _ _ _ Hf) as [Hro Hrin].
    assert (request_ok t n r /\ backlog r <= m_lastExpire e) as [Hr Hrb].
    { unfold entry_ok in He. rewrite Forall_forall in He. by destruct (He _ Hrin) as (? & ? & _). }
    pose proof (count_request_spec t n now lan (m_lastExpire e) r Hr Ht ltac:(lia) ltac:(lia)) as Hcr.
    rewrite Hro, Ha, Hc in Hcr. destruct Hcr as (C1 & C2 & C3 & C4 & C5 & C6 & C7); [lia|].
    destruct Hop as [Hop1 Hop2]; [by rewrite Hro|].
    split; [|split].
    + apply flood_inv_set; [done|]. unfold entry_ok. simpl. apply HP.
      * eapply Forall_impl; [exact He|]. intros x (X1 & X2 & X3).
        split; [eapply request_ok_mono; [..|exact X1]; lia|]. split; [lia|done].
      * split; [done|]. split; [done|]. rewrite C1, Ha. lia.
    + intros ip0 op0 B Ho. unfold owes. rewrite tracked_request_set. simpl.
      rewrite (Z.eqb_sym ip ip0). destruct (Z.eqb_spec ip0 ip) as [->|Hne]; simpl.
      * unfold owes in Ho. rewrite Htr in Ho. destruct (Z.eqb_spec op op0) as [<-|Hno].
        -- rewrite Hop1. rewrite Hf in Ho. lia.
        -- rewrite Hop2 by done. destruct (find_req op0 (m_trackedRequests e)); lia.
      * unfold owes in Ho. destruct (tracked_request s ip0 op0); lia.
    + exists r'. rewrite tracked_request_set, Z.eqb_refl. simpl. split; [done|]. split; [done|].
      split; [apply C2|]. split; [done|]. by rewrite Ha.
  - injection Heq as <- <-.
    assert (request_ok now (n + 1) (mkRequestIn 1 now op false)) as Hnew by (constructor; simpl; lia).
    assert (backlog (mkRequestIn 1 now op false) = now + req_ms op) as Hbl by (unfold backlog; simpl; lia).
    assert (wrap 64 (now + req_ms op) = now + req_ms op) as Hw.
    { apply wrap_small. unfold MAX_TICK in *. change (2 ^ 42) with 4398046511104 in *. width_lia. }
    split; [|split].
    + apply flood_inv_set; [done|]. unfold entry_ok. simpl. apply Forall_app. split.
      * eapply Forall_impl; [exact He|]. intros x (X1 & X2 & X3).
        split; [eapply request_ok_mono; [..|exact X1]; lia|]. split; [lia|done].
      * constructor; [|constructor]. split; [done|]. rewrite Hbl, Hw. split; [lia|].
        simpl. rewrite Ha. lia.
    + intros ip0 op0 B Ho. unfold owes in Ho |- *. rewrite tracked_request_set. simpl.
      rewrite (Z.eqb_sym ip ip0). destruct (Z.eqb_spec ip0 ip) as [->|Hne]; simpl.
      * rewrite Htr in Ho. rewrite find_req_app. simpl.
        destruct (Z.eqb_spec op op0) as [<-|Hno]; [rewrite Hu in *; rewrite Hbl; lia|].
        destruct (find_req op0 (m_trackedRequests e)); lia.
      * destruct (tracked_request s ip0 op0); lia.
    + exists (mkRequestIn 1 now op false). rewrite tracked_request_set, Z.eqb_refl. simpl.
      rewrite find_req_app, Hu. simpl. rewrite Z.eqb_refl. split; [done|]. rewrite Hbl.
      split; [lia|]. split; [done|]. split; [done|]. rewrite Ha. lia.
Qed.

Lemma InTrack_spec t n now lan s ip opcode v s' :
  flood_inv t n s -> t <= now -> 0 <= now < MAX_TICK -> 0 <= n < MAX_PACKETS ->
  InTrackListIsAllowedPacket ip opcode now lan s = (v, s') ->
  flood_inv now (n + 1) s' /\
  (forall ip0 op0 B, owes s ip0 op0 t B ->
     owes s' ip0 op0 now (if counts_for ip0 op0 ip opcode then B + req_ms op0 else B)) /\
  (forall op0, counts_for ip op0 ip opcode = true ->
     exists r, tracked_request s' ip op0 = Some r /\ now <= backlog r /\ m_firstAdded r <= now /\
       m_opcode r = op0 /\ (v = Accept -> lan = false -> m_count r <= limit_of op0)).
Proof.
  intros Hinv Ht Hnow Hn. unfold InTrackListIsAllowedPacket, counts_for.
  destruct (request_limit opcode) as [[op a]|] eqn:Hlim; cycle 1.
  { intros [= <- <-]. split; [eapply flood_inv_mono; [..|exact Hinv]; lia|]. split.
    - intros ip0 op0 B Ho. rewrite andb_false_r. unfold owes in *.
      destruct (tracked_request s ip0 op0); lia.
    - intros op0. by rewrite andb_false_r. }
  destruct (request_limit_spec opcode op a Hlim) as (Hlim' & Hms & _).
  cbn zeta. set (s1 := if wrap 64 (now - lastTrackInCleanup s) >? MIN2MS 12
    then InTrackListCleanup now s else s).
  assert (flood_inv now n s1 /\ forall ip op B, owes s ip op t B -> owes s1 ip op now B) as [Hi1 Ho1].
  { unfold s1. case_match; [by apply (InTrackListCleanup_spec t)|].
    split; [eapply flood_inv_mono; [..|exact Hinv]; lia|]. intros ip0 op0 B. unfold owes.
    destruct (tracked_request s ip0 op0); lia. }
  rewrite <- Hms. intros Heq.
  destruct (count_packet_spec now n now lan s1 ip op a v s' Hi1 ltac:(lia) Hnow Hn Hlim' Heq)
    as (F1 & F2 & F3).
  split; [done|]. split.
  - intros ip0 op0 B Ho. specialize (F2 ip0 op0 B (Ho1 _ _ _ Ho)).
    destruct (Z.eqb_spec ip ip0) as [->|]; simpl in *; [|done].
    destruct (Z.eqb_spec op op0) as [->|]; simpl in *; done.
  - intros op0. rewrite Z.eqb_refl. simpl. intros ->%Z.eqb_eq. exact F3.
Qed.

(** ** Histories of incoming packets *)

Record in_packet := mkInPacket { pk_ip : Z; pk_opcode : Z; pk_tick : Z; pk_lan : bool }.

Definition in_step (s : CPacketTracking) (p : in_packet) : CPacketTracking :=
  (InTrackListIsAllowedPacket (pk_ip p) (pk_opcode p) (pk_tick p) (pk_lan p) s).2.

Definition counted (ip op : Z) (p : in_packet) : bool := counts_for ip op (pk_ip p) (pk_opcode p).

Fixpoint ticks_ok (t : Z) (l : list in_packet) : Prop :=
  match l with [] => True | p :: l => t <= pk_tick p < MAX_TICK /\ ticks_ok (pk_tick p) l end.

Fixpoint last_tick (t : Z) (l : list in_packet) : Z :=
  match l with [] => t | p :: l => last_tick (pk_tick p) l end.

Definition count_packets (ip op : Z) (l : list in_packet) : Z :=
  sumZ ((fun p => if counted ip op p then 1 else 0) <$> l).

Lemma last_tick_ge t l : ticks_ok t l -> t <= last_tick t l.
Proof.
  revert t. induction l as [|p l IH]; simpl; intros t; [lia|]. intros [? H]. specialize (IH _ H). lia.
Qed.

Lemma in_run_spec ip op l : forall t n s B,
  0 <= t -> 0 <= n -> flood_inv t n s -> ticks_ok t l -> n + Z.of_nat (length l) < MAX_PACKETS ->
  owes s ip op t B ->
  flood_inv (last_tick t l) (n + Z.of_nat (length l)) (fold_left in_step l s) /\
  owes (fold_left in_step l s) ip op (last_tick t l) (B + req_ms op * count_packets ip op l).
Proof.
  induction l as [|p l IH]; intros t n s B Ht Hn Hinv Htk Hlen Ho.
  - simpl. unfold count_packets. simpl. rewrite !Z.add_0_r, Z.mul_0_r, Z.add_0_r. done.
  - destruct Htk as [Hp Htk]. simpl length in *. cbn [fold_left last_tick].
    destruct (InTrackListIsAllowedPacket (pk_ip p) (pk_opcode p) (pk_tick p) (pk_lan p) s)
      as [v s'] eqn:Heq.
    destruct (InTrack_spec t n (pk_tick p) (pk_lan p) s _ _ v s' Hinv ltac:(lia) ltac:(lia) ltac:(lia) Heq)
      as (F1 & F2 & _).
    assert (in_step s p = s') as -> by (unfold in_step; by rewrite Heq).
    specialize (F2 ip op B Ho). fold (counted ip op p) in F2.
    destruct (IH (pk_tick p) (n + 1) s' _ ltac:(lia) ltac:(lia) F1 Htk ltac:(lia) F2) as [G1 G2].
    split; [by replace (n + Z.of_nat (S (length l))) with (n + 1 + Z.of_nat (length l)) by lia|].
    unfold count_packets in *. csimpl. destruct (counted ip op p);
      match goal with |- owes _ _ _ _ ?x => match type of G2 with owes _ _ _ _ ?y =>
        replace x with y by lia; exact G2 end end.
Qed.

Lemma flood_inv_init : flood_inv 0 0 CPacketTracking_init.
Proof. constructor; [constructor|done]. Qed.

Lemma ticks_ok_app t l1 l2 : ticks_ok t (l1 ++ l2) <-> ticks_ok t l1 /\ ticks_ok (last_tick t l1) l2.
Proof. revert t. induction l1 as [|p l1 IH]; intros t; simpl; [tauto|]. rewrite IH. tauto. Qed.

Lemma last_tick_app t l1 l2 : last_tick t (l1 ++ l2) = last_tick (last_tick t l1) l2.
Proof. revert t. induction l1 as [|p l1 IH]; intros t; simpl; [done|]. apply IH. Qed.

(** ** Lemmas: answers to requests *)

Lemma take_first_spec {A} (p : A -> bool) l :
  match take_first p l with
  | Some (x, l') => p x = true /\ Permutation l (x :: l')
  | None => forall x, x ∈ l -> p x = false
  end.
Proof.
  induction l as [|y l IH]; simpl; [intros x Hx; by apply not_elem_of_nil in Hx|].
  destruct (p y) eqn:Hp; [done|]. destruct (take_first p l) as [[x l']|].
  - destruct IH as [Hx HP]. split; [done|]. rewrite HP. constructor.
  - intros x [->|Hx]%elem_of_cons; [done|by apply IH].
Qed.

Lemma drop_back_sub {A} (p : A -> bool) l x : x ∈ drop_back p l -> x ∈ l.
Proof.
  induction l as [|y l IH]; simpl; [done|]. intros Hx.
  destruct (drop_back p l) as [|z t] eqn:Hd.
  - destruct (p y); [by apply not_elem_of_nil in Hx|].
    apply list_elem_of_singleton in Hx as ->. by left.
  - apply elem_of_cons in Hx as [->|Hx]; [by left|right; by apply IH].
Qed.

Lemma drop_back_length {A} (f : A -> bool) (p : A -> bool) l :
  (length (filter (fun x => f x = true) (drop_back p l)) <=
   length (filter (fun x => f x = true) l))%nat.
Proof.
  induction l as [|y l IH]; [done|]. cbn [drop_back].
  destruct (drop_back p l) as [|z t] eqn:Hd.
  - destruct (p y); [simpl; lia|]. rewrite !list.filter_cons. case_decide; simpl; lia.
  - rewrite (list.filter_cons _ y (z :: t)), (list.filter_cons _ y l).
    case_decide; simpl length in *; lia.
Qed.

Inductive out_event := Sent (ip opcode tick : Z) | Answer (ip opcode tick : Z).

(** The number of answers accepted and the state. *)
Definition out_step (ip op : Z) (st : Z * CPacketTracking) (e : out_event) : Z * CPacketTracking :=
  let '(accepted, s) := st in
  match e with
  | Sent ip' op' t => (accepted, AddTrackedOutPacket ip' op' t s)
  | Answer ip' op' t =>
      let '(b, s') := IsOnOutTrackList ip' op' t false s in
      (if b && (ip' =? ip) && (op' =? op) then accepted + 1 else accepted, s')
  end.

Definition sent_count (ip op : Z) (l : list out_event) : Z :=
  sumZ ((fun e => match e with
                  | Sent ip' op' _ => if (ip' =? ip) && (op' =? op) then 1 else 0
                  | Answer _ _ _ => 0 end) <$> l).

Definition is_request (ip op : Z) (e : TrackPackets_Struct) : bool :=
  (out_ip e =? ip) && (out_opcode e =? op).

Definition pending (ip op : Z) (s : CPacketTracking) : Z :=
  Z.of_nat (length (filter (fun e => is_request ip op e = true) (listTrackedRequests s))).

Lemma pending_cons ip op x l :
  Z.of_nat (length (filter (fun e => is_request ip op e = true) (x :: l))) =
  (if is_request ip op x then 1 else 0) +
  Z.of_nat (length (filter (fun e => is_request ip op e = true) l)).
Proof. rewrite list.filter_cons. destruct (is_request ip op x); case_decide; simpl length; done || lia. Qed.

Lemma out_run_pending ip op l : forall st,
  (fold_left (out_step ip op) l st).1 + pending ip op (fold_left (out_step ip op) l st).2 <=
  st.1 + pending ip op st.2 + sent_count ip op l.
Proof.
  induction l as [|e l IH]; intros st; [unfold sent_count; simpl; lia|].
  cbn [fold_left]. etransitivity; [apply IH|].
  assert (sent_count ip op (e :: l) = sent_count ip op [e] + sent_count ip op l) as ->
    by (unfold sent_count; csimpl; lia).
  cut ((out_step ip op st e).1 + pending ip op (out_step ip op st e).2 <=
       st.1 + pending ip op st.2 + sent_count ip op [e]); [lia|].
  destruct st as [acc s]. unfold sent_count, pending.
  destruct e as [ip' op' t|ip' op' t]; cbn [out_step].
  - csimpl. unfold AddTrackedOutPacket. destruct (IsTrackedOutListRequestPacket op'); simpl negb; cbn iota.
    + cbn [fst snd listTrackedRequests with_out].
      pose proof (drop_back_length (is_request ip op)
        (fun e => wrap 64 (t - out_inserted e) >? SEC2MS 180)
        (mkTrackPackets ip' t op' :: listTrackedRequests s)) as Hd.
      pose proof (pending_cons ip op (mkTrackPackets ip' t op') (listTrackedRequests s)) as Hp.
      change (is_request ip op (mkTrackPackets ip' t op')) with ((ip' =? ip) && (op' =? op)) in Hp.
      lia.
    + cbn [fst snd]. case_match; lia.
  - unfold IsOnOutTrackList.
    pose proof (take_first_spec (fun e => (out_ip e =? ip') && (out_opcode e =? op') &&
      (wrap 64 (t - out_inserted e) <? SEC2MS 180)) (listTrackedRequests s)) as Ht.
    destruct (take_first _ _) as [[x l']|]; cbn [negb fst snd listTrackedRequests with_out andb].
    + destruct Ht as [Hx HP]. rewrite HP, pending_cons. csimpl.
      apply andb_prop in Hx as [Hx _]. apply andb_prop in Hx as [H1 H2].
      apply Z.eqb_eq in H1, H2.
      assert (is_request ip op x = (ip' =? ip) && (op' =? op)) as -> by (unfold is_request; by subst).
      destruct ((ip' =? ip) && (op' =? op)); lia.
    + csimpl. lia.
Qed.

Lemma pending_nonneg ip op s : 0 <= pending ip op s.
Proof. unfold pending. lia. Qed.

(** Every request in the list was sent, at the tick it carries. *)
Lemma out_run_sent ip op l : forall st x,
  x ∈ listTrackedRequests (fold_left (out_step ip op) l st).2 ->
  x ∈ listTrackedRequests st.2 \/ In (Sent (out_ip x) (out_opcode x) (out_inserted x)) l.
Proof.
  induction l as [|e l IH]; intros st x Hx; [by left|]. cbn [fold_left] in Hx.
  apply IH in Hx as [Hx|Hx]; [|right; by right]. destruct st as [acc s].
  destruct e as [ip' op' t|ip' op' t]; cbn [out_step] in Hx.
  - unfold AddTrackedOutPacket in Hx. destruct (negb _); [by left|].
    cbn [snd listTrackedRequests with_out] in Hx.
    apply drop_back_sub in Hx. apply elem_of_cons in Hx as [->|Hx]; [right; by left|by left].
  - unfold IsOnOutTrackList in Hx.
    pose proof (take_first_spec (fun e => (out_ip e =? ip') && (out_opcode e =? op') &&
      (wrap 64 (t - out_inserted e) <? SEC2MS 180)) (listTrackedRequests s)) as Ht.
    destruct (take_first _ _) as [[y l']|]; cbn [negb snd listTrackedRequests with_out] in Hx; [|by left].
    destruct Ht as [_ HP]. left. simpl. rewrite HP. by right.
Qed.

(** ** Properties *)

(** C24: the flood limit.  In any history of incoming packets from any addresses (ticks that do
    not go back, below 139 years of milliseconds, fewer than 2^31 packets), if a request is
    accepted outside LAN mode, then the packets of its kind that its address sent since any
    earlier one, counted whether accepted or not, are at most the per-minute limit plus one
    for every [60 / limit] seconds that passed.  Clean-ups in between never grant more. *)
Theorem kad_flood_limit (pre win : list in_packet) (first last : in_packet) (op : Z)
  (Hticks : ticks_ok 0 (pre ++ first :: win ++ [last]))
  (Hlen : Z.of_nat (length (pre ++ first :: win ++ [last])) < MAX_PACKETS)
  (Hfirst : counted (pk_ip last) op first = true) (Hlast : counted (pk_ip last) op last = true)
  (Hlan : pk_lan last = false)
  (Hacc : (InTrackListIsAllowedPacket (pk_ip last) (pk_opcode last) (pk_tick last) (pk_lan last)
             (fold_left in_step (pre ++ first :: win) CPacketTracking_init)).1 = Accept) :
  (count_packets (pk_ip last) op win + 1) * req_ms op <=
  limit_of op * req_ms op + (pk_tick last - pk_tick first).
Proof.
  apply ticks_ok_app in Hticks as [Hpre Hrest]. cbn [ticks_ok] in Hrest.
  destruct Hrest as [Hft Hrest]. apply ticks_ok_app in Hrest as [Hwin Hlt].
  cbn [ticks_ok] in Hlt. destruct Hlt as [Hlt _].
  rewrite length_app in Hlen. simpl length in Hlen. rewrite length_app in Hlen. simpl length in Hlen.
  pose proof (last_tick_ge 0 pre Hpre) as Hg1. pose proof (last_tick_ge _ win Hwin) as Hg2.
  set (ip := pk_ip last) in *.
  assert (owes CPacketTracking_init ip op 0 (-1)) as Ho0 by (unfold owes; simpl; lia).
  destruct (in_run_spec ip op pre 0 0 CPacketTracking_init (-1)) as [Hi1 _];
    [lia|lia|apply flood_inv_init|done|lia|done|].
  rewrite fold_left_app in Hacc. cbn [fold_left] in Hacc.
  set (s1 := fold_left in_step pre CPacketTracking_init) in *.
  destruct (InTrackListIsAllowedPacket (pk_ip first) (pk_opcode first) (pk_tick first) (pk_lan first) s1)
    as [v1 s2] eqn:Heq1.
  assert (in_step s1 first = s2) as Hs2 by (unfold in_step; by rewrite Heq1). rewrite Hs2 in Hacc.
  destruct (InTrack_spec (last_tick 0 pre) (0 + Z.of_nat (length pre)) (pk_tick first) _ _ _ _ _ _ Hi1
    ltac:(lia) ltac:(lia) ltac:(lia) Heq1) as (Hi2 & _ & F3).
  assert (pk_ip first = ip) as Hip.
  { unfold counted, counts_for in Hfirst. apply andb_prop in Hfirst as [E _]. by apply Z.eqb_eq. }
  destruct (F3 op) as (r1 & Hr1 & Hb1 & _).
  { rewrite Hip. unfold counted in Hfirst. by rewrite Hip in Hfirst. }
  assert (owes s2 ip op (pk_tick first) (pk_tick first)) as Ho2 by (unfold owes; rewrite <- Hip, Hr1; done).
  destruct (in_run_spec ip op win (pk_tick first) (0 + Z.of_nat (length pre) + 1) s2 (pk_tick first))
    as [Hi3 Ho3]; [lia|lia|done|done|lia|done|].
  set (s3 := fold_left in_step win s2) in *.
  destruct (InTrackListIsAllowedPacket ip (pk_opcode last) (pk_tick last) (pk_lan last) s3)
    as [v s4] eqn:Heq4. simpl in Hacc. subst v.
  destruct (InTrack_spec (last_tick (pk_tick first) win)
    (0 + Z.of_nat (length pre) + 1 + Z.of_nat (length win)) (pk_tick last) _ _ _ _ _ _ Hi3 ltac:(lia) ltac:(lia) ltac:(lia) Heq4) as (_ & F2' & F3').
  destruct (F3' op Hlast) as (r4 & Hr4 & _ & Hfa & Hop4 & Hcnt).
  specialize (F2' ip op _ Ho3). unfold counted in Hlast. fold ip in Hlast. rewrite Hlast in F2'.
  unfold owes in F2'. rewrite Hr4 in F2'. unfold backlog in F2'. rewrite Hop4 in F2'.
  specialize (Hcnt eq_refl Hlan).
  assert (0 <= req_ms op).
  { unfold counts_for in Hlast. apply andb_prop in Hlast as [_ Hl].
    destruct (request_limit (pk_opcode last)) as [[op' a]|] eqn:Hrl; [|done].
    apply Z.eqb_eq in Hl as ->. apply request_limit_spec in Hrl. lia. }
  nia.
Qed.

Definition hello (t : Z) : in_packet := mkInPacket 77 KADEMLIA2_HELLO_REQ t false.

Lemma kad_flood_limit_witness :
  (InTrackListIsAllowedPacket 77 KADEMLIA2_HELLO_REQ 4000 false
     (fold_left in_step [hello 1000; hello 2000; hello 3000] CPacketTracking_init)).1 = Drop /\
  (count_packets 77 KADEMLIA2_HELLO_REQ [hello 2000] + 1) * req_ms KADEMLIA2_HELLO_REQ <=
  limit_of KADEMLIA2_HELLO_REQ * req_ms KADEMLIA2_HELLO_REQ + (3000 - 1000).
Proof.
  split; [vm_compute; reflexivity|].
  apply (kad_flood_limit [] [hello 2000] (hello 1000) (hello 3000) KADEMLIA2_HELLO_REQ);
    vm_compute; intuition congruence.
Defined.

(** Only requested answers.  In any history of sent requests and received answers, an answer
    is accepted only if a request of that opcode was sent to that address less than 180 seconds
    before and is still in the list, and no request admits two answers: the answers accepted
    for an address and opcode are at most the requests sent. *)
Theorem kad_answers_requested (l : list out_event) (ip op now : Z) :
  let '(accepted, s) := fold_left (out_step ip op) l (0, CPacketTracking_init) in
  accepted <= sent_count ip op l /\
  ((IsOnOutTrackList ip op now false s).1 = true ->
   exists t, In (Sent ip op t) l /\ wrap 64 (now - t) < 180000).
Proof.
  pose proof (out_run_pending ip op l (0, CPacketTracking_init)) as Hp.
  pose proof (out_run_sent ip op l (0, CPacketTracking_init)) as Hs.
  destruct (fold_left (out_step ip op) l (0, CPacketTracking_init)) as [acc s].
  pose proof (pending_nonneg ip op s). simpl in Hp. unfold pending at 2 in Hp. simpl in Hp.
  split; [lia|]. unfold IsOnOutTrackList.
  pose proof (take_first_spec (fun e => (out_ip e =? ip) && (out_opcode e =? op) &&
    (wrap 64 (now - out_inserted e) <? SEC2MS 180)) (listTrackedRequests s)) as Ht.
  destruct (take_first _ _) as [[x l']|]; simpl; [|done]. intros _. destruct Ht as [Hx HP].
  destruct (Hs x) as [Hx0|Hx0]; [simpl; rewrite HP; by left|by apply not_elem_of_nil in Hx0|].
  apply andb_prop in Hx as [Hx Ht]. apply andb_prop in Hx as [H1 H2].
  apply Z.eqb_eq in H1, H2. apply Z.ltb_lt in Ht. exists (out_inserted x). by subst.
Qed.
